(* ===== verification/_CoqProject ===== *)
-Q . S2P
Prelude.v
GoIO.v
GoTime.v
GoText.v
GoToken.v
GoJson.v
GoDate.v
Prog.v
Gameproto.v
GameprotoFacts.v
Sentinel.v
SentinelFacts.v
GameAction.v
Netguard.v
NetguardFacts.v
Rbac.v
RbacFacts.v
Rcon.v
RconFacts.v
Idle.v
IdleFacts.v
Retention.v
RetentionFacts.v
Lifecycle.v
LifecycleFacts.v
Power.v
PowerFacts.v
Icu.v
Modlocale.v
IcuFacts.v
ModlocaleFacts.v
LangPack.v
LangPackFacts.v
GoBase64.v
Telemetry.v
TelemetryFacts.v
SourceLimits.v
SourceLimitsFacts.v
GameServer.v
Address.v
Tunnel.v
TunnelPod.v
TunnelFacts.v
Status.v
AddressFacts.v
StatusFacts.v
AuditLog.v
AuditLogFacts.v
Files.v
Volume.v
FilesFacts.v
FilesStore.v
FilesAccess.v
FilesRun.v
FilesDelete.v
Capture.v
CaptureFacts.v
Backup.v
BackupRun.v
BackupFacts.v
BackupPass.v
BackupAdmit.v
BackupSafe.v
BackupReach.v
BackupScenario.v
Accounts.v
AccountsApi.v
AccountsRun.v
AccountsFacts.v
AccountsCore.v
AccountsSafe.v
AccountsReach.v
AccountsScenario.v
Shares.v
SharesFacts.v
Wipe.v
WipeFacts.v
WipeScenario.v
