(* ===== verification/Prelude.v ===== *)
(** * Gameplane: a verification library

    Gameplane runs game servers on Kubernetes.  An operator reconciles GameServer
    objects (power state, idle sleep, backups, restores, wipes); a sentinel stands
    in for a sleeping server and wakes it when a player joins; a relay pod gives a
    server a public or tailnet address; an agent beside each game speaks its
    console protocol; an API server authorizes every request in front of them;
    an audit log records them; message catalogues translate what it says; a
    receiver collects opt-in telemetry behind a proof of work.  This library models
    the parts of the Go code that decide something, and proves what they promise to
    one another.

    ** How to read it

    A Go function [f] becomes a definition [f] over the same data.  Code that
    returns [(T, error)] returns [result] or [option]; code that changes an object
    returns the object after the call; calls to the cluster, the network and the
    clock are inputs (a record of answers, or a function from requests to answers)
    and what the code sends is an output (a list of effects).  Integers that can
    overflow are kept at their width ([s32], [s64], [u32]); a [time.Time] is a
    number of nanoseconds and [Sub] saturates as in Go.  Code outside the
    repository (the cron library, Unicode tables, the DNS resolver, JSON of the
    owner annotation, RFC 3339, the PCAPNG writer) is a section variable or a class with the
    documented law the code relies on, and each theorem that uses such a law has a
    witness with a concrete instance.

    ** Files

    - [Prelude] (this file): results, machine integers, shared tactics and lemmas.
    - [Prog]: programs of calls to a kernel or a cluster, and their traces.
    - [GoIO], [GoText], [GoToken], [GoTime], [GoDate], [GoJson]: what the code uses
      of Go itself: byte readers with errors, UTF-8, [strings] and [strconv], times
      and durations, the calendar with ISO weeks, JSON strings.
    - [Gameproto], [GameprotoFacts]: src/gameproto.  The Minecraft and Terraria
      wire formats byte for byte, the demo protocol, the registry; the class
      [ClassifierLaws] is what the sentinel relies on.
    - [Sentinel], [SentinelFacts]: src/sentinel/main.go.  Port configuration, the
      waker's two critical sections, the UDP heuristic, the connection handlers as
      traces of effects, accept loops and session accounting as a step relation.
    - [GameAction]: src/gameaction/action.go, action parameters and the injection
      guard.
    - [Netguard], [NetguardFacts]: src/netguard/netguard.go, the two outbound
      address policies, the dial hook and the host check.
    - [Rbac], [RbacFacts]: src/api/internal/rbac, scope and auth/perms.go: the
      catalogue, the route rules, permission sets, the whole middleware.
    - [Rcon], [RconFacts]: src/agent/internal/rcon/rcon.go and battleye.go: packet
      codecs, the reply and login loops, the connection state, the BattlEye reply
      demultiplexer.
    - [Idle], [IdleFacts]: src/operator/internal/controller/gameserver_idle.go,
      gameserver_restart.go and the decisions of gameserver_sentinel.go.
    - [Retention], [RetentionFacts]: retention.go of the same directory.
    - [Lifecycle], [LifecycleFacts]: lifecycle_operation.go with the identities of
      backup_guard.go and restore_lifecycle.go: who owns a server.
    - [Power], [PowerFacts]: [desiredReplicas] and [softStop] of
      gameserver_controller.go, with helpers.go.
    - [GameServer]: the fields of api/v1alpha1/gameserver_types.go the next files
      work on, Services and the reads of the cluster.
    - [Address], [AddressFacts]: the game Service of gameserver_controller.go with
      its managed annotations and labels, the address preference, the conflict
      between servers and the AddressAssignment condition.
    - [Tunnel], [TunnelPod], [TunnelFacts]: the operator's side of a tunnel
      (gameserver_tunnel.go) and the relay pod's (src/tunnel): port formats, tags,
      reported endpoints, the supervisor and its monitor as a step relation.
    - [Status], [StatusFacts]: [reconcileStatus] of gameserver_status.go as a
      whole, with gameserver_condition_args.go.
    - [Icu], [IcuFacts]: src/i18n/icu, the parser, the renderer and the
      placeholders of messages; [Modlocale], [ModlocaleFacts]: src/i18n/modlocale;
      [LangPack], [LangPackFacts]: src/i18n/pack and src/i18n/catalog.
    - [GoBase64], [Telemetry], [TelemetryFacts]: src/telemetryschema/pow.go and
      src/telemetry-receiver/pow.go; [SourceLimits], [SourceLimitsFacts]:
      ratelimit.go beside them.
    - [AuditLog], [AuditLogFacts]: src/api/internal/audit, the hash chain with its
      anchors, retention, queries and the S3 mirror.
    - [Files]: src/agent/internal/files, every handler as a program of system
      calls; [Volume]: the part of a Linux file system these calls see, alone or
      beside others; [FilesFacts] confinement, [FilesStore] atomic stores,
      [FilesAccess] access lists, [FilesRun] and [FilesDelete] what the handlers do
      when nobody interferes.
    - [Capture], [CaptureFacts]: src/capture-sidecar/internal/capture, the capture
      file with its limits, the read loop and the filter check, with the default
      filter of the operator's networkcapture_filter.go.
    - [Backup], [BackupRun]: backup_controller.go, backup_worker.go,
      backup_preparation.go, backup_budgets.go, backup_guard.go, backup_manifest.go
      and backup_forget.go of the operator, for restic: a reconcile pass as a
      program of calls that threads the Backup it changes in place, and the script
      of the waiting worker.  [BackupFacts]: the stored Backup, the save-off of the
      game and the start token as a state, what each call may do to it also when it
      fails, the invariant and the rules of a program logic for passes;
      [BackupPass], [BackupAdmit], [BackupSafe]: each step of a pass against it;
      [BackupReach]: reachable states and the theorems; [BackupScenario]: two
      passes run in a world that answers, as witnesses.
    - [Accounts]: the account tables of src/api/internal/db, every SQL statement of
      the account code with its meaning, and the store's operations;
      [AccountsApi]: handlers/users.go, roles.go and binding_permissions.go,
      auth/sessions.go and local.go, the account part of auth/oidc.go and of
      cmd/bootstrap.go, as programs of SQL calls with transactions and the
      user-management mutex.  [AccountsRun]: any number of them side by side, call
      by call, any call failing, and a rely-guarantee logic for such systems with
      its soundness; [AccountsFacts], [AccountsCore]: the part of the tables the
      guards protect, its invariant and each change of it; [AccountsSafe]: every
      request against it; [AccountsReach]: the theorems; [AccountsScenario]:
      concrete runs, as witnesses and to show where the guards end.
    - [Shares], [SharesFacts]: db/shares.go and handlers/shares.go, share links as
      programs of SQL and cluster calls, run in a world that others change between
      any two calls.
    - [Wipe]: gameserver_wipe.go and gameserver_wipe_guard.go, a wipe from its
      request to its completion as a program of cluster calls; [WipeFacts] its
      theorems, under interference and with any pass cut off; [WipeScenario]: runs,
      as witnesses.

    ** What the theorems show

    - Ownership: under every interleaving of claims, crashes, deletions, releases
      and unrelated writes, with updates accepted only at the version read, two
      existing operations never both hold a server; a claim never writes over an
      existing owner, and a granted one has recovered every orphan; the recorded
      owner decides the replica count.
    - Power: a soft stop sends its sequence once and keeps the pod for the grace
      period; a server is put to sleep only when every pass of the period that stored
      its outcome saw it empty (a pass that failed before, or ran under a hold, does
      not count); exactly what wakes it; a wake request is acknowledged in the write that
      honours it.
    - Wake on connect: what a classifier consumed plus what it left is the stream
      that arrived, so a join is forwarded byte for byte; only joins wake; wake
      patches are spaced under any interleaving; the UDP heuristic is bounded and
      backed by packets; the sentinel reads back the ports the operator wrote.
    - Retention: the kept set is exactly the declarative policy over calendar
      periods; deletions are safe and the decision is stable under partial failure.
    - Authorization: a permission check is the existence of a binding row; a served
      request had a rule, a resolved target and a permission or ownership; owner
      operations and ownership grants are tied to the object.
    - Status: Ready, Healthy and Progressing say what the phase says and Running
      means a ready pod with a fresh heartbeat; every published endpoint comes from
      the Service, the tunnel or, without a Service, the status before; a diagnosed allocation failure stays until there is evidence
      against it; contending servers agree on who holds an address; the metadata of
      a Service converges and leaves what others wrote.
    - Tunnels: the relay reads back the configuration the operator wrote, its
      reports pass the operator's checks, both accept the same tags, and readiness
      is never served for a relay that is not running.
    - Messages: the parser is total and its results are exactly the well-formed
      messages; a lookup in any language succeeds when English does and depends on
      the English placeholders only; a pack validates exactly when it loads whole.
    - Telemetry: a solution is accepted once, an honest one is accepted, the
      counters and daily limits are exact, and a client cannot choose the source it
      is counted as.
    - Audit: a table that verifies holds the honest log up to what retention
      removed; an honest log verifies after any failures as long as sweeps take the
      oldest rows, and a sweep that does not leaves a row unchecked; the mirror
      accounts for every event.
    - Files: no request leaves the volume or names a dotfile, whatever happens to
      the volume between its calls; a store is one rename of a complete and synced
      file or nothing; what was written is read back; a replaced file keeps the
      access of everybody else; a recursive delete ends and is all or, for a tree
      with dotfiles, nothing.
    - Backups: however calls fail, wherever a pass is cut off and whichever stored
      version of the Backup it started from, a game whose saving is off is owed a
      save-on on record, for that very process; a pass restores saving only after the
      copy's Jobs and pods were listed idle, and the recovery of an owner that is
      gone only after its workers were; a worker can start only once the
      question of saving is settled, and copies exactly until the deadline on
      record, which never moves.
    - Accounts: under every interleaving of deletions, demotions, role edits, role
      deletions, binding changes and sign-ins, with any database call failing or
      failing to report its success, some account keeps users:manage; a grant on
      another cluster never confers a control-plane permission; a removed account
      is never reached by a session again; a request passes [Authenticate] exactly
      with a live session.  Accounts created in two statements are the exception,
      and the runs that show it are part of the library.
    - Share links: a link wakes only the server it was minted for, also when that
      server is deleted and recreated between the calls of the request; a revoked
      link never leads anywhere again.
    - Wipes: a wipe worker is launched only for a requested wipe of a stopped,
      unused server whose hold is the wipe's own, and a wipe is acknowledged only on
      a worker seen to have succeeded for that request, with no worker left.
    - Captures: whatever writes and flushes fail, a capture file stays within its
      limit plus one packet and is a prefix of what was taken; its counters are
      exact while no write failed; it holds the frames the filter accepts in order.
    - Guards and codecs: address policies as explicit ranges, injection-free
      parameters, packet round trips, reassembly in any order.

    ** Bounds and fuel

    The reply and login loops of the RCON client take fuel from the length of the
    unread stream: every round consumes a packet or stops, so more fuel changes
    nothing ([exec_loop_enough]).  Variable-length integers are read in the five
    rounds the code allows and written in the five groups a 32-bit value needs
    ([varint_groups_enough]); trimming has as many rounds as there are bytes
    ([trim_with_enough]).  The message parser has the length of the text as fuel,
    since each call consumes a character before it recurs ([parse_total]); the
    proof-of-work solver has the budget of nonces it is given ([solve_least] finds
    the least solution within it).  The
    recursive delete of the file browser has fuel for the height of the tree
    ([recursive_delete]); its confinement holds at any fuel.  Every other recursion
    is structural.
    Theorems about clocks assume instants within 2^61 ns (73 years) of each other,
    so that a difference does not saturate; configured periods are bounded by the
    CRD's own minimum and maximum.

    ** Not modelled

    Building Kubernetes objects, SQL engines, sockets and goroutines as such (their
    interleavings are step relations), the web UI, charts, generated code and the
    command-line tools.  Of backups: the volume-snapshot strategy is one call (which
    answers with the Backup as it left it), the recovery of owners that are gone is
    a call whose code is part of [Lifecycle], and the volumes of a capture manifest, the pod specs and the log reader are left
    out; a Backup whose last finalizer is gone is not removed from the state.  Of
    accounts: columns of timestamps, user preferences, the OIDC exchange, hashing
    and random tokens (their results are arguments), and a database that is not
    SQLite on one connection, where a transaction is not atomic.  Next in the plan:
    the restore controller, volume snapshots, the syslog bridge, mods and
    the remaining RCON transports of the agent, the module controllers. *)

From stdpp Require Export prelude gmap strings sorting.
From Stdlib Require Export ZArith Lia.

#[global] Set Default Proof Using "Type".
#[export] Set Default Goal Selector "1".

Local Open Scope Z_scope.

(** ** Results: the Go pair [(value, error)] *)

(** A Go function returning [(T, error)] returns [Ok v] when the error is nil
    and [Err e] otherwise. *)
Inductive result (E A : Type) : Type :=
| Ok (a : A)
| Err (e : E).
Arguments Ok {E A} a.
Arguments Err {E A} e.

#[export] Instance result_ret E : MRet (result E) := fun A a => Ok a.
#[export] Instance result_bind E : MBind (result E) := fun A B f m =>
  match m with Ok a => f a | Err e => Err e end.
#[export] Instance result_fmap E : FMap (result E) := fun A B f m =>
  match m with Ok a => Ok (f a) | Err e => Err e end.

Definition is_ok {E A} (r : result E A) : bool :=
  match r with Ok _ => true | Err _ => false end.

Definition map_err {E F A} (f : E -> F) (r : result E A) : result F A :=
  match r with Ok a => Ok a | Err e => Err (f e) end.

#[export] Instance result_eq_dec {E A} `{EqDecision E, EqDecision A} :
  EqDecision (result E A).
Proof. solve_decision. Defined.

(** ** Automation *)

Create HintDb gp.
Create Rewrite HintDb gpz.

(** Split on every boolean comparison of [Z] in sight and let [lia] close what
    is left. *)
Ltac zbool :=
  repeat match goal with
  | H : context [(?a <? ?b)%Z] |- _ => destruct (Z.ltb_spec a b)
  | H : context [(?a <=? ?b)%Z] |- _ => destruct (Z.leb_spec a b)
  | H : context [(?a =? ?b)%Z] |- _ => destruct (Z.eqb_spec a b)
  | |- context [(?a <? ?b)%Z] => destruct (Z.ltb_spec a b)
  | |- context [(?a <=? ?b)%Z] => destruct (Z.leb_spec a b)
  | |- context [(?a =? ?b)%Z] => destruct (Z.eqb_spec a b)
  end.

(** Destruct the scrutinee of the first [match] or [if] of a hypothesis. *)
Ltac case_in H :=
  match type of H with
  | context [match ?x with _ => _ end] =>
      let E := fresh "E" in destruct x eqn:E
  end.

(** Injectivity as lemmas: unlike [injection] they never reduce the payload. *)
Lemma Ok_inj {E A} (a b : A) : (Ok a : result E A) = Ok b -> a = b.
Proof. by intros [= ->]. Qed.
Lemma Err_inj {E A} (a b : E) : (Err a : result E A) = Err b -> a = b.
Proof. by intros [= ->]. Qed.
Lemma Some_inj' {A} (a b : A) : Some a = Some b -> a = b.
Proof. by intros [= ->]. Qed.
Lemma pair_inj {A B} (a c : A) (b d : B) : (a, b) = (c, d) -> a = c /\ b = d.
Proof. by intros [= -> ->]. Qed.

(** Take apart an equation between results, pairs or options and substitute. *)
Ltac inv_ok :=
  repeat match goal with
  | H : Ok _ = Ok _ |- _ => apply Ok_inj in H; subst
  | H : Err _ = Err _ |- _ => apply Err_inj in H; subst
  | H : Ok _ = Err _ |- _ => discriminate H
  | H : Err _ = Ok _ |- _ => discriminate H
  | H : (_, _) = (_, _) |- _ => apply pair_inj in H; destruct H as [? ?]; subst
  | H : Some _ = Some _ |- _ => apply Some_inj' in H; subst
  | H : Some _ = None |- _ => discriminate H
  | H : None = Some _ |- _ => discriminate H
  end.

(** ** Machine integers *)

Definition u8 (z : Z) : Z := z mod 256.
Definition u16 (z : Z) : Z := z mod 2 ^ 16.
Definition u32 (z : Z) : Z := z mod 2 ^ 32.
(** The two's complement reading of the low 32 and 64 bits. *)
Definition s32 (z : Z) : Z := (z + 2 ^ 31) mod 2 ^ 32 - 2 ^ 31.
Definition s64 (z : Z) : Z := (z + 2 ^ 63) mod 2 ^ 64 - 2 ^ 63.

Definition is_byte (b : Z) : Prop := 0 <= b < 256.
Definition int32_range (z : Z) : Prop := - 2 ^ 31 <= z < 2 ^ 31.

Lemma s32_small z : int32_range z -> s32 z = z.
Proof. unfold int32_range, s32. intros. rewrite Z.mod_small; lia. Qed.

Lemma s32_range z : int32_range (s32 z).
Proof.
  unfold int32_range, s32.
  pose proof (Z.mod_pos_bound (z + 2 ^ 31) (2 ^ 32) ltac:(lia)). lia.
Qed.

Lemma s32_u32 z : int32_range z -> s32 (u32 z) = z.
Proof.
  intros Hz. unfold s32, u32.
  rewrite Z.add_mod_idemp_l by lia. fold (s32 z). by apply s32_small.
Qed.

Lemma u32_range z : 0 <= u32 z < 2 ^ 32.
Proof. apply Z.mod_pos_bound. lia. Qed.

(** [byte & 0x7f] and [byte & 0x80], the two masks of a variable-length
    integer. *)
Lemma land_127 z : Z.land z 127 = z mod 128.
Proof. change 127 with (Z.ones 7). by rewrite Z.land_ones. Qed.

(** A decidable fact about bytes holds when it holds of the 256 of them. *)
Lemma byte_forall (P : Z -> bool) :
  forallb P (seqZ 0 256) = true -> forall b, is_byte b -> P b = true.
Proof.
  unfold is_byte. rewrite forallb_forall. intros Hall b Hb.
  apply Hall, list_elem_of_In, elem_of_seqZ. lia.
Qed.

Lemma land_128_byte b : is_byte b -> Z.land b 128 = if b <? 128 then 0 else 128.
Proof.
  intros Hb. apply Z.eqb_eq. revert b Hb.
  by apply (byte_forall (fun b => Z.land b 128 =? if b <? 128 then 0 else 128)).
Qed.

Lemma lor_128_byte b : 0 <= b < 128 -> Z.lor b 128 = b + 128.
Proof.
  intros Hb. apply Z.eqb_eq.
  assert (H : (128 <=? b) || (Z.lor b 128 =? b + 128) = true).
  { apply (byte_forall (fun b => (128 <=? b) || (Z.lor b 128 =? b + 128)));
      [done | unfold is_byte; lia]. }
  by destruct (Z.leb_spec 128 b); [lia|].
Qed.

(** Or-ing a shifted value onto one that fits below the shift is addition. *)
Lemma lor_shiftl_add a b n :
  0 <= n -> 0 <= a < 2 ^ n -> Z.lor a (Z.shiftl b n) = a + b * 2 ^ n.
Proof.
  intros Hn Ha.
  rewrite <- Z.shiftl_mul_pow2 by done.
  assert (Hdisj : Z.land a (Z.shiftl b n) = 0).
  { apply Z.bits_inj'. intros i Hi. rewrite Z.land_spec, Z.bits_0.
    destruct (Z.ltb_spec i n).
    - rewrite Z.shiftl_spec_low by lia. apply andb_false_r.
    - rewrite <- (Z.mod_small a (2 ^ n)) by lia.
      by rewrite Z.mod_pow2_bits_high by lia. }
  rewrite Z.add_nocarry_lxor by done. symmetry. by apply Z.lxor_lor.
Qed.

Lemma forallb_same {A} (f g : A -> bool) l : (forall x, f x = g x) -> forallb f l = forallb g l.
Proof. intros H. induction l as [|x l IH]; simpl; [done|]. by rewrite H, IH. Qed.
