(* ===== verification/GoIO.v ===== *)
(** * Go I/O: byte streams, [io.ReadFull], [io.ByteReader] and fixed-width
    encodings

    A reader (a [*bufio.Reader] over a connection, or a [*bytes.Reader]) is a
    [stream]: the bytes that will still be delivered and the error the source
    reports after them.  Reads are functions in the [rd] monad: they take the
    stream, return a Go [(value, error)] result, and leave the stream where the
    Go reader would be left, on the error paths as well.  The frame property
    [consumes] (a read removes a prefix and never touches what follows) is
    proved once per primitive and composed by [consumes_bind]. *)

From S2P Require Import Prelude.
Local Open Scope Z_scope.

(** The errors a read can surface: [io.EOF], [io.ErrUnexpectedEOF], or a
    transport error such as a read deadline. *)
Inductive io_err := EOF | ErrUnexpectedEOF | ErrTransport.

#[export] Instance io_err_eq_dec : EqDecision io_err.
Proof. solve_decision. Defined.

Record stream := Stream { pending : list Z; fin : io_err }.

(** [bytes.NewReader(b)] *)
Definition bytes_reader (b : list Z) : stream := Stream b EOF.

Definition rd (E A : Type) : Type := stream -> result E A * stream.

#[export] Instance rd_ret E : MRet (rd E) := fun A a s => (Ok a, s).
#[export] Instance rd_bind E : MBind (rd E) := fun A B f m s =>
  match m s with
  | (Ok a, s') => f a s'
  | (Err e, s') => (Err e, s')
  end.

Definition fail {E A} (e : E) : rd E A := fun s => (Err e, s).

(** Wrapping an error with [fmt.Errorf("...: %w", err)]. *)
Definition wrap {E F A} (f : E -> F) (m : rd E A) : rd F A := fun s =>
  let '(r, s') := m s in (map_err f r, s').

(** [r.ReadByte()] *)
Definition readByte : rd io_err Z := fun s =>
  match pending s with
  | [] => (Err (fin s), s)
  | b :: rest => (Ok b, Stream rest (fin s))
  end.

(** [io.ReadFull(r, buf)] for a buffer of [n] bytes: no byte read gives the
    source's own error, a partial read turns [io.EOF] into
    [io.ErrUnexpectedEOF]. *)
Definition readFull (n : nat) : rd io_err (list Z) := fun s =>
  if decide (n <= length (pending s))%nat
  then (Ok (take n (pending s)), Stream (drop n (pending s)) (fin s))
  else (Err (match pending s, fin s with
             | [], e => e
             | _ :: _, EOF => ErrUnexpectedEOF
             | _ :: _, e => e
             end), Stream [] (fin s)).

(** ** Frame property *)

(** [m] delivers a prefix of the stream and leaves the rest and the final error
    alone, whether it succeeds or fails. *)
Definition consumes {E A} (m : rd E A) : Prop := forall s,
  exists pre, pending s = pre ++ pending (m s).2 /\ fin (m s).2 = fin s.

(** [m] never removes more than [n] bytes. *)
Definition reads_at_most {E A} (n : Z) (m : rd E A) : Prop := forall s,
  Z.of_nat (length (pending s)) <= n + Z.of_nat (length (pending (m s).2)).

Section Frame.
Context {E A B : Type}.

Lemma consumes_ret (a : A) : consumes (mret a : rd E A).
Proof. intros s. by exists []. Qed.

Lemma consumes_fail (e : E) : consumes (fail e : rd E A).
Proof. intros s. by exists []. Qed.

Lemma consumes_bind (m : rd E A) (f : A -> rd E B) :
  consumes m -> (forall a, consumes (f a)) -> consumes (m ≫= f).
Proof.
  intros Hm Hf s. unfold mbind, rd_bind.
  destruct (Hm s) as (p & Hp & Hfin). destruct (m s) as [[a|e] s'] eqn:Es; simpl in *.
  - destruct (Hf a s') as (q & Hq & Hfin'). exists (p ++ q).
    rewrite Hp, Hq at 1. split; [by rewrite app_assoc | congruence].
  - by exists p.
Qed.

Lemma consumes_wrap {F} (g : E -> F) (m : rd E A) : consumes m -> consumes (wrap g m).
Proof. intros Hm s. unfold wrap. specialize (Hm s). by destruct (m s). Qed.

Lemma reads_ret (a : A) n : 0 <= n -> reads_at_most n (mret a : rd E A).
Proof. intros ? s. simpl. lia. Qed.

Lemma reads_fail (e : E) n : 0 <= n -> reads_at_most n (fail e : rd E A).
Proof. intros ? s. simpl. lia. Qed.

Lemma reads_bind (m : rd E A) (f : A -> rd E B) n k :
  0 <= k -> reads_at_most n m -> (forall a, reads_at_most k (f a)) ->
  reads_at_most (n + k) (m ≫= f).
Proof.
  intros Hk Hm Hf s. unfold mbind, rd_bind. specialize (Hm s).
  destruct (m s) as [[a|e] s'] eqn:Es; simpl in *; [|lia].
  specialize (Hf a s'). lia.
Qed.

Lemma reads_wrap {F} (g : E -> F) (m : rd E A) n :
  reads_at_most n m -> reads_at_most n (wrap g m).
Proof. intros Hm s. unfold wrap. specialize (Hm s). by destruct (m s). Qed.

Lemma reads_le (m : rd E A) n k :
  reads_at_most n m -> n <= k -> reads_at_most k m.
Proof. intros Hm Hle s. specialize (Hm s). lia. Qed.
End Frame.

Lemma consumes_readByte : consumes readByte.
Proof.
  intros [[|b p] f]; unfold readByte; simpl; [by exists [] | by exists [b]].
Qed.

Lemma consumes_readFull n : consumes (readFull n).
Proof.
  intros [p f]. unfold readFull; simpl. case_decide; simpl.
  - exists (take n p). by rewrite take_drop.
  - exists p. by rewrite app_nil_r.
Qed.

Lemma reads_readByte : reads_at_most 1 readByte.
Proof. intros [[|b p] f]; unfold readByte; simpl; lia. Qed.

Lemma reads_readFull n : reads_at_most (Z.of_nat n) (readFull n).
Proof.
  intros [p f]. unfold readFull; simpl.
  case_decide; simpl; [rewrite length_drop|]; lia.
Qed.

#[export] Hint Resolve consumes_ret consumes_fail consumes_bind consumes_wrap
  consumes_readByte consumes_readFull : gp.
#[export] Hint Resolve reads_ret reads_fail reads_wrap reads_readByte
  reads_readFull : gp.

(** A successful [readFull] splits off exactly the bytes it returns. *)
Lemma readFull_app n p rest f :
  length p = n -> readFull n (Stream (p ++ rest) f) = (Ok p, Stream rest f).
Proof.
  intros Hn. unfold readFull; simpl. rewrite decide_True by (rewrite length_app; lia).
  by rewrite take_app_length', drop_app_length' by done.
Qed.

Lemma readFull_Ok n s p s' :
  readFull n s = (Ok p, s') ->
  length p = n /\ pending s = p ++ pending s' /\ fin s' = fin s.
Proof.
  unfold readFull. case_decide; intros H'; [|by inv_ok]. inv_ok. simpl.
  rewrite length_take, take_drop. split; [lia | done].
Qed.

(** ** Fixed-width encodings *)

(** [binary.LittleEndian.AppendUint16/AppendUint32] *)
Definition le16 (z : Z) : list Z := [u8 z; u8 (Z.shiftr z 8)].
Definition le32 (z : Z) : list Z :=
  [u8 z; u8 (Z.shiftr z 8); u8 (Z.shiftr z 16); u8 (Z.shiftr z 24)].

(** [binary.LittleEndian.Uint16(b)], [Uint32(b)], [binary.BigEndian.Uint16(b)]:
    indexing past the end panics in Go, the callers below always pass slices
    that are long enough. *)
Definition nthb (b : list Z) (i : nat) : Z := nth i b 0.
Definition le_u16 (b : list Z) : Z := Z.lor (nthb b 0) (Z.shiftl (nthb b 1) 8).
Definition le_u32 (b : list Z) : Z :=
  Z.lor (Z.lor (Z.lor (nthb b 0) (Z.shiftl (nthb b 1) 8))
               (Z.shiftl (nthb b 2) 16)) (Z.shiftl (nthb b 3) 24).
Definition be_u16 (b : list Z) : Z := Z.lor (nthb b 1) (Z.shiftl (nthb b 0) 8).

Lemma u8_range z : is_byte (u8 z).
Proof. unfold is_byte, u8. pose proof (Z.mod_pos_bound z 256 ltac:(lia)). lia. Qed.

Lemma le_u16_le16 z rest : 0 <= z < 2 ^ 16 -> le_u16 (le16 z ++ rest) = z.
Proof.
  intros Hz. unfold le_u16, le16, nthb, u8. simpl.
  rewrite lor_shiftl_add by (try apply Z.mod_pos_bound; lia).
  rewrite Z.shiftr_div_pow2 by lia. change (2 ^ 8) with 256.
  rewrite (Z.mod_small (z / 256)) by (split; [apply Z.div_pos|apply Z.div_lt_upper_bound]; lia).
  pose proof (Z.div_mod z 256). lia.
Qed.

Lemma le_u32_le32 z rest : 0 <= z < 2 ^ 32 -> le_u32 (le32 z ++ rest) = z.
Proof.
  intros Hz. unfold le_u32, le32, nthb, u8. simpl.
  rewrite !Z.shiftr_div_pow2 by lia.
  change (2 ^ 8) with 256. change (2 ^ 16) with 65536. change (2 ^ 24) with 16777216.
  pose proof (Z.mod_pos_bound z 256 ltac:(lia)).
  pose proof (Z.mod_pos_bound (z / 256) 256 ltac:(lia)).
  pose proof (Z.mod_pos_bound (z / 65536) 256 ltac:(lia)).
  pose proof (Z.mod_pos_bound (z / 16777216) 256 ltac:(lia)).
  rewrite (lor_shiftl_add (z mod 256)) by lia.
  change (2 ^ 8) with 256.
  rewrite (lor_shiftl_add _ _ 16) by (change (2 ^ 16) with 65536; lia).
  change (2 ^ 16) with 65536.
  rewrite (lor_shiftl_add _ _ 24) by (change (2 ^ 24) with 16777216; lia).
  rewrite (Z.mod_small (z / 16777216)) by
    (split; [apply Z.div_pos|apply Z.div_lt_upper_bound]; lia).
  change (2 ^ 24) with 16777216.
  replace (z / 65536) with (z / 256 / 256) by (rewrite Z.div_div; done || lia).
  replace (z / 16777216) with (z / 256 / 256 / 256) by (rewrite !Z.div_div; done || lia).
  pose proof (Z.div_mod z 256). pose proof (Z.div_mod (z / 256) 256).
  pose proof (Z.div_mod (z / 256 / 256) 256). lia.
Qed.

Lemma length_le16 z : length (le16 z) = 2%nat.
Proof. done. Qed.

Lemma length_le32 z : length (le32 z) = 4%nat.
Proof. done. Qed.

Lemma le32_bytes z : Forall is_byte (le32 z).
Proof. repeat constructor; apply u8_range. Qed.
