(* ===== verification/GoTime.v ===== *)
(** * Go time: instants and durations

    A [time.Time] is the number of nanoseconds since Go's zero time (1 January of
    year 1, UTC), so the zero value is [0]; a [time.Duration] is an int64 number
    of nanoseconds.  [Sub] saturates as [time.Time.Sub] does. *)

From S2P Require Import Prelude.
Local Open Scope Z_scope.

Definition time := Z.
Definition duration := Z.

Definition zero_time : time := 0.
(** [t.IsZero()] *)
Definition IsZero (t : time) : bool := t =? zero_time.
(** [t.After(u)], [t.Before(u)] *)
Definition After (t u : time) : bool := u <? t.
Definition Before (t u : time) : bool := t <? u.

Definition maxDuration : duration := 2 ^ 63 - 1.
Definition minDuration : duration := - 2 ^ 63.

(** [t.Sub(u)] *)
Definition Sub (t u : time) : duration := Z.max minDuration (Z.min maxDuration (t - u)).

Definition Nanosecond : duration := 1.
Definition Millisecond : duration := 10 ^ 6.
Definition Second : duration := 10 ^ 9.
Definition Minute : duration := 60 * Second.

(** [t.Unix()]: seconds since 1970, [62135596800] seconds after the zero time. *)
Definition Unix (t : time) : Z := t / Second - 62135596800.

(** A duration below the saturation bounds compares as the plain difference. *)
Lemma Sub_lt t u d : minDuration < d <= maxDuration -> Sub t u < d <-> t - u < d.
Proof. unfold Sub, minDuration, maxDuration. lia. Qed.

Lemma Sub_le_max t u : Sub t u <= maxDuration.
Proof. unfold Sub, minDuration, maxDuration. lia. Qed.

Lemma Sub_exact t u : minDuration <= t - u <= maxDuration -> Sub t u = t - u.
Proof. unfold Sub, minDuration, maxDuration. lia. Qed.
