(* ===== verification/GoText.v ===== *)
(** * Go text: UTF-8, runes and the [strings]/[strconv] functions in use

    A Go string is a sequence of bytes.  Text that is compared with literals is
    a Rocq [string] (one [ascii] per byte); [bytes_of] and [string_of] convert
    to and from the [list Z] used for wire data.  [runes] is the sequence a
    [for _, r := range s] loop visits: invalid bytes appear as U+FFFD, one at a
    time, exactly as [utf8.DecodeRuneInString] reports them. *)

From S2P Require Import Prelude.
From stdpp Require Import pretty.
Local Open Scope Z_scope.


(** ** Bytes of a string *)

Definition byte_of_ascii (c : Ascii.ascii) : Z := Z.of_N (Ascii.N_of_ascii c).
Definition ascii_of_byte (b : Z) : Ascii.ascii := Ascii.ascii_of_N (Z.to_N b).

Fixpoint bytes_of (s : string) : list Z :=
  match s with
  | EmptyString => []
  | String c s' => byte_of_ascii c :: bytes_of s'
  end.

Fixpoint string_of (b : list Z) : string :=
  match b with
  | [] => EmptyString
  | c :: b' => String (ascii_of_byte c) (string_of b')
  end.

Lemma string_of_bytes_of s : string_of (bytes_of s) = s.
Proof.
  induction s as [|c s IH]; simpl; [done|].
  unfold ascii_of_byte, byte_of_ascii. by rewrite N2Z.id, Ascii.ascii_N_embedding, IH.
Qed.

Lemma byte_of_ascii_range c : is_byte (byte_of_ascii c).
Proof.
  unfold byte_of_ascii, is_byte. pose proof (Ascii.N_ascii_bounded c). lia.
Qed.

Lemma bytes_of_range s : Forall is_byte (bytes_of s).
Proof. induction s; simpl; constructor; auto using byte_of_ascii_range. Qed.

Lemma bytes_of_string_of b : Forall is_byte b -> bytes_of (string_of b) = b.
Proof.
  induction 1 as [|c b Hc _ IH]; simpl; [done|].
  unfold ascii_of_byte, byte_of_ascii. unfold is_byte in Hc.
  rewrite Ascii.N_ascii_embedding by lia. rewrite Z2N.id by lia. by f_equal.
Qed.

Lemma bytes_of_inj s t : bytes_of s = bytes_of t -> s = t.
Proof. intros H. by rewrite <- (string_of_bytes_of s), H, string_of_bytes_of. Qed.

(** ** UTF-8 *)

(** [utf8.RuneError], U+FFFD. *)
Definition rune_error : Z := 0xFFFD.

Definition in_range (lo hi b : Z) : bool := (lo <=? b) && (b <=? hi).
Definition is_cont (b : Z) : bool := in_range 0x80 0xBF b.

(** The accept range of the second byte, as in the table of [unicode/utf8]. *)
Definition second_ok (b0 b1 : Z) : bool :=
  if b0 =? 0xE0 then in_range 0xA0 0xBF b1
  else if b0 =? 0xED then in_range 0x80 0x9F b1
  else if b0 =? 0xF0 then in_range 0x90 0xBF b1
  else if b0 =? 0xF4 then in_range 0x80 0x8F b1
  else is_cont b1.

(** [utf8.DecodeRune(p)] for a non-empty [p]: the rune and its width. *)
Definition decode_rune (b0 : Z) (rest : list Z) : Z * nat :=
  if b0 <? 0x80 then (b0, 1%nat)
  else if in_range 0xC2 0xDF b0 then
    match rest with
    | b1 :: _ =>
        if is_cont b1
        then (Z.lor (Z.shiftl (Z.land b0 0x1F) 6) (Z.land b1 0x3F), 2%nat)
        else (rune_error, 1%nat)
    | [] => (rune_error, 1%nat)
    end
  else if in_range 0xE0 0xEF b0 then
    match rest with
    | b1 :: b2 :: _ =>
        if second_ok b0 b1 && is_cont b2
        then (Z.lor (Z.lor (Z.shiftl (Z.land b0 0x0F) 12)
                           (Z.shiftl (Z.land b1 0x3F) 6)) (Z.land b2 0x3F), 3%nat)
        else (rune_error, 1%nat)
    | _ => (rune_error, 1%nat)
    end
  else if in_range 0xF0 0xF4 b0 then
    match rest with
    | b1 :: b2 :: b3 :: _ =>
        if second_ok b0 b1 && is_cont b2 && is_cont b3
        then (Z.lor (Z.lor (Z.lor (Z.shiftl (Z.land b0 0x07) 18)
                                  (Z.shiftl (Z.land b1 0x3F) 12))
                           (Z.shiftl (Z.land b2 0x3F) 6)) (Z.land b3 0x3F), 4%nat)
        else (rune_error, 1%nat)
    | _ => (rune_error, 1%nat)
    end
  else (rune_error, 1%nat).

(** [for _, r := range s]: [skip] counts the bytes of the current rune that are
    still to be passed over. *)
Fixpoint runes_from (skip : nat) (b : list Z) : list Z :=
  match b with
  | [] => []
  | b0 :: rest =>
      match skip with
      | S k => runes_from k rest
      | O => let '(r, w) := decode_rune b0 rest in r :: runes_from (w - 1) rest
      end
  end.
Definition runes (b : list Z) : list Z := runes_from 0 b.

(** [utf8.RuneCountInString(s)] *)
Definition rune_count (b : list Z) : nat := length (runes b).

(** [utf8.AppendRune(nil, r)], which is also [strings.Builder.WriteRune]. *)
Definition encode_rune (r : Z) : list Z :=
  let enc3 r := [Z.lor 0xE0 (Z.shiftr r 12);
                 Z.lor 0x80 (Z.land (Z.shiftr r 6) 0x3F); Z.lor 0x80 (Z.land r 0x3F)] in
  if (0 <=? r) && (r <? 0x80) then [r]
  else if (0 <=? r) && (r <? 0x800) then
    [Z.lor 0xC0 (Z.shiftr r 6); Z.lor 0x80 (Z.land r 0x3F)]
  else if (r <? 0) || (0x10FFFF <? r) || in_range 0xD800 0xDFFF r then enc3 rune_error
  else if r <? 0x10000 then enc3 r
  else [Z.lor 0xF0 (Z.shiftr r 18); Z.lor 0x80 (Z.land (Z.shiftr r 12) 0x3F);
        Z.lor 0x80 (Z.land (Z.shiftr r 6) 0x3F); Z.lor 0x80 (Z.land r 0x3F)].

(** ** [unicode.IsSpace], [strings.TrimSpace] *)

Definition ascii_space (b : Z) : bool := in_range 9 13 b || (b =? 32).

(** The first rune of [b] is white space ([unicode.IsSpace]): the bytes after
    it.  The multi-byte cases are U+0085, U+00A0, U+1680, U+2000-U+200A,
    U+2028, U+2029, U+202F, U+205F and U+3000. *)
Definition eat_space (b : list Z) : option (list Z) :=
  match b with
  | [] => None
  | b0 :: r0 =>
      if ascii_space b0 then Some r0
      else match r0 with
      | [] => None
      | b1 :: r1 =>
          if (b0 =? 0xC2) && ((b1 =? 0x85) || (b1 =? 0xA0)) then Some r1
          else match r1 with
          | [] => None
          | b2 :: r2 =>
              if ((b0 =? 0xE1) && (b1 =? 0x9A) && (b2 =? 0x80))
                 || ((b0 =? 0xE2) && (b1 =? 0x80) &&
                     (in_range 0x80 0x8A b2 || (b2 =? 0xA8) || (b2 =? 0xA9) || (b2 =? 0xAF)))
                 || ((b0 =? 0xE2) && (b1 =? 0x81) && (b2 =? 0x9F))
                 || ((b0 =? 0xE3) && (b1 =? 0x80) && (b2 =? 0x80))
              then Some r2 else None
          end
      end
  end.

(** The same, reading a reversed string: the last rune is white space. *)
Definition eat_space_rev (b : list Z) : option (list Z) :=
  match b with
  | [] => None
  | b0 :: r0 =>
      if ascii_space b0 then Some r0
      else match r0 with
      | [] => None
      | b1 :: r1 =>
          match eat_space [b1; b0] with
          | Some [] => Some r1
          | _ => match r1 with
                 | [] => None
                 | b2 :: r2 =>
                     match eat_space [b2; b1; b0] with
                     | Some [] => Some r2
                     | _ => None
                     end
                 end
          end
      end
  end.

Fixpoint trim_with (eat : list Z -> option (list Z)) (fuel : nat) (b : list Z) : list Z :=
  match fuel with
  | O => b
  | S n => match eat b with Some b' => trim_with eat n b' | None => b end
  end.

(** [strings.TrimSpace]; every step removes a byte, so the length is enough
    fuel ([trim_with_enough] below). *)
Definition trim_space_bytes (b : list Z) : list Z :=
  let l := trim_with eat_space (length b) b in
  rev (trim_with eat_space_rev (length l) (rev l)).
Definition TrimSpace (s : string) : string := string_of (trim_space_bytes (bytes_of s)).

(** ** [strings] *)

Fixpoint drop_str (n : nat) (s : string) : string :=
  match n, s with
  | O, _ => s
  | S k, EmptyString => EmptyString
  | S k, String _ s' => drop_str k s'
  end.

(** [strings.HasPrefix], [strings.HasSuffix], [strings.TrimPrefix],
    [strings.TrimSuffix] *)
Definition HasPrefix (s p : string) : bool := String.prefix p s.
Definition HasSuffix (s p : string) : bool :=
  (String.length p <=? String.length s)%nat &&
  String.eqb (drop_str (String.length s - String.length p) s) p.
Definition TrimPrefix (s p : string) : string :=
  if HasPrefix s p then drop_str (String.length p) s else s.
Definition TrimSuffix (s p : string) : string :=
  if HasSuffix s p
  then String.substring 0 (String.length s - String.length p) s else s.

(** Cut at the first byte satisfying [f]: what precedes it, the byte, what
    follows.  [strings.IndexByte] and [strings.IndexAny] (for ASCII sets) are
    used in the sources only to cut. *)
Fixpoint cut_at (f : Ascii.ascii -> bool) (s : string)
  : option (string * Ascii.ascii * string) :=
  match s with
  | EmptyString => None
  | String c s' =>
      if f c then Some (EmptyString, c, s')
      else match cut_at f s' with
           | Some (pre, d, post) => Some (String c pre, d, post)
           | None => None
           end
  end.

(** [strings.Split(s, sep)] for a one-byte separator. *)
Fixpoint split_on (sep : Ascii.ascii) (s : string) : list string :=
  match s with
  | EmptyString => [EmptyString]
  | String c s' =>
      match split_on sep s' with
      | [] => []
      | w :: ws => if Ascii.eqb c sep then EmptyString :: w :: ws else String c w :: ws
      end
  end.

(** [strings.Trim(s, cutset)] for a one-byte cutset. *)
Fixpoint trim_left_byte (c : Ascii.ascii) (s : string) : string :=
  match s with
  | String d s' => if Ascii.eqb d c then trim_left_byte c s' else s
  | EmptyString => EmptyString
  end.
Definition rev_str (s : string) : string := string_of (rev (bytes_of s)).
Definition trim_byte (c : Ascii.ascii) (s : string) : string :=
  rev_str (trim_left_byte c (rev_str (trim_left_byte c s))).

(** [strings.ToLower]/[strings.ToUpper] map every rune with
    [unicode.ToLower]/[ToUpper].  ASCII is written out; [uni] stands for the
    Unicode tables above it. *)
Definition ascii_lower (r : Z) : Z := if in_range 65 90 r then r + 32 else r.
Definition ascii_upper (r : Z) : Z := if in_range 97 122 r then r - 32 else r.
Definition map_runes (f : Z -> Z) (b : list Z) : list Z :=
  concat (map (fun r => encode_rune (f r)) (runes b)).
Definition ToLower (uni : Z -> Z) (s : string) : string :=
  string_of (map_runes (fun r => if r <? 0x80 then ascii_lower r else uni r) (bytes_of s)).
Definition ToUpper (uni : Z -> Z) (s : string) : string :=
  string_of (map_runes (fun r => if r <? 0x80 then ascii_upper r else uni r) (bytes_of s)).

(** ** [strconv] *)

Definition is_digit (b : Z) : bool := in_range 48 57 b.

Fixpoint digits_value (acc : Z) (b : list Z) : option Z :=
  match b with
  | [] => Some acc
  | d :: b' => if is_digit d then digits_value (acc * 10 + (d - 48)) b' else None
  end.

Definition parse_uint (b : list Z) : option Z :=
  match b with [] => None | _ => digits_value 0 b end.

(** [strconv.ParseInt(s, 10, 64)] (and [strconv.Atoi] on 64-bit platforms):
    [None] is a syntax or range error. *)
Definition ParseInt64 (s : string) : option Z :=
  match bytes_of s with
  | [] => None
  | c :: b =>
      if c =? 43 then
        match parse_uint b with
        | Some n => if n <? 2 ^ 63 then Some n else None
        | None => None
        end
      else if c =? 45 then
        match parse_uint b with
        | Some n => if n <=? 2 ^ 63 then Some (- n) else None
        | None => None
        end
      else
        match parse_uint (c :: b) with
        | Some n => if n <? 2 ^ 63 then Some n else None
        | None => None
        end
  end.

(** [strconv.Itoa] and [strconv.FormatInt(n, 10)] *)
Definition Itoa (z : Z) : string := pretty z.

(** ** Facts *)

Lemma in_range_spec lo hi b : in_range lo hi b = true <-> lo <= b <= hi.
Proof. unfold in_range. rewrite andb_true_iff, !Z.leb_le. done. Qed.

Lemma lor_ge_l a b : 0 <= a -> 0 <= b -> a <= Z.lor a b.
Proof.
  intros Ha Hb. apply Z.ldiff_le; [by apply Z.lor_nonneg|].
  apply Z.bits_inj'. intros i Hi. rewrite Z.ldiff_spec, Z.lor_spec, Z.bits_0.
  by destruct (Z.testbit a i).
Qed.

Lemma lor_ge_r a b : 0 <= a -> 0 <= b -> b <= Z.lor a b.
Proof. rewrite Z.lor_comm. intros. by apply lor_ge_l. Qed.

Lemma lor_ge x a b : 0 <= a -> 0 <= b -> x <= a \/ x <= b -> x <= Z.lor a b.
Proof.
  intros Ha Hb [H|H]; (etransitivity; [exact H|]); [by apply lor_ge_l|].
  rewrite Z.lor_comm. by apply lor_ge_l.
Qed.

Lemma land_shiftl_nonneg b m n : 0 <= b -> 0 <= Z.shiftl (Z.land b m) n.
Proof. intros Hb. apply Z.shiftl_nonneg, Z.land_nonneg. by left. Qed.

Lemma land_nonneg_l b m : 0 <= b -> 0 <= Z.land b m.
Proof. intros Hb. apply Z.land_nonneg. by left. Qed.

Lemma cont_not_ascii b : is_cont b = true -> 0x80 <= b.
Proof. unfold is_cont. rewrite in_range_spec. lia. Qed.

Lemma second_ok_not_ascii b0 b : second_ok b0 b = true -> 0x80 <= b.
Proof.
  unfold second_ok. intros H. repeat case_in H;
    first [apply in_range_spec in H; lia | by apply cont_not_ascii].
Qed.

(** What the bytes of a multi-byte rune contribute is never below 0x80. *)
Lemma lead2_ge b : in_range 0xC2 0xDF b = true -> 0x80 <= Z.shiftl (Z.land b 0x1F) 6.
Proof.
  intros H. apply Z.leb_le. pose proof H as Hr. apply in_range_spec in Hr.
  apply (implb_true_iff (in_range 0xC2 0xDF b)), H.
  by apply (byte_forall (fun b => implb (in_range 0xC2 0xDF b) (0x80 <=? Z.shiftl (Z.land b 0x1F) 6)));
    [|unfold is_byte; lia].
Qed.

Lemma lead3_ge b0 b1 :
  in_range 0xE0 0xEF b0 = true -> second_ok b0 b1 = true ->
  0x80 <= Z.lor (Z.shiftl (Z.land b0 0x0F) 12) (Z.shiftl (Z.land b1 0x3F) 6).
Proof.
  intros H0 H1. pose proof (proj1 (in_range_spec _ _ _) H0).
  pose proof (second_ok_not_ascii _ _ H1).
  apply lor_ge; [apply land_shiftl_nonneg; lia..|].
  destruct (Z.eqb_spec b0 0xE0) as [->|Hne].
  - right. unfold second_ok in H1; simpl in H1. pose proof (proj1 (in_range_spec _ _ _) H1).
    apply Z.leb_le, (implb_true_iff (in_range 0xA0 0xBF b1)), H1.
    by apply (byte_forall (fun b => implb (in_range 0xA0 0xBF b) (0x80 <=? Z.shiftl (Z.land b 0x3F) 6)));
      [|unfold is_byte; lia].
  - left. apply Z.leb_le, (implb_true_iff (in_range 0xE1 0xEF b0)); [|apply in_range_spec; lia].
    by apply (byte_forall (fun b => implb (in_range 0xE1 0xEF b) (0x80 <=? Z.shiftl (Z.land b 0x0F) 12)));
      [|unfold is_byte; lia].
Qed.

Lemma lead4_ge b0 b1 :
  in_range 0xF0 0xF4 b0 = true -> second_ok b0 b1 = true ->
  0x80 <= Z.lor (Z.shiftl (Z.land b0 0x07) 18) (Z.shiftl (Z.land b1 0x3F) 12).
Proof.
  intros H0 H1. pose proof (proj1 (in_range_spec _ _ _) H0).
  pose proof (second_ok_not_ascii _ _ H1).
  apply lor_ge; [apply land_shiftl_nonneg; lia..|].
  destruct (Z.eqb_spec b0 0xF0) as [->|Hne].
  - right. unfold second_ok in H1; simpl in H1. pose proof (proj1 (in_range_spec _ _ _) H1).
    apply Z.leb_le, (implb_true_iff (in_range 0x90 0xBF b1)), H1.
    by apply (byte_forall (fun b => implb (in_range 0x90 0xBF b) (0x80 <=? Z.shiftl (Z.land b 0x3F) 12)));
      [|unfold is_byte; lia].
  - left. apply Z.leb_le, (implb_true_iff (in_range 0xF1 0xF4 b0)); [|apply in_range_spec; lia].
    by apply (byte_forall (fun b => implb (in_range 0xF1 0xF4 b) (0x80 <=? Z.shiftl (Z.land b 0x07) 18)));
      [|unfold is_byte; lia].
Qed.

(** A decoded rune below U+0080 is a byte on its own; a longer rune decodes to
    0x80 or more and is made of bytes of 0x80 or more. *)
Lemma decode_rune_ascii b0 rest r w :
  0 <= b0 -> Forall is_byte rest -> decode_rune b0 rest = (r, w) ->
  if b0 <? 0x80 then r = b0 /\ w = 1%nat
  else 0x80 <= r /\ Forall (fun b => 0x80 <= b) (take (w - 1) rest).
Proof.
  intros Hb Hrest. unfold decode_rune.
  destruct (Z.ltb_spec b0 128); [by intros [= <- <-]|].
  assert (Herr : (rune_error, 1%nat) = (r, w) ->
    0x80 <= r /\ Forall (fun b => 0x80 <= b) (take (w - 1) rest))
    by (intros [= <- <-]; split; [unfold rune_error; lia|constructor]).
  rewrite Forall_forall in Hrest. unfold is_byte in Hrest.
  destruct (in_range 194 223 b0) eqn:E2; [|destruct (in_range 224 239 b0) eqn:E3;
    [|destruct (in_range 240 244 b0) eqn:E4; [|done]]].
  - destruct rest as [|b1 rest]; [done|]. destruct (is_cont b1) eqn:C1; [|done].
    apply cont_not_ascii in C1. intros [= <- <-]. split; [|by repeat constructor].
    apply lor_ge; [apply land_shiftl_nonneg; lia|apply land_nonneg_l; lia|left; by apply lead2_ge].
  - destruct rest as [|b1 [|b2 rest]]; [done..|].
    destruct (second_ok b0 b1) eqn:C1, (is_cont b2) eqn:C2; simpl; try done.
    pose proof (lead3_ge _ _ E3 C1).
    apply second_ok_not_ascii in C1. apply cont_not_ascii in C2.
    intros [= <- <-]. split; [|by repeat constructor].
    apply lor_ge; [lia|apply land_nonneg_l; lia|by left].
  - destruct rest as [|b1 [|b2 [|b3 rest]]]; [done..|].
    destruct (second_ok b0 b1) eqn:C1, (is_cont b2) eqn:C2, (is_cont b3) eqn:C3; simpl; try done.
    pose proof (lead4_ge _ _ E4 C1).
    apply second_ok_not_ascii in C1. apply cont_not_ascii in C2, C3.
    intros [= <- <-]. split; [|by repeat constructor].
    apply lor_ge; [|apply land_nonneg_l; lia|left; apply lor_ge; [lia|apply land_shiftl_nonneg; lia|by left]].
    apply Z.lor_nonneg. split; [lia|apply land_shiftl_nonneg; lia].
Qed.

Lemma elem_of_drop_high (r : Z) k (b : list Z) :
  r < 0x80 -> Forall (fun c => 0x80 <= c) (take k b) -> r ∈ b <-> r ∈ drop k b.
Proof.
  intros Hr Hk. rewrite <- (take_drop k b) at 1. rewrite elem_of_app.
  rewrite Forall_forall in Hk. split; [intros [H|H]; [specialize (Hk _ H); lia|done]|by right].
Qed.

(** The runes below U+0080 of a string are its bytes below 0x80: a check on
    ASCII characters may be done byte-wise, also on invalid UTF-8. *)
Lemma runes_from_ascii r k b :
  r < 0x80 -> Forall is_byte b -> r ∈ runes_from k b <-> r ∈ drop k b.
Proof.
  intros Hr. revert k. induction b as [|b0 rest IH]; intros k Hb.
  { destruct k; done. }
  inversion_clear Hb as [|? ? Hb0 Hrest]. destruct k as [|k]; simpl; [|by apply IH].
  destruct (decode_rune b0 rest) as [x w] eqn:E.
  pose proof (decode_rune_ascii b0 rest x w ltac:(unfold is_byte in Hb0; lia) Hrest E) as Hd.
  rewrite !elem_of_cons, IH by done.
  destruct (Z.ltb_spec b0 0x80).
  - destruct Hd as [-> ->]. by rewrite drop_0.
  - destruct Hd as [Hx Hw]. rewrite (elem_of_drop_high r (w - 1) rest) by done.
    split; (intros [->|?]; [lia|by right]).
Qed.

Lemma runes_ascii r b : r < 0x80 -> Forall is_byte b -> r ∈ runes b <-> r ∈ b.
Proof. intros. unfold runes. by rewrite runes_from_ascii, drop_0. Qed.

Lemma runes_nonneg b : Forall is_byte b -> Forall (fun r => 0 <= r) (runes b).
Proof.
  unfold runes. generalize 0%nat as k. induction b as [|b0 rest IH]; intros k Hb; simpl; [constructor|].
  inversion_clear Hb as [|? ? Hb0 Hrest]. destruct k as [|k]; [|by apply IH].
  destruct (decode_rune b0 rest) as [x w] eqn:E. unfold is_byte in Hb0.
  pose proof (decode_rune_ascii b0 rest x w ltac:(lia) Hrest E) as Hd.
  constructor; [|by apply IH]. destruct (b0 <? 128); destruct Hd; lia.
Qed.

(** Trimming stops for lack of white space, never for lack of fuel. *)
Lemma trim_with_enough eat n b :
  (forall b b', eat b = Some b' -> (length b' < length b)%nat) ->
  (length b <= n)%nat -> eat (trim_with eat n b) = None \/ trim_with eat n b = [].
Proof.
  intros Heat. revert b. induction n as [|n IH]; intros b Hn; simpl.
  - right. destruct b; [done|simpl in Hn; lia].
  - destruct (eat b) as [b'|] eqn:E; [|by left]. apply IH. apply Heat in E. lia.
Qed.

(** What [strconv.ParseInt] accepts is an optional sign and digits. *)
Definition int_char (b : Z) : bool := is_digit b || (b =? 43) || (b =? 45).

Lemma digits_value_chars acc b n :
  digits_value acc b = Some n -> Forall (fun c => is_digit c = true) b.
Proof.
  revert acc. induction b as [|d b IH]; intros acc H; [constructor|]. simpl in H.
  destruct (is_digit d) eqn:E; [|done]. constructor; eauto.
Qed.

Lemma parse_uint_chars b n :
  parse_uint b = Some n -> Forall (fun c => int_char c = true) b.
Proof.
  intros H. apply Forall_impl with (fun c => is_digit c = true).
  - unfold parse_uint in H. destruct b; [done|]. by eapply digits_value_chars.
  - intros c Hc. unfold int_char. by rewrite Hc.
Qed.

Lemma ParseInt64_chars s n :
  ParseInt64 s = Some n -> Forall (fun c => int_char c = true) (bytes_of s).
Proof.
  unfold ParseInt64. destruct (bytes_of s) as [|c b]; [done|]. intros H.
  destruct (Z.eqb_spec c 43) as [->|]; [|destruct (Z.eqb_spec c 45) as [->|]].
  - destruct (parse_uint b) eqn:E; [|done]. constructor; [done|]. by eapply parse_uint_chars.
  - destruct (parse_uint b) eqn:E; [|done]. constructor; [done|]. by eapply parse_uint_chars.
  - destruct (parse_uint (c :: b)) eqn:E; [|done]. by eapply parse_uint_chars.
Qed.

Lemma ParseInt64_range s n : ParseInt64 s = Some n -> - 2 ^ 63 <= n < 2 ^ 63.
Proof.
  assert (Hpos : forall b acc m, 0 <= acc -> digits_value acc b = Some m -> 0 <= m).
  { induction b as [|d b IH]; simpl; intros acc m Hacc H; [by inv_ok|].
    destruct (is_digit d) eqn:E; [|done]. apply in_range_spec in E. eapply IH, H. lia. }
  assert (Hu : forall b m, parse_uint b = Some m -> 0 <= m).
  { intros [|d b] m H; [done|]. by eapply Hpos, H. }
  unfold ParseInt64. destruct (bytes_of s) as [|c b]; [done|]. intros H.
  destruct (c =? 43); [|destruct (c =? 45)];
    (case_in H; [|done]); (case_in H; [|done]); inv_ok; apply Hu in E; zbool; lia.
Qed.

(** The byte order of [sort.Strings]. *)
Definition str_le (a b : string) : Prop := String.leb a b = true.
#[export] Instance str_le_dec : RelDecision str_le.
Proof. intros a b. unfold str_le. apply _. Defined.
