(* ===== verification/GoToken.v ===== *)
(** * Printing and splitting: the lemmas behind textual round trips

    A [token] is a non-empty string of printable ASCII without blanks.  Tokens
    survive [strings.TrimSpace], decimal printing yields tokens and is inverted
    by [strconv.Atoi], and joining pieces with a separator none of them contains
    is inverted by [strings.Split]. *)

From S2P Require Import Prelude GoText.
From stdpp Require Import pretty.
Local Open Scope Z_scope.

(** ** Predicates on every byte of a string *)

Fixpoint str_all (P : Ascii.ascii -> bool) (s : string) : bool :=
  match s with
  | EmptyString => true
  | String c s' => P c && str_all P s'
  end.

Definition is_printable (c : Ascii.ascii) : bool := in_range 33 126 (byte_of_ascii c).
Definition is_digit_char (c : Ascii.ascii) : bool := is_digit (byte_of_ascii c).

Definition token (s : string) : bool := negb (String.eqb s EmptyString) && str_all is_printable s.

(** [s] holds no [c]. *)
Definition free_of (c : Ascii.ascii) (s : string) : bool :=
  str_all (fun d => negb (Ascii.eqb d c)) s.

Lemma str_all_app P s t : str_all P (s +:+ t) = str_all P s && str_all P t.
Proof. induction s as [|c s IH]; simpl; [done|]. by rewrite IH, andb_assoc. Qed.

Lemma str_all_impl (P Q : Ascii.ascii -> bool) s :
  (forall c, P c = true -> Q c = true) -> str_all P s = true -> str_all Q s = true.
Proof.
  intros HPQ. induction s as [|c s IH]; simpl; [done|].
  rewrite !andb_true_iff. intros [??]. auto.
Qed.

Lemma str_all_bytes P s :
  str_all (fun c => P (byte_of_ascii c)) s = true <-> Forall (fun b => P b = true) (bytes_of s).
Proof.
  induction s as [|c s IH]; simpl; [split; by constructor|].
  by rewrite andb_true_iff, Forall_cons, IH.
Qed.

Lemma bytes_of_app s t : bytes_of (s +:+ t) = bytes_of s ++ bytes_of t.
Proof. induction s as [|c s IH]; simpl; [done|]. by rewrite IH. Qed.

Lemma token_app s t : token s = true -> token t = true -> token (s +:+ t) = true.
Proof.
  unfold token. rewrite !andb_true_iff, str_all_app. intros [Hs ->] [_ ->]. split; [|done].
  by destruct s.
Qed.

(** ** [strings.TrimSpace] on tokens *)

Lemma eat_space_ascii b l :
  in_range 33 126 b = true -> eat_space (b :: l) = None /\ eat_space_rev (b :: l) = None.
Proof.
  rewrite in_range_spec. intros Hb.
  assert (Hs : ascii_space b = false).
  { unfold ascii_space, in_range. by zbool; try lia. }
  assert (Hne : forall k, 128 <= k -> (b =? k) = false) by (intros; zbool; lia).
  assert (Hr : in_range 0x80 0x8A b = false) by (unfold in_range; zbool; lia || done).
  assert (H2 : forall b1, eat_space [b1; b] <> Some []).
  { intros b1. unfold eat_space. rewrite !(Hne 0x85), !(Hne 0xA0) by lia.
    simpl. rewrite andb_false_r. by case_match. }
  assert (H3 : forall b2 b1, eat_space [b2; b1; b] <> Some []).
  { intros b2 b1. unfold eat_space.
    rewrite Hr, !(Hne 0x80), !(Hne 0xA8), !(Hne 0xA9), !(Hne 0xAF), !(Hne 0x9F) by lia.
    simpl. rewrite !andb_false_r. simpl. by repeat case_match. }
  unfold eat_space_rev. rewrite Hs. split.
  - unfold eat_space. rewrite Hs, !(Hne 0xC2), !(Hne 0xE1), !(Hne 0xE2), !(Hne 0xE3) by lia.
    simpl. by destruct l as [|? [|]].
  - destruct l as [|b1 [|b2 l]]; [done| |]; specialize (H2 b1).
    + by destruct (eat_space [b1; b]) as [[|]|].
    + specialize (H3 b2 b1). destruct (eat_space [b1; b]) as [[|]|]; [done| |];
        by destruct (eat_space [b2; b1; b]) as [[|]|].
Qed.

Lemma trim_with_None eat n b : eat b = None -> trim_with eat n b = b.
Proof. intros H. destruct n; simpl; [done|]. by rewrite H. Qed.

Lemma TrimSpace_token s : token s = true -> TrimSpace s = s.
Proof.
  unfold token. rewrite andb_true_iff. intros [Hne Hall].
  apply (str_all_bytes (in_range 33 126)) in Hall.
  rewrite <- (string_of_bytes_of s) at 2. unfold TrimSpace. f_equal.
  assert (Hb : bytes_of s <> []) by (by destruct s). revert Hall Hb.
  generalize (bytes_of s). clear. intros b Hall Hb. unfold trim_space_bytes.
  assert (H1 : trim_with eat_space (length b) b = b).
  { destruct b as [|c b]; [done|]. apply trim_with_None.
    apply Forall_cons in Hall as [Hc _]. by apply eat_space_ascii. }
  rewrite H1. rewrite <- (rev_involutive b) at 3. f_equal.
  apply trim_with_None.
  assert (Hr : Forall (fun b => in_range 33 126 b = true) (rev b)).
  { apply Forall_forall. intros x Hx. rewrite Forall_forall in Hall. apply Hall.
    by apply list_elem_of_In, in_rev, list_elem_of_In. }
  destruct (rev b) as [|c r] eqn:E.
  - by apply (f_equal (@rev Z)) in E; rewrite rev_involutive in E.
  - apply Forall_cons in Hr as [Hc _]. by apply eat_space_ascii.
Qed.

(** ** [strings.Trim] and [strings.Split] *)

Lemma trim_left_byte_other c s : free_of c (String.substring 0 1 s) = true -> trim_left_byte c s = s.
Proof.
  destruct s as [|d s]; [done|]. simpl. unfold free_of. destruct s; simpl;
    by destruct (Ascii.eqb d c).
Qed.

Lemma split_on_free c s : free_of c s = true -> split_on c s = [s].
Proof.
  unfold free_of. induction s as [|d s IH]; simpl; [done|].
  rewrite andb_true_iff. intros [Hd Hs]. rewrite (IH Hs). by destruct (Ascii.eqb d c).
Qed.

Lemma split_on_ne c s : split_on c s <> [].
Proof. induction s as [|d s IH]; simpl; [done|]. destruct (split_on c s); [done|]. by case_match. Qed.

Lemma split_on_cons c s t : free_of c s = true -> split_on c (s +:+ String c t) = s :: split_on c t.
Proof.
  unfold free_of. induction s as [|d s IH]; simpl; intros H.
  - rewrite Ascii.eqb_refl. pose proof (split_on_ne c t). by destruct (split_on c t).
  - apply andb_true_iff in H as [Hd Hs]. rewrite (IH Hs). by destruct (Ascii.eqb d c).
Qed.

(** [strings.Join(l, sep)] for a one-byte separator. *)
Fixpoint Join (sep : Ascii.ascii) (l : list string) : string :=
  match l with
  | [] => EmptyString
  | [s] => s
  | s :: l' => s +:+ String sep (Join sep l')
  end.

(** [strings.Join] with any separator. *)
Fixpoint JoinWith (sep : string) (l : list string) : string :=
  match l with
  | [] => EmptyString
  | [s] => s
  | s :: l' => s +:+ sep +:+ JoinWith sep l'
  end.

(** [strings.Contains], and what follows the first occurrence ([strings.Index]). *)
Fixpoint Contains (s sub : string) : bool :=
  HasPrefix s sub || match s with String _ s' => Contains s' sub | EmptyString => false end.
Fixpoint after_first (s sub : string) : option string :=
  if HasPrefix s sub then Some (drop_str (String.length sub) s)
  else match s with String _ s' => after_first s' sub | EmptyString => None end.

(** [sort.Strings] of the keys of a map. *)
Definition sorted_keys {A} (m : gmap string A) : list string := merge_sort str_le (elements (dom m)).

Lemma split_on_Join c l :
  l <> [] -> Forall (fun s => free_of c s = true) l -> split_on c (Join c l) = l.
Proof.
  intros Hne Hall. induction Hall as [|s l Hs Hl IH]; [done|].
  destruct l as [|t l]; [by apply split_on_free|].
  change (Join c (s :: t :: l)) with (s +:+ String c (Join c (t :: l))).
  rewrite split_on_cons by done. by rewrite IH.
Qed.

(** A string that neither starts nor ends with [c] is left alone by [Trim]. *)
Lemma trim_byte_id c s :
  (forall s', s <> String c s') -> (forall s', s <> s' +:+ String c EmptyString) ->
  trim_byte c s = s.
Proof.
  intros Hl Hr. unfold trim_byte.
  assert (H1 : trim_left_byte c s = s).
  { destruct s as [|d s]; [done|]. simpl. destruct (Ascii.eqb_spec d c) as [->|]; [|done].
    by destruct (Hl s). }
  rewrite H1.
  assert (H2 : trim_left_byte c (rev_str s) = rev_str s).
  { destruct (rev_str s) as [|d r] eqn:E; [done|]. simpl.
    destruct (Ascii.eqb_spec d c) as [->|]; [|done].
    exfalso. apply (Hr (rev_str r)). apply bytes_of_inj.
    apply (f_equal bytes_of) in E. unfold rev_str in *.
    assert (HF : forall l, Forall is_byte l -> Forall is_byte (rev l))
      by (intros l H; rewrite Forall_forall in *; intros x Hx; apply H;
          by apply list_elem_of_In, in_rev, list_elem_of_In).
    rewrite bytes_of_string_of in E by (apply HF, bytes_of_range).
    rewrite bytes_of_app. simpl in *.
    rewrite bytes_of_string_of by (apply HF, bytes_of_range).
    apply (f_equal (@rev Z)) in E. rewrite rev_involutive in E. done. }
  rewrite H2. unfold rev_str.
  rewrite bytes_of_string_of.
  - by rewrite rev_involutive, string_of_bytes_of.
  - apply Forall_forall. intros x Hx. eapply Forall_forall; [apply (bytes_of_range s)|].
    by apply list_elem_of_In, in_rev, list_elem_of_In.
Qed.

(** ** Decimal printing *)

Lemma pretty_N_char_byte x : (x < 10)%N -> byte_of_ascii (pretty_N_char x) = 48 + Z.of_N x.
Proof.
  intros Hx.
  assert (In x [0; 1; 2; 3; 4; 5; 6; 7; 8; 9]%N) by (simpl; lia).
  simpl in H. repeat (destruct H as [H|H]; [by subst|]). done.
Qed.

Lemma pretty_N_go_value x : forall s acc, exists ds,
  bytes_of (pretty_N_go x s) = ds ++ bytes_of s /\
  Forall (fun b => is_digit b = true) ds /\ (x <> 0%N -> ds <> []) /\
  exists k, 0 <= k /\ digits_value acc ds = Some (acc * 10 ^ k + Z.of_N x).
Proof.
  induction (N.lt_wf_0 x) as [x _ IH]. intros s acc.
  destruct (decide (x = 0%N)) as [->|Hx].
  { exists []. rewrite pretty_N_go_0. split_and!; [done|constructor|done|].
    exists 0. simpl. split; [done|]. f_equal. lia. }
  rewrite pretty_N_go_step by lia.
  destruct (IH (x `div` 10)%N (N.div_lt x 10 ltac:(lia) ltac:(lia))
    (String (pretty_N_char (x `mod` 10)) s) acc) as (ds & Hb & Hd & _ & k & Hk & Hv).
  pose proof (N.mod_lt x 10 ltac:(lia)) as Hm. pose proof (N.div_mod' x 10) as Hdm.
  clear IH. generalize dependent (x `mod` 10)%N. generalize dependent (x `div` 10)%N.
  intros q Hv r Hb Hr Hx10.
  exists (ds ++ [48 + Z.of_N r]).
  rewrite Hb. simpl. rewrite pretty_N_char_byte by done.
  split_and!.
  - by rewrite <- app_assoc.
  - apply Forall_app. split; [done|]. constructor; [|constructor].
    unfold is_digit. apply in_range_spec. lia.
  - intros _ E. by destruct ds.
  - exists (k + 1). split; [lia|].
    assert (Happ : forall a l d, digits_value a l = Some d -> forall m, 0 <= m < 10 ->
      digits_value a (l ++ [48 + m]) = Some (d * 10 + m)).
    { clear. intros a l. revert a. induction l as [|c l IH]; intros a d H m Hm; simpl in *.
      - simplify_eq. unfold is_digit. rewrite (proj2 (in_range_spec _ _ _)) by lia. f_equal. lia.
      - destruct (is_digit c); [|done]. by apply IH. }
    erewrite Happ; [|exact Hv|lia]. f_equal.
    rewrite Z.pow_add_r by lia. lia.
Qed.

(** Printing a natural number and reading it back. *)
Lemma ParseInt64_Itoa n : 0 <= n < 2 ^ 63 -> ParseInt64 (Itoa n) = Some n.
Proof.
  intros Hn. unfold Itoa.
  destruct n as [|p|p]; [done| |lia].
  change (pretty (Z.pos p)) with (pretty_N_go (N.pos p) EmptyString).
  destruct (pretty_N_go_value (N.pos p) EmptyString 0) as (ds & Hb & Hd & Hne & k & Hk & Hv).
  unfold ParseInt64. rewrite Hb. simpl bytes_of. rewrite app_nil_r.
  specialize (Hne ltac:(done)). destruct ds as [|c ds]; [done|].
  apply Forall_cons in Hd as [Hc _]. unfold is_digit in Hc. apply in_range_spec in Hc.
  destruct (Z.eqb_spec c 43); [lia|]. destruct (Z.eqb_spec c 45); [lia|].
  unfold parse_uint. rewrite Hv. destruct (Z.ltb_spec (0 * 10 ^ k + Z.of_N (N.pos p)) (2 ^ 63)); [f_equal; lia|lia].
Qed.

Lemma Itoa_digits n : 0 <= n -> Itoa n <> EmptyString /\ str_all is_digit_char (Itoa n) = true.
Proof.
  intros Hn. unfold Itoa. destruct n as [|p|p]; [done| |lia].
  change (pretty (Z.pos p)) with (pretty_N_go (N.pos p) EmptyString).
  destruct (pretty_N_go_value (N.pos p) EmptyString 0) as (ds & Hb & Hd & Hne & _).
  simpl in Hb. rewrite app_nil_r in Hb. split.
  - intros E. rewrite E in Hb. simpl in Hb. by apply Hne.
  - apply (str_all_bytes is_digit). by rewrite Hb.
Qed.

Lemma digit_printable c : is_digit_char c = true -> is_printable c = true.
Proof. unfold is_digit_char, is_printable, is_digit. rewrite !in_range_spec. lia. Qed.

Lemma Itoa_token n : 0 <= n -> token (Itoa n) = true.
Proof.
  intros Hn. destruct (Itoa_digits n Hn) as [Hne Hd]. unfold token. apply andb_true_iff. split.
  - by destruct (Itoa n).
  - eapply str_all_impl; [apply digit_printable|done].
Qed.

Lemma Itoa_free c n : 0 <= n -> is_digit_char c = false -> free_of c (Itoa n) = true.
Proof.
  intros Hn Hc. destruct (Itoa_digits n Hn) as [_ Hd]. eapply str_all_impl; [|exact Hd].
  intros d Hdig. simpl. destruct (Ascii.eqb_spec d c) as [->|]; [congruence|done].
Qed.

(** ** Concatenation *)

Lemma str_app_cons c (s t : string) : String c s +:+ t = String c (s +:+ t).
Proof. done. Qed.

Lemma split_on_app c a b : split_on c (a +:+ String c b) = (split_on c a ++ split_on c b)%list.
Proof.
  induction a as [|d a IH]; cbn [split_on].
  - change (EmptyString +:+ String c b) with (String c b). cbn [split_on]. rewrite Ascii.eqb_refl.
    pose proof (split_on_ne c b). by destruct (split_on c b).
  - rewrite str_app_cons. cbn [split_on]. rewrite IH.
    pose proof (split_on_ne c a). destruct (split_on c a); [done|]. by destruct (Ascii.eqb d c).
Qed.
Lemma length_app_str s t : String.length (s +:+ t) = (String.length s + String.length t)%nat.
Proof. induction s as [|c s IH]; [done|]. rewrite str_app_cons. simpl. by rewrite IH. Qed.
Lemma str_app_assoc (a b c : string) : (a +:+ b) +:+ c = a +:+ (b +:+ c).
Proof. induction a as [|x a IH]; [done|]. by rewrite !str_app_cons, IH. Qed.
Lemma str_app_nil_r (a : string) : a +:+ EmptyString = a.
Proof. induction a as [|x a IH]; [done|]. by rewrite str_app_cons, IH. Qed.

(** ** [strings.TrimSpace] is idempotent *)

Lemma eat_space_shorter b b' : eat_space b = Some b' -> exists w, b = w ++ b' /\ w <> [].
Proof.
  unfold eat_space. destruct b as [|b0 r0]; [done|].
  destruct (ascii_space b0). { intros [= <-]. by exists [b0]. }
  destruct r0 as [|b1 r1]; [done|].
  destruct ((b0 =? 0xC2) && _). { intros [= <-]. by exists [b0; b1]. }
  destruct r1 as [|b2 r2]; [done|]. case_match; [|done].
  intros [= <-]. by exists [b0; b1; b2].
Qed.

Lemma eat_space_rev_shorter b b' : eat_space_rev b = Some b' -> exists w, b = w ++ b' /\ w <> [].
Proof.
  unfold eat_space_rev. destruct b as [|b0 r0]; [done|].
  destruct (ascii_space b0). { intros [= <-]. by exists [b0]. }
  destruct r0 as [|b1 r1]; [done|]. intros H.
  assert (Hc : Some r1 = Some b' \/
    match r1 with
    | [] => None
    | b2 :: r2 => match eat_space [b2; b1; b0] with Some [] => Some r2 | _ => None end
    end = Some b') by (destruct (eat_space [b1; b0]) as [[|]|]; auto).
  clear H. destruct Hc as [[= <-]|H]; [by exists [b0; b1]|].
  destruct r1 as [|b2 r2]; [done|]. destruct (eat_space [b2; b1; b0]) as [[|]|]; [|done|done].
  injection H as <-. by exists [b0; b1; b2].
Qed.

Lemma eat_space_app b b' q : eat_space b = Some b' -> eat_space (b ++ q) = Some (b' ++ q).
Proof.
  unfold eat_space. destruct b as [|b0 r0]; [done|]. simpl.
  destruct (ascii_space b0); [by intros [= <-]|].
  destruct r0 as [|b1 r1]; [done|]. simpl.
  destruct ((b0 =? 0xC2) && _); [by intros [= <-]|].
  destruct r1 as [|b2 r2]; [done|]. simpl. case_match; [|done]. by intros [= <-].
Qed.

Section Trim.
Context (eat : list Z -> option (list Z)).
Hypothesis eat_shorter : forall b b', eat b = Some b' -> exists w, b = w ++ b' /\ w <> [].
Hypothesis eat_nil : eat [] = None.

Lemma trim_with_suffix n b : exists w, b = w ++ trim_with eat n b.
Proof using eat_shorter.
  revert b. induction n as [|n IH]; intros b; simpl; [by exists []|].
  destruct (eat b) as [b'|] eqn:E; [|by exists []].
  destruct (eat_shorter _ _ E) as (w & -> & _). destruct (IH b') as [w' Hw'].
  exists (w ++ w'). rewrite <- app_assoc. by f_equal.
Qed.

Lemma trim_with_done b : eat (trim_with eat (length b) b) = None.
Proof using eat_shorter eat_nil.
  destruct (trim_with_enough eat (length b) b) as [H|H]; [|done|done|by rewrite H].
  intros l l' Hl. destruct (eat_shorter _ _ Hl) as (w & -> & Hw). rewrite length_app.
  destruct w; [done|]. simpl. lia.
Qed.
End Trim.

Lemma trim_space_bytes_spec b : exists l r, b = l ++ trim_space_bytes b ++ r /\
  eat_space (trim_space_bytes b) = None /\ eat_space_rev (rev (trim_space_bytes b)) = None.
Proof.
  unfold trim_space_bytes.
  destruct (trim_with_suffix eat_space eat_space_shorter (length b) b) as [w1 H1].
  pose proof (trim_with_done eat_space eat_space_shorter eq_refl b) as D1.
  set (l := trim_with eat_space (length b) b) in *.
  destruct (trim_with_suffix eat_space_rev eat_space_rev_shorter (length l) (rev l)) as [w2 H2].
  pose proof (trim_with_done eat_space_rev eat_space_rev_shorter eq_refl (rev l)) as D2.
  rewrite length_rev in D2. set (r := trim_with eat_space_rev (length l) (rev l)) in *.
  assert (Hl : l = rev r ++ rev w2) by (rewrite <- rev_app_distr, <- H2; by rewrite rev_involutive).
  exists w1, (rev w2). rewrite rev_involutive. split_and!; [by rewrite <- Hl| |done].
  destruct (eat_space (rev r)) as [x|] eqn:E; [|done].
  apply (eat_space_app _ _ (rev w2)) in E. rewrite <- Hl in E. congruence.
Qed.

Lemma TrimSpace_idem s : TrimSpace (TrimSpace s) = TrimSpace s.
Proof.
  unfold TrimSpace. destruct (trim_space_bytes_spec (bytes_of s)) as (l & r & H & H1 & H2).
  pose proof (bytes_of_range s) as Hr. rewrite H, !Forall_app in Hr. destruct Hr as (_ & Hr & _).
  rewrite bytes_of_string_of by done. f_equal.
  set (t := trim_space_bytes (bytes_of s)) in *. unfold trim_space_bytes.
  rewrite (trim_with_None eat_space) by done. rewrite trim_with_None by done.
  apply rev_involutive.
Qed.

Lemma TrimSpace_all P s : str_all P s = true -> str_all P (TrimSpace s) = true.
Proof.
  assert (Hb : forall t, str_all P t = true <-> Forall (fun b => P (ascii_of_byte b) = true) (bytes_of t)).
  { clear. induction t as [|c t IH]; simpl; [split; by constructor|].
    unfold ascii_of_byte at 1, byte_of_ascii. rewrite Forall_cons, N2Z.id, Ascii.ascii_N_embedding, andb_true_iff.
    by rewrite IH. }
  rewrite !Hb. unfold TrimSpace. destruct (trim_space_bytes_spec (bytes_of s)) as (l & r & H & _).
  pose proof (bytes_of_range s) as Hr. rewrite H, !Forall_app in Hr. destruct Hr as (_ & Hr & _).
  rewrite bytes_of_string_of by done. rewrite H at 1. rewrite !Forall_app. tauto.
Qed.
