(* ===== verification/GoJson.v ===== *)
(** * [json.Valid] of encoding/json

    The scanner of the Go standard library as the pushdown automaton it is: one
    [jstate] per step function, a stack of parse states, one byte at a time.
    [json_valid b] is [json.Valid(b)]. *)

From S2P Require Import Prelude GoText.
Local Open Scope Z_scope.

(** One constructor per [state...] function of the scanner. *)
Inductive jstate :=
| BeginValue | BeginValueOrEmpty | BeginString | BeginStringOrEmpty
| EndValue | EndTop
| InString | InStringEsc | InStringEscU (left : nat)
| NNeg | N1 | N0 | NDot | NDot0 | NE | NESign | NE0
| Lit (rest : list Z).

Inductive pstate := ObjectKey | ObjectValue | ArrayValue.

Record scanner := Scanner { step_fn : jstate; stack : list pstate }.

Definition jspace (c : Z) : bool := (c =? 32) || (c =? 9) || (c =? 13) || (c =? 10).
Definition jhex (c : Z) : bool := is_digit c || in_range 97 102 c || in_range 65 70 c.

(** [pushParseState] with [maxNestingDepth]. *)
Definition jpush (st : jstate) (p : pstate) (k : list pstate) : option scanner :=
  if (Z.of_nat (length k) + 1 <=? 10000) then Some (Scanner st (p :: k)) else None.

(** [popParseState] *)
Definition jpop (k : list pstate) : option scanner :=
  match k with
  | [] => None
  | [_] => Some (Scanner EndTop [])
  | _ :: k' => Some (Scanner EndValue k')
  end.

(** [stateEndValue] *)
Definition end_value (k : list pstate) (c : Z) : option scanner :=
  match k with
  | [] => if jspace c then Some (Scanner EndTop []) else None
  | p :: k' =>
      if jspace c then Some (Scanner EndValue k)
      else match p with
      | ObjectKey => if c =? 58 then Some (Scanner BeginValue (ObjectValue :: k')) else None
      | ObjectValue =>
          if c =? 44 then Some (Scanner BeginString (ObjectKey :: k'))
          else if c =? 125 then jpop k else None
      | ArrayValue =>
          if c =? 44 then Some (Scanner BeginValue k)
          else if c =? 93 then jpop k else None
      end
  end.

Definition begin_string (k : list pstate) (c : Z) : option scanner :=
  if jspace c then Some (Scanner BeginString k)
  else if c =? 34 then Some (Scanner InString k) else None.

(** [stateBeginValue]; the literals are [true], [false] and [null]. *)
Definition begin_value (k : list pstate) (c : Z) : option scanner :=
  if jspace c then Some (Scanner BeginValue k)
  else if c =? 123 then jpush BeginStringOrEmpty ObjectKey k
  else if c =? 91 then jpush BeginValueOrEmpty ArrayValue k
  else if c =? 34 then Some (Scanner InString k)
  else if c =? 45 then Some (Scanner NNeg k)
  else if c =? 48 then Some (Scanner N0 k)
  else if c =? 116 then Some (Scanner (Lit [114; 117; 101]) k)
  else if c =? 102 then Some (Scanner (Lit [97; 108; 115; 101]) k)
  else if c =? 110 then Some (Scanner (Lit [117; 108; 108]) k)
  else if in_range 49 57 c then Some (Scanner N1 k)
  else None.

(** [state0] *)
Definition num0 (k : list pstate) (c : Z) : option scanner :=
  if c =? 46 then Some (Scanner NDot k)
  else if (c =? 101) || (c =? 69) then Some (Scanner NE k)
  else end_value k c.

(** [stateESign] *)
Definition num_esign (k : list pstate) (c : Z) : option scanner :=
  if is_digit c then Some (Scanner NE0 k) else None.

(** One call of [s.step(s, c)]; [None] is [scanError]. *)
Definition jstep (s : scanner) (c : Z) : option scanner :=
  let k := stack s in
  match step_fn s with
  | BeginValue => begin_value k c
  | BeginValueOrEmpty =>
      if jspace c then Some s
      else if c =? 93 then end_value k c else begin_value k c
  | BeginStringOrEmpty =>
      if jspace c then Some s
      else if c =? 125 then
        match k with _ :: k' => end_value (ObjectValue :: k') c | [] => None end
      else begin_string k c
  | BeginString => begin_string k c
  | EndValue => end_value k c
  | EndTop => if jspace c then Some s else None
  | InString =>
      if c =? 34 then Some (Scanner EndValue k)
      else if c =? 92 then Some (Scanner InStringEsc k)
      else if c <? 32 then None else Some s
  | InStringEsc =>
      if (c =? 98) || (c =? 102) || (c =? 110) || (c =? 114) || (c =? 116)
         || (c =? 92) || (c =? 47) || (c =? 34) then Some (Scanner InString k)
      else if c =? 117 then Some (Scanner (InStringEscU 3) k) else None
  | InStringEscU n =>
      if jhex c then
        Some (Scanner (match n with O => InString | S m => InStringEscU m end) k)
      else None
  | NNeg =>
      if c =? 48 then Some (Scanner N0 k)
      else if in_range 49 57 c then Some (Scanner N1 k) else None
  | N1 => if is_digit c then Some s else num0 k c
  | N0 => num0 k c
  | NDot => if is_digit c then Some (Scanner NDot0 k) else None
  | NDot0 =>
      if is_digit c then Some s
      else if (c =? 101) || (c =? 69) then Some (Scanner NE k) else end_value k c
  | NE => if (c =? 43) || (c =? 45) then Some (Scanner NESign k) else num_esign k c
  | NESign => num_esign k c
  | NE0 => if is_digit c then Some s else end_value k c
  | Lit [] => None
  | Lit [d] => if c =? d then Some (Scanner EndValue k) else None
  | Lit (d :: ds) => if c =? d then Some (Scanner (Lit ds) k) else None
  end.

Fixpoint jrun (s : scanner) (b : list Z) : option scanner :=
  match b with
  | [] => Some s
  | c :: b' => match jstep s c with Some s' => jrun s' b' | None => None end
  end.

(** [scan.eof()]: at the top level already, or there after one more space. *)
Definition jeof (s : scanner) : bool :=
  match step_fn s with
  | EndTop => true
  | _ => match jstep s 32 with
         | Some (Scanner EndTop _) => true
         | _ => false
         end
  end.

Definition json_valid (b : list Z) : bool :=
  match jrun (Scanner BeginValue []) b with
  | Some s => jeof s
  | None => false
  end.

Lemma jrun_app s b1 b2 :
  jrun s (b1 ++ b2) = match jrun s b1 with Some s' => jrun s' b2 | None => None end.
Proof.
  revert s. induction b1 as [|c b1 IH]; intros s; simpl; [done|].
  destruct (jstep s c); [apply IH|done].
Qed.

(** Bytes that are plain inside a JSON string: no quote, backslash or control
    character. *)
Definition plain (c : Z) : bool := (32 <=? c) && negb (c =? 34) && negb (c =? 92).

Lemma jrun_plain k b :
  Forall (fun c => plain c = true) b ->
  jrun (Scanner InString k) b = Some (Scanner InString k).
Proof.
  induction 1 as [|c b Hc _ IH]; simpl; [done|].
  unfold plain in Hc. apply andb_true_iff in Hc as [[H1 H2]%andb_true_iff H3].
  unfold jstep; simpl. apply negb_true_iff in H2, H3. rewrite H2, H3.
  apply Z.leb_le in H1. destruct (Z.ltb_spec c 32); [lia|done].
Qed.
