(* ===== verification/GoDate.v ===== *)
(** * Go time: the calendar

    The civil date, the ISO week and the fixed-width layouts of [time.Time] in
    UTC, over instants from year 1 on ([GoTime.time] counts from 1 January of
    year 1, a Monday). *)

From S2P Require Import Prelude GoText GoTime GoToken.
From Stdlib Require Import Ascii.
From stdpp Require Import pretty.
Local Open Scope Z_scope.

Definition Hour : duration := 60 * Minute.
Definition Day : duration := 24 * Hour.

(** ** Dates *)

(** The year and the day of the year of a day number, by the cycles of 400, 100,
    4 and 1 years. *)
Definition year_yday (days : Z) : Z * Z :=
  let n400 := days / 146097 in
  let d := days - 146097 * n400 in
  let n100 := let n := d / 36524 in n - n / 4 in
  let d := d - 36524 * n100 in
  let n4 := d / 1461 in
  let d := d - 1461 * n4 in
  let n1 := let n := d / 365 in n - n / 4 in
  let d := d - 365 * n1 in
  (400 * n400 + 100 * n100 + 4 * n4 + n1 + 1, d).

Definition isLeap (y : Z) : bool := (y mod 4 =? 0) && (negb (y mod 100 =? 0) || (y mod 400 =? 0)).

(** [daysBefore]: the days of a common year before month [m] (from 0). *)
Definition daysBefore (m : Z) : Z :=
  nth (Z.to_nat m) [0; 31; 59; 90; 120; 151; 181; 212; 243; 273; 304; 334; 365] 365.

(** The month (from 1) and the day of the month of a day of the year. *)
Definition month_day (leap : bool) (yday : Z) : Z * Z :=
  let common day :=
    let m := day / 31 in
    let e := daysBefore (m + 1) in
    if e <=? day then (m + 2, day - e + 1) else (m + 1, day - daysBefore m + 1) in
  if leap then
    if 59 <? yday then common (yday - 1) else if yday =? 59 then (2, 29) else common yday
  else common yday.

Definition day_of (t : time) : Z := t / Day.
Definition hour_of (t : time) : Z := (t mod Day) / Hour.

Definition date_of (t : time) : Z * Z * Z :=
  let '(y, yd) := year_yday (day_of t) in
  let '(m, d) := month_day (isLeap y) yd in (y, m, d).

(** [t.ISOWeek()]: the year of the week's Thursday and its week of that year. *)
Definition ISOWeek (t : time) : Z * Z :=
  let '(y, yd) := year_yday (day_of t - day_of t mod 7 + 3) in (y, yd / 7 + 1).

(** ** Layouts *)

(** [%0wd], and a numeric field of a layout. *)
Definition pad (w : nat) (n : Z) : string :=
  string_of (replicate (w - String.length (Itoa n)) 48) +:+ Itoa n.

Definition sep (c : ascii) (s t : string) : string := s +:+ String c t.
Definition formatYear (t : time) : string := pad 4 (date_of t).1.1.
Definition formatMonth (t : time) : string := sep "-"%char (formatYear t) (pad 2 (date_of t).1.2).
Definition formatDay (t : time) : string := sep "-"%char (formatMonth t) (pad 2 (date_of t).2).
Definition formatHour (t : time) : string := sep "T"%char (formatDay t) (pad 2 (hour_of t)).

(** ** Facts *)

(** The first day of a year, the inverse of [year_yday]. *)
Definition year_start (y : Z) : Z := 365 * (y - 1) + (y - 1) / 4 - (y - 1) / 100 + (y - 1) / 400.

Lemma year_yday_inverse days : year_start (year_yday days).1 + (year_yday days).2 = days.
Proof.
  unfold year_yday, year_start. simpl. Z.to_euclidean_division_equations. lia.
Qed.

Lemma yday_range days : 0 <= (year_yday days).2 < 366.
Proof. unfold year_yday. simpl. Z.to_euclidean_division_equations. lia. Qed.

Lemma isLeap_true y : y mod 4 = 0 -> (y mod 100 <> 0 \/ y mod 400 = 0) -> isLeap y = true.
Proof. unfold isLeap. intros -> H. simpl. apply orb_true_iff. rewrite negb_true_iff. lia. Qed.

Lemma yday_common days : isLeap (year_yday days).1 = false -> (year_yday days).2 < 365.
Proof.
  intros H. pose proof (yday_range days).
  destruct (Z.eq_dec (year_yday days).2 365) as [E|]; [|lia].
  rewrite isLeap_true in H; [done| |]; revert E; unfold year_yday; simpl;
    Z.to_euclidean_division_equations; lia.
Qed.

(** The day of the year from the month and the day. *)
Definition yday_of (leap : bool) (m d : Z) : Z :=
  daysBefore (m - 1) + (if leap && (3 <=? m) then 1 else 0) + d - 1.

Lemma month_day_inverse (leap : bool) yd : 0 <= yd < (if leap then 366 else 365) ->
  yday_of leap (month_day leap yd).1 (month_day leap yd).2 = yd /\
  1 <= (month_day leap yd).1 <= 12 /\ 1 <= (month_day leap yd).2 <= 31.
Proof.
  intros H.
  assert (Hall : forallb (fun yd => (366 <=? yd) || (negb leap && (365 <=? yd)) ||
    (let m := (month_day leap yd).1 in let d := (month_day leap yd).2 in
    (yday_of leap m d =? yd)%Z && (1 <=? m) && (m <=? 12) && (1 <=? d) && (d <=? 31))) (seqZ 0 366) = true)
    by (destruct leap; vm_compute; reflexivity).
  rewrite forallb_forall in Hall. specialize (Hall yd).
  destruct (month_day leap yd) as [m d]. simpl.
  assert (Hin : In yd (seqZ 0 366)) by (apply list_elem_of_In, elem_of_seqZ; destruct leap; lia).
  specialize (Hall Hin). destruct leap; simpl in *; lia.
Qed.

(** *** Fields *)

Lemma Itoa_value n : 0 <= n -> digits_value 0 (bytes_of (Itoa n)) = Some n.
Proof.
  intros Hn. unfold Itoa. destruct n as [|p|p]; [done| |lia].
  change (pretty (Z.pos p)) with (pretty_N_go (N.pos p) EmptyString).
  destruct (pretty_N_go_value (N.pos p) EmptyString 0) as (ds & -> & _ & _ & k & _ & Hv).
  simpl bytes_of. by rewrite app_nil_r, Hv.
Qed.

Lemma pad_bytes w n : exists k, bytes_of (pad w n) = replicate k 48 ++ bytes_of (Itoa n).
Proof.
  unfold pad. exists (w - String.length (Itoa n))%nat. rewrite bytes_of_app, bytes_of_string_of; [done|].
  apply Forall_replicate. unfold is_byte. lia.
Qed.

Lemma pad_inj w n m : 0 <= n -> 0 <= m -> pad w n = pad w m -> n = m.
Proof.
  intros Hn Hm E.
  assert (Hv : forall n, 0 <= n -> digits_value 0 (bytes_of (pad w n)) = Some n).
  { intros x Hx. destruct (pad_bytes w x) as [k ->]. induction k; [by apply Itoa_value|done]. }
  apply Some_inj'. by rewrite <- (Hv n Hn), E, (Hv m Hm).
Qed.

Lemma pad_free c w n : 0 <= n -> is_digit_char c = false -> free_of c (pad w n) = true.
Proof.
  intros Hn Hc. eapply (str_all_impl is_digit_char).
  - intros d Hd. simpl. destruct (Ascii.eqb_spec d c) as [->|]; [congruence|done].
  - apply (str_all_bytes is_digit). destruct (pad_bytes w n) as [k ->]. apply Forall_app. split.
    + by apply Forall_replicate.
    + apply (str_all_bytes is_digit). by apply Itoa_digits.
Qed.

Lemma sep_inj c s t s' t' : free_of c s = true -> free_of c s' = true ->
  sep c s t = sep c s' t' -> s = s' /\ t = t'.
Proof.
  unfold sep, free_of. revert s'.
  induction s as [|d s IH]; intros [|d' s']; simpl; rewrite ?andb_true_iff.
  - by intros _ _ [= ->].
  - intros _ [Hd _] [= -> _]. by rewrite Ascii.eqb_refl in Hd.
  - intros [Hd _] _ [= -> _]. by rewrite Ascii.eqb_refl in Hd.
  - intros [_ Hs] [_ Hs'] [= -> E]. by destruct (IH s' Hs Hs' E) as [-> ->].
Qed.

Lemma sep_assoc c d s t u : sep c (sep d s t) u = sep d s (sep c t u).
Proof. unfold sep. induction s as [|e s IH]; [done|]. exact (f_equal (String e) IH). Qed.

Lemma free_of_sep c d s t : Ascii.eqb d c = false ->
  free_of c s = true -> free_of c t = true -> free_of c (sep d s t) = true.
Proof. unfold free_of, sep. intros Hd Hs Ht. rewrite str_all_app. simpl. by rewrite Hs, Hd, Ht. Qed.

(** *** Dates determine days *)

Lemma year_pos days : 0 <= days -> 1 <= (year_yday days).1.
Proof. unfold year_yday. simpl. intros. Z.to_euclidean_division_equations. lia. Qed.

Lemma day_of_pos t : 0 <= t -> 0 <= day_of t.
Proof. intros. apply Z.div_pos; [done|]. by vm_compute. Qed.

(** The fields of a date and their ranges. *)
Lemma date_of_ranges t : 0 <= t ->
  1 <= (date_of t).1.1 /\ 1 <= (date_of t).1.2 <= 12 /\ 1 <= (date_of t).2 <= 31 /\
  year_start (date_of t).1.1 + yday_of (isLeap (date_of t).1.1) (date_of t).1.2 (date_of t).2 = day_of t.
Proof.
  intros Ht. apply day_of_pos in Ht. unfold date_of.
  pose proof (year_pos _ Ht) as Hy. pose proof (year_yday_inverse (day_of t)) as Hinv.
  pose proof (yday_range (day_of t)) as Hr. pose proof (yday_common (day_of t)) as Hc.
  destruct (year_yday (day_of t)) as [y yd]. simpl in *.
  destruct (month_day_inverse (isLeap y) yd) as (Hyd & Hm & Hd).
  { destruct (isLeap y); [lia|]. split; [lia|]. by apply Hc. }
  destruct (month_day (isLeap y) yd) as [m d]. simpl in *. rewrite Hyd. auto.
Qed.

Lemma hour_of_range t : 0 <= hour_of t.
Proof. unfold hour_of, Day, Hour, Minute, Second. Z.to_euclidean_division_equations. lia. Qed.

(** ** The layouts tell periods apart *)

Lemma formatYear_iff t u : 0 <= t -> 0 <= u -> formatYear t = formatYear u <-> (date_of t).1.1 = (date_of u).1.1.
Proof.
  intros Ht Hu. destruct (date_of_ranges t Ht) as (? & _). destruct (date_of_ranges u Hu) as (? & _).
  unfold formatYear. split; [apply pad_inj; lia|by intros ->].
Qed.

Lemma formatMonth_iff t u : 0 <= t -> 0 <= u -> formatMonth t = formatMonth u <-> (date_of t).1 = (date_of u).1.
Proof.
  intros Ht Hu. destruct (date_of_ranges t Ht) as (? & ? & _). destruct (date_of_ranges u Hu) as (? & ? & _).
  unfold formatMonth, formatYear. split; [|by intros ->].
  intros E. apply sep_inj in E as [E1 E2]; [|apply pad_free; [lia|done]..].
  apply pad_inj in E1; [|lia..]. apply pad_inj in E2; [|lia..].
  destruct (date_of t) as [[] ?], (date_of u) as [[] ?]. simpl in *. congruence.
Qed.

Lemma formatDay_iff t u : 0 <= t -> 0 <= u -> formatDay t = formatDay u <-> day_of t = day_of u.
Proof.
  intros Ht Hu. split; [|by intros E; unfold formatDay, formatMonth, formatYear, date_of; rewrite E].
  intros E. destruct (date_of_ranges t Ht) as (? & ? & ? & Ht'). destruct (date_of_ranges u Hu) as (? & ? & ? & Hu').
  unfold formatDay, formatMonth, formatYear in E. rewrite !sep_assoc in E.
  apply sep_inj in E as [E1 E]; [|apply pad_free; [lia|done]..].
  apply sep_inj in E as [E2 E3]; [|apply pad_free; [lia|done]..].
  apply pad_inj in E1, E2, E3; [|lia..]. rewrite <- Ht', <- Hu'. by rewrite E1, E2, E3.
Qed.

Lemma formatDay_free_T t : 0 <= t -> free_of "T"%char (formatDay t) = true.
Proof.
  intros Ht. destruct (date_of_ranges t Ht) as (? & ? & ? & _).
  unfold formatDay, formatMonth, formatYear. repeat apply free_of_sep; try done; apply pad_free; (lia || done).
Qed.

Lemma hour_split t : t / Hour = day_of t * 24 + hour_of t.
Proof. unfold day_of, hour_of, Day, Hour, Minute, Second. Z.to_euclidean_division_equations. lia. Qed.

Lemma formatHour_iff t u : 0 <= t -> 0 <= u -> formatHour t = formatHour u <-> t / Hour = u / Hour.
Proof.
  intros Ht Hu. pose proof (hour_of_range t). pose proof (hour_of_range u).
  assert (hour_of t < 24 /\ hour_of u < 24)
    by (unfold hour_of, Day, Hour, Minute, Second; Z.to_euclidean_division_equations; lia).
  rewrite !hour_split. unfold formatHour. split.
  - intros E. apply sep_inj in E as [E1 E2]; [|by apply formatDay_free_T..].
    apply formatDay_iff in E1; [|done..]. apply pad_inj in E2; [|done..]. lia.
  - intros E. assert (day_of t = day_of u /\ hour_of t = hour_of u) as [E1 E2] by lia.
    apply formatDay_iff in E1; [|done..]. by rewrite E1, E2.
Qed.

(** The ISO week changes exactly on Mondays. *)
Lemma ISOWeek_iff t u : 0 <= t -> 0 <= u -> ISOWeek t = ISOWeek u <-> t / (7 * Day) = u / (7 * Day).
Proof.
  assert (Hw : forall t, t / (7 * Day) = day_of t / 7).
  { intros x. unfold day_of. rewrite Z.div_div by done. by rewrite Z.mul_comm. }
  intros Ht Hu. rewrite !Hw. unfold ISOWeek. set (a := day_of t). set (b := day_of u).
  assert (Hth : forall x, x - x mod 7 + 3 = 7 * (x / 7) + 3)
    by (intros x; pose proof (Z.div_mod x 7 ltac:(done)); lia).
  rewrite !Hth. split; [|by intros ->].
  pose proof (year_yday_inverse (7 * (a / 7) + 3)) as Ha. pose proof (year_yday_inverse (7 * (b / 7) + 3)) as Hb.
  destruct (year_yday (7 * (a / 7) + 3)) as [y yd], (year_yday (7 * (b / 7) + 3)) as [y' yd'].
  simpl in *. intros [= -> E]. revert E Ha Hb. generalize (year_start y'), (a / 7), (b / 7). clear.
  intros s p q E Ha Hb. assert (E' : yd / 7 = yd' / 7) by lia. revert E'. clear E.
  Z.to_euclidean_division_equations. lia.
Qed.

Lemma ISOWeek_pos t : 0 <= t -> 0 <= (ISOWeek t).1 /\ 0 <= (ISOWeek t).2.
Proof.
  intros Ht. apply day_of_pos in Ht. unfold ISOWeek.
  pose proof (year_pos (day_of t - day_of t mod 7 + 3)) as Hy.
  pose proof (yday_range (day_of t - day_of t mod 7 + 3)) as Hr.
  assert (0 <= day_of t - day_of t mod 7 + 3) as Hd by (Z.to_euclidean_division_equations; lia).
  specialize (Hy Hd). destruct (year_yday _) as [y yd]. simpl in *. split; [lia|].
  pose proof (Z.div_pos yd 7 ltac:(lia) ltac:(lia)). lia.
Qed.

Example dates :
  formatHour (63871286400 * Second + 3 * Hour) = "2025-01-01T03" /\
  ISOWeek (63871286400 * Second) = (2025, 1) /\ formatDay (63871286400 * Second - 1) = "2024-12-31".
Proof. by vm_compute. Qed.
