(* ===== verification/Prog.v ===== *)
(** * Programs of calls

    Code that talks to a kernel or a cluster, as the calls it makes and what it
    does with the answers; the calls are a signature [S], an error of a call is of
    type [E].  What the other side answers is left to a semantics: [traces] takes
    any answers. *)

From S2P Require Import Prelude.

(** A value, a call and what to do with its answer, or a recursion that was not
    given enough fuel to end. *)
Inductive prog (S : Type -> Type) (E A : Type) : Type :=
| Ret (a : A)
| Call {B} (s : S B) (k : result E B -> prog S E A)
| OutOfFuel.
Arguments Ret {S E A} a.
Arguments Call {S E A B} s k.
Arguments OutOfFuel {S E A}.

Fixpoint pbind {S E A B} (p : prog S E A) (f : A -> prog S E B) : prog S E B :=
  match p with
  | Ret a => f a
  | Call s k => Call s (fun r => pbind (k r) f)
  | OutOfFuel => OutOfFuel
  end.
Definition call {S E A} (s : S A) : prog S E (result E A) := Call s Ret.

Declare Scope prog_scope.
Delimit Scope prog_scope with prog.
Notation "'let!' x ':=' p 'in' q" := (pbind p (fun x => q))
  (at level 10, x pattern, p at level 100, q at level 200) : prog_scope.
(** Stop at an error. *)
Definition pcheck {S E F A B} (p : prog S E (result F A)) (f : A -> prog S E (result F B)) : prog S E (result F B) :=
  pbind p (fun r => match r with Ok a => f a | Err e => Ret (Err e) end).
Notation "'try!' x ':=' p 'in' q" := (pcheck p (fun x => q))
  (at level 10, x pattern, p at level 100, q at level 200) : prog_scope.

(** ** Traces *)

(** The calls a program made and the answers it got; any answer is possible. *)
Inductive event (S : Type -> Type) (E : Type) : Type := Ev (B : Type) (s : S B) (r : result E B).
Arguments Ev {S E B} s r.

Section Traces.
Context {S : Type -> Type} {E : Type}.
Local Abbreviation prog := (prog S E).

Fixpoint traces {A} (p : prog A) (tr : list (event S E)) (a : A) : Prop :=
  match p with
  | Ret b => tr = [] /\ a = b
  | Call s k => exists r tr', tr = Ev s r :: tr' /\ traces (k r) tr' a
  | OutOfFuel => False
  end.

Lemma traces_bind {A B} (p : prog A) (f : A -> prog B) : forall tr b, traces (pbind p f) tr b ->
  exists tr1 a tr2, tr = tr1 ++ tr2 /\ traces p tr1 a /\ traces (f a) tr2 b.
Proof using Type.
  induction p as [a|C s k IH|]; intros tr b H; cbn [pbind] in H.
  - exists [], a, tr. split_and!; done.
  - destruct H as (r & tr' & -> & H). destruct (IH _ _ _ H) as (tr1 & a & tr2 & -> & H1 & H2).
    exists (Ev s r :: tr1), a, tr2. split_and!; [done|by exists r, tr1|done].
  - done.
Qed.
Lemma traces_check {F A B} (p : prog (result F A)) (f : A -> prog (result F B)) tr b : traces (pcheck p f) tr b ->
  (exists tr1 a tr2, tr = tr1 ++ tr2 /\ traces p tr1 (Ok a) /\ traces (f a) tr2 b) \/ (exists e, traces p tr (Err e) /\ b = Err e).
Proof using Type.
  intros (tr1 & [a|e] & tr2 & -> & H1 & H2)%traces_bind; [left; by exists tr1, a, tr2|right].
  destruct H2 as [-> ->]. exists e. by rewrite app_nil_r.
Qed.
Lemma traces_call {A B} (s : S B) (k : result E B -> prog A) tr a : traces (pbind (call s) k) tr a ->
  exists r tr', tr = Ev s r :: tr' /\ traces (k r) tr' a.
Proof using Type. done. Qed.

(** All calls of a program are of one kind. *)
Section Only.
Variable P : forall B, S B -> Prop.
Fixpoint only {A} (p : prog A) : Prop :=
  match p with Ret _ => True | Call s k => P _ s /\ forall r, only (k r) | OutOfFuel => True end.
Lemma only_bind {A B} (p : prog A) (f : A -> prog B) : only p -> (forall a, only (f a)) -> only (pbind p f).
Proof using Type. intros Hp Hf. induction p as [a|C s k IH|]; cbn in *; [done| |done]. destruct Hp as [Hs Hk]. split; [done|]. intros r. by apply IH. Qed.
Lemma only_check {F A B} (p : prog (result F A)) (f : A -> prog (result F B)) : only p -> (forall a, only (f a)) -> only (pcheck p f).
Proof using Type. intros Hp Hf. apply only_bind; [done|]. by intros [a|e]. Qed.
Lemma only_call {A B} (s : S B) (k : result E B -> prog A) : P _ s -> (forall r, only (k r)) -> only (pbind (call s) k).
Proof using Type. by split. Qed.
Lemma only_traces {A} (p : prog A) tr a : only p -> traces p tr a -> Forall (fun e => let 'Ev s _ := e in P _ s) tr.
Proof using Type.
  revert tr. induction p as [b|B s k IH|]; intros tr Hp H; [by destruct H as [-> _]| |done].
  destruct H as (r & tr' & -> & H). destruct Hp as [Hs Hk]. constructor; [done|]. by apply (IH r).
Qed.
End Only.
End Traces.
