(* ===== verification/Gameproto.v ===== *)
(** * gameproto: classification of game handshakes

    The Minecraft and Terraria wire formats, the demo protocol, the
    [Classifier] interface and its registry (src/gameproto/).  Go strings of
    this package are byte lists.  [Classifier] is the Go interface as a record
    of operations; the class [ClassifierLaws] is the contract the package
    documents (replay, detail, status pings, bounded reads), which every
    implementation discharges and the sentinel is verified against. *)

From S2P Require Import Prelude GoIO GoText GoJson.
Local Open Scope Z_scope.

(** ** Shared types *)

(** The errors of the package: a read error, an error wrapped with
    [fmt.Errorf("ctx: %w", err)], a rejected number, or a fixed message. *)
Inductive gerr :=
| GIO (e : io_err)
| GWrap (ctx : string) (e : gerr)
| GRange (what : string) (v : Z)
| GMsg (msg : string)
| ErrStatusPingUnsupported.

(** [Kind] *)
Inductive Kind := Join | Status | Unknown.

#[export] Instance Kind_eq_dec : EqDecision Kind.
Proof. solve_decision. Defined.

(** [Kind.String] on the three declared kinds. *)
Definition Kind_String (k : Kind) : string :=
  match k with Join => "Join" | Status => "Status" | Unknown => "Unknown" end.

(** [Detail]: the protocol-specific metadata. *)
Inductive Detail :=
| MinecraftDetail (ProtocolVersion NextState : Z) (ServerAddr : list Z)
| TerrariaDetail (Version : list Z).

(** [Detail.ProtocolName] *)
Definition ProtocolName (d : Detail) : string :=
  match d with
  | MinecraftDetail _ _ _ => "minecraft"
  | TerrariaDetail _ => "terraria"
  end.

(** [ClassificationResult]; [detail] is the possibly nil interface value. *)
Record ClassificationResult := MkResult {
  kind : Kind;
  Consumed : list Z;
  detail : option Detail
}.

(** The [Classifier] interface. *)
Record Classifier := MkClassifier {
  Classify : rd gerr ClassificationResult;
  SupportsStatusPing : bool;
  BuildStatusResponse : list Z -> result gerr (list Z);
  BuildDisconnect : list Z -> result gerr (list Z)
}.

(** The documented contract of the interface: the bytes consumed followed by
    what is left in the reader are the original stream; reads are bounded; the
    detail is nil exactly for [Unknown]; [Status] is only reported by protocols
    that can answer it, and the others refuse to build an answer. *)
Class ClassifierLaws (c : Classifier) : Prop := {
  law_replay s r s' : Classify c s = (Ok r, s') ->
    pending s = Consumed r ++ pending s' /\ fin s' = fin s;
  law_frame : consumes (Classify c);
  law_bound : reads_at_most 65535 (Classify c);
  law_detail s r s' : Classify c s = (Ok r, s') -> detail r = None <-> kind r = Unknown;
  law_status s r s' : Classify c s = (Ok r, s') -> kind r = Status -> SupportsStatusPing c = true;
  law_unsupported p : SupportsStatusPing c = false ->
    BuildStatusResponse c p = Err ErrStatusPingUnsupported
}.

(** Continue with a pure result inside a read. *)
Definition of_result {E A} (r : result E A) : rd E A := fun s => (r, s).

(** ** Minecraft *)
Module Minecraft.

Definition minecraftMaxPacketSize : Z := 512.

(** [minecraftClassifyResult] *)
Record minecraftClassifyResult := MkMC {
  mcProtocolVersion : Z;
  mcNextState : Z;
  mcServerAddr : list Z;
  mcConsumed : list Z
}.

(** The loop [for i := 0; i < 5; i++] of [readMinecraftVarIntWithCapture]:
    [todo] is [5 - i].  The captured bytes are returned with the value; every
    caller drops them on an error. *)
Fixpoint varint_loop (todo : nat) (i acc : Z) (cap : list Z) : rd gerr (Z * list Z) :=
  match todo with
  | O => fail (GMsg "varint too long")
  | S todo' =>
      b ← wrap GIO readByte;
      let cap := cap ++ [b] in
      let acc := Z.lor acc (u32 (Z.shiftl (Z.land b 0x7f) (7 * i))) in
      if Z.land b 0x80 =? 0 then
        if (i =? 4) && (0x0f <? Z.land b 0x7f)
        then fail (GMsg "varint value out of range for int32")
        else mret (s32 acc, cap)
      else if i =? 4 then fail (GMsg "varint too long")
      else varint_loop todo' (i + 1) acc cap
  end.

Definition readMinecraftVarIntWithCapture : rd gerr (Z * list Z) := varint_loop 5 0 0 [].

Definition readMinecraftVarInt : rd gerr Z :=
  p ← readMinecraftVarIntWithCapture; mret p.1.

(** The [for] loop of [writeMinecraftVarInt]; a uint32 has at most five groups
    of seven bits, so five rounds are enough ([varint_groups_enough]). *)
Fixpoint varint_groups (fuel : nat) (uv : Z) : list Z :=
  match fuel with
  | O => []
  | S n =>
      let b := u8 (Z.land uv 0x7f) in
      let uv' := Z.shiftr uv 7 in
      if uv' =? 0 then [b] else Z.lor b 0x80 :: varint_groups n uv'
  end.

(** [writeMinecraftVarInt]: the bytes appended to the buffer. *)
Definition writeMinecraftVarInt (v : Z) : list Z := varint_groups 5 (u32 v).

(** [readMinecraftString] over a [*bytes.Reader] *)
Definition readMinecraftString : rd gerr (list Z) :=
  length ← readMinecraftVarInt;
  if (length <? 0) || (32767 <? length) then fail (GRange "string length" length)
  else wrap GIO (readFull (Z.to_nat length)).

(** [writeMinecraftString]: the bytes appended, or the error. *)
Definition writeMinecraftString (s : list Z) : result gerr (list Z) :=
  let slen := Z.of_nat (length s) in
  if 32767 <? slen then Err (GRange "string too long" slen)
  else Ok (writeMinecraftVarInt slen ++ s).

(** [frameMinecraftPacket] *)
Definition frameMinecraftPacket (data : list Z) : list Z :=
  let dlen := Z.of_nat (length data) in
  let dlen := if 0x7fffffff <? dlen then 0x7fffffff else dlen in
  writeMinecraftVarInt dlen ++ data.

(** The packet ID, version, address, port and next state of a handshake frame,
    read from [bytes.NewReader(frame)]. *)
Definition parseHandshake : rd gerr (Z * list Z * Z * Z) :=
  packetID ← wrap (GWrap "read packet id") readMinecraftVarInt;
  if negb (packetID =? 0x00) then fail (GRange "expected handshake packet id 0x00" packetID)
  else
    protocolVersion ← wrap (GWrap "read protocol version") readMinecraftVarInt;
    serverAddr ← wrap (GWrap "read server address") readMinecraftString;
    portBytes ← wrap (fun e => GWrap "read server port" (GIO e)) (readFull 2);
    nextState ← wrap (GWrap "read next state") readMinecraftVarInt;
    mret (protocolVersion, serverAddr, be_u16 portBytes, nextState).

(** [classifyMinecraftHandshake] *)
Definition classifyMinecraftHandshake : rd gerr (Kind * minecraftClassifyResult) :=
  p ← wrap (fun e => match e with
                     | GIO EOF => GIO EOF
                     | e => GWrap "read handshake length" e
                     end) readMinecraftVarIntWithCapture;
  let '(length, captured) := p in
  if (length <=? 0) || (minecraftMaxPacketSize <? length)
  then fail (GRange "handshake packet length" length)
  else
    frame ← wrap (fun e => GWrap "read handshake frame" (GIO e)) (readFull (Z.to_nat length));
    let consumed := captured ++ frame in
    q ← of_result (parseHandshake (bytes_reader frame)).1;
    let '(protocolVersion, serverAddr, port, nextState) := q in
    let result := MkMC protocolVersion nextState
                    (serverAddr ++ bytes_of ":" ++ bytes_of (Itoa port)) consumed in
    mret (if nextState =? 1 then (Status, result)
          else if nextState =? 2 then (Join, result)
          else (Unknown, result)).

(** [buildMinecraftStatusResponse] *)
Definition buildMinecraftStatusResponse (jsonPayload : list Z) : result gerr (list Z) :=
  if negb (json_valid jsonPayload)
  then Err (GMsg "build status response: payload is not valid JSON")
  else
    str ← map_err (GWrap "encode status response") (writeMinecraftString jsonPayload);
    Ok (frameMinecraftPacket (writeMinecraftVarInt 0x00 ++ str)).

(** [\u%04x] of a rune below 0x20 *)
Definition hex_digit (d : Z) : Z := if d <? 10 then 48 + d else 87 + d.
Definition u_escape (r : Z) : list Z :=
  [92; 117; hex_digit (Z.shiftr r 12 mod 16); hex_digit (Z.shiftr r 8 mod 16);
   hex_digit (Z.shiftr r 4 mod 16); hex_digit (r mod 16)].

(** One round of the loop of [escapeJSONString]. *)
Definition escape_rune (r : Z) : list Z :=
  if r =? 34 then [92; 34]
  else if r =? 92 then [92; 92]
  else if r =? 8 then [92; 98]
  else if r =? 12 then [92; 102]
  else if r =? 10 then [92; 110]
  else if r =? 13 then [92; 114]
  else if r =? 9 then [92; 116]
  else if r <? 0x20 then u_escape r
  else encode_rune r.

Definition escapeJSONString (s : list Z) : list Z := concat (map escape_rune (runes s)).

(** [{"text":"] and ["}], the quote being byte 34. *)
Definition chat_open : list Z :=
  bytes_of "{" ++ [34] ++ bytes_of "text" ++ [34] ++ bytes_of ":" ++ [34].
Definition chat_close : list Z := [34] ++ bytes_of "}".

Definition chatJSON (reason : list Z) : list Z :=
  chat_open ++ escapeJSONString reason ++ chat_close.

(** [buildMinecraftLoginDisconnect] *)
Definition buildMinecraftLoginDisconnect (reason : list Z) : result gerr (list Z) :=
  str ← map_err (GWrap "encode disconnect reason") (writeMinecraftString (chatJSON reason));
  Ok (frameMinecraftPacket (writeMinecraftVarInt 0x00 ++ str)).

(** [MinecraftClassifier.Classify] *)
Definition Classify : rd gerr ClassificationResult :=
  p ← classifyMinecraftHandshake;
  let '(k, r) := p in
  mret (MkResult k (mcConsumed r)
    (if decide (k = Join \/ k = Status)
     then Some (MinecraftDetail (mcProtocolVersion r) (mcNextState r) (mcServerAddr r))
     else None)).

(** [MinecraftClassifier] *)
Definition MinecraftClassifier : Classifier :=
  MkClassifier Classify true buildMinecraftStatusResponse buildMinecraftLoginDisconnect.

End Minecraft.

(** ** Terraria *)
Module Terraria.

Definition terrariaConnectRequest : Z := 1.
Definition terrariaDisconnect : Z := 2.
Definition terrariaMaxPacketSize : Z := 65535.
Definition terrariaMaxStringLength : Z := 32 * 1024.

(** [terrariaClassifyResult] *)
Record terrariaClassifyResult := MkTC { tcVersion : list Z; tcConsumed : list Z }.

(** The loop [for shift := 0; shift < 32; shift += 7] of
    [readTerrafia7BitEncodedInt]: shifts 0, 7, 14, 21 and 28.  [result] is an
    int32, and so is the shifted group. *)
Fixpoint seven_bit_loop (todo : nat) (shift acc : Z) : rd gerr Z :=
  match todo with
  | O => fail (GMsg "7-bit encoded int too long")
  | S todo' =>
      b ← wrap GIO readByte;
      let acc := s32 (Z.lor acc (s32 (Z.shiftl (Z.land b 0x7f) shift))) in
      if Z.land b 0x80 =? 0 then mret acc else seven_bit_loop todo' (shift + 7) acc
  end.

Definition readTerrafia7BitEncodedInt : rd gerr Z := seven_bit_loop 5 0 0.

(** [writeTerrafia7BitEncodedInt]: the same groups as a VarInt. *)
Fixpoint seven_bit_groups (fuel : nat) (uv : Z) : list Z :=
  match fuel with
  | O => []
  | S n =>
      let b := u8 (Z.land uv 0x7f) in
      let uv' := Z.shiftr uv 7 in
      if uv' =? 0 then [b] else Z.lor b 0x80 :: seven_bit_groups n uv'
  end.

Definition writeTerrafia7BitEncodedInt (v : Z) : result gerr (list Z) :=
  if v <? 0 then Err (GRange "cannot encode negative value" v)
  else Ok (seven_bit_groups 5 (u32 v)).

(** [readTerrariaString] *)
Definition readTerrariaString : rd gerr (list Z) :=
  length ← readTerrafia7BitEncodedInt;
  if length <? 0 then fail (GRange "negative string length" length)
  else if terrariaMaxStringLength <? length then fail (GRange "string length exceeds max" length)
  else fun s =>
    let rlen := Z.of_nat (List.length (pending s)) in
    if rlen <? length then (Err (GRange "string length exceeds remaining" length), s)
    else wrap (fun e => GWrap "read string data" (GIO e)) (readFull (Z.to_nat length)) s.

(** [writeTerrariaString]; [int32(slen)] after the range check. *)
Definition writeTerrariaString (s : list Z) : result gerr (list Z) :=
  let slen := Z.of_nat (length s) in
  if 0x7fffffff <? slen then Err (GRange "string length out of int32 range" slen)
  else
    n ← writeTerrafia7BitEncodedInt (s32 slen);
    Ok (n ++ s).

(** [writeTerrariaNetworkText] *)
Definition writeTerrariaNetworkText (text : list Z) : result gerr (list Z) :=
  s ← writeTerrariaString text; Ok (0 :: s).

(** [buildTerrariaDisconnect] *)
Definition buildTerrariaDisconnect (reason : list Z) : result gerr (list Z) :=
  payload ← map_err (GWrap "encode disconnect reason") (writeTerrariaNetworkText reason);
  let frame := terrariaDisconnect :: payload in
  let totalLength := Z.of_nat (length frame) + 2 in
  if terrariaMaxPacketSize <? totalLength
  then Err (GRange "disconnect message too large" totalLength)
  else Ok (le16 (u16 totalLength) ++ frame).

(** [parseTerrariaConnectRequest] *)
Definition parseTerrariaConnectRequest (payload : list Z) : result gerr terrariaClassifyResult :=
  match payload with
  | [] => Err (GMsg "empty ConnectRequest payload")
  | _ =>
      version ← map_err (GWrap "read version string") (readTerrariaString (bytes_reader payload)).1;
      Ok (MkTC version [])
  end.

(** [classifyTerrariaConnect] *)
Definition classifyTerrariaConnect : rd gerr (Kind * terrariaClassifyResult) :=
  header ← wrap (fun e => match e with
                          | EOF | ErrUnexpectedEOF => GIO e
                          | e => GWrap "read terraria frame header" (GIO e)
                          end) (readFull 3);
  let totalLength := le_u16 header in
  let messageType := nthb header 2 in
  if totalLength <? 3 then fail (GRange "terraria frame too short" totalLength)
  else if terrariaMaxPacketSize <? totalLength
  then fail (GRange "terraria frame too long" totalLength)
  else
    let payloadLength := totalLength - 3 in
    payload ← (if 0 <? payloadLength
               then wrap (fun e => GWrap "read terraria frame payload" (GIO e))
                      (readFull (Z.to_nat payloadLength))
               else mret []);
    let consumed := header ++ payload in
    if negb (messageType =? terrariaConnectRequest) then mret (Unknown, MkTC [] consumed)
    else
      result ← of_result (map_err (GWrap "parse terraria ConnectRequest")
                            (parseTerrariaConnectRequest payload));
      mret (Join, MkTC (tcVersion result) consumed).

(** [TerrariaClassifier.Classify] *)
Definition Classify : rd gerr ClassificationResult :=
  p ← classifyTerrariaConnect;
  let '(k, r) := p in
  mret (MkResult k (tcConsumed r)
    (if decide (k = Join) then Some (TerrariaDetail (tcVersion r)) else None)).

(** [TerrariaClassifier] *)
Definition TerrariaClassifier : Classifier :=
  MkClassifier Classify false (fun _ => Err ErrStatusPingUnsupported) buildTerrariaDisconnect.

End Terraria.

(** ** The demo protocol and the registry *)

(** [DemoClassifier] *)
Definition DemoClassifier : Classifier :=
  MkClassifier (mret (MkResult Unknown [] None)) false
    (fun _ => Err ErrStatusPingUnsupported) (fun _ => Ok []).

(** [classifierRegistry] *)
Definition classifierRegistry : list (string * Classifier) :=
  [("minecraft", Minecraft.MinecraftClassifier);
   ("terraria", Terraria.TerrariaClassifier);
   ("demo", DemoClassifier)].

(** [Lookup] *)
Definition Lookup (name : string) : option Classifier :=
  snd <$> List.find (fun p => String.eqb (fst p) name) classifierRegistry.

(** [ListRegistered]: the names, sorted. *)
Definition ListRegistered : list string :=
  merge_sort str_le (map fst classifierRegistry).
