(* ===== verification/GameprotoFacts.v ===== *)
(** * Correctness of gameproto

    Round trips of the two variable-length integers and of the strings, frames
    and handshakes built from them; the replay contract and the read bounds of
    every classifier; well-formedness of the JSON and of the frames sent back to
    clients. *)

From S2P Require Import Prelude GoIO GoText GoJson Gameproto.
Local Open Scope Z_scope.

(** ** Seven-bit groups *)

(** One group of the writers: the last byte has its high bit clear, the others
    have it set; both carry [uv mod 128]. *)
Lemma group_last uv : 0 <= uv < 128 -> u8 (Z.land uv 0x7f) = uv.
Proof. intros. unfold u8. rewrite land_127, (Z.mod_small uv 128), Z.mod_small; lia. Qed.

Lemma group_more uv : Z.lor (u8 (Z.land uv 0x7f)) 0x80 = uv mod 128 + 128.
Proof.
  unfold u8. rewrite land_127. pose proof (Z.mod_pos_bound uv 128 ltac:(lia)).
  rewrite (Z.mod_small _ 256) by lia. rewrite lor_128_byte; lia.
Qed.

Lemma group_mask b : 0 <= b < 128 ->
  Z.land (b + 128) 0x7f = b /\ Z.land (b + 128) 0x80 = 128.
Proof.
  intros. rewrite land_127, land_128_byte by (unfold is_byte; lia). split.
  - replace (b + 128) with (b + 1 * 128) by lia. rewrite Z.mod_add, Z.mod_small; lia.
  - destruct (Z.ltb_spec (b + 128) 128); lia.
Qed.

Lemma group_mask_last b : 0 <= b < 128 -> Z.land b 0x7f = b /\ Z.land b 0x80 = 0.
Proof.
  intros. rewrite land_127, land_128_byte by (unfold is_byte; lia). split.
  - rewrite Z.mod_small; lia.
  - destruct (Z.ltb_spec b 128); lia.
Qed.

Lemma shiftr7 uv : Z.shiftr uv 7 = uv / 128.
Proof. by rewrite Z.shiftr_div_pow2. Qed.

Lemma pow7_succ i : 0 <= i -> 2 ^ (7 * (i + 1)) = 2 ^ (7 * i) * 128.
Proof. intros. rewrite Z.mul_add_distr_l, Z.pow_add_r by lia. done. Qed.

(** Accumulating a group: or-ing it in is adding it. *)
Lemma acc_group acc g i :
  0 <= i <= 4 -> 0 <= acc < 2 ^ (7 * i) -> 0 <= g -> g * 2 ^ (7 * i) < 2 ^ 32 ->
  Z.lor acc (u32 (Z.shiftl g (7 * i))) = acc + g * 2 ^ (7 * i).
Proof.
  intros Hi Hacc Hg Hlt. unfold u32. rewrite Z.mod_small.
  - apply lor_shiftl_add; lia.
  - rewrite Z.shiftl_mul_pow2 by lia. split; [|done].
    apply Z.mul_nonneg_nonneg; [done|]. apply Z.pow_nonneg. lia.
Qed.

Lemma div128_bound uv k : 0 <= k -> 0 <= uv < 2 ^ (k + 7) -> 0 <= uv / 128 < 2 ^ k.
Proof.
  intros Hk Huv. rewrite Z.pow_add_r in Huv by lia. change (2 ^ 7) with 128 in Huv.
  split; [apply Z.div_pos; lia|]. apply Z.div_lt_upper_bound; lia.
Qed.

(** ** Frame automation *)

Lemma consumes_of_result {E A} (r : result E A) : consumes (of_result r).
Proof. intros s. by exists []. Qed.

Lemma of_result_reads {E A} (r : result E A) n : 0 <= n -> reads_at_most n (of_result r).
Proof. intros ? s. simpl. lia. Qed.

Ltac solve_consumes :=
  first [ apply consumes_bind; [|intros] | apply consumes_wrap | apply consumes_of_result
        | apply consumes_readFull | apply consumes_readByte | apply consumes_ret
        | apply consumes_fail | progress (auto with gp) | case_match | intros s; by exists [] ].

Module MinecraftFacts.
Import Minecraft.

(** Reading back the groups of [uv] from position [i]. *)
Lemma varint_loop_groups n : forall i acc uv cap rest f,
  i = 5 - Z.of_nat n -> 0 <= i -> 0 <= acc < 2 ^ (7 * i) -> 0 <= uv < 2 ^ (32 - 7 * i) ->
  varint_loop n i acc cap (Stream (varint_groups n uv ++ rest) f) =
  (Ok (s32 (acc + uv * 2 ^ (7 * i)), cap ++ varint_groups n uv), Stream rest f).
Proof.
  induction n as [|n IH]; intros i acc uv cap rest f Hi Hi0 Hacc Huv.
  { replace i with 5 in Huv by lia. simpl in Huv. lia. }
  assert (Hbits : 2 ^ (32 - 7 * i) * 2 ^ (7 * i) = 2 ^ 32)
    by (rewrite <- Z.pow_add_r by lia; f_equal; lia).
  assert (0 < 2 ^ (7 * i)) by (apply Z.pow_pos_nonneg; lia).
  cbn [varint_groups varint_loop]. rewrite shiftr7.
  pose proof (Z.mod_pos_bound uv 128 ltac:(lia)) as Hmod.
  pose proof (Z.div_mod uv 128 ltac:(lia)) as Hdm.
  destruct (Z.eqb_spec (uv / 128) 0) as [Hlast|Hmore].
  - assert (0 <= uv < 128) by lia. rewrite group_last by done.
    unfold mbind, rd_bind, wrap, readByte; cbn [app pending fin map_err].
    destruct (group_mask_last uv) as [-> ->]; [done|]. rewrite acc_group by nia.
    replace ((i =? 4) && (15 <? uv)) with false; [done|].
    symmetry. apply andb_false_iff. destruct (Z.eqb_spec i 4) as [->|]; [right|by left].
    apply Z.ltb_ge. change (2 ^ (32 - 7 * 4)) with 16 in Huv. lia.
  - rewrite group_more. unfold mbind, rd_bind, wrap, readByte; cbn [app pending fin map_err].
    destruct (group_mask (uv mod 128)) as [-> ->]; [done|]. cbn [Z.eqb].
    destruct (Z.eqb_spec i 4) as [->|Hi4].
    { change (2 ^ (32 - 7 * 4)) with 16 in Huv. rewrite Z.div_small in Hmore by lia. done. }
    rewrite acc_group by nia. 
    rewrite IH; [|lia..| | ].
    + f_equal. f_equal. f_equal; [|by rewrite <- app_assoc].
      f_equal. rewrite pow7_succ by lia.
      transitivity (acc + (128 * (uv / 128) + uv mod 128) * 2 ^ (7 * i)); [ring|by rewrite <- Hdm].
    + rewrite pow7_succ by lia. nia.
    + apply div128_bound; [lia|]. by replace (32 - 7 * (i + 1) + 7) with (32 - 7 * i) by lia.
Qed.

Lemma readVarIntWithCapture_write v rest f :
  int32_range v ->
  readMinecraftVarIntWithCapture (Stream (writeMinecraftVarInt v ++ rest) f) =
  (Ok (v, writeMinecraftVarInt v), Stream rest f).
Proof.
  intros Hv. unfold readMinecraftVarIntWithCapture, writeMinecraftVarInt.
  rewrite varint_loop_groups; try done; try apply u32_range.
  change (2 ^ (7 * 0)) with 1. by rewrite Z.mul_1_r, Z.add_0_l, s32_u32.
Qed.

Lemma readVarInt_write v rest f :
  int32_range v ->
  readMinecraftVarInt (Stream (writeMinecraftVarInt v ++ rest) f) = (Ok v, Stream rest f).
Proof.
  intros Hv. unfold readMinecraftVarInt, mbind, rd_bind.
  by rewrite readVarIntWithCapture_write.
Qed.

(** Five rounds always finish the writer's loop: more fuel changes nothing. *)
Lemma varint_groups_enough n k uv :
  0 <= uv < 2 ^ (7 * Z.of_nat n) -> (0 < n)%nat -> (n <= k)%nat ->
  varint_groups k uv = varint_groups n uv.
Proof.
  revert k uv. induction n as [|n IH]; intros k uv Huv Hn Hk; [lia|].
  destruct k as [|k]; [lia|]. cbn [varint_groups]. rewrite shiftr7.
  destruct (Z.eqb_spec (uv / 128) 0) as [|Hne]; [done|]. f_equal.
  destruct n as [|n].
  - rewrite Z.div_small in Hne; [done|]. simpl in Huv. lia.
  - apply IH; [|lia..]. apply div128_bound; [lia|].
    by replace (7 * Z.of_nat (S n) + 7) with (7 * Z.of_nat (S (S n))) by lia.
Qed.

Lemma varint_length v : (length (writeMinecraftVarInt v) <= 5)%nat.
Proof.
  assert (H : forall n uv, (length (varint_groups n uv) <= n)%nat).
  { induction n as [|n IH]; intros uv; simpl; [lia|].
    destruct (_ =? 0); simpl; [lia|]. specialize (IH (Z.shiftr uv 7)). lia. }
  apply H.
Qed.

(** What is captured is what was read. *)
Lemma varint_loop_capture n : forall i acc cap s v c s',
  varint_loop n i acc cap s = (Ok (v, c), s') ->
  exists pre, c = cap ++ pre /\ pending s = pre ++ pending s' /\ fin s' = fin s.
Proof.
  induction n as [|n IH]; intros i acc cap [p f] v c s' H; [by inv_ok|].
  cbn [varint_loop] in H. unfold mbind, rd_bind, wrap, readByte in H; cbn [pending fin] in H.
  destruct p as [|b p]; cbn [map_err] in H; [by inv_ok|]. cbn [pending fin].
  destruct (Z.land b 128 =? 0); [|destruct (i =? 4); [by inv_ok|]].
  - destruct (_ && _); [by inv_ok|]. unfold mret, rd_ret in H. inv_ok.
    exists [b]. done.
  - apply IH in H as (pre & -> & Hp & Hf). exists (b :: pre). cbn [pending fin] in *.
    rewrite Hp, <- app_assoc. done.
Qed.

Lemma varint_loop_consumes n i acc cap : consumes (varint_loop n i acc cap).
Proof.
  revert i acc cap. induction n as [|n IH]; intros; cbn [varint_loop]; [auto with gp|].
  apply consumes_bind; [auto with gp|]. intros b.
  repeat case_match; auto with gp.
Qed.

#[local] Hint Resolve varint_loop_consumes : gp.

Lemma varint_loop_reads n i acc cap : reads_at_most (Z.of_nat n) (varint_loop n i acc cap).
Proof.
  revert i acc cap. induction n as [|n IH]; intros; cbn [varint_loop]; [by apply reads_fail|].
  apply (reads_le _ (1 + Z.of_nat n)); [|lia].
  apply reads_bind; [lia|auto with gp|]. intros b.
  repeat case_match; first [apply IH | apply reads_fail; lia | apply reads_ret; lia].
Qed.

(** ** Strings, frames and the replies *)

Lemma mc_readString_write s w rest f :
  writeMinecraftString s = Ok w ->
  readMinecraftString (Stream (w ++ rest) f) = (Ok s, Stream rest f).
Proof.
  unfold writeMinecraftString, readMinecraftString. intros H.
  destruct (Z.ltb_spec 32767 (Z.of_nat (length s))); inv_ok.
  unfold mbind, rd_bind. rewrite <- app_assoc.
  rewrite readVarInt_write by (unfold int32_range; lia).
  destruct (Z.ltb_spec (Z.of_nat (length s)) 0); [lia|].
  destruct (Z.ltb_spec 32767 (Z.of_nat (length s))); [lia|]. cbn [orb].
  unfold wrap. rewrite Nat2Z.id, readFull_app by done. done.
Qed.

Lemma mc_writeString_length s w :
  writeMinecraftString s = Ok w -> Z.of_nat (length w) <= 32772.
Proof.
  unfold writeMinecraftString. intros H.
  destruct (Z.ltb_spec 32767 (Z.of_nat (length s))); inv_ok. rewrite length_app.
  pose proof (varint_length (Z.of_nat (length s))). lia.
Qed.

(** [readMinecraftVarInt] then [io.ReadFull]: how a client takes a frame off the
    wire. *)
Definition readFrame : rd gerr (list Z) :=
  n ← readMinecraftVarInt; wrap GIO (readFull (Z.to_nat n)).

Lemma readFrame_frame data rest f :
  Z.of_nat (length data) <= 0x7fffffff ->
  readFrame (Stream (frameMinecraftPacket data ++ rest) f) = (Ok data, Stream rest f).
Proof.
  intros Hlen. unfold frameMinecraftPacket.
  destruct (Z.ltb_spec 0x7fffffff (Z.of_nat (length data))); [lia|].
  unfold readFrame, mbind, rd_bind. rewrite <- app_assoc.
  rewrite readVarInt_write by (unfold int32_range; lia).
  unfold wrap. by rewrite Nat2Z.id, readFull_app.
Qed.

(** ** Handshakes *)

(** The handshake a client sends, written with the package's own writers. *)
Definition handshakeBody (pv ns port : Z) (addr : list Z) : list Z :=
  writeMinecraftVarInt 0 ++ writeMinecraftVarInt pv ++
  (writeMinecraftVarInt (Z.of_nat (length addr)) ++ addr) ++
  [port / 256; port mod 256] ++ writeMinecraftVarInt ns.

Definition kind_of_state (ns : Z) : Kind :=
  if ns =? 1 then Status else if ns =? 2 then Join else Unknown.

Lemma be_u16_split port : 0 <= port < 65536 -> be_u16 [port / 256; port mod 256] = port.
Proof.
  intros Hp. unfold be_u16, nthb; simpl. pose proof (Z.mod_pos_bound port 256 ltac:(lia)).
  rewrite lor_shiftl_add by lia. change (2 ^ 8) with 256.
  pose proof (Z.div_mod port 256). lia.
Qed.

Lemma parseHandshake_body pv ns port addr :
  int32_range pv -> int32_range ns -> 0 <= port < 65536 -> Z.of_nat (length addr) <= 32767 ->
  (parseHandshake (bytes_reader (handshakeBody pv ns port addr))).1 = Ok (pv, addr, port, ns).
Proof.
  intros Hpv Hns Hport Haddr. unfold parseHandshake, handshakeBody, bytes_reader.
  unfold mbind, rd_bind, wrap. rewrite readVarInt_write by by vm_compute.
  cbn [map_err Z.eqb negb]. rewrite readVarInt_write by done. cbn [map_err].
  rewrite (mc_readString_write addr) by (unfold writeMinecraftString;
    by destruct (Z.ltb_spec 32767 (Z.of_nat (length addr))); [lia|]).
  cbn [map_err]. rewrite readFull_app by done. cbn [map_err].
  rewrite <- (app_nil_r (writeMinecraftVarInt ns)), readVarInt_write by done.
  cbn [map_err]. by rewrite be_u16_split.
Qed.

Lemma classify_body pv ns port addr rest f :
  int32_range pv -> int32_range ns -> 0 <= port < 65536 -> Z.of_nat (length addr) <= 32767 ->
  Z.of_nat (length (handshakeBody pv ns port addr)) <= minecraftMaxPacketSize ->
  classifyMinecraftHandshake
    (Stream (frameMinecraftPacket (handshakeBody pv ns port addr) ++ rest) f) =
  (Ok (kind_of_state ns,
       MkMC pv ns (addr ++ bytes_of ":" ++ bytes_of (Itoa port))
         (frameMinecraftPacket (handshakeBody pv ns port addr))), Stream rest f).
Proof.
  intros Hpv Hns Hport Haddr Hmax. set (body := handshakeBody pv ns port addr) in *.
  unfold minecraftMaxPacketSize in Hmax.
  assert (Hpos : (0 < length body)%nat).
  { unfold body, handshakeBody. rewrite !length_app. simpl. lia. }
  unfold frameMinecraftPacket.
  destruct (Z.ltb_spec 0x7fffffff (Z.of_nat (length body))); [lia|].
  unfold classifyMinecraftHandshake, mbind, rd_bind, wrap. rewrite <- app_assoc.
  rewrite readVarIntWithCapture_write by (unfold int32_range; lia).
  cbn [map_err]. unfold minecraftMaxPacketSize.
  destruct (Z.leb_spec (Z.of_nat (length body)) 0); [lia|].
  destruct (Z.ltb_spec 512 (Z.of_nat (length body))); [lia|]. cbn [orb].
  rewrite Nat2Z.id, readFull_app by done. cbn [map_err of_result].
  unfold of_result. unfold body at 1. rewrite parseHandshake_body by done.
  unfold kind_of_state. by destruct (ns =? 1); [|destruct (ns =? 2)].
Qed.

(** ** The JSON sent back *)

Lemma encode_rune_plain r : 0x20 <= r -> r <> 34 -> r <> 92 ->
  Forall (fun c => plain c = true) (encode_rune r).
Proof.
  intros H20 H34 H92.
  assert (Hhigh : forall a b, 0x80 <= a -> 0 <= b -> plain (Z.lor a b) = true).
  { intros a b Ha Hb. pose proof (lor_ge_l a b). unfold plain.
    rewrite !andb_true_iff, !negb_true_iff, Z.leb_le, !Z.eqb_neq. lia. }
  assert (Hland : forall a m, 0 <= a -> 0 <= Z.land a m) by (intros; by apply land_nonneg_l).
  assert (Hshr : forall n, 0 <= Z.shiftr r n) by (intros; apply Z.shiftr_nonneg; lia).
  unfold encode_rune. cbv zeta.
  destruct (_ && _) eqn:E1.
  - repeat constructor. unfold plain. rewrite !andb_true_iff, !negb_true_iff, Z.leb_le, !Z.eqb_neq. lia.
  - clear E1. destruct (_ && _); [|destruct (_ || _ || _); [by repeat constructor|destruct (r <? 65536)]];
      repeat constructor; (apply Hhigh; [lia|]); first [apply Hshr | apply Hland; first [apply Hshr|lia]].
Qed.

(** Escaping keeps the scanner inside the string, whatever the rune. *)
Lemma jrun_escape_rune k r :
  0 <= r -> jrun (Scanner InString k) (escape_rune r) = Some (Scanner InString k).
Proof.
  intros Hr. destruct (Z.ltb_spec r 0x20) as [Hlt|Hge].
  - assert (Hall : Forall (fun r => jrun (Scanner InString k) (escape_rune r) =
       Some (Scanner InString k)) (seqZ 0 32)) by (repeat (constructor; [done|]); constructor).
    rewrite Forall_forall in Hall. apply Hall, elem_of_seqZ. lia.
  - unfold escape_rune.
    destruct (Z.eqb_spec r 34) as [->|]; [done|]. destruct (Z.eqb_spec r 92) as [->|]; [done|].
    destruct (Z.eqb_spec r 8); [lia|]. destruct (Z.eqb_spec r 12); [lia|].
    destruct (Z.eqb_spec r 10); [lia|]. destruct (Z.eqb_spec r 13); [lia|].
    destruct (Z.eqb_spec r 9); [lia|]. destruct (Z.ltb_spec r 32); [lia|].
    by apply jrun_plain, encode_rune_plain.
Qed.

Lemma jrun_escape k s :
  Forall is_byte s ->
  jrun (Scanner InString k) (escapeJSONString s) = Some (Scanner InString k).
Proof.
  intros Hs. unfold escapeJSONString. apply runes_nonneg in Hs.
  induction Hs as [|r rs Hr _ IH]; simpl; [done|].
  by rewrite jrun_app, jrun_escape_rune.
Qed.

(** ** Replay and bounds of the classifier *)

Lemma mc_classify_consumed s k r s' :
  classifyMinecraftHandshake s = (Ok (k, r), s') ->
  pending s = mcConsumed r ++ pending s' /\ fin s' = fin s /\ k = kind_of_state (mcNextState r).
Proof.
  unfold classifyMinecraftHandshake, mbind, rd_bind, wrap, of_result. intros H.
  destruct (readMinecraftVarIntWithCapture s) as [[[len cap]|e] s1] eqn:E1;
    cbn [map_err] in H; [|by inv_ok].
  apply varint_loop_capture in E1 as (pre & -> & Hp & Hf). cbn [app] in H.
  destruct (_ || _); [unfold fail in H; by inv_ok|].
  destruct (readFull (Z.to_nat len) s1) as [[frame|e] s2] eqn:E2; cbn [map_err] in H; [|by inv_ok].
  apply readFull_Ok in E2 as (_ & Hp2 & Hf2).
  destruct (parseHandshake (bytes_reader frame)).1 as [[[[pv addr] port] ns]|e]; [|by inv_ok].
  unfold mret, rd_ret in H.
  assert (k = kind_of_state ns /\ mcNextState r = ns /\ mcConsumed r = pre ++ frame /\ s' = s2)
    as (-> & -> & -> & ->).
  { unfold kind_of_state. by destruct (ns =? 1); [|destruct (ns =? 2)]; inv_ok. }
  rewrite Hp, Hp2, app_assoc. split; [done|]. split; [congruence|done].
Qed.

Lemma mc_classify_consumes : consumes Classify.
Proof. unfold Classify, classifyMinecraftHandshake. repeat solve_consumes. Qed.

Lemma mc_classify_reads : reads_at_most 517 Classify.
Proof.
  unfold Classify. apply (reads_bind _ _ 517 0); [done| |intros []; by apply reads_ret].
  unfold classifyMinecraftHandshake.
  apply (reads_bind _ _ 5 512); [done|apply reads_wrap, (varint_loop_reads 5)|]. intros [len cap].
  destruct (_ || _) eqn:E; [by apply reads_fail|].
  apply orb_false_iff in E as [E1 E2]. unfold minecraftMaxPacketSize in E2. zbool; try done.
  apply (reads_bind _ _ 512 0); [done| |].
  - apply reads_wrap. eapply reads_le; [apply reads_readFull|lia].
  - intros frame. apply (reads_bind _ _ 0 0); [done|by apply of_result_reads|].
    intros [[[]]]. by apply reads_ret.
Qed.

End MinecraftFacts.

Module TerrariaFacts.
Import Terraria.

Lemma s32_acc_group acc g i :
  0 <= i <= 4 -> 0 <= acc < 2 ^ (7 * i) -> 0 <= g -> acc + g * 2 ^ (7 * i) < 2 ^ 31 ->
  s32 (Z.lor acc (s32 (Z.shiftl g (7 * i)))) = acc + g * 2 ^ (7 * i).
Proof.
  intros Hi Hacc Hg Hlt.
  assert (0 <= g * 2 ^ (7 * i)) by (apply Z.mul_nonneg_nonneg; [done|apply Z.pow_nonneg; lia]).
  rewrite (s32_small (Z.shiftl _ _)) by (unfold int32_range; rewrite Z.shiftl_mul_pow2; lia).
  rewrite lor_shiftl_add by lia. apply s32_small. unfold int32_range. lia.
Qed.

Lemma seven_bit_loop_groups n : forall i acc uv rest f,
  i = 5 - Z.of_nat n -> 0 <= i -> 0 <= acc < 2 ^ (7 * i) -> 0 <= uv < 2 ^ (31 - 7 * i) ->
  seven_bit_loop n (7 * i) acc (Stream (seven_bit_groups n uv ++ rest) f) =
  (Ok (acc + uv * 2 ^ (7 * i)), Stream rest f).
Proof.
  induction n as [|n IH]; intros i acc uv rest f Hi Hi0 Hacc Huv.
  { replace i with 5 in Huv by lia. simpl in Huv. lia. }
  assert (Hbits : 2 ^ (31 - 7 * i) * 2 ^ (7 * i) = 2 ^ 31)
    by (rewrite <- Z.pow_add_r by lia; f_equal; lia).
  assert (0 < 2 ^ (7 * i)) by (apply Z.pow_pos_nonneg; lia).
  cbn [seven_bit_groups seven_bit_loop]. rewrite shiftr7.
  pose proof (Z.mod_pos_bound uv 128 ltac:(lia)) as Hmod.
  pose proof (Z.div_mod uv 128 ltac:(lia)) as Hdm.
  destruct (Z.eqb_spec (uv / 128) 0) as [Hlast|Hmore].
  - assert (0 <= uv < 128) by lia. rewrite group_last by done.
    unfold mbind, rd_bind, wrap, readByte; cbn [app pending fin map_err].
    destruct (group_mask_last uv) as [-> ->]; [done|]. by rewrite s32_acc_group by nia.
  - rewrite group_more. unfold mbind, rd_bind, wrap, readByte; cbn [app pending fin map_err].
    destruct (group_mask (uv mod 128)) as [-> ->]; [done|]. cbn [Z.eqb].
    destruct (Z.eqb_spec i 4) as [->|Hi4].
    { change (2 ^ (31 - 7 * 4)) with 8 in Huv. rewrite Z.div_small in Hmore by lia. done. }
    rewrite s32_acc_group by nia. replace (7 * i + 7) with (7 * (i + 1)) by lia.
    rewrite IH; [|lia..| | ].
    + f_equal. f_equal. rewrite pow7_succ by lia.
      transitivity (acc + (128 * (uv / 128) + uv mod 128) * 2 ^ (7 * i)); [ring|by rewrite <- Hdm].
    + rewrite pow7_succ by lia. nia.
    + apply div128_bound; [lia|]. by replace (31 - 7 * (i + 1) + 7) with (31 - 7 * i) by lia.
Qed.

Lemma read7_write v w rest f :
  v < 2 ^ 31 -> writeTerrafia7BitEncodedInt v = Ok w ->
  readTerrafia7BitEncodedInt (Stream (w ++ rest) f) = (Ok v, Stream rest f).
Proof.
  unfold writeTerrafia7BitEncodedInt, readTerrafia7BitEncodedInt. intros Hv H.
  destruct (Z.ltb_spec v 0); inv_ok.
  change 0 with (7 * 0) at 1. unfold u32. rewrite Z.mod_small by lia.
  rewrite seven_bit_loop_groups by (simpl; lia). by rewrite Z.mul_1_r.
Qed.

Lemma seven_bit_loop_consumes n shift acc : consumes (seven_bit_loop n shift acc).
Proof.
  revert shift acc. induction n as [|n IH]; intros; cbn [seven_bit_loop]; [auto with gp|].
  apply consumes_bind; [auto with gp|]. intros b. case_match; auto with gp.
Qed.

Lemma tc_readString_write s w rest f :
  Z.of_nat (length s) <= terrariaMaxStringLength -> writeTerrariaString s = Ok w ->
  readTerrariaString (Stream (w ++ rest) f) = (Ok s, Stream rest f).
Proof.
  unfold writeTerrariaString, readTerrariaString, terrariaMaxStringLength. intros Hlen H.
  destruct (Z.ltb_spec 0x7fffffff (Z.of_nat (length s))); [done|].
  rewrite s32_small in H by (unfold int32_range; lia).
  destruct (writeTerrafia7BitEncodedInt (Z.of_nat (length s))) as [n|e] eqn:E; cbn in H; [|done].
  inv_ok. unfold mbind, rd_bind. rewrite <- app_assoc.
  rewrite (read7_write (Z.of_nat (length s)) n) by (done || lia).
  destruct (Z.ltb_spec (Z.of_nat (length s)) 0); [lia|].
  destruct (Z.ltb_spec (32 * 1024) (Z.of_nat (length s))); [lia|]. cbn [pending].
  rewrite length_app, Nat2Z.inj_add.
  destruct (Z.ltb_spec (Z.of_nat (length s) + Z.of_nat (length rest)) (Z.of_nat (length s))); [lia|].
  unfold wrap. by rewrite Nat2Z.id, readFull_app.
Qed.

Lemma tc_writeString_length s w :
  writeTerrariaString s = Ok w ->
  Z.of_nat (length s) + 1 <= Z.of_nat (length w) <= Z.of_nat (length s) + 5.
Proof.
  assert (Hg : forall n uv, (length (seven_bit_groups (S n) uv) <= S n)%nat /\
                            (1 <= length (seven_bit_groups (S n) uv))%nat).
  { induction n as [|n IH]; intros uv; cbn [seven_bit_groups];
      destruct (_ =? 0); cbn [length]; try lia. destruct (IH (Z.shiftr uv 7)). cbn in *; lia. }
  unfold writeTerrariaString, writeTerrafia7BitEncodedInt, mbind, result_bind. intros H.
  destruct (_ <? _); [done|]. destruct (_ <? 0); [done|]. inv_ok. rewrite length_app.
  destruct (Hg 4%nat (u32 (s32 (Z.of_nat (length s))))). lia.
Qed.

Lemma tc_classify_consumed s k r s' :
  classifyTerrariaConnect s = (Ok (k, r), s') ->
  pending s = tcConsumed r ++ pending s' /\ fin s' = fin s /\ k <> Status.
Proof.
  unfold classifyTerrariaConnect, mbind, rd_bind, wrap, of_result. intros H.
  destruct (readFull 3 s) as [[header|e] s1] eqn:E1; cbn [map_err] in H; [|by inv_ok].
  apply readFull_Ok in E1 as (_ & Hp & Hf).
  destruct (_ <? 3); [by inv_ok|]. destruct (_ <? _); [by inv_ok|].
  assert (Hpay : exists payload s2, pending s1 = payload ++ pending s2 /\ fin s2 = fin s1 /\
    ((Ok (Unknown, MkTC [] (header ++ payload)), s2) = (Ok (k, r) : result gerr _, s') \/
     exists v, (Ok (Join, MkTC v (header ++ payload)), s2) = (Ok (k, r) : result gerr _, s'))).
  { destruct (0 <? _).
    - destruct (readFull _ s1) as [[payload|e] s2] eqn:E2; cbn [map_err] in H; [|by inv_ok].
      apply readFull_Ok in E2 as (_ & Hp2 & Hf2). exists payload, s2. do 2 (split; [done|]).
      destruct (negb _); [by left|]. right.
      destruct (parseTerrariaConnectRequest payload) as [tc|e]; cbn [map_err] in H; [|by inv_ok].
      by exists (tcVersion tc).
    - exists [], s1. do 2 (split; [done|]). cbn in H.
      destruct (negb _); [by left|]. by inv_ok. }
  destruct Hpay as (payload & s2 & Hp2 & Hf2 & [Heq|[v Heq]]); inv_ok; cbn;
    (rewrite Hp, Hp2, app_assoc; split; [done|]; split; [congruence|done]).
Qed.

Lemma tc_classify_consumes : consumes Classify.
Proof. unfold Classify, classifyTerrariaConnect. repeat solve_consumes. Qed.

Lemma tc_classify_reads : reads_at_most 65535 Classify.
Proof.
  unfold Classify. apply (reads_bind _ _ 65535 0); [done| |intros []; by apply reads_ret].
  unfold classifyTerrariaConnect.
  apply (reads_bind _ _ 3 65532); [done|apply reads_wrap, (reads_readFull 3)|]. intros header.
  destruct (_ <? 3); [by apply reads_fail|].
  destruct (Z.ltb_spec terrariaMaxPacketSize (le_u16 header)) as [|Hle]; [by apply reads_fail|].
  unfold terrariaMaxPacketSize in Hle. apply (reads_bind _ _ 65532 0); [done| |].
  - destruct (0 <? _); [|by apply reads_ret]. apply reads_wrap.
    eapply reads_le; [apply reads_readFull|]. lia.
  - intros payload. case_match; [by apply reads_ret|].
    apply (reads_bind _ _ 0 0); [done|by apply of_result_reads|]. intros. by apply reads_ret.
Qed.

End TerrariaFacts.

(** ** The interface is implemented *)

Lemma minecraft_Classify_inv s r s' :
  Minecraft.Classify s = (Ok r, s') ->
  exists k m, Minecraft.classifyMinecraftHandshake s = (Ok (k, m), s') /\
    r = MkResult k (Minecraft.mcConsumed m)
          (if decide (k = Join \/ k = Status)
           then Some (MinecraftDetail (Minecraft.mcProtocolVersion m) (Minecraft.mcNextState m)
                        (Minecraft.mcServerAddr m)) else None).
Proof.
  unfold Minecraft.Classify, mbind, rd_bind. intros H.
  destruct (Minecraft.classifyMinecraftHandshake s) as [[[k m]|e] s1]; [|by inv_ok].
  unfold mret, rd_ret in H. inv_ok. eauto.
Qed.

Lemma terraria_Classify_inv s r s' :
  Terraria.Classify s = (Ok r, s') ->
  exists k m, Terraria.classifyTerrariaConnect s = (Ok (k, m), s') /\
    r = MkResult k (Terraria.tcConsumed m)
          (if decide (k = Join) then Some (TerrariaDetail (Terraria.tcVersion m)) else None).
Proof.
  unfold Terraria.Classify, mbind, rd_bind. intros H.
  destruct (Terraria.classifyTerrariaConnect s) as [[[k m]|e] s1]; [|by inv_ok].
  unfold mret, rd_ret in H. inv_ok. eauto.
Qed.

#[export] Instance minecraft_laws : ClassifierLaws Minecraft.MinecraftClassifier.
Proof.
  split; cbn [Classify SupportsStatusPing BuildStatusResponse Minecraft.MinecraftClassifier].
  - intros s r s' H. apply minecraft_Classify_inv in H as (k & m & H & ->).
    by apply MinecraftFacts.mc_classify_consumed in H as (? & ? & _).
  - apply MinecraftFacts.mc_classify_consumes.
  - eapply reads_le; [apply MinecraftFacts.mc_classify_reads|done].
  - intros s r s' H. apply minecraft_Classify_inv in H as (k & m & H & ->). cbn.
    by destruct k.
  - done.
  - done.
Qed.

#[export] Instance terraria_laws : ClassifierLaws Terraria.TerrariaClassifier.
Proof.
  split; cbn [Classify SupportsStatusPing BuildStatusResponse Terraria.TerrariaClassifier].
  - intros s r s' H. apply terraria_Classify_inv in H as (k & m & H & ->).
    by apply TerrariaFacts.tc_classify_consumed in H as (? & ? & _).
  - apply TerrariaFacts.tc_classify_consumes.
  - apply TerrariaFacts.tc_classify_reads.
  - intros s r s' H. apply terraria_Classify_inv in H as (k & m & H & ->).
    apply TerrariaFacts.tc_classify_consumed in H as (_ & _ & Hk). cbn in *. by destruct k.
  - intros s r s' H. apply terraria_Classify_inv in H as (k & m & H & ->).
    apply TerrariaFacts.tc_classify_consumed in H as (_ & _ & Hk). done.
  - done.
Qed.

#[export] Instance demo_laws : ClassifierLaws DemoClassifier.
Proof.
  split; cbn [Classify SupportsStatusPing BuildStatusResponse DemoClassifier];
    unfold mret, rd_ret; intros; inv_ok; try done.
  - intros s. by exists [].
  - intros s. cbn. lia.
Qed.

Lemma Lookup_laws name c : Lookup name = Some c -> ClassifierLaws c.
Proof.
  unfold Lookup, classifierRegistry. cbn [List.find fst].
  repeat (destruct (String.eqb _ _); [intros [= <-]; apply _|]). done.
Qed.

(** ** Properties *)

(** C9. Replay contract: whatever registered protocol classifies a connection,
    the bytes it reports as consumed followed by the bytes still in the reader
    are exactly the original stream; the detail is nil exactly for Unknown, and
    a Status result only comes from a protocol that can answer a status ping. *)
Theorem registry_replay name c s r s' :
  Lookup name = Some c -> Classify c s = (Ok r, s') ->
  pending s = Consumed r ++ pending s' /\ fin s' = fin s /\
  (detail r = None <-> kind r = Unknown) /\
  (kind r = Status -> SupportsStatusPing c = true).
Proof.
  intros Hc H. pose proof (Lookup_laws _ _ Hc). pose proof (law_replay s r s' H) as [??].
  split; [done|]. split; [done|]. split; [by eapply law_detail|by eapply law_status].
Qed.

(** Bounded reads: a registered classifier takes at most 65535 bytes off any
    connection (517 for Minecraft), also when it fails, and never disturbs the
    bytes behind those it took. *)
Lemma registry_bounded_reads name c s :
  Lookup name = Some c ->
  let s' := (Classify c s).2 in
  (exists pre, pending s = pre ++ pending s' /\ Z.of_nat (length pre) <= 65535) /\
  (name = "minecraft"%string ->
   Z.of_nat (length (pending s)) <= 517 + Z.of_nat (length (pending s'))).
Proof.
  intros Hc s'. pose proof (Lookup_laws _ _ Hc). split.
  - destruct (law_frame s) as (pre & Hp & _). exists pre. split; [done|].
    pose proof (law_bound s) as Hb. unfold s'. rewrite Hp, length_app in Hb at 1. lia.
  - intros ->. cbn in Hc. inv_ok. apply MinecraftFacts.mc_classify_reads.
Qed.

(** VarInt round trip: every int32 is written in at most five bytes and read
    back, captured byte for byte, with nothing taken from what follows. *)
Lemma minecraft_varint_roundtrip v rest f :
  int32_range v ->
  Minecraft.readMinecraftVarIntWithCapture
    (Stream (Minecraft.writeMinecraftVarInt v ++ rest) f) =
  (Ok (v, Minecraft.writeMinecraftVarInt v), Stream rest f) /\
  (length (Minecraft.writeMinecraftVarInt v) <= 5)%nat.
Proof.
  intros Hv. split; [by apply MinecraftFacts.readVarIntWithCapture_write|].
  apply MinecraftFacts.varint_length.
Qed.

(** Handshakes: a Minecraft handshake within the size limit is classified by
    its next state (1 Status, 2 Join, anything else Unknown), with its version,
    state and host:port as detail, and pipelined bytes stay in the reader. *)
Lemma minecraft_handshake_classified pv ns port addr rest f :
  int32_range pv -> int32_range ns -> 0 <= port < 65536 -> Z.of_nat (length addr) <= 32767 ->
  Z.of_nat (length (MinecraftFacts.handshakeBody pv ns port addr)) <= 512 ->
  let packet := Minecraft.frameMinecraftPacket (MinecraftFacts.handshakeBody pv ns port addr) in
  Classify Minecraft.MinecraftClassifier (Stream (packet ++ rest) f) =
  (Ok (MkResult (if ns =? 1 then Status else if ns =? 2 then Join else Unknown) packet
         (if (ns =? 1) || (ns =? 2)
          then Some (MinecraftDetail pv ns (addr ++ bytes_of ":" ++ bytes_of (Itoa port)))
          else None)), Stream rest f).
Proof.
  intros Hpv Hns Hport Haddr Hmax packet.
  cbn [Classify Minecraft.MinecraftClassifier]. unfold Minecraft.Classify, mbind, rd_bind, packet.
  rewrite MinecraftFacts.classify_body by done. unfold MinecraftFacts.kind_of_state.
  by destruct (ns =? 1); [|destruct (ns =? 2)].
Qed.

(** Disconnect messages are injection-proof: for every reason, also invalid
    UTF-8, the chat component built around it is valid JSON, and when it fits
    the client reads back packet id 0 and exactly that component. *)
Lemma minecraft_disconnect_sound reason w f :
  Forall is_byte reason ->
  BuildDisconnect Minecraft.MinecraftClassifier reason = Ok w ->
  json_valid (Minecraft.chatJSON reason) = true /\
  exists inner,
    MinecraftFacts.readFrame (Stream w f) = (Ok inner, Stream [] f) /\
    (i ← Minecraft.readMinecraftVarInt; s ← Minecraft.readMinecraftString; mret (i, s))
      (bytes_reader inner) = (Ok (0, Minecraft.chatJSON reason), bytes_reader []).
Proof.
  intros Hr H. split.
  { unfold json_valid, Minecraft.chatJSON. rewrite jrun_app.
    change (jrun (Scanner BeginValue []) Minecraft.chat_open)
      with (Some (Scanner InString [ObjectValue])).
    cbv iota. by rewrite jrun_app, MinecraftFacts.jrun_escape. }
  cbn [BuildDisconnect Minecraft.MinecraftClassifier] in H.
  unfold Minecraft.buildMinecraftLoginDisconnect, mbind, result_bind in H.
  destruct (Minecraft.writeMinecraftString (Minecraft.chatJSON reason)) as [str|e] eqn:E;
    cbn [map_err] in H; [|done]. inv_ok.
  eexists. split.
  - rewrite <- (app_nil_r (Minecraft.frameMinecraftPacket _)).
    apply MinecraftFacts.readFrame_frame. rewrite length_app. eapply MinecraftFacts.mc_writeString_length in E.
    pose proof (MinecraftFacts.varint_length 0). lia.
  - unfold mbind, rd_bind, bytes_reader. rewrite MinecraftFacts.readVarInt_write by by vm_compute.
    rewrite <- (app_nil_r str). by rewrite (MinecraftFacts.mc_readString_write _ _ _ _ E).
Qed.

(** Status responses: a payload is framed exactly when it is valid JSON of at
    most 32767 bytes, and the client then reads back packet id 0 and the payload
    itself. *)
Lemma minecraft_status_response payload f :
  match BuildStatusResponse Minecraft.MinecraftClassifier payload with
  | Ok w =>
      json_valid payload = true /\ Z.of_nat (length payload) <= 32767 /\
      exists inner,
        MinecraftFacts.readFrame (Stream w f) = (Ok inner, Stream [] f) /\
        (i ← Minecraft.readMinecraftVarInt; s ← Minecraft.readMinecraftString; mret (i, s))
          (bytes_reader inner) = (Ok (0, payload), bytes_reader [])
  | Err _ => json_valid payload = false \/ 32767 < Z.of_nat (length payload)
  end.
Proof.
  cbn [BuildStatusResponse Minecraft.MinecraftClassifier].
  unfold Minecraft.buildMinecraftStatusResponse.
  destruct (json_valid payload) eqn:Hj; cbn [negb]; [|by left].
  unfold mbind, result_bind.
  destruct (Minecraft.writeMinecraftString payload) as [str|e] eqn:E; cbn [map_err].
  - split; [done|]. split.
    { unfold Minecraft.writeMinecraftString in E. by zbool; inv_ok. }
    eexists. split.
    + rewrite <- (app_nil_r (Minecraft.frameMinecraftPacket _)).
      apply MinecraftFacts.readFrame_frame. rewrite length_app.
      pose proof (MinecraftFacts.mc_writeString_length _ _ E).
      pose proof (MinecraftFacts.varint_length 0). lia.
    + unfold rd_bind, bytes_reader. rewrite MinecraftFacts.readVarInt_write by by vm_compute.
      rewrite <- (app_nil_r str). by rewrite (MinecraftFacts.mc_readString_write _ _ _ _ E).
  - right. unfold Minecraft.writeMinecraftString in E. by zbool; inv_ok.
Qed.

(** Terraria disconnects: building only fails for reasons longer than 65526
    bytes; otherwise the length field is the message's real length and within one
    frame, the type is 2, the text is in literal mode and, up to the reader's own
    cap, decodes to the reason. *)
Lemma terraria_disconnect_sound reason f :
  match BuildDisconnect Terraria.TerrariaClassifier reason with
  | Ok w =>
      le_u16 w = Z.of_nat (length w) /\ Z.of_nat (length w) <= 65535 /\
      nthb w 2 = 2 /\ nthb w 3 = 0 /\
      (Z.of_nat (length reason) <= 32768 ->
       Terraria.readTerrariaString (Stream (drop 4 w) f) = (Ok reason, Stream [] f))
  | Err _ => 65535 < Z.of_nat (length reason) + 9
  end.
Proof.
  cbn [BuildDisconnect Terraria.TerrariaClassifier].
  unfold Terraria.buildTerrariaDisconnect, Terraria.writeTerrariaNetworkText, mbind, result_bind.
  destruct (Terraria.writeTerrariaString reason) as [str|e] eqn:E; cbn [map_err].
  - pose proof (TerrariaFacts.tc_writeString_length _ _ E) as Hlen. cbn [length].
    unfold Terraria.terrariaMaxPacketSize, Terraria.terrariaDisconnect.
    destruct (Z.ltb_spec 65535 (Z.of_nat (S (S (length str))) + 2)); [lia|].
    unfold u16. rewrite Z.mod_small by lia.
    rewrite le_u16_le16 by lia. rewrite length_app, length_le16. cbn [length].
    split; [lia|]. split; [lia|]. do 2 (split; [done|]). intros Hr. cbn [le16 app drop].
    rewrite <- (app_nil_r str). by apply TerrariaFacts.tc_readString_write.
  - unfold Terraria.writeTerrariaString in E.
    destruct (Z.ltb_spec 0x7fffffff (Z.of_nat (length reason))); [lia|].
    rewrite s32_small in E by (unfold int32_range; lia).
    unfold Terraria.writeTerrafia7BitEncodedInt, mbind, result_bind in E.
    destruct (Z.ltb_spec (Z.of_nat (length reason)) 0); [lia|done].
Qed.

(** Terraria joins: a ConnectRequest frame is classified as a Join carrying its
    version string, consuming exactly the frame. *)
Lemma terraria_connect_classified version str rest f :
  Z.of_nat (length version) <= 32768 ->
  Terraria.writeTerrariaString version = Ok str ->
  let packet := le16 (Z.of_nat (length str) + 3) ++ 1 :: str in
  Classify Terraria.TerrariaClassifier (Stream (packet ++ rest) f) =
  (Ok (MkResult Join packet (Some (TerrariaDetail version))), Stream rest f).
Proof.
  intros Hv E packet. pose proof (TerrariaFacts.tc_writeString_length _ _ E) as Hlen.
  cbn [Classify Terraria.TerrariaClassifier].
  unfold Terraria.Classify, Terraria.classifyTerrariaConnect, mbind, rd_bind, wrap.
  set (n := Z.of_nat (length str) + 3) in *.
  replace (packet ++ rest) with ((le16 n ++ [1]) ++ str ++ rest)
    by (unfold packet; by rewrite <- !app_assoc).
  rewrite readFull_app by done. cbn [map_err].
  rewrite le_u16_le16 by lia. unfold Terraria.terrariaMaxPacketSize.
  destruct (Z.ltb_spec n 3); [lia|]. destruct (Z.ltb_spec 65535 n); [lia|].
  destruct (Z.ltb_spec 0 (n - 3)); [|lia].
  rewrite readFull_app by lia. cbn [map_err nthb nth le16 app Z.eqb negb Terraria.terrariaConnectRequest].
  change (negb (1 =? Terraria.terrariaConnectRequest)) with false. cbv iota.
  unfold of_result, Terraria.parseTerrariaConnectRequest.
  destruct str as [|b str]; [simpl in *; lia|].
  rewrite <- (app_nil_r (b :: str)). unfold bytes_reader.
  rewrite (TerrariaFacts.tc_readString_write version) by done.
  cbn. rewrite app_nil_r. done.
Qed.

(** ** Witnesses *)

(** A login handshake for mc.example:25565, followed by two pipelined bytes. *)
Definition sample_handshake : list Z :=
  Minecraft.frameMinecraftPacket (MinecraftFacts.handshakeBody 765 2 25565 (bytes_of "mc.example")).
Definition sample_result : ClassificationResult :=
  MkResult Join sample_handshake
    (Some (MinecraftDetail 765 2 (bytes_of "mc.example:25565"))).

Lemma registry_replay_witness :
  Lookup "minecraft" = Some Minecraft.MinecraftClassifier /\
  pending (Stream (sample_handshake ++ [7; 7]) EOF) =
    Consumed sample_result ++ pending (Stream [7; 7] EOF) /\
  kind sample_result = Join.
Proof.
  split; [reflexivity|]. split; [|reflexivity].
  refine (proj1 (registry_replay "minecraft" Minecraft.MinecraftClassifier
           (Stream (sample_handshake ++ [7; 7]) EOF) sample_result (Stream [7; 7] EOF) _ _));
    [reflexivity | vm_compute; reflexivity].
Defined.

Lemma registry_bounded_reads_witness :
  Z.of_nat (length (pending (Stream (sample_handshake ++ [7; 7]) EOF))) <=
  517 + Z.of_nat (length (pending (Classify Minecraft.MinecraftClassifier
          (Stream (sample_handshake ++ [7; 7]) EOF)).2)).
Proof.
  refine (proj2 (registry_bounded_reads "minecraft" Minecraft.MinecraftClassifier
           (Stream (sample_handshake ++ [7; 7]) EOF) _) _); reflexivity.
Defined.

Lemma minecraft_varint_roundtrip_witness :
  Minecraft.readMinecraftVarIntWithCapture
    (Stream (Minecraft.writeMinecraftVarInt (-1) ++ [9]) EOF) =
  (Ok (-1, Minecraft.writeMinecraftVarInt (-1)), Stream [9] EOF).
Proof.
  refine (proj1 (minecraft_varint_roundtrip (-1) [9] EOF _)). unfold int32_range. lia.
Defined.

Lemma minecraft_handshake_classified_witness :
  Classify Minecraft.MinecraftClassifier (Stream (sample_handshake ++ [7; 7]) EOF) =
  (Ok (MkResult Join sample_handshake
         (Some (MinecraftDetail 765 2
            (bytes_of "mc.example" ++ bytes_of ":" ++ bytes_of (Itoa 25565))))), Stream [7; 7] EOF).
Proof.
  refine (minecraft_handshake_classified 765 2 25565 (bytes_of "mc.example") [7; 7] EOF _ _ _ _ _);
    unfold int32_range; try lia; vm_compute; discriminate.
Defined.

Lemma minecraft_disconnect_sound_witness :
  json_valid (Minecraft.chatJSON [34; 10; 255; 92]) = true.
Proof.
  refine (proj1 (minecraft_disconnect_sound [34; 10; 255; 92]
    (match BuildDisconnect Minecraft.MinecraftClassifier [34; 10; 255; 92] with
     | Ok w => w | Err _ => [] end) EOF _ _)).
  - repeat constructor; lia.
  - vm_compute. reflexivity.
Defined.

Definition sample_connect : list Z :=
  le16 (Z.of_nat (length (11 :: bytes_of "Terraria279")) + 3) ++ 1 :: 11 :: bytes_of "Terraria279".

Lemma terraria_connect_classified_witness :
  Classify Terraria.TerrariaClassifier (Stream (sample_connect ++ [5]) EOF) =
  (Ok (MkResult Join sample_connect
         (Some (TerrariaDetail (bytes_of "Terraria279")))), Stream [5] EOF).
Proof.
  refine (terraria_connect_classified (bytes_of "Terraria279") (11 :: bytes_of "Terraria279") [5] EOF _ _);
    vm_compute; discriminate || reflexivity.
Defined.
