(* ===== verification/Sentinel.v ===== *)
(** * sentinel: wake-on-connect

    The daemon that stands in for a sleeping game server (src/sentinel/main.go):
    the port configuration, the coalescing waker, the UDP packet heuristic, the
    connection handlers and the accept loop with its session group.  Handlers
    are functions from the connection's stream and the outcomes of the calls
    they make (the wake patch, the dials, the writes) to the list of their
    effects, in order. *)

From S2P Require Import Prelude GoIO GoText GoTime Gameproto.
From Stdlib Require Import Ascii.
Local Open Scope Z_scope.

(** ** Port configuration *)
Section Ports.
(** The Unicode case tables above ASCII. *)
Context (uni_lower uni_upper : Z -> Z).

(** [PortConfig] *)
Record PortConfig := MkPort {
  ContainerPort : Z;
  Protocol : string;
  WakeProtocol : string
}.

Inductive ports_err :=
| InvalidPortConfig (part : string)
| InvalidPortNumber (part : string)
| InvalidProtocol (part field : string)
| UnknownWakeProtocol (field part : string).

(** One round of the loop of [parsePortsConfig] on a trimmed, non-empty part. *)
Definition parsePort (part : string) : result ports_err PortConfig :=
  match split_on ":"%char part with
  | [f0; f1; f2] =>
      match ParseInt64 (TrimSpace f0) with
      | None => Err (InvalidPortNumber part)
      | Some port =>
          let protocol := TrimSpace (ToUpper uni_upper f1) in
          if negb (String.eqb protocol "TCP") && negb (String.eqb protocol "UDP")
          then Err (InvalidProtocol part f1)
          else
            let wakeProto := TrimSpace (ToLower uni_lower f2) in
            if negb (String.eqb wakeProto "generic") && negb (String.eqb wakeProto "none")
            then match Lookup wakeProto with
                 | None => Err (UnknownWakeProtocol f2 part)
                 | Some _ => Ok (MkPort port protocol wakeProto)
                 end
            else Ok (MkPort port protocol wakeProto)
      end
  | _ => Err (InvalidPortConfig part)
  end.

Fixpoint parseParts (parts : list string) : result ports_err (list PortConfig) :=
  match parts with
  | [] => Ok []
  | part :: rest =>
      let part := TrimSpace part in
      if String.eqb part "" then parseParts rest
      else
        p ← parsePort part;
        ps ← parseParts rest;
        Ok (p :: ps)
  end.

(** [parsePortsConfig] *)
Definition parsePortsConfig (config : string) : result ports_err (list PortConfig) :=
  let config := trim_byte ","%char config in
  if String.eqb config "" then Ok [] else parseParts (split_on ","%char config).

End Ports.

(** [wantsListener] *)
Definition wantsListener (p : PortConfig) : bool := negb (String.eqb (WakeProtocol p) "none").

(** [gameDirectAddr] *)
Definition gameDirectAddr (name namespace upstreamAddrOverride : string) (port : PortConfig) : string :=
  if negb (String.eqb upstreamAddrOverride "") then upstreamAddrOverride
  else name +:+ "-game-direct." +:+ namespace +:+ ".svc.cluster.local:" +:+ Itoa (ContainerPort port).

(** ** The waker *)

(** [waker]: the lock-protected fields. *)
Record waker := MkWaker {
  minInterval : duration;
  inFlight : bool;
  lastPatch : time
}.

(** [newWaker] *)
Definition newWaker (minInterval : duration) : waker := MkWaker minInterval false zero_time.

(** The first critical section of [RequestWake], at clock reading [now]: whether
    this call goes on to patch. *)
Definition requestWakeBegin (now : time) (w : waker) : bool * waker :=
  if inFlight w || (negb (IsZero (lastPatch w)) && (Sub now (lastPatch w) <? minInterval w))
  then (false, w)
  else (true, MkWaker (minInterval w) true (lastPatch w)).

(** The deferred critical section, at clock reading [now]; it runs whether or not
    the patch succeeded. *)
Definition requestWakeEnd (now : time) (w : waker) : waker :=
  MkWaker (minInterval w) false now.

(** [RequestWake] by one goroutine alone: the patch issued (if any), the error and
    the waker afterwards.  [patch_ok] is the outcome of the API call, [token] the
    value [wakeToken] returned. *)
Definition RequestWake (now now' : time) (token : string) (patch_ok : bool) (w : waker)
  : option string * bool * waker :=
  match requestWakeBegin now w with
  | (false, w1) => (None, true, w1)
  | (true, w1) => (Some token, patch_ok, requestWakeEnd now' w1)
  end.

(** Concurrent callers: each call is its two critical sections, with the patch
    between them; [wpatching] counts the callers between the two, and the clock
    never goes back. *)
Record wstate := MkW { wk : waker; wpatching : nat; wclock : time }.

Inductive wevent := Skipped (t : time) | PatchStart (t : time) | PatchEnd (t : time).

Inductive wstep : wstate -> wevent -> wstate -> Prop :=
| wstep_skip w n c now w' :
    c <= now -> requestWakeBegin now w = (false, w') ->
    wstep (MkW w n c) (Skipped now) (MkW w' n now)
| wstep_start w n c now w' :
    c <= now -> requestWakeBegin now w = (true, w') ->
    wstep (MkW w n c) (PatchStart now) (MkW w' (S n) now)
| wstep_end w n c now :
    c <= now ->
    wstep (MkW w (S n) c) (PatchEnd now) (MkW (requestWakeEnd now w) n now).

(** Histories, newest event first. *)
Inductive wrun (w0 : wstate) : list wevent -> wstate -> Prop :=
| wrun_nil : wrun w0 [] w0
| wrun_cons h w e w' : wrun w0 h w -> wstep w e w' -> wrun w0 (e :: h) w'.

(** ** The UDP heuristic *)

(** [udpSourceState] *)
Record udpSourceState := MkSrc {
  packets : list time;
  lastSeen : time;
  wokenAt : time
}.

(** [udpHeuristic] *)
Record udpHeuristic := MkUDP {
  threshold : Z;
  window : duration;
  maxSources : Z;
  sources : gmap string udpSourceState
}.

(** [newUDPHeuristic] *)
Definition newUDPHeuristic (threshold : Z) (window : duration) (maxSources : Z) : udpHeuristic :=
  MkUDP threshold window maxSources ∅.

Definition set_sources (h : udpHeuristic) (m : gmap string udpSourceState) : udpHeuristic :=
  MkUDP (threshold h) (window h) (maxSources h) m.

Section UDP.
(** The order in which a [range] over the map visits it, which Go leaves open. *)
Context (iter : gmap string udpSourceState -> list (string * udpSourceState)).

(** The loop of [evictOldestLocked]: the key and time of the oldest source so
    far. *)
Definition oldest_step (acc : string * time) (kv : string * udpSourceState) : string * time :=
  if String.eqb acc.1 "" || Before (lastSeen kv.2) acc.2 then (kv.1, lastSeen kv.2) else acc.

(** [evictOldestLocked] *)
Definition evictOldestLocked (m : gmap string udpSourceState) : gmap string udpSourceState :=
  let oldestKey := (foldl oldest_step (EmptyString, zero_time) (iter m)).1 in
  if String.eqb oldestKey "" then m else delete oldestKey m.

(** The counting part of [shouldWake], on the source's own state. *)
Definition countPacket (threshold : Z) (window : duration) (now : time) (st : udpSourceState)
  : bool * udpSourceState :=
  let st := MkSrc (packets st) now (wokenAt st) in
  if negb (IsZero (wokenAt st)) && (Sub now (wokenAt st) <? window) then (false, st)
  else
    let filtered := List.filter (fun t => Sub now t <? window) (packets st) ++ [now] in
    if Z.of_nat (length filtered) <? threshold
    then (false, MkSrc filtered now (wokenAt st))
    else (true, MkSrc [] now now).

(** [shouldWake] *)
Definition shouldWake (h : udpHeuristic) (key : string) (now : time) : bool * udpHeuristic :=
  let '(st, m) :=
    match sources h !! key with
    | Some st => (st, sources h)
    | None =>
        (MkSrc [] zero_time zero_time,
         if maxSources h <=? Z.of_nat (size (sources h))
         then evictOldestLocked (sources h) else sources h)
    end in
  let '(r, st') := countPacket (threshold h) (window h) now st in
  (r, set_sources h (<[key := st']> m)).

End UDP.

(** [sweepOnce] *)
Definition sweepOnce (h : udpHeuristic) (now : time) : udpHeuristic :=
  set_sources h (filter (fun kv => ~ (s64 (window h * 2) < Sub now (lastSeen kv.2))) (sources h)).

(** A port's run: packets and sweeper ticks in any order.  The log holds every
    packet with the decision taken, newest first. *)
Inductive uop := UPacket (key : string) (now : time) | USweep (now : time).

Definition uapply (iter : gmap string udpSourceState -> list (string * udpSourceState))
  (st : udpHeuristic * list (string * time * bool)) (op : uop)
  : udpHeuristic * list (string * time * bool) :=
  match op with
  | UPacket key now => let '(r, h') := shouldWake iter st.1 key now in (h', (key, now, r) :: st.2)
  | USweep now => (sweepOnce st.1 now, st.2)
  end.

Definition urun iter (h : udpHeuristic) (ops : list uop) : udpHeuristic * list (string * time * bool) :=
  foldl (uapply iter) (h, []) ops.

(** ** Connection handlers *)

Definition wakingUpMessage : list Z :=
  bytes_of "Server is waking up, try again in a moment.".

(** A JSON string literal, quotes included. *)
Definition quoted (s : string) : list Z := 34 :: bytes_of s ++ [34].

(** [minecraftAsleepStatusJSON]; the three bytes in the middle are the dash of
    its text in UTF-8. *)
Definition minecraftAsleepStatusJSON : list Z :=
  bytes_of "{" ++ quoted "version" ++ bytes_of ":{" ++ quoted "name" ++ bytes_of ":" ++
  quoted "Asleep" ++ bytes_of "," ++ quoted "protocol" ++ bytes_of ":0}," ++
  quoted "players" ++ bytes_of ":{" ++ quoted "max" ++ bytes_of ":0," ++
  quoted "online" ++ bytes_of ":0," ++ quoted "sample" ++ bytes_of ":[]}," ++
  quoted "description" ++ bytes_of ":{" ++ quoted "text" ++ bytes_of ":" ++
  (34 :: bytes_of "Asleep " ++ [226; 128; 148] ++ bytes_of " joining wakes it" ++ [34]) ++
  bytes_of "}}".

(** Effects of a handler on the connection, the waker and the game pod. *)
Inductive action :=
| AWake
| ADial (ok : bool)
| AWriteClient (b : list Z)
| AWriteUpstream (b : list Z)
| AProxy (client_rest : list Z)
| AClose.

(** The rounds of [waitForUpstream]: the dial's outcome and, after a failed one,
    whether the deadline fires before the poll interval does.  Running out of
    rounds is the deadline. *)
Fixpoint waitForUpstream (rounds : list (bool * bool)) : bool * list action :=
  match rounds with
  | [] => (false, [])
  | (ok, expired) :: rest =>
      if ok then (true, [ADial true])
      else if expired then (false, [ADial false])
      else let '(r, acts) := waitForUpstream rest in (r, ADial false :: acts)
  end.

(** [joinParams]: the bytes to replay and the bounce message, if any. *)
Record joinParams := MkJoin {
  jconsumed : list Z;
  jbounce : option (result gerr (list Z))
}.

(** [handleJoin]: [replay_ok] is the outcome of writing the consumed bytes. A wake
    error is only logged. *)
Definition handleJoin (rounds : list (bool * bool)) (replay_ok : bool) (br : stream) (p : joinParams)
  : list action :=
  let '(up, dials) := waitForUpstream rounds in
  AWake :: dials ++
  (if negb up then
     match jbounce p with
     | Some (Ok msg) => [AWriteClient msg]
     | _ => []
     end
   else
     match jconsumed p with
     | [] => [AProxy (pending br)]
     | _ =>
         AWriteUpstream (jconsumed p) ::
         (if replay_ok then [AProxy (pending br)] else [])
     end).

(** [handleRegistryProtocol] *)
Definition handleRegistryProtocol (protocol : string) (rounds : list (bool * bool))
  (replay_ok : bool) (conn : stream) : list action :=
  match Lookup protocol with
  | None => []
  | Some classifier =>
      match Classify classifier conn with
      | (Err _, _) => []
      | (Ok result, br) =>
          match kind result with
          | Status =>
              if SupportsStatusPing classifier then
                match BuildStatusResponse classifier minecraftAsleepStatusJSON with
                | Ok reply => [AWriteClient reply]
                | Err _ => []
                end
              else []
          | Join =>
              handleJoin rounds replay_ok br
                (MkJoin (Consumed result) (Some (BuildDisconnect classifier wakingUpMessage)))
          | Unknown => []
          end
      end
  end.

(** [handleGeneric] *)
Definition handleGeneric (rounds : list (bool * bool)) (conn : stream) : list action :=
  handleJoin rounds true conn (MkJoin [] None).

(** [handleTCPConnection]: dispatch, then the deferred close. *)
Definition handleTCPConnection (port : PortConfig) (rounds : list (bool * bool))
  (replay_ok : bool) (conn : stream) : list action :=
  (if String.eqb (WakeProtocol port) "generic" then handleGeneric rounds conn
   else handleRegistryProtocol (WakeProtocol port) rounds replay_ok conn) ++ [AClose].

(** ** Accept loops and sessions *)

(** [run]'s shared counters: [loops] accept loops waiting in [Accept] or for a
    slot, [acquired] loops between taking a slot and [sessions.start],
    [running] handlers, [leaving] goroutines that gave their slot back (the
    inner [defer]) but have not yet decremented [active]; [sem] is the number
    of tokens in the channel. *)
Record sstate := MkS {
  loops : nat; acquired : nat; running : nat; leaving : nat;
  sem : nat; active : Z
}.

Inductive sstep (maxConnections : nat) : sstate -> sstate -> Prop :=
| s_acquire l a r v m n : (m < maxConnections)%nat ->
    sstep maxConnections (MkS (S l) a r v m n) (MkS l (S a) r v (S m) n)
| s_start l a r v m n :
    sstep maxConnections (MkS l (S a) r v m n) (MkS (S l) a (S r) v m (n + 1))
| s_return l a r v m n :
    sstep maxConnections (MkS l a (S r) v (S m) n) (MkS l a r (S v) m n)
| s_leave l a r v m n :
    sstep maxConnections (MkS l a r (S v) m n) (MkS l a r v m (n - 1))
| s_exit l a r v m n :
    sstep maxConnections (MkS (S l) a r v m n) (MkS l a r v m n).

Definition sinit (listeners : nat) : sstate := MkS listeners 0 0 0 0 0.

(** [listeners.Wait()] has returned. *)
Definition listeners_done (s : sstate) : Prop := loops s = 0%nat /\ acquired s = 0%nat.
(** [g.wg.Wait()] returns: no goroutine of the group is left. *)
Definition sessions_done (s : sstate) : Prop := running s = 0%nat /\ leaving s = 0%nat.
