(* ===== verification/SentinelFacts.v ===== *)
(** * Properties of the sentinel

    Configuration: what [parsePortsConfig] accepts.  Waker: patches never overlap
    and are spaced by [minInterval], for any interleaving of callers.  UDP: the
    tracking map never outgrows [maxSources], and a wake is backed by
    [threshold] packets of that source inside the window.  Handlers: only a join
    wakes; a join whose upstream comes up is forwarded byte for byte; the proofs
    use the classifiers only through [ClassifierLaws].  Sessions: the semaphore
    bounds the running handlers. *)

From S2P Require Import Prelude GoIO GoText GoTime Gameproto GameprotoFacts Sentinel.
Local Open Scope Z_scope.

(** ** Configuration *)

Definition port_ok (p : PortConfig) : Prop :=
  (Protocol p = "TCP" \/ Protocol p = "UDP") /\
  (WakeProtocol p = "generic" \/ WakeProtocol p = "none" \/ is_Some (Lookup (WakeProtocol p))) /\
  - 2 ^ 63 <= ContainerPort p < 2 ^ 63.

Lemma parsePort_ok ul uu part p : parsePort ul uu part = Ok p -> port_ok p.
Proof.
  unfold parsePort, port_ok. intros H.
  destruct (split_on _ part) as [|f0 [|f1 [|f2 [|]]]]; try done.
  destruct (ParseInt64 (TrimSpace f0)) as [port|] eqn:Eport; [|done].
  apply ParseInt64_range in Eport.
  destruct (String.eqb_spec (TrimSpace (ToUpper uu f1)) "TCP") as [E1|];
    [|destruct (String.eqb_spec (TrimSpace (ToUpper uu f1)) "UDP") as [E1|]; [|done]];
    simpl in H;
    (destruct (String.eqb_spec (TrimSpace (ToLower ul f2)) "generic");
      [|destruct (String.eqb_spec (TrimSpace (ToLower ul f2)) "none");
        [|destruct (Lookup (TrimSpace (ToLower ul f2))) eqn:E; [|done]]];
     simpl in H; inv_ok; simpl; eauto 8).
Qed.

Lemma parseParts_ok ul uu parts ps : parseParts ul uu parts = Ok ps -> Forall port_ok ps.
Proof.
  revert ps. induction parts as [|part parts IH]; intros ps H; cbn in H.
  - inv_ok. constructor.
  - destruct (String.eqb (TrimSpace part) ""); [auto|].
    destruct (parsePort ul uu (TrimSpace part)) as [p|e] eqn:Ep; [|done].
    unfold mbind, result_bind in H.
    destruct (parseParts ul uu parts) as [ps'|e] eqn:Eps; [|done].
    inv_ok. constructor; [by eapply parsePort_ok|auto].
Qed.

(** ** The waker *)

Section WakerFacts.
#[local] Set Default Proof Using "Type*".
Context (mi c0 : Z) (Hmi : mi <= maxDuration) (Hc0 : 0 < c0).

(** What holds between the history and the waker's fields. *)
Record winv (h : list wevent) (s : wstate) : Prop := {
  winv_mi : minInterval (wk s) = mi;
  winv_count : wpatching s = if inFlight (wk s) then 1%nat else 0%nat;
  winv_clock : c0 <= wclock s;
  winv_past u : PatchStart u ∈ h -> c0 <= u <= wclock s;
  winv_last : lastPatch (wk s) <= wclock s;
  winv_ended mid u post : h = mid ++ PatchStart u :: post ->
    inFlight (wk s) = true \/
    exists v, PatchEnd v ∈ mid /\ u <= v <= lastPatch (wk s)
}.

Definition spaced (h : list wevent) : Prop := forall pre t mid u post,
  h = pre ++ PatchStart t :: mid ++ PatchStart u :: post ->
  exists v, PatchEnd v ∈ mid /\ u <= v /\ v + mi <= t.

Lemma requestWakeBegin_true now w w' : requestWakeBegin now w = (true, w') ->
  inFlight w = false /\ w' = MkWaker (minInterval w) true (lastPatch w) /\
  (lastPatch w <> 0 -> minInterval w <= Sub now (lastPatch w)).
Proof.
  unfold requestWakeBegin. destruct (inFlight w); [done|]. simpl.
  unfold IsZero, zero_time. destruct (Z.eqb_spec (lastPatch w) 0); simpl; intros H.
  - simplify_eq. done.
  - destruct (Z.ltb_spec (Sub now (lastPatch w)) (minInterval w)); simplify_eq. done.
Qed.

Lemma requestWakeBegin_false now w w' : requestWakeBegin now w = (false, w') -> w' = w.
Proof. unfold requestWakeBegin. case_match; intros; by simplify_eq. Qed.

Lemma winv_init : winv [] (MkW (newWaker mi) 0 c0).
Proof.
  split; simpl; try done; [by intros u ?%elem_of_nil|unfold zero_time; lia|].
  intros [|? mid] u post H; discriminate H.
Qed.

Lemma winv_step h s e s' : winv h s -> wstep s e s' -> winv (e :: h) s'.
Proof.
  intros [Hm Hn Hc Hp Hl He] Hstep. inversion Hstep; subst; simpl in *.
  - apply requestWakeBegin_false in H0 as ->.
    split; simpl; try done; try lia.
    + intros u [?|Hu]%elem_of_cons; [done|]. specialize (Hp u Hu). lia.
    + intros [|x mid] u post Heq; simplify_eq/=.
      destruct (He mid u post eq_refl) as [?|(v & Hv & ?)]; [by left|right].
      exists v. rewrite elem_of_cons. auto.
  - apply requestWakeBegin_true in H0 as (Hf & -> & Hlast).
    split; simpl; try done; try lia.
    + rewrite Hn. by rewrite Hf.
    + intros u [?|Hu]%elem_of_cons; [simplify_eq; lia|]. specialize (Hp u Hu). lia.
  - destruct (inFlight w); [|done].
    split; simpl; try done; try lia.
    + intros u [?|Hu]%elem_of_cons; [done|]. specialize (Hp u Hu). lia.
    + intros [|x mid] u post Heq; simplify_eq/=. right. exists now.
      rewrite elem_of_cons. assert (Hu : PatchStart u ∈ mid ++ PatchStart u :: post) by set_solver.
      specialize (Hp u Hu). split; [by left|lia].
Qed.

Lemma spaced_step h s e s' : winv h s -> spaced h -> wstep s e s' -> spaced (e :: h).
Proof.
  intros Hinv Hs Hstep [|x pre] t mid u post Heq; [|simplify_eq/=; by eapply Hs].
  simplify_eq/=. inversion Hstep; subst.
  apply requestWakeBegin_true in H2 as (Hf & -> & Hlast).
  destruct (winv_ended _ _ Hinv _ _ _ eq_refl) as [Hf'|(v & Hv & Hle)]; simpl in *; [congruence|].
  pose proof (winv_past _ _ Hinv u ltac:(set_solver)) as Hu. simpl in Hu.
  specialize (Hlast ltac:(lia)).
  pose proof (winv_mi _ _ Hinv) as Em. simpl in Em. rewrite Em in Hlast.
  exists v. split; [done|]. split; [lia|].
  destruct (Z.le_gt_cases (v + mi) t) as [|Hgt]; [done|exfalso].
  destruct (Z.le_gt_cases mi minDuration).
  - unfold Sub, minDuration, maxDuration in *. pose proof (winv_last _ _ Hinv). simpl in *. lia.
  - pose proof (proj2 (Sub_lt t (lastPatch w) mi ltac:(lia)) ltac:(lia)). lia.
Qed.

Lemma wrun_inv h s : wrun (MkW (newWaker mi) 0 c0) h s -> winv h s /\ spaced h.
Proof.
  induction 1 as [|h w e w' Hrun [IH1 IH2] Hstep].
  - split; [apply winv_init|]. intros [|? ?] t mid u post Heq; discriminate Heq.
  - split; [by eapply winv_step|by eapply spaced_step].
Qed.
End WakerFacts.

(** ** The UDP heuristic *)

Definition fresh_source : udpSourceState := MkSrc [] zero_time zero_time.

(** The times at which the log says [k] sent a packet, newest first. *)
Definition sent (k : string) (log : list (string * time * bool)) : list time :=
  map (fun e => e.1.2) (List.filter (fun e => String.eqb e.1.1 k) log).

Section UDPFacts.
Context (iter : gmap string udpSourceState -> list (string * udpSourceState)).

(** One packet: the source's own state goes through [countPacket]; the map is
    kept, or one source is evicted when an unknown source meets a full map. *)
Lemma shouldWake_eq h key now : exists m st',
  countPacket (threshold h) (window h) now (default fresh_source (sources h !! key))
    = ((shouldWake iter h key now).1, st') /\
  (shouldWake iter h key now).2 = set_sources h (<[key := st']> m) /\
  (m = sources h /\ is_Some (sources h !! key) \/
   sources h !! key = None /\
   m = if maxSources h <=? Z.of_nat (size (sources h))
       then evictOldestLocked iter (sources h) else sources h).
Proof.
  unfold shouldWake. destruct (sources h !! key) as [st|] eqn:E; simpl.
  - destruct (countPacket _ _ now st) as [r st'] eqn:Ec. exists (sources h), st'. simpl. eauto.
  - unfold fresh_source.
    destruct (countPacket _ _ now (MkSrc [] zero_time zero_time)) as [r st'] eqn:Ec.
    eexists _, st'. simpl. eauto.
Qed.

(** The loop of [evictOldestLocked] finds the least recently seen source. *)
Lemma oldest_fold l : forall acc,
  (forall kv, kv ∈ l -> kv.1 <> EmptyString) -> l <> [] \/ acc.1 <> EmptyString ->
  let r := foldl oldest_step acc l in
  r.1 <> EmptyString /\
  (acc.1 <> EmptyString /\ r = acc \/ exists st, (r.1, st) ∈ l /\ lastSeen st = r.2) /\
  (acc.1 <> EmptyString -> r.2 <= acc.2) /\
  (forall kv, kv ∈ l -> r.2 <= lastSeen kv.2).
Proof.
  induction l as [|[k st] l IH]; intros acc Hk Hne; simpl.
  - destruct Hne as [|Hne]; [done|]. split_and!; [done|by left|done|].
    intros kv Hkv. by apply elem_of_nil in Hkv.
  - set (acc' := oldest_step acc (k, st)).
    assert (Hacc : acc'.1 <> EmptyString /\ acc'.2 <= lastSeen st /\
      (acc.1 <> EmptyString -> acc'.2 <= acc.2) /\
      (acc' = acc /\ acc.1 <> EmptyString \/ acc' = (k, lastSeen st))).
    { pose proof (Hk (k, st) ltac:(set_solver)) as Hk0. simpl in Hk0.
      unfold acc', oldest_step, Before. simpl.
      destruct (String.eqb_spec acc.1 EmptyString); simpl; [split_and!; try done; auto; lia|].
      destruct (Z.ltb_spec (lastSeen st) acc.2); simpl; split_and!; auto; lia. }
    destruct Hacc as (Hne' & Hle & Hle' & Hcase).
    destruct (IH acc' ltac:(set_solver) (or_intror Hne')) as (H1 & H2 & H3 & H4).
    split_and!; [done| | |].
    + destruct H2 as [[_ ->]|(st' & Hin & Hst)].
      * destruct Hcase as [[-> ?]| ->]; [by left|]. right. exists st. simpl. set_solver.
      * right. exists st'. set_solver.
    + intros Ha. specialize (Hle' Ha). specialize (H3 Hne'). lia.
    + intros kv [->|Hkv]%elem_of_cons; [specialize (H3 Hne'); simpl; lia|auto].
Qed.

Definition keys_named (m : gmap string udpSourceState) : Prop := m !! EmptyString = None.

Section Evict.
Context (Hiter : forall m, iter m ≡ₚ map_to_list m).
#[local] Set Default Proof Using "Type*".

Lemma iter_lookup m kv : kv ∈ iter m <-> m !! kv.1 = Some kv.2.
Proof. rewrite Hiter. destruct kv. apply elem_of_map_to_list. Qed.

Lemma evict_oldest m : keys_named m -> m <> ∅ ->
  exists k st, m !! k = Some st /\ evictOldestLocked iter m = delete k m /\
    forall k' st', m !! k' = Some st' -> lastSeen st <= lastSeen st'.
Proof.
  intros Hk Hm. unfold evictOldestLocked.
  destruct (oldest_fold (iter m) (EmptyString, zero_time)) as (H1 & H2 & _ & H4).
  - intros [k st] Hkv. apply iter_lookup in Hkv. simpl in *. intros ->.
    unfold keys_named in Hk. congruence.
  - left. intros E. apply Hm. apply map_to_list_empty_iff.
    apply Permutation_nil_r. by rewrite <- E, Hiter.
  - destruct H2 as [[? _]|(st & Hin & Hst)]; [done|].
    exists (foldl oldest_step (EmptyString, zero_time) (iter m)).1, st.
    apply iter_lookup in Hin. split_and!; [done| |].
    + destruct (String.eqb_spec (foldl oldest_step (EmptyString, zero_time) (iter m)).1 EmptyString);
        done.
    + intros k' st' Hk'. rewrite Hst. by apply (H4 (k', st')), iter_lookup.
Qed.

Definition uinv (ms : Z) (h : udpHeuristic) : Prop :=
  maxSources h = ms /\ keys_named (sources h) /\ Z.of_nat (size (sources h)) <= ms.

Lemma shouldWake_inv ms h key now : 1 <= ms -> key <> EmptyString ->
  uinv ms h -> uinv ms (shouldWake iter h key now).2.
Proof.
  intros Hms Hkey (Em & Hk & Hsz).
  destruct (shouldWake_eq h key now) as (m & st' & _ & -> & Hcase).
  unfold uinv, keys_named in *. simpl. rewrite lookup_insert_ne by done.
  destruct Hcase as [[-> Hs]|[Hnone ->]].
  - rewrite map_size_insert_Some by done. done.
  - destruct (Z.leb_spec (maxSources h) (Z.of_nat (size (sources h)))) as [Hfull|Hroom].
    + assert (Hne : sources h <> ∅) by (intros E; rewrite E, map_size_empty in Hfull; lia).
      destruct (evict_oldest _ Hk Hne) as (k & st & Hst & -> & _).
      rewrite lookup_delete_None. split_and!; [done|auto|].
      rewrite map_size_insert_None by (rewrite lookup_delete_None; auto).
      rewrite map_size_delete_Some by eauto. lia.
    + split_and!; [done|done|]. rewrite map_size_insert_None by done. lia.
Qed.

Lemma sweepOnce_inv ms h now : uinv ms h -> uinv ms (sweepOnce h now).
Proof.
  intros (Em & Hk & Hsz). unfold uinv, keys_named in *. simpl. split_and!; [done| |].
  - apply map_lookup_filter_None. by left.
  - pose proof (map_size_filter (fun kv => ~ (s64 (window h * 2) < Sub now (lastSeen kv.2))) (sources h)). lia.
Qed.

Definition op_named (op : uop) : Prop :=
  match op with UPacket key _ => key <> EmptyString | USweep _ => True end.

Lemma urun_inv ms ops : 1 <= ms -> Forall op_named ops ->
  forall st, uinv ms st.1 -> uinv ms (foldl (uapply iter) st ops).1.
Proof.
  intros Hms Hops. induction Hops as [|op ops Hop Hops IH]; intros st Hst; simpl; [done|].
  apply IH. destruct op as [key now|now]; simpl.
  - pose proof (shouldWake_inv ms st.1 key now Hms Hop Hst).
    by destruct (shouldWake iter st.1 key now).
  - by apply sweepOnce_inv.
Qed.
End Evict.

(** Every remembered packet is a logged one: for any test, no more remembered
    times than logged ones satisfy it. *)
Definition remembered (h : udpHeuristic) (log : list (string * time * bool)) : Prop :=
  forall k st P, sources h !! k = Some st ->
    (length (List.filter P (packets st)) <= length (List.filter P (sent k log)))%nat.

Definition wakes_backed (thr : Z) (win : duration) (log : list (string * time * bool)) : Prop :=
  forall pre key now rest, log = pre ++ (key, now, true) :: rest ->
    thr <= Z.of_nat (length (List.filter (fun t => Sub now t <? win) (sent key ((key, now, true) :: rest)))).

Lemma filter_filter_le {A} (P Q : A -> bool) l :
  (length (List.filter P (List.filter Q l)) <= length (List.filter P l))%nat.
Proof.
  induction l as [|a l IH]; simpl; [done|].
  destruct (Q a); simpl; destruct (P a); simpl; lia.
Qed.

Lemma sent_cons_same k now r log : sent k ((k, now, r) :: log) = now :: sent k log.
Proof. unfold sent. simpl. by rewrite String.eqb_refl. Qed.

Lemma sent_cons_le k (P : time -> bool) e log :
  (length (List.filter P (sent k log)) <= length (List.filter P (sent k (e :: log))))%nat.
Proof. unfold sent. simpl. destruct (String.eqb e.1.1 k); simpl; [case_match; simpl; lia|lia]. Qed.

(** What [countPacket] does to the remembered times. *)
Lemma countPacket_packets thr win now st r st' P :
  countPacket thr win now st = (r, st') ->
  (length (List.filter P (packets st')) <=
   length (List.filter P (packets st)) + length (List.filter P [now]))%nat.
Proof.
  unfold countPacket. cbn [packets wokenAt].
  destruct (_ && _); [intros [= _ <-]; simpl; lia|].
  destruct (_ <? thr); intros [= _ <-]; simpl; [|lia].
  rewrite List.filter_app, length_app. pose proof (filter_filter_le P (fun t => Sub now t <? win) (packets st)).
  simpl in *. lia.
Qed.

Lemma countPacket_true thr win now st st' : 0 < win ->
  countPacket thr win now st = (true, st') ->
  thr <= Z.of_nat (length (List.filter (fun t => Sub now t <? win) (packets st ++ [now]))).
Proof.
  unfold countPacket. cbn [packets wokenAt]. intros Hw.
  destruct (_ && _); [done|].
  destruct (Z.ltb_spec (Z.of_nat (length (List.filter (fun t => Sub now t <? win) (packets st) ++ [now]))) thr);
    [done|]. intros _.
  rewrite List.filter_app. simpl.
  assert (E : (Sub now now <? win) = true)
    by (unfold Sub, minDuration, maxDuration; zbool; [done|lia]).
  rewrite E. done.
Qed.

Lemma evict_subset m : evictOldestLocked iter m ⊆ m.
Proof. unfold evictOldestLocked. case_match; [done|]. apply delete_subseteq. Qed.

Lemma remembered_packet h log key now : remembered h log ->
  remembered (shouldWake iter h key now).2 ((key, now, (shouldWake iter h key now).1) :: log).
Proof.
  intros Hrem k st P. destruct (shouldWake_eq h key now) as (m & st' & Hc & -> & Hcase). simpl.
  assert (Hsub : m ⊆ sources h).
  { destruct Hcase as [[-> _]|[_ ->]]; [done|]. case_match; [apply evict_subset|done]. }
  intros [[<- <-]|[Hne Hk]]%lookup_insert_Some.
  - rewrite sent_cons_same. apply (countPacket_packets _ _ _ _ _ _ P) in Hc.
    assert (Hd : (length (List.filter P (packets (default fresh_source (sources h !! key)))) <=
                  length (List.filter P (sent key log)))%nat).
    { destruct (sources h !! key) as [st0|] eqn:E; simpl; [by apply Hrem|lia]. }
    simpl in *. destruct (P now); simpl in *; lia.
  - etrans; [apply Hrem; by eapply lookup_weaken|apply sent_cons_le].
Qed.

Lemma wakes_backed_packet h log key now : 0 < window h ->
  remembered h log -> wakes_backed (threshold h) (window h) log ->
  wakes_backed (threshold h) (window h) ((key, now, (shouldWake iter h key now).1) :: log).
Proof.
  intros Hw Hrem Hb [|e pre] k t rest Heq; [|simplify_eq/=; by eapply Hb].
  destruct (shouldWake_eq h key now) as (m & st' & Hc & _ & _).
  simpl in Heq. inversion Heq; subst. rewrite H2 in Hc.
  apply countPacket_true in Hc; [|done].
  rewrite sent_cons_same. rewrite List.filter_app, length_app in Hc. simpl in *.
  assert (Hd : (length (List.filter (fun u => (Sub t u <? window h)%Z)
      (packets (default fresh_source (sources h !! k)))) <=
    length (List.filter (fun u => (Sub t u <? window h)%Z) (sent k rest)))%nat).
  { destruct (sources h !! k) as [st0|] eqn:E; simpl; [by apply Hrem|lia]. }
  destruct (Sub t t <? window h); simpl in *; lia.
Qed.

Lemma urun_backed thr win ops : 0 < win -> forall st,
  threshold st.1 = thr -> window st.1 = win ->
  remembered st.1 st.2 -> wakes_backed thr win st.2 ->
  wakes_backed thr win (foldl (uapply iter) st ops).2.
Proof.
  intros Hw. induction ops as [|op ops IH]; intros st Ht Hwin Hrem Hb; simpl; [done|].
  destruct op as [key now|now]; simpl.
  - pose proof (remembered_packet st.1 st.2 key now Hrem) as Hr'.
    pose proof (wakes_backed_packet st.1 st.2 key now) as Hb'.
    destruct (shouldWake_eq st.1 key now) as (m & st' & _ & Hset & _).
    destruct (shouldWake iter st.1 key now) as [r h']. simpl in *. subst h'.
    rewrite Ht, Hwin in Hb'. apply IH; auto.
  - apply IH; simpl; auto. intros k st' P Hk. apply map_lookup_filter_Some in Hk as [Hk _].
    by apply Hrem.
Qed.

(** A burst from one source: the decisions up to the threshold. *)
Lemma burst key ts : forall h log,
  let st := default fresh_source (sources h !! key) in
  wokenAt st = zero_time -> ts <> [] ->
  Z.of_nat (length (packets st) + length ts) = threshold h ->
  (forall t u, t ∈ ts -> u ∈ packets st ++ ts -> Sub t u < window h) ->
  map snd (foldl (uapply iter) (h, log) (map (UPacket key) ts)).2 =
  true :: repeat false (length ts - 1) ++ map snd log.
Proof.
  induction ts as [|t ts IH]; intros h log st Hz Hne Hlen Hwin; [done|]. simpl.
  destruct (shouldWake_eq h key t) as (m & st' & Hc & Hset & _). fold st in Hc.
  destruct (shouldWake iter h key t) as [r h']. simpl in Hc, Hset. subst h'.
  unfold countPacket in Hc. cbn [wokenAt packets] in Hc. rewrite Hz in Hc. simpl in Hc.
  assert (Hall : List.filter (fun u => Sub t u <? window h) (packets st) = packets st).
  { apply forallb_filter_id. apply forallb_forall. intros u Hu.
    apply Z.ltb_lt, Hwin; [set_solver|]. apply elem_of_app. left. by apply list_elem_of_In. }
  rewrite Hall, length_app in Hc. simpl in Hc, Hlen.
  destruct ts as [|t2 ts].
  - destruct (Z.ltb_spec (Z.of_nat (length (packets st) + 1)) (threshold h)); [simpl in *; lia|].
    by simplify_eq/=.
  - destruct (Z.ltb_spec (Z.of_nat (length (packets st) + 1)) (threshold h)); [|simpl in *; lia].
    simplify_eq. rewrite IH; cbn [set_sources sources threshold window].
    + simpl. rewrite Nat.sub_0_r.
      change (false :: map snd log) with ([false] ++ map snd log).
      by rewrite app_assoc, <- repeat_cons.
    + by rewrite lookup_insert_eq.
    + done.
    + rewrite lookup_insert_eq. simpl. rewrite length_app. simpl in *. lia.
    + rewrite lookup_insert_eq. simpl. intros a b Ha Hb. apply Hwin; set_solver.
Qed.
End UDPFacts.

(** ** Handlers *)

(** The bytes the game pod receives from the client's side, and the messages the
    sentinel itself writes to the client. *)
Fixpoint upstream_bytes (acts : list action) : list Z :=
  match acts with
  | [] => []
  | AWriteUpstream b :: rest | AProxy b :: rest => b ++ upstream_bytes rest
  | _ :: rest => upstream_bytes rest
  end.

Fixpoint client_writes (acts : list action) : list (list Z) :=
  match acts with
  | [] => []
  | AWriteClient b :: rest => b :: client_writes rest
  | _ :: rest => client_writes rest
  end.

Lemma upstream_bytes_app a b : upstream_bytes (a ++ b) = upstream_bytes a ++ upstream_bytes b.
Proof. induction a as [|x a IH]; simpl; [done|]. destruct x; rewrite ?IH, ?app_assoc; done. Qed.

Lemma client_writes_app a b : client_writes (a ++ b) = client_writes a ++ client_writes b.
Proof. induction a as [|x a IH]; simpl; [done|]. destruct x; rewrite ?IH; done. Qed.

Lemma waitForUpstream_quiet rounds :
  Forall (fun a => exists ok, a = ADial ok) (waitForUpstream rounds).2.
Proof.
  induction rounds as [|[ok expired] rounds IH]; simpl; [constructor|].
  destruct ok; [repeat econstructor|]. destruct expired; [repeat econstructor|].
  destruct (waitForUpstream rounds). simpl in *. constructor; eauto.
Qed.

Lemma dials_quiet dials : Forall (fun a => exists ok, a = ADial ok) dials ->
  (AWake ∉ dials) /\ upstream_bytes dials = [] /\ client_writes dials = [].
Proof.
  induction 1 as [|a dials [ok ->] _ (IH1 & IH2 & IH3)]; simpl.
  - split; [apply not_elem_of_nil|done].
  - split_and!; [|done|done]. apply not_elem_of_cons. done.
Qed.

Lemma handleJoin_up rounds br p : (waitForUpstream rounds).1 = true ->
  upstream_bytes (handleJoin rounds true br p) = jconsumed p ++ pending br /\
  client_writes (handleJoin rounds true br p) = [].
Proof.
  intros Hup. pose proof (dials_quiet _ (waitForUpstream_quiet rounds)) as (_ & Hu & Hc).
  unfold handleJoin. destruct (waitForUpstream rounds) as [up dials]. simpl in *. subst up. simpl.
  rewrite upstream_bytes_app, client_writes_app, Hu, Hc.
  destruct (jconsumed p) as [|b c]; simpl; by rewrite ?app_nil_r.
Qed.

Lemma handleJoin_down rounds ok br p : (waitForUpstream rounds).1 = false ->
  upstream_bytes (handleJoin rounds ok br p) = [] /\
  client_writes (handleJoin rounds ok br p) =
    match jbounce p with Some (Ok msg) => [msg] | _ => [] end.
Proof.
  intros Hup. pose proof (dials_quiet _ (waitForUpstream_quiet rounds)) as (_ & Hu & Hc).
  unfold handleJoin. destruct (waitForUpstream rounds) as [up dials]. simpl in *. subst up. simpl.
  rewrite upstream_bytes_app, client_writes_app, Hu, Hc.
  by destruct (jbounce p) as [[]|].
Qed.

Lemma handleJoin_wakes rounds ok br p : AWake ∈ handleJoin rounds ok br p.
Proof. unfold handleJoin. destruct (waitForUpstream rounds). apply elem_of_cons. by left. Qed.

(** The connection is treated as a join: either there is nothing to parse or the
    registered classifier says so. *)
Definition joins (port : PortConfig) (conn : stream) (consumed : list Z) (br : stream) : Prop :=
  WakeProtocol port = "generic" /\ consumed = [] /\ br = conn \/
  WakeProtocol port <> "generic" /\ exists c r,
    Lookup (WakeProtocol port) = Some c /\ Classify c conn = (Ok r, br) /\
    kind r = Join /\ consumed = Consumed r.

(** Every handler call is a join or makes no wake and no dial. *)
Lemma handleTCP_cases port rounds ok conn :
  (exists consumed br bounce, joins port conn consumed br /\
     handleTCPConnection port rounds ok conn =
     handleJoin rounds (match consumed with [] => true | _ => ok end) br (MkJoin consumed bounce) ++ [AClose] /\
     (bounce = None /\ WakeProtocol port = "generic" \/ exists c, Lookup (WakeProtocol port) = Some c /\
        bounce = Some (BuildDisconnect c wakingUpMessage))) \/
  ((AWake ∉ handleTCPConnection port rounds ok conn) /\
   upstream_bytes (handleTCPConnection port rounds ok conn) = [] /\
   forall consumed br, ~ joins port conn consumed br).
Proof.
  unfold handleTCPConnection.
  destruct (String.eqb_spec (WakeProtocol port) "generic") as [E|E].
  { left. exists [], conn, None. split_and!; [by left|done|by left]. }
  assert (Hj : forall consumed br, joins port conn consumed br -> exists c r,
    Lookup (WakeProtocol port) = Some c /\ Classify c conn = (Ok r, br) /\ kind r = Join)
    by (intros consumed br [[? _]|(_ & c & r & ? & ? & ? & _)]; [done|eauto]).
  unfold handleRegistryProtocol.
  destruct (Lookup (WakeProtocol port)) as [c|] eqn:Ec.
  2:{ right. split_and!; [set_solver|done|]. intros ? ? (? & ? & ? & _)%Hj. done. }
  destruct (Classify c conn) as [[r|e] br] eqn:Er.
  2:{ right. split_and!; [set_solver|done|]. intros ? ? (? & ? & ? & Hx & _)%Hj. simplify_eq.
      congruence. }
  destruct (kind r) eqn:Ek.
  - left. exists (Consumed r), br, (Some (BuildDisconnect c wakingUpMessage)).
    split_and!; [right; split; [done|eauto 8]| |eauto].
    f_equal. unfold handleJoin. destruct (waitForUpstream rounds) as [[] dials]; [|done].
    simpl. by destruct (Consumed r).
  - right. split_and!.
    + destruct (SupportsStatusPing c); [destruct (BuildStatusResponse c minecraftAsleepStatusJSON)|]; set_solver.
    + by destruct (SupportsStatusPing c); [destruct (BuildStatusResponse c minecraftAsleepStatusJSON)|].
    + intros ? ? (? & ? & ? & Hx & ?)%Hj. congruence.
  - right. split_and!; [set_solver|done|]. intros ? ? (? & ? & ? & Hx & ?)%Hj. congruence.
Qed.

(** Every registered protocol can say the waking-up message, and the asleep
    status where it answers pings. *)
Lemma registered_replies name c : Lookup name = Some c ->
  is_ok (BuildDisconnect c wakingUpMessage) = true /\
  (SupportsStatusPing c = true -> is_ok (BuildStatusResponse c minecraftAsleepStatusJSON) = true).
Proof.
  unfold Lookup, classifierRegistry. cbn [List.find fst].
  repeat (destruct (String.eqb _ _); [intros [= <-]; split; [by vm_compute|by vm_compute]|]). done.
Qed.

(** ** Sessions *)

Definition sinv (cap : nat) (s : sstate) : Prop :=
  sem s = (acquired s + running s)%nat /\ (sem s <= cap)%nat /\
  active s = Z.of_nat (running s + leaving s).

Lemma sstep_inv cap s s' : sinv cap s -> sstep cap s s' -> sinv cap s'.
Proof. unfold sinv. intros H Hs. inversion Hs; subst; simpl in *; lia. Qed.

Lemma sreach_inv cap n s : rtc (sstep cap) (sinit n) s -> sinv cap s.
Proof.
  intros H. assert (Hi : sinv cap (sinit n)) by (unfold sinv; simpl; lia).
  revert Hi. induction H; [done|]. intros Hi. eauto using sstep_inv.
Qed.

Lemma listeners_done_step cap s s' : listeners_done s -> sstep cap s s' ->
  listeners_done s' /\ (running s' <= running s)%nat /\
  (2 * running s' + leaving s' < 2 * running s + leaving s)%nat.
Proof. unfold listeners_done. intros [??] Hs. inversion Hs; subst; simpl in *; lia. Qed.

(** ** Properties *)

(** Startup validation: every port that [parsePortsConfig] accepts is TCP or
    UDP, its number is an int, and its wake protocol is generic, none or
    registered, so a listener's protocol lookup never fails at connection
    time. *)
Lemma ports_config_sound ul uu config ps :
  parsePortsConfig ul uu config = Ok ps ->
  Forall (fun p =>
    (Protocol p = "TCP" \/ Protocol p = "UDP") /\
    (WakeProtocol p = "generic" \/ wantsListener p = false \/ is_Some (Lookup (WakeProtocol p))) /\
    - 2 ^ 63 <= ContainerPort p < 2 ^ 63) ps.
Proof.
  unfold parsePortsConfig. intros H.
  assert (Hok : Forall port_ok ps).
  { destruct (String.eqb _ _); [inv_ok; constructor|]. by eapply parseParts_ok. }
  eapply Forall_impl; [exact Hok|]. intros p (H1 & H2 & H3). split; [done|]. split; [|done].
  unfold wantsListener. destruct H2 as [H2|[H2|H2]]; [by left|right; left; by rewrite H2|by right; right].
Qed.

(** C22. Coalescing: for every interleaving of concurrent [RequestWake] calls
    under a clock that does not go back, at most one patch is in flight, and
    between two patch starts an earlier one ended at least [minInterval]
    before the later one started. *)
Theorem wake_patches_spaced mi c0 h s :
  mi <= maxDuration -> 0 < c0 ->
  wrun (MkW (newWaker mi) 0 c0) h s ->
  (wpatching s <= 1)%nat /\
  forall pre t mid u post, h = pre ++ PatchStart t :: mid ++ PatchStart u :: post ->
    exists v, PatchEnd v ∈ mid /\ u <= v /\ v + mi <= t.
Proof.
  intros Hmi Hc0 Hrun. destruct (wrun_inv mi c0 Hmi Hc0 h s Hrun) as [Hinv Hs].
  split; [|exact Hs]. rewrite (winv_count _ _ _ _ Hinv). case_match; lia.
Qed.

(** Bounded memory: whatever packets arrive and whenever the sweeper runs,
    a port tracks at most [maxSources] sources; and an unknown source that
    finds the map full displaces exactly one source, one least recently
    seen. *)
Lemma udp_sources_bounded iter thr win ms ops :
  (forall m, iter m ≡ₚ map_to_list m) -> 1 <= ms -> Forall op_named ops ->
  let h := (urun iter (newUDPHeuristic thr win ms) ops).1 in
  Z.of_nat (size (sources h)) <= ms /\
  forall key now, sources h !! key = None -> Z.of_nat (size (sources h)) = ms ->
    exists k st st', sources h !! k = Some st /\
      sources (shouldWake iter h key now).2 = <[key := st']> (delete k (sources h)) /\
      forall k' u, sources h !! k' = Some u -> lastSeen st <= lastSeen u.
Proof.
  intros Hit Hms Hops h.
  assert (Hinv : uinv ms h).
  { apply urun_inv; try done. unfold uinv, keys_named. simpl. rewrite map_size_empty, lookup_empty. done || (split_and!; done || lia). }
  destruct Hinv as (Em & Hk & Hsz). split; [done|]. intros key now Hnew Hfull.
  destruct (evict_oldest iter Hit (sources h) Hk) as (k & st & Hst & Hev & Hold).
  { intros E. rewrite E, map_size_empty in Hfull. lia. }
  destruct (shouldWake_eq iter h key now) as (m & st' & _ & Hset & Hcase).
  exists k, st, st'. split; [done|]. split; [|done].
  rewrite Hset. simpl. destruct Hcase as [[_ [? ?]]|[_ ->]]; [congruence|].
  rewrite Em, (proj2 (Z.leb_le _ _)) by lia. by rewrite Hev.
Qed.

(** No unprovoked wake: each wake decision for a source is preceded, inside
    the window that ends with it, by at least [threshold] packets of that very
    source; eviction, sweeping and other sources never add to its count. *)
Lemma udp_wake_backed iter thr win ms ops pre key now rest :
  0 < win ->
  (urun iter (newUDPHeuristic thr win ms) ops).2 = pre ++ (key, now, true) :: rest ->
  thr <= Z.of_nat (length (List.filter (fun t => Sub now t <? win) (sent key ((key, now, true) :: rest)))).
Proof.
  intros Hw Hlog. eapply (urun_backed iter thr win ops Hw (newUDPHeuristic thr win ms, [])); try done.
  intros [|? ?] ? ? ? E; discriminate E.
Qed.

(** Detection: [threshold] packets of an untracked source within the window
    wake the server, and only the last of them does. *)
Lemma udp_burst_wakes iter h key ts :
  sources h !! key = None -> Z.of_nat (length ts) = threshold h -> 1 <= threshold h ->
  (forall t u, t ∈ ts -> u ∈ ts -> Sub t u < window h) ->
  map snd (urun iter h (map (UPacket key) ts)).2 = true :: repeat false (length ts - 1).
Proof.
  intros Hn Hlen Hthr Hwin. unfold urun.
  rewrite (burst iter key ts h []); rewrite ?Hn; simpl; rewrite ?app_nil_r; try done.
  intros ->. simpl in Hlen. lia.
Qed.

(** C21. Only joins wake: a TCP connection triggers a wake exactly when its port
    is generic or its registered classifier recognises a join; pings, unknown
    bytes and broken handshakes never do, and never reach the game pod. *)
Theorem only_joins_wake port rounds replay_ok conn :
  (AWake ∈ handleTCPConnection port rounds replay_ok conn <->
   exists consumed br, joins port conn consumed br) /\
  ((~ exists consumed br, joins port conn consumed br) ->
   upstream_bytes (handleTCPConnection port rounds replay_ok conn) = []).
Proof.
  destruct (handleTCP_cases port rounds replay_ok conn)
    as [(consumed & br & bounce & Hj & Heq & _)|(Hw & Hu & Hj)].
  - split; [|intros Hno; destruct Hno; eauto]. split; [eauto|]. intros _. rewrite Heq.
    apply elem_of_app. left. apply handleJoin_wakes.
  - split; [|done]. split; [done|]. by intros (consumed & br & ?%Hj).
Qed.

(** C10. Transparent hand-through: when a joining connection's game pod comes up
    and the replay is written, the pod receives exactly the client's byte
    stream, handshake included, and the client gets nothing from the sentinel
    itself. *)
Theorem join_forwarded port rounds conn :
  AWake ∈ handleTCPConnection port rounds true conn ->
  (waitForUpstream rounds).1 = true ->
  upstream_bytes (handleTCPConnection port rounds true conn) = pending conn /\
  client_writes (handleTCPConnection port rounds true conn) = [].
Proof.
  intros Hw Hup.
  destruct (handleTCP_cases port rounds true conn)
    as [(consumed & br & bounce & Hj & -> & _)|(? & _)]; [|done].
  replace (match consumed with [] => true | _ => true end) with true by (by destruct consumed).
  rewrite upstream_bytes_app, client_writes_app.
  destruct (handleJoin_up rounds br (MkJoin consumed bounce) Hup) as [-> ->]. simpl.
  rewrite !app_nil_r. split; [|done].
  destruct Hj as [(_ & -> & ->)|(_ & c & r & Hc & Hr & _ & ->)]; [done|].
  pose proof (Lookup_laws _ _ Hc). by destruct (law_replay conn r br Hr) as [-> _].
Qed.

(** Bounce: when the game pod does not come up in time, nothing is sent to
    it, and a client of a registered protocol that was recognised as joining
    gets exactly one message, the protocol's own disconnect, whose
    construction succeeds. *)
Lemma join_bounced port rounds replay_ok conn c :
  AWake ∈ handleTCPConnection port rounds replay_ok conn ->
  (waitForUpstream rounds).1 = false ->
  Lookup (WakeProtocol port) = Some c ->
  upstream_bytes (handleTCPConnection port rounds replay_ok conn) = [] /\
  exists msg, BuildDisconnect c wakingUpMessage = Ok msg /\
    client_writes (handleTCPConnection port rounds replay_ok conn) = [msg].
Proof.
  intros Hw Hdown Hc.
  destruct (handleTCP_cases port rounds replay_ok conn)
    as [(consumed & br & bounce & Hj & -> & Hb)|(? & _)]; [|done].
  rewrite upstream_bytes_app, client_writes_app.
  destruct (handleJoin_down rounds (match consumed with [] => true | _ => replay_ok end) br
    (MkJoin consumed bounce) Hdown) as [-> ->]. cbn [jbounce]. split; [done|].
  destruct Hb as [[_ E]|(c' & Hc' & ->)]; [by rewrite E in Hc|].
  assert (c' = c) as -> by (rewrite Hc in Hc'; by apply Some_inj' in Hc').
  destruct (registered_replies _ _ Hc) as [Hok _].
  destruct (BuildDisconnect c wakingUpMessage) as [msg|]; [|done]. by exists msg.
Qed.

(** Bounded sessions: over every interleaving of the accept loops and the
    session goroutines, at most [MaxConnections] handlers run, a finishing
    handler never blocks on the semaphore, and [active] counts the goroutines;
    once the listeners are done each further step brings the drain closer, and
    where none is possible every goroutine has gone and the counter is
    zero. *)
Lemma sessions_bounded maxConnections listeners s :
  rtc (sstep maxConnections) (sinit listeners) s ->
  (running s <= maxConnections)%nat /\ (running s <= sem s)%nat /\
  active s = Z.of_nat (running s + leaving s) /\
  (listeners_done s ->
     (forall s', sstep maxConnections s s' ->
        listeners_done s' /\ (2 * running s' + leaving s' < 2 * running s + leaving s)%nat) /\
     ((forall s', ~ sstep maxConnections s s') -> sessions_done s /\ active s = 0)).
Proof.
  intros Hr. pose proof (sreach_inv _ _ _ Hr) as (Hsem & Hcap & Hact).
  split_and!; try lia. intros Hd. split.
  - intros s' Hs. by destruct (listeners_done_step _ _ _ Hd Hs) as (? & _ & ?).
  - intros Hstuck. destruct s as [l a r v m n]. simpl in *.
    destruct r as [|r].
    + destruct v as [|v]; [split; [done|simpl; lia]|]. destruct (Hstuck _ (s_leave _ _ _ _ _ _ _)).
    + destruct m as [|m]; [lia|]. destruct (Hstuck _ (s_return _ _ _ _ _ _ _)).
Qed.

(** *** Witnesses *)

Definition demo_ports : string := "25565:TCP:minecraft, 19133:udp:generic,,7777:tcp:none".

Lemma ports_config_sound_witness :
  exists ps, parsePortsConfig (fun r => r) (fun r => r) demo_ports = Ok ps /\ length ps = 3%nat /\
  Forall (fun p =>
    (Protocol p = "TCP" \/ Protocol p = "UDP") /\
    (WakeProtocol p = "generic" \/ wantsListener p = false \/ is_Some (Lookup (WakeProtocol p))) /\
    - 2 ^ 63 <= ContainerPort p < 2 ^ 63) ps.
Proof.
  eexists. split; [vm_compute; reflexivity|]. split; [reflexivity|].
  apply (ports_config_sound (fun r => r) (fun r => r) demo_ports). vm_compute. reflexivity.
Defined.

(** Two patches two seconds apart with a skipped call in between. *)
Definition demo_history : list wevent :=
  [PatchStart (3 * Second); Skipped (2 * Second); PatchEnd Second; Skipped 7; PatchStart 5].

Lemma wake_patches_spaced_witness :
  exists v, PatchEnd v ∈ [Skipped (2 * Second); PatchEnd Second; Skipped 7] /\ 5 <= v /\ v + 2 * Second <= 3 * Second.
Proof.
  refine (proj2 (wake_patches_spaced (2 * Second) 1 demo_history
    (MkW (MkWaker (2 * Second) true Second) 1 (3 * Second)) _ _ _) [] (3 * Second) _ 5 [] _);
    [vm_compute; congruence|reflexivity| |reflexivity].
  unfold demo_history. repeat eapply wrun_cons; [apply wrun_nil|..].
  - apply wstep_start; [lia|reflexivity].
  - eapply wstep_skip; [lia|reflexivity].
  - apply wstep_end. vm_compute. congruence.
  - eapply wstep_skip; [vm_compute; congruence|vm_compute; reflexivity].
  - apply wstep_start; [vm_compute; congruence|vm_compute; reflexivity].
Defined.

Lemma udp_sources_bounded_witness :
  Z.of_nat (size (sources (urun map_to_list (newUDPHeuristic 3 10 2)
    [UPacket "a" 1; UPacket "b" 2; UPacket "c" 3; USweep 4]).1)) <= 2.
Proof.
  refine (proj1 (udp_sources_bounded map_to_list 3 10 2 [UPacket "a" 1; UPacket "b" 2; UPacket "c" 3; USweep 4] _ _ _)).
  - reflexivity.
  - lia.
  - repeat constructor; discriminate.
Defined.

Lemma udp_wake_backed_witness :
  3 <= Z.of_nat (length (List.filter (fun t => Sub 4 t <? 10)
    (sent "a" [("a", 4, true); ("b", 3, false); ("a", 2, false); ("a", 1, false)]))).
Proof.
  apply (udp_wake_backed map_to_list 3 10 8
    [UPacket "a" 1; UPacket "a" 2; UPacket "b" 3; UPacket "a" 4] []); [lia|].
  vm_compute. reflexivity.
Defined.

Lemma udp_burst_wakes_witness :
  map snd (urun map_to_list (newUDPHeuristic 3 10 8) (map (UPacket "a") [1; 2; 4])).2
  = [true; false; false].
Proof.
  apply (udp_burst_wakes map_to_list (newUDPHeuristic 3 10 8) "a" [1; 2; 4]);
    [reflexivity|reflexivity|vm_compute; congruence|].
  intros t u Ht Hu. rewrite !elem_of_cons, elem_of_nil in Ht, Hu.
  unfold Sub, minDuration, maxDuration. simpl. lia.
Defined.

Lemma join_forwarded_witness :
  upstream_bytes (handleTCPConnection (MkPort 7777 "TCP" "generic") [(false, false); (true, false)] true
    (Stream [1; 2; 3] EOF)) = [1; 2; 3].
Proof.
  refine (proj1 (join_forwarded (MkPort 7777 "TCP" "generic") [(false, false); (true, false)]
    (Stream [1; 2; 3] EOF) _ _)); [|reflexivity].
  apply elem_of_cons. by left.
Defined.

(** A Terraria connect request: frame length 8, type 1, a four-byte version. *)
Definition demo_terraria : stream := Stream [8; 0; 1; 4; 84; 101; 114; 114] EOF.

Lemma join_bounced_witness :
  upstream_bytes (handleTCPConnection (MkPort 7777 "TCP" "terraria") [(false, true)] true demo_terraria) = [].
Proof.
  refine (proj1 (join_bounced (MkPort 7777 "TCP" "terraria") [(false, true)] true demo_terraria
    Terraria.TerrariaClassifier _ _ _)); [|reflexivity|reflexivity].
  replace (handleTCPConnection _ _ _ _) with
    (AWake :: ADial false :: drop 2 (handleTCPConnection (MkPort 7777 "TCP" "terraria") [(false, true)] true demo_terraria))
    by (vm_compute; reflexivity).
  apply elem_of_cons. by left.
Defined.

Lemma sessions_bounded_witness :
  exists s, rtc (sstep 1) (sinit 1) s /\ running s = 1%nat /\ (running s <= 1)%nat.
Proof.
  exists (MkS 1 0 1 0 1 1).
  assert (H : rtc (sstep 1) (sinit 1) (MkS 1 0 1 0 1 1)).
  { eapply rtc_l; [apply s_acquire; lia|]. eapply rtc_l; [apply s_start|]. apply rtc_refl. }
  split; [exact H|]. split; [reflexivity|]. exact (proj1 (sessions_bounded 1 1 _ H)).
Defined.
