(* ===== verification/GameAction.v ===== *)
(** * gameaction: the console-injection guard

    Parameters of module-declared actions (src/gameaction/action.go): typed
    validation of user input and the character policy for text that is folded
    into a console command. *)

From S2P Require Import Prelude GoText.
Local Open Scope Z_scope.

(** [Param]; the two descriptive strings are not read by the package. *)
Record Param := MkParam {
  Name : string;
  Type_ : string;
  Default : string;
  Enum : list string;
  Required : bool
}.

Inductive text_err := ErrControlChar | ErrMetaChar.

Inductive action_err :=
| ParamRequired (name : string)
| MustBeInteger (name : string)
| MustBeBool (name : string)
| MustBeOption (name : string)
| NoControlChars (name : string)
| TooLong (name : string).

(** The characters of the policy; they are compared as runes. *)
Definition is_control (r : Z) : bool := (r <? 0x20) || (r =? 0x7f).
(** The bytes of: semicolon, ampersand, bar, dollar, backtick, backslash, double
    and single quote. *)
Definition is_meta (r : Z) : bool :=
  (r =? 59) || (r =? 38) || (r =? 124) || (r =? 36) || (r =? 96) || (r =? 92) ||
  (r =? 34) || (r =? 39).

(** The loop of [CheckText]. *)
Fixpoint check_runes (meta : bool) (rs : list Z) : result text_err unit :=
  match rs with
  | [] => if meta then Err ErrMetaChar else Ok tt
  | r :: rs' =>
      if is_control r then Err ErrControlChar
      else check_runes (meta || is_meta r) rs'
  end.

(** [CheckText] *)
Definition CheckText (s : string) : result text_err unit := check_runes false (runes (bytes_of s)).

Section Resolve.
(** The Unicode lower-case table above ASCII. *)
Context (uni_lower : Z -> Z).

(** [validateParam] *)
Definition validateParam (p : Param) (val : string) : result action_err string :=
  let ty := ToLower uni_lower (TrimSpace (Type_ p)) in
  if String.eqb ty "int" then
    match ParseInt64 (TrimSpace val) with
    | None => Err (MustBeInteger (Name p))
    | Some _ => Ok (TrimSpace val)
    end
  else if String.eqb ty "bool" then
    let v := ToLower uni_lower (TrimSpace val) in
    if String.eqb v "true" || String.eqb v "false" then Ok v else Err (MustBeBool (Name p))
  else if String.eqb ty "enum" then
    if existsb (String.eqb val) (Enum p) then Ok val else Err (MustBeOption (Name p))
  else
    match CheckText val with
    | Err _ => Err (NoControlChars (Name p))
    | Ok _ =>
        if 512 <? Z.of_nat (rune_count (bytes_of val)) then Err (TooLong (Name p)) else Ok val
    end.

(** One round of the loop of [Resolve]: the value stored for [p]. *)
Definition resolveParam (got : gmap string string) (p : Param) : result action_err string :=
  let given := got !! Name p in
  if Required p && bool_decide (given = Some EmptyString) then Err (ParamRequired (Name p))
  else
    let val :=
      match given with
      | Some v => if String.eqb v "" then Default p else v
      | None => Default p
      end in
    if Required p && String.eqb (TrimSpace val) "" then Err (ParamRequired (Name p))
    else if String.eqb val "" then Ok EmptyString
    else validateParam p val.

Fixpoint resolveLoop (decls : list Param) (got out : gmap string string)
  : result action_err (gmap string string) :=
  match decls with
  | [] => Ok out
  | p :: rest =>
      v ← resolveParam got p;
      resolveLoop rest got (<[Name p := v]> out)
  end.

(** [Resolve] *)
Definition Resolve (decls : list Param) (got : gmap string string) := resolveLoop decls got ∅.

(** ** Facts *)

(** The bytes the policy lets through. *)
Definition safe_byte (b : Z) : Prop := is_control b = false /\ is_meta b = false.

Lemma check_runes_spec rs : Forall (fun r => 0 <= r) rs -> forall meta,
  check_runes meta rs =
  if existsb is_control rs then Err ErrControlChar
  else if meta || existsb is_meta rs then Err ErrMetaChar else Ok tt.
Proof.
  induction 1 as [|r rs Hr _ IH]; intros meta; simpl; [by rewrite orb_false_r|].
  destruct (is_control r); [done|]. simpl. rewrite IH.
  destruct (existsb is_control rs); [done|]. by rewrite orb_assoc.
Qed.

(** A test that only ASCII satisfies sees the same on bytes and on runes. *)
Lemma existsb_runes (P : Z -> bool) s :
  (forall r, 0 <= r -> P r = true -> r < 0x80) ->
  existsb P (runes (bytes_of s)) = existsb P (bytes_of s).
Proof.
  intros HP. pose proof (bytes_of_range s) as Hb. pose proof (runes_nonneg _ Hb) as Hr.
  apply eq_true_iff_eq. rewrite !existsb_exists.
  split; intros (x & Hx & Px); exists x; (split; [|done]); apply list_elem_of_In; apply list_elem_of_In in Hx.
  - rewrite Forall_forall in Hr. apply runes_ascii; auto.
  - apply runes_ascii; [|done|done]. apply HP; [|done].
    rewrite Forall_forall in Hb. specialize (Hb x Hx). unfold is_byte in Hb. lia.
Qed.

Lemma control_ascii r : 0 <= r -> is_control r = true -> r < 0x80.
Proof. unfold is_control. intros. by zbool; try lia. Qed.

Lemma meta_ascii r : 0 <= r -> is_meta r = true -> r < 0x80.
Proof. unfold is_meta. intros. by zbool; try lia. Qed.

Lemma CheckText_bytes s :
  CheckText s =
  if existsb is_control (bytes_of s) then Err ErrControlChar
  else if existsb is_meta (bytes_of s) then Err ErrMetaChar else Ok tt.
Proof.
  unfold CheckText. rewrite check_runes_spec by (apply runes_nonneg, bytes_of_range).
  rewrite (existsb_runes is_control) by apply control_ascii.
  by rewrite (existsb_runes is_meta) by apply meta_ascii.
Qed.

Lemma existsb_false_Forall {A} (P : A -> bool) l : existsb P l = false -> Forall (fun x => P x = false) l.
Proof. induction l; simpl; [constructor|]. rewrite orb_false_iff. intros [??]. constructor; auto. Qed.

Lemma CheckText_safe s : CheckText s = Ok tt -> Forall safe_byte (bytes_of s).
Proof.
  rewrite CheckText_bytes. destruct (existsb is_control _) eqn:E1; [done|].
  destruct (existsb is_meta _) eqn:E2; [done|]. intros _.
  apply existsb_false_Forall in E1, E2. rewrite Forall_forall in *.
  intros b Hb. split; auto.
Qed.

Lemma int_char_safe b : int_char b = true -> safe_byte b.
Proof.
  intros H. assert (Hb : is_byte b).
  { unfold int_char, is_digit, in_range, is_byte in *. zbool; lia || done. }
  assert (E : negb (int_char b) || negb (is_control b || is_meta b) = true)
    by (revert b Hb H; intros b Hb _; revert b Hb;
        by apply (byte_forall (fun b => negb (int_char b) || negb (is_control b || is_meta b)))).
  rewrite H in E. simpl in E. apply negb_true_iff, orb_false_iff in E. done.
Qed.

(** What a resolved value may be: empty when optional, a declared option, or
    text without a control character or metacharacter. *)
Definition resolved_ok (p : Param) (v : string) : Prop :=
  let ty := ToLower uni_lower (TrimSpace (Type_ p)) in
  (Required p = true -> v <> EmptyString) /\
  (v = EmptyString \/ (ty = "enum" /\ v ∈ Enum p) \/
   (ty <> "enum" /\ Forall safe_byte (bytes_of v) /\
    (ty = "int" /\ is_Some (ParseInt64 v) \/
     ty = "bool" /\ (v = "true" \/ v = "false") \/
     ty <> "int" /\ ty <> "bool" /\ (rune_count (bytes_of v) <= 512)%nat))).

Lemma validateParam_ok p val v : val <> EmptyString ->
  validateParam p val = Ok v -> resolved_ok p v.
Proof.
  intros Hne. unfold validateParam, resolved_ok. cbv zeta.
  generalize (ToLower uni_lower (TrimSpace (Type_ p))) as ty. intros ty.
  destruct (String.eqb_spec ty "int") as [->|Hi].
  { destruct (ParseInt64 (TrimSpace val)) as [n|] eqn:E; [|done]. intros; inv_ok. split.
    - intros _ Hv. rewrite Hv in E. discriminate E.
    - right; right. split; [done|]. split; [|eauto].
      eapply Forall_impl; [by eapply ParseInt64_chars|]. apply int_char_safe. }
  destruct (String.eqb_spec ty "bool") as [->|Hb].
  { intros H. set (w := ToLower uni_lower (TrimSpace val)) in H.
    assert (Hw : w = v /\ (v = "true" \/ v = "false")).
    { destruct (String.eqb_spec w "true"); [|destruct (String.eqb_spec w "false")];
        simpl in H; inv_ok; auto. }
    destruct Hw as [_ Hv]. split; [destruct Hv as [->| ->]; done|].
    right; right. split; [done|]. split; [|auto].
    destruct Hv as [->| ->]; repeat constructor. }
  destruct (String.eqb_spec ty "enum") as [->|He].
  { destruct (existsb (String.eqb val) (Enum p)) eqn:E; [|done]. intros; inv_ok. split; [done|].
    right; left. split; [done|]. apply existsb_exists in E as (x & Hx & Heq).
    apply String.eqb_eq in Heq as ->. by apply list_elem_of_In. }
  destruct (CheckText val) as [[]|e] eqn:E; [|done].
  destruct (Z.ltb_spec 512 (Z.of_nat (rune_count (bytes_of val)))); [done|]. intros; inv_ok.
  split; [done|]. right; right. apply CheckText_safe in E.
  split_and!; [done|done|]. right; right. split_and!; [done|done|lia].
Qed.

Lemma resolveParam_ok got p v : resolveParam got p = Ok v -> resolved_ok p v.
Proof.
  unfold resolveParam. destruct (Required p && bool_decide _); [done|].
  set (val := match got !! Name p with Some v => if String.eqb v "" then Default p else v | None => Default p end).
  destruct (Required p && String.eqb (TrimSpace val) "") eqn:Er; [done|].
  destruct (String.eqb_spec val "") as [E|E]; intros H.
  - inv_ok. split; [|by left]. intros Hreq. rewrite Hreq, E in Er. done.
  - by eapply validateParam_ok.
Qed.

Lemma resolveLoop_ok decls got : forall out0 out,
  resolveLoop decls got out0 = Ok out ->
  dom out = dom out0 ∪ list_to_set (map Name decls) /\
  forall k v, out !! k = Some v ->
    out0 !! k = Some v \/ exists p, p ∈ decls /\ Name p = k /\ resolveParam got p = Ok v.
Proof.
  induction decls as [|p decls IH]; intros out0 out H; cbn in H.
  - inv_ok. split; [set_solver|eauto].
  - unfold mbind, result_bind in H. destruct (resolveParam got p) as [v|e] eqn:E; [|done].
    apply IH in H as [Hd Hl]. split.
    + rewrite Hd, dom_insert_L. set_solver.
    + intros k w Hw. destruct (Hl k w Hw) as [Hk|(q & Hq & Hn & Hr)].
      * apply lookup_insert_Some in Hk as [[<- <-]|[_ ?]]; [|by left].
        right. exists p. set_solver.
      * right. exists q. set_solver.
Qed.

End Resolve.

(** ** Properties *)

(** The character policy on bytes: although [CheckText] walks runes, it
    answers as if it looked at the bytes, also on invalid UTF-8. A control
    byte anywhere wins, then a metacharacter byte anywhere, else the text is
    accepted; no encoding smuggles one past it. *)
Lemma checktext_bytewise s :
  (CheckText s = Err ErrControlChar <-> exists b, b ∈ bytes_of s /\ (b < 0x20 \/ b = 0x7f)) /\
  (CheckText s = Ok tt <-> Forall safe_byte (bytes_of s)).
Proof.
  split.
  - rewrite CheckText_bytes. destruct (existsb is_control (bytes_of s)) eqn:E.
    + apply existsb_exists in E as (b & Hb & Hc). split; [|done]. intros _.
      exists b. split; [by apply list_elem_of_In|]. unfold is_control in Hc. by zbool; auto.
    + split; [by case_match|]. intros (b & Hb & Hc). apply existsb_false_Forall in E.
      rewrite Forall_forall in E. specialize (E b Hb). unfold is_control in E. zbool; lia || done.
  - split; [apply CheckText_safe|]. intros H. rewrite CheckText_bytes.
    assert (H1 : existsb is_control (bytes_of s) = false).
    { apply not_true_iff_false. intros (b & Hb & Hc)%existsb_exists.
      rewrite Forall_forall in H. destruct (H b ltac:(by apply list_elem_of_In)). congruence. }
    assert (H2 : existsb is_meta (bytes_of s) = false).
    { apply not_true_iff_false. intros (b & Hb & Hc)%existsb_exists.
      rewrite Forall_forall in H. destruct (H b ltac:(by apply list_elem_of_In)). congruence. }
    by rewrite H1, H2.
Qed.

(** Injection safety: a successful [Resolve] holds exactly the declared
    parameters, whatever keys the caller sent; each value is empty (optional
    parameters only), one of the options its declaration lists, or free of
    control characters and metacharacters and of the declared type. *)
Lemma resolve_injection_safe uni_lower decls got out :
  Resolve uni_lower decls got = Ok out ->
  dom out = list_to_set (map Name decls) /\
  forall k v, out !! k = Some v ->
    exists p, p ∈ decls /\ Name p = k /\ resolved_ok uni_lower p v.
Proof.
  intros H. apply resolveLoop_ok in H as [Hd Hl]. split; [set_solver|].
  intros k v Hk. destruct (Hl k v Hk) as [?|(p & ? & ? & ?)]; [by rewrite lookup_empty in H|].
  exists p. split_and!; [done|done|]. by eapply resolveParam_ok.
Qed.

(** *** Witnesses *)

Definition demo_decls : list Param :=
  [MkParam "msg" "" EmptyString [] true; MkParam "secs" "int" "60" [] false;
   MkParam "kind" "enum" EmptyString ["clear"; "rain"] false].
Definition demo_got : gmap string string := <["msg" := "hello"]> (<["kind" := "rain"]> ∅).

Definition demo_out : gmap string string :=
  <["msg" := "hello"]> (<["secs" := "60"]> (<["kind" := "rain"]> ∅)).

Lemma resolve_injection_safe_witness :
  Resolve (fun r => r) demo_decls demo_got = Ok demo_out /\
  dom demo_out = list_to_set (map Name demo_decls).
Proof.
  assert (H : Resolve (fun r => r) demo_decls demo_got = Ok demo_out)
    by (vm_compute; reflexivity).
  exact (conj H (proj1 (resolve_injection_safe (fun r => r) demo_decls demo_got demo_out H))).
Defined.
