(* ===== verification/Netguard.v ===== *)
(** * netguard: the outbound dial guard

    The two address policies of src/netguard/netguard.go, [IsAllowed] (permissive)
    and [IsPublic] (strict), over Go's [net.IP] predicates, and the two places
    that enforce a policy: the dial hook and the pre-flight host check. *)

From S2P Require Import Prelude GoText.
Local Open Scope Z_scope.

(** ** Go [net.IP]: a slice of 4 or 16 bytes *)

Definition ip_bytes := list Z.
Definition v4InV6Prefix : list Z := [0; 0; 0; 0; 0; 0; 0; 0; 0; 0; 255; 255].
Definition IPv4zero : list Z := v4InV6Prefix ++ [0; 0; 0; 0].
Definition IPv6unspecified : list Z := repeat 0 16.
Definition IPv6loopback : list Z := repeat 0 15 ++ [1].

Definition byte_at (ip : list Z) (i : nat) : Z := nth i ip 0.
Definition bytes_eqb (a b : list Z) : bool := bool_decide (a = b).

(** [ip.To4()] *)
Definition To4 (ip : list Z) : option (list Z) :=
  if (length ip =? 4)%nat then Some ip
  else if (length ip =? 16)%nat && bytes_eqb (take 12 ip) v4InV6Prefix
  then Some (drop 12 ip) else None.

(** [ip.Equal(x)] *)
Definition Equal (ip x : list Z) : bool :=
  if (length ip =? length x)%nat then bytes_eqb ip x
  else if (length ip =? 4)%nat && (length x =? 16)%nat
  then bytes_eqb (take 12 x) v4InV6Prefix && bytes_eqb ip (drop 12 x)
  else if (length ip =? 16)%nat && (length x =? 4)%nat
  then bytes_eqb (take 12 ip) v4InV6Prefix && bytes_eqb (drop 12 ip) x
  else false.

Definition IsUnspecified (ip : list Z) : bool := Equal ip IPv4zero || Equal ip IPv6unspecified.

Definition IsLoopback (ip : list Z) : bool :=
  match To4 ip with
  | Some v4 => byte_at v4 0 =? 127
  | None => Equal ip IPv6loopback
  end.

Definition IsPrivate (ip : list Z) : bool :=
  match To4 ip with
  | Some v4 =>
      (byte_at v4 0 =? 10) ||
      ((byte_at v4 0 =? 172) && (Z.land (byte_at v4 1) 0xf0 =? 16)) ||
      ((byte_at v4 0 =? 192) && (byte_at v4 1 =? 168))
  | None => (length ip =? 16)%nat && (Z.land (byte_at ip 0) 0xfe =? 0xfc)
  end.

Definition IsMulticast (ip : list Z) : bool :=
  match To4 ip with
  | Some v4 => Z.land (byte_at v4 0) 0xf0 =? 0xe0
  | None => (length ip =? 16)%nat && (byte_at ip 0 =? 0xff)
  end.

Definition IsInterfaceLocalMulticast (ip : list Z) : bool :=
  (length ip =? 16)%nat && (byte_at ip 0 =? 0xff) && (Z.land (byte_at ip 1) 0x0f =? 0x01).

Definition IsLinkLocalMulticast (ip : list Z) : bool :=
  match To4 ip with
  | Some v4 => (byte_at v4 0 =? 224) && (byte_at v4 1 =? 0) && (byte_at v4 2 =? 0)
  | None => (length ip =? 16)%nat && (byte_at ip 0 =? 0xff) && (Z.land (byte_at ip 1) 0x0f =? 0x02)
  end.

Definition IsLinkLocalUnicast (ip : list Z) : bool :=
  match To4 ip with
  | Some v4 => (byte_at v4 0 =? 169) && (byte_at v4 1 =? 254)
  | None => (length ip =? 16)%nat && (byte_at ip 0 =? 0xfe) && (Z.land (byte_at ip 1) 0xc0 =? 0x80)
  end.

(** [*net.IPNet] as [net.ParseCIDR] builds it: the masked address and the number
    of leading ones of the mask. *)
Record IPNet := MkNet { nIP : list Z; nOnes : nat }.

(** [net.CIDRMask(ones, 8 * n)]: the mask bytes. *)
Fixpoint CIDRMask (n ones : nat) : list Z :=
  match n with
  | O => []
  | S n' =>
      if (8 <=? ones)%nat then 255 :: CIDRMask n' (ones - 8)
      else u8 (Z.lnot (Z.shiftr 255 (Z.of_nat ones))) :: CIDRMask n' 0
  end.

Fixpoint masked_eq (nn m ip : list Z) : bool :=
  match nn, m, ip with
  | a :: nn', k :: m', b :: ip' => (Z.land a k =? Z.land b k) && masked_eq nn' m' ip'
  | _, _, _ => true
  end.

(** [n.Contains(ip)] *)
Definition Contains (n : IPNet) (ip : list Z) : bool :=
  let ip := default ip (To4 ip) in
  (length ip =? length (nIP n))%nat &&
  masked_eq (nIP n) (CIDRMask (length (nIP n)) (nOnes n)) ip.

(** ** The policies *)

(** [normalize] *)
Definition normalize (ip : list Z) : list Z :=
  match To4 ip with
  | Some v4 => v4
  | None =>
      if (length ip =? 16)%nat && Equal (take 12 ip) (repeat 0 12) then drop 12 ip else ip
  end.

(** [blockedV6Prefixes] *)
Definition blockedV6Prefixes : list IPNet :=
  [MkNet ([0; 100; 255; 155] ++ repeat 0 12) 96;
   MkNet ([0; 100; 255; 155; 0; 1] ++ repeat 0 10) 48;
   MkNet ([32; 2] ++ repeat 0 14) 16].

(** [metadataAddrs]; [net.ParseIP] gives 16 bytes. *)
Definition metadataAddrs : list (list Z) :=
  [[253; 0; 14; 194] ++ repeat 0 10 ++ [2; 84];
   v4InV6Prefix ++ [100; 100; 100; 200]].

(** [reservedBlocks] *)
Definition reservedBlocks : list IPNet :=
  [MkNet [0; 0; 0; 0] 8;
   MkNet [100; 64; 0; 0] 10;
   MkNet [192; 0; 0; 0] 24;
   MkNet [192; 0; 2; 0] 24;
   MkNet [198; 18; 0; 0] 15;
   MkNet [198; 51; 100; 0] 24;
   MkNet [203; 0; 113; 0] 24;
   MkNet [240; 0; 0; 0] 4;
   MkNet ([0; 100; 255; 155] ++ repeat 0 12) 96;
   MkNet ([0; 100; 255; 155; 0; 1] ++ repeat 0 10) 48;
   MkNet ([32; 1; 13; 184] ++ repeat 0 12) 32;
   MkNet ([32; 2] ++ repeat 0 14) 16;
   MkNet ([1; 0] ++ repeat 0 14) 64;
   MkNet ([254; 192] ++ repeat 0 14) 10].

(** [IsAllowed]; [None] is the nil [net.IP]. *)
Definition IsAllowed (ip : option (list Z)) : bool :=
  match ip with
  | None => false
  | Some ip =>
      let norm := normalize ip in
      if IsUnspecified norm || IsMulticast norm || IsInterfaceLocalMulticast norm ||
         IsLinkLocalUnicast norm || IsLinkLocalMulticast norm then false
      else if existsb (Equal norm) metadataAddrs then false
      else negb (existsb (fun blk => Contains blk norm) blockedV6Prefixes)
  end.

(** [IsPublic] *)
Definition IsPublic (ip : option (list Z)) : bool :=
  match ip with
  | None => false
  | Some ip =>
      let norm := normalize ip in
      if IsLoopback ip || IsLoopback norm || IsPrivate norm || IsUnspecified norm ||
         IsLinkLocalUnicast norm || IsLinkLocalMulticast norm || IsMulticast norm then false
      else negb (existsb (fun blk => Contains blk norm) reservedBlocks)
  end.

(** ** Enforcement *)

Section Enforce.
(** [net.ParseIP], [net.SplitHostPort] and the resolver; the error of the latter
    two is opaque. *)
Context {neterr : Type}.
Context (ParseIP : string -> option (list Z)).
Context (SplitHostPort : string -> result neterr (string * string)).
Context (LookupIPAddr : string -> result neterr (list (option (list Z)))).
Context (uni_lower : Z -> Z).

Inductive guard_err := ErrBlockedAddr | NetErr (e : neterr).

(** [HostIsMetadata] *)
Definition HostIsMetadata (host : string) : bool :=
  let h := ToLower uni_lower (TrimSuffix host ".") in
  String.eqb h "metadata.google.internal" || String.eqb h "metadata".

(** The hook [dialControl(allow)], called with the resolved address. *)
Definition dialControl (allow : option (list Z) -> bool) (addr : string) : result guard_err unit :=
  match SplitHostPort addr with
  | Err e => Err (NetErr e)
  | Ok (host, _) =>
      match ParseIP host with
      | None => Err ErrBlockedAddr
      | Some ip => if allow (Some ip) then Ok tt else Err ErrBlockedAddr
      end
  end.

(** [CheckHostAllowed] *)
Definition CheckHostAllowed (host : string) (allow : option (list Z) -> bool) : result guard_err unit :=
  if String.eqb host "" then Err ErrBlockedAddr
  else if HostIsMetadata host then Err ErrBlockedAddr
  else match ParseIP host with
  | Some ip => if allow (Some ip) then Ok tt else Err ErrBlockedAddr
  | None =>
      match LookupIPAddr host with
      | Err e => Err (NetErr e)
      | Ok [] => Err ErrBlockedAddr
      | Ok addrs => if forallb allow addrs then Ok tt else Err ErrBlockedAddr
      end
  end.
End Enforce.
