(* ===== verification/NetguardFacts.v ===== *)
(** * Properties of the dial guard

    Both policies are shown equal to a specification that is independent of the
    byte tests: membership of the address, read as a number, in a list of
    intervals.  [Contains_spec] relates a CIDR test to an interval once and for
    all; the inclusion of the strict policy in the permissive one and the
    treatment of embedded IPv4 addresses then follow from the intervals. *)

From S2P Require Import Prelude GoText Netguard.
Local Open Scope Z_scope.

(** ** Addresses as numbers *)

Fixpoint be_val (l : list Z) : Z :=
  match l with
  | [] => 0
  | b :: l' => b * 2 ^ (8 * Z.of_nat (length l')) + be_val l'
  end.

Lemma be_val_range l : Forall is_byte l -> 0 <= be_val l < 2 ^ (8 * Z.of_nat (length l)).
Proof.
  induction 1 as [|b l Hb Hl IH]; [simpl; lia|].
  cbn [be_val length]. unfold is_byte in Hb.
  replace (8 * Z.of_nat (S (length l))) with (8 + 8 * Z.of_nat (length l)) by lia.
  rewrite Z.pow_add_r by lia. change (2 ^ 8) with 256. nia.
Qed.

Lemma be_val_app a b : be_val (a ++ b) = be_val a * 2 ^ (8 * Z.of_nat (length b)) + be_val b.
Proof.
  induction a as [|x a IH]; cbn [be_val app]; [lia|]. rewrite IH, length_app, Nat2Z.inj_add.
  rewrite Z.mul_add_distr_l, Z.pow_add_r by lia. ring.
Qed.

(** Two digits in base [M] determine each other. *)
Lemma digits_eq a b x y M : 0 <= x < M -> 0 <= y < M -> a * M + x = b * M + y <-> a = b /\ x = y.
Proof. intros. split; [intros; assert (a = b) by nia; lia|intros [-> ->]; done]. Qed.

Lemma be_val_inj a b : length a = length b -> Forall is_byte a -> Forall is_byte b ->
  be_val a = be_val b <-> a = b.
Proof.
  intros Hlen Ha. revert b Hlen. induction Ha as [|x a Hx Ha IH]; intros [|y b] Hlen Hb; try done.
  apply Forall_cons in Hb as [Hy Hb]. simpl in Hlen. injection Hlen as Hlen.
  cbn [be_val]. rewrite Hlen.
  pose proof (be_val_range a Ha) as Ra. rewrite Hlen in Ra.
  rewrite digits_eq by (done || by apply be_val_range). rewrite IH by done.
  split; [intros [-> ->]; done|intros [= -> ->]; done].
Qed.

(** ** CIDR containment *)

Lemma mask_byte ones b : (ones < 8)%nat -> is_byte b ->
  Z.land b (u8 (Z.lnot (Z.shiftr 255 (Z.of_nat ones)))) =
  b / 2 ^ (8 - Z.of_nat ones) * 2 ^ (8 - Z.of_nat ones).
Proof.
  intros Ho Hb. apply Z.eqb_eq. revert b Hb.
  assert (H : forallb (fun o => forallb (fun b =>
    Z.land b (u8 (Z.lnot (Z.shiftr 255 (Z.of_nat o)))) =?
    b / 2 ^ (8 - Z.of_nat o) * 2 ^ (8 - Z.of_nat o)) (seqZ 0 256)) (seq 0 8) = true) by done.
  rewrite forallb_forall in H. intros b Hb. apply (byte_forall _ (H ones ltac:(apply in_seq; lia)) b Hb).
Qed.

Lemma masked_eq_zero nn ip : length nn = length ip -> masked_eq nn (CIDRMask (length nn) 0) ip = true.
Proof.
  revert ip. induction nn as [|a nn IH]; intros [|b ip] H; try done. simpl.
  rewrite !Z.land_0_r. simpl. auto.
Qed.

Lemma masked_eq_spec nn : forall ip ones, length ip = length nn ->
  Forall is_byte nn -> Forall is_byte ip -> (ones <= 8 * length nn)%nat ->
  let k := 8 * Z.of_nat (length nn) - Z.of_nat ones in
  masked_eq nn (CIDRMask (length nn) ones) ip = true <-> be_val nn / 2 ^ k = be_val ip / 2 ^ k.
Proof.
  induction nn as [|a nn IH]; intros [|b ip] ones Hlen Hnn Hip Ho k; try done.
  apply Forall_cons in Hnn as [Ha Hnn], Hip as [Hb Hip]. simpl in Hlen. injection Hlen as Hlen.
  pose proof (be_val_range nn Hnn) as Rn. pose proof (be_val_range ip Hip) as Ri. rewrite Hlen in Ri.
  cbn [length] in Ho, k. cbn [masked_eq CIDRMask length be_val]. rewrite Hlen.
  set (w := 8 * Z.of_nat (length nn)) in *.
  destruct (Nat.leb_spec 8 ones) as [H8|H8]; cbn [masked_eq]; rewrite andb_true_iff, Z.eqb_eq.
  - rewrite IH by (auto; lia). change 255 with (Z.ones 8). rewrite !Z.land_ones by lia.
    unfold is_byte in Ha, Hb. rewrite !Z.mod_small by (change (2 ^ 8) with 256; lia).
    assert (Hk : w - Z.of_nat (ones - 8) = k) by lia. fold w. rewrite Hk.
    assert (Hw : 2 ^ w = 2 ^ (w - k) * 2 ^ k) by (rewrite <- Z.pow_add_r by lia; f_equal; lia).
    assert (Hp : 0 < 2 ^ k) by lia.
    rewrite Hw, !Z.mul_assoc, !Z.div_add_l by lia.
    assert (Hd : forall x, 0 <= x < 2 ^ w -> 0 <= x / 2 ^ k < 2 ^ (w - k)).
    { intros x Hx. split; [apply Z.div_pos; lia|]. apply Z.div_lt_upper_bound; lia. }
    rewrite digits_eq by auto. done.
  - rewrite masked_eq_zero by done. rewrite !mask_byte by (done || lia).
    assert (Hk : k = w + (8 - Z.of_nat ones)) by lia.
    rewrite Hk, Z.pow_add_r, <- !Z.div_div by lia.
    rewrite !Z.div_add_l by lia. rewrite !(Z.div_small _ (2 ^ w)) by done. rewrite !Z.add_0_r.
    set (M := 2 ^ (8 - Z.of_nat ones)). assert (0 < M) by (unfold M; lia). nia.
Qed.

Lemma div_eq_interval lo n k : 0 <= k -> lo mod 2 ^ k = 0 ->
  lo / 2 ^ k = n / 2 ^ k <-> lo <= n <= lo + 2 ^ k - 1.
Proof.
  intros Hk Hlo. assert (0 < 2 ^ k) by lia.
  pose proof (Z.div_mod lo (2 ^ k) ltac:(lia)). pose proof (Z.div_mod n (2 ^ k) ltac:(lia)).
  pose proof (Z.mod_pos_bound n (2 ^ k) ltac:(lia)). nia.
Qed.

(** A block whose address is masked, as [net.ParseCIDR] leaves it. *)
Definition net_ok (blk : IPNet) : bool :=
  forallb (fun b => in_range 0 255 b) (nIP blk) &&
  (nOnes blk <=? 8 * length (nIP blk))%nat &&
  (be_val (nIP blk) mod 2 ^ (8 * Z.of_nat (length (nIP blk)) - Z.of_nat (nOnes blk)) =? 0).

(** A block as an interval. *)
Definition net_interval (blk : IPNet) : Z * Z :=
  (be_val (nIP blk),
   be_val (nIP blk) + 2 ^ (8 * Z.of_nat (length (nIP blk)) - Z.of_nat (nOnes blk)) - 1).

Definition within (n : Z) (i : Z * Z) : bool := in_range i.1 i.2 n.

Lemma Contains_same blk ip : net_ok blk = true -> Forall is_byte ip ->
  (length ip = 4 \/ To4 ip = None)%nat -> length ip = length (nIP blk) ->
  Contains blk ip = within (be_val ip) (net_interval blk).
Proof.
  unfold net_ok. rewrite !andb_true_iff, Nat.leb_le, Z.eqb_eq. intros [[Hb Ho] Hm] Hip H4 Hlen.
  assert (Hnn : Forall is_byte (nIP blk)).
  { apply Forall_forall. intros b Hin. rewrite forallb_forall in Hb.
    specialize (Hb b ltac:(by apply list_elem_of_In)). apply in_range_spec in Hb.
    unfold is_byte. lia. }
  unfold Contains. replace (default ip (To4 ip)) with ip.
  2:{ destruct H4 as [H4| ->]; [|done]. unfold To4. by rewrite H4. }
  rewrite Hlen, Nat.eqb_refl. cbn [andb].
  apply eq_true_iff_eq. rewrite masked_eq_spec by done.
  rewrite div_eq_interval by (done || lia). unfold within, net_interval. cbn [fst snd].
  by rewrite in_range_spec.
Qed.

Lemma Contains_other blk ip : (length ip = 4 \/ To4 ip = None)%nat ->
  length ip <> length (nIP blk) -> Contains blk ip = false.
Proof.
  intros H4 Hlen. unfold Contains. replace (default ip (To4 ip)) with ip.
  - apply andb_false_iff. left. by apply Nat.eqb_neq.
  - destruct H4 as [H4| ->]; [|done]. unfold To4. by rewrite H4.
Qed.

(** Only the blocks of the address's own length matter, and as intervals. *)
Lemma existsb_Contains blks ip : forallb net_ok blks = true -> Forall is_byte ip ->
  (length ip = 4 \/ To4 ip = None)%nat ->
  existsb (fun blk => Contains blk ip) blks =
  existsb (within (be_val ip))
    (map net_interval (List.filter (fun blk => (length (nIP blk) =? length ip)%nat) blks)).
Proof.
  intros Hok Hip H4. induction blks as [|blk blks IH]; simpl in *; [done|].
  apply andb_true_iff in Hok as [Hb Hok]. rewrite IH by done.
  destruct (Nat.eqb_spec (length (nIP blk)) (length ip)) as [E|E]; simpl.
  - by rewrite Contains_same.
  - by rewrite Contains_other.
Qed.

(** ** The specification *)

(** An address for the policies: IPv4-mapped and IPv4-compatible addresses are
    the IPv4 address they embed. *)
Inductive addr := V4 (n : Z) | V6 (n : Z).

Definition addr_of (ip : list Z) : addr :=
  let n := be_val ip in
  if (length ip =? 4)%nat then V4 n
  else if (n / 2 ^ 32 =? 0xffff) || (n / 2 ^ 32 =? 0) then V4 (n mod 2 ^ 32)
  else V6 n.

Definition ip4 (a b c d : Z) : Z := a * 2 ^ 24 + b * 2 ^ 16 + c * 2 ^ 8 + d.
(** The interval of the IPv6 prefix [n::/len], [n] given as its first three
    groups. *)
Definition pfx6 (a b c len : Z) : Z * Z :=
  let lo := a * 2 ^ 112 + b * 2 ^ 96 + c * 2 ^ 80 in (lo, lo + 2 ^ (128 - len) - 1).

(** Not globally routable. *)
Definition nonpublic4 : list (Z * Z) :=
  [(ip4 0 0 0 0, ip4 0 255 255 255); (ip4 10 0 0 0, ip4 10 255 255 255);
   (ip4 100 64 0 0, ip4 100 127 255 255); (ip4 127 0 0 0, ip4 127 255 255 255);
   (ip4 169 254 0 0, ip4 169 254 255 255); (ip4 172 16 0 0, ip4 172 31 255 255);
   (ip4 192 0 0 0, ip4 192 0 0 255); (ip4 192 0 2 0, ip4 192 0 2 255);
   (ip4 192 168 0 0, ip4 192 168 255 255); (ip4 198 18 0 0, ip4 198 19 255 255);
   (ip4 198 51 100 0, ip4 198 51 100 255); (ip4 203 0 113 0, ip4 203 0 113 255);
   (ip4 224 0 0 0, ip4 239 255 255 255);
   (ip4 240 0 0 0, ip4 255 255 255 255)].
Definition nonpublic6 : list (Z * Z) :=
  [pfx6 0x64 0xff9b 0 96; pfx6 0x64 0xff9b 1 48; pfx6 0x100 0 0 64; pfx6 0x2001 0xdb8 0 32;
   pfx6 0x2002 0 0 16; pfx6 0xfc00 0 0 7; pfx6 0xfe80 0 0 10; pfx6 0xfec0 0 0 10;
   pfx6 0xff00 0 0 8].

(** Refused even to administrators. *)
Definition forbidden4 : list (Z * Z) :=
  [(ip4 0 0 0 0, ip4 0 0 0 0); (ip4 100 100 100 200, ip4 100 100 100 200);
   (ip4 169 254 0 0, ip4 169 254 255 255); (ip4 224 0 0 0, ip4 239 255 255 255)].
Definition forbidden6 : list (Z * Z) :=
  [pfx6 0x64 0xff9b 0 96; pfx6 0x64 0xff9b 1 48; pfx6 0x2002 0 0 16; pfx6 0xfe80 0 0 10;
   pfx6 0xff00 0 0 8;
   (0xfd00 * 2 ^ 112 + 0xec2 * 2 ^ 96 + 0x254, 0xfd00 * 2 ^ 112 + 0xec2 * 2 ^ 96 + 0x254)].

Definition avoids (l4 l6 : list (Z * Z)) (a : addr) : bool :=
  match a with
  | V4 n => negb (existsb (within n) l4)
  | V6 n => negb (existsb (within n) l6)
  end.
Definition public_spec : addr -> bool := avoids nonpublic4 nonpublic6.
Definition allowed_spec : addr -> bool := avoids forbidden4 forbidden6.

(** A [net.IP] as the resolver and [net.ParseIP] produce it. *)
Definition ip_ok (ip : list Z) : Prop :=
  Forall is_byte ip /\ (length ip = 4 \/ length ip = 16)%nat.

(** ** Normalisation *)

Lemma bytes_eqb_val a b : length a = length b -> Forall is_byte a -> Forall is_byte b ->
  bytes_eqb a b = (be_val a =? be_val b).
Proof.
  intros. unfold bytes_eqb. apply eq_true_iff_eq.
  by rewrite bool_decide_eq_true, Z.eqb_eq, be_val_inj.
Qed.

Ltac bytes_const := repeat constructor; unfold is_byte; lia.

Lemma split_val ip : Forall is_byte ip -> length ip = 16%nat ->
  be_val (take 12 ip) = be_val ip / 2 ^ 32 /\ be_val (drop 12 ip) = be_val ip mod 2 ^ 32.
Proof.
  intros Hip Hlen.
  assert (Hd : length (drop 12 ip) = 4%nat) by (rewrite length_drop; lia).
  pose proof (be_val_range (drop 12 ip) ltac:(by apply Forall_drop)) as R. rewrite Hd in R.
  pose proof (be_val_app (take 12 ip) (drop 12 ip)) as Happ. rewrite take_drop, Hd in Happ.
  change (2 ^ (8 * Z.of_nat 4)) with (2 ^ 32) in *. rewrite Happ.
  split; [apply Z.div_unique_pos with (be_val (drop 12 ip)); lia|].
  apply Z.mod_unique_pos with (be_val (take 12 ip)); lia.
Qed.

(** What [normalize] returns, against [addr_of]. *)
Lemma normalize_addr ip : ip_ok ip ->
  Forall is_byte (normalize ip) /\
  (length (normalize ip) = 4%nat /\ addr_of ip = V4 (be_val (normalize ip)) \/
   normalize ip = ip /\ length ip = 16%nat /\ To4 ip = None /\ addr_of ip = V6 (be_val ip) /\
   be_val ip / 2 ^ 32 <> 0 /\ be_val ip / 2 ^ 32 <> 0xffff).
Proof.
  intros [Hip Hlen]. unfold normalize, To4, addr_of.
  destruct Hlen as [E|E]; rewrite E; cbn [Nat.eqb andb]; [split; [done|auto]|].
  destruct (split_val ip Hip E) as [Ht Hd].
  assert (HT : Forall is_byte (take 12 ip)) by (by apply Forall_take).
  assert (HL : length (take 12 ip) = 12%nat) by (rewrite length_take; lia).
  unfold Equal. rewrite HL. change (length (repeat 0 12)) with 12%nat. cbn [Nat.eqb].
  rewrite !bytes_eqb_val by (done || bytes_const). rewrite !Ht.
  change (be_val v4InV6Prefix) with 0xffff. change (be_val (repeat 0 12)) with 0.
  destruct (Z.eqb_spec (be_val ip / 2 ^ 32) 0xffff); cbn [orb].
  { split; [by apply Forall_drop|left]. split; [rewrite length_drop; lia|by rewrite Hd]. }
  destruct (Z.eqb_spec (be_val ip / 2 ^ 32) 0).
  { split; [by apply Forall_drop|left]. split; [rewrite length_drop; lia|by rewrite Hd]. }
  split; [done|]. right. done.
Qed.

(** ** The predicates on the two kinds of normalised address *)

Lemma land_f0 b : is_byte b -> Z.land b 0xf0 = b / 16 * 16.
Proof. intros Hb. apply Z.eqb_eq. revert b Hb. by apply (byte_forall (fun b => Z.land b 0xf0 =? b / 16 * 16)). Qed.
Lemma land_fe b : is_byte b -> Z.land b 0xfe = b / 2 * 2.
Proof. intros Hb. apply Z.eqb_eq. revert b Hb. by apply (byte_forall (fun b => Z.land b 0xfe =? b / 2 * 2)). Qed.
Lemma land_c0 b : is_byte b -> Z.land b 0xc0 = b / 64 * 64.
Proof. intros Hb. apply Z.eqb_eq. revert b Hb. by apply (byte_forall (fun b => Z.land b 0xc0 =? b / 64 * 64)). Qed.

Lemma list4 {A} (l : list A) : length l = 4%nat -> exists a b c d, l = [a; b; c; d].
Proof. destruct l as [|a [|b [|c [|d [|]]]]]; try done. eauto. Qed.

Lemma within_point m k : within m (k, k) = (m =? k).
Proof.
  apply eq_true_iff_eq. unfold within, in_range. cbn [fst snd].
  rewrite andb_true_iff, !Z.leb_le, Z.eqb_eq. lia.
Qed.

Section Quad.
Context (a b c d : Z) (Ha : is_byte a) (Hb : is_byte b) (Hc : is_byte c) (Hd : is_byte d).
#[local] Set Default Proof Using "All".
Let ip := [a; b; c; d].
Let n := be_val ip.

Lemma quad_val : n = ip4 a b c d.
Proof. unfold n, ip, ip4. cbn [be_val length]. lia. Qed.

Lemma quad_bytes : Forall is_byte ip.
Proof. unfold ip. rewrite !Forall_cons. done. Qed.

Lemma quad_equal x : length x = 16%nat -> Equal ip x =
  bytes_eqb (take 12 x) v4InV6Prefix && bytes_eqb ip (drop 12 x).
Proof. intros H. unfold Equal. by rewrite H. Qed.

Lemma quad_equal_mapped y : length y = 4%nat -> Forall is_byte y ->
  Equal ip (v4InV6Prefix ++ y) = within n (be_val y, be_val y).
Proof.
  intros Hy Hby. rewrite quad_equal by (rewrite length_app, Hy; done).
  rewrite take_app_length' by done. rewrite drop_app_length' by done.
  change (bytes_eqb v4InV6Prefix v4InV6Prefix) with true. cbn [andb].
  rewrite within_point, bytes_eqb_val by (done || apply quad_bytes). done.
Qed.

Lemma quad_unspecified : IsUnspecified ip = within n (ip4 0 0 0 0, ip4 0 0 0 0).
Proof.
  unfold IsUnspecified, IPv4zero. rewrite quad_equal_mapped by (done || bytes_const).
  rewrite quad_equal by done. rewrite orb_false_r. done.
Qed.

Lemma quad_loopback : IsLoopback ip = within n (ip4 127 0 0 0, ip4 127 255 255 255).
Proof.
  rewrite quad_val. unfold IsLoopback, ip, is_byte, within, ip4, in_range in *.
  cbn [To4 length Nat.eqb byte_at nth fst snd].
  apply eq_true_iff_eq. rewrite !andb_true_iff, !Z.eqb_eq, !Z.leb_le. lia.
Qed.

Lemma quad_private : IsPrivate ip =
  existsb (within n) [(ip4 10 0 0 0, ip4 10 255 255 255); (ip4 172 16 0 0, ip4 172 31 255 255);
                      (ip4 192 168 0 0, ip4 192 168 255 255)].
Proof.
  rewrite quad_val. unfold IsPrivate, ip, within, ip4, in_range in *.
  cbn [To4 length Nat.eqb byte_at nth fst snd existsb]. rewrite land_f0 by done. unfold is_byte in *.
  apply eq_true_iff_eq. rewrite orb_false_r, !orb_true_iff, !andb_true_iff, !Z.eqb_eq, !Z.leb_le. Z.to_euclidean_division_equations. lia.
Qed.

Lemma quad_multicast : IsMulticast ip = within n (ip4 224 0 0 0, ip4 239 255 255 255).
Proof.
  rewrite quad_val. unfold IsMulticast, ip, within, ip4, in_range in *.
  cbn [To4 length Nat.eqb byte_at nth fst snd]. rewrite land_f0 by done. unfold is_byte in *.
  apply eq_true_iff_eq. rewrite andb_true_iff, Z.eqb_eq, !Z.leb_le.
  Z.to_euclidean_division_equations. lia.
Qed.

Lemma quad_interface_local : IsInterfaceLocalMulticast ip = false.
Proof. done. Qed.

Lemma quad_linklocal : IsLinkLocalUnicast ip = within n (ip4 169 254 0 0, ip4 169 254 255 255).
Proof.
  rewrite quad_val. unfold IsLinkLocalUnicast, ip, is_byte, within, ip4, in_range in *.
  cbn [To4 length Nat.eqb byte_at nth fst snd].
  apply eq_true_iff_eq. rewrite !andb_true_iff, !Z.eqb_eq, !Z.leb_le. lia.
Qed.

Lemma quad_linklocal_multicast : IsLinkLocalMulticast ip = within n (ip4 224 0 0 0, ip4 224 0 0 255).
Proof.
  rewrite quad_val. unfold IsLinkLocalMulticast, ip, is_byte, within, ip4, in_range in *.
  cbn [To4 length Nat.eqb byte_at nth fst snd].
  apply eq_true_iff_eq. rewrite !andb_true_iff, !Z.eqb_eq, !Z.leb_le. lia.
Qed.

Lemma quad_metadata : existsb (Equal ip) metadataAddrs = within n (ip4 100 100 100 200, ip4 100 100 100 200).
Proof.
  unfold metadataAddrs. cbn [existsb]. rewrite quad_equal_mapped by (done || bytes_const).
  rewrite quad_equal by done. rewrite orb_false_r. done.
Qed.
End Quad.

Section Hexa.
Context (b0 b1 : Z) (r : list Z) (H0 : is_byte b0) (H1 : is_byte b1) (Hr : Forall is_byte r).
Context (Hlen : length r = 14%nat).
#[local] Set Default Proof Using "All".
Let ip := b0 :: b1 :: r.
Let n := be_val ip.
Context (HT : To4 ip = None) (Hz : n / 2 ^ 32 <> 0) (Hm : n / 2 ^ 32 <> 0xffff).

Lemma hexa_val : exists x, 0 <= x < 2 ^ 112 /\ n = b0 * 2 ^ 120 + b1 * 2 ^ 112 + x.
Proof.
  exists (be_val r). pose proof (be_val_range r Hr) as R. rewrite Hlen in R.
  split; [exact R|]. unfold n, ip. cbn [be_val length]. rewrite Hlen. lia.
Qed.

Lemma hexa_len : length ip = 16%nat.
Proof. unfold ip. simpl. lia. Qed.

Lemma hexa_bytes : Forall is_byte ip.
Proof. unfold ip. by rewrite !Forall_cons. Qed.

Lemma hexa_equal x : length x = 16%nat -> Forall is_byte x ->
  Equal ip x = within n (be_val x, be_val x).
Proof.
  intros Hx Hbx. unfold Equal. rewrite hexa_len, Hx. cbn [Nat.eqb].
  rewrite bytes_eqb_val by (rewrite ?hexa_len; auto using hexa_bytes). by rewrite within_point.
Qed.

Lemma hexa_unspecified : IsUnspecified ip = false.
Proof.
  unfold IsUnspecified. rewrite !hexa_equal by (done || bytes_const). rewrite !within_point.
  change (be_val IPv4zero) with (0xffff * 2 ^ 32). change (be_val IPv6unspecified) with 0.
  apply orb_false_iff. rewrite !Z.eqb_neq. split; intros E; rewrite E in *; [by apply Hm|by apply Hz].
Qed.

Lemma hexa_loopback : IsLoopback ip = false.
Proof.
  unfold IsLoopback. rewrite HT, hexa_equal, within_point by (done || bytes_const).
  apply Z.eqb_neq. intros E. rewrite E in Hz. by apply Hz.
Qed.

Ltac hexa_pred :=
  destruct hexa_val as (x & Hx & ->); unfold ip; rewrite ?hexa_len;
  cbn [byte_at nth length]; rewrite ?Hlen; cbn [Nat.eqb andb];
  rewrite ?land_fe, ?land_c0 by done;
  apply eq_true_iff_eq; unfold within, pfx6, in_range; cbn [fst snd];
  rewrite !andb_true_iff, !Z.eqb_eq, !Z.leb_le; unfold is_byte in *;
  Z.to_euclidean_division_equations; lia.

Lemma hexa_private : IsPrivate ip = within n (pfx6 0xfc00 0 0 7).
Proof. unfold IsPrivate. rewrite HT. hexa_pred. Qed.

Lemma hexa_multicast : IsMulticast ip = within n (pfx6 0xff00 0 0 8).
Proof. unfold IsMulticast. rewrite HT. hexa_pred. Qed.

Lemma hexa_linklocal : IsLinkLocalUnicast ip = within n (pfx6 0xfe80 0 0 10).
Proof. unfold IsLinkLocalUnicast. rewrite HT. hexa_pred. Qed.
End Hexa.

(** ** The policies meet the specification *)

Lemma if_negb (c b : bool) : (if c then false else b) = negb c && b.
Proof. by destruct c. Qed.

(** Every interval of [l] lies inside one of [k]. *)
Definition covered (l k : list (Z * Z)) : bool :=
  forallb (fun i => existsb (fun j => (j.1 <=? i.1) && (i.2 <=? j.2)) k) l.

Lemma covered_within l k n : covered l k = true ->
  existsb (within n) l = true -> existsb (within n) k = true.
Proof.
  unfold covered. rewrite forallb_forall, !existsb_exists. intros Hc (i & Hi & Hn).
  destruct (proj1 (existsb_exists _ _) (Hc i Hi)) as (j & Hj & Hle).
  exists j. split; [done|]. unfold within in *. rewrite in_range_spec in *.
  rewrite andb_true_iff, !Z.leb_le in Hle. lia.
Qed.

Lemma same_cover l k n : covered l k = true -> covered k l = true ->
  negb (existsb (within n) l) = negb (existsb (within n) k).
Proof. intros. f_equal. apply eq_true_iff_eq. split; by apply covered_within. Qed.

(** The left side is a disjunction of the interval tests in [l], the right side
    the specification's list: check that they cover each other. *)
Ltac by_intervals n l :=
  transitivity (negb (existsb (within n) l));
  [ rewrite if_negb, ?if_negb, <- ?negb_orb; f_equal; rewrite ?existsb_app; cbn [existsb];
    rewrite ?orb_false_r, ?orb_assoc; reflexivity
  | apply same_cover; vm_compute; reflexivity ].

Lemma public4 a b c d : is_byte a -> is_byte b -> is_byte c -> is_byte d ->
  (if IsLoopback [a; b; c; d] || IsPrivate [a; b; c; d] || IsUnspecified [a; b; c; d] ||
      IsLinkLocalUnicast [a; b; c; d] || IsLinkLocalMulticast [a; b; c; d] || IsMulticast [a; b; c; d]
   then false else negb (existsb (fun blk => Contains blk [a; b; c; d]) reservedBlocks)) =
  public_spec (V4 (be_val [a; b; c; d])).
Proof.
  intros Ha Hb Hc Hd.
  rewrite quad_loopback, quad_private, quad_unspecified, quad_linklocal, quad_linklocal_multicast,
    quad_multicast by done.
  rewrite existsb_Contains by (done || (by rewrite !Forall_cons) || by left).
  set (l := map _ _).
  by_intervals (be_val [a; b; c; d]) ([(ip4 127 0 0 0, ip4 127 255 255 255)] ++
    [(ip4 10 0 0 0, ip4 10 255 255 255); (ip4 172 16 0 0, ip4 172 31 255 255);
     (ip4 192 168 0 0, ip4 192 168 255 255)] ++
    [(ip4 0 0 0 0, ip4 0 0 0 0); (ip4 169 254 0 0, ip4 169 254 255 255);
     (ip4 224 0 0 0, ip4 224 0 0 255); (ip4 224 0 0 0, ip4 239 255 255 255)] ++ l).
Qed.

Lemma allowed4 a b c d : is_byte a -> is_byte b -> is_byte c -> is_byte d ->
  (if IsUnspecified [a; b; c; d] || IsMulticast [a; b; c; d] || IsInterfaceLocalMulticast [a; b; c; d] ||
      IsLinkLocalUnicast [a; b; c; d] || IsLinkLocalMulticast [a; b; c; d] then false
   else if existsb (Equal [a; b; c; d]) metadataAddrs then false
   else negb (existsb (fun blk => Contains blk [a; b; c; d]) blockedV6Prefixes)) =
  allowed_spec (V4 (be_val [a; b; c; d])).
Proof.
  intros Ha Hb Hc Hd.
  rewrite quad_unspecified, quad_multicast, quad_linklocal, quad_linklocal_multicast, quad_metadata by done.
  rewrite existsb_Contains by (done || (by rewrite !Forall_cons) || by left).
  set (l := map _ _). rewrite quad_interface_local, orb_false_r by done.
  by_intervals (be_val [a; b; c; d]) ([(ip4 0 0 0 0, ip4 0 0 0 0); (ip4 224 0 0 0, ip4 239 255 255 255);
    (ip4 169 254 0 0, ip4 169 254 255 255); (ip4 224 0 0 0, ip4 224 0 0 255);
    (ip4 100 100 100 200, ip4 100 100 100 200)] ++ l).
Qed.

Section Hexa2.
Context (b0 b1 : Z) (r : list Z) (H0 : is_byte b0) (H1 : is_byte b1) (Hr : Forall is_byte r).
Context (Hlen : length r = 14%nat).
#[local] Set Default Proof Using "All".
Let ip := b0 :: b1 :: r.
Let n := be_val ip.
Context (HT : To4 ip = None) (Hz : n / 2 ^ 32 <> 0) (Hm : n / 2 ^ 32 <> 0xffff).

(** The two narrower multicast tests say nothing beyond [IsMulticast]. *)
Lemma hexa_multicasts :
  (IsLinkLocalMulticast ip || IsMulticast ip = IsMulticast ip) /\
  (IsMulticast ip || IsInterfaceLocalMulticast ip = IsMulticast ip).
Proof.
  unfold IsLinkLocalMulticast, IsInterfaceLocalMulticast, IsMulticast. rewrite HT.
  unfold ip. cbn [length byte_at nth]. rewrite Hlen. cbn [Nat.eqb andb].
  destruct (b0 =? 255); cbn [andb orb]; [|done]. by rewrite orb_true_r.
Qed.

Lemma public6 :
  (if IsLoopback ip || IsPrivate ip || IsUnspecified ip || IsLinkLocalUnicast ip ||
      IsLinkLocalMulticast ip || IsMulticast ip
   then false else negb (existsb (fun blk => Contains blk ip) reservedBlocks)) =
  public_spec (V6 n).
Proof.
  rewrite <- !orb_assoc. rewrite (proj1 hexa_multicasts).
  unfold ip. rewrite hexa_loopback, hexa_private, hexa_unspecified, hexa_linklocal, hexa_multicast by done.
  rewrite existsb_Contains by (done || by apply hexa_bytes || by right).
  rewrite hexa_len by done. fold ip. fold n.
  set (l := map _ _). cbn [orb].
  by_intervals n ([pfx6 0xfc00 0 0 7; pfx6 0xfe80 0 0 10; pfx6 0xff00 0 0 8] ++ l).
Qed.

Lemma allowed6 :
  (if IsUnspecified ip || IsMulticast ip || IsInterfaceLocalMulticast ip ||
      IsLinkLocalUnicast ip || IsLinkLocalMulticast ip then false
   else if existsb (Equal ip) metadataAddrs then false
   else negb (existsb (fun blk => Contains blk ip) blockedV6Prefixes)) =
  allowed_spec (V6 n).
Proof.
  rewrite <- (orb_assoc (IsUnspecified ip)), (proj2 hexa_multicasts).
  rewrite <- (orb_assoc _ (IsLinkLocalUnicast ip)), (orb_comm (IsLinkLocalUnicast ip)).
  rewrite <- (orb_assoc _ (IsMulticast ip)), (orb_assoc (IsMulticast ip)), (orb_comm (IsMulticast ip)).
  rewrite (proj1 hexa_multicasts).
  unfold ip. rewrite hexa_unspecified, hexa_linklocal, hexa_multicast by done.
  unfold metadataAddrs. cbn [existsb]. rewrite !hexa_equal by (done || bytes_const).
  rewrite existsb_Contains by (done || by apply hexa_bytes || by right).
  rewrite hexa_len by done. fold ip. fold n.
  rewrite (within_point n (be_val (v4InV6Prefix ++ _))).
  assert (Hm2 : (n =? be_val (v4InV6Prefix ++ [100; 100; 100; 200])) = false)
    by (apply Z.eqb_neq; intros E; rewrite E in Hm; by apply Hm).
  rewrite Hm2. set (l := map _ _). set (m := be_val _). cbn [orb].
  by_intervals n ([pfx6 0xff00 0 0 8; pfx6 0xfe80 0 0 10; (m, m)] ++ l).
Qed.
End Hexa2.

(** [::1] is the only address whose own loopback test is not that of its
    normalised form. *)
Lemma loopback_normalize ip : ip_ok ip ->
  IsLoopback ip = true -> IsLoopback (normalize ip) = true \/ ip = IPv6loopback.
Proof.
  intros [Hip Hlen]. unfold IsLoopback, normalize. destruct (To4 ip) as [v4|] eqn:E.
  - intros H. left. unfold To4 in *. destruct Hlen as [Hl|Hl]; rewrite Hl in E; cbn [Nat.eqb] in E.
    + inv_ok. by rewrite Hl.
    + case_match; [|done]. inv_ok. rewrite length_drop, Hl. done.
  - intros H. right. unfold Equal in H. destruct Hlen as [Hl|Hl]; rewrite Hl in H; cbn [Nat.eqb length] in H.
    + unfold To4 in E. by rewrite Hl in E.
    + by apply bool_decide_eq_true in H.
Qed.

Lemma policies_spec ip : ip_ok ip ->
  IsPublic (Some ip) = public_spec (addr_of ip) /\ IsAllowed (Some ip) = allowed_spec (addr_of ip).
Proof.
  intros Hok. destruct (normalize_addr ip Hok) as [Hnb [[Hl Ha]|(Hn & Hl & HT & Ha & Hz & Hm)]].
  - pose proof (loopback_normalize ip Hok) as Hloop. unfold IsPublic, IsAllowed.
    destruct (list4 _ Hl) as (a & b & c & d & En). rewrite Ha, En in *.
    rewrite !Forall_cons in Hnb. destruct Hnb as (? & ? & ? & ? & _).
    rewrite <- public4, <- allowed4 by done. split; [|done].
    destruct (IsLoopback ip); [|done]. cbn [orb].
    destruct (Hloop eq_refl) as [->| ->]; [done|].
    assert ([a; b; c; d] = [0; 0; 0; 1]) as [= -> -> -> ->] by (rewrite <- En; reflexivity).
    reflexivity.
  - destruct Hok as [Hip _]. unfold IsPublic, IsAllowed. rewrite Hn, Ha.
    destruct ip as [|b0 [|b1 r]]; try done. rewrite !Forall_cons in Hip. destruct Hip as (H0 & H1 & Hr).
    injection Hl as Hl. rewrite <- (public6 b0 b1 r) by done. rewrite <- (allowed6 b0 b1 r) by done.
    split; [|done]. by rewrite !hexa_loopback.
Qed.

Lemma public_allowed_spec a : public_spec a = true -> allowed_spec a = true.
Proof.
  unfold public_spec, allowed_spec, avoids.
  destruct a as [n|n]; rewrite !negb_true_iff, <- !not_true_iff_false; intros H Hf; apply H;
    (eapply covered_within; [|exact Hf]); vm_compute; reflexivity.
Qed.

(** ** Properties *)

(** C15. The policies are interval tests: for every 4- or 16-byte address,
    [IsPublic] accepts exactly the numbers outside the listed non-routable
    ranges and [IsAllowed] exactly those outside the listed forbidden ranges,
    mapped and compatible addresses counting as the IPv4 address they embed. *)
Theorem policies_are_ranges ip :
  ip_ok ip ->
  IsPublic (Some ip) = public_spec (addr_of ip) /\
  IsAllowed (Some ip) = allowed_spec (addr_of ip).
Proof. apply policies_spec. Qed.

(** The strict policy is a restriction of the permissive one: every address
    a game pod may be made to fetch from is one the operator may reach too. *)
Lemma public_implies_allowed ip :
  ip_ok ip -> IsPublic (Some ip) = true -> IsAllowed (Some ip) = true.
Proof.
  intros Hok. destruct (policies_spec ip Hok) as [-> ->]. apply public_allowed_spec.
Qed.

(** No bypass by embedding: an IPv4 address written as an IPv4-mapped or as
    an IPv4-compatible IPv6 address gets the same verdict, from both policies,
    as the plain address. *)
Lemma embedded_v4_same_verdict a b c d :
  is_byte a -> is_byte b -> is_byte c -> is_byte d ->
  let q := [a; b; c; d] in
  IsPublic (Some (v4InV6Prefix ++ q)) = IsPublic (Some q) /\
  IsAllowed (Some (v4InV6Prefix ++ q)) = IsAllowed (Some q) /\
  IsPublic (Some (repeat 0 12 ++ q)) = IsPublic (Some q) /\
  IsAllowed (Some (repeat 0 12 ++ q)) = IsAllowed (Some q).
Proof.
  intros Ha Hb Hc Hd q.
  assert (Hq : Forall is_byte q) by (unfold q; by rewrite !Forall_cons).
  assert (Hok : ip_ok q) by (split; [done|by left]).
  assert (Hp : forall p, Forall is_byte p -> length p = 12%nat ->
    be_val p = 0 \/ be_val p = 0xffff -> ip_ok (p ++ q) /\ addr_of (p ++ q) = addr_of q).
  { intros p Hbp Hlp Hv. split; [split; [by apply Forall_app|right; by rewrite length_app, Hlp]|].
    unfold addr_of. rewrite length_app, Hlp, be_val_app.
    change (length q) with 4%nat. cbn [Nat.add Nat.eqb].
    change (2 ^ (8 * Z.of_nat 4)) with (2 ^ 32).
    pose proof (be_val_range q Hq) as R. change (8 * Z.of_nat (length q)) with 32 in R.
    rewrite Z.div_add_l, Z.div_small, Z.add_0_r by lia.
    rewrite Z.add_comm, Z_mod_plus_full, Z.mod_small by lia.
    by destruct Hv as [-> | ->]. }
  destruct (Hp v4InV6Prefix ltac:(bytes_const) eq_refl ltac:(by right)) as [Hok1 E1].
  destruct (Hp (repeat 0 12) ltac:(bytes_const) eq_refl ltac:(by left)) as [Hok2 E2].
  destruct (policies_spec _ Hok) as [-> ->]. destruct (policies_spec _ Hok1) as [-> ->].
  destruct (policies_spec _ Hok2) as [-> ->]. by rewrite E1, E2.
Qed.

(** The guards let through only what the policy accepts: the pre-flight
    check succeeds exactly on a non-empty host that is not a metadata name and
    is an accepted literal, or resolves to at least one address, all accepted;
    the dial hook succeeds exactly on an accepted literal. *)
Lemma guards_enforce_policy {neterr} ParseIP (SplitHostPort : string -> result neterr (string * string))
  (LookupIPAddr : string -> result neterr (list (option (list Z)))) uni_lower allow host addr :
  (CheckHostAllowed ParseIP LookupIPAddr uni_lower host allow = Ok tt <->
   host <> EmptyString /\ HostIsMetadata uni_lower host = false /\
   match ParseIP host with
   | Some ip => allow (Some ip) = true
   | None => exists addrs, LookupIPAddr host = Ok addrs /\ addrs <> [] /\
               forall a, a ∈ addrs -> allow a = true
   end) /\
  (dialControl ParseIP SplitHostPort allow addr = Ok tt <->
   exists h p ip, SplitHostPort addr = Ok (h, p) /\ ParseIP h = Some ip /\ allow (Some ip) = true).
Proof.
  split.
  - unfold CheckHostAllowed. destruct (String.eqb_spec host EmptyString); [split; [done|by intros [? _]]|].
    destruct (HostIsMetadata uni_lower host); [split; [done|by intros (_ & ? & _)]|].
    destruct (ParseIP host) as [ip|].
    + destruct (allow (Some ip)); split; try done. by intros (_ & _ & ?).
    + destruct (LookupIPAddr host) as [addrs|e].
      2:{ split; [done|]. intros (_ & _ & ? & ? & _). done. }
      destruct addrs as [|a addrs].
      { split; [done|]. intros (_ & _ & l & El & Hne & _). by apply Ok_inj in El; subst. }
      destruct (forallb allow (a :: addrs)) eqn:E; split; try done.
      * intros _. split_and!; [done|done|]. exists (a :: addrs). split_and!; [done|done|].
        intros x Hx. rewrite forallb_forall in E. by apply E, list_elem_of_In.
      * intros (_ & _ & l & El & _ & Hall). apply Ok_inj in El as <-.
        apply not_true_iff_false in E. destruct E. apply forallb_forall.
        intros x Hx. by apply Hall, list_elem_of_In.
  - unfold dialControl. destruct (SplitHostPort addr) as [[h p]|e].
    2:{ split; [done|]. by intros (? & ? & ? & ? & _). }
    split.
    + destruct (ParseIP h) as [ip|] eqn:E; [|done]. destruct (allow (Some ip)) eqn:Ea; [|done].
      eauto 8.
    + intros (h' & p' & ip & E & Eip & Ea). inv_ok. by rewrite Eip, Ea.
Qed.

(** *** Witnesses *)

Lemma demo_ip_ok : ip_ok [8; 8; 4; 4].
Proof. split; [bytes_const|by left]. Defined.

Lemma policies_are_ranges_witness :
  IsPublic (Some [8; 8; 4; 4]) = public_spec (addr_of [8; 8; 4; 4]).
Proof. exact (proj1 (policies_are_ranges [8; 8; 4; 4] demo_ip_ok)). Defined.

Lemma public_implies_allowed_witness :
  IsPublic (Some [8; 8; 4; 4]) = true /\ IsAllowed (Some [8; 8; 4; 4]) = true.
Proof.
  split; [vm_compute; reflexivity|].
  apply (public_implies_allowed [8; 8; 4; 4] demo_ip_ok). vm_compute. reflexivity.
Defined.

Lemma embedded_v4_same_verdict_witness :
  IsPublic (Some (v4InV6Prefix ++ [169; 254; 169; 254])) = IsPublic (Some [169; 254; 169; 254]).
Proof. refine (proj1 (embedded_v4_same_verdict 169 254 169 254 _ _ _ _)); unfold is_byte; lia. Defined.
