(* ===== verification/Rbac.v ===== *)
(** * api: role-based access control

    The request authorizer of the API gateway: the permission catalogue
    (src/api/internal/rbac/catalog.go), the rule table, path parsing and the
    middleware (rbac.go), the identity bound to an ownership grant
    (server_identity.go), namespace and cluster selection
    (src/api/internal/scope), and the caller's permission set
    (src/api/internal/auth/perms.go).  A request is what those functions read of
    it: method, path and the two query parameters. *)

From S2P Require Import Prelude GoText.
From Stdlib Require Import Ascii.
Local Open Scope Z_scope.

(** ** Catalogue *)

(** [Permission], without its label, and [PermGroup]. *)
Record Permission := MkPerm { Key : string; PNamespaced : bool }.
Record PermGroup := MkGroup { Resource : string; Permissions : list Permission }.

(** [Catalog] *)
Definition Catalog : list PermGroup :=
  [MkGroup "servers" [MkPerm "servers:read" true; MkPerm "servers:write" true; MkPerm "servers:console" true];
   MkGroup "backups" [MkPerm "backups:read" true; MkPerm "backups:write" true; MkPerm "backups:restore" true];
   MkGroup "schedules" [MkPerm "schedules:read" true; MkPerm "schedules:write" true];
   MkGroup "templates" [MkPerm "templates:read" false; MkPerm "templates:write" false];
   MkGroup "modules" [MkPerm "modules:read" false; MkPerm "modules:manage" false];
   MkGroup "destinations" [MkPerm "destinations:read" true; MkPerm "destinations:manage" true];
   MkGroup "cluster" [MkPerm "cluster:read" false; MkPerm "cluster:manage" false];
   MkGroup "users" [MkPerm "users:read" false; MkPerm "users:manage" false];
   MkGroup "roles" [MkPerm "roles:read" false; MkPerm "roles:manage" false];
   MkGroup "audit" [MkPerm "audit:read" false];
   MkGroup "config" [MkPerm "config:read" false; MkPerm "config:manage" false];
   MkGroup "captures" [MkPerm "captures:manage" true]].

(** [permIndex] *)
Definition permIndex : gmap string Permission :=
  foldl (fun m g => foldl (fun m p => <[Key p := p]> m) m (Permissions g)) ∅ Catalog.

(** [ValidPermission] *)
Definition ValidPermission (key : string) : bool := bool_decide (is_Some (permIndex !! key)).

(** [Namespaced]; a missing key is the zero [Permission]. *)
Definition Namespaced (key : string) : bool :=
  match permIndex !! key with Some p => PNamespaced p | None => false end.

(** ** Scope *)

Definition DefaultNamespace : string := "gameplane-games".
Definition DefaultCluster : string := "local".

(** [AllowedNamespaces], from the value of [GAMEPLANE_EXTRA_NAMESPACES]. *)
Definition AllowedNamespaces (env : string) : list string :=
  DefaultNamespace ::
  List.filter (fun n => negb (String.eqb n "") && negb (String.eqb n DefaultNamespace))
    (map TrimSpace (split_on ","%char env)).

(** What the functions below read of an [*http.Request]: the method, the decoded
    path, and [URL.Query().Get] of the two selectors. *)
Record request := MkReq { Method : string; Path : string; qNamespace : string; qCluster : string }.

(** [contains] *)
Definition contains (ss : list string) (s : string) : bool := existsb (String.eqb s) ss.

(** [scope.Resolve] *)
Definition ResolveNamespace (allowed : list string) (req : request) : option string :=
  let requested := TrimSpace (qNamespace req) in
  if String.eqb requested "" then Some DefaultNamespace
  else if contains allowed requested then Some requested else None.

(** [RequestedCluster] *)
Definition RequestedCluster (req : request) : string :=
  let requested := TrimSpace (qCluster req) in
  if String.eqb requested "" then DefaultCluster else requested.

(** [ResolveCluster] *)
Definition ResolveCluster (req : request) (ids : list string) : option string :=
  let requested := RequestedCluster req in
  if String.eqb (TrimSpace (qCluster req)) "" then Some requested
  else if contains ids requested then Some requested else None.

(** ** The caller's permissions *)

Abbreviation perm_map := (gmap string (gmap string (gset string))).

(** [User]: the fields authorization reads. *)
Record User := MkUser { ID : Z; Perms : perm_map }.

(** [LoadPerms] after the query: one row per (cluster, namespace, permission). *)
Definition add_perm (perms : perm_map) (row : string * string * string) : perm_map :=
  let '(cluster, ns, perm) := row in
  let byNs := default ∅ (perms !! cluster) in
  let set := default ∅ (byNs !! ns) in
  <[cluster := <[ns := {[perm]} ∪ set]> byNs]> perms.
Definition LoadPerms (rows : list (string * string * string)) : perm_map := foldl add_perm ∅ rows.

(** [u.Perms[ck][ns]], nil maps read as empty. *)
Definition perms_at (u : User) (ck ns : string) : gset string :=
  default ∅ (default ∅ (Perms u !! ck) !! ns).

(** [permSetHas] *)
Definition permSetHas (set : gset string) (key : string) : bool := bool_decide (key ∈ set).

(** [cwHolds] inside [Can] *)
Definition cwHolds (u : User) (perm ck : string) : bool :=
  permSetHas (perms_at u ck "*") "*" || permSetHas (perms_at u ck "*") perm.

(** The permissions that always need a cluster-wide grant on the target. *)
Definition cluster_bound (perm : string) : bool :=
  contains ["cluster:read"; "modules:read"; "modules:manage"; "templates:read"; "templates:write"] perm.

(** [Can] *)
Definition Can (u : option User) (perm : string) (namespaced : bool) (cluster ns : string) : bool :=
  match u with
  | None => false
  | Some u =>
      if cluster_bound perm then
        let cluster := if String.eqb cluster "" then DefaultCluster else cluster in
        cwHolds u perm cluster || cwHolds u perm "*"
      else if negb namespaced then
        existsb (fun kv => cwHolds u perm kv.1) (map_to_list (Perms u))
      else
        existsb (fun ck =>
          cwHolds u perm ck ||
          (negb (String.eqb ns "") && negb (String.eqb ns "*") &&
           (permSetHas (perms_at u ck ns) "*" || permSetHas (perms_at u ck ns) perm)))
          [cluster; "*"]
  end.

(** [CanDiscoverCluster] *)
Definition CanDiscoverCluster (u : option User) (cluster : string) : bool :=
  match u with
  | None => false
  | Some usr =>
      if Can u "users:manage" false "" "" || Can u "cluster:manage" false "" "" then true
      else if Can u "cluster:read" true cluster "" || Can u "modules:read" true cluster ""
              || Can u "modules:manage" true cluster "" then true
      else existsb (fun ck =>
             existsb (fun kv => permSetHas kv.2 "*" || permSetHas kv.2 "servers:read")
               (map_to_list (default ∅ (Perms usr !! ck))))
             [cluster; "*"]
  end.

(** ** The rule table *)

(** [rule] *)
Record rule := MkRule { rmethod : string; rsegment : string; rprefix : string; rsuffix : string; perm : string }.

(** [rules], in source order. *)
Definition rules : list rule :=
  [MkRule "GET" "fleet" "" "/fleet/servers" "";
   MkRule "GET" "fleet" "" "/fleet/backups" "";
   MkRule "GET" "fleet" "" "/fleet/schedules" "";
   MkRule "GET" "fleet" "" "/fleet/restores" "";
   MkRule "GET" "fleet" "" "/fleet/inventory" "";
   MkRule "GET" "fleet" "" "/fleet/placements" "";
   MkRule "GET" "users" "" "/users/me" "";
   MkRule "GET" "users" "" "/users/me/servers" "";
   MkRule "GET" "users" "" "/users/me/preferences" "";
   MkRule "PUT" "users" "" "/users/me/preferences" "";
   MkRule "POST" "users" "" "/users/me/preferences/reset" "";
   MkRule "PUT" "users" "" "/users/me/language" "";
   MkRule "GET" "users" "" "" "users:read";
   MkRule "" "users" "" "" "users:manage";
   MkRule "GET" "roles" "" "" "roles:read";
   MkRule "" "roles" "" "" "roles:manage";
   MkRule "GET" "admin" "" "/admin/installation" "";
   MkRule "GET" "admin" "/admin/audit" "" "audit:read";
   MkRule "GET" "admin" "/admin/config" "" "config:read";
   MkRule "" "admin" "/admin/config" "" "config:manage";
   MkRule "" "admin" "/admin/notifications" "" "config:manage";
   MkRule "" "admin" "/admin/auth" "" "config:manage";
   MkRule "" "admin" "/admin/registries" "" "config:manage";
   MkRule "GET" "admin" "/admin/telemetry" "" "config:read";
   MkRule "" "admin" "/admin/telemetry" "" "config:manage";
   MkRule "" "admin" "" "" "*";
   MkRule "POST" "servers" "" ":capture-enable" "captures:manage";
   MkRule "POST" "servers" "" ":capture-node-enable" "captures:manage";
   MkRule "POST" "servers" "" ":capture-node-disable" "captures:manage";
   MkRule "POST" "servers" "" ":capture-disable" "captures:manage";
   MkRule "POST" "servers" "" ":capture-start" "captures:manage";
   MkRule "POST" "servers" "" ":capture-stop" "captures:manage";
   MkRule "GET" "servers" "" ":captures" "captures:manage";
   MkRule "GET" "servers" "" ":capture-file" "captures:manage";
   MkRule "GET" "servers" "" ":capture" "captures:manage";
   MkRule "DELETE" "servers" "" ":capture" "captures:manage";
   MkRule "GET" "servers" "" "" "servers:read";
   MkRule "" "servers" "" "" "servers:write";
   MkRule "GET" "templates" "" "" "templates:read";
   MkRule "" "templates" "" "" "templates:write";
   MkRule "GET" "backups" "" "" "backups:read";
   MkRule "" "backups" "" "" "backups:write";
   MkRule "GET" "schedules" "" "" "schedules:read";
   MkRule "" "schedules" "" "" "schedules:write";
   MkRule "GET" "restores" "" "" "backups:read";
   MkRule "" "restores" "" "" "backups:restore";
   MkRule "GET" "backup-destinations" "" "" "destinations:read";
   MkRule "" "backup-destinations" "" "" "destinations:manage";
   MkRule "GET" "modules" "" "" "modules:read";
   MkRule "" "modules" "" "" "modules:manage";
   MkRule "GET" "cluster" "" "" "cluster:read";
   MkRule "" "cluster" "" "" "cluster:manage";
   MkRule "GET" "clusters" "" "" "";
   MkRule "" "clusters" "" "" "cluster:manage";
   MkRule "GET" "events" "" "" "servers:read";
   MkRule "GET" "ws" "" "/console" "servers:console";
   MkRule "GET" "ws" "" "/console-pty" "servers:console";
   MkRule "GET" "ws" "" "" "servers:read";
   MkRule "GET" "" "" "" "";
   MkRule "HEAD" "" "" "" ""].

(** [firstSegment] *)
Definition firstSegment (path : string) : string :=
  let trimmed := TrimPrefix path "/" in
  match cut_at (Ascii.eqb "/"%char) trimmed with
  | Some (pre, _, _) => pre
  | None => trimmed
  end.

(** The guards of the loop of [match]. *)
Definition rule_applies (method path seg : string) (r : rule) : bool :=
  (String.eqb (rmethod r) "" || String.eqb (rmethod r) method) &&
  (String.eqb (rsegment r) "" || String.eqb (rsegment r) seg) &&
  (String.eqb (rprefix r) "" || HasPrefix path (rprefix r)) &&
  (String.eqb (rsuffix r) "" || HasSuffix path (rsuffix r)).

(** [match] *)
Definition match_rule (method path : string) : option rule :=
  List.find (rule_applies method path (firstSegment path)) rules.

(** [parseServerPath]: name, verb and whether the path is the server itself. *)
Definition parseServerPath (path : string) : option (string * string * bool) :=
  let trimmed := TrimPrefix (TrimPrefix path "/") "ws/" in
  if negb (HasPrefix trimmed "servers/") then None
  else
    let rest := TrimPrefix trimmed "servers/" in
    if String.eqb rest "" then None
    else match cut_at (fun c => Ascii.eqb c "/"%char || Ascii.eqb c ":"%char) rest with
    | None => Some (rest, EmptyString, true)
    | Some (name, sep, after) =>
        if String.eqb name "" then None
        else if Ascii.eqb sep ":"%char then
          match cut_at (Ascii.eqb "/"%char) after with
          | None => if String.eqb after "" then None else Some (name, after, false)
          | Some _ => None
          end
        else Some (name, EmptyString, false)
    end.

(** [serverNameFromPath] *)
Definition serverNameFromPath (path : string) : option string :=
  (fun p => p.1.1) <$> parseServerPath path.

(** [ownerOnlyOperation] *)
Definition ownerOnlyOperation (method verb : string) (isExact : bool) : bool :=
  String.eqb verb "transfer" || String.eqb verb "collaborators" || String.eqb verb "wipe-data" ||
  (String.eqb method "DELETE" && isExact).

(** [clusterInventoryRead] *)
Definition clusterInventoryRead (method path : string) : bool :=
  String.eqb method "GET" && contains ["/cluster"; "/cluster/info"; "/cluster/stats"] path.

(** [allow] *)
Definition allow (u : option User) (method path cluster ns : string) : bool :=
  match match_rule method path with
  | None => false
  | Some r =>
      if String.eqb (perm r) "" then true
      else if clusterInventoryRead method path then Can u (perm r) true cluster ""
      else Can u (perm r) (Namespaced (perm r)) cluster ns
  end.

(** [ReadPermission] *)
Definition ReadPermission (segment : string) : option string :=
  match match_rule "GET" ("/" +:+ segment) with
  | Some r => if String.eqb (rsegment r) "" then None else Some (perm r)
  | None => None
  end.

(** ** Ownership *)

Inductive role := roleOwner | roleCollaborator | roleNone.

#[export] Instance role_eq_dec : EqDecision role.
Proof. solve_decision. Defined.

(** A fetched GameServer: its UID and annotations ([None] for a nil map). *)
Record server := MkServer { UID : string; annotations : option (gmap string string) }.

(** [parseUserID] *)
Definition parseUserID (s : string) : option Z := ParseInt64 s.

(** [ownershipRole] *)
Definition ownershipRole (obj : server) (userID : Z) : role :=
  match annotations obj with
  | None => roleNone
  | Some ann =>
      let get k := default EmptyString (ann !! k) in
      if bool_decide (parseUserID (get "gameplane.local/owner-id") = Some userID) then roleOwner
      else
        let collabsStr := get "gameplane.local/collaborators" in
        if negb (String.eqb collabsStr "") &&
           existsb (fun id =>
             negb (String.eqb (TrimSpace id) "") &&
             bool_decide (parseUserID (TrimSpace id) = Some userID))
             (split_on ","%char collabsStr)
        then roleCollaborator else roleNone
  end.

(** [ServerIdentity] *)
Record ServerIdentity := MkIdentity { iCluster : string; iNamespace : string; iName : string; iUID : string }.

#[export] Instance identity_eq_dec : EqDecision ServerIdentity.
Proof. solve_decision. Defined.

(** [ValidateServerIdentity]; [bound] is what [BoundServerIdentity] finds in the
    request's context.  [true] is a nil error. *)
Definition ValidateServerIdentity (bound : option ServerIdentity) (cluster namespace name uid : string) : bool :=
  match bound with
  | None => true
  | Some b => negb (String.eqb (iUID b) "") && bool_decide (b = MkIdentity cluster namespace name uid)
  end.

(** ** The middleware *)

(** [ServerFetcher]; [GetServer] returning an error or nil is [None]. *)
Record ServerFetcher := MkFetcher {
  GetServer : string -> string -> string -> option server;
  IDs : list string
}.

(** What the middleware does with a request: pass it on, with the identity bound
    to its context if any, or answer with an error message. *)
Inductive outcome :=
| Serve (bound : option ServerIdentity)
| Unauthenticated
| Forbidden
| NamespaceNotPermitted
| ClusterForbidden.

Definition is_server_perm (p : string) : bool :=
  contains ["servers:read"; "servers:write"; "servers:console"] p.

(** The owner/collaborator fallback, after [allow] said no. *)
Definition fallback (fetch : option ServerFetcher) (u : User) (req : request) (p cl ns : string) : outcome :=
  if Namespaced p && is_server_perm p then
    match fetch, parseServerPath (Path req) with
    | Some f, Some (name, verb, isExact) =>
        if isExact && negb (contains ["GET"; "HEAD"; "DELETE"] (Method req)) then Forbidden
        else match GetServer f cl ns name with
        | None => Forbidden
        | Some obj =>
            let role := ownershipRole obj (ID u) in
            if bool_decide (role <> roleNone) &&
               (bool_decide (role = roleOwner) || negb (ownerOnlyOperation (Method req) verb isExact))
            then Serve (Some (MkIdentity cl ns name (UID obj)))
            else Forbidden
        end
    | _, _ => Forbidden
    end
  else Forbidden.

(** The owner-only gate, after [allow] said yes. *)
Definition ownerGate (fetch : option ServerFetcher) (u : User) (req : request) (p cl ns : string) : outcome :=
  if Namespaced p && negb (Can (Some u) "*" true cl ns) then
    match parseServerPath (Path req) with
    | Some (name, verb, isExact) =>
        if ownerOnlyOperation (Method req) verb isExact then
          match fetch with
          | None => Forbidden
          | Some f =>
              match GetServer f cl ns name with
              | Some obj =>
                  if bool_decide (ownershipRole obj (ID u) = roleOwner)
                  then Serve (Some (MkIdentity cl ns name (UID obj))) else Forbidden
              | None => Forbidden
              end
          end
        else Serve None
    | None => Serve None
    end
  else Serve None.

(** The cluster used when the permission is not namespaced. *)
Definition unscopedCluster (req : request) : string :=
  if clusterInventoryRead (Method req) (Path req) || HasPrefix (Path req) "/modules" ||
     HasPrefix (Path req) "/templates"
  then RequestedCluster req else DefaultCluster.

(** The target of a request: cluster and namespace, or the refusal. *)
Definition target (allowed : list string) (fetch : option ServerFetcher) (req : request) (p : string)
  : result outcome (string * string) :=
  let cl := unscopedCluster req in
  if Namespaced p then
    match ResolveNamespace allowed req with
    | None => Err NamespaceNotPermitted
    | Some ns =>
        match fetch with
        | None => Ok (cl, ns)
        | Some f =>
            match ResolveCluster req (IDs f) with
            | None => Err ClusterForbidden
            | Some cl => Ok (cl, ns)
            end
        end
    end
  else Ok (cl, EmptyString).

(** [Middleware] *)
Definition Middleware (allowed : list string) (fetch : option ServerFetcher) (user : option User) (req : request)
  : outcome :=
  match user with
  | None => Unauthenticated
  | Some u =>
      match match_rule (Method req) (Path req) with
      | None => Forbidden
      | Some r =>
          if String.eqb (perm r) "" then Serve None
          else match target allowed fetch req (perm r) with
          | Err o => o
          | Ok (cl, ns) =>
              if negb (allow user (Method req) (Path req) cl ns)
              then fallback fetch u req (perm r) cl ns
              else ownerGate fetch u req (perm r) cl ns
          end
      end
  end.
