(* ===== verification/RbacFacts.v ===== *)
(** * Properties of the authorizer

    [Can] is characterised by the binding rows it was loaded from; the rule table
    by which rules can decide a path of the servers segment; the middleware by
    what every served request must have shown, with the owner-only operations
    and the capture routes singled out. *)

From S2P Require Import Prelude GoText Rbac.
From Stdlib Require Import Ascii.
Local Open Scope Z_scope.

(** ** Permission sets *)

(** The bindings a permission map stands for. *)
Definition holds (m : perm_map) (ck ns p : string) : Prop :=
  p ∈ (default ∅ (default ∅ (m !! ck) !! ns) : gset string).

Lemma add_perm_holds m row ck ns p :
  holds (add_perm m row) ck ns p <-> (ck, ns, p) = row \/ holds m ck ns p.
Proof.
  destruct row as [[c n] q]. unfold holds, add_perm. cbv beta iota zeta.
  destruct (decide (c = ck)) as [->|Hc].
  - rewrite lookup_insert_eq. simpl. destruct (decide (n = ns)) as [->|Hn].
    + rewrite lookup_insert_eq. simpl. rewrite elem_of_union, elem_of_singleton.
      split; (intros [H|H]; [left|by right]); congruence.
    + rewrite lookup_insert_ne by done. split; [by right|]. intros [[= ]|H]; [done|done].
  - rewrite lookup_insert_ne by done. split; [by right|]. intros [[= ]|H]; [done|done].
Qed.

Lemma LoadPerms_holds rows ck ns p : holds (LoadPerms rows) ck ns p <-> (ck, ns, p) ∈ rows.
Proof.
  unfold LoadPerms. assert (H : forall m, holds (foldl add_perm m rows) ck ns p <->
    (ck, ns, p) ∈ rows \/ holds m ck ns p).
  { induction rows as [|row rows IH]; intros m; simpl.
    - rewrite elem_of_nil. tauto.
    - rewrite IH, add_perm_holds, elem_of_cons. tauto. }
  rewrite H. unfold holds. rewrite lookup_empty. simpl. rewrite lookup_empty. set_solver.
Qed.

Lemma permSetHas_true s k : permSetHas s k = true <-> k ∈ s.
Proof. unfold permSetHas. by rewrite bool_decide_eq_true. Qed.

Lemma cwHolds_true u p ck :
  cwHolds u p ck = true <-> exists q, (q = "*" \/ q = p) /\ holds (Perms u) ck "*" q.
Proof.
  unfold cwHolds, holds, perms_at. rewrite orb_true_iff, !permSetHas_true. split.
  - intros [H|H]; eauto.
  - intros (q & [->| ->] & H); auto.
Qed.

Lemma contains_true ss s : contains ss s = true <-> s ∈ ss.
Proof.
  unfold contains. rewrite existsb_exists. split.
  - intros (x & Hx & E). apply String.eqb_eq in E as ->. by apply list_elem_of_In.
  - intros H. exists s. split; [by apply list_elem_of_In|apply String.eqb_refl].
Qed.

(** What a binding must look like to grant [p] for a target. *)
Definition grants (p : string) (namespaced : bool) (cluster ns ck nk q : string) : Prop :=
  (q = "*" \/ q = p) /\
  if cluster_bound p then
    nk = "*" /\ (ck = (if String.eqb cluster "" then DefaultCluster else cluster) \/ ck = "*")
  else if namespaced then
    (ck = cluster \/ ck = "*") /\ (nk = "*" \/ nk = ns /\ ns <> EmptyString)
  else nk = "*".

Lemma Can_holds u p namespaced cluster ns :
  Can (Some u) p namespaced cluster ns = true <->
  exists ck nk q, holds (Perms u) ck nk q /\ grants p namespaced cluster ns ck nk q.
Proof.
  unfold Can, grants. destruct (cluster_bound p); [|destruct namespaced; simpl].
  - rewrite orb_true_iff, !cwHolds_true. split.
    + intros [(q & Hq & H)|(q & Hq & H)]; eauto 10.
    + intros (ck & nk & q & H & Hq & -> & [->| ->]); eauto.
  - rewrite orb_false_r, !orb_true_iff, !andb_true_iff, !orb_true_iff, !cwHolds_true,
      !negb_true_iff, !String.eqb_neq, !permSetHas_true. unfold perms_at. split.
    + intros [[(q & ? & ?)|[[? ?] [?|?]]]|[(q & ? & ?)|[[? ?] [?|?]]]];
        (do 3 eexists; split; [eassumption|]); eauto 10.
    + intros (ck & nk & q & H & Hq & Hck & Hnk).
      destruct (decide (nk = "*")) as [->|Hn].
      { destruct Hck as [->| ->]; [left|right]; left; eauto. }
      destruct Hnk as [->|[-> Hns]]; [done|].
      destruct Hck as [->| ->]; [left|right]; right; (split; [done|]);
        destruct Hq as [->| ->]; auto.
  - rewrite existsb_exists. split.
    + intros ([k v] & Hk & H). apply cwHolds_true in H as (q & Hq & H). eauto 10.
    + intros (ck & nk & q & H & Hq & ->). 
      assert (Hs : is_Some (Perms u !! ck)).
      { unfold holds in H. destruct (Perms u !! ck); [eauto|]. simpl in H.
        rewrite lookup_empty in H. set_solver. }
      destruct Hs as [v Hv]. exists (ck, v). split.
      * by apply list_elem_of_In, elem_of_map_to_list.
      * apply cwHolds_true. eauto.
Qed.

(** ** The rule table *)

(** Only rules without a segment or with the path's own can match. *)
Definition rules_for (seg : string) : list rule :=
  List.filter (fun r => String.eqb (rsegment r) "" || String.eqb (rsegment r) seg) rules.

Lemma find_filter {A} (P Q : A -> bool) l :
  (forall x, P x = true -> Q x = true) -> List.find P l = List.find P (List.filter Q l).
Proof.
  intros HPQ. induction l as [|x l IH]; simpl; [done|].
  destruct (P x) eqn:E; [rewrite (HPQ x E); simpl; by rewrite E|].
  destruct (Q x); simpl; [by rewrite E|done].
Qed.

Lemma match_rules_for method path :
  match_rule method path =
  List.find (rule_applies method path (firstSegment path)) (rules_for (firstSegment path)).
Proof.
  apply find_filter. intros r. unfold rule_applies. rewrite !andb_true_iff. by intros [[[_ ?] _] _].
Qed.

(** A rule that applies stops the search at or before it. *)
Lemma find_before {A} (P : A -> bool) l1 x l2 : P x = true ->
  exists y, List.find P (l1 ++ x :: l2) = Some y /\ y ∈ l1 ++ [x] /\ P y = true.
Proof.
  intros Hx. induction l1 as [|z l1 IH]; simpl.
  - rewrite Hx. exists x. set_solver.
  - destruct (P z) eqn:E; [exists z; set_solver|].
    destruct IH as (y & ? & ? & ?). exists y. set_solver.
Qed.

Lemma rule_stops method path l1 x l2 (Q : rule -> Prop) :
  rules_for (firstSegment path) = l1 ++ x :: l2 ->
  rule_applies method path (firstSegment path) x = true ->
  Forall Q (l1 ++ [x]) ->
  exists r, match_rule method path = Some r /\ Q r.
Proof.
  intros Hl Hx HQ. rewrite match_rules_for, Hl.
  destruct (find_before _ l1 x l2 Hx) as (y & -> & Hy & _). exists y. split; [done|].
  rewrite Forall_forall in HQ. auto.
Qed.

(** Every path of the servers segment is decided by a namespaced permission. *)
Lemma servers_rule method path : firstSegment path = "servers" ->
  exists r, match_rule method path = Some r /\
    (perm r = "captures:manage" \/ perm r = "servers:read" \/ perm r = "servers:write").
Proof.
  intros Hs.
  apply (rule_stops method path (take 11 (rules_for "servers")) (MkRule "" "servers" "" "" "servers:write")
    (drop 12 (rules_for "servers"))).
  - rewrite Hs. reflexivity.
  - rewrite Hs. reflexivity.
  - vm_compute. repeat (apply Forall_cons; split; [auto|]). by apply Forall_nil.
Qed.

(** The capture routes of the table. *)
Definition capture_routes : list (string * string) :=
  [("POST", ":capture-enable"); ("POST", ":capture-node-enable"); ("POST", ":capture-node-disable");
   ("POST", ":capture-disable"); ("POST", ":capture-start"); ("POST", ":capture-stop");
   ("GET", ":captures"); ("GET", ":capture-file"); ("GET", ":capture"); ("DELETE", ":capture")].

Lemma capture_rule method sfx path : (method, sfx) ∈ capture_routes ->
  firstSegment path = "servers" -> HasSuffix path sfx = true ->
  exists r, match_rule method path = Some r /\ perm r = "captures:manage".
Proof.
  intros Hin Hs Hsfx.
  assert (Hcut : forall k, (k < 10)%nat ->
    rules_for "servers" = take k (rules_for "servers") ++
      MkRule (nth k capture_routes ("", "")).1 "servers" "" (nth k capture_routes ("", "")).2 "captures:manage"
      :: drop (S k) (rules_for "servers") /\
    Forall (fun r => perm r = "captures:manage") (take k (rules_for "servers"))).
  { intros k Hk. do 10 (destruct k as [|k]; [vm_compute; by repeat constructor|]). lia. }
  apply list_elem_of_In, (In_nth _ _ ("", "")) in Hin as (k & Hlt & Hnth).
  destruct (Hcut k Hlt) as [Hl Hf]. rewrite Hnth in Hl.
  eapply rule_stops; rewrite ?Hs; [exact Hl| |].
  - unfold rule_applies. cbn [rmethod rsegment rprefix rsuffix fst snd].
    by rewrite String.eqb_refl, !orb_true_r, Hsfx, orb_true_r.
  - apply Forall_app. split; [done|by repeat constructor].
Qed.

(** ** The middleware *)

Lemma Can_any u p cl ns : Can (Some u) "*" true cl ns = true ->
  cluster_bound p = false -> Can (Some u) p true cl ns = true.
Proof.
  intros H Hp. apply Can_holds in H as (ck & nk & q & Hh & Hq & H). apply Can_holds.
  exists ck, nk, q. split; [done|]. unfold grants. rewrite Hp. simpl in *.
  split; [|done]. destruct Hq as [?|?]; auto.
Qed.

(** What the fallback demands. *)
Lemma fallback_serve fetch u req p cl ns b : fallback fetch u req p cl ns = Serve b ->
  exists f name verb isExact obj,
    fetch = Some f /\ is_server_perm p = true /\
    parseServerPath (Path req) = Some (name, verb, isExact) /\
    GetServer f cl ns name = Some obj /\ b = Some (MkIdentity cl ns name (UID obj)) /\
    (ownershipRole obj (ID u) = roleOwner \/
     ownershipRole obj (ID u) = roleCollaborator /\ ownerOnlyOperation (Method req) verb isExact = false) /\
    (isExact = true -> Method req ∈ ["GET"; "HEAD"; "DELETE"]).
Proof.
  unfold fallback. destruct (Namespaced p && is_server_perm p) eqn:Ep; [|done].
  apply andb_true_iff in Ep as [_ Ep].
  destruct fetch as [f|]; [|done]. destruct (parseServerPath (Path req)) as [[[name verb] isExact]|]; [|done].
  destruct (isExact && negb (contains ["GET"; "HEAD"; "DELETE"] (Method req))) eqn:Ex; [done|].
  destruct (GetServer f cl ns name) as [obj|] eqn:Eo; [|done].
  cbv zeta. destruct (bool_decide (ownershipRole obj (ID u) <> roleNone) && (bool_decide (ownershipRole obj (ID u) = roleOwner) || negb (ownerOnlyOperation (Method req) verb isExact))) eqn:Er; [|done]. intros [= <-].
  apply andb_true_iff in Er as [Hr Hop]. apply bool_decide_eq_true in Hr.
  exists f, name, verb, isExact, obj. split_and!; try done.
  - apply orb_true_iff in Hop as [Ho|Ho]; [apply bool_decide_eq_true in Ho; auto|].
    apply negb_true_iff in Ho. destruct (ownershipRole obj (ID u)); auto. done.
  - intros ->. apply contains_true. simpl in Ex. by apply negb_false_iff in Ex.
Qed.

Lemma ownerGate_serve fetch u req p cl ns b : ownerGate fetch u req p cl ns = Serve b ->
  (b = None /\ (Namespaced p = false \/ Can (Some u) "*" true cl ns = true \/
     forall name verb isExact, parseServerPath (Path req) = Some (name, verb, isExact) ->
       ownerOnlyOperation (Method req) verb isExact = false)) \/
  exists f name verb isExact obj, fetch = Some f /\
    parseServerPath (Path req) = Some (name, verb, isExact) /\ GetServer f cl ns name = Some obj /\
    ownershipRole obj (ID u) = roleOwner /\ b = Some (MkIdentity cl ns name (UID obj)).
Proof.
  unfold ownerGate. destruct (Namespaced p) eqn:En; cbn [andb negb]; [|intros [= ?]; subst; auto].
  destruct (Can (Some u) "*" true cl ns) eqn:Ec; cbn [andb negb]; [intros [= ?]; subst; auto|].
  destruct (parseServerPath (Path req)) as [[[name verb] isExact]|].
  2:{ intros [= ?]; subst. left. split; [done|]. right; right. done. }
  destruct (ownerOnlyOperation (Method req) verb isExact) eqn:Eo.
  - destruct fetch as [f|]; [|done]. destruct (GetServer f cl ns name) as [obj|] eqn:Eg; [|done].
    case_bool_decide as Hrole; [|done]. intros [= ?]; subst. right.
    exists f, name, verb, isExact, obj. done.
  - intros [= ?]; subst. left. split; [done|]. right; right. intros ? ? ? [= <- <- <-]. done.
Qed.

Lemma Middleware_serve allowed fetch user req b : Middleware allowed fetch user req = Serve b ->
  exists u r, user = Some u /\ match_rule (Method req) (Path req) = Some r /\
    (perm r = EmptyString /\ b = None \/
     perm r <> EmptyString /\ exists cl ns, target allowed fetch req (perm r) = Ok (cl, ns) /\
       (allow user (Method req) (Path req) cl ns = true /\ ownerGate fetch u req (perm r) cl ns = Serve b \/
        allow user (Method req) (Path req) cl ns = false /\ fallback fetch u req (perm r) cl ns = Serve b)).
Proof.
  unfold Middleware. destruct user as [u|]; [|done].
  destruct (match_rule (Method req) (Path req)) as [r|] eqn:Er; [|done].
  destruct (String.eqb_spec (perm r) EmptyString) as [E|E].
  { intros [= <-]. exists u, r. auto. }
  destruct (target allowed fetch req (perm r)) as [[cl ns]|o] eqn:Et.
  2:{ intros ->. exfalso. unfold target in Et. repeat case_match; congruence. }
  intros H. exists u, r. split_and!; [done|done|]. right. split; [done|]. exists cl, ns. split; [done|].
  destruct (allow (Some u) (Method req) (Path req) cl ns); simpl in H; auto.
Qed.

Lemma ResolveNamespace_ok allowed req ns : ResolveNamespace allowed req = Some ns ->
  ns = DefaultNamespace \/ ns ∈ allowed.
Proof.
  unfold ResolveNamespace. destruct (String.eqb _ _); [intros; inv_ok; auto|].
  destruct (contains allowed _) eqn:Ec; [|done]. intros; inv_ok. right. by apply contains_true.
Qed.

Lemma ResolveCluster_ok req ids cl : ResolveCluster req ids = Some cl ->
  cl = DefaultCluster \/ cl ∈ ids.
Proof.
  unfold ResolveCluster, RequestedCluster.
  destruct (String.eqb (TrimSpace (qCluster req)) ""); [intros; inv_ok; auto|].
  destruct (contains ids _) eqn:Ec; [|done]. intros; inv_ok. right. by apply contains_true.
Qed.

(** A namespaced request is resolved to an allowed namespace and, when a fetcher
    is mounted, to a registered cluster. *)
Lemma target_namespaced allowed fetch req p cl ns :
  target allowed fetch req p = Ok (cl, ns) -> Namespaced p = true ->
  (ns = DefaultNamespace \/ ns ∈ allowed) /\
  (forall f, fetch = Some f -> cl = DefaultCluster \/ cl ∈ IDs f).
Proof.
  unfold target. intros H Hn. rewrite Hn in H.
  destruct (ResolveNamespace allowed req) as [ns'|] eqn:Ens; [|done].
  apply ResolveNamespace_ok in Ens.
  destruct fetch as [f|]; [|inv_ok; split; [done|intros f Hf; discriminate Hf]].
  destruct (ResolveCluster req (IDs f)) as [cl'|] eqn:Ecl; [|done].
  apply ResolveCluster_ok in Ecl. inv_ok. split; [done|]. intros f' Hf. by inv_ok.
Qed.

(** The cluster and namespace the request resolves to. *)
Definition resolves (allowed : list string) (fetch : option ServerFetcher) (req : request) (cl ns : string) : Prop :=
  ResolveNamespace allowed req = Some ns /\
  match fetch with
  | Some f => ResolveCluster req (IDs f) = Some cl
  | None => cl = unscopedCluster req
  end.

Lemma target_resolves allowed fetch req p cl ns :
  target allowed fetch req p = Ok (cl, ns) -> Namespaced p = true -> resolves allowed fetch req cl ns.
Proof.
  unfold target, resolves. intros H Hn. rewrite Hn in H.
  destruct (ResolveNamespace allowed req) as [ns'|]; [|done].
  destruct fetch as [f|]; [|by inv_ok]. destruct (ResolveCluster req (IDs f)); [|done]. by inv_ok.
Qed.

(** ** Properties *)

(** C36. What a permission check means: for a permission set loaded from binding
    rows, [Can] holds exactly when some row grants it: the permission itself or
    the wildcard, on the target cluster or the wildcard cluster, cluster-wide
    or in the exact namespace for namespaced permissions; cluster-wide on the
    target for inventory, modules and templates; cluster-wide anywhere for
    control-plane permissions. In particular a binding on one cluster never
    grants a namespaced permission on another. *)
Theorem can_iff_binding uid rows p namespaced cluster ns :
  Can (Some (MkUser uid (LoadPerms rows))) p namespaced cluster ns = true <->
  exists ck nk q, (ck, nk, q) ∈ rows /\ (q = "*" \/ q = p) /\
    if cluster_bound p then
      nk = "*" /\ (ck = (if String.eqb cluster "" then DefaultCluster else cluster) \/ ck = "*")
    else if namespaced then
      (ck = cluster \/ ck = "*") /\ (nk = "*" \/ nk = ns /\ ns <> EmptyString)
    else nk = "*".
Proof.
  rewrite Can_holds. split; intros (ck & nk & q & H & Hg); exists ck, nk, q;
    (split; [by apply LoadPerms_holds|exact Hg]).
Qed.

(** C11. Fail closed: a request is only passed on for an authenticated caller and
    a matching rule; unless the rule is open to every user, the target
    namespace is allowed and the cluster registered, and either the permission
    check passed on that very cluster and namespace, or the caller is owner or
    (for operations that are not owner-only) collaborator of the server the
    path names, in which case the request is bound to that server's identity. *)
Theorem served_is_authorized allowed f user req b :
  Middleware allowed (Some f) user req = Serve b ->
  exists u r, user = Some u /\ match_rule (Method req) (Path req) = Some r /\
    (perm r = EmptyString \/
     exists cl ns, target allowed (Some f) req (perm r) = Ok (cl, ns) /\
       (Namespaced (perm r) = true -> (ns = DefaultNamespace \/ ns ∈ allowed) /\
                                      (cl = DefaultCluster \/ cl ∈ IDs f)) /\
       (allow user (Method req) (Path req) cl ns = true \/
        exists name verb isExact obj,
          is_server_perm (perm r) = true /\
          parseServerPath (Path req) = Some (name, verb, isExact) /\
          GetServer f cl ns name = Some obj /\ b = Some (MkIdentity cl ns name (UID obj)) /\
          (ownershipRole obj (ID u) = roleOwner \/
           ownershipRole obj (ID u) = roleCollaborator /\
           ownerOnlyOperation (Method req) verb isExact = false) /\
          (isExact = true -> Method req ∈ ["GET"; "HEAD"; "DELETE"]))).
Proof.
  intros H. apply Middleware_serve in H as (u & r & -> & Hr & [[Hp _]|(Hp & cl & ns & Ht & H)]).
  { exists u, r. auto. }
  exists u, r. split_and!; [done|done|]. right. exists cl, ns. split; [done|]. split.
  { intros Hn. destruct (target_namespaced _ _ _ _ _ _ Ht Hn) as [? Hcl]. eauto. }
  destruct H as [[Ha _]|[_ Hf]]; [by left|right].
  apply fallback_serve in Hf as (f' & name & verb & isExact & obj & Ef & Hs & Hpath & Hg & Hb & Hro & Hx).
  inv_ok. exists name, verb, isExact, obj. done.
Qed.

(** Owner-only operations: transfer, collaborator edits, data wipe and
    deletion of a server are only passed on when the caller is an admin in the
    resolved cluster and namespace, or owns the fetched server, and then the
    request carries that server's identity; a collaborator or a holder of the
    namespace permission alone never gets through. *)
Lemma owner_only_needs_owner allowed fetch u req b name verb isExact :
  firstSegment (Path req) = "servers" ->
  parseServerPath (Path req) = Some (name, verb, isExact) ->
  ownerOnlyOperation (Method req) verb isExact = true ->
  Middleware allowed fetch (Some u) req = Serve b ->
  exists cl ns, resolves allowed fetch req cl ns /\
    (Can (Some u) "*" true cl ns = true \/
     exists f obj, fetch = Some f /\ GetServer f cl ns name = Some obj /\
       ownershipRole obj (ID u) = roleOwner /\ b = Some (MkIdentity cl ns name (UID obj))).
Proof.
  intros Hseg Hpath Hop H.
  destruct (servers_rule (Method req) (Path req) Hseg) as (r & Hr & Hperm).
  apply Middleware_serve in H as (u' & r' & Hu & Hr' & H).
  rewrite Hr in Hr'. inv_ok.
  assert (Hns : Namespaced (perm r') = true /\ perm r' <> EmptyString)
    by (destruct Hperm as [E|[E|E]]; rewrite E; done).
  destruct H as [[? _]|(_ & cl & ns & Ht & H)]; [by destruct Hns|].
  exists cl, ns. split; [eapply target_resolves; [exact Ht|apply Hns]|].
  destruct H as [[_ H]|[_ H]].
  - apply ownerGate_serve in H as [(_ & [Hn|[Hc|Hall]])|(f & nm & vb & ex & obj & ? & Hp & ? & ? & ?)].
    + destruct Hns as [Hns _]. congruence.
    + by left.
    + specialize (Hall _ _ _ Hpath). congruence.
    + right. rewrite Hpath in Hp. simplify_eq. eauto 8.
  - right. apply fallback_serve in H as (f & nm & vb & ex & obj & ? & _ & Hp & Hg & Hb & Hro & _).
    rewrite Hpath in Hp. simplify_eq. exists f, obj. split_and!; try done.
    destruct Hro as [?|[_ ?]]; [done|congruence].
Qed.

(** Captures are admin territory: on every capture route of a server, being
    passed on implies holding the captures permission (or the wildcard) for the
    resolved cluster and namespace; neither the ordinary server permissions
    nor ownership open them. *)
Lemma capture_routes_guarded allowed fetch u req b sfx :
  (Method req, sfx) ∈ capture_routes ->
  firstSegment (Path req) = "servers" -> HasSuffix (Path req) sfx = true ->
  Middleware allowed fetch (Some u) req = Serve b ->
  exists cl ns, resolves allowed fetch req cl ns /\ Can (Some u) "captures:manage" true cl ns = true.
Proof.
  intros Hin Hseg Hsfx H.
  destruct (capture_rule _ _ _ Hin Hseg Hsfx) as (r & Hr & Hp).
  apply Middleware_serve in H as (u' & r' & Hu & Hr' & H).
  rewrite Hr in Hr'. inv_ok. destruct H as [[E _]|(_ & cl & ns & Ht & H)]; [by rewrite Hp in E|].
  exists cl, ns. split; [rewrite Hp in Ht; eapply target_resolves; [exact Ht|vm_compute; reflexivity]|].
  destruct H as [[Ha _]|[_ Hf]].
    + unfold allow in Ha. rewrite Hr, Hp in Ha.
      change (String.eqb "captures:manage" "") with false in Ha. cbv iota in Ha.
      assert (Hn : Namespaced "captures:manage" = true) by (vm_compute; reflexivity).
      rewrite Hn in Ha.
      assert (Hci : clusterInventoryRead (Method req) (Path req) = false).
      { apply not_true_iff_false. unfold clusterInventoryRead. intros [_ Hc]%andb_true_iff.
        apply contains_true in Hc. rewrite !elem_of_cons, elem_of_nil in Hc.
        destruct Hc as [E|[E|[E|[]]]]; rewrite E in Hseg; discriminate Hseg. }
      rewrite Hci in Ha. exact Ha.
    + apply fallback_serve in Hf as (f & nm & vb & ex & obj & _ & Hs & _).
      rewrite Hp in Hs. discriminate Hs.
Qed.

(** The grant is bound to the object: a request let through by ownership
    carries an identity that [ValidateServerIdentity] accepts for the fetched
    server only; a server re-created under the same name, with another UID, is
    refused, and so is one without a UID. *)
Lemma ownership_grant_is_bound allowed fetch user req id cluster ns name uid :
  Middleware allowed fetch user req = Serve (Some id) ->
  ValidateServerIdentity (Some id) cluster ns name uid = true ->
  exists f obj, fetch = Some f /\ GetServer f cluster ns name = Some obj /\
    uid = UID obj /\ uid <> EmptyString.
Proof.
  intros H Hv. unfold ValidateServerIdentity in Hv. apply andb_true_iff in Hv as [Hne Hid].
  apply bool_decide_eq_true in Hid as ->. apply negb_true_iff, String.eqb_neq in Hne. simpl in Hne.
  apply Middleware_serve in H as (u & r & -> & _ & [[_ ?]|(_ & cl & n & _ & [[_ H]|[_ H]])]); [done| |].
  - apply ownerGate_serve in H as [[? _]|(f & nm & vb & ex & obj & ? & _ & ? & _ & ?)]; [done|].
    simplify_eq. eauto 10.
  - apply fallback_serve in H as (f & nm & vb & ex & obj & ? & _ & _ & ? & ? & _). simplify_eq. eauto 10.
Qed.

(** *** Witnesses *)

(** A user who owns server [srv] but has no binding at all. *)
Definition demo_user : User := MkUser 7 ∅.
Definition demo_server : server := MkServer "uid-1" (Some {["gameplane.local/owner-id" := "7"]}).
Definition demo_fetcher : ServerFetcher := MkFetcher (fun _ _ _ => Some demo_server) ["local"].
Definition demo_delete : request := MkReq "DELETE" "/servers/srv" EmptyString EmptyString.
Definition demo_identity : ServerIdentity := MkIdentity "local" "gameplane-games" "srv" "uid-1".

Lemma demo_served :
  Middleware [DefaultNamespace] (Some demo_fetcher) (Some demo_user) demo_delete = Serve (Some demo_identity).
Proof. vm_compute. reflexivity. Defined.

Lemma served_is_authorized_witness :
  exists u r, Some demo_user = Some u /\ match_rule "DELETE" "/servers/srv" = Some r.
Proof.
  destruct (served_is_authorized [DefaultNamespace] demo_fetcher (Some demo_user) demo_delete
    (Some demo_identity) demo_served) as (u & r & Hu & Hr & _).
  exists u, r. exact (conj Hu Hr).
Defined.

Lemma owner_only_needs_owner_witness :
  exists cl ns, resolves [DefaultNamespace] (Some demo_fetcher) demo_delete cl ns /\
    (Can (Some demo_user) "*" true cl ns = true \/
     exists f obj, Some demo_fetcher = Some f /\ GetServer f cl ns "srv" = Some obj /\
       ownershipRole obj (ID demo_user) = roleOwner /\
       Some demo_identity = Some (MkIdentity cl ns "srv" (UID obj))).
Proof.
  exact (owner_only_needs_owner [DefaultNamespace] (Some demo_fetcher) demo_user demo_delete
    (Some demo_identity) "srv" EmptyString true eq_refl eq_refl eq_refl demo_served).
Defined.

Definition demo_admin : User := MkUser 1 (LoadPerms [("local", "*", "*")]).
Definition demo_capture : request := MkReq "POST" "/servers/srv:capture-start" EmptyString EmptyString.

Lemma capture_routes_guarded_witness :
  exists cl ns, resolves [DefaultNamespace] (Some demo_fetcher) demo_capture cl ns /\
    Can (Some demo_admin) "captures:manage" true cl ns = true.
Proof.
  refine (capture_routes_guarded [DefaultNamespace] (Some demo_fetcher) demo_admin demo_capture None
    ":capture-start" _ _ _ _).
  - apply list_elem_of_In. simpl. auto 10.
  - vm_compute. reflexivity.
  - vm_compute. reflexivity.
  - vm_compute. reflexivity.
Defined.

Lemma ownership_grant_is_bound_witness :
  exists f obj, Some demo_fetcher = Some f /\ GetServer f "local" "gameplane-games" "srv" = Some obj /\
    "uid-1" = UID obj /\ "uid-1" <> EmptyString.
Proof.
  refine (ownership_grant_is_bound [DefaultNamespace] (Some demo_fetcher) (Some demo_user) demo_delete
    demo_identity "local" "gameplane-games" "srv" "uid-1" demo_served _).
  vm_compute. reflexivity.
Defined.
