(* ===== verification/Rcon.v ===== *)
(** * agent: RCON clients

    Source RCON over TCP (src/agent/internal/rcon/rcon.go): the packet format and
    the lazily connecting client with its authentication back-off; and BattlEye
    RCon over UDP (battleye.go): checksummed packets, fragment reassembly and the
    routing of replies to waiting calls.  Calls to the network are inputs: what
    arrives before the deadline, how it ends, and whether writes succeed. *)

From S2P Require Import Prelude GoIO GoTime.
Local Open Scope Z_scope.

(** ** Source RCON *)

Definition typeAuth : Z := 3.
Definition typeExecCmd : Z := 2.
Definition typeAuthResponse : Z := 2.
Definition typeRespValue : Z := 0.
Definition minPacketSize : Z := 10.
Definition maxPacketSize : Z := 4 * 4096 + 10.

Inductive rerr :=
| RIO (e : io_err)
| RMalformed (size : Z)
| RTooLarge (n : Z)
| RWrite
| RPassword
| RDial
| RAuth (cached : bool).

(** The payload of [writePacket]. *)
Definition packet_payload (id kind : Z) (body : list Z) : list Z :=
  le32 id ++ le32 kind ++ body ++ [0; 0].

(** [writePacket] up to the socket write: the bytes submitted in one call. *)
Definition encodePacket (id kind : Z) (body : list Z) : result rerr (list Z) :=
  let payload := packet_payload id kind body in
  let n := Z.of_nat (length payload) in
  if 4096 <? n then Err (RTooLarge n) else Ok (le32 (u32 n) ++ payload).

(** [readPacket]: id, kind and body. *)
Definition readPacket : rd rerr (Z * Z * list Z) :=
  hdr ← wrap RIO (readFull 4);
  let size := le_u32 hdr in
  if (size <? minPacketSize) || (maxPacketSize <? size) then fail (RMalformed size)
  else
    buf ← wrap RIO (readFull (Z.to_nat size));
    let id := le_u32 (take 4 buf) in
    let kind := le_u32 (take 4 (drop 4 buf)) in
    let end_ := Z.max 8 (Z.of_nat (length buf) - 2) in
    mret (id, kind, take (Z.to_nat end_ - 8) (drop 8 buf)).

(** [isTimeout]: a deadline fired, as opposed to a closed or reset connection. *)
Definition isTimeout (e : rerr) : bool :=
  match e with RIO ErrTransport => true | _ => false end.

(** The read loop of [Exec]: the reply or the error, whether the connection is
    kept, and the stream left.  Every round consumes a packet, so the stream's
    length bounds the rounds ([exec_loop_enough]). *)
Fixpoint exec_loop (fuel : nat) (reqID : Z) (out : list Z) (gotResponse : bool) (s : stream)
  : result rerr (list Z) * bool * stream :=
  match fuel with
  | O => (Err (RIO (fin s)), false, s)
  | S fuel' =>
      match readPacket s with
      | (Err e, s') =>
          if gotResponse then (Ok out, isTimeout e, s') else (Err e, false, s')
      | (Ok (id, _, body), s') =>
          if id =? reqID then exec_loop fuel' reqID (out ++ body) true s'
          else exec_loop fuel' reqID out gotResponse s'
      end
  end.

(** The read loop of [ensureLocked]: [Ok true] is an accepted login, [Ok false] a
    rejected one. *)
Fixpoint auth_loop (fuel : nat) (authID : Z) (s : stream) : result rerr bool * stream :=
  match fuel with
  | O => (Err (RIO (fin s)), s)
  | S fuel' =>
      match readPacket s with
      | (Err e, s') => (Err e, s')
      | (Ok (id, kind, _), s') =>
          if kind =? typeAuthResponse then (Ok (id =? authID), s') else auth_loop fuel' authID s'
      end
  end.

(** [Client]: [conn] holds the bytes received but not yet read. *)
Record Client := MkClient {
  conn : option (list Z);
  nextID : Z;
  lastAuthFailure : time;
  authFailureCooldown : duration
}.

(** [New] *)
Definition New (cooldown : duration) : Client := MkClient None 0 zero_time cooldown.

Definition set_conn (c : Client) (k : option (list Z)) : Client :=
  MkClient k (nextID c) (lastAuthFailure c) (authFailureCooldown c).
Definition set_failure (c : Client) (t : time) : Client :=
  MkClient (conn c) (nextID c) t (authFailureCooldown c).

(** [allocID] *)
Definition allocID (c : Client) : Z * Client :=
  let n := u32 (nextID c + 1) in
  let n := if n =? 0 then 1 else n in
  (n, MkClient (conn c) n (lastAuthFailure c) (authFailureCooldown c)).

(** [dropLocked], [Close] *)
Definition dropLocked (c : Client) : Client := set_conn c None.

(** What the world does during one call. *)
Record rcon_env := MkEnv {
  e_now : time;                       (** [time.Since] in the back-off test *)
  e_pass : option (list Z);           (** [c.password()] *)
  e_dial : bool;
  e_write_auth : bool;
  e_auth_in : list Z;                 (** bytes received while authenticating *)
  e_auth_fin : io_err;
  e_failed_at : time;                 (** [time.Now] at a rejection *)
  e_write_exec : bool;
  e_in : list Z;                      (** bytes received while executing *)
  e_fin : io_err
}.

Inductive wire := Dialed | Sent (pkt : list Z).

(** [ensureLocked] *)
Definition ensureLocked (env : rcon_env) (c : Client) : result rerr unit * Client * list wire :=
  match conn c with
  | Some _ => (Ok tt, c, [])
  | None =>
      if negb (IsZero (lastAuthFailure c)) && (0 <? authFailureCooldown c) &&
         (Sub (e_now env) (lastAuthFailure c) <? authFailureCooldown c)
      then (Err (RAuth true), c, [])
      else match e_pass env with
      | None => (Err RPassword, c, [])
      | Some pw =>
          if negb (e_dial env) then (Err RDial, c, [])
          else
            let '(authID, c1) := allocID c in
            match encodePacket authID typeAuth pw with
            | Err e => (Err e, dropLocked c1, [Dialed])
            | Ok pkt =>
                if negb (e_write_auth env) then (Err RWrite, dropLocked c1, [Dialed; Sent pkt])
                else
                  let s := Stream (e_auth_in env) (e_auth_fin env) in
                  match auth_loop (S (length (e_auth_in env))) authID s with
                  | (Err e, _) => (Err e, dropLocked c1, [Dialed; Sent pkt])
                  | (Ok false, _) =>
                      (Err (RAuth false), set_failure (dropLocked c1) (e_failed_at env), [Dialed; Sent pkt])
                  | (Ok true, s') =>
                      (Ok tt, set_failure (set_conn c1 (Some (pending s'))) zero_time, [Dialed; Sent pkt])
                  end
            end
      end
  end.

(** [Exec] *)
Definition Exec (env : rcon_env) (cmd : list Z) (c : Client) : result rerr (list Z) * Client * list wire :=
  match ensureLocked env c with
  | (Err e, c1, w) => (Err e, c1, w)
  | (Ok _, c1, w) =>
      let '(reqID, c2) := allocID c1 in
      match encodePacket reqID typeExecCmd cmd with
      | Err e => (Err e, dropLocked c2, w)
      | Ok pkt =>
          if negb (e_write_exec env) then (Err RWrite, dropLocked c2, w ++ [Sent pkt])
          else
            let s := Stream (default [] (conn c2) ++ e_in env) (e_fin env) in
            let '(r, keep, s') := exec_loop (S (length (pending s))) reqID [] false s in
            (r, (if keep then set_conn c2 (Some (pending s')) else dropLocked c2), w ++ [Sent pkt])
      end
  end.

(** ** BattlEye *)
Module BattlEye.

Definition beTypeLogin : Z := 0.
Definition beTypeCommand : Z := 1.
Definition beTypeMessage : Z := 2.
Definition beLoginOK : Z := 1.

(** [crc32.ChecksumIEEE], bit by bit. *)
Definition crc_bit (c : Z) : Z :=
  if Z.odd c then Z.lxor (Z.shiftr c 1) 0xEDB88320 else Z.shiftr c 1.
Definition crc_byte (c b : Z) : Z := Nat.iter 8 crc_bit (Z.lxor c b).
Definition ChecksumIEEE (bs : list Z) : Z :=
  Z.lxor (foldl crc_byte 0xFFFFFFFF bs) 0xFFFFFFFF.

(** [buildPacket] *)
Definition buildPacket (kind : Z) (payload : list Z) : list Z :=
  let inner := 0xFF :: kind :: payload in
  [66; 69] ++ le32 (ChecksumIEEE inner) ++ inner.

(** [buildCommandPacket] *)
Definition buildCommandPacket (seq : Z) (cmd : list Z) : list Z := buildPacket beTypeCommand (seq :: cmd).

Inductive be_err := ShortPacket | BadMagic | MissingTerminator | CRCMismatch.

(** [parsePacket] *)
Definition parsePacket (pkt : list Z) : result be_err (Z * list Z) :=
  if (length pkt <? 8)%nat then Err ShortPacket
  else if negb (nthb pkt 0 =? 66) || negb (nthb pkt 1 =? 69) then Err BadMagic
  else
    let gotCRC := le_u32 (take 4 (drop 2 pkt)) in
    let inner := drop 6 pkt in
    if negb (nthb inner 0 =? 0xFF) then Err MissingTerminator
    else if negb (gotCRC =? ChecksumIEEE inner) then Err CRCMismatch
    else Ok (nthb inner 1, drop 2 inner).

(** [battlEyeReply]; the transport error is opaque. *)
Inductive reply := Body (body : list Z) | Failed.

(** [battlEyeFragments] *)
Record fragments := MkFrag { ftotal : Z; chunks : gmap Z (list Z) }.

(** The part of [BattlEye] that the read loop shares with callers under [ioMu].
    A waiter's channel has one slot: [None] while nothing was delivered.  The
    login channel is [None] once it was taken. *)
Record io_state := MkIO {
  seq : Z;
  waiters : gmap Z (option reply);
  partial : gmap Z fragments;
  loginCh : option (option bool);
  login : option (option bool)        (** what the login caller received; [Some None] is an error *)
}.

Definition with_waiters (st : io_state) w := MkIO (seq st) w (partial st) (loginCh st) (login st).
Definition with_partial (st : io_state) p := MkIO (seq st) (waiters st) p (loginCh st) (login st).

(** The state [ensureLocked] sets up for a fresh socket. *)
Definition fresh_io : io_state := MkIO 0 ∅ ∅ (Some None) None.

(** [nextSeq] *)
Definition nextSeq (st : io_state) : Z * io_state :=
  (seq st, MkIO (u8 (seq st + 1)) (waiters st) (partial st) (loginCh st) (login st)).

(** [select { case ch <- r: default: }] on the channel of [sq], if it is there. *)
Definition offer (sq : Z) (r : reply) (st : io_state) : io_state :=
  match waiters st !! sq with
  | Some None => with_waiters st (<[sq := Some r]> (waiters st))
  | _ => st
  end.

(** The pages [0 .. n-1], if all are there. *)
Fixpoint collect (n : nat) (m : gmap Z (list Z)) : option (list Z) :=
  match n with
  | O => Some []
  | S k =>
      match collect k m, m !! Z.of_nat k with
      | Some pre, Some c => Some (pre ++ c)
      | _, _ => None
      end
  end.

(** [deliverFragment] *)
Definition deliverFragment (sq total idx : Z) (chunk : list Z) (st : io_state) : io_state :=
  match waiters st !! sq with
  | None => st
  | Some _ =>
      let frag :=
        match partial st !! sq with
        | Some f => if ftotal f =? total then f else MkFrag total ∅
        | None => MkFrag total ∅
        end in
      let frag := MkFrag (ftotal frag) (<[idx := chunk]> (chunks frag)) in
      let complete :=
        if ftotal frag <=? Z.of_nat (size (chunks frag))
        then collect (Z.to_nat (ftotal frag)) (chunks frag) else None in
      match complete with
      | None => with_partial st (<[sq := frag]> (partial st))
      | Some full => offer sq (Body full) (with_partial st (delete sq (partial st)))
      end
  end.

(** [handleCommandReply] *)
Definition handleCommandReply (payload : list Z) (st : io_state) : io_state :=
  match payload with
  | [] => st
  | sq :: rest =>
      match rest with
      | 0 :: total :: idx :: chunk =>
          if (2 <=? total) && (idx <? total) then deliverFragment sq total idx chunk st
          else offer sq (Body rest) st
      | _ => offer sq (Body rest) st
      end
  end.

(** [handlePacket]: the state and the packets written back. *)
Definition handlePacket (pkt : list Z) (st : io_state) : io_state * list (list Z) :=
  match parsePacket pkt with
  | Err _ => (st, [])
  | Ok (kind, payload) =>
      if kind =? beTypeLogin then
        match loginCh st with
        | None => (st, [])
        | Some _ =>
            let ok := match payload with b :: _ => b =? beLoginOK | [] => false end in
            (MkIO (seq st) (waiters st) (partial st) None (Some (Some ok)), [])
        end
      else if kind =? beTypeMessage then
        match payload with
        | [] => (st, [])
        | sq :: _ => (st, [buildPacket beTypeMessage [sq]])
        end
      else if kind =? beTypeCommand then (handleCommandReply payload st, [])
      else (st, [])
  end.

(** [failAll] *)
Definition failAll (st : io_state) : io_state * gmap Z reply :=
  (MkIO (seq st) ∅ ∅ None
     (match loginCh st with Some _ => Some None | None => login st end),
   default Failed <$> waiters st).

(** The two critical sections of [Exec]: registering the waiter and, deferred,
    removing it. *)
Definition register (sq : Z) (st : io_state) : io_state := with_waiters st (<[sq := None]> (waiters st)).
Definition unregister (sq : Z) (st : io_state) : io_state :=
  with_partial (with_waiters st (delete sq (waiters st))) (delete sq (partial st)).

End BattlEye.
