(* ===== verification/RconFacts.v ===== *)
(** * Properties of the RCON clients

    Source RCON: packets decode to what was encoded, [Exec] returns exactly the
    fragments that answer its request, and a rejected password is not sent again
    during the cooldown.  BattlEye: a packet is accepted exactly when it is a
    well-formed one, fragments reassemble in any order, and a delivered reply is
    never spliced from different answers. *)

From S2P Require Import Prelude GoIO GoTime Rcon.
Local Open Scope Z_scope.

(** ** Source RCON *)

(** A reply packet as a server sends it. *)
Definition frame (id kind : Z) (body : list Z) : list Z :=
  le32 (10 + Z.of_nat (length body)) ++ packet_payload id kind body.

Definition frame_ok (f : Z * Z * list Z) : Prop :=
  0 <= f.1.1 < 2 ^ 32 /\ 0 <= f.1.2 < 2 ^ 32 /\ 10 + Z.of_nat (length f.2) <= maxPacketSize.

Lemma payload_length id kind body : length (packet_payload id kind body) = (10 + length body)%nat.
Proof. unfold packet_payload. rewrite !length_app, !length_le32. simpl. lia. Qed.

Lemma readPacket_frame id kind body rest f : frame_ok (id, kind, body) ->
  readPacket (Stream (frame id kind body ++ rest) f) = (Ok (id, kind, body), Stream rest f).
Proof.
  intros (Hid & Hk & Hlen). unfold maxPacketSize in Hlen. cbn [fst snd] in *.
  unfold readPacket, frame, mbind, rd_bind, wrap. rewrite <- !app_assoc.
  rewrite readFull_app by done. cbn [map_err].
  assert (Hsz : le_u32 (le32 (10 + Z.of_nat (length body))) = 10 + Z.of_nat (length body)).
  { rewrite <- (app_nil_r (le32 _)). apply le_u32_le32. lia. }
  rewrite Hsz. unfold minPacketSize, maxPacketSize.
  rewrite (proj2 (Z.ltb_ge _ _)) by lia. rewrite (proj2 (Z.ltb_ge (4 * 4096 + 10) _)) by lia.
  cbn [orb]. rewrite readFull_app by (rewrite payload_length; lia).
  cbn [map_err]. cbv beta iota zeta. rewrite payload_length. unfold packet_payload. cbn [map_err].
  rewrite take_app_length' by done. rewrite !drop_app_length' by done.
  rewrite take_app_length' by done.
  replace (drop 8 _) with (body ++ [0; 0]).
  2:{ rewrite app_assoc. by rewrite drop_app_length'. }
  replace (Z.to_nat (Z.max 8 (Z.of_nat (10 + length body) - 2)) - 8)%nat with (length body) by lia.
  rewrite take_app_length. unfold mret, rd_ret.
  pose proof (le_u32_le32 id [] Hid) as E1. pose proof (le_u32_le32 kind [] Hk) as E2.
  rewrite app_nil_r in E1, E2. by rewrite E1, E2.
Qed.

Lemma encodePacket_frame id kind body pkt :
  encodePacket id kind body = Ok pkt -> pkt = frame id kind body /\ 10 + Z.of_nat (length body) <= 4096.
Proof.
  unfold encodePacket. rewrite payload_length.
  destruct (Z.ltb_spec 4096 (Z.of_nat (10 + length body))); [done|]. intros; inv_ok.
  split; [|lia]. unfold frame, u32. rewrite Z.mod_small by lia. do 2 f_equal. lia.
Qed.

(** A successful read consumes bytes, so the loops never run out of fuel. *)
Lemma readPacket_consumes s r s' : readPacket s = (Ok r, s') ->
  (length (pending s') < length (pending s))%nat.
Proof.
  unfold readPacket, mbind, rd_bind, wrap. destruct (readFull 4 s) as [[hdr|e] s1] eqn:E1; [|done].
  apply readFull_Ok in E1 as (Hl & Hp & _). cbn [map_err].
  destruct (_ || _); [done|].
  destruct (readFull _ s1) as [[buf|e] s2] eqn:E2; [|done].
  apply readFull_Ok in E2 as (_ & Hp2 & _). cbn [map_err]. unfold mret, rd_ret. intros; inv_ok.
  rewrite Hp, Hp2, !length_app. lia.
Qed.

Lemma exec_loop_enough fuel k reqID out got s : (length (pending s) < fuel)%nat -> (fuel <= k)%nat ->
  exec_loop fuel reqID out got s = exec_loop k reqID out got s.
Proof.
  revert k out got s. induction fuel as [|fuel IH]; intros k out got s Hf Hk; [lia|].
  destruct k as [|k]; [lia|]. simpl.
  destruct (readPacket s) as [[[[id kind] body]|e] s'] eqn:E; [|done].
  apply readPacket_consumes in E. case_match; apply IH; lia.
Qed.

(** The bodies of the frames that answer [reqID]. *)
Definition answers (reqID : Z) (fs : list (Z * Z * list Z)) : list (list Z) :=
  map snd (List.filter (fun f => f.1.1 =? reqID) fs).

Definition frames (fs : list (Z * Z * list Z)) : list Z :=
  concat (map (fun f => frame f.1.1 f.1.2 f.2) fs).

Lemma frames_length fs : (length fs <= length (frames fs))%nat.
Proof.
  induction fs as [|f fs IH]; [simpl; lia|]. change (frames (f :: fs)) with (frame f.1.1 f.1.2 f.2 ++ frames fs).
  rewrite length_app. unfold frame. rewrite length_app, length_le32. cbn [length]. lia.
Qed.

(** The loop on whole packets followed by something that does not read. *)
Lemma exec_loop_until fs rest f e s' : readPacket (Stream rest f) = (Err e, s') -> forall fuel reqID out got, Forall frame_ok fs ->
  (length fs < fuel)%nat ->
  exec_loop fuel reqID out got (Stream (frames fs ++ rest) f) =
  (if got || negb (bool_decide (answers reqID fs = [])) then Ok (out ++ concat (answers reqID fs)) else Err e,
   (got || negb (bool_decide (answers reqID fs = []))) && isTimeout e, s').
Proof.
  intros Hr. induction fs as [|[[id kind] body] fs IH]; intros fuel reqID out got Hok Hf; (destruct fuel as [|fuel]; [simpl in Hf; lia|]).
  - cbn [exec_loop frames map concat app]. rewrite Hr. destruct got; cbn; by rewrite ?app_nil_r.
  - apply Forall_cons in Hok as [Hf1 Hok]. cbn [exec_loop].
    change (frames ((id, kind, body) :: fs)) with (frame id kind body ++ frames fs). rewrite <- app_assoc, readPacket_frame by done.
    unfold answers. cbn [List.filter fst snd]. destruct (Z.eqb_spec id reqID) as [->|Hne].
    + rewrite IH by (simpl in Hf; done || lia). fold (answers reqID fs). cbn [map concat]. rewrite app_assoc.
      rewrite (bool_decide_eq_false_2 (body :: map snd _ = [])) by done. cbn [orb negb]. by rewrite orb_true_r.
    + apply IH; [done|simpl in Hf; lia].
Qed.
(** After the frames the loop sees the end of the stream. *)
Lemma exec_loop_frames fs fuel reqID out got e : Forall frame_ok fs -> (length fs < fuel)%nat ->
  exec_loop fuel reqID out got (Stream (frames fs) e) =
  (if got || negb (bool_decide (answers reqID fs = [])) then Ok (out ++ concat (answers reqID fs))
   else Err (RIO e),
   (got || negb (bool_decide (answers reqID fs = []))) && isTimeout (RIO e), Stream [] e).
Proof. intros Hok Hf. rewrite <- (app_nil_r (frames fs)). by apply exec_loop_until. Qed.

(** Authentication. *)
Lemma ensureLocked_authenticated env c c1 w : ensureLocked env c = (Ok tt, c1, w) ->
  is_Some (conn c1) /\
  (conn c = None -> exists authID pw s', e_pass env = Some pw /\
     auth_loop (S (length (e_auth_in env))) authID (Stream (e_auth_in env) (e_auth_fin env)) = (Ok true, s')).
Proof.
  unfold ensureLocked. destruct (conn c) as [k|] eqn:Ec.
  { intros; inv_ok. split; [by rewrite Ec|done]. }
  destruct (_ && _); [intros; inv_ok|]. destruct (e_pass env) as [pw|] eqn:Ep; [|intros; inv_ok].
  destruct (e_dial env); cbn [negb]; [|intros; inv_ok]. unfold allocID. cbv zeta.
  set (authID := if _ =? 0 then 1 else _).
  destruct (encodePacket authID typeAuth pw) as [pkt|e]; [|intros; inv_ok].
  destruct (e_write_auth env); cbn [negb]; [|intros; inv_ok].
  destruct (auth_loop _ authID _) as [[[]|e] s'] eqn:Ea; intros; inv_ok.
  split; [by eexists|]. intros _. exists authID, pw, s'. split; [done|exact Ea].
Qed.

(** One call after another; the results and the traffic of each. *)
Fixpoint run_calls (calls : list (rcon_env * list Z)) (c : Client)
  : list (result rerr (list Z) * list wire) * Client :=
  match calls with
  | [] => ([], c)
  | (env, cmd) :: rest =>
      let '(r, c1, w) := Exec env cmd c in
      let '(rs, c2) := run_calls rest c1 in
      ((r, w) :: rs, c2)
  end.

(** Errors that are not authentication failures. *)
Definition not_auth (e : rerr) : Prop := match e with RAuth _ => False | _ => True end.

Lemma readPacket_not_auth s e s' : readPacket s = (Err e, s') -> not_auth e.
Proof.
  unfold readPacket, mbind, rd_bind, wrap.
  destruct (readFull 4 s) as [[hdr|e1] s1]; cbn [map_err]; [|intros; by inv_ok].
  destruct (_ || _); [intros H; unfold fail in H; by inv_ok|].
  destruct (readFull _ s1) as [[buf|e2] s2]; cbn [map_err]; intros; by inv_ok.
Qed.

Lemma exec_loop_not_auth fuel reqID out got s e keep s' :
  exec_loop fuel reqID out got s = (Err e, keep, s') -> not_auth e.
Proof.
  revert out got s. induction fuel as [|fuel IH]; intros out got s; simpl; [intros; by inv_ok|].
  destruct (readPacket s) as [[[[id kind] body]|e1] s1] eqn:E.
  - case_match; apply IH.
  - apply readPacket_not_auth in E. case_match; intros; by inv_ok.
Qed.

Lemma auth_loop_not_auth fuel authID s e s' : auth_loop fuel authID s = (Err e, s') -> not_auth e.
Proof.
  revert s. induction fuel as [|fuel IH]; intros s; simpl; [intros; by inv_ok|].
  destruct (readPacket s) as [[[[id kind] body]|e1] s1] eqn:E.
  - case_match; [intros; by inv_ok|apply IH].
  - apply readPacket_not_auth in E. intros; by inv_ok.
Qed.

Lemma encodePacket_not_auth id kind body e : encodePacket id kind body = Err e -> not_auth e.
Proof. unfold encodePacket. case_match; intros; by inv_ok. Qed.

(** Where a fresh rejection leaves the client. *)
Lemma ensureLocked_rejected env c c' w : ensureLocked env c = (Err (RAuth false), c', w) ->
  conn c' = None /\ lastAuthFailure c' = e_failed_at env /\ authFailureCooldown c' = authFailureCooldown c.
Proof.
  unfold ensureLocked. destruct (conn c) as [k|]; [intros; inv_ok|].
  destruct (_ && _); [intros; inv_ok; discriminate|]. destruct (e_pass env) as [pw|]; [|intros; inv_ok; discriminate].
  destruct (e_dial env); cbn [negb]; [|intros; inv_ok; discriminate]. unfold allocID. cbv zeta.
  set (authID := if _ =? 0 then 1 else _).
  destruct (encodePacket authID typeAuth pw) as [pkt|e] eqn:Ee.
  2:{ intros; inv_ok. by apply encodePacket_not_auth in Ee. }
  destruct (e_write_auth env); cbn [negb]; [|intros; inv_ok; discriminate].
  destruct (auth_loop _ authID _) as [[[]|e] s'] eqn:Ea; intros; inv_ok; [done|].
  by apply auth_loop_not_auth in Ea.
Qed.

Lemma Exec_rejected env cmd c c' w : Exec env cmd c = (Err (RAuth false), c', w) ->
  conn c' = None /\ lastAuthFailure c' = e_failed_at env /\ authFailureCooldown c' = authFailureCooldown c.
Proof.
  unfold Exec. destruct (ensureLocked env c) as [[[[]|e] c1] w1] eqn:E.
  - destruct (allocID c1) as [reqID c2]. destruct (encodePacket reqID typeExecCmd cmd) as [pkt|e] eqn:Ee.
    2:{ intros; inv_ok. by apply encodePacket_not_auth in Ee. }
    destruct (e_write_exec env); cbn [negb]; [|intros; inv_ok; discriminate]. cbv zeta.
    destruct (exec_loop _ _ _ _ _) as [[r keep] s'] eqn:El. intros; inv_ok.
    by apply exec_loop_not_auth in El.
  - intros; inv_ok. by apply ensureLocked_rejected in E.
Qed.

(** Inside the cooldown a call touches neither the network nor the client. *)
Lemma Exec_backoff env cmd c : conn c = None -> lastAuthFailure c <> 0 -> 0 < authFailureCooldown c ->
  Sub (e_now env) (lastAuthFailure c) < authFailureCooldown c ->
  Exec env cmd c = (Err (RAuth true), c, []).
Proof.
  intros Hc Hl Hcd Hs. unfold Exec, ensureLocked. rewrite Hc. unfold IsZero, zero_time.
  rewrite (proj2 (Z.eqb_neq _ _)) by done. rewrite (proj2 (Z.ltb_lt 0 _)) by done.
  by rewrite (proj2 (Z.ltb_lt _ _)) by done.
Qed.

(** ** BattlEye *)
Module BattlEyeFacts.
Import BattlEye.

Lemma lxor_u32 a b : 0 <= a < 2 ^ 32 -> 0 <= b < 2 ^ 32 -> 0 <= Z.lxor a b < 2 ^ 32.
Proof.
  intros Ha Hb. split; [apply Z.lxor_nonneg; lia|].
  destruct (Z.eq_dec (Z.lxor a b) 0) as [->|Hn]; [lia|].
  assert (Hpos : 0 <= Z.lxor a b) by (apply Z.lxor_nonneg; lia).
  apply Z.log2_lt_pow2; [lia|]. eapply Z.le_lt_trans; [apply Z.log2_lxor; lia|].
  assert (H : forall x, 0 <= x < 2 ^ 32 -> Z.log2 x < 32).
  { intros x Hx. destruct (Z.eq_dec x 0) as [->|]; [simpl; lia|]. apply Z.log2_lt_pow2; lia. }
  apply Z.max_lub_lt; auto.
Qed.

Lemma crc_bit_range c : 0 <= c < 2 ^ 32 -> 0 <= crc_bit c < 2 ^ 32.
Proof.
  intros Hc. unfold crc_bit.
  assert (Hs : 0 <= Z.shiftr c 1 < 2 ^ 32).
  { rewrite Z.shiftr_div_pow2 by lia. change (2 ^ 1) with 2.
    split; [apply Z.div_pos; lia|apply Z.div_lt_upper_bound; lia]. }
  destruct (Z.odd c); [apply lxor_u32; [done|lia]|done].
Qed.

Lemma crc_byte_range c b : 0 <= c < 2 ^ 32 -> is_byte b -> 0 <= crc_byte c b < 2 ^ 32.
Proof.
  intros Hc Hb. unfold crc_byte, is_byte in *.
  assert (H : forall n x, 0 <= x < 2 ^ 32 -> 0 <= Nat.iter n crc_bit x < 2 ^ 32).
  { induction n; intros x Hx; simpl; [done|]. by apply crc_bit_range, IHn. }
  apply H, lxor_u32; lia.
Qed.

Lemma ChecksumIEEE_range bs : Forall is_byte bs -> 0 <= ChecksumIEEE bs < 2 ^ 32.
Proof.
  intros Hb. unfold ChecksumIEEE. apply lxor_u32; [|lia].
  assert (H : forall c, 0 <= c < 2 ^ 32 -> 0 <= foldl crc_byte c bs < 2 ^ 32).
  { induction Hb as [|b bs Hb _ IH]; intros c Hc; simpl; [done|]. by apply IH, crc_byte_range. }
  apply H. lia.
Qed.

Lemma le32_le_u32 l : length l = 4%nat -> Forall is_byte l -> le32 (le_u32 l) = l.
Proof.
  destruct l as [|b0 [|b1 [|b2 [|b3 [|]]]]]; try done. intros _.
  rewrite !Forall_cons. intros (H0 & H1 & H2 & H3 & _). unfold is_byte in *.
  unfold le_u32, nthb. cbn [nth].
  rewrite (lor_shiftl_add b0 b1 8) by lia. rewrite (lor_shiftl_add _ b2 16) by lia.
  rewrite (lor_shiftl_add _ b3 24) by lia. unfold le32, u8.
  rewrite !Z.shiftr_div_pow2 by lia.
  change (2 ^ 8) with 256. change (2 ^ 16) with 65536. change (2 ^ 24) with 16777216.
  assert (E : forall q r M, 0 < M -> 0 <= r < M -> (r + q * M) / M = q /\ (r + q * M) mod M = r).
  { intros q r M HM Hr. rewrite Z.div_add, Z.mod_add, Z.div_small, Z.mod_small by lia. lia. }
  set (n := b0 + b1 * 256 + b2 * 65536 + b3 * 16777216).
  assert (E0 : n mod 256 = b0).
  { replace n with (b0 + (b1 + b2 * 256 + b3 * 65536) * 256) by (unfold n; lia). apply E; lia. }
  assert (E1 : n / 256 mod 256 = b1).
  { replace n with (b0 + (b1 + (b2 + b3 * 256) * 256) * 256) by (unfold n; lia).
    rewrite (proj1 (E _ b0 256 ltac:(lia) ltac:(lia))). apply E; lia. }
  assert (E2 : n / 65536 mod 256 = b2).
  { replace n with ((b0 + b1 * 256) + (b2 + b3 * 256) * 65536) by (unfold n; lia).
    rewrite (proj1 (E _ (b0 + b1 * 256) 65536 ltac:(lia) ltac:(lia))). apply E; lia. }
  assert (E3 : n / 16777216 mod 256 = b3).
  { replace n with ((b0 + b1 * 256 + b2 * 65536) + b3 * 16777216) by (unfold n; lia).
    rewrite (proj1 (E _ (b0 + b1 * 256 + b2 * 65536) 16777216 ltac:(lia) ltac:(lia))).
    apply Z.mod_small. lia. }
  by rewrite E0, E1, E2, E3.
Qed.

Lemma parsePacket_cons m0 m1 c0 c1 c2 c3 t k payload :
  parsePacket (m0 :: m1 :: c0 :: c1 :: c2 :: c3 :: t :: k :: payload) =
  if negb (m0 =? 66) || negb (m1 =? 69) then Err BadMagic
  else if negb (t =? 0xFF) then Err MissingTerminator
  else if negb (le_u32 [c0; c1; c2; c3] =? ChecksumIEEE (t :: k :: payload)) then Err CRCMismatch
  else Ok (k, payload).
Proof. reflexivity. Qed.

Lemma parse_build kind payload : is_byte kind -> Forall is_byte payload ->
  parsePacket (buildPacket kind payload) = Ok (kind, payload).
Proof.
  intros Hk Hp.
  assert (Hin : Forall is_byte (255 :: kind :: payload))
    by (rewrite !Forall_cons; unfold is_byte in *; split_and!; done || lia).
  unfold buildPacket. cbv zeta.
  pose proof (le_u32_le32 _ [] (ChecksumIEEE_range _ Hin)) as Hcrc. rewrite app_nil_r in Hcrc.
  remember (ChecksumIEEE (255 :: kind :: payload)) as crc eqn:Ecrc.
  change ([66; 69] ++ le32 crc ++ 255 :: kind :: payload) with
    (66 :: 69 :: u8 crc :: u8 (Z.shiftr crc 8) :: u8 (Z.shiftr crc 16) :: u8 (Z.shiftr crc 24)
     :: 255 :: kind :: payload).
  rewrite parsePacket_cons, <- Ecrc. fold (le32 crc). rewrite Hcrc, (Z.eqb_refl crc). reflexivity.
Qed.

Lemma build_parse pkt kind payload : Forall is_byte pkt ->
  parsePacket pkt = Ok (kind, payload) -> pkt = buildPacket kind payload.
Proof.
  intros Hb H.
  destruct pkt as [|m0 [|m1 [|c0 [|c1 [|c2 [|c3 [|t [|k rest]]]]]]]]; try discriminate H.
  rewrite parsePacket_cons in H.
  destruct (Z.eqb_spec m0 66) as [->|]; [|discriminate H].
  destruct (Z.eqb_spec m1 69) as [->|]; [|discriminate H]. cbn [negb orb] in H.
  destruct (Z.eqb_spec t 255) as [->|]; [|discriminate H]. cbn [negb] in H.
  destruct (Z.eqb_spec (le_u32 [c0; c1; c2; c3]) (ChecksumIEEE (255 :: k :: rest))) as [E|];
    [|discriminate H]. cbn [negb] in H. inv_ok.
  unfold buildPacket. cbv zeta. rewrite <- E, le32_le_u32; [done|done|].
  rewrite !Forall_cons in Hb. rewrite !Forall_cons. by destruct Hb as (? & ? & ? & ? & ? & ? & _).
Qed.

(** *** Fragments *)

(** Page [i] of a reply. *)
Definition page_map (pages : list (list Z)) : gmap Z (list Z) :=
  list_to_map (imap (fun i c => (Z.of_nat i, c)) pages).

Lemma page_map_lookup pages i c :
  page_map pages !! i = Some c <-> exists k, i = Z.of_nat k /\ pages !! k = Some c.
Proof.
  unfold page_map.
  assert (Hnd : NoDup (imap (fun i c => (Z.of_nat i, c)) pages).*1).
  { rewrite fmap_imap. apply NoDup_alt. intros a b x Ha Hb.
    apply list_lookup_imap_Some in Ha as (? & ? & ->), Hb as (? & ? & Hb). simpl in Hb. lia. }
  rewrite <- elem_of_list_to_map by done. rewrite list_elem_of_lookup. split.
  - intros (k & Hk). apply list_lookup_imap_Some in Hk as (x & Hx & [= -> ->]). eauto.
  - intros (k & -> & Hk). exists k. apply list_lookup_imap_Some. eauto.
Qed.

Lemma page_map_size pages : size (page_map pages) = length pages.
Proof.
  unfold page_map. rewrite <- (length_imap (fun i c => (Z.of_nat i, c)) pages).
  rewrite map_size_list_to_map; [done|].
  rewrite fmap_imap. apply NoDup_alt. intros a b x Ha Hb.
  apply list_lookup_imap_Some in Ha as (? & ? & ->), Hb as (? & ? & Hb). simpl in Hb. lia.
Qed.

(** Collecting is concatenating the pages in index order. *)
Lemma collect_spec n m b : collect n m = Some b <->
  exists cs, length cs = n /\ b = concat cs /\ forall k c, cs !! k = Some c -> m !! Z.of_nat k = Some c.
Proof.
  revert b. induction n as [|n IH]; intros b; simpl.
  - split.
    + intros [= <-]. exists []. split_and!; try done.
    + intros (cs & Hl & -> & _). by destruct cs.
  - split.
    + destruct (collect n m) as [pre|] eqn:E; [|done]. destruct (m !! Z.of_nat n) as [c|] eqn:Ec; [|done].
      intros [= <-]. destruct (proj1 (IH pre) eq_refl) as (cs & Hl & -> & Hcs).
      exists (cs ++ [c]). split_and!; [rewrite length_app; simpl; lia|by rewrite concat_app; simpl; rewrite app_nil_r|].
      intros k x Hk. apply lookup_snoc_Some in Hk as [[? ?]|[-> ->]]; [auto|by rewrite Hl].
    + intros (cs & Hl & -> & Hcs).
      destruct (exists_last (l:=cs)) as (cs' & c & ->); [by intros ->|].
      rewrite length_app in Hl. simpl in Hl. assert (Hl' : length cs' = n) by lia.
      rewrite (proj2 (IH (concat cs'))).
      * rewrite (Hcs n c); [by rewrite concat_app; simpl; rewrite app_nil_r|].
        rewrite lookup_app_r, Hl', Nat.sub_diag by lia. done.
      * exists cs'. split_and!; try done. intros k x Hk. apply Hcs. by apply lookup_app_l_Some.
Qed.

Lemma collect_pages pages : collect (length pages) (page_map pages) = Some (concat pages).
Proof. apply collect_spec. exists pages. split_and!; try done. intros k c Hk. apply page_map_lookup. eauto. Qed.

(** The accumulator that the next page with this total meets. *)
Definition pending_chunks (sq total : Z) (st : io_state) : gmap Z (list Z) :=
  match partial st !! sq with
  | Some f => if ftotal f =? total then chunks f else ∅
  | None => ∅
  end.

Lemma deliverFragment_eq sq total idx chunk st ch : waiters st !! sq = Some ch ->
  let m := <[idx := chunk]> (pending_chunks sq total st) in
  deliverFragment sq total idx chunk st =
  match (if total <=? Z.of_nat (size m) then collect (Z.to_nat total) m else None) with
  | None => with_partial st (<[sq := MkFrag total m]> (partial st))
  | Some full => offer sq (Body full) (with_partial st (delete sq (partial st)))
  end.
Proof.
  intros Hw m. unfold deliverFragment. rewrite Hw. unfold m, pending_chunks.
  destruct (partial st !! sq) as [[t cs]|]; simpl; [|done].
  by destruct (Z.eqb_spec t total) as [->|].
Qed.

(** A delivered reply stays in the channel. *)
Lemma offer_keeps sq r q b st : waiters st !! sq = Some (Some b) -> waiters (offer q r st) !! sq = Some (Some b).
Proof.
  intros H. unfold offer. destruct (waiters st !! q) as [[]|] eqn:E; [done| |done]. simpl.
  rewrite lookup_insert_ne; [done|]. intros ->. congruence.
Qed.

Lemma deliverFragment_keeps sq total idx chunk q b st :
  waiters st !! sq = Some (Some b) -> waiters (deliverFragment q total idx chunk st) !! sq = Some (Some b).
Proof.
  intros H. destruct (waiters st !! q) as [ch|] eqn:E.
  - rewrite (deliverFragment_eq q total idx chunk st ch E). cbv zeta.
    case_match; [by apply offer_keeps|done].
  - unfold deliverFragment. by rewrite E.
Qed.

Lemma fragments_arrive sq pages ps : forall st,
  let total := Z.of_nat (length pages) in
  waiters st !! sq = Some None ->
  pending_chunks sq total st ⊆ page_map pages -> pending_chunks sq total st <> page_map pages ->
  (forall i c, (i, c) ∈ ps -> page_map pages !! i = Some c) ->
  (forall i, is_Some (page_map pages !! i) ->
     is_Some (pending_chunks sq total st !! i) \/ exists c, (i, c) ∈ ps) ->
  waiters (foldl (fun st p => deliverFragment sq total p.1 p.2 st) st ps) !! sq
    = Some (Some (Body (concat pages))).
Proof.
  induction ps as [|[i c] ps IH]; intros st total Hw Hsub Hne Hps Hcov; simpl.
  - exfalso. apply Hne. apply map_subseteq_po; [done|]. apply map_subseteq_spec. intros i c Hi.
    destruct (Hcov i ltac:(eauto)) as [[c' Hc']|(? & H)]; [|by apply elem_of_nil in H].
    pose proof (lookup_weaken _ _ _ _ Hc' Hsub). congruence.
  - set (m := <[i := c]> (pending_chunks sq total st)).
    assert (Hm : m ⊆ page_map pages) by (apply insert_subseteq_l; [apply Hps; set_solver|done]).
    rewrite (deliverFragment_eq sq total i c st None Hw). cbv zeta. fold m.
    destruct (Z.leb_spec total (Z.of_nat (size m))) as [Hfull|Hpart].
    + assert (m = page_map pages) as ->.
      { apply map_subseteq_size_eq; [done|]. rewrite page_map_size. lia. }
      replace (Z.to_nat total) with (length pages) by (unfold total; lia). rewrite collect_pages.
      assert (Hd : waiters (offer sq (Body (concat pages)) (with_partial st (delete sq (partial st)))) !! sq
                   = Some (Some (Body (concat pages)))).
      { unfold offer. simpl. rewrite Hw. simpl. apply lookup_insert_eq. }
      revert Hd. generalize (offer sq (Body (concat pages)) (with_partial st (delete sq (partial st)))).
      clear. induction ps as [|p ps IH]; intros st Hd; simpl; [done|]. by apply IH, deliverFragment_keeps.
    + assert (Hp : pending_chunks sq total (with_partial st (<[sq := MkFrag total m]> (partial st))) = m).
      { unfold pending_chunks. simpl. rewrite lookup_insert_eq. simpl. by rewrite Z.eqb_refl. }
      apply IH; fold total; rewrite ?Hp; try done.
      * intros E. rewrite E, page_map_size in Hpart. lia.
      * intros j x Hj. apply Hps. set_solver.
      * intros j Hj. unfold m. destruct (Hcov j Hj) as [Hin|(x & [Hx|Hx]%elem_of_cons)].
        -- left. destruct (decide (i = j)) as [->|]; [rewrite lookup_insert_eq; eauto|by rewrite lookup_insert_ne].
        -- simplify_eq. left. rewrite lookup_insert_eq. eauto.
        -- right. eauto.
Qed.

(** *** What a delivered reply is made of *)

(** The history of one socket, newest event first: packets handled by the read
    loop, and calls registering and removing their waiter. *)
Inductive bop := BPacket (pkt : list Z) | BRegister (sq : Z) | BUnregister (sq : Z).

Inductive brun : list bop -> io_state -> Prop :=
| brun_nil : brun [] fresh_io
| brun_packet h st pkt : brun h st -> brun (BPacket pkt :: h) (handlePacket pkt st).1
| brun_register h st sq : brun h st -> waiters st !! sq = None -> brun (BRegister sq :: h) (register sq st)
| brun_unregister h st sq : brun h st -> brun (BUnregister sq :: h) (unregister sq st).

(** The packets handled since [sq] was last registered. *)
Fixpoint since (sq : Z) (h : list bop) : list (list Z) :=
  match h with
  | [] => []
  | BPacket pkt :: h' => pkt :: since sq h'
  | BRegister q :: h' => if q =? sq then [] else since sq h'
  | BUnregister _ :: h' => since sq h'
  end.

(** [pkt] is a command packet with this payload. *)
Definition carries (pkt payload : list Z) : Prop := parsePacket pkt = Ok (beTypeCommand, payload).

(** [b] is the body of one reply packet, or the concatenation of a complete set of
    pages of one fragmented reply. *)
Definition justified (pkts : list (list Z)) (sq : Z) (b : list Z) : Prop :=
  (exists pkt, pkt ∈ pkts /\ carries pkt (sq :: b)) \/
  exists cs, (2 <= length cs)%nat /\ b = concat cs /\
    forall k c, cs !! k = Some c ->
      exists pkt, pkt ∈ pkts /\ carries pkt (sq :: 0 :: Z.of_nat (length cs) :: Z.of_nat k :: c).

Record binv (h : list bop) (st : io_state) : Prop := {
  binv_partial sq : waiters st !! sq = None -> partial st !! sq = None;
  binv_chunks sq f i c : partial st !! sq = Some f -> chunks f !! i = Some c ->
    2 <= ftotal f /\ exists pkt, pkt ∈ since sq h /\ carries pkt (sq :: 0 :: ftotal f :: i :: c);
  binv_reply sq r : waiters st !! sq = Some (Some r) -> exists b, r = Body b /\ justified (since sq h) sq b
}.

Lemma justified_mono p1 p2 sq b : (forall x, x ∈ p1 -> x ∈ p2) -> justified p1 sq b -> justified p2 sq b.
Proof.
  intros Hm [(pkt & Hp & Hc)|(cs & Hl & -> & Hcs)]; [left; eauto|right].
  exists cs. split_and!; try done. intros k c Hk. destruct (Hcs k c Hk) as (pkt & ? & ?). eauto.
Qed.

(** Events that leave waiters and accumulators alone. *)
Lemma binv_same h e st st' : binv h st -> waiters st' = waiters st -> partial st' = partial st ->
  (forall sq x, x ∈ since sq h -> x ∈ since sq (e :: h)) -> binv (e :: h) st'.
Proof.
  intros [H1 H2 H3] Hw Hp Hm. split; rewrite ?Hw, ?Hp; [done| |].
  - intros sq f i c Hf Hc. destruct (H2 sq f i c Hf Hc) as (? & pkt & ? & ?). eauto.
  - intros sq r Hr. destruct (H3 sq r Hr) as (b & ? & Hj). exists b. split; [done|].
    by eapply justified_mono; [apply Hm|].
Qed.

Lemma binv_offer h st sq b : binv h st -> justified (since sq h) sq b -> binv h (offer sq (Body b) st).
Proof.
  intros [H1 H2 H3] Hj. unfold offer. destruct (waiters st !! sq) as [[]|] eqn:E; [done| |done].
  split; simpl.
  - intros q Hq. apply lookup_insert_None in Hq as [Hq _]. auto.
  - done.
  - intros q r Hq. apply lookup_insert_Some in Hq as [[<- Hr]|[_ Hr]]; [|auto].
    simplify_eq. eauto.
Qed.

Lemma binv_deliver h st sq total idx chunk pkt : binv h st -> 2 <= total ->
  pkt ∈ since sq h -> carries pkt (sq :: 0 :: total :: idx :: chunk) ->
  binv h (deliverFragment sq total idx chunk st).
Proof.
  intros Hinv Ht Hpkt Hc. destruct (waiters st !! sq) as [ch|] eqn:Ew.
  2:{ unfold deliverFragment. by rewrite Ew. }
  rewrite (deliverFragment_eq sq total idx chunk st ch Ew). cbv zeta.
  set (m := <[idx := chunk]> (pending_chunks sq total st)).
  assert (Hm : forall i c, m !! i = Some c ->
    exists pkt, pkt ∈ since sq h /\ carries pkt (sq :: 0 :: total :: i :: c)).
  { intros i c Hi. apply lookup_insert_Some in Hi as [[<- <-]|[_ Hi]]; [eauto|].
    unfold pending_chunks in Hi. destruct (partial st !! sq) as [f|] eqn:Ef; [|by rewrite lookup_empty in Hi].
    destruct (Z.eqb_spec (ftotal f) total) as [Hft|]; [|by rewrite lookup_empty in Hi].
    rewrite <- Hft. by destruct (binv_chunks _ _ Hinv sq f i c Ef Hi) as [_ ?]. }
  destruct (if total <=? _ then _ else None) as [full|] eqn:Ecol.
  - apply binv_offer.
    + destruct Hinv as [H1 H2 H3]. split; simpl; [|intros q f i c Hq|done].
      * intros q Hq. apply lookup_delete_None. auto.
      * apply lookup_delete_Some in Hq as [_ Hq]. by apply H2.
    + destruct (total <=? Z.of_nat (size m)); [|done].
      apply collect_spec in Ecol as (cs & Hl & -> & Hcs). right. exists cs.
      split_and!; [lia|done|]. intros k c Hk. replace (Z.of_nat (length cs)) with total by lia. auto.
  - destruct Hinv as [H1 H2 H3]. split; simpl; [|intros q f i c Hq|done].
    + intros q Hq. rewrite lookup_insert_None. split; [auto|]. intros ->. congruence.
    + apply lookup_insert_Some in Hq as [[<- <-]|[_ Hq]]; [|by apply H2]. simpl. auto.
Qed.

Lemma binv_reply_packet h st pkt payload : binv h st -> pkt ∈ since (nth 0 payload 0) h -> carries pkt payload ->
  binv h (handleCommandReply payload st).
Proof.
  intros Hinv Hin Hc. destruct payload as [|sq rest]; [done|]. cbn [nth] in Hin. unfold handleCommandReply.
  assert (Hplain : binv h (offer sq (Body rest) st)) by (apply binv_offer; [done|left; eauto]).
  destruct rest as [|[|p|p] [|total [|idx chunk]]]; try exact Hplain.
  destruct (Z.leb_spec 2 total); cbn [andb]; [|exact Hplain].
  destruct (idx <? total); [|exact Hplain]. by eapply binv_deliver.
Qed.

Lemma brun_inv h st : brun h st -> binv h st.
Proof.
  induction 1 as [|h st pkt _ IH|h st sq _ IH Hw|h st sq _ IH].
  - split; simpl; intros *; rewrite lookup_empty; done.
  - assert (Hstep : binv (BPacket pkt :: h) st).
    { eapply binv_same; [exact IH|done|done|]. simpl. set_solver. }
    unfold handlePacket. destruct (parsePacket pkt) as [[kind payload]|e] eqn:Ep; [|done].
    destruct (kind =? beTypeLogin).
    { destruct (loginCh st); [|done]. eapply binv_same; [exact IH|done|done|]. simpl. set_solver. }
    destruct (kind =? beTypeMessage); [by destruct payload|].
    destruct (Z.eqb_spec kind beTypeCommand) as [->|]; [|done].
    eapply binv_reply_packet; [done| |exact Ep]. simpl. set_solver.
  - destruct IH as [H1 H2 H3]. split; simpl.
    + intros q Hq. apply lookup_insert_None in Hq as [Hq _]. auto.
    + intros q f i c Hf Hi. destruct (Z.eqb_spec sq q) as [->|]; [|eauto].
      rewrite (H1 q Hw) in Hf. done.
    + intros q r Hr. apply lookup_insert_Some in Hr as [[_ ?]|[Hne Hr]]; [done|].
      destruct (Z.eqb_spec sq q) as [->|]; [done|]. eauto.
  - destruct IH as [H1 H2 H3]. split; simpl.
    + intros q Hq. apply lookup_delete_None. apply lookup_delete_None in Hq as [?|?]; auto.
    + intros q f i c Hf Hi. apply lookup_delete_Some in Hf as [_ Hf]. eauto.
    + intros q r Hr. apply lookup_delete_Some in Hr as [_ Hr]. eauto.
Qed.
End BattlEyeFacts.

(** ** Properties *)
Import BattlEye BattlEyeFacts.

(** Packets: what [writePacket] submits is read back by [readPacket] as the
    same id, kind and body, with nothing else consumed; it refuses exactly the
    bodies whose payload exceeds 4096 bytes. *)
Lemma rcon_packet_roundtrip id kind body rest f :
  0 <= id < 2 ^ 32 -> 0 <= kind < 2 ^ 32 ->
  match encodePacket id kind body with
  | Ok pkt => readPacket (Stream (pkt ++ rest) f) = (Ok (id, kind, body), Stream rest f)
  | Err e => e = RTooLarge (10 + Z.of_nat (length body)) /\ 4096 < 10 + Z.of_nat (length body)
  end.
Proof.
  intros Hid Hk. destruct (encodePacket id kind body) as [pkt|e] eqn:E.
  - apply encodePacket_frame in E as [-> Hl]. apply readPacket_frame.
    unfold frame_ok, maxPacketSize. simpl. lia.
  - unfold encodePacket in E. rewrite payload_length in E.
    destruct (Z.ltb_spec 4096 (Z.of_nat (10 + length body))); [|done]. inv_ok. split; [f_equal; lia|lia].
Qed.

(** [Exec] on an idle, authenticated connection: whatever complete packets
    arrive before the deadline, in whatever mix of request ids, the result is
    the concatenation, in order, of the bodies that echo this request's id; the
    connection is kept exactly when the wait ended with a timeout, and with no
    such packet the call fails and drops it. The command goes out once. *)
Lemma exec_collects_answers env cmd c fs :
  conn c = Some [] -> 10 + Z.of_nat (length cmd) <= 4096 -> e_write_exec env = true ->
  Forall frame_ok fs -> e_in env = frames fs ->
  let reqID := (allocID c).1 in
  let got := negb (bool_decide (answers reqID fs = [])) in
  exists c' pkt, encodePacket reqID typeExecCmd cmd = Ok pkt /\
    Exec env cmd c =
      (if got then Ok (concat (answers reqID fs)) else Err (RIO (e_fin env)), c', [Sent pkt]) /\
    conn c' = (if got && isTimeout (RIO (e_fin env)) then Some [] else None) /\ nextID c' = reqID.
Proof.
  intros Hc Hcmd Hw Hfs Hin reqID got.
  unfold Exec, ensureLocked. rewrite Hc. unfold reqID, got, allocID. cbn [fst]. cbv zeta.
  set (id := if u32 (nextID c + 1) =? 0 then 1 else u32 (nextID c + 1)). cbn [conn]. rewrite Hc.
  destruct (encodePacket id typeExecCmd cmd) as [pkt|e] eqn:Ee.
  2:{ unfold encodePacket in Ee. rewrite payload_length in Ee.
      destruct (Z.ltb_spec 4096 (Z.of_nat (10 + length cmd))); [lia|done]. }
  rewrite Hw. cbn [negb default from_option app pending]. rewrite Hin.
  pose proof (frames_length fs) as Hlen.
  change (Datatypes.id [] ++ frames fs) with (frames fs).
  rewrite exec_loop_frames by (done || lia). cbn [orb].
  eexists _, pkt. split; [done|]. split; [reflexivity|].
  change (answers reqID fs) with (answers id fs).
  destruct (negb (bool_decide (answers id fs = []))); cbn [andb]; [|by split].
  by destruct (isTimeout (RIO (e_fin env))); split.
Qed.

(** Authentication back-off: after a login was rejected, every further call
    within the cooldown fails at once with the cached rejection, without
    dialling or sending anything, and leaves the client as it is. *)
Lemma auth_backoff env cmd c c' w calls :
  Exec env cmd c = (Err (RAuth false), c', w) ->
  0 < authFailureCooldown c -> e_failed_at env <> 0 ->
  Forall (fun call => Sub (e_now call.1) (e_failed_at env) < authFailureCooldown c) calls ->
  run_calls calls c' = (map (fun _ => (Err (RAuth true), [])) calls, c').
Proof.
  intros H Hcd Ht Hcalls. apply Exec_rejected in H as (Hc & Hl & Hcd').
  induction Hcalls as [|[env1 cmd1] calls Hnow _ IH]; simpl; [done|].
  rewrite Exec_backoff by (rewrite ?Hl, ?Hcd'; done). by rewrite IH.
Qed.

(** BattlEye packets: a byte string is accepted by [parsePacket] exactly when
    it is the packet [buildPacket] makes of the kind and payload returned; any
    other magic, terminator, checksum or truncation is refused. *)
Lemma battleye_packet_exact pkt kind payload :
  Forall is_byte pkt -> is_byte kind -> Forall is_byte payload ->
  parsePacket pkt = Ok (kind, payload) <-> pkt = buildPacket kind payload.
Proof. intros Hp Hk Hpl. split; [by apply build_parse|]. intros ->. by apply parse_build. Qed.

(** Reassembly in any order: when every page of a reply has arrived at least
    once for a waiting call, in any order and with any duplicates, the call has
    received the pages concatenated by index. *)
Lemma battleye_fragments_any_order sq pages ps st :
  pages <> [] -> waiters st !! sq = Some None -> partial st !! sq = None ->
  (forall i c, (i, c) ∈ ps -> exists k, i = Z.of_nat k /\ pages !! k = Some c) ->
  (forall k, (k < length pages)%nat -> exists c, (Z.of_nat k, c) ∈ ps) ->
  waiters (foldl (fun st p => deliverFragment sq (Z.of_nat (length pages)) p.1 p.2 st) st ps) !! sq
    = Some (Some (Body (concat pages))).
Proof.
  intros Hne Hw Hp Hps Hcov.
  assert (He : pending_chunks sq (Z.of_nat (length pages)) st = ∅) by (unfold pending_chunks; by rewrite Hp).
  apply fragments_arrive; rewrite ?He; try done.
  - apply map_empty_subseteq.
  - intros E. pose proof (page_map_size pages) as Hs. rewrite <- E, map_size_empty in Hs. by destruct pages.
  - intros i c Hi. by apply page_map_lookup, Hps.
  - intros i [c Hc]. apply page_map_lookup in Hc as (k & -> & Hk). right. apply Hcov.
    by eapply lookup_lt_Some.
Qed.

(** No splicing: over any history of packets, registrations and removals, a
    reply that a call receives is the body of a single packet or a complete set
    of pages of one page count, all of them carrying its sequence number and
    all handled after the call registered. *)
Lemma battleye_no_splice h st sq r :
  brun h st -> waiters st !! sq = Some (Some r) ->
  exists b, r = Body b /\ justified (since sq h) sq b.
Proof. intros H. apply (binv_reply _ _ (brun_inv h st H)). Qed.

(** *** The grace period *)



(** *** Witnesses *)

Lemma rcon_packet_roundtrip_witness :
  readPacket (Stream (frame 7 2 [108; 105; 115; 116] ++ [9]) EOF) = (Ok (7, 2, [108; 105; 115; 116]), Stream [9] EOF).
Proof.
  assert (E : encodePacket 7 2 [108; 105; 115; 116] = Ok (frame 7 2 [108; 105; 115; 116])) by reflexivity.
  pose proof (rcon_packet_roundtrip 7 2 [108; 105; 115; 116] [9] EOF ltac:(lia) ltac:(lia)) as H.
  rewrite E in H. exact H.
Defined.

(** A reply in two fragments around a stray packet of an older request. *)
Definition demo_frames : list (Z * Z * list Z) := [(5, 0, [65; 66]); (4, 0, [9]); (5, 0, [67])].
Definition demo_env : rcon_env :=
  MkEnv 1 (Some []) true true [] EOF 1 true (frames demo_frames) ErrTransport.

Lemma exec_collects_answers_witness :
  exists c' pkt, encodePacket 5 typeExecCmd [108] = Ok pkt /\
    Exec demo_env [108] (MkClient (Some []) 4 0 15) = (Ok [65; 66; 67], c', [Sent pkt]) /\
    conn c' = Some [] /\ nextID c' = 5.
Proof.
  exact (exec_collects_answers demo_env [108] (MkClient (Some []) 4 0 15) demo_frames
    eq_refl ltac:(simpl; lia) eq_refl
    ltac:(repeat constructor; unfold maxPacketSize; simpl; lia) eq_refl).
Defined.

(** The server answers the login with id -1. *)
Definition demo_reject : rcon_env :=
  MkEnv 100 (Some [112]) true true (frame 0xFFFFFFFF 2 []) EOF 101 true [] EOF.

Lemma auth_backoff_witness :
  exists c' w, Exec demo_reject [108] (New 15) = (Err (RAuth false), c', w) /\
    run_calls [(MkEnv 105 (Some [112]) true true [] EOF 0 true [] EOF, [108])] c' =
    ([(Err (RAuth true), [])], c').
Proof.
  do 2 eexists. split; [vm_compute; reflexivity|].
  refine (auth_backoff demo_reject [108] (New 15) _ _ [(MkEnv 105 (Some [112]) true true [] EOF 0 true [] EOF, [108])] _ _ _ _).
  - vm_compute. reflexivity.
  - reflexivity.
  - discriminate.
  - repeat constructor.
Defined.

Lemma battleye_packet_exact_witness :
  parsePacket (buildPacket 1 [0; 104; 105]) = Ok (1, [0; 104; 105]) <->
  buildPacket 1 [0; 104; 105] = buildPacket 1 [0; 104; 105].
Proof.
  apply (battleye_packet_exact (buildPacket 1 [0; 104; 105]) 1 [0; 104; 105]).
  - vm_compute. repeat constructor; discriminate.
  - unfold is_byte. lia.
  - repeat constructor; unfold is_byte; lia.
Defined.

Lemma battleye_fragments_any_order_witness :
  waiters (foldl (fun st p => deliverFragment 3 2 p.1 p.2 st) (register 3 fresh_io)
    [(1, [99]); (1, [99]); (0, [97; 98])]) !! 3 = Some (Some (Body [97; 98; 99])).
Proof.
  refine (battleye_fragments_any_order 3 [[97; 98]; [99]] [(1, [99]); (1, [99]); (0, [97; 98])]
    (register 3 fresh_io) _ _ _ _ _).
  - discriminate.
  - vm_compute. reflexivity.
  - vm_compute. reflexivity.
  - intros i c H. rewrite !elem_of_cons, elem_of_nil in H.
    destruct H as [H|[H|[H|[]]]]; apply pair_inj in H as [-> ->];
      [exists 1%nat|exists 1%nat|exists 0%nat]; split; reflexivity.
  - intros k Hk. destruct k as [|[|k]]; [exists [97; 98]|exists [99]|simpl in Hk; lia];
      rewrite !elem_of_cons; auto.
Defined.

Lemma battleye_no_splice_witness :
  exists b, Body [104; 105] = Body b /\ justified (since 0 [BPacket (buildPacket 1 [0; 104; 105]); BRegister 0]) 0 b.
Proof.
  refine (battleye_no_splice [BPacket (buildPacket 1 [0; 104; 105]); BRegister 0]
    (handlePacket (buildPacket 1 [0; 104; 105]) (register 0 fresh_io)).1 0 (Body [104; 105]) _ _).
  - apply brun_packet, brun_register; [apply brun_nil|reflexivity].
  - vm_compute. reflexivity.
Defined.
