(* ===== verification/Idle.v ===== *)
(** * operator: idle policy, restart tokens and the wake sentinel plan

    The pure policy [idleDecide] and its persistence (src/operator/internal/
    controller/gameserver_idle.go), the restart token protocol
    (gameserver_restart.go), and the decision whether a sentinel stands in for
    the game pod, with the port configuration it is given
    (gameserver_sentinel.go).  Cluster reads are arguments; the cron library and
    the RFC 3339 codec are section variables. *)

From S2P Require Import Prelude GoText GoTime GoToken.
From Stdlib Require Import Ascii.
Local Open Scope Z_scope.

(** ** Data *)

(** [IdleSpec] *)
Record IdleSpec := MkIdleSpec {
  Enabled : bool;
  AfterMinutes : option Z;
  WakeWindows : list string;
  WakeOnConnect : bool
}.

(** [idleState] *)
Inductive idleState := idleAwake | idleAsleep.

#[export] Instance idleState_eq_dec : EqDecision idleState.
Proof. solve_decision. Defined.

(** The texts of [IdleStatus.Reason]. *)
Inductive reason :=
| NoReason
| StoppedByUser
| WokenByRequest
| AsleepWindowInvalid
| WokenByWindow
| AsleepNoPlayers
| Busy
| NotRunning (phase : string)
| HeartbeatStale
| NoPlayerCount
| PlayersOnline (n : Z)
| SleepingIn (remaining : duration).

(** [IdleStatus] *)
Record IdleStatus := MkIdleStatus {
  Asleep : bool;
  AsleepSince : option time;
  EmptySince : option time;
  LastWakeTime : option time;
  Reason : reason
}.

(** [idleInputs] *)
Record idleInputs := MkIn {
  spec : option IdleSpec;
  suspended : bool;
  phase : string;
  hbFresh : bool;
  playersOnline : option Z;
  busy : bool;
  asleepSince : option time;
  emptySince : option time;
  lastWakeTime : option time;
  wakePending : bool;
  now : time
}.

(** [idleOutcome] *)
Record idleOutcome := MkOut {
  ostate : idleState;
  sleep : bool;
  wake : bool;
  ostatus : option IdleStatus;
  requeue : duration;
  oerr : bool   (** a malformed wake window *)
}.

Definition defaultIdleAfter : duration := 30 * Minute.
Definition idleReevaluate : duration := 5 * Minute.
Definition phaseRunning : string := "Running".

(** [nonEmptyPhase] *)
Definition nonEmptyPhase (p : string) : string := if String.eqb p "" then "Pending" else p.

(** [idleEligible]: [None] when idle time accrues, else why not. *)
Definition idleEligible (i : idleInputs) : option reason :=
  if busy i then Some Busy
  else if negb (String.eqb (phase i) phaseRunning) then Some (NotRunning (nonEmptyPhase (phase i)))
  else if negb (hbFresh i) then Some HeartbeatStale
  else match playersOnline i with
  | None => Some NoPlayerCount
  | Some n => if 0 <? n then Some (PlayersOnline n) else None
  end.

Section Policy.
(** github.com/robfig/cron: a parsed schedule and its next activation after an
    instant, the zero time when there is none. *)
Context {Schedule : Type} (ParseStandard : string -> option Schedule) (Next : Schedule -> time -> time).

(** [validateWakeWindows]: [true] is an error. *)
Definition validateWakeWindows (windows : list string) : bool :=
  existsb (fun w => match ParseStandard w with Some _ => false | None => true end) windows.

(** [wakeWindowDue]: [Err] for a window that does not parse. *)
Fixpoint wakeWindowDue_from (soonest : time) (windows : list string) (asleepSince now : time)
  : result unit (bool * time) :=
  match windows with
  | [] => Ok (false, soonest)
  | w :: rest =>
      match ParseStandard w with
      | None => Err tt
      | Some sched =>
          let next := Next sched asleepSince in
          if negb (After next now) then Ok (true, zero_time)
          else wakeWindowDue_from (if IsZero soonest || Before next soonest then next else soonest)
                 rest asleepSince now
      end
  end.
Definition wakeWindowDue := wakeWindowDue_from zero_time.

(** [untilNext] *)
Definition untilNext (next now : time) : duration :=
  if IsZero next then idleReevaluate
  else let d := Sub next now in if 0 <? d then d else Second.

(** The idle period. *)
Definition idleAfter (sp : IdleSpec) : duration :=
  match AfterMinutes sp with None => defaultIdleAfter | Some m => s64 (m * Minute) end.

(** [idleDecide] *)
Definition idleDecide (i : idleInputs) : idleOutcome :=
  let marked := match asleepSince i with Some _ => true | None => false end in
  match spec i with
  | None => MkOut idleAwake false marked None 0 false
  | Some sp =>
      if negb (Enabled sp) then MkOut idleAwake false marked None 0 false
      else
        let st := MkIdleStatus false None None (lastWakeTime i) in
        let scheduleErr := validateWakeWindows (WakeWindows sp) in
        if suspended i then MkOut idleAwake false marked (Some (st StoppedByUser)) 0 scheduleErr
        else if wakePending i then
          MkOut idleAwake false true (Some (MkIdleStatus false None None (Some (now i)) WokenByRequest)) 0 scheduleErr
        else match asleepSince i with
        | Some since =>
            let asleep := MkIdleStatus true (Some since) None (lastWakeTime i) in
            if scheduleErr then MkOut idleAsleep false false (Some (asleep AsleepWindowInvalid)) idleReevaluate true
            else match wakeWindowDue (WakeWindows sp) since (now i) with
            | Err _ => MkOut idleAsleep false false (Some (asleep AsleepWindowInvalid)) idleReevaluate true
            | Ok (true, _) =>
                MkOut idleAwake false true (Some (MkIdleStatus false None None (Some (now i)) WokenByWindow)) 0 false
            | Ok (false, next) =>
                MkOut idleAsleep false false (Some (asleep AsleepNoPlayers)) (untilNext next (now i)) false
            end
        | None =>
            match idleEligible i with
            | Some why => MkOut idleAwake false false (Some (st why)) 0 scheduleErr
            | None =>
                let since := default (now i) (emptySince i) in
                let remaining := s64 (idleAfter sp - Sub (now i) since) in
                if 0 <? remaining then
                  MkOut idleAwake false false
                    (Some (MkIdleStatus false None (Some since) (lastWakeTime i) (SleepingIn remaining)))
                    remaining scheduleErr
                else
                  MkOut idleAsleep true false
                    (Some (MkIdleStatus true (Some (now i)) None (lastWakeTime i) AsleepNoPlayers)) 0 scheduleErr
            end
        end
  end.
End Policy.

(** ** Persistence *)

Definition IdleAsleepSinceAnnotation : string := "gameplane.local/idle-asleep-since".
Definition IdleWakeRequestedAnnotation : string := "gameplane.local/idle-wake-requested".
Definition IdleWakeCompletedAnnotation : string := "gameplane.local/idle-wake-completed".
Definition RestartRequestedAnnotation : string := "gameplane.local/restart-requested".
Definition RestartCompletedAnnotation : string := "gameplane.local/restart-completed".
Definition WipeRequestedAnnotation : string := "gameplane.local/wipe-data-requested".
Definition WipeCompletedAnnotation : string := "gameplane.local/wipe-data-completed".
Definition stopRequestedAtAnnotation : string := "gameserver.gameplane.local/stop-requested-at".

Abbreviation annots := (gmap string string).

(** [gs.Annotations[key]], the empty string when absent. *)
Definition ann (m : annots) (key : string) : string := default EmptyString (m !! key).

(** [tokenPending] *)
Definition tokenPending (m : annots) (requested completed : string) : bool :=
  let req := ann m requested in
  negb (String.eqb req "") && negb (String.eqb req (ann m completed)).

Section Persist.
(** [time.Parse(time.RFC3339, _)] and [t.Format(time.RFC3339)]. *)
Context (ParseRFC3339 : string -> option time) (FormatRFC3339 : time -> string).
Context {Schedule : Type} (ParseStandard : string -> option Schedule) (Next : Schedule -> time -> time).

(** [parseAnnotationTime] *)
Definition parseAnnotationTime (m : annots) (key : string) : option time :=
  raw ← m !! key; ParseRFC3339 raw.

(** [applyIdleTransition]: the annotations submitted in the one patch. *)
Definition applyIdleTransition (m : annots) (out : idleOutcome) (now : time) : annots :=
  if sleep out then <[IdleAsleepSinceAnnotation := FormatRFC3339 now]> m
  else if wake out then
    let m1 := delete stopRequestedAtAnnotation (delete IdleAsleepSinceAnnotation m) in
    let tok := ann m1 IdleWakeRequestedAnnotation in
    if negb (String.eqb tok "") then <[IdleWakeCompletedAnnotation := tok]> m1 else m1
  else m.

(** The fields of a GameServer that [reconcileIdle] reads. *)
Record gameServer := MkGS {
  gAnnotations : annots;
  gIdle : option IdleSpec;
  gSuspend : bool;
  gPhase : string;
  gHbFresh : bool;
  gPlayers : option Z;
  gStatus : option IdleStatus
}.

(** The inputs gathered by [reconcileIdle]. *)
Definition gatherInputs (gs : gameServer) (now : time) : idleInputs :=
  let m := gAnnotations gs in
  MkIn (gIdle gs) (gSuspend gs) (gPhase gs) (gHbFresh gs) (gPlayers gs)
    (tokenPending m RestartRequestedAnnotation RestartCompletedAnnotation ||
     tokenPending m WipeRequestedAnnotation WipeCompletedAnnotation)
    (parseAnnotationTime m IdleAsleepSinceAnnotation)
    (st ← gStatus gs; EmptySince st) (st ← gStatus gs; LastWakeTime st)
    (tokenPending m IdleWakeRequestedAnnotation IdleWakeCompletedAnnotation) now.

Inductive idle_err := OwnerErr | PatchErr.

(** [reconcileIdle].  [owner] is the answer of [lifecycleOwner]: whether an
    operation holds the server, or an error; [patch_ok] the outcome of the patch.
    Returns the annotations afterwards with the state, status, requeue and
    schedule error. *)
Definition reconcileIdle (owner : option bool) (patch_ok : bool) (gs : gameServer) (now : time)
  : result idle_err (annots * idleState * option IdleStatus * duration * bool) :=
  match owner with
  | None => Err OwnerErr
  | Some true =>
      let state := match parseAnnotationTime (gAnnotations gs) IdleAsleepSinceAnnotation with
                   | Some _ => idleAsleep | None => idleAwake end in
      Ok (gAnnotations gs, state, gStatus gs, idleReevaluate, false)
  | Some false =>
      let out := idleDecide ParseStandard Next (gatherInputs gs now) in
      if sleep out || wake out then
        if patch_ok
        then Ok (applyIdleTransition (gAnnotations gs) out now, ostate out, ostatus out, requeue out, oerr out)
        else Err PatchErr
      else Ok (gAnnotations gs, ostate out, ostatus out, requeue out, oerr out)
  end.
End Persist.

(** ** Restart tokens *)

(** [restartDecision] *)
Inductive restartDecision := restartNone | restartDraining | restartComplete.

(** [restartPhase]: [replicas] is [Status.Replicas] of the StatefulSet as read,
    [Ok None] when it is absent. *)
Definition restartPhase (m : annots) (replicas : result unit (option Z)) : result unit restartDecision :=
  let req := ann m RestartRequestedAnnotation in
  if String.eqb req "" || String.eqb req (ann m RestartCompletedAnnotation) then Ok restartNone
  else match replicas with
  | Ok None => Ok restartComplete
  | Err _ => Err tt
  | Ok (Some n) => if n =? 0 then Ok restartComplete else Ok restartDraining
  end.

(** [ackRestart] *)
Definition ackRestart (m : annots) : annots :=
  delete stopRequestedAtAnnotation
    (<[RestartCompletedAnnotation := ann m RestartRequestedAnnotation]> m).

(** ** The sentinel plan *)

(** [GamePort], the fields in use. *)
Record GamePort := MkGamePort { gpName : string; gpContainerPort : Z; gpProtocol : string; gpAdvertise : bool; gpWakeProtocol : string }.

(** [wakeOnConnectEligible] *)
Definition wakeOnConnectEligible (idle : option IdleSpec) (ports : list GamePort) : bool :=
  match idle with
  | None => false
  | Some sp =>
      if negb (Enabled sp) || negb (WakeOnConnect sp) then false
      else existsb (fun p => gpAdvertise p && negb (String.eqb (gpWakeProtocol p) "none")) ports
  end.

(** [sentinelPlan] *)
Record sentinelPlan := MkPlan { wantSentinel : bool; routeToSentinel : bool }.

(** [planSentinel]; the three cluster reads are given as the answers they would
    return. *)
Definition planSentinel (idle : option IdleSpec) (ports : list GamePort) (expose : string) (state : idleState)
  (sentinelIsReady sentinelExists gamePodReady : result unit bool) : result unit sentinelPlan :=
  if negb (wakeOnConnectEligible idle ports) then Ok (MkPlan false false)
  else match state with
  | idleAsleep =>
      match sentinelIsReady with Err e => Err e | Ok ready => Ok (MkPlan true ready) end
  | idleAwake =>
      if String.eqb expose "Hostport" then Ok (MkPlan false false)
      else
        match sentinelExists with
        | Err e => Err e
        | Ok false => Ok (MkPlan false false)
        | Ok true =>
            match gamePodReady with
            | Err e => Err e
            | Ok true => Ok (MkPlan false false)
            | Ok false => Ok (MkPlan true true)
            end
        end
  end.

(** [sentinelShutdownSettings]: the drain and the grace period in seconds. *)
Definition sentinelShutdownDrainTimeout : duration := 4 * (60 * Minute).
Definition sentinelShutdownGraceSlack : duration := 30 * Second.
Definition sentinelHostportGracePeriod : duration := 30 * Second.
Definition sentinelShutdownSettings (expose : string) : duration * Z :=
  if String.eqb expose "Hostport" then (0, sentinelHostportGracePeriod / Second)
  else (sentinelShutdownDrainTimeout, (sentinelShutdownDrainTimeout + sentinelShutdownGraceSlack) / Second).

(** [buildSentinelPortConfig] *)
Definition portEntry (p : GamePort) : string :=
  let proto := if String.eqb (gpProtocol p) "" then "TCP" else gpProtocol p in
  Itoa (gpContainerPort p) +:+ String ":"%char (proto +:+ String ":"%char (gpWakeProtocol p)).
Definition buildSentinelPortConfig (ports : list GamePort) : string :=
  Join ","%char (map portEntry (List.filter gpAdvertise ports)).
