(* ===== verification/IdleFacts.v ===== *)
(** * Facts about the idle policy

    What makes a server sleep, what wakes it, how a transition is written, and
    that the sentinel reads back the port configuration the operator wrote. *)

From S2P Require Import Prelude GoIO GoText GoTime GoToken Gameproto Sentinel Idle.
From Stdlib Require Import Ascii.
Local Open Scope Z_scope.

(** ** Passes and their read model *)

(** [metav1.Time] is stored as RFC 3339 with whole seconds. *)
Definition persisted (t : time) : time := t - t mod Second.

Lemma persisted_idem t : persisted (persisted t) = persisted t.
Proof. unfold persisted, Second. Z.to_euclidean_division_equations; lia. Qed.

Lemma persisted_bounds t : t - Second < persisted t <= t.
Proof. unfold persisted, Second. Z.to_euclidean_division_equations; lia. Qed.

Section Runs.
Context {Schedule : Type} (ParseStandard : string -> option Schedule) (Next : Schedule -> time -> time).
Abbreviation decide_idle := (idleDecide ParseStandard Next).

(** The inputs of a pass at which nobody but the idle policy has a say and the
    server is seen running, alive and without players. *)
Definition observed_empty (i : idleInputs) : Prop :=
  (exists sp, spec i = Some sp /\ Enabled sp = true) /\
  suspended i = false /\ wakePending i = false /\ asleepSince i = None /\
  busy i = false /\ phase i = phaseRunning /\ hbFresh i = true /\
  exists n, playersOnline i = Some n /\ n <= 0.

(** The clock a pass counts from. *)
Definition clock (i : idleInputs) : time := default (now i) (emptySince i).

Lemma idleEligible_None i : idleEligible i = None <->
  busy i = false /\ phase i = phaseRunning /\ hbFresh i = true /\
  exists n, playersOnline i = Some n /\ n <= 0.
Proof.
  unfold idleEligible. destruct (busy i); [naive_solver|].
  destruct (String.eqb_spec (phase i) phaseRunning); simpl; [|naive_solver].
  destruct (hbFresh i); simpl; [|naive_solver].
  destruct (playersOnline i) as [n|]; [|naive_solver].
  destruct (Z.ltb_spec 0 n); split; [|naive_solver lia|eauto 10|]; naive_solver lia.
Qed.

(** A pass that keeps a clock, or puts the server to sleep, saw it empty. *)
Lemma clock_observed i :
  (exists s, ostatus (decide_idle i) ≫= EmptySince = Some s) \/ sleep (decide_idle i) = true ->
  observed_empty i.
Proof.
  unfold idleDecide, observed_empty. intros H.
  destruct (spec i) as [sp|] eqn:Hs; [|simpl in *; naive_solver].
  destruct (Enabled sp) eqn:He; simpl in *; [|naive_solver].
  destruct (suspended i); [simpl in *; naive_solver|].
  destruct (wakePending i); [simpl in *; naive_solver|].
  destruct (asleepSince i) as [since|].
  { destruct (validateWakeWindows _ _); [simpl in *; naive_solver|].
    destruct (wakeWindowDue _ _ _ _ _) as [[[] ?]|]; simpl in *; naive_solver. }
  destruct (idleEligible i) eqn:Hel; [simpl in *; naive_solver|].
  apply idleEligible_None in Hel. split; [by eauto|]. naive_solver.
Qed.

Lemma clock_value i s : ostatus (decide_idle i) ≫= EmptySince = Some s -> s = clock i.
Proof.
  unfold idleDecide, clock.
  destruct (spec i) as [sp|]; [|done]. destruct (Enabled sp); [|done]. simpl.
  destruct (suspended i), (wakePending i); try done.
  destruct (asleepSince i) as [since|].
  { destruct (validateWakeWindows _ _); [done|]. by destruct (wakeWindowDue _ _ _ _ _) as [[[] ?]|]. }
  destruct (idleEligible i); [done|]. destruct (0 <? _); simpl; congruence.
Qed.

(** The CRD's bounds on [afterMinutes]. *)
Definition idleSpec_ok (sp : IdleSpec) : Prop :=
  forall m, AfterMinutes sp = Some m -> 5 <= m <= 1440.

Lemma idleAfter_bounds sp : idleSpec_ok sp -> 5 * Minute <= idleAfter sp <= 1440 * Minute.
Proof.
  unfold idleSpec_ok, idleAfter, defaultIdleAfter. intros H.
  destruct (AfterMinutes sp) as [m|]; [|unfold Minute, Second; lia].
  specialize (H m eq_refl). unfold s64, Minute, Second in *. rewrite Z.mod_small; lia.
Qed.

Lemma sleep_elapsed i sp : spec i = Some sp -> idleSpec_ok sp -> sleep (decide_idle i) = true ->
  - 2 ^ 62 < now i - clock i < 2 ^ 62 -> idleAfter sp <= now i - clock i.
Proof.
  intros Hs Hok Hsleep Hr. pose proof (idleAfter_bounds sp Hok) as Hb.
  destruct (clock_observed i) as ((sp' & Hs' & He) & Hsu & Hw & Ha & Hel); [by right|].
  rewrite Hs in Hs'. injection Hs' as <-. apply idleEligible_None in Hel.
  revert Hsleep. unfold idleDecide. rewrite Hs, He, Hsu, Hw, Ha, Hel. simpl. fold (clock i).
  rewrite Sub_exact by (unfold minDuration, maxDuration; lia).
  unfold s64, Minute, Second in *. rewrite Z.mod_small by lia.
  destruct (Z.ltb_spec 0 (idleAfter sp - (now i - clock i) + 2 ^ 63 - 2 ^ 63)); [done|lia].
Qed.

(** *** Passes over the stored status

    Every pass starts from a live read of the object ([ensureWipeGuard] fetches
    it past the cache) and the passes of one server are serial, so a pass reads
    the [status.idle] that is stored.  What it computes reaches the store only at
    the end, with the status patch of [reconcileStatus]: a pass that fails between
    the two leaves the stored clock as it was, and a pass under a lifecycle hold
    stores back the clock it read. *)
Context (ParseRFC3339 : string -> option time) (FormatRFC3339 : time -> string).

Record pass := MkPass {
  pOwner : option bool;   (** the answer of [lifecycleOwner] *)
  pPatch : bool;          (** the annotation patch succeeds *)
  pGs : gameServer;       (** the object read *)
  pNow : time;
  pStored : bool          (** the pass reaches its status patch, and that lands *)
}.

Definition inputs (p : pass) : idleInputs := gatherInputs ParseRFC3339 (pGs p) (pNow p).

(** A status as it is read back. *)
Definition readBack (st : IdleStatus) : IdleStatus :=
  MkIdleStatus (Asleep st) (persisted <$> AsleepSince st) (persisted <$> EmptySince st)
    (persisted <$> LastWakeTime st) (Reason st).

(** The [status.idle] a pass stores, when it stores one. *)
Definition stores (p : pass) : option (option IdleStatus) :=
  match reconcileIdle ParseRFC3339 FormatRFC3339 ParseStandard Next (pOwner p) (pPatch p) (pGs p) (pNow p) with
  | Ok (_, _, st, _, _) => if pStored p then Some (readBack <$> st) else None
  | Err _ => None
  end.

(** The passes of a server so far, newest first, and the [status.idle] stored;
    the status may also be wiped from outside. *)
Inductive history : list pass -> option IdleStatus -> Prop :=
| history_new : history [] None
| history_lost l st : history l st -> history l None
| history_pass p l st : history l st -> gStatus (pGs p) = st ->
    history (p :: l) (default st (stores p)).

(** The pass ran the policy and its outcome was stored. *)
Definition counted (p : pass) : Prop := pOwner p = Some false /\ is_Some (stores p).

(** The pass decides to write the asleep marker, whether or not the write is
    acknowledged. *)
Definition parks (p : pass) : Prop := pOwner p = Some false /\ sleep (decide_idle (inputs p)) = true.

(** What backs a stored clock [s]: a counted pass [j] that saw the server empty
    at [s], since which every counted pass saw it empty. *)
Definition backed (l : list pass) (s : time) : Prop :=
  exists obs older j, l = obs ++ older /\ last obs = Some j /\ counted j /\ observed_empty (inputs j) /\
    Forall (fun q => counted q -> observed_empty (inputs q)) obs /\ s = persisted (pNow j).

Lemma backed_cons p l s : (counted p -> observed_empty (inputs p)) -> backed l s -> backed (p :: l) s.
Proof.
  intros Hp (obs & older & j & -> & Hl & Hj). exists (p :: obs), older, j.
  split; [done|]. split; [by rewrite last_cons, Hl|]. naive_solver.
Qed.

Lemma stores_held p st : pOwner p = Some true -> stores p = Some st -> st = readBack <$> gStatus (pGs p).
Proof. unfold stores. intros ->. simpl. destruct (pStored p); congruence. Qed.

Lemma stores_counted p st : pOwner p = Some false -> stores p = Some st ->
  st = readBack <$> ostatus (decide_idle (inputs p)).
Proof.
  unfold stores, inputs. intros ->. simpl.
  destruct (sleep _ || wake _), (pPatch p), (pStored p); simpl; congruence.
Qed.

Lemma stored_clock_backed l st : history l st -> forall s, st ≫= EmptySince = Some s -> backed l s.
Proof.
  induction 1 as [|l st _ _|p l st _ IH Hread]; intros s Hs; [done|done|].
  destruct (stores p) as [st'|] eqn:Est; simpl in Hs.
  2: { apply backed_cons; [intros [_ [? ?]]; congruence|by apply IH]. }
  destruct (pOwner p) as [[]|] eqn:Eo; [| |by (unfold stores in Est; rewrite Eo in Est)].
  - rewrite (stores_held p st' Eo Est), Hread in Hs.
    destruct st as [st|]; [simpl in Hs|done]. destruct (EmptySince st) as [s0|] eqn:Es0; [|done].
    injection Hs as <-. apply backed_cons; [intros [? _]; congruence|].
    destruct (IH s0 Es0) as (obs & older & j & H1 & H2 & H3 & H4 & H5 & ->).
    exists obs, older, j. by rewrite persisted_idem.
  - rewrite (stores_counted p st' Eo Est) in Hs.
    assert (Hcl : exists s0, ostatus (decide_idle (inputs p)) ≫= EmptySince = Some s0 /\ s = persisted s0).
    { destruct (ostatus _) as [o|]; [simpl in *|done]. destruct (EmptySince o); [simplify_eq/=; eauto|done]. }
    destruct Hcl as (s0 & Hs0 & ->).
    assert (Hobs : observed_empty (inputs p)) by (apply clock_observed; eauto).
    apply clock_value in Hs0. unfold clock in Hs0.
    destruct (emptySince (inputs p)) as [e|] eqn:Ee; simpl in Hs0; subst s0.
    + apply backed_cons; [done|]. change (gStatus (pGs p) ≫= EmptySince = Some e) in Ee. rewrite Hread in Ee.
      destruct (IH e Ee) as (obs & older & j & H1 & H2 & H3 & H4 & H5 & ->).
      exists obs, older, j. by rewrite persisted_idem.
    + exists [p], l, p. split; [done|]. split; [done|].
      split; [split; [done|by eexists]|]. split; [done|].
      split; [apply Forall_singleton; auto|done].
Qed.

Lemma history_last p l st : history (p :: l) st -> history l (gStatus (pGs p)).
Proof.
  intros H. remember (p :: l) as l0 eqn:E. revert p l E.
  induction H as [|l0 st _ IH|q l0 st H _ Hr]; intros p l E; [done|eauto|]. by injection E as -> ->; rewrite Hr.
Qed.

End Runs.

(** A wake window is due when it fires by [now]. *)
Lemma wakeWindowDue_true {Schedule} (P : string -> option Schedule) N ws since now_ : forall soonest,
  validateWakeWindows P ws = false ->
  exists b t, wakeWindowDue_from P N soonest ws since now_ = Ok (b, t) /\
    (b = true <-> exists w s, In w ws /\ P w = Some s /\ N s since <= now_).
Proof.
  induction ws as [|w ws IH]; intros soonest; simpl.
  - intros _. exists false, soonest. split; [done|]. naive_solver.
  - destruct (P w) as [s|] eqn:Hp; simpl; [|done]. intros Hv. unfold After at 1.
    destruct (Z.ltb_spec now_ (N s since)) as [Hlt|Hle]; simpl.
    + destruct (IH (if IsZero soonest || Before (N s since) soonest then N s since else soonest) Hv)
        as (b & t & -> & Hb). exists b, t. split; [done|]. rewrite Hb. split.
      * intros (w' & s' & ? & ?). eauto.
      * intros (w' & s' & [<-|?] & Hp' & Hn); [|by eauto].
        rewrite Hp in Hp'. injection Hp' as <-. lia.
    + exists true, zero_time. split; [done|]. split; [|done]. intros _. exists w, s. auto.
Qed.

(** ** The port configuration *)

Lemma split_on_trailing c s : exists x l, split_on c (s +:+ String c EmptyString) = x :: l ++ [EmptyString].
Proof.
  induction s as [|d s (x & l & IH)]; simpl.
  - rewrite Ascii.eqb_refl. by exists EmptyString, [].
  - rewrite IH. destruct (Ascii.eqb d c); [by exists EmptyString, (x :: l)|by exists (String d x), l].
Qed.

(** [strings.Trim] leaves a list of non-empty fields joined by its byte alone. *)
Lemma trim_byte_Join c l : l <> [] -> Forall (fun s => free_of c s = true) l ->
  Forall (fun s => token s = true) l -> trim_byte c (GoToken.Join c l) = GoToken.Join c l.
Proof.
  intros Hne Hf Ht. pose proof (split_on_Join c l Hne Hf) as Hs.
  assert (Hnot : ~ EmptyString ∈ l) by (intros He; by eapply Forall_forall in Ht; [|exact He]).
  apply trim_byte_id; intros s' E; rewrite E in Hs; apply Hnot; rewrite <- Hs.
  - simpl. pose proof (split_on_ne c s'). destruct (split_on c s'); [done|].
    rewrite Ascii.eqb_refl. by left.
  - destruct (split_on_trailing c s') as (x & k & ->).
    apply list_elem_of_In. right. apply in_app_iff. right. by left.
Qed.

(** The CRD's constraints on a port. *)
Definition port_valid (p : GamePort) : Prop :=
  1 <= gpContainerPort p <= 65535 /\
  (gpProtocol p = "" \/ gpProtocol p = "TCP" \/ gpProtocol p = "UDP") /\
  (gpWakeProtocol p = "minecraft" \/ gpWakeProtocol p = "terraria" \/
   gpWakeProtocol p = "generic" \/ gpWakeProtocol p = "none").

(** The port as the sentinel should see it. *)
Definition sentinel_port (p : GamePort) : PortConfig :=
  MkPort (gpContainerPort p) (if String.eqb (gpProtocol p) "" then "TCP" else gpProtocol p) (gpWakeProtocol p).

Lemma portEntry_token p : port_valid p -> token (portEntry p) = true /\ free_of ","%char (portEntry p) = true.
Proof.
  intros (Hn & Hp & Hw). unfold portEntry. split.
  - apply token_app; [apply Itoa_token; lia|].
    by destruct Hp as [->|[->| ->]]; destruct Hw as [->|[->|[->| ->]]].
  - unfold free_of. rewrite str_all_app. apply andb_true_iff. split.
    + apply Itoa_free; [lia|done].
    + by destruct Hp as [->|[->| ->]]; destruct Hw as [->|[->|[->| ->]]].
Qed.

Lemma parsePort_entry ul uu p : port_valid p -> parsePort ul uu (portEntry p) = Ok (sentinel_port p).
Proof.
  intros (Hn & Hp & Hw). unfold parsePort, portEntry, sentinel_port.
  rewrite split_on_cons by (apply Itoa_free; [lia|done]).
  rewrite (TrimSpace_token (Itoa _)) by (apply Itoa_token; lia).
  rewrite ParseInt64_Itoa by lia.
  by destruct Hp as [->|[->| ->]]; destruct Hw as [->|[->|[->| ->]]].
Qed.

Lemma parseParts_entries ul uu ps : Forall port_valid ps ->
  parseParts ul uu (map portEntry ps) = Ok (map sentinel_port ps).
Proof.
  induction 1 as [|p ps Hp _ IH]; [done|]. cbn [map parseParts].
  destruct (portEntry_token p Hp) as [Ht _]. rewrite TrimSpace_token by done.
  destruct (String.eqb_spec (portEntry p) "") as [E|_]; [by rewrite E in Ht|].
  rewrite (parsePort_entry _ _ _ Hp). cbn. by rewrite IH.
Qed.

(** ** Properties *)

(** C20. A sleep is earned: over any history of passes that each read the stored
    status, fail before or at the status patch or not, run under a lifecycle hold
    or not, with the status possibly wiped in between, a pass decides to park the
    server only when it sees it enabled, not suspended, not asked awake, running,
    with a fresh heartbeat and a known count of no players, and some earlier pass
    that stored its outcome saw the same at least the configured period ago (up to
    the second lost in storage), since when every pass that ran the policy and
    stored its outcome saw it empty too.  Passes that store nothing and passes
    under a hold do not count: see [unstored_pass_ignored]. *)
Theorem idle_sleep_observed {Schedule} (P : string -> option Schedule) N R F p l st base sp :
  history P N R F (p :: l) st ->
  Forall (fun q => base <= pNow q < base + 2 ^ 61) (p :: l) ->
  gIdle (pGs p) = Some sp -> idleSpec_ok sp ->
  parks P N R p ->
  observed_empty (inputs R p) /\
  exists obs older j, l = obs ++ older /\ last obs = Some j /\
    counted P N R F j /\ observed_empty (inputs R j) /\
    Forall (fun q => counted P N R F q -> observed_empty (inputs R q)) obs /\
    idleAfter sp - Second < pNow p - pNow j.
Proof.
  intros Hh Hr Hs Hok [_ Hsl]. split; [apply (clock_observed P N); by right|].
  assert (He := sleep_elapsed P N (inputs R p) sp Hs Hok Hsl). apply history_last in Hh.
  pose proof (idleAfter_bounds sp Hok) as Hb. unfold clock in He.
  change (now (inputs R p)) with (pNow p) in He.
  change (emptySince (inputs R p)) with (gStatus (pGs p) ≫= EmptySince) in He.
  apply Forall_cons in Hr as [Hi Hr].
  destruct (gStatus (pGs p) ≫= EmptySince) as [s|] eqn:Es; simpl in He;
    [|unfold Minute, Second in *; specialize (He ltac:(lia)); lia].
  destruct (stored_clock_backed P N R F l _ Hh s Es) as (obs & older & j & -> & Hl & Hc & Ho & Hall & ->).
  exists obs, older, j. split_and!; try done.
  assert (Hj : base <= pNow j < base + 2 ^ 61).
  { eapply Forall_forall in Hr; [exact Hr|]. apply elem_of_app. left. by apply last_Some_elem_of. }
  pose proof (persisted_bounds (pNow j)) as Hp. assert (Second < 2 ^ 60) by done.
  specialize (He ltac:(lia)). lia.
Qed.

(** What wakes a parked server: a pass over a server marked asleep leaves it
    awake exactly when idling was turned off, the user stopped it, a wake request
    is pending, or every wake window parses and one of them fires, counted from
    the moment it fell asleep, no later than now.  The player count, the phase and
    the heartbeat have no part in it, and a window that never fires (whose next
    activation is the zero time) counts as due. *)
Lemma sleeping_server_wakes_iff {Schedule} (P : string -> option Schedule) N i since :
  asleepSince i = Some since ->
  (ostate (idleDecide P N i) = idleAwake <->
   (forall sp, spec i = Some sp -> Enabled sp = false) \/
   suspended i = true \/ wakePending i = true \/
   exists sp, spec i = Some sp /\ validateWakeWindows P (WakeWindows sp) = false /\
     exists w s, In w (WakeWindows sp) /\ P w = Some s /\ N s since <= now i) /\
  (ostate (idleDecide P N i) = idleAwake <-> wake (idleDecide P N i) = true) /\
  sleep (idleDecide P N i) = false.
Proof.
  intros Ha. unfold idleDecide. rewrite Ha.
  destruct (spec i) as [sp|] eqn:Hs; simpl; [|split; [|done]; split; [|done]; intros _; left; congruence].
  destruct (Enabled sp) eqn:He; simpl; [|split; [|done]; split; [|done]; intros _; left; congruence].
  assert (Hen : ~ (forall sp', Some sp = Some sp' -> Enabled sp' = false)) by naive_solver congruence.
  destruct (suspended i); [split; [|done]; split; [|done]; by auto|].
  destruct (wakePending i); [split; [|done]; split; [|done]; by auto|].
  destruct (validateWakeWindows P (WakeWindows sp)) eqn:Hv.
  { simpl. split; [|done]. split; [done|]. intros [?|[?|[?|(sp' & E & Hv' & _)]]]; try done.
    injection E as <-. congruence. }
  destruct (wakeWindowDue_true P N (WakeWindows sp) since (now i) zero_time Hv) as (b & t & Hw & Hb).
  unfold wakeWindowDue. rewrite Hw. destruct b; simpl; (split; [|done]).
  - split; [|done]. intros _. right. right. right. exists sp. split; [done|]. split; [done|]. by apply Hb.
  - split; [done|]. intros [?|[?|[?|(sp' & E & _ & Hx)]]]; try done.
    injection E as <-. by apply Hb in Hx.
Qed.

(** The annotations a pass may touch. *)
Definition idle_keys : list string :=
  [IdleAsleepSinceAnnotation; stopRequestedAtAnnotation; IdleWakeCompletedAnnotation].

(** The three keys of [applyIdleTransition] after each transition. *)
Lemma applyIdle_frame F m out t k : k ∉ idle_keys -> applyIdleTransition F m out t !! k = m !! k.
Proof.
  unfold idle_keys. intros Hk. unfold applyIdleTransition.
  assert (k <> IdleAsleepSinceAnnotation /\ k <> stopRequestedAtAnnotation /\ k <> IdleWakeCompletedAnnotation)
    as (H1 & H2 & H3) by set_solver.
  destruct (sleep out); [by rewrite lookup_insert_ne by congruence|].
  destruct (wake out); [|done].
  destruct (negb _); rewrite ?lookup_insert_ne by congruence; by rewrite !lookup_delete_ne by congruence.
Qed.

Lemma applyIdle_wake F m out t : sleep out = false -> wake out = true ->
  let m' := applyIdleTransition F m out t in
  m' !! IdleAsleepSinceAnnotation = None /\ m' !! stopRequestedAtAnnotation = None /\
  tokenPending m' IdleWakeRequestedAnnotation IdleWakeCompletedAnnotation = false.
Proof.
  intros Hs Hw. unfold applyIdleTransition, tokenPending, ann. rewrite Hs, Hw. cbn zeta.
  set (m1 := delete stopRequestedAtAnnotation (delete IdleAsleepSinceAnnotation m)).
  assert (Hm1 : m1 !! IdleAsleepSinceAnnotation = None /\ m1 !! stopRequestedAtAnnotation = None).
  { unfold m1. split; [rewrite lookup_delete_ne by done|]; by rewrite lookup_delete_eq. }
  destruct Hm1 as [Ha Hp]. destruct (String.eqb_spec (default EmptyString (m1 !! IdleWakeRequestedAnnotation)) "") as [E|E]; simpl.
  - rewrite E. done.
  - rewrite !lookup_insert_ne by done. rewrite lookup_insert_eq. simpl. split_and!; [done|done|].
    by rewrite String.eqb_refl, andb_false_r.
Qed.

(** The idle outcomes never ask for both transitions, and keep the marker's
    meaning: they say asleep when they mark, and awake when they clear. *)
Lemma idleDecide_transitions {Schedule} (P : string -> option Schedule) N i :
  let out := idleDecide P N i in
  (sleep out = true -> wake out = false /\ ostate out = idleAsleep) /\
  (wake out = true -> ostate out = idleAwake) /\
  (sleep out = false -> wake out = false -> ostate out = idleAsleep <-> is_Some (asleepSince i)).
Proof.
  unfold idleDecide. cbn zeta.
  destruct (spec i) as [sp|]; [destruct (Enabled sp)|]; simpl;
    [|destruct (asleepSince i); naive_solver..].
  destruct (suspended i); [destruct (asleepSince i); naive_solver|].
  destruct (wakePending i); [naive_solver|].
  destruct (asleepSince i) as [since|] eqn:E.
  - destruct (validateWakeWindows _ _); [naive_solver|].
    destruct (wakeWindowDue _ _ _ _ _) as [[[] ?]|]; simpl; naive_solver.
  - assert (~ is_Some (@None time)) by (by intros [? ?]).
    destruct (idleEligible i); [naive_solver|]. destruct (0 <? _); naive_solver.
Qed.

(** A transition is durable: whatever a successful pass decides, the state it
    returns agrees with the marker it leaves on the object; while a lifecycle
    operation holds the server nothing is written; otherwise a user's stop or a
    disabled policy leaves the server awake, and a wake request of an enabled
    server is honoured and acknowledged in the same write, which also drops the
    stop clock, so it is never honoured twice.  No other annotation changes. *)
Lemma idle_transition_durable {Schedule} (P : string -> option Schedule) N
    (ParseRFC3339 : string -> option time) FormatRFC3339 owner ok gs t m' st ist rq e :
  is_Some (ParseRFC3339 (FormatRFC3339 t)) ->
  reconcileIdle ParseRFC3339 FormatRFC3339 P N owner ok gs t = Ok (m', st, ist, rq, e) ->
  (st = idleAsleep <-> is_Some (parseAnnotationTime ParseRFC3339 m' IdleAsleepSinceAnnotation)) /\
  (owner = Some true -> m' = gAnnotations gs /\ ist = gStatus gs) /\
  (owner = Some false -> gSuspend gs = true \/ (forall sp, gIdle gs = Some sp -> Enabled sp = false) ->
     st = idleAwake) /\
  (owner = Some false -> gSuspend gs = false -> (exists sp, gIdle gs = Some sp /\ Enabled sp = true) ->
     tokenPending (gAnnotations gs) IdleWakeRequestedAnnotation IdleWakeCompletedAnnotation = true ->
     st = idleAwake /\ m' !! IdleAsleepSinceAnnotation = None /\ m' !! stopRequestedAtAnnotation = None /\
     tokenPending m' IdleWakeRequestedAnnotation IdleWakeCompletedAnnotation = false) /\
  (forall k, k ∉ idle_keys -> m' !! k = gAnnotations gs !! k).
Proof.
  intros Hrt H. destruct owner as [[]|]; simpl in H; inv_ok.
  - split; [|by split_and!]. destruct (parseAnnotationTime _ _ _); naive_solver.
  - set (i := gatherInputs ParseRFC3339 gs t) in *. set (out := idleDecide P N i) in *.
    destruct (idleDecide_transitions P N i) as (Hsl & Hwk & Hno). fold out in Hsl, Hwk, Hno.
    assert (Hm : m' = (if sleep out || wake out then applyIdleTransition FormatRFC3339 (gAnnotations gs) out t
                       else gAnnotations gs) /\ st = ostate out).
    { destruct (sleep out || wake out); [destruct ok|]; by inv_ok. }
    clear H. destruct Hm as [-> ->]. split_and!.
    + destruct (sleep out) eqn:Es.
      * destruct (Hsl eq_refl) as [_ ->]. split; [intros _|done].
        unfold applyIdleTransition, parseAnnotationTime. rewrite Es. simpl. by rewrite lookup_insert_eq.
      * destruct (wake out) eqn:Ew; simpl; [|by apply Hno].
        rewrite (Hwk eq_refl). destruct (applyIdle_wake FormatRFC3339 (gAnnotations gs) out t Es Ew) as (Ha & _).
        unfold parseAnnotationTime. rewrite Ha. split; [done|by intros [? ?]].
    + done.
    + intros _ Hu. unfold out, idleDecide.
      change (spec i) with (gIdle gs). change (suspended i) with (gSuspend gs).
      destruct (gIdle gs) as [sp|] eqn:Hi; [|done]. destruct (Enabled sp) eqn:He; [|done].
      destruct Hu as [->|Hd]; [done|]. rewrite (Hd _ eq_refl) in He. done.
    + intros _ Hsu (sp & Hi & He) Htok.
      assert (Hw : sleep out = false /\ wake out = true /\ ostate out = idleAwake).
      { unfold out, idleDecide. change (spec i) with (gIdle gs). change (suspended i) with (gSuspend gs).
        rewrite Hi, He, Hsu. simpl. by rewrite Htok. }
      destruct Hw as (E1 & E2 & E3). rewrite E1, E2. simpl. split; [done|].
      by apply applyIdle_wake.
    + intros k Hk. destruct (sleep out || wake out); [by apply applyIdle_frame|done].
Qed.

(** The operator and the sentinel agree on the ports: for every template the
    CRD admits, the sentinel parses the configuration the operator writes into
    exactly the advertised ports, in order, with the default protocol filled
    in. *)
Lemma sentinel_ports_roundtrip ul uu ports :
  Forall port_valid ports ->
  parsePortsConfig ul uu (buildSentinelPortConfig ports) =
    Ok (map sentinel_port (List.filter gpAdvertise ports)).
Proof.
  intros Hv. unfold buildSentinelPortConfig, parsePortsConfig.
  assert (Hf : Forall port_valid (List.filter gpAdvertise ports)).
  { apply Forall_forall. intros p Hp. apply list_elem_of_In, List.filter_In in Hp as [Hp _].
    eapply Forall_forall in Hv; [exact Hv|]. by apply list_elem_of_In. }
  destruct (List.filter gpAdvertise ports) as [|p ps]; [done|]. set (l := p :: ps) in *.
  assert (Hfree : Forall (fun s => free_of ","%char s = true) (map portEntry l))
    by (apply Forall_map; eapply Forall_impl; [exact Hf|]; intros; by apply portEntry_token).
  assert (Htok : Forall (fun s => token s = true) (map portEntry l))
    by (apply Forall_map; eapply Forall_impl; [exact Hf|]; intros; by apply portEntry_token).
  rewrite trim_byte_Join by done. cbn zeta.
  destruct (String.eqb_spec (GoToken.Join ","%char (map portEntry l)) "") as [E|_].
  { pose proof (split_on_Join ","%char (map portEntry l) ltac:(done) Hfree) as Hs.
    rewrite E in Hs. apply (f_equal (hd EmptyString)) in Hs. simpl in Hs.
    apply Forall_cons in Htok as [Ht _]. by rewrite <- Hs in Ht. }
  rewrite split_on_Join by done. by apply parseParts_entries.
Qed.

(** The game Service points at the sentinel only when a sentinel is wanted; while
    the server sleeps, only once the sentinel is ready; after a wake, never in
    Hostport mode and never past the readiness of the game pod. *)
Lemma planSentinel_safe idle ports expose st ready exists_ gameReady pl :
  planSentinel idle ports expose st ready exists_ gameReady = Ok pl ->
  (routeToSentinel pl = true -> wantSentinel pl = true /\ wakeOnConnectEligible idle ports = true) /\
  (st = idleAsleep -> routeToSentinel pl = true -> ready = Ok true) /\
  (st = idleAwake -> expose = "Hostport" \/ gameReady = Ok true -> wantSentinel pl = false).
Proof.
  unfold planSentinel. destruct (wakeOnConnectEligible idle ports); simpl; [|intros; inv_ok; by split_and!].
  destruct st.
  - destruct (String.eqb_spec expose "Hostport"); [intros; inv_ok; by split_and!|].
    destruct exists_ as [[]|]; [|intros; inv_ok; by split_and!|done].
    destruct gameReady as [[]|]; intros; inv_ok; split_and!; try done. intros _ [?|?]; congruence.
  - destruct ready as [[]|]; intros; inv_ok; by split_and!.
Qed.

(** An acknowledged restart is not pending any more, and leaves no stop clock. *)
Lemma ackRestart_settles m : tokenPending (ackRestart m) RestartRequestedAnnotation RestartCompletedAnnotation = false /\
  ackRestart m !! stopRequestedAtAnnotation = None.
Proof.
  unfold ackRestart, tokenPending, ann. split; [|by rewrite lookup_delete_eq].
  rewrite !lookup_delete_ne by done. rewrite lookup_insert_eq, lookup_insert_ne by done. simpl.
  by rewrite String.eqb_refl, andb_false_r.
Qed.

(** *** Witnesses *)

Definition demo_idle : IdleSpec := MkIdleSpec true (Some 5) ["0 18 * * *"] true.

(** A schedule is its next activation. *)
Definition demo_parse (s : string) : option Z := if String.eqb s "0 18 * * *" then Some (20 * Minute) else None.
Definition demo_next (s : Z) (_ : time) : time := s.

(** A pass at [t] over a running server with [n] players, stored or not. *)
Definition demo_pass (st : option IdleStatus) (n : Z) (stored : bool) (t : time) : pass :=
  MkPass (Some false) true (MkGS ∅ (Some demo_idle) false "Running" true (Some n) st) t stored.
Definition demo_clock : option IdleStatus :=
  Some (MkIdleStatus false None (Some 0) None (SleepingIn (5 * Minute))).

(** A first pass starts the clock, a second one sees three players but fails
    before its status patch, and a third finds the period over. *)
Definition demo_passes : list pass := [demo_pass demo_clock 3 false (3 * Minute); demo_pass None 0 true 7].
Definition demo_sleep : pass := demo_pass demo_clock 0 true (5 * Minute).
Abbreviation no_time := (fun _ : string => @None time).
Abbreviation no_text := (fun _ : time => EmptyString).

Lemma demo_history : exists st, history demo_parse demo_next no_time no_text (demo_sleep :: demo_passes) st.
Proof.
  eexists. apply history_pass with (st := demo_clock); [|reflexivity].
  apply (history_pass _ _ _ _ (demo_pass demo_clock 3 false (3 * Minute)) _ demo_clock); [|reflexivity].
  apply (history_pass _ _ _ _ (demo_pass None 0 true 7) _ None); [apply history_new|reflexivity].
Qed.

(** A pass that saw players but stored nothing does not restart the clock: the
    server is parked five minutes after the first pass although three players
    were seen two minutes ago. *)
Lemma unstored_pass_ignored :
  parks demo_parse demo_next no_time demo_sleep /\
  exists q, q ∈ demo_passes /\ gPlayers (pGs q) = Some 3 /\ pNow demo_sleep - pNow q < idleAfter demo_idle.
Proof.
  split; [by split|]. exists (demo_pass demo_clock 3 false (3 * Minute)).
  split; [left|]. by split.
Qed.

Lemma idle_sleep_observed_witness :
  exists obs older j, demo_passes = obs ++ older /\ last obs = Some j /\ observed_empty (inputs no_time j) /\
    idleAfter demo_idle - Second < 5 * Minute - pNow j.
Proof.
  destruct demo_history as [st Hh].
  refine (match idle_sleep_observed demo_parse demo_next no_time no_text demo_sleep demo_passes st 0 demo_idle
            Hh _ eq_refl _ _ with
          | conj _ (ex_intro _ obs (ex_intro _ older (ex_intro _ j
              (conj H1 (conj H2 (conj _ (conj H4 (conj _ H6)))))))) =>
              ex_intro _ obs (ex_intro _ older (ex_intro _ j (conj H1 (conj H2 (conj H4 H6))))) end).
  - repeat constructor; vm_compute; congruence.
  - intros m [= <-]. lia.
  - split; vm_compute; reflexivity.
Defined.

Definition demo_sleeper (t : time) : idleInputs :=
  MkIn (Some demo_idle) false "Running" true (Some 3) false (Some Minute) None None false t.

(** The windows decide; three players online do not. *)
Lemma sleeping_server_wakes_iff_witness :
  ostate (idleDecide demo_parse demo_next (demo_sleeper (20 * Minute))) = idleAwake /\
  ~ ostate (idleDecide demo_parse demo_next (demo_sleeper (19 * Minute))) = idleAwake.
Proof.
  split.
  - refine (proj2 (proj1 (sleeping_server_wakes_iff demo_parse demo_next (demo_sleeper (20 * Minute)) Minute _)) _);
      [reflexivity|]. right. right. right. exists demo_idle. split; [reflexivity|]. split; [reflexivity|].
    exists "0 18 * * *", (20 * Minute). split; [left; reflexivity|]. split; [reflexivity|]. vm_compute. congruence.
  - vm_compute. discriminate.
Defined.

Definition demo_gs : gameServer :=
  MkGS (<[IdleAsleepSinceAnnotation := "t1"]> (<[stopRequestedAtAnnotation := "t2"]>
        (<[IdleWakeRequestedAnnotation := "tok"]> ∅)))
    (Some demo_idle) false "Running" true (Some 0) None.

(** The annotations after the wake: marker and stop clock gone, token acknowledged. *)
Definition demo_woken : annots :=
  <[IdleWakeCompletedAnnotation := "tok"]> (<[IdleWakeRequestedAnnotation := "tok"]> ∅).

Lemma idle_transition_durable_witness :
  tokenPending demo_woken IdleWakeRequestedAnnotation IdleWakeCompletedAnnotation = false.
Proof.
  assert (Hrun : reconcileIdle (fun _ => Some 1) (fun _ => "t3") demo_parse demo_next (Some false) true demo_gs 9 =
    Ok (demo_woken, idleAwake, Some (MkIdleStatus false None None (Some 9) WokenByRequest), 0, false))
    by (vm_compute; reflexivity).
  assert (Hrt : is_Some ((fun _ : string => Some 1) ((fun _ : time => "t3") 9))) by (eexists; reflexivity).
  destruct (idle_transition_durable demo_parse demo_next (fun _ => Some 1) (fun _ => "t3")
              (Some false) true demo_gs 9 _ _ _ _ _ Hrt Hrun) as (_ & _ & _ & H & _).
  apply H; [reflexivity|reflexivity|exists demo_idle; split; reflexivity|vm_compute; reflexivity].
Defined.

Lemma sentinel_ports_roundtrip_witness :
  parsePortsConfig (fun r => r) (fun r => r)
    (buildSentinelPortConfig [MkGamePort "java" 25565 "" true "minecraft"; MkGamePort "rcon" 25575 "TCP" false "none";
                              MkGamePort "bedrock" 19132 "UDP" true "generic"]) =
  Ok [MkPort 25565 "TCP" "minecraft"; MkPort 19132 "UDP" "generic"].
Proof.
  apply (sentinel_ports_roundtrip (fun r => r) (fun r => r)
    [MkGamePort "java" 25565 "" true "minecraft"; MkGamePort "rcon" 25575 "TCP" false "none"; MkGamePort "bedrock" 19132 "UDP" true "generic"]).
  repeat apply Forall_cons_2; try apply Forall_nil_2;
    (split; [simpl; lia|]; split; simpl; auto 10).
Defined.
