(* ===== verification/Retention.v ===== *)
(** * operator: backup retention

    Which Backups of a schedule are deleted (src/operator/internal/controller/
    retention.go).  [sort.Slice] is a section variable: it is not stable, so
    only its documented contract is assumed where it matters. *)

From S2P Require Import Prelude GoTime GoToken GoDate.
From Stdlib Require Import Ascii.
Local Open Scope Z_scope.

(** [BackupRetention] *)
Record BackupRetention := MkRetention {
  KeepLast : Z;
  KeepHourly : Z;
  KeepDaily : Z;
  KeepWeekly : Z;
  KeepMonthly : Z;
  KeepYearly : Z
}.

(** [Backup], the fields retention reads; [bDeleting] is a non-zero
    [DeletionTimestamp]. *)
Record Backup := MkBackup {
  bName : string;
  bPhase : string;
  bCompletionTime : option time;
  bDeleting : bool
}.

#[export] Instance Backup_eq_dec : EqDecision Backup.
Proof. solve_decision. Defined.

(** [Restore], the fields retention reads. *)
Record Restore := MkRestore { rPhase : string; rBackupRef : string }.

(** ** Buckets *)

Inductive which := hour | day | week | month | year.

(** [isoWeekKey] *)
Definition isoWeekKey (year week : Z) : string := pad 4 year +:+ "-W" +:+ pad 2 week.

(** [bucket] *)
Definition bucket (t : time) (w : which) : string :=
  match w with
  | hour => formatHour t
  | day => formatDay t
  | week => let '(y, n) := ISOWeek t in isoWeekKey y n
  | month => formatMonth t
  | year => formatYear t
  end.

(** The completion time of a candidate; [trimBackups] only passes Backups that
    have one. *)
Definition completed (b : Backup) : time := default zero_time (bCompletionTime b).

(** ** [selectKept] *)

(** The loop of [keepByBucket], with the keys [seen] so far. *)
Fixpoint keepLoop (n : Z) (w : which) (seen : gset string) (keep : gset string) (l : list Backup) : gset string :=
  match l with
  | [] => keep
  | b :: rest =>
      let k := bucket (completed b) w in
      if decide (k ∈ seen) then keepLoop n w seen keep rest
      else
        let seen := {[k]} ∪ seen in
        let keep := {[bName b]} ∪ keep in
        if n <=? Z.of_nat (size seen) then keep else keepLoop n w seen keep rest
  end.

Definition keepByBucket (newestFirst : list Backup) (n : Z) (w : which) (keep : gset string) : gset string :=
  if n <=? 0 then keep else keepLoop n w ∅ keep newestFirst.

(** The clause for [KeepLast]. *)
Definition keepNewest (newestFirst : list Backup) (n : Z) (keep : gset string) : gset string :=
  if 0 <? n then list_to_set (map bName (take (Z.to_nat n) newestFirst)) ∪ keep else keep.

(** [selectKept] *)
Definition selectKept (newestFirst : list Backup) (ret : BackupRetention) : gset string :=
  let keep := keepNewest newestFirst (KeepLast ret) ∅ in
  let keep := keepByBucket newestFirst (KeepHourly ret) hour keep in
  let keep := keepByBucket newestFirst (KeepDaily ret) day keep in
  let keep := keepByBucket newestFirst (KeepWeekly ret) week keep in
  let keep := keepByBucket newestFirst (KeepMonthly ret) month keep in
  keepByBucket newestFirst (KeepYearly ret) year keep.

(** ** [trimBackups] *)

(** No positive keep rule: retention is disabled. *)
Definition retentionOff (ret : BackupRetention) : bool :=
  (KeepLast ret <=? 0) && (KeepHourly ret <=? 0) && (KeepDaily ret <=? 0) &&
  (KeepWeekly ret <=? 0) && (KeepMonthly ret <=? 0) && (KeepYearly ret <=? 0).

Definition restoreDone (rs : Restore) : bool :=
  String.eqb (rPhase rs) "Succeeded" || String.eqb (rPhase rs) "Failed".

(** The Backups an unfinished Restore reads. *)
Definition pinned (restores : list Restore) : gset string :=
  list_to_set (map rBackupRef (List.filter (fun rs => negb (restoreDone rs)) restores)).

Definition candidate (b : Backup) : bool :=
  String.eqb (bPhase b) "Succeeded" &&
  (match bCompletionTime b with Some _ => true | None => false end) &&
  negb (bDeleting b).

(** [sort.Slice]'s comparison. *)
Definition newer (a b : Backup) : Prop := completed b <= completed a.

(** The deletion loop: the deletes that succeeded, in order, and whether the
    loop ended with an error. *)
Fixpoint deleteLoop (spare : gset string) (delete : string -> bool) (l : list Backup) : list string * bool :=
  match l with
  | [] => ([], true)
  | b :: rest =>
      if decide (bName b ∈ spare) then deleteLoop spare delete rest
      else if delete (bName b) then
        let '(done, ok) := deleteLoop spare delete rest in (bName b :: done, ok)
      else ([], false)
  end.

Section Trim.
Context (sortSlice : list Backup -> list Backup).

(** [trimBackups]: [backups] and [restores] are the answers of the two List calls,
    [delete] the outcome of deleting a name.  Returns the deletes that succeeded
    and whether it returned nil. *)
Definition trimBackups (ret : option BackupRetention) (backups : option (list Backup))
  (restores : option (list Restore)) (delete : string -> bool) : list string * bool :=
  match ret with
  | None => ([], true)
  | Some ret =>
      if retentionOff ret then ([], true)
      else match backups, restores with
      | Some items, Some rss =>
          match List.filter candidate items with
          | [] => ([], true)
          | succeeded =>
              let newestFirst := sortSlice succeeded in
              deleteLoop (selectKept newestFirst ret ∪ pinned rss) delete newestFirst
          end
      | _, _ => ([], false)
      end
  end.
End Trim.
