(* ===== verification/RetentionFacts.v ===== *)
(** * Facts about backup retention

    [selectKept] keeps exactly what its policy describes, trimming never touches
    what it must not, and its decision does not drift as Backups are deleted. *)

From S2P Require Import Prelude GoTime GoToken GoDate Retention.
From Stdlib Require Import Ascii.
Local Open Scope Z_scope.

(** ** What one rule keeps *)

(** The Backups the loop of [keepByBucket] marks. *)
Fixpoint reps (n : Z) (w : which) (seen : gset string) (l : list Backup) : list Backup :=
  match l with
  | [] => []
  | b :: rest =>
      let k := bucket (completed b) w in
      if decide (k ∈ seen) then reps n w seen rest
      else b :: (if n <=? Z.of_nat (size ({[k]} ∪ seen)) then [] else reps n w ({[k]} ∪ seen) rest)
  end.

Definition names (l : list Backup) : gset string := list_to_set (map bName l).

Lemma elem_of_names x l : x ∈ names l <-> exists b, b ∈ l /\ bName b = x.
Proof.
  unfold names. rewrite elem_of_list_to_set, list_elem_of_fmap. naive_solver.
Qed.

Lemma keepLoop_reps n w l : forall seen keep, keepLoop n w seen keep l = names (reps n w seen l) ∪ keep.
Proof.
  induction l as [|b l IH]; intros seen keep; simpl; [set_solver|].
  case_decide; [apply IH|]. destruct (n <=? _); [|rewrite IH]; unfold names; simpl; set_solver.
Qed.

(** All that a rule and the whole policy keep, as lists. *)
Definition rule_reps (l : list Backup) (n : Z) (w : which) : list Backup :=
  if n <=? 0 then [] else reps n w ∅ l.

Definition bucket_rules (ret : BackupRetention) : list (Z * which) :=
  [(KeepHourly ret, hour); (KeepDaily ret, day); (KeepWeekly ret, week); (KeepMonthly ret, month); (KeepYearly ret, year)].

Definition kept_list (l : list Backup) (ret : BackupRetention) : list Backup :=
  take (Z.to_nat (KeepLast ret)) l ++ concat (map (fun r => rule_reps l r.1 r.2) (bucket_rules ret)).

Lemma keepByBucket_reps l n w keep : keepByBucket l n w keep = names (rule_reps l n w) ∪ keep.
Proof.
  unfold keepByBucket, rule_reps. destruct (n <=? 0); [unfold names; set_solver|]. apply keepLoop_reps.
Qed.

Lemma selectKept_list l ret : selectKept l ret = names (kept_list l ret).
Proof.
  unfold selectKept, kept_list, keepNewest. rewrite !keepByBucket_reps.
  unfold names. rewrite map_app, list_to_set_app_L. simpl.
  rewrite !map_app, !list_to_set_app_L. simpl.
  destruct (Z.ltb_spec 0 (KeepLast ret)); [set_solver|].
  rewrite Z2Nat.nonpos by lia. rewrite take_0. set_solver.
Qed.

Lemma reps_subset n w l : forall seen b, b ∈ reps n w seen l -> b ∈ l.
Proof.
  induction l as [|c l IH]; intros seen b; simpl; [done|]. case_decide; [set_solver|].
  destruct (n <=? _); set_solver.
Qed.

Lemma kept_subset l ret b : b ∈ kept_list l ret -> b ∈ l.
Proof.
  unfold kept_list. rewrite elem_of_app. intros [H|H]; [by apply elem_of_take in H as (? & ?%list_elem_of_lookup_2 & _)|].
  apply list_elem_of_In, in_concat in H as (k & Hk & Hb). apply in_map_iff in Hk as ([n w] & <- & _).
  apply list_elem_of_In in Hb. simpl in Hb. unfold rule_reps in Hb. destruct (n <=? 0); [by apply elem_of_nil in Hb|].
  by eapply reps_subset.
Qed.

(** ** Stability: a sublist that has the representatives has the same ones *)

Lemma reps_sublist n w S l : S `sublist_of` l -> NoDup l ->
  forall seen, (forall b, b ∈ reps n w seen l -> b ∈ S) -> reps n w seen S = reps n w seen l.
Proof.
  induction 1 as [|b S l Hs IH|b S l Hs IH]; intros Hnd seen Hall; [done|..];
    apply NoDup_cons in Hnd as [Hb Hnd].
  - simpl in *. assert (Htail : forall seen', (forall c, c ∈ reps n w seen' l -> c ∈ b :: S) ->
      reps n w seen' S = reps n w seen' l).
    { intros seen' H. apply IH; [done|]. intros c Hc. specialize (H c Hc).
      apply elem_of_cons in H as [->|?]; [|done]. by apply reps_subset in Hc. }
    case_decide; [by apply Htail|]. f_equal. destruct (n <=? _); [done|]. apply Htail. set_solver.
  - simpl in *. case_decide; [by apply IH|]. exfalso. apply Hb.
    eapply elem_of_sublist; [|exact Hs]. apply Hall. by left.
Qed.

Lemma take_sublist (S l : list Backup) : S `sublist_of` l -> NoDup l ->
  forall n, (forall b, b ∈ take n l -> b ∈ S) -> take n S = take n l.
Proof.
  induction 1 as [|b S l Hs IH|b S l Hs IH]; intros Hnd n Hall; [done|..];
    apply NoDup_cons in Hnd as [Hb Hnd]; destruct n as [|n]; try done; simpl in *.
  - f_equal. apply IH; [done|]. intros c Hc. specialize (Hall c ltac:(by right)).
    apply elem_of_cons in Hall as [->|?]; [|done].
    by apply elem_of_take in Hc as (? & ?%list_elem_of_lookup_2 & _).
  - exfalso. apply Hb. eapply elem_of_sublist; [|exact Hs]. apply Hall. by left.
Qed.

Lemma kept_sublist S l ret : S `sublist_of` l -> NoDup l ->
  (forall b, b ∈ kept_list l ret -> b ∈ S) -> kept_list S ret = kept_list l ret.
Proof.
  intros Hs Hnd Hall. unfold kept_list in *. f_equal.
  - apply take_sublist; [done..|]. set_solver.
  - f_equal. apply map_ext_in. intros [n w] Hin. unfold rule_reps. simpl.
    destruct (n <=? 0) eqn:En; [done|]. apply reps_sublist; [done..|]. intros b Hb. apply Hall.
    apply elem_of_app. right. apply list_elem_of_In, in_concat. exists (reps n w ∅ l).
    split; [|by apply list_elem_of_In]. apply in_map_iff. exists (n, w). split; [|done].
    unfold rule_reps. simpl. by rewrite En.
Qed.

(** ** The declarative policy *)

(** The calendar period of an instant. *)
Definition period (w : which) (t : time) : Z * Z :=
  match w with
  | hour => (0, t / Hour)
  | day => (0, t / Day)
  | week => (0, t / (7 * Day))
  | month => (date_of t).1
  | year => (0, (date_of t).1.1)
  end.

Lemma isoWeekKey_inj y n y' n' : 0 <= y -> 0 <= n -> 0 <= y' -> 0 <= n' ->
  isoWeekKey y n = isoWeekKey y' n' -> y = y' /\ n = n'.
Proof.
  intros Hy Hn Hy' Hn' E. unfold isoWeekKey in E.
  change (sep "-"%char (pad 4 y) (String "W" (pad 2 n)) = sep "-"%char (pad 4 y') (String "W" (pad 2 n'))) in E.
  apply sep_inj in E as [E1 E2]; [|by apply pad_free..].
  apply pad_inj in E1; [|done..]. injection E2 as E2. by apply pad_inj in E2.
Qed.

(** Two instants share a bucket exactly when they share the period. *)
Lemma bucket_iff w t u : 0 <= t -> 0 <= u -> bucket t w = bucket u w <-> period w t = period w u.
Proof.
  intros Ht Hu. destruct w; unfold bucket, period.
  - rewrite formatHour_iff by done. split; congruence.
  - rewrite formatDay_iff by done. unfold day_of. split; congruence.
  - transitivity (ISOWeek t = ISOWeek u); [|rewrite ISOWeek_iff by done; split; congruence].
    pose proof (ISOWeek_pos t Ht) as Pt. pose proof (ISOWeek_pos u Hu) as Pu.
    destruct (ISOWeek t) as [y n], (ISOWeek u) as [y' n']. cbn [fst snd] in *. split; [|congruence].
    intros E. apply isoWeekKey_inj in E as [-> ->]; tauto.
  - by rewrite formatMonth_iff.
  - rewrite formatYear_iff by done. split; congruence.
Qed.

(** The number of distinct values of [f] on a list. *)
Definition distinct {A K} `{Countable K} (f : A -> K) (l : list A) : nat :=
  size (list_to_set (map f l) : gset K).

Lemma size_add {K} `{Countable K} (x : K) (X : gset K) :
  size ({[x]} ∪ X) = if decide (x ∈ X) then size X else S (size X).
Proof.
  case_decide; [f_equal; set_solver|]. rewrite size_union by set_solver. by rewrite size_singleton.
Qed.

Lemma distinct_ext {A K K'} `{Countable K, Countable K'} (f : A -> K) (g : A -> K') l :
  (forall x y, x ∈ l -> y ∈ l -> f x = f y <-> g x = g y) -> distinct f l = distinct g l.
Proof.
  unfold distinct. induction l as [|a l IH]; intros Hfg; simpl; [done|].
  rewrite !size_add, IH by (intros; apply Hfg; set_solver).
  assert (Hiff : f a ∈ (list_to_set (map f l) : gset K) <-> g a ∈ (list_to_set (map g l) : gset K')).
  { rewrite !elem_of_list_to_set, !list_elem_of_fmap.
    split; intros (y & E & Hy); exists y; (split; [|done]); apply Hfg in E; (done || set_solver). }
  repeat case_decide; naive_solver.
Qed.

Lemma reps_spec n w l b : forall seen, Z.of_nat (size seen) < n ->
  b ∈ reps n w seen l <-> exists i, l !! i = Some b /\ (bucket (completed b) w ∉ seen) /\
    (forall c, c ∈ take i l -> bucket (completed c) w <> bucket (completed b) w) /\
    Z.of_nat (size (seen ∪ list_to_set (map (fun c => bucket (completed c) w) (take i l)))) < n.
Proof.
  induction l as [|a l IH]; intros seen Hn.
  { split; [by intros ?%elem_of_nil|]. by intros (i & ? & _). }
  cbn [reps].
  set (k c := bucket (completed c) w) in *. fold (k a) (k b).
  assert (Hsets : forall i X, X ∪ list_to_set (map k (take (S i) (a :: l))) =
    ({[k a]} ∪ X) ∪ (list_to_set (map k (take i l)) : gset string)) by (intros; simpl; set_solver).
  assert (Hshift : forall seen', Z.of_nat (size ({[k a]} ∪ seen')) < n ->
    b ∈ reps n w ({[k a]} ∪ seen') l <-> exists i, (a :: l) !! S i = Some b /\ (k b ∉ seen') /\
      (forall c, c ∈ take (S i) (a :: l) -> k c <> k b) /\
      Z.of_nat (size (seen' ∪ list_to_set (map k (take (S i) (a :: l))))) < n).
  { intros seen' Hs. rewrite IH by done. fold (k b). apply exist_proper. intros i. rewrite Hsets.
    simpl. set_solver. }
  assert (Hzero : (exists i, (a :: l) !! i = Some b /\ (k b ∉ seen) /\
      (forall c, c ∈ take i (a :: l) -> k c <> k b) /\ Z.of_nat (size (seen ∪ list_to_set (map k (take i (a :: l))))) < n)
    <-> (a = b /\ (k a ∉ seen)) \/ exists i, (a :: l) !! S i = Some b /\ (k b ∉ seen) /\
      (forall c, c ∈ take (S i) (a :: l) -> k c <> k b) /\
      Z.of_nat (size (seen ∪ list_to_set (map k (take (S i) (a :: l))))) < n).
  { split.
    - intros ([|i] & Hi & H); [left; simplify_eq/=; naive_solver|right; by exists i].
    - intros [[-> Hk]|(i & H)]; [|by exists (S i)]. exists 0%nat. simpl. split_and!; [done|done|set_solver|].
      by rewrite union_empty_r_L. }
  etransitivity; [|symmetry; exact Hzero]. clear Hzero. destruct (decide (k a ∈ seen)) as [Hin|Hout].
  - rewrite <- Hshift; replace ({[k a]} ∪ seen) with seen by set_solver; naive_solver.
  - rewrite elem_of_cons. destruct (Z.leb_spec n (Z.of_nat (size ({[k a]} ∪ seen)))) as [Hge|Hlt].
    + rewrite elem_of_nil. split; [naive_solver|]. intros [[-> _]|(i & _ & _ & _ & Hs)]; [by left|].
      rewrite Hsets in Hs. exfalso.
      assert (size ({[k a]} ∪ seen) <= size (({[k a]} ∪ seen) ∪ (list_to_set (map k (take i l)) : gset string)))%nat
        by (apply subseteq_size; set_solver). lia.
    + rewrite Hshift by done. naive_solver.
Qed.

(** A Backup a bucket rule promises to keep: the newest of its period, with fewer
    than [n] distinct periods among the newer ones. *)
Definition rule_keeps (n : Z) (w : which) (l : list Backup) (b : Backup) : Prop :=
  exists i, l !! i = Some b /\
    (forall c, c ∈ take i l -> period w (completed c) <> period w (completed b)) /\
    Z.of_nat (distinct (fun c => period w (completed c)) (take i l)) < n.

Lemma rule_reps_spec n w l b : Forall (fun c => 0 <= completed c) l ->
  b ∈ rule_reps l n w <-> rule_keeps n w l b.
Proof.
  intros Hpos. unfold rule_reps, rule_keeps.
  destruct (Z.leb_spec n 0) as [Hn|Hn].
  { rewrite elem_of_nil. split; [done|]. intros (i & _ & _ & H). lia. }
  rewrite reps_spec by (rewrite size_empty; lia). apply exist_proper. intros i.
  rewrite union_empty_l_L. fold (distinct (fun c => bucket (completed c) w) (take i l)).
  rewrite Forall_forall in Hpos.
  assert (Htake : forall c, c ∈ take i l -> 0 <= completed c)
    by (intros c Hc; apply elem_of_take in Hc as (? & ?%list_elem_of_lookup_2 & _); auto).
  split.
  - intros (Hi & _ & Hne & Hd). split; [done|]. assert (Hb := Hpos b ltac:(by eapply list_elem_of_lookup_2)). split.
    + intros c Hc E. apply (Hne c Hc), bucket_iff; auto.
    + rewrite <- (distinct_ext (fun c => bucket (completed c) w)); [done|]. intros. apply bucket_iff; auto.
  - intros (Hi & Hne & Hd). split; [done|]. split; [set_solver|].
    assert (Hb := Hpos b ltac:(by eapply list_elem_of_lookup_2)). split.
    + intros c Hc E. apply (Hne c Hc), bucket_iff; auto.
    + rewrite (distinct_ext _ (fun c => period w (completed c))); [done|]. intros. apply bucket_iff; auto.
Qed.

(** ** The deletion loop *)

Lemma or_iff_compat (A B C D : Prop) : (A <-> B) -> (C <-> D) -> A \/ C <-> B \/ D.
Proof. tauto. Qed.

Lemma filter_perm {A} (f : A -> bool) l l' : l ≡ₚ l' -> List.filter f l ≡ₚ List.filter f l'.
Proof.
  induction 1 as [|a l l' _ IH|a b l|]; simpl; [done|..].
  - destruct (f a); by rewrite IH.
  - destruct (f a), (f b); try done. apply Permutation_swap.
  - by etransitivity.
Qed.

Lemma filter_comm {A} (f g : A -> bool) l : List.filter f (List.filter g l) = List.filter g (List.filter f l).
Proof.
  induction l as [|a l IH]; simpl; [done|].
  destruct (f a) eqn:Ef, (g a) eqn:Eg; simpl; rewrite ?Ef, ?Eg; by rewrite IH.
Qed.

(** The names a pass sets out to delete. *)
Definition targets (spare : gset string) (l : list Backup) : list string :=
  List.filter (fun x => negb (bool_decide (x ∈ spare))) (map bName l).

Lemma deleteLoop_prefix spare del l : forall d ok, deleteLoop spare del l = (d, ok) ->
  exists rest, targets spare l = d ++ rest /\ (ok = true -> rest = []).
Proof.
  unfold targets. induction l as [|b l IH]; intros d ok H; simpl in *; [inv_ok; by exists []|].
  case_decide as Hb.
  - rewrite bool_decide_true by done. simpl. auto.
  - rewrite bool_decide_false by done. simpl. destruct (del (bName b)).
    + destruct (deleteLoop spare del l) as [d' ok']. inv_ok.
      destruct (IH _ _ eq_refl) as (rest & -> & Hr). by exists rest.
    + inv_ok. by eexists.
Qed.

Lemma deleteLoop_all spare l : deleteLoop spare (fun _ => true) l = (targets spare l, true).
Proof.
  unfold targets. induction l as [|b l IH]; simpl; [done|]. case_decide as Hb.
  - rewrite bool_decide_true by done. done.
  - rewrite bool_decide_false by done. simpl. by rewrite IH.
Qed.

Lemma elem_of_targets x spare l : x ∈ targets spare l <-> (x ∉ spare) /\ x ∈ map bName l.
Proof.
  unfold targets. rewrite !list_elem_of_In, List.filter_In, negb_true_iff, bool_decide_eq_false. tauto.
Qed.

Lemma head_kept b l ret : retentionOff ret = false -> b ∈ kept_list (b :: l) ret.
Proof.
  unfold retentionOff, kept_list. rewrite !andb_false_iff, !Z.leb_gt. intros H.
  assert (Hrule : forall n w, 0 < n -> b ∈ rule_reps (b :: l) n w).
  { intros n w Hn. unfold rule_reps. destruct (Z.leb_spec n 0); [lia|]. simpl.
    case_decide; [set_solver|]. by left. }
  simpl. rewrite !elem_of_app.
  assert (Hlast : 0 < KeepLast ret -> b ∈ take (Z.to_nat (KeepLast ret)) (b :: l)).
  { intros Hn. destruct (Z.to_nat (KeepLast ret)) eqn:E; [lia|]. by left. }
  naive_solver.
Qed.

(** [sort.Slice]: a permutation in the order of its comparison. *)
Class SortLaws (sort : list Backup -> list Backup) : Prop := {
  sort_perm l : sort l ≡ₚ l;
  sort_sorted l : StronglySorted newer (sort l)
}.

Section Trimming.
Context (sort : list Backup -> list Backup) `{!SortLaws sort}.
#[local] Set Default Proof Using "All".

Lemma trim_eq ret items rss del : retentionOff ret = false ->
  trimBackups sort (Some ret) (Some items) (Some rss) del =
    deleteLoop (selectKept (sort (List.filter candidate items)) ret ∪ pinned rss) del (sort (List.filter candidate items)).
Proof.
  intros Hon. unfold trimBackups. rewrite Hon.
  destruct (List.filter candidate items) as [|b l] eqn:E; [|done].
  assert (Hn : sort [] = []) by (apply Permutation_nil; symmetry; apply sort_perm). by rewrite Hn.
Qed.

Lemma sort_elem b items : b ∈ sort (List.filter candidate items) <-> b ∈ items /\ candidate b = true.
Proof. rewrite sort_perm. by rewrite !list_elem_of_In, List.filter_In. Qed.

Lemma sort_head b l items c : sort (List.filter candidate items) = b :: l ->
  c ∈ items -> candidate c = true -> completed c <= completed b.
Proof.
  intros E Hc Hcand. assert (Hin : c ∈ b :: l) by (rewrite <- E; by apply sort_elem).
  pose proof (sort_sorted (List.filter candidate items)) as Hs. rewrite E in Hs.
  apply StronglySorted_inv in Hs as [_ Hs]. rewrite Forall_forall in Hs.
  apply elem_of_cons in Hin as [->|Hin]; [lia|]. by apply Hs.
Qed.

(** Sorting commutes with dropping elements when no two completion times tie. *)
Lemma sort_filter (f : Backup -> bool) items :
  (forall a b, a ∈ items -> b ∈ items -> candidate a = true -> candidate b = true ->
     completed a = completed b -> a = b) ->
  sort (List.filter candidate (List.filter f items)) = List.filter f (sort (List.filter candidate items)).
Proof.
  intros Hinj. apply (StronglySorted_unique_strong newer).
  - intros a b Ha Hb H1 H2. unfold newer in *. apply sort_elem in Ha as [Ha Ca].
    apply list_elem_of_In, List.filter_In in Ha as [Ha _].
    apply list_elem_of_In, List.filter_In in Hb as [Hb _]. apply list_elem_of_In, sort_elem in Hb as [Hb Cb].
    apply Hinj; [by apply list_elem_of_In|done..|lia].
  - apply sort_sorted.
  - pose proof (sort_sorted (List.filter candidate items)) as Hs.
    induction Hs as [|b l Hl IH Hb]; simpl; [constructor|]. destruct (f b); [|done]. constructor; [done|].
    apply Forall_forall. intros c Hc. apply list_elem_of_In, List.filter_In in Hc as [Hc _].
    rewrite Forall_forall in Hb. by apply Hb, list_elem_of_In.
  - by rewrite sort_perm, filter_comm, (filter_perm f _ _ (sort_perm (List.filter candidate items))).
Qed.

End Trimming.

(** Backup names are unique in a namespace. *)
Definition names_unique (items : list Backup) : Prop := NoDup (map bName items).

Lemma names_inj items a b : names_unique items -> a ∈ items -> b ∈ items -> bName a = bName b -> a = b.
Proof.
  unfold names_unique. induction items as [|c items IH]; simpl; [by intros _ ?%elem_of_nil|].
  rewrite NoDup_cons. intros [Hc Hnd] Ha Hb E.
  apply elem_of_cons in Ha as [->|Ha]; apply elem_of_cons in Hb as [->|Hb]; [done|..|by apply IH].
  - exfalso. apply Hc. rewrite E. apply list_elem_of_fmap. eauto.
  - exfalso. apply Hc. rewrite <- E. apply list_elem_of_fmap. eauto.
Qed.

Lemma names_filter (f : Backup -> bool) items : names_unique items -> names_unique (List.filter f items).
Proof.
  unfold names_unique. induction items as [|c items IH]; simpl; [done|]. rewrite NoDup_cons. intros [Hc Hnd].
  destruct (f c); simpl; [|by apply IH]. apply NoDup_cons. split; [|by apply IH].
  intros (b & E & Hb)%list_elem_of_fmap. apply Hc, list_elem_of_fmap. exists b. split; [done|].
  apply list_elem_of_In, List.filter_In in Hb as [Hb _]. by apply list_elem_of_In.
Qed.

Lemma filter_drop_prefix (d rest : list string) : NoDup (d ++ rest) ->
  List.filter (fun x => negb (bool_decide (x ∈ d))) (d ++ rest) = rest.
Proof.
  intros (_ & Hdis & _)%NoDup_app. rewrite List.filter_app.
  assert (H1 : forall l, (forall x, x ∈ l -> x ∈ d) -> List.filter (fun x => negb (bool_decide (x ∈ d))) l = []).
  { induction l as [|x l IH]; intros H; simpl; [done|].
    rewrite bool_decide_true by set_solver. simpl. apply IH. set_solver. }
  assert (H2 : forall l, (forall x, x ∈ l -> x ∉ d) -> List.filter (fun x => negb (bool_decide (x ∈ d))) l = l).
  { induction l as [|x l IH]; intros H; simpl; [done|].
    rewrite bool_decide_false by set_solver. simpl. f_equal. apply IH. set_solver. }
  rewrite H1, H2; [done| |done]. intros x Hx Hd. by apply (Hdis x).
Qed.

Lemma filter_sublist {A} (f : A -> bool) l : List.filter f l `sublist_of` l.
Proof. induction l as [|a l IH]; simpl; [done|]. destruct (f a); by constructor. Qed.

Lemma targets_filter spare (d : list string) l :
  targets spare (List.filter (fun b => negb (bool_decide (bName b ∈ d))) l) =
  List.filter (fun x => negb (bool_decide (x ∈ d))) (targets spare l).
Proof.
  unfold targets. rewrite filter_comm. f_equal. induction l as [|b l IH]; simpl; [done|].
  destruct (negb (bool_decide (bName b ∈ d))); simpl; by rewrite IH.
Qed.

(** What the cluster holds after the deletes [d]. *)
Definition without (d : list string) (items : list Backup) : list Backup :=
  List.filter (fun b => negb (bool_decide (bName b ∈ d))) items.

(** ** Properties *)

(** C37. Retention keeps exactly its policy: for the candidates sorted newest
    first, a name is kept if and only if its Backup is one of the [KeepLast]
    newest, or for some rule with count [n] it is the newest of its hour, day, ISO
    week, month or year and fewer than [n] distinct such periods are newer. *)
Theorem retention_keeps_exactly l ret x :
  Forall (fun b => 0 <= completed b) l ->
  x ∈ selectKept l ret <-> exists b, bName b = x /\
    ((exists i, l !! i = Some b /\ Z.of_nat i < KeepLast ret) \/
     exists n w, (n, w) ∈ bucket_rules ret /\ rule_keeps n w l b).
Proof.
  intros Hpos. rewrite selectKept_list, elem_of_names. apply exist_proper. intros b.
  rewrite (and_comm (b ∈ _)). apply and_iff_compat_l. unfold kept_list. rewrite elem_of_app. apply or_iff_compat.
  - rewrite elem_of_take. split; intros (i & ? & ?); exists i; (split; [done|lia]).
  - rewrite list_elem_of_In, in_concat. split.
    + intros (k & Hk & Hb). apply in_map_iff in Hk as ([n w] & <- & Hin). exists n, w. split; [by apply list_elem_of_In|].
      apply rule_reps_spec; [done|]. by apply list_elem_of_In.
    + intros (n & w & Hin & Hb). exists (rule_reps l n w). split; [|by apply list_elem_of_In, rule_reps_spec].
      apply in_map_iff. exists (n, w). split; [done|]. by apply list_elem_of_In.
Qed.

(** C19. Retention is safe: every Backup it deletes has succeeded, with a
    completion time, is not already being deleted and is not read by an
    unfinished Restore; nothing is deleted without a positive keep rule; and a
    newest candidate always survives, whatever deletes fail. *)
Theorem retention_safe sort `{!SortLaws sort} ret items rss del d ok :
  trimBackups sort ret (Some items) (Some rss) del = (d, ok) ->
  (forall x, x ∈ d -> (exists b, b ∈ items /\ bName b = x /\ bPhase b = "Succeeded" /\
      is_Some (bCompletionTime b) /\ bDeleting b = false) /\
    (forall rs, rs ∈ rss -> rBackupRef rs = x -> rPhase rs = "Succeeded" \/ rPhase rs = "Failed") /\
    (exists r, ret = Some r /\ retentionOff r = false)) /\
  (forall c, c ∈ items -> candidate c = true ->
    exists b, b ∈ items /\ candidate b = true /\ (bName b ∉ d) /\
      forall c', c' ∈ items -> candidate c' = true -> completed c' <= completed b).
Proof.
  intros H.
  assert (Hnil : d = [] \/ exists r, ret = Some r /\ retentionOff r = false).
  { unfold trimBackups in H. destruct ret as [r|]; [|inv_ok; by left].
    destruct (retentionOff r) eqn:E; [inv_ok; by left|right; eauto]. }
  set (l := sort (List.filter candidate items)).
  assert (Hd : forall x, x ∈ d -> exists r, ret = Some r /\ retentionOff r = false /\
    x ∈ targets (selectKept l r ∪ pinned rss) l).
  { intros x Hx. destruct Hnil as [->|(r & -> & Hon)]; [by apply elem_of_nil in Hx|].
    exists r. split; [done|]. split; [done|]. rewrite trim_eq in H by done.
    apply deleteLoop_prefix in H as (rest & Ht & _). unfold l. rewrite Ht. set_solver. }
  split.
  - intros x Hx. destruct (Hd x Hx) as (r & -> & Hon & [Hsp Hin]%elem_of_targets).
    split_and!; [| |by eauto].
    + apply list_elem_of_fmap in Hin as (b & -> & Hb). apply sort_elem in Hb as [Hb Hc]; [|done].
      exists b. unfold candidate in Hc. rewrite !andb_true_iff, negb_true_iff in Hc.
      destruct Hc as [[Hph Hct] Hdel]. apply String.eqb_eq in Hph. split_and!; try done.
      by destruct (bCompletionTime b).
    + intros rs Hrs Href. destruct (restoreDone rs) eqn:E.
      { unfold restoreDone in E. rewrite orb_true_iff, !String.eqb_eq in E. done. }
      exfalso. apply Hsp, elem_of_union_r, elem_of_list_to_set, list_elem_of_fmap.
      exists rs. split; [done|]. apply list_elem_of_In, List.filter_In. rewrite E. split; [|done]. by apply list_elem_of_In.
  - intros c Hc Hcand. destruct l as [|b l'] eqn:El.
    { exfalso. assert (Hin : c ∈ sort (List.filter candidate items)) by (by apply sort_elem).
      fold l in Hin. rewrite El in Hin. by apply elem_of_nil in Hin. }
    assert (Hb : b ∈ items /\ candidate b = true) by (apply (sort_elem sort); fold l; rewrite El; by left).
    exists b. split_and!; [tauto..| |intros c' H1 H2; exact (sort_head sort b l' items c' El H1 H2)].
    intros Hx. destruct (Hd _ Hx) as (r & -> & Hon & [Hsp _]%elem_of_targets). apply Hsp.
    apply elem_of_union_l. rewrite selectKept_list. apply elem_of_names. exists b. split; [|done]. by apply head_kept.
Qed.

(** Retention converges and never over-deletes: with unique names and no two
    equal completion times, however many deletes of a pass fail, the next pass
    over what is left takes the same decision, so the two together delete exactly
    what one complete pass deletes, and nothing more is deleted after a complete
    pass. *)
Lemma retention_converges sort `{!SortLaws sort} ret items rss del d ok :
  names_unique items ->
  (forall a b, a ∈ items -> b ∈ items -> candidate a = true -> candidate b = true ->
     completed a = completed b -> a = b) ->
  trimBackups sort ret (Some items) (Some rss) del = (d, ok) ->
  exists rest,
    trimBackups sort ret (Some (without d items)) (Some rss) (fun _ => true) = (rest, true) /\
    trimBackups sort ret (Some items) (Some rss) (fun _ => true) = (d ++ rest, true) /\
    (ok = true -> rest = []).
Proof.
  intros Hnames Hinj H.
  assert (Hcase : (d = [] /\ ok = true /\
      forall its del', trimBackups sort ret (Some its) (Some rss) del' = ([], true)) \/
    exists r, ret = Some r /\ retentionOff r = false).
  { unfold trimBackups in *. destruct ret as [r|]; [|inv_ok; by left].
    destruct (retentionOff r) eqn:E; [inv_ok; by left|right; eauto]. }
  destruct Hcase as [(-> & -> & Hoff)|(r & -> & Hon)]; [by exists []|].
  rewrite trim_eq in H by done. set (l := sort (List.filter candidate items)) in *.
  destruct (deleteLoop_prefix _ _ _ _ _ H) as (rest & Ht & Hok). clear H.
  exists rest. rewrite !trim_eq, !deleteLoop_all by done.
  unfold without. rewrite (sort_filter sort _ items Hinj). fold l.
  assert (Hnd : names_unique l).
  { unfold names_unique, l. rewrite (sort_perm (List.filter candidate items)). by apply names_filter. }
  assert (Hkept : selectKept (List.filter (fun b => negb (bool_decide (bName b ∈ d))) l) r = selectKept l r).
  { rewrite !selectKept_list. f_equal. apply kept_sublist; [apply filter_sublist|by eapply NoDup_fmap_1|].
    intros b Hb. apply list_elem_of_In, List.filter_In. split; [by eapply list_elem_of_In, kept_subset|].
    rewrite bool_decide_false; [done|]. intros Hx.
    assert (Hin : bName b ∈ targets (selectKept l r ∪ pinned rss) l) by (rewrite Ht; set_solver).
    apply elem_of_targets in Hin as [Hsp _]. apply Hsp, elem_of_union_l. rewrite selectKept_list.
    apply elem_of_names. eauto. }
  rewrite Hkept, targets_filter, Ht. rewrite filter_drop_prefix; [done|].
  rewrite <- Ht. unfold targets. eapply sublist_NoDup; [exact Hnd|apply filter_sublist].
Qed.

(** *** Witnesses *)

(** Insertion sort, newest first. *)
Fixpoint insert_newest (b : Backup) (l : list Backup) : list Backup :=
  match l with
  | [] => [b]
  | c :: l' => if completed c <=? completed b then b :: c :: l' else c :: insert_newest b l'
  end.
Definition sort_newest (l : list Backup) : list Backup := foldr insert_newest [] l.

Lemma insert_newest_perm b l : insert_newest b l ≡ₚ b :: l.
Proof.
  induction l as [|c l IH]; simpl; [done|]. destruct (_ <=? _); [done|]. rewrite IH. apply Permutation_swap.
Qed.

#[export] Instance sort_newest_laws : SortLaws sort_newest.
Proof.
  split; intros l.
  - induction l as [|b l IH]; simpl; [done|]. by rewrite insert_newest_perm, IH.
  - induction l as [|b l IH]; simpl; [constructor|]. induction IH as [|c l' Hl' IH' Hc]; simpl.
    + repeat constructor.
    + destruct (Z.leb_spec (completed c) (completed b)).
      * constructor; [by constructor|]. constructor; [done|].
        eapply Forall_impl; [exact Hc|]. unfold newer. simpl. lia.
      * constructor; [done|]. rewrite insert_newest_perm. constructor; [unfold newer; lia|done].
Qed.

(** Four Backups of two days; the newest but one is being restored. *)
Definition demo_backups : list Backup :=
  [MkBackup "a" "Succeeded" (Some (1 * Hour)) false; MkBackup "b" "Succeeded" (Some (2 * Hour)) false;
   MkBackup "c" "Running" None false; MkBackup "d" "Succeeded" (Some (25 * Hour)) false;
   MkBackup "e" "Succeeded" (Some (26 * Hour)) false].
Definition demo_policy : BackupRetention := MkRetention 1 0 2 0 0 0.
Definition demo_restores : list Restore := [MkRestore "Running" "d"; MkRestore "Failed" "a"].

Lemma retention_keeps_exactly_witness :
  "b" ∈ selectKept (sort_newest (List.filter candidate demo_backups)) demo_policy.
Proof.
  refine (proj2 (retention_keeps_exactly (sort_newest (List.filter candidate demo_backups)) demo_policy "b" _) _).
  - vm_compute. repeat constructor; discriminate.
  - exists (MkBackup "b" "Succeeded" (Some (2 * Hour)) false). split; [reflexivity|]. right.
    exists 2, day. split; [right; left|]. exists 2%nat. split; [vm_compute; reflexivity|].
    split; [|vm_compute; reflexivity]. intros c Hc. apply list_elem_of_In in Hc. vm_compute in Hc.
    destruct Hc as [<-|[<-|[]]]; vm_compute; discriminate.
Defined.

Lemma retention_safe_witness : "a" ∈ ["a"] /\
  (forall rs, rs ∈ demo_restores -> rBackupRef rs = "a" -> rPhase rs = "Succeeded" \/ rPhase rs = "Failed").
Proof.
  assert (Hin : "a" ∈ ["a"]) by left. split; [exact Hin|].
  refine (proj1 (proj2 (proj1 (retention_safe sort_newest (Some demo_policy) demo_backups demo_restores
    (fun _ => true) ["a"] true _) "a" Hin))). vm_compute. reflexivity.
Defined.

Lemma retention_converges_witness :
  exists rest, trimBackups sort_newest (Some demo_policy) (Some (without [] demo_backups)) (Some []) (fun _ => true) =
    (rest, true) /\ trimBackups sort_newest (Some demo_policy) (Some demo_backups) (Some []) (fun _ => true) = (rest, true).
Proof.
  destruct (retention_converges sort_newest (Some demo_policy) demo_backups [] (fun x => String.eqb x "a") [] false)
    as (rest & H1 & H2 & _).
  - apply NoDup_ListNoDup. repeat constructor; simpl; intuition discriminate.
  - intros a b Ha Hb. apply list_elem_of_In in Ha, Hb. simpl in Ha, Hb.
    destruct Ha as [<-|[<-|[<-|[<-|[<-|[]]]]]]; destruct Hb as [<-|[<-|[<-|[<-|[<-|[]]]]]]; simpl; try done; discriminate.
  - vm_compute. reflexivity.
  - exists rest. split; [exact H1|exact H2].
Defined.
