(* ===== verification/Lifecycle.v ===== *)
(** * operator: ownership of a GameServer by lifecycle operations

    Backups, restores, wipes and template rollouts claim a GameServer through one
    annotation, written with a resourceVersion-checked update (src/operator/
    internal/controller/lifecycle_operation.go, with the guard identities of
    backup_guard.go and restore_lifecycle.go).  What the operator reads from the
    cluster while it decides is the record [world]; JSON is the class
    [OwnerCodec]. *)

From S2P Require Import Prelude GoText GoToken Idle.
From Stdlib Require Import Ascii.
Local Open Scope Z_scope.

(** ** Data *)

Definition lifecycleOperationAnnotation : string := "operations.gameplane.local/owner".
Definition backupGuardAnnotation : string := "backup.gameplane.local/owner".
Definition backupRecoveryLineageAnnotation : string := "backup.gameplane.local/recovering-owners".
Definition restoreGuardAnnotation : string := "restore.gameplane.local/owner".
Definition wipeGuardAnnotation : string := "gameplane.local/wipe-owner".

(** [lifecycleIdentity] *)
Record lifecycleIdentity := MkLI {
  Kind : string;
  Name : string;
  UID : string;
  TargetUID : string;
  Generation : Z;
  Token : string;
  NeedsUnquiesce : bool;
  QuiescePodUID : string;
  InitialStartup : bool;
  Baseline : bool
}.

(** [lifecycleOperation] *)
Record lifecycleOperation := MkOp { ident : lifecycleIdentity; Recovery : list lifecycleIdentity }.

(** [backupIdentity] and [restoreIdentity]: a name and a UID. *)
Definition nameUID : Type := string * string.

(** The fields of a GameServer that ownership reads or writes. *)
Record GS := MkGameServer {
  gsName : string;
  gsUID : string;
  gsGeneration : Z;
  gsDeleting : bool;
  gsAnnotations : annots;
  gsSuspend : bool
}.
Definition with_ann (gs : GS) (m : annots) : GS :=
  MkGameServer (gsName gs) (gsUID gs) (gsGeneration gs) (gsDeleting gs) m (gsSuspend gs).
Definition suspend (gs : GS) (b : bool) : GS :=
  MkGameServer (gsName gs) (gsUID gs) (gsGeneration gs) (gsDeleting gs) (gsAnnotations gs) b.
Definition gann (gs : GS) (k : string) : string := ann (gsAnnotations gs) k.

(** [encoding/json] on the owner, on a guard identity and on a lineage. *)
Class OwnerCodec := {
  lifecycleOperationJSON : lifecycleOperation -> string;
  unmarshalOperation : string -> option lifecycleOperation;
  identityJSON : nameUID -> string;
  unmarshalIdentity : string -> option nameUID;
  unmarshalLineage : string -> option (list nameUID);
  unmarshal_operation op : unmarshalOperation (lifecycleOperationJSON op) = Some op;
  operation_nonempty op : lifecycleOperationJSON op <> EmptyString;
  unmarshal_identity id : unmarshalIdentity (identityJSON id) = Some id;
  identity_nonempty id : identityJSON id <> EmptyString
}.

(** ** Identities *)

(** [hex.DecodeString] and [hex.EncodeToString]. *)
Definition fromHexChar (c : Z) : option Z :=
  if (48 <=? c) && (c <=? 57) then Some (c - 48)
  else if (97 <=? c) && (c <=? 102) then Some (c - 87)
  else if (65 <=? c) && (c <=? 70) then Some (c - 55) else None.
Fixpoint hexDecode (b : list Z) : option (list Z) :=
  match b with
  | [] => Some []
  | [_] => None
  | h :: l :: rest =>
      match fromHexChar h, fromHexChar l, hexDecode rest with
      | Some h, Some l, Some bs => Some (h * 16 + l :: bs)
      | _, _, _ => None
      end
  end.
Definition hexDigit (n : Z) : Z := if n <? 10 then 48 + n else 87 + n.
Definition hexEncode (bs : list Z) : list Z := flat_map (fun b => [hexDigit (b / 16); hexDigit (b mod 16)]) bs.

(** [validTemplateRevision] *)
Definition validTemplateRevision (revision : string) : bool :=
  match hexDecode (bytes_of revision) with
  | None => false
  | Some decoded => (Z.of_nat (length decoded) =? 32) && bool_decide (hexEncode decoded = bytes_of revision)
  end.

(** The check of one identity in [parseLifecycleOperation]. *)
Definition identity_valid (id : lifecycleIdentity) : bool :=
  negb (String.eqb (Name id) "" || String.eqb (UID id) "" || String.eqb (TargetUID id) "" ||
    (negb (String.eqb (Kind id) "Backup") && negb (String.eqb (Kind id) "Restore") &&
     negb (String.eqb (Kind id) "Wipe") && negb (String.eqb (Kind id) "Rollout")) ||
    (String.eqb (Kind id) "Wipe" && String.eqb (Token id) "") ||
    (String.eqb (Kind id) "Rollout" && negb (validTemplateRevision (Token id)))).

(** [sameLifecycleOwner] *)
Definition sameLifecycleOwner (a b : lifecycleIdentity) : bool :=
  String.eqb (Kind a) (Kind b) && String.eqb (Name a) (Name b) && String.eqb (UID a) (UID b) &&
  String.eqb (TargetUID a) (TargetUID b) && String.eqb (Token a) (Token b).

(** [backupLifecycleIdentity], [restoreLifecycleIdentity], [wipeLifecycleIdentity]. *)
Definition backupLifecycleIdentity (gs : GS) (name uid : string) (generation : Z) (quiesce : bool) : lifecycleIdentity :=
  MkLI "Backup" name uid (gsUID gs) generation "" quiesce "" false false.
Definition restoreLifecycleIdentity (gs : GS) (name uid : string) (generation : Z) : lifecycleIdentity :=
  MkLI "Restore" name uid (gsUID gs) generation "" false "" false false.
Definition wipeLifecycleIdentity (gs : GS) (token : string) : lifecycleIdentity :=
  MkLI "Wipe" (gsName gs) (gsUID gs) (gsUID gs) (gsGeneration gs) token false "" false false.

(** [pendingWipe] *)
Definition pendingWipe (gs : GS) : bool :=
  negb (String.eqb (gann gs WipeRequestedAnnotation) "") &&
  negb (String.eqb (gann gs WipeRequestedAnnotation) (gann gs WipeCompletedAnnotation)).

(** [lifecycleRecoveryNeedsStop] *)
Definition lifecycleRecoveryNeedsStop (op : lifecycleOperation) : bool :=
  existsb (fun p => String.eqb (Kind p) "Restore") (Recovery op).

Section Owner.
Context `{OwnerCodec}.

(** [parseLifecycleOperation] *)
Definition parseLifecycleOperation (value : string) : option lifecycleOperation :=
  match unmarshalOperation value with
  | None => None
  | Some op =>
      if forallb (fun id => identity_valid id && String.eqb (TargetUID id) (TargetUID (ident op)))
           (ident op :: Recovery op)
      then Some op else None
  end.

(** [parseBackupIdentity] and [parseRestoreIdentity] *)
Definition parseIdentity (value : string) : option nameUID :=
  match unmarshalIdentity value with
  | Some (name, uid) => if String.eqb name "" || String.eqb uid "" then None else Some (name, uid)
  | None => None
  end.

(** [parseBackupRecoveryLineage] *)
Definition parseBackupRecoveryLineage (value : string) : option (list nameUID) :=
  if String.eqb value "" then Some []
  else match unmarshalLineage value with
  | None => None
  | Some ids =>
      if existsb (fun id => String.eqb id.1 "" || String.eqb id.2 "") ids then None else Some ids
  end.

Definition no_identity : lifecycleIdentity := MkLI "" "" "" "" 0 "" false "" false false.

(** The three legacy guards, read one after the other: the operation so far and
    how many guards were found. *)
Definition legacyBackup (gs : GS) (acc : lifecycleOperation * nat) : option (lifecycleOperation * nat) :=
  let value := gann gs backupGuardAnnotation in
  if String.eqb value "" then Some acc
  else
    match parseIdentity value, parseBackupRecoveryLineage (gann gs backupRecoveryLineageAnnotation) with
    | Some (name, uid), Some lineage =>
        let legacy id := MkLI "Backup" id.1 id.2 (gsUID gs) 0 "" true "" false false in
        Some (MkOp (legacy (name, uid)) (Recovery acc.1 ++ map legacy lineage), S acc.2)
    | _, _ => None
    end.
Definition legacyRestore (gs : GS) (acc : lifecycleOperation * nat) : option (lifecycleOperation * nat) :=
  let value := gann gs restoreGuardAnnotation in
  if String.eqb value "" then Some acc
  else
    match parseIdentity value with
    | Some (name, uid) =>
        Some (MkOp (MkLI "Restore" name uid (gsUID gs) 0 "" false "" false false) (Recovery acc.1), S acc.2)
    | None => None
    end.
Definition legacyWipe (gs : GS) (acc : lifecycleOperation * nat) : lifecycleOperation * nat :=
  let token := gann gs wipeGuardAnnotation in
  if String.eqb token "" then acc else (MkOp (wipeLifecycleIdentity gs token) (Recovery acc.1), S acc.2).

(** [lifecycleOwner]: [Ok None] when nobody holds the server. *)
Definition lifecycleOwner (gs : GS) : result unit (option lifecycleOperation) :=
  let value := gann gs lifecycleOperationAnnotation in
  if negb (String.eqb value "") then
    match parseLifecycleOperation value with
    | None => Err tt
    | Some op => if String.eqb (TargetUID (ident op)) (gsUID gs) then Ok (Some op) else Err tt
    end
  else
    match legacyBackup gs (MkOp no_identity [], 0%nat) ≫= legacyRestore gs with
    | None => Err tt
    | Some acc =>
        let '(op, count) := legacyWipe gs acc in
        match count with
        | O => Ok None
        | 1%nat => Ok (Some op)
        | _ => Err tt
        end
    end.

(** ** What the operator reads from the cluster *)

(** The StatefulSet of the server, as read; [ssReplicas] is [Spec.Replicas]. *)
Record statefulSet := MkSS {
  ssControlled : bool;                (** controlled by this GameServer *)
  ssOwner : string;                   (** its copy of the owner annotation *)
  ssReplicas : option Z;
  ssStatusReplicas : Z;
  ssGeneration : Z;
  ssObservedGeneration : Z;
  ssCurrentRevision : string;
  ssUpdateRevision : string
}.

(** A pod: deleting, its phase, its name and the claims it mounts. *)
Record pod := MkPod { podDeleting : bool; podPhase : string; podName : string; podClaims : list string }.

(** A Backup of the namespace: its server, name, UID and whether it predates
    targets and still owes an unquiesce. *)
Record backupView := MkBV { bvServer : string; bvName : string; bvUID : string; bvOwesUnquiesce : bool }.

(** The answers of the calls made during one claim; [None] is an error. *)
Record world := MkWorld {
  getUID : string -> string -> option (option string);  (** kind, name: the UID, [Some None] when absent *)
  wipeWorkersBusy : option bool;
  getStatefulSet : option (option statefulSet);
  listPods : option (list pod);
  listBackups : option (list backupView);
  backupWorkersLive : bool -> string -> string -> option bool;  (** cancel, name, UID *)
  restoreWorkersLive : string -> string -> option bool;
  restoreTargetStopped : option bool;
  quiesceProcessGone : string -> option bool;
  quiescerAvailable : bool;
  unquiesce : string -> bool
}.

(** [lifecycleOwnerExists] *)
Definition lifecycleOwnerExists (w : world) (id : lifecycleIdentity) : option bool :=
  if String.eqb (Kind id) "Wipe" || String.eqb (Kind id) "Rollout" then Some true
  else if String.eqb (Kind id) "Backup" || String.eqb (Kind id) "Restore" then
    match getUID w (Kind id) (Name id) with
    | None => None
    | Some None => Some false
    | Some (Some uid) => Some (String.eqb uid (UID id))
    end
  else None.

(** [liveRestorePod] and [podMountsRestoreTarget] *)
Definition liveRestorePod (p : pod) : bool :=
  podDeleting p || (negb (String.eqb (podPhase p) "Succeeded") && negb (String.eqb (podPhase p) "Failed")).
Definition podMountsRestoreTarget (p : pod) (serverName : string) : bool :=
  existsb (String.eqb (serverName +:+ "-data")) (podClaims p).

(** [backupLifecycleTransitionPending] *)
Definition backupLifecycleTransitionPending (w : world) (gs : GS) : option bool :=
  if tokenPending (gsAnnotations gs) RestartRequestedAnnotation RestartCompletedAnnotation then Some true
  else if String.eqb (gann gs stopRequestedAtAnnotation) "" then Some false
  else match getStatefulSet w with
  | None => None
  | Some None => Some true
  | Some (Some ss) =>
      if negb (ssControlled ss) || negb (bool_decide (ssReplicas ss = Some 0)) ||
         negb (ssStatusReplicas ss =? 0) || (ssObservedGeneration ss <? ssGeneration ss)
      then Some true
      else match listPods w with
      | None => None
      | Some pods =>
          Some (existsb (fun p => liveRestorePod p &&
            (String.eqb (podName p) (gsName gs +:+ "-0") || podMountsRestoreTarget p (gsName gs))) pods)
      end
  end.

(** [legacyLifecycleCopiesLive] *)
Fixpoint legacyCopies (w : world) (gs : GS) (want : lifecycleIdentity) (backups : list backupView) : option bool :=
  match backups with
  | [] => Some false
  | b :: rest =>
      if negb (String.eqb (bvServer b) (gsName gs)) ||
         (String.eqb (Kind want) "Backup" && String.eqb (bvUID b) (UID want))
      then legacyCopies w gs want rest
      else if bvOwesUnquiesce b then Some true
      else match backupWorkersLive w false (bvName b) (bvUID b) with
      | None => None
      | Some true => Some true
      | Some false => legacyCopies w gs want rest
      end
  end.
Definition legacyLifecycleCopiesLive (w : world) (gs : GS) (want : lifecycleIdentity) : option bool :=
  match listBackups w with None => None | Some backups => legacyCopies w gs want backups end.

(** ** Claiming *)

(** What a step of the claim decides: an error, "not now", or to go on. *)
Inductive verdict (A : Type) := Fails | Waits | Goes (a : A).
#[global] Arguments Fails {A}.
#[global] Arguments Waits {A}.
#[global] Arguments Goes {A} a.

(** Nobody holds the server: the conditions to take it. *)
Definition admitFree (w : world) (gs : GS) (want : lifecycleIdentity) : verdict (GS * lifecycleOperation) :=
  let go := match legacyLifecycleCopiesLive w gs want with
            | None => Fails
            | Some true => Waits
            | Some false => Goes (gs, MkOp want [])
            end in
  let transition :=
    if String.eqb (Kind want) "Backup" || String.eqb (Kind want) "Rollout" then
      match backupLifecycleTransitionPending w gs with
      | None => Fails
      | Some true => Waits
      | Some false => go
      end
    else go in
  if negb (String.eqb (Kind want) "Wipe") then
    match wipeWorkersBusy w with
    | None => Fails
    | Some busy => if pendingWipe gs || busy then Waits else transition
    end
  else transition.

(** [claimLifecycleOperation] up to the write: the server and the operation to
    record on it. *)
Definition claimDecision (w : world) (live : GS) (want : lifecycleIdentity) : verdict (GS * lifecycleOperation) :=
  if negb (String.eqb (gsUID live) (TargetUID want)) || gsDeleting live then Fails
  else if String.eqb (Kind want) "Rollout" && negb (gsGeneration live =? Generation want) then Fails
  else match lifecycleOwner live with
  | Err _ => Fails
  | Ok None => admitFree w live want
  | Ok (Some op) =>
      let value := gann live lifecycleOperationAnnotation in
      if negb (sameLifecycleOwner (ident op) want) then
        match lifecycleOwnerExists w (ident op) with
        | None => Fails
        | Some true => Waits
        | Some false =>
            Goes (if String.eqb (Kind (ident op)) "Restore" then suspend live true else live,
                  MkOp want (Recovery op ++ [ident op]))
        end
      else if negb (String.eqb value "") && negb (String.eqb (Kind (ident op)) "Wipe") &&
              negb (String.eqb (Kind (ident op)) "Rollout") && negb (Generation (ident op) =? Generation want)
      then Fails
      else Goes (live, if String.eqb value "" then MkOp want (Recovery op) else op)
  end.

(** The annotations and the suspension that record [op], held by [want]. *)
Definition stamp (gs : GS) (op : lifecycleOperation) (want : lifecycleIdentity) : GS :=
  let m := <[lifecycleOperationAnnotation := lifecycleOperationJSON op]> (gsAnnotations gs) in
  let m := delete wipeGuardAnnotation (delete restoreGuardAnnotation (delete backupGuardAnnotation m)) in
  if String.eqb (Kind want) "Backup" then
    with_ann gs (<[backupGuardAnnotation := identityJSON (Name want, UID want)]> m)
  else if String.eqb (Kind want) "Restore" then
    let gs := with_ann gs (<[restoreGuardAnnotation := identityJSON (Name want, UID want)]> m) in
    if negb (InitialStartup (ident op)) then suspend gs true else gs
  else if String.eqb (Kind want) "Wipe" then
    let gs := with_ann gs (<[wipeGuardAnnotation := Token want]> m) in
    if pendingWipe gs then suspend gs true else gs
  else with_ann gs m.

(** Whether the claim has to write. *)
Definition needsUpdate (before after : GS) : bool :=
  negb (String.eqb (gann before lifecycleOperationAnnotation) (gann after lifecycleOperationAnnotation)) ||
  negb (Bool.eqb (gsSuspend before) (gsSuspend after)).

(** The workers of the owners being recovered, and the processes they left
    quiesced. *)
Fixpoint recoverWorkers (w : world) (l : list lifecycleIdentity) : verdict unit :=
  match l with
  | [] => Goes tt
  | p :: rest =>
      let busy := if String.eqb (Kind p) "Backup" then backupWorkersLive w true (Name p) (UID p)
                  else if String.eqb (Kind p) "Restore" then restoreWorkersLive w (Name p) (UID p)
                  else None in
      match busy with
      | None => Fails
      | Some true => Waits
      | Some false => recoverWorkers w rest
      end
  end.
Fixpoint recoverQuiesced (w : world) (l : list lifecycleIdentity) : verdict unit :=
  match l with
  | [] => Goes tt
  | p :: rest =>
      if negb (NeedsUnquiesce p) then recoverQuiesced w rest
      else match quiesceProcessGone w (QuiescePodUID p) with
      | None => Fails
      | Some true => recoverQuiesced w rest
      | Some false =>
          if negb (quiescerAvailable w) || String.eqb (QuiescePodUID p) "" || negb (unquiesce w (QuiescePodUID p))
          then Fails else recoverQuiesced w rest
      end
  end.

(** [recoverLifecycleOperation]: the server to write, or none when there is
    nothing to recover. *)
Definition recoverLifecycleOperation (w : world) (gs : GS) (op : lifecycleOperation) : verdict (option GS) :=
  match recoverWorkers w (Recovery op) with
  | Fails => Fails
  | Waits => Waits
  | Goes _ =>
      let stopped := if lifecycleRecoveryNeedsStop op then restoreTargetStopped w else Some true in
      match stopped with
      | None => Fails
      | Some false => Waits
      | Some true =>
          match recoverQuiesced w (Recovery op) with
          | Fails => Fails
          | Waits => Waits
          | Goes _ =>
              match Recovery op with
              | [] => Goes None
              | _ => Goes (Some (with_ann gs (delete backupRecoveryLineageAnnotation
                       (<[lifecycleOperationAnnotation := lifecycleOperationJSON (MkOp (ident op) [])]> (gsAnnotations gs)))))
              end
          end
      end
  end.

(** [claimLifecycleOperation]: the writes made, in order, and whether the claim
    was granted, failed or has to wait; [write] says whether an update succeeds. *)
Definition claimLifecycleOperation (w : world) (write : GS -> bool) (live : GS) (want : lifecycleIdentity)
  : list GS * verdict unit :=
  match claimDecision w live want with
  | Fails => ([], Fails)
  | Waits => ([], Waits)
  | Goes (before, op) =>
      let gs := stamp before op want in
      let update := needsUpdate before gs in
      if update && negb (write gs) then ([], Fails)
      else
        let writes := if update then [gs] else [] in
        match recoverLifecycleOperation w gs op with
        | Fails => (writes, Fails)
        | Waits => (writes, Waits)
        | Goes None => (writes, Goes tt)
        | Goes (Some gs') => if write gs' then (writes ++ [gs'], Goes tt) else (writes, Fails)
        end
  end.

(** ** Holding and releasing *)

(** [setLifecycleUnquiesceIntent] on the owned target: the server to write, if
    any; [podUID] is the pod of the backup's preparation. *)
Definition setLifecycleUnquiesceIntent (gs : GS) (needed : bool) (podUID : string) : option (option GS) :=
  if String.eqb (gann gs lifecycleOperationAnnotation) "" then Some None
  else match parseLifecycleOperation (gann gs lifecycleOperationAnnotation) with
  | None => None
  | Some op =>
      let i := ident op in
      if Bool.eqb (NeedsUnquiesce i) needed && (negb needed || String.eqb (QuiescePodUID i) podUID) then Some None
      else
        let i := MkLI (Kind i) (Name i) (UID i) (TargetUID i) (Generation i) (Token i) needed
                   (if needed then podUID else QuiescePodUID i) (InitialStartup i) (Baseline i) in
        Some (Some (with_ann gs (<[lifecycleOperationAnnotation := lifecycleOperationJSON (MkOp i (Recovery op))]> (gsAnnotations gs))))
  end.

(** [fenceBackupWorkload]: the owner the StatefulSet ends up with, and whether the
    fence is complete. *)
Definition fenceBackupWorkload (ss : option (option statefulSet)) (write : bool) (gs : GS)
  : result unit (option string * bool) :=
  match ss with
  | None => Err tt
  | Some None => Ok (None, false)
  | Some (Some ss) =>
      let value := gann gs lifecycleOperationAnnotation in
      if negb (ssControlled ss) || String.eqb value "" then Err tt
      else if negb (String.eqb (ssOwner ss) value) && negb write then Err tt
      else if (ssObservedGeneration ss <? ssGeneration ss) ||
              (negb (String.eqb (ssCurrentRevision ss) "") && negb (String.eqb (ssCurrentRevision ss) (ssUpdateRevision ss)))
      then Ok (Some value, false) else Ok (Some value, true)
  end.

(** [clearLifecycleOperation]: the server to commit; [writeSS] is the outcome of
    removing the fence from the StatefulSet. *)
Definition clearLifecycleOperation (ss : option (option statefulSet)) (writeSS : bool) (gs : GS)
  (want : lifecycleIdentity) : result unit GS :=
  let value := gann gs lifecycleOperationAnnotation in
  if String.eqb value "" then Ok gs
  else match parseLifecycleOperation value with
  | None => Err tt
  | Some op =>
      if negb (sameLifecycleOwner (ident op) want) || negb (Nat.eqb (length (Recovery op)) 0) then Err tt
      else match ss with
      | None => Err tt
      | Some sso =>
          let fenced := match sso with Some ss => ssControlled ss && String.eqb (ssOwner ss) value | None => false end in
          if fenced && negb writeSS then Err tt
          else Ok (with_ann gs (delete lifecycleOperationAnnotation (gsAnnotations gs)))
      end
  end.

(** [ownedBackupTarget] once the target was read, and [releaseBackupTarget]: the
    server to write, if any. *)
Definition ownedBackupTarget (gs : GS) (targetUID : string) (want : lifecycleIdentity) : result unit bool :=
  if negb (String.eqb (gsUID gs) targetUID) ||
     negb (String.eqb (gann gs backupGuardAnnotation) (identityJSON (Name want, UID want)))
  then Ok false
  else
    let value := gann gs lifecycleOperationAnnotation in
    if String.eqb value "" then Ok true
    else match parseLifecycleOperation value with
    | None => Err tt
    | Some op => Ok (sameLifecycleOwner (ident op) want)
    end.
Definition releaseBackupTarget (ss : option (option statefulSet)) (writeSS : bool) (gs : GS) (targetUID : string)
  (want : lifecycleIdentity) : result unit (option GS) :=
  match ownedBackupTarget gs targetUID want with
  | Err e => Err e
  | Ok false => Ok None
  | Ok true =>
      match clearLifecycleOperation ss writeSS gs want with
      | Err e => Err e
      | Ok gs => Ok (Some (with_ann gs (delete backupRecoveryLineageAnnotation
                                         (delete backupGuardAnnotation (gsAnnotations gs)))))
      end
  end.

End Owner.
