(* ===== verification/LifecycleFacts.v ===== *)
(** * Facts about lifecycle ownership

    What a claim writes, and that under any interleaving of claims, crashes,
    releases and unrelated writes at most one living operation holds the
    server. *)

From S2P Require Import Prelude GoText GoToken Idle Lifecycle.
From Stdlib Require Import Ascii.
Local Open Scope Z_scope.

Create HintDb owner.

(** ** Owners *)

Lemma same_refl a : sameLifecycleOwner a a = true.
Proof. unfold sameLifecycleOwner. by rewrite !String.eqb_refl. Qed.

Lemma same_iff a b : sameLifecycleOwner a b = true <->
  Kind a = Kind b /\ Name a = Name b /\ UID a = UID b /\ TargetUID a = TargetUID b /\ Token a = Token b.
Proof. unfold sameLifecycleOwner. rewrite !andb_true_iff, !String.eqb_eq. tauto. Qed.

Lemma same_trans_l a b c : sameLifecycleOwner a b = true -> sameLifecycleOwner a c = true -> sameLifecycleOwner b c = true.
Proof. rewrite !same_iff. intuition congruence. Qed.

Section Facts.
Context `{OwnerCodec}.
#[local] Set Default Proof Using "Type*".

(** A recorded operation that reads back: valid identities of this server. *)
Definition op_ok (gs : GS) (op : lifecycleOperation) : Prop :=
  Forall (fun id => identity_valid id = true /\ TargetUID id = gsUID gs) (ident op :: Recovery op).

Lemma parse_json gs op : op_ok gs op -> parseLifecycleOperation (lifecycleOperationJSON op) = Some op.
Proof.
  intros Hok. unfold parseLifecycleOperation. rewrite unmarshal_operation.
  replace (forallb _ _) with true; [done|]. symmetry. apply forallb_forall. intros id Hin.
  pose proof Hok as Hall. unfold op_ok in Hall. rewrite Forall_forall in Hall.
  destruct (Hall id) as [Hv Ht]; [by apply list_elem_of_In|].
  destruct (Hall (ident op)) as [_ Ht']; [by left|]. by rewrite Hv, Ht, Ht', String.eqb_refl.
Qed.

Lemma parse_ok gs value op : parseLifecycleOperation value = Some op -> TargetUID (ident op) = gsUID gs -> op_ok gs op.
Proof.
  unfold parseLifecycleOperation. destruct (unmarshalOperation value) as [op'|]; [|done].
  destruct (forallb _ _) eqn:Hall; [|done]. intros [= ->] Ht. rewrite forallb_forall in Hall.
  apply Forall_forall. intros id Hin. apply list_elem_of_In, Hall, andb_true_iff in Hin as [Hv E].
  apply String.eqb_eq in E. by rewrite E.
Qed.

(** What the annotation says is what [lifecycleOwner] answers. *)
Lemma owner_of_json gs op : op_ok gs op -> gann gs lifecycleOperationAnnotation = lifecycleOperationJSON op ->
  lifecycleOwner gs = Ok (Some op).
Proof.
  intros Hok E. unfold lifecycleOwner. rewrite E.
  destruct (String.eqb_spec (lifecycleOperationJSON op) "") as [Hne|_]; [by apply operation_nonempty in Hne|].
  simpl. rewrite (parse_json gs) by done. apply Forall_cons in Hok as [[_ ->] _]. by rewrite String.eqb_refl.
Qed.

(** A server with a name and a UID. *)
Definition gs_named (gs : GS) : Prop := gsName gs <> EmptyString /\ gsUID gs <> EmptyString.

Lemma eqb_ne s : s <> EmptyString -> String.eqb s "" = false.
Proof using Type. by destruct (String.eqb_spec s ""). Qed.

Lemma parseIdentity_some v id : parseIdentity v = Some id -> id.1 <> EmptyString /\ id.2 <> EmptyString.
Proof.
  unfold parseIdentity. destruct (unmarshalIdentity v) as [[n u]|]; [|done].
  destruct (String.eqb_spec n ""), (String.eqb_spec u ""); simpl; try done. by intros [= <-].
Qed.

Lemma lineage_some v ids : parseBackupRecoveryLineage v = Some ids ->
  Forall (fun id => id.1 <> EmptyString /\ id.2 <> EmptyString) ids.
Proof.
  unfold parseBackupRecoveryLineage. destruct (String.eqb v ""); [intros [= <-]; constructor|].
  destruct (unmarshalLineage v) as [l|]; [|done]. destruct (existsb _ _) eqn:E; [done|]. intros [= <-].
  apply Forall_forall. intros id Hin. apply list_elem_of_In in Hin.
  destruct (String.eqb_spec id.1 "") as [E1|], (String.eqb_spec id.2 "") as [E2|]; try done; exfalso;
    (rewrite (proj2 (existsb_exists _ _)) in E; [done|]; exists id; split; [done|];
     rewrite ?E1, ?E2, ?String.eqb_refl, ?orb_true_r; done).
Qed.

Lemma backup_valid gs name uid q g : gs_named gs -> name <> EmptyString -> uid <> EmptyString ->
  identity_valid (MkLI "Backup" name uid (gsUID gs) g "" q "" false false) = true.
Proof using Type. intros [_ Hu] Hn Hi. unfold identity_valid. simpl. by rewrite !eqb_ne by done. Qed.

Lemma restore_valid gs name uid g : gs_named gs -> name <> EmptyString -> uid <> EmptyString ->
  identity_valid (MkLI "Restore" name uid (gsUID gs) g "" false "" false false) = true.
Proof using Type. intros [_ Hu] Hn Hi. unfold identity_valid. simpl. by rewrite !eqb_ne by done. Qed.

Lemma wipe_valid gs token : gs_named gs -> token <> EmptyString ->
  identity_valid (wipeLifecycleIdentity gs token) = true.
Proof using Type. intros [Hn Hu] Ht. unfold identity_valid. simpl. by rewrite !eqb_ne by done. Qed.

(** The legacy guards only yield identities of this server. *)
Lemma legacy_ok gs acc1 : gs_named gs ->
  legacyBackup gs (MkOp no_identity [], 0%nat) = Some acc1 ->
  (acc1.2 <> 0%nat -> op_ok gs acc1.1) /\ Forall (fun id => identity_valid id = true /\ TargetUID id = gsUID gs) (Recovery acc1.1).
Proof.
  intros Hn. unfold legacyBackup. destruct (String.eqb _ ""); [intros [= <-]; simpl; split; [done|constructor]|].
  destruct (parseIdentity _) as [[n u]|] eqn:Ei; [|done]. apply parseIdentity_some in Ei as [E1 E2].
  destruct (parseBackupRecoveryLineage _) as [l|] eqn:El; [|done]. apply lineage_some in El. intros [= <-]. simpl.
  assert (HR : Forall (fun id => identity_valid id = true /\ TargetUID id = gsUID gs)
    (map (fun id : string * string => MkLI "Backup" id.1 id.2 (gsUID gs) 0 "" true "" false false) l)).
  { apply Forall_map. eapply Forall_impl; [exact El|]. intros id [??]. split; [by apply backup_valid|done]. }
  split; [|done]. intros _. constructor; [|done]. split; [by apply backup_valid|done].
Qed.

Lemma lifecycleOwner_ok gs op : gs_named gs -> lifecycleOwner gs = Ok (Some op) -> op_ok gs op.
Proof.
  intros Hn. unfold lifecycleOwner. destruct (negb _).
  { destruct (parseLifecycleOperation _) as [op'|] eqn:Ep; [|done].
    destruct (String.eqb_spec (TargetUID (ident op')) (gsUID gs)); [|done]. intros [= <-]. by eapply parse_ok. }
  destruct (legacyBackup gs _) as [acc1|] eqn:E1; [|done].
  destruct (legacy_ok gs acc1 Hn E1) as [Hop HR]. simpl.
  unfold legacyRestore, legacyWipe.
  destruct (String.eqb (gann gs restoreGuardAnnotation) "") eqn:Er.
  - destruct (String.eqb_spec (gann gs wipeGuardAnnotation) ""); destruct acc1 as [op1 [|[|c]]]; simpl in *; try done;
      intros [= <-]; [by apply Hop|]. constructor; [|done]. split; [by apply wipe_valid|done].
  - destruct (parseIdentity _) as [[n u]|] eqn:Ei; [|done]. apply parseIdentity_some in Ei as [E2 E3].
    destruct (String.eqb_spec (gann gs wipeGuardAnnotation) ""); destruct acc1 as [op1 [|[|c]]]; simpl in *; try done.
    intros [= <-]. constructor; [|done]. split; [by apply restore_valid|done].
Qed.


(** ** What a claim writes *)

Lemma gann_insert gs k v : gann (with_ann gs (<[k := v]> (gsAnnotations gs))) k = v.
Proof using Type. unfold gann, ann. simpl. by rewrite lookup_insert_eq. Qed.

Lemma stamp_frame gs op want :
  gsUID (stamp gs op want) = gsUID gs /\ gsName (stamp gs op want) = gsName gs /\
  gann (stamp gs op want) lifecycleOperationAnnotation = lifecycleOperationJSON op.
Proof.
  unfold stamp, gann, ann.
  repeat case_match; cbn -[lookup insert delete]; (split; [done|]; split; [done|]);
    rewrite ?lookup_insert_ne by done; rewrite !lookup_delete_ne by done; by rewrite lookup_insert_eq.
Qed.

Lemma op_ok_uid gs gs' op : gsUID gs = gsUID gs' -> op_ok gs op -> op_ok gs' op.
Proof using Type. unfold op_ok. by intros ->. Qed.

Lemma stamp_owner gs op want : op_ok gs op -> lifecycleOwner (stamp gs op want) = Ok (Some op).
Proof.
  intros Hok. destruct (stamp_frame gs op want) as (Hu & _ & Ha). apply owner_of_json; [|done].
  by eapply op_ok_uid.
Qed.

(** The three ways a claim goes on. *)
Inductive admitted (w : world) (live : GS) (want : lifecycleIdentity) : GS -> lifecycleOperation -> Prop :=
| admitted_free : lifecycleOwner live = Ok None -> admitted w live want live (MkOp want [])
| admitted_mine op0 op : lifecycleOwner live = Ok (Some op0) -> sameLifecycleOwner (ident op0) want = true ->
    op = op0 \/ op = MkOp want (Recovery op0) -> admitted w live want live op
| admitted_orphan op0 : lifecycleOwner live = Ok (Some op0) -> sameLifecycleOwner (ident op0) want = false ->
    lifecycleOwnerExists w (ident op0) = Some false ->
    admitted w live want (if String.eqb (Kind (ident op0)) "Restore" then suspend live true else live)
      (MkOp want (Recovery op0 ++ [ident op0])).

Lemma admit_goes w live want before op :
  claimDecision w live want = Goes (before, op) -> TargetUID want = gsUID live /\ admitted w live want before op.
Proof.
  unfold claimDecision. destruct (String.eqb_spec (gsUID live) (TargetUID want)) as [Hu|]; simpl; [|done].
  destruct (gsDeleting live); [done|]. destruct (_ && _); [done|].
  destruct (lifecycleOwner live) as [[op0|]|] eqn:Ho; [| |done].
  - destruct (sameLifecycleOwner (ident op0) want) eqn:Es; simpl.
    + destruct (_ && _ && _ && _); [done|]. intros [= <- <-]. split; [done|].
      eapply admitted_mine; [done..|]. destruct (String.eqb _ ""); auto.
    + destruct (lifecycleOwnerExists w (ident op0)) as [[]|] eqn:Ee; [done| |done].
      intros [= <- <-]. split; [done|]. by apply admitted_orphan.
  - unfold admitFree. intros Hg. assert (E : (live, MkOp want []) = (before, op)).
    { destruct (negb _); [destruct (wipeWorkersBusy w) as [b|]; [destruct (pendingWipe live || b)|]|]; try done;
        (destruct (_ || _); [destruct (backupLifecycleTransitionPending w live) as [[]|]; try done|]);
        destruct (legacyLifecycleCopiesLive w live want) as [[]|]; try done; by injection Hg as <- <-. }
    injection E as <- <-. split; [done|]. by apply admitted_free.
Qed.

Lemma same_valid_target a b : sameLifecycleOwner a b = true -> TargetUID a = TargetUID b.
Proof using Type. rewrite same_iff. tauto. Qed.

Lemma admitted_ok w live want before op : gs_named live -> identity_valid want = true ->
  TargetUID want = gsUID live -> admitted w live want before op ->
  op_ok before op /\ sameLifecycleOwner (ident op) want = true /\
  gsUID before = gsUID live /\ gsName before = gsName live /\ gsAnnotations before = gsAnnotations live.
Proof.
  intros Hn Hv Ht Ha. destruct Ha as [Ho|op0 op Ho Hs Hop|op0 Ho Hs He].
  - split_and!; try done; [|apply same_refl]. by repeat constructor.
  - pose proof (lifecycleOwner_ok live op0 Hn Ho) as Hok. split_and!; try done.
    + destruct Hop as [->| ->]; [done|]. apply Forall_cons in Hok as [_ HR]. by constructor.
    + destruct Hop as [->| ->]; [done|apply same_refl].
  - pose proof (lifecycleOwner_ok live op0 Hn Ho) as Hok. apply Forall_cons in Hok as [H0 HR].
    assert (Hops : op_ok live (MkOp want (Recovery op0 ++ [ident op0]))).
    { constructor; [done|]. apply Forall_app. split; [done|]. by apply Forall_singleton. }
    destruct (String.eqb (Kind (ident op0)) "Restore"); split_and!; try done; try apply same_refl.
Qed.

Lemma recover_goes w gs op r : recoverLifecycleOperation w gs op = Goes r ->
  (r = None /\ Recovery op = []) \/
  exists gs', r = Some gs' /\ Recovery op <> [] /\ gsUID gs' = gsUID gs /\ gsName gs' = gsName gs /\
    gsSuspend gs' = gsSuspend gs /\
    gann gs' lifecycleOperationAnnotation = lifecycleOperationJSON (MkOp (ident op) []).
Proof.
  unfold recoverLifecycleOperation. destruct (recoverWorkers w (Recovery op)); try done.
  destruct (if lifecycleRecoveryNeedsStop op then _ else _) as [[]|]; try done.
  destruct (recoverQuiesced w (Recovery op)); try done.
  destruct (Recovery op) as [|p l] eqn:ER; intros [= <-]; [by left|right]. eexists. split; [done|].
  split_and!; try done. unfold gann, ann. simpl.
  rewrite lookup_delete_ne by done. by rewrite lookup_insert_eq.
Qed.

Lemma recoverWorkers_goes w l u : recoverWorkers w l = Goes u ->
  Forall (fun p => (Kind p = "Backup" /\ backupWorkersLive w true (Name p) (UID p) = Some false) \/
                   (Kind p = "Restore" /\ restoreWorkersLive w (Name p) (UID p) = Some false)) l.
Proof using Type.
  induction l as [|p l IH]; simpl; [constructor|].
  destruct (String.eqb_spec (Kind p) "Backup") as [Eb|_].
  - destruct (backupWorkersLive w true (Name p) (UID p)) as [[]|] eqn:E; try done. intros Hg. constructor; auto.
  - destruct (String.eqb_spec (Kind p) "Restore") as [Er|_]; [|done].
    destruct (restoreWorkersLive w (Name p) (UID p)) as [[]|] eqn:E; try done. intros Hg. constructor; auto.
Qed.

End Facts.

(** ** Interleavings *)

(** The server records the operation [id] as its owner. *)
Definition recorded `{OwnerCodec} (id : lifecycleIdentity) (gs : GS) : Prop :=
  exists op, lifecycleOwner gs = Ok (Some op) /\ sameLifecycleOwner (ident op) id = true.

(** The annotations ownership is read from. *)
Definition lifecycle_keys : list string :=
  [lifecycleOperationAnnotation; backupGuardAnnotation; backupRecoveryLineageAnnotation;
   restoreGuardAnnotation; wipeGuardAnnotation].

(** A write by anyone else: the user, the API, the other controllers. *)
Definition unrelated (gs gs' : GS) : Prop :=
  gsUID gs' = gsUID gs /\ gsName gs' = gsName gs /\ forall k, k ∈ lifecycle_keys -> gann gs' k = gann gs k.

(** The guard of an operation's kind. *)
Definition guardKey (id : lifecycleIdentity) : string :=
  if String.eqb (Kind id) "Backup" then backupGuardAnnotation
  else if String.eqb (Kind id) "Restore" then restoreGuardAnnotation else wipeGuardAnnotation.

(** Where a claimant is: it has read the server at some version, has an update in
    flight, is recovering orphans, has the second update in flight, or holds. *)
Inductive pstate :=
| PIdle
| PRead (snap : GS) (v : nat)
| PWrite (gs : GS) (op : lifecycleOperation) (v : nat)
| PRecover (gs : GS) (op : lifecycleOperation) (v : nat)
| PWrite2 (gs : GS) (v : nat)
| PHold.

Section Interleaving.
Context `{OwnerCodec} {proc : Type} `{EqDecision proc} (want : proc -> lifecycleIdentity).

(** The stored server with its resource version, the operations whose object was
    deleted, and the claimants. *)
Record cstate := MkC { stored : GS; rv : nat; gone : proc -> bool; procs : proc -> pstate }.

Definition at_proc (p : proc) (st : pstate) (f : proc -> pstate) : proc -> pstate :=
  fun q => if decide (q = p) then st else f q.
Definition move (s : cstate) (p : proc) (st : pstate) : cstate := MkC (stored s) (rv s) (gone s) (at_proc p st (procs s)).
Definition commit (s : cstate) (p : proc) (st : pstate) (gs : GS) : cstate :=
  MkC gs (S (rv s)) (gone s) (at_proc p st (procs s)).

(** Existence is read from the API server: an operation whose object is there is
    never reported missing. *)
Definition honest (w : world) (s : cstate) : Prop :=
  forall p id, gone s p = false -> sameLifecycleOwner id (want p) = true -> lifecycleOwnerExists w id <> Some false.

(** One step of some claimant, of the API server's other clients, or the deletion
    of an operation's object.  An update is accepted only at the version read. *)
Inductive cstep (s : cstate) : cstate -> Prop :=
| c_read p : procs s p = PIdle -> cstep s (move s p (PRead (stored s) (rv s)))
| c_stop p : cstep s (move s p PIdle)
| c_decide p w snap v before op : procs s p = PRead snap v -> honest w s ->
    claimDecision w snap (want p) = Goes (before, op) ->
    cstep s (move s p (if needsUpdate before (stamp before op (want p))
                       then PWrite (stamp before op (want p)) op v
                       else PRecover (stamp before op (want p)) op v))
| c_write p gs op v : procs s p = PWrite gs op v -> v = rv s -> cstep s (commit s p (PRecover gs op (S (rv s))) gs)
| c_recover p w gs op v : procs s p = PRecover gs op v -> recoverLifecycleOperation w gs op = Goes None ->
    cstep s (move s p PHold)
| c_recover_write p w gs op v gs' : procs s p = PRecover gs op v ->
    recoverLifecycleOperation w gs op = Goes (Some gs') -> cstep s (move s p (PWrite2 gs' v))
| c_write2 p gs v : procs s p = PWrite2 gs v -> v = rv s -> cstep s (commit s p PHold gs)
| c_intent p needed uid gs' : procs s p = PHold -> setLifecycleUnquiesceIntent (stored s) needed uid = Some (Some gs') ->
    cstep s (commit s p PHold gs')
| c_release p ss wss gs' b : procs s p = PHold -> gann (stored s) lifecycleOperationAnnotation <> EmptyString ->
    clearLifecycleOperation ss wss (stored s) (want p) = Ok gs' ->
    cstep s (commit s p PIdle (suspend (with_ann gs' (delete (guardKey (want p)) (gsAnnotations gs'))) b))
| c_other gs' : unrelated (stored s) gs' -> cstep s (MkC gs' (S (rv s)) (gone s) (procs s))
| c_gone p : cstep s (MkC (stored s) (rv s) (fun q => if decide (q = p) then true else gone s q) (procs s)).

(** Start: nobody is doing anything; the server may already be owned. *)
Definition cinit (s : cstate) : Prop := gs_named (stored s) /\ forall p, procs s p = PIdle.

Inductive reachable : cstate -> Prop :=
| reach_init s : cinit s -> reachable s
| reach_step s s' : reachable s -> cstep s s' -> reachable s'.

(** Operations are told apart by their identity and are well formed. *)
Definition claimants_ok : Prop :=
  (forall p q, sameLifecycleOwner (want p) (want q) = true -> p = q) /\
  (forall p, identity_valid (want p) = true).

(** *** The invariant *)

Definition local_ok (s : cstate) (p : proc) : Prop :=
  match procs s p with
  | PIdle | PHold => True
  | PRead snap v => gs_named snap /\ (v <= rv s)%nat /\ (v = rv s -> snap = stored s)
  | PWrite gs op v => gs_named gs /\ (v <= rv s)%nat /\ op_ok gs op /\ sameLifecycleOwner (ident op) (want p) = true /\
      recorded (want p) gs /\ (v = rv s -> forall q, q <> p -> gone s q = false -> ~ recorded (want q) (stored s))
  | PRecover gs op v => gs_named gs /\ (v <= rv s)%nat /\ op_ok gs op /\ sameLifecycleOwner (ident op) (want p) = true /\
      (v = rv s -> recorded (want p) (stored s))
  | PWrite2 gs v => gs_named gs /\ (v <= rv s)%nat /\ recorded (want p) gs /\ (v = rv s -> recorded (want p) (stored s))
  end.

(** The claimants that rely on being recorded. *)
Definition relies (p : proc) (st : pstate) : Prop :=
  match st with
  | PRead snap _ => recorded (want p) snap
  | PRecover _ _ _ | PWrite2 _ _ | PHold => True
  | PIdle | PWrite _ _ _ => False
  end.

Definition inv (s : cstate) : Prop :=
  gs_named (stored s) /\
  forall p, local_ok s p /\ (relies p (procs s p) -> gone s p = false -> recorded (want p) (stored s)).


#[local] Set Default Proof Using "Type*".

Lemma recorded_frame id gs gs' : unrelated gs gs' -> recorded id gs -> recorded id gs'.
Proof using Type.
  clear want. intros (Hu & Hn & Hk) (op & Ho & Hs). unfold recorded.
  assert (Hb : forall acc, legacyBackup gs' acc = legacyBackup gs acc)
    by (intros acc; unfold legacyBackup; rewrite !Hk by set_solver; by rewrite Hu).
  assert (Hr : forall acc, legacyRestore gs' acc = legacyRestore gs acc)
    by (intros acc; unfold legacyRestore; rewrite !Hk by set_solver; by rewrite Hu).
  unfold lifecycleOwner in *. rewrite (Hk lifecycleOperationAnnotation) by set_solver. rewrite Hu, Hb.
  destruct (negb _); [by exists op|].
  destruct (legacyBackup gs _) as [a|]; [|done]. simpl in *. rewrite Hr.
  destruct (legacyRestore gs a) as [a'|]; [|done]. unfold legacyWipe in *. rewrite Hk by set_solver.
  destruct (String.eqb _ ""); [by exists op|].
  destruct a' as [op1 [|c]]; simpl in *; [|done]. injection Ho as <-.
  eexists. split; [done|]. apply same_iff. apply same_iff in Hs. simpl in *. rewrite Hu, Hn. done.
Qed.

Lemma named_frame gs gs' : gsUID gs' = gsUID gs -> gsName gs' = gsName gs -> gs_named gs -> gs_named gs'.
Proof using Type. unfold gs_named. by intros -> ->. Qed.

Lemma at_proc_eq p st f : at_proc p st f p = st.
Proof using Type. unfold at_proc. by rewrite decide_True. Qed.
Lemma at_proc_ne p q st f : q <> p -> at_proc p st f q = f q.
Proof using Type. intros. unfold at_proc. by rewrite decide_False. Qed.

(** A claimant moves without a write. *)
Lemma inv_move s p st : inv s ->
  local_ok (move s p st) p -> (relies p st -> gone s p = false -> recorded (want p) (stored s)) ->
  inv (move s p st).
Proof using Type.
  intros [Hn Hall] Hl Hr. split; [done|]. intros q. destruct (decide (q = p)) as [->|Hq].
  - split; [done|]. simpl. by rewrite at_proc_eq.
  - destruct (Hall q) as [Hlq Hrq]. unfold local_ok, move in *. simpl. by rewrite at_proc_ne.
Qed.

(** A write keeps the invariant if it keeps the record of every living operation
    other than the writer's. *)
Lemma inv_commit s p st gs : inv s -> gs_named gs ->
  (forall q, q <> p -> gone s q = false -> recorded (want q) (stored s) -> recorded (want q) gs) ->
  local_ok (commit s p st gs) p -> (relies p st -> gone s p = false -> recorded (want p) gs) ->
  inv (commit s p st gs).
Proof using Type.
  intros [Hn Hall] Hgs Hkeep Hl Hr. split; [done|]. intros q. destruct (decide (q = p)) as [->|Hq].
  - split; [done|]. simpl. by rewrite at_proc_eq.
  - destruct (Hall q) as [Hlq Hrq]. unfold local_ok, commit in *. simpl in *. rewrite at_proc_ne by done.
    split; [|intros; apply Hkeep; auto].
    destruct (procs s q); try done; naive_solver lia.
Qed.

Lemma clear_ok ss wss gs id gs' : clearLifecycleOperation ss wss gs id = Ok gs' ->
  gann gs lifecycleOperationAnnotation <> EmptyString ->
  gsUID gs' = gsUID gs /\ gsName gs' = gsName gs /\
  (forall op, lifecycleOwner gs = Ok (Some op) -> sameLifecycleOwner (ident op) id = true /\ Recovery op = []).
Proof using Type.
  unfold clearLifecycleOperation, lifecycleOwner. intros Hc Hne. rewrite eqb_ne in * by done. simpl in *.
  destruct (parseLifecycleOperation _) as [op|] eqn:Ep; [|done].
  destruct (sameLifecycleOwner (ident op) id) eqn:Es; simpl in *; [|done].
  destruct (Nat.eqb_spec (length (Recovery op)) 0) as [El|]; simpl in *; [|done].
  destruct ss as [sso|]; [|done]. destruct (_ && negb wss); [done|]. inv_ok. split_and!; try done.
  intros op'. destruct (String.eqb _ _); [|done]. intros [= <-]. split; [done|]. by destruct (Recovery op).
Qed.

Lemma intent_ok gs needed uid gs' id : gs_named gs -> setLifecycleUnquiesceIntent gs needed uid = Some (Some gs') ->
  gsUID gs' = gsUID gs /\ gsName gs' = gsName gs /\ (recorded id gs -> recorded id gs').
Proof using Type.
  intros Hn. unfold setLifecycleUnquiesceIntent. destruct (String.eqb_spec (gann gs lifecycleOperationAnnotation) "") as [|Hne]; [done|].
  destruct (parseLifecycleOperation _) as [op|] eqn:Ep; [|done]. destruct (_ && _); [done|]. intros [= <-].
  split; [done|]. split; [done|]. intros (op' & Ho & Hs).
  pose proof Ho as Ho'. apply lifecycleOwner_ok in Ho'; [|done].
  unfold lifecycleOwner in Ho. rewrite eqb_ne in Ho by done. simpl in Ho. rewrite Ep in Ho.
  destruct (String.eqb _ _); [|done]. injection Ho as <-. eexists. split.
  - apply owner_of_json; [|unfold gann, ann; simpl; by rewrite lookup_insert_eq].
    apply Forall_cons in Ho' as [H1 H2]. by constructor.
  - apply same_iff. apply same_iff in Hs. done.
Qed.

Lemma recorded_unique p q gs : claimants_ok -> recorded (want p) gs -> recorded (want q) gs -> p = q.
Proof using Type.
  intros [Hinj _] (op & Ho & Hs) (op' & Ho' & Hs'). rewrite Ho in Ho'. injection Ho' as <-.
  apply Hinj. by eapply same_trans_l.
Qed.


(** The decision of a claim, made on what was read. *)
Lemma inv_decide s p w snap v before op : claimants_ok -> inv s ->
  procs s p = PRead snap v -> honest w s -> claimDecision w snap (want p) = Goes (before, op) ->
  inv (move s p (if needsUpdate before (stamp before op (want p))
                 then PWrite (stamp before op (want p)) op v
                 else PRecover (stamp before op (want p)) op v)).
Proof using Type.
  intros [Hinj Hval] Hinv Hp Hw Hadm. pose proof (Hinv) as [Hn Hall].
  destruct (Hall p) as [Hl Hr]. unfold local_ok in Hl. rewrite Hp in Hl, Hr. simpl in Hr.
  destruct Hl as (Hsn & Hv & Hsame).
  destruct (admit_goes _ _ _ _ _ Hadm) as [Ht Ha].
  destruct (admitted_ok _ _ _ _ _ Hsn (Hval p) Ht Ha) as (Hop & Hs & Hu & Hnm & Hann).
  destruct (stamp_frame before op (want p)) as (Hu' & Hn' & Hj).
  assert (Hnamed : gs_named (stamp before op (want p))).
  { apply (named_frame snap); [by rewrite Hu'|by rewrite Hn'|done]. }
  assert (Hrec : recorded (want p) (stamp before op (want p))).
  { exists op. split; [by apply stamp_owner|done]. }
  assert (Hopok : op_ok (stamp before op (want p)) op) by (by eapply op_ok_uid).
  destruct (needsUpdate _ _) eqn:Eup.
  - apply inv_move; [done| |done]. unfold local_ok. simpl. rewrite at_proc_eq. split_and!; try done.
    intros E q Hq Hgone (op' & Ho & Hs'). rewrite <- (Hsame E) in Ho.
    destruct Ha as [Ho0|op0 op Ho0 Hs0 _|op0 Ho0 Hs0 He]; rewrite Ho0 in Ho; [done|..]; injection Ho as <-.
    + apply Hq, Hinj. by eapply same_trans_l.
    + by apply (Hw q (ident op0)).
  - assert (Hsnap : recorded (want p) snap).
    { apply (recorded_frame _ before); [split; [done|]; split; [done|]; unfold gann; by rewrite Hann|].
      exists op. split; [|done]. apply owner_of_json; [done|]. unfold needsUpdate in Eup.
      apply orb_false_iff in Eup as [Eup _]. rewrite negb_false_iff in Eup.
      apply String.eqb_eq in Eup. by rewrite Eup. }
    apply inv_move; [done| |by auto]. unfold local_ok. simpl. rewrite at_proc_eq. split_and!; try done.
    intros E. by rewrite <- (Hsame E).
Qed.

(** The first write of a claim. *)
Lemma inv_write s p gs op : inv s -> procs s p = PWrite gs op (rv s) ->
  inv (commit s p (PRecover gs op (S (rv s))) gs).
Proof using Type.
  intros Hinv Hp. pose proof Hinv as [Hn Hall]. destruct (Hall p) as [Hl _].
  unfold local_ok in Hl. rewrite Hp in Hl. destruct Hl as (Hgs & _ & Hop & Hs & Hrec & Hex).
  apply inv_commit; [done|done| | |done].
  - intros q Hq Hg Hr. by destruct (Hex eq_refl q Hq Hg).
  - unfold local_ok. simpl. rewrite at_proc_eq. by split_and!.
Qed.

Lemma inv_recover_write s p w gs op v gs' : inv s -> procs s p = PRecover gs op v ->
  recoverLifecycleOperation w gs op = Goes (Some gs') -> inv (move s p (PWrite2 gs' v)).
Proof using Type.
  intros Hinv Hp Hrec. pose proof Hinv as [Hn Hall]. destruct (Hall p) as [Hl Hr].
  unfold local_ok in Hl. rewrite Hp in Hl, Hr. simpl in Hr. destruct Hl as (Hgs & Hv & Hop & Hs & Hst).
  destruct (recover_goes _ _ _ _ Hrec) as [[? _]|(gs1 & [= <-] & _ & Hu & Hnm & _ & Hj)]; [done|].
  apply inv_move; [done| |by auto]. unfold local_ok. simpl. rewrite at_proc_eq. split_and!; try done.
  - by apply (named_frame gs).
  - exists (MkOp (ident op) []). split; [|done]. apply owner_of_json; [|done].
    apply Forall_cons in Hop as [Hi _]. constructor; [|constructor]. by rewrite Hu.
Qed.

(** The second write: the record is this claimant's already. *)
Lemma inv_write2 s p gs : claimants_ok -> inv s -> procs s p = PWrite2 gs (rv s) -> inv (commit s p PHold gs).
Proof using Type.
  intros Hok Hinv Hp. pose proof Hinv as [Hn Hall]. destruct (Hall p) as [Hl _].
  unfold local_ok in Hl. rewrite Hp in Hl. destruct Hl as (Hgs & _ & Hrec & Hst).
  apply inv_commit; [done|done| |unfold local_ok; simpl; by rewrite at_proc_eq|done].
  intros q Hq _ Hr. destruct Hq. by apply (recorded_unique q p (stored s)); auto.
Qed.

Lemma inv_release s p ss wss gs' b : claimants_ok -> inv s -> procs s p = PHold ->
  gann (stored s) lifecycleOperationAnnotation <> EmptyString ->
  clearLifecycleOperation ss wss (stored s) (want p) = Ok gs' ->
  inv (commit s p PIdle (suspend (with_ann gs' (delete (guardKey (want p)) (gsAnnotations gs'))) b)).
Proof using Type.
  intros Hok Hinv Hp Hne Hc. pose proof Hinv as [Hn Hall].
  destruct (clear_ok _ _ _ _ _ Hc Hne) as (Hu & Hnm & Ho).
  apply inv_commit; [done|by apply (named_frame (stored s))| |unfold local_ok; simpl; by rewrite at_proc_eq|done].
  intros q Hq _ Hr. destruct Hq. apply (recorded_unique q p (stored s)); [done|done|].
  destruct Hr as (op & Hop & _). destruct (Ho op Hop) as [Hs _]. by exists op.
Qed.

Lemma inv_step s s' : claimants_ok -> inv s -> cstep s s' -> inv s'.
Proof using Type.
  intros Hok Hinv Hstep. pose proof Hinv as [Hn Hall].
  destruct Hstep as [p Hp|p|p w snap v before op Hp Hw Ha|p gs op v Hp ->|p w gs op v Hp Hr|p w gs op v gs' Hp Hr|
    p gs v Hp ->|p needed uid gs' Hp Hi|p ss wss gs' b Hp Hne Hc|gs' Hun|p].
  - apply inv_move; [done| |done]. unfold local_ok. simpl. rewrite at_proc_eq. by split_and!.
  - apply inv_move; [done| |done]. unfold local_ok. simpl. by rewrite at_proc_eq.
  - by eapply inv_decide.
  - by apply inv_write.
  - apply inv_move; [done|unfold local_ok; simpl; by rewrite at_proc_eq|].
    intros _. destruct (Hall p) as [_ Hrel]. rewrite Hp in Hrel. by apply Hrel.
  - by eapply inv_recover_write.
  - by apply inv_write2.
  - apply inv_commit; [done| | |unfold local_ok; simpl; by rewrite at_proc_eq|].
    + destruct (intent_ok _ _ _ _ (want p) Hn Hi) as (Hu & Hnm & _). by apply (named_frame (stored s)).
    + intros q _ _ Hr. by apply (intent_ok _ _ _ _ (want q) Hn Hi).
    + intros _ Hg. apply (intent_ok _ _ _ _ (want p) Hn Hi). destruct (Hall p) as [_ Hrel]. rewrite Hp in Hrel. by apply Hrel.
  - by eapply inv_release.
  - split; [destruct Hun as (? & ? & _); by apply (named_frame (stored s))|]. intros q. destruct (Hall q) as [Hl Hr].
    split; [|intros Hrel Hg; apply (recorded_frame _ (stored s)); auto].
    unfold local_ok in *. simpl. destruct (procs s q); try done; naive_solver lia.
  - split; [done|]. intros q. destruct (Hall q) as [Hl Hr]. simpl. split.
    + unfold local_ok in *. simpl. destruct (procs s q); try done.
      destruct Hl as (H1 & H2 & H3 & H4 & H5 & H6). split_and!; try done. intros E x Hx Hg. apply H6; [done..|].
      by destruct (decide (x = p)).
    + intros Hrel Hg. apply Hr; [done|]. by destruct (decide (q = p)).
Qed.

Lemma reachable_inv s : claimants_ok -> reachable s -> inv s.
Proof using Type.
  intros Hok. induction 1 as [s [Hn Hi]|s s' _ IH Hs]; [|by eapply inv_step].
  split; [done|]. intros p. unfold local_ok. by rewrite Hi.
Qed.

End Interleaving.

(** ** Properties *)

(** C1. Mutual exclusion: for any number of backups, restores, wipes and rollouts
    whose claims, recoveries, crashes and releases interleave with each other, with
    deletions of their objects and with unrelated writes, two operations whose
    objects exist never both hold the server, and the server records the one that
    does. *)
Theorem lifecycle_mutual_exclusion `{OwnerCodec} {proc} `{EqDecision proc} (want : proc -> lifecycleIdentity) s p q :
  claimants_ok want -> reachable want s ->
  procs s p = PHold -> gone s p = false -> procs s q = PHold -> gone s q = false ->
  p = q /\ recorded (want p) (stored s).
Proof.
  intros Hok Hr Hp Gp Hq Gq. destruct (reachable_inv want s Hok Hr) as [_ Hall].
  assert (Hrec : forall x, procs s x = PHold -> gone s x = false -> recorded (want x) (stored s)).
  { intros x Hx Gx. destruct (Hall x) as [_ Hrel]. rewrite Hx in Hrel. by apply Hrel. }
  split; [|by auto]. apply (recorded_unique want p q (stored s)); auto.
Qed.

(** The server as a claim leaves it. *)
Definition left_by (live : GS) (writes : list GS) : GS := List.last writes live.

(** The orphans a claim inherits: the dead owner and those it was recovering. *)
Definition orphans (want : lifecycleIdentity) (owner : option lifecycleOperation) : list lifecycleIdentity :=
  match owner with
  | Some op => Recovery op ++ (if sameLifecycleOwner (ident op) want then [] else [ident op])
  | None => []
  end.

Lemma granted_recovers `{OwnerCodec} w gs op r : recoverLifecycleOperation w gs op = Goes r ->
  Forall (fun p => (Kind p = "Backup" /\ backupWorkersLive w true (Name p) (UID p) = Some false) \/
                   (Kind p = "Restore" /\ restoreWorkersLive w (Name p) (UID p) = Some false)) (Recovery op).
Proof.
  unfold recoverLifecycleOperation. destruct (recoverWorkers w (Recovery op)) as [| |u] eqn:E; try done.
  intros _. by eapply recoverWorkers_goes.
Qed.

Lemma admitted_orphans `{OwnerCodec} w live want before op owner : admitted w live want before op ->
  lifecycleOwner live = Ok owner -> Recovery op = orphans want owner.
Proof.
  intros Ha Ho. destruct Ha as [Ho0|op0 op Ho0 Hs0 Hop|op0 Ho0 Hs0 He]; rewrite Ho0 in Ho; injection Ho as <-; simpl.
  - done.
  - rewrite Hs0, app_nil_r. by destruct Hop as [->| ->].
  - by rewrite Hs0.
Qed.

Lemma stamp_suspend `{OwnerCodec} gs op want : gsSuspend gs = true -> gsSuspend (stamp gs op want) = true.
Proof. intros Hs. unfold stamp. by repeat case_match. Qed.

(** The end of a claim, after the writes [pre] left the server recording [op]. *)
Lemma granted_tail `{OwnerCodec} w (write : GS -> bool) gs op want pre base writes (v : verdict unit) :
  op_ok gs op -> sameLifecycleOwner (ident op) want = true ->
  lifecycleOwner (left_by base pre) = Ok (Some op) ->
  match recoverLifecycleOperation w gs op with
  | Fails => (pre, Fails)
  | Waits => (pre, Waits)
  | Goes None => (pre, Goes tt)
  | Goes (Some gs') => if write gs' then (pre ++ [gs'], Goes tt) else (pre, Fails)
  end = (writes, v) ->
  (v = Goes tt ->
     (exists op', lifecycleOwner (left_by base writes) = Ok (Some op') /\
        sameLifecycleOwner (ident op') want = true /\ Recovery op' = []) /\
     Forall (fun p => (Kind p = "Backup" /\ backupWorkersLive w true (Name p) (UID p) = Some false) \/
                      (Kind p = "Restore" /\ restoreWorkersLive w (Name p) (UID p) = Some false)) (Recovery op)) /\
  (Forall (fun gs => gsSuspend gs = true) pre -> gsSuspend gs = true -> Forall (fun gs => gsSuspend gs = true) writes).
Proof.
  intros Hop Hs Hpre. destruct (recoverLifecycleOperation w gs op) as [| |r] eqn:Er; [intros; by inv_ok..|].
  pose proof (granted_recovers _ _ _ _ Er) as Hw.
  destruct (recover_goes _ _ _ _ Er) as [[-> HR]|(gs' & -> & _ & Hgu & Hgn & Hgs & Hgj)].
  - intros; inv_ok. split; [|done]. intros _. split; [|done]. exists op. by split_and!.
  - assert (Hgrec : lifecycleOwner gs' = Ok (Some (MkOp (ident op) []))).
    { apply owner_of_json; [|done]. apply Forall_cons in Hop as [Hi _]. constructor; [|constructor]. by rewrite Hgu. }
    destruct (write gs'); intros; inv_ok; [|by split].
    unfold left_by. rewrite List.last_last. split.
    + intros _. split; [|done]. eexists. by split_and!.
    + intros Hf Hsus. apply Forall_app. split; [done|]. apply Forall_singleton. by rewrite Hgs.
Qed.

(** A claim takes only what is free: if the server records another operation
    that still exists, nothing is written and the claim is not granted.  A granted
    claim leaves the server recording the claimant with no orphan left, after every
    worker of a dead owner was seen stopped.  No write of a claim lifts a
    suspension. *)
Lemma lifecycle_claim_safe `{OwnerCodec} w write live want writes v owner :
  gs_named live -> identity_valid want = true ->
  lifecycleOwner live = Ok owner ->
  claimLifecycleOperation w write live want = (writes, v) ->
  (forall op, owner = Some op -> sameLifecycleOwner (ident op) want = false ->
     lifecycleOwnerExists w (ident op) = Some true -> writes = [] /\ v <> Goes tt) /\
  (v = Goes tt ->
     (exists op, lifecycleOwner (left_by live writes) = Ok (Some op) /\
        sameLifecycleOwner (ident op) want = true /\ Recovery op = []) /\
     Forall (fun p => (Kind p = "Backup" /\ backupWorkersLive w true (Name p) (UID p) = Some false) \/
                      (Kind p = "Restore" /\ restoreWorkersLive w (Name p) (UID p) = Some false)) (orphans want owner)) /\
  (gsSuspend live = true -> Forall (fun gs => gsSuspend gs = true) writes).
Proof.
  intros Hn Hv Ho Hc. unfold claimLifecycleOperation in Hc.
  destruct (claimDecision w live want) as [| |[before op]] eqn:Ea; [inv_ok; split_and!; try done; constructor..|].
  destruct (admit_goes _ _ _ _ _ Ea) as [Ht Ha].
  destruct (admitted_ok _ _ _ _ _ Hn Hv Ht Ha) as (Hop & Hs & Hu & Hnm & Hann).
  rewrite <- (admitted_orphans _ _ _ _ _ _ Ha Ho).
  split.
  { intros op0 -> Hs0 He. destruct Ha as [Ho1|op1 op Ho1 Hs1 _|op1 Ho1 Hs1 He1]; rewrite Ho in Ho1; [done|..];
      injection Ho1 as <-; congruence. }
  destruct (stamp_frame before op want) as (Hu' & Hn' & Hj).
  assert (Hsus : gsSuspend live = true -> gsSuspend (stamp before op want) = true).
  { intros Hl. apply stamp_suspend. destruct Ha; [done..|]. by destruct (String.eqb _ _). }
  assert (Hok : op_ok (stamp before op want) op) by (by eapply op_ok_uid).
  destruct (needsUpdate before (stamp before op want)) eqn:Eup; simpl in Hc.
  - destruct (write (stamp before op want)); simpl in Hc; [|inv_ok; split; [done|constructor]].
    apply (granted_tail w write (stamp before op want) op want [stamp before op want] live) in Hc as [H1 H2];
      [|done..|by apply stamp_owner].
    split; [done|]. intros Hl. apply H2; [constructor; auto|auto].
  - apply (granted_tail w write (stamp before op want) op want [] live) in Hc as [H1 H2]; [|done..|].
    + split; [done|]. intros Hl. apply H2; [constructor|auto].
    + apply owner_of_json; [by eapply op_ok_uid|]. unfold needsUpdate in Eup.
      apply orb_false_iff in Eup as [Eup _]. rewrite negb_false_iff in Eup. apply String.eqb_eq in Eup.
      unfold left_by, gann in *. simpl. by rewrite <- Hann, Eup.
Qed.

(** A backup releases only a server it is recorded on, and leaves no owner
    annotation. *)
Lemma releaseBackup_owner `{OwnerCodec} ss wss gs uid want gs' :
  releaseBackupTarget ss wss gs uid want = Ok (Some gs') ->
  gsUID gs = uid /\ gann gs backupGuardAnnotation = identityJSON (Name want, UID want) /\
  gann gs' lifecycleOperationAnnotation = EmptyString /\ gann gs' backupGuardAnnotation = EmptyString.
Proof.
  unfold releaseBackupTarget, ownedBackupTarget.
  destruct (String.eqb_spec (gsUID gs) uid) as [Hu|]; simpl; [|done].
  destruct (String.eqb_spec (gann gs backupGuardAnnotation) (identityJSON (Name want, UID want))) as [Hg|]; simpl; [|done].
  intros Hrel. split; [done|]. split; [done|].
  assert (Hc : exists gs1, clearLifecycleOperation ss wss gs want = Ok gs1 /\
    gs' = with_ann gs1 (delete backupRecoveryLineageAnnotation (delete backupGuardAnnotation (gsAnnotations gs1)))).
  { destruct (String.eqb _ ""); [|destruct (parseLifecycleOperation _) as [op|]; [|done]; destruct (sameLifecycleOwner _ _); [|done]];
      (destruct (clearLifecycleOperation ss wss gs want) as [gs1|]; [|done]; injection Hrel as <-; by exists gs1). }
  destruct Hc as (gs1 & Hc & ->). unfold gann, ann. simpl. split.
  - rewrite !lookup_delete_ne by done. revert Hc. unfold clearLifecycleOperation.
    destruct (String.eqb_spec (gann gs lifecycleOperationAnnotation) "") as [E|_]; [intros [= <-]; exact E|].
    destruct (parseLifecycleOperation _) as [op|]; [|done]. destruct (_ || _); [done|].
    destruct ss as [sso|]; [|done]. destruct (_ && negb wss); [done|]. intros [= <-]. simpl. by rewrite lookup_delete_eq.
  - rewrite lookup_delete_ne by done. by rewrite lookup_delete_eq.
Qed.

(** *** Witnesses *)

(** A codec: the binary digits of an injective numbering. *)
#[export] Instance lifecycleIdentity_eq_dec : EqDecision lifecycleIdentity.
Proof. solve_decision. Defined.
#[export] Instance lifecycleIdentity_countable : Countable lifecycleIdentity.
Proof.
  refine (inj_countable'
    (fun i => ((Kind i, Name i, UID i, TargetUID i, Generation i), (Token i, NeedsUnquiesce i, QuiescePodUID i, InitialStartup i, Baseline i)))
    (fun '((k, n, u, t, g), (tk, nu, q, ini, b)) => MkLI k n u t g tk nu q ini b) _). by intros [].
Defined.
#[export] Instance lifecycleOperation_eq_dec : EqDecision lifecycleOperation.
Proof. solve_decision. Defined.
#[export] Instance lifecycleOperation_countable : Countable lifecycleOperation.
Proof. refine (inj_countable' (fun o => (ident o, Recovery o)) (fun '(i, r) => MkOp i r) _). by intros []. Defined.

Fixpoint digits (p : positive) : string :=
  match p with xH => "1" | xO p => String "0" (digits p) | xI p => String "I" (digits p) end.
Fixpoint undigits (s : string) : option positive :=
  match s with
  | EmptyString => None
  | String c s' =>
      if Ascii.eqb c "1" then Some xH
      else p ← undigits s'; if Ascii.eqb c "0" then Some (xO p) else Some (xI p)
  end.
Lemma undigits_digits p : undigits (digits p) = Some p.
Proof. induction p as [p IH|p IH|]; simpl; [by rewrite IH..|done]. Qed.
Lemma digits_ne p : digits p <> EmptyString.
Proof. by destruct p. Qed.

#[export] Instance demo_codec : OwnerCodec.
Proof.
  refine {| lifecycleOperationJSON op := digits (encode op); unmarshalOperation s := undigits s ≫= decode;
            identityJSON id := digits (encode id); unmarshalIdentity s := undigits s ≫= decode;
            unmarshalLineage s := undigits s ≫= decode |}.
  - intros op. rewrite undigits_digits. simpl. apply decode_encode.
  - intros op. apply digits_ne.
  - intros id. rewrite undigits_digits. simpl. apply decode_encode.
  - intros id. apply digits_ne.
Defined.

Definition demo_server : GS := MkGameServer "mc" "u1" 1 false ∅ false.
Definition demo_backup : lifecycleIdentity := backupLifecycleIdentity demo_server "b1" "bu1" 1 false.
Definition demo_restore : lifecycleIdentity := restoreLifecycleIdentity demo_server "r1" "ru1" 1.

(** Nothing runs; the objects of both operations exist. *)
Definition demo_world : world :=
  MkWorld (fun k n => Some (Some (if String.eqb k "Backup" then "bu1" else "ru1"))) (Some false) (Some None) (Some [])
    (Some []) (fun _ _ _ => Some false) (fun _ _ => Some false) (Some true) (fun _ => Some true) true (fun _ => true).

Definition demo_claimants (b : bool) : lifecycleIdentity := if b then demo_backup else demo_restore.
Definition demo_held : GS := stamp demo_server (MkOp demo_backup []) demo_backup.

Lemma lifecycle_mutual_exclusion_witness :
  exists s : cstate (proc := bool), reachable demo_claimants s /\ procs s true = PHold /\
    recorded demo_backup (stored s).
Proof.
  set (s0 := MkC demo_server 0 (fun _ : bool => false) (fun _ => PIdle)).
  set (s1 := move s0 true (PRead demo_server 0)).
  set (s2 := move s1 true (PWrite demo_held (MkOp demo_backup []) 0)).
  set (s3 := commit s2 true (PRecover demo_held (MkOp demo_backup []) 1) demo_held).
  set (s4 := move s3 true PHold).
  assert (Hok : claimants_ok demo_claimants).
  { split; [intros [] [] Hs; (reflexivity || discriminate Hs)|intros []; vm_compute; reflexivity]. }
  assert (Hw : honest demo_claimants demo_world s1).
  { intros p id _ Hs. apply same_iff in Hs as (Hk & Hn & Hu & _). unfold lifecycleOwnerExists.
    rewrite Hk, Hu. destruct p; simpl; discriminate. }
  assert (Hr : reachable demo_claimants s4).
  { apply reach_step with s3; [apply reach_step with s2; [apply reach_step with s1; [apply reach_step with s0|]|]|].
    - apply reach_init. split; [split; discriminate|reflexivity].
    - apply (c_read demo_claimants s0 true). reflexivity.
    - assert (Hup : needsUpdate demo_server demo_held = true) by (vm_compute; reflexivity).
      assert (Hd := c_decide demo_claimants s1 true demo_world demo_server 0 demo_server (MkOp demo_backup []) eq_refl Hw).
      change (stamp demo_server (MkOp demo_backup []) (demo_claimants true)) with demo_held in Hd.
      rewrite Hup in Hd. apply Hd. vm_compute. reflexivity.
    - apply (c_write demo_claimants s2 true demo_held (MkOp demo_backup []) 0); reflexivity.
    - apply (c_recover demo_claimants s3 true demo_world demo_held (MkOp demo_backup []) 1); [reflexivity|]. vm_compute. reflexivity. }
  exists s4. split; [exact Hr|]. split; [reflexivity|].
  apply (lifecycle_mutual_exclusion demo_claimants s4 true true Hok Hr); reflexivity.
Defined.

Lemma lifecycle_claim_safe_witness :
  (exists op, lifecycleOwner (left_by demo_server [demo_held]) = Ok (Some op) /\
     sameLifecycleOwner (ident op) demo_backup = true /\ Recovery op = []) /\
  (claimLifecycleOperation demo_world (fun _ => true) demo_held demo_restore).1 = [].
Proof.
  split.
  - refine (proj1 (proj1 (proj2 (lifecycle_claim_safe demo_world (fun _ => true) demo_server demo_backup
      [demo_held] (Goes tt) None _ _ _ _)) eq_refl)); [split; discriminate|vm_compute; reflexivity..].
  - vm_compute. reflexivity.
Defined.
