(* ===== verification/Power.v ===== *)
(** * operator: power state of a server

    The replica count the operator asks for (src/operator/internal/controller/
    gameserver_controller.go, [desiredReplicas] and [softStop]), with the template
    helpers it consults (helpers.go).  Cluster reads, the clock and the outcomes
    of writes are fields of an environment; a decision carries the annotations it
    leaves and the stop sequence it issued. *)

From S2P Require Import Prelude GoText GoTime GoToken Idle Lifecycle.
From Stdlib Require Import Ascii.
Local Open Scope Z_scope.

(** ** Templates *)

(** [GameTemplate], the fields in use: the console mode, the RCON protocol when
    RCON is configured and the declared stop sequence. *)
Record GameTemplate := MkTemplate {
  ConsoleMode : string;
  RCON : option string;
  LifecycleStop : list string
}.

(** [templateHasRCON] *)
Definition templateHasRCON (tmpl : option GameTemplate) : bool :=
  match tmpl with
  | Some t => match RCON t with Some p => negb (String.eqb p "") && negb (String.eqb p "none") | None => false end
  | None => false
  end.

(** [EffectiveConsoleMode] *)
Definition EffectiveConsoleMode (tmpl : option GameTemplate) : string :=
  match tmpl with
  | None => "none"
  | Some t =>
      if negb (String.eqb (ConsoleMode t) "") then ConsoleMode t
      else match RCON t with
      | Some p =>
          if negb (String.eqb p "") && negb (String.eqb p "none")
          then (if String.eqb p "cli" then "pty" else "rcon") else "none"
      | None => "none"
      end
  end.

(** [rconProtocol] *)
Definition rconProtocol (tmpl : option GameTemplate) : string :=
  match tmpl with
  | Some t => match RCON t with Some p => if String.eqb p "" then "source" else p | None => "source" end
  | None => "source"
  end.

(** [stopTransport] *)
Inductive stopTransport := stopTransportNone | stopTransportRCON | stopTransportPTY.

(** [selectStopTransport] *)
Definition selectStopTransport (tmpl : GameTemplate) : stopTransport :=
  if templateHasRCON (Some tmpl) then stopTransportRCON
  else if String.eqb (EffectiveConsoleMode (Some tmpl)) "pty" then stopTransportPTY
  else stopTransportNone.

(** ** Conditions *)

(** [metav1.Condition] *)
Record Condition := MkCond {
  cType : string;
  cStatus : string;
  cReason : string;
  cMessage : string;
  cObservedGeneration : Z;
  cLastTransition : time
}.
Definition with_transition (c : Condition) (t : time) : Condition :=
  MkCond (cType c) (cStatus c) (cReason c) (cMessage c) (cObservedGeneration c) t.

(** [upsertCondition] *)
Fixpoint upsertCondition (conds : list Condition) (c : Condition) (now : time) : list Condition :=
  match conds with
  | [] => [if IsZero (cLastTransition c) then with_transition c now else c]
  | d :: rest =>
      if negb (String.eqb (cType d) (cType c)) then d :: upsertCondition rest c now
      else with_transition c (if negb (String.eqb (cStatus d) (cStatus c)) then now else cLastTransition d) :: rest
  end.

(** [sameConditions] *)
Fixpoint sameConditions (a b : list Condition) : bool :=
  match a, b with
  | [], [] => true
  | x :: a', y :: b' =>
      String.eqb (cType x) (cType y) && String.eqb (cStatus x) (cStatus y) && String.eqb (cReason x) (cReason y) &&
      String.eqb (cMessage x) (cMessage y) && (cObservedGeneration x =? cObservedGeneration y) && sameConditions a' b'
  | _, _ => false
  end.

(** ** [softStop] *)

Definition defaultStopGracePeriod : duration := 30 * Second.
Definition restartDrainPoll : duration := 2 * Second.
Definition wipeDrainPoll : duration := 5 * Second.

(** A decision: the replicas, when to look again, whether an error is returned,
    the annotations stored afterwards and the stop sequence sent. *)
Record power := MkPower {
  replicas : Z;
  requeueAfter : duration;
  failed : bool;
  leaves : annots;
  issued : option stopTransport
}.

(** What [softStop] reads: the wired clients, the ready replicas of the
    StatefulSet ([None] an error, [Some None] absent), the grace period, the clock
    and whether the stamp is accepted. *)
Record stopEnv := MkStop {
  agentEnabled : bool;
  podAttacher : bool;
  readyReplicas : option (option Z);
  graceSeconds : option Z;
  clockNow : time;
  stampOk : bool
}.

(** The transport left once unwired clients are discarded. *)
Definition usableTransport (e : stopEnv) (tmpl : GameTemplate) : stopTransport :=
  match selectStopTransport tmpl with
  | stopTransportRCON => if agentEnabled e then stopTransportRCON else stopTransportNone
  | stopTransportPTY => if podAttacher e then stopTransportPTY else stopTransportNone
  | stopTransportNone => stopTransportNone
  end.

Definition grace (e : stopEnv) : duration :=
  match graceSeconds e with None => defaultStopGracePeriod | Some s => s * Second end.

Section Power.
Context (ParseRFC3339 : string -> option time) (FormatRFC3339 : time -> string).

(** [softStop] *)
Definition softStop (e : stopEnv) (tmpl : GameTemplate) (m : annots) : power :=
  let done := MkPower 0 0 false m None in
  match LifecycleStop tmpl with
  | [] => done
  | _ =>
      match usableTransport e tmpl with
      | stopTransportNone => done
      | transport =>
          match readyReplicas e with
          | Some None => done
          | None => MkPower 0 0 true m None
          | Some (Some n) =>
              if n =? 0 then done
              else match m !! stopRequestedAtAnnotation with
              | None =>
                  if stampOk e
                  then MkPower 1 (grace e) false (<[stopRequestedAtAnnotation := FormatRFC3339 (clockNow e)]> m) (Some transport)
                  else MkPower 1 0 true m None
              | Some raw =>
                  match ParseRFC3339 raw with
                  | None => done
                  | Some requestedAt =>
                      let remaining := s64 (grace e - Sub (clockNow e) requestedAt) in
                      if 0 <? remaining then MkPower 1 remaining false m None else done
                  end
              end
          end
      end
  end.

(** ** [desiredReplicas] *)

Definition effectiveTemplateAnnotation : string := "gameplane.local/effective-template-revision".

(** What [desiredReplicas] reads besides: the live server ([None] an error), the
    protected StatefulSet (controlled by this server, and its [Spec.Replicas]),
    whether a wipe failed for good, the replicas [restartPhase] sees, and whether
    the acknowledgement and the cleanup of the stop stamp are accepted. *)
Record powerEnv := MkPowerEnv {
  liveServer : option GS;
  protectedSet : option (option (bool * option Z));
  settledWipeFailure : bool;
  restartReplicas : result unit (option Z);
  ackOk : bool;
  clearOk : bool;
  stop : stopEnv
}.

Definition power_error (r : Z) (m : annots) : power := MkPower r 0 true m None.

(** [clearStopAnnotation] *)
Definition clearStopAnnotation (m : annots) (ok : bool) : result unit annots :=
  match m !! stopRequestedAtAnnotation with
  | None => Ok m
  | Some _ => if ok then Ok (delete stopRequestedAtAnnotation m) else Err tt
  end.

(** The end of [desiredReplicas]: wipes, restores, restarts and the power state. *)
Definition restPower (e : powerEnv) (gs : GS) (tmpl : GameTemplate) (idle : idleState) : power :=
  let m := gsAnnotations gs in
  let soft := softStop (stop e) tmpl m in
  let asleep := match idle with idleAsleep => true | idleAwake => false end in
  if negb (String.eqb (gann gs wipeGuardAnnotation) "") || pendingWipe gs then
    if negb (failed soft) && settledWipeFailure e then soft
    else
      let poll := if (requeueAfter soft =? 0) || (wipeDrainPoll <? requeueAfter soft) then wipeDrainPoll else requeueAfter soft in
      MkPower (replicas soft) poll (failed soft) (leaves soft) (issued soft)
  else if negb (String.eqb (gann gs restoreGuardAnnotation) "") then soft
  else match restartPhase m (restartReplicas e) with
  | Err _ => power_error 1 m
  | Ok restartComplete =>
      if ackOk e then MkPower (if gsSuspend gs || asleep then 0 else 1) 0 false (ackRestart m) None
      else power_error 1 m
  | Ok restart =>
      let draining := match restart with restartDraining => true | _ => false end in
      if negb (gsSuspend gs || draining || asleep) then
        match clearStopAnnotation m (clearOk e) with
        | Ok m' => MkPower 1 0 false m' None
        | Err _ => power_error 1 m
        end
      else if negb (failed soft) && draining && (requeueAfter soft =? 0)
      then MkPower (replicas soft) restartDrainPoll (failed soft) (leaves soft) (issued soft)
      else soft
  end.

(** [desiredReplicas] *)
Definition desiredReplicas `{OwnerCodec} (e : powerEnv) (gs : GS) (tmpl : GameTemplate) (idle : idleState) : power :=
  let m := gsAnnotations gs in
  match liveServer e with
  | None => power_error 0 m
  | Some live =>
      if negb (String.eqb (gsUID live) (gsUID gs)) then power_error 0 m
      else match lifecycleOwner live with
      | Err _ => power_error 0 m
      | Ok None => restPower e gs tmpl idle
      | Ok (Some op) =>
          let i := ident op in
          let recovering := negb (Nat.eqb (length (Recovery op)) 0) in
          if String.eqb (Kind i) "Rollout" && negb (Baseline i) && negb recovering &&
             negb (String.eqb (Token i) (gann live effectiveTemplateAnnotation))
          then
            let soft := softStop (stop e) tmpl m in
            MkPower (replicas soft) (if requeueAfter soft =? 0 then restartDrainPoll else requeueAfter soft)
              (failed soft) (leaves soft) (issued soft)
          else if InitialStartup i && negb recovering then
            MkPower (if gsSuspend live then 0 else 1) (5 * Second) false m None
          else if lifecycleRecoveryNeedsStop op then MkPower 0 (5 * Second) false m None
          else if String.eqb (Kind i) "Backup" || Baseline i || recovering then
            match protectedSet e with
            | None => power_error 0 m
            | Some None => MkPower 0 (5 * Second) false m None
            | Some (Some (false, _)) => power_error 0 m
            | Some (Some (true, None)) => MkPower 1 (5 * Second) false m None
            | Some (Some (true, Some n)) => MkPower n (5 * Second) false m None
            end
          else if negb (String.eqb (gann live restoreGuardAnnotation) (gann gs restoreGuardAnnotation)) ||
                  negb (String.eqb (gann live wipeGuardAnnotation) (gann gs wipeGuardAnnotation))
          then softStop (stop e) tmpl (gsAnnotations live)
          else restPower e gs tmpl idle
      end
  end.
End Power.
