(* ===== verification/PowerFacts.v ===== *)
(** * Facts about the power state

    A soft stop sends its sequence once and holds the pod for the grace period;
    an operation that owns the data decides the power state; the condition list
    has one entry per type. *)

From S2P Require Import Prelude GoText GoTime GoToken Idle IdleFacts Lifecycle LifecycleFacts Power.
From Stdlib Require Import Ascii.
Local Open Scope Z_scope.

Section Stop.
Context (ParseRFC3339 : string -> option time) (FormatRFC3339 : time -> string).

(** Consecutive passes of a stopping server, oldest first. *)
Fixpoint stopRun (tmpl : GameTemplate) (m : annots) (es : list stopEnv) : list power :=
  match es with
  | [] => []
  | e :: es' => let p := softStop ParseRFC3339 FormatRFC3339 e tmpl m in p :: stopRun tmpl (leaves p) es'
  end.

(** A pass at which the game is up and can be told to stop. *)
Definition stoppable (tmpl : GameTemplate) (e : stopEnv) : Prop :=
  usableTransport e tmpl <> stopTransportNone /\
  (exists n, readyReplicas e = Some (Some n) /\ n <> 0) /\
  stampOk e = true /\ (forall s, graceSeconds e = Some s -> 0 <= s <= 600).

Lemma grace_bounds tmpl e : stoppable tmpl e -> 0 <= grace e <= 600 * Second.
Proof.
  intros (_ & _ & _ & Hg). unfold grace, defaultStopGracePeriod, Second.
  destruct (graceSeconds e) as [s|]; [specialize (Hg s eq_refl)|]; lia.
Qed.

(** A pass over a server that is already stopping. *)
Lemma softStop_waiting tmpl e m raw t : LifecycleStop tmpl <> [] -> stoppable tmpl e ->
  m !! stopRequestedAtAnnotation = Some raw -> ParseRFC3339 raw = Some t ->
  - 2 ^ 62 < clockNow e - t < 2 ^ 62 ->
  exists rq, softStop ParseRFC3339 FormatRFC3339 e tmpl m =
    MkPower (if clockNow e <? t + grace e then 1 else 0) rq false m None.
Proof.
  intros Hd Hs Hm Hp Hr. pose proof (grace_bounds tmpl e Hs) as Hg.
  destruct Hs as (Ht & (n & Hn & Hne) & _). unfold softStop.
  destruct (LifecycleStop tmpl) as [|c l]; [done|]. rewrite Hn, Hm, Hp.
  destruct (Z.eqb_spec n 0); [done|].
  rewrite Sub_exact by (unfold minDuration, maxDuration; lia).
  assert (Hs64 : s64 (grace e - (clockNow e - t)) = grace e - (clockNow e - t))
    by (unfold s64, Second in *; rewrite Z.mod_small; lia).
  rewrite Hs64.
  destruct (usableTransport e tmpl); [done| |];
    destruct (Z.ltb_spec 0 (grace e - (clockNow e - t))), (Z.ltb_spec (clockNow e) (t + grace e)); try lia; by eexists.
Qed.

Lemma stopRun_waiting tmpl t raw m : LifecycleStop tmpl <> [] -> ParseRFC3339 raw = Some t ->
  m !! stopRequestedAtAnnotation = Some raw ->
  forall es, Forall (stoppable tmpl) es -> Forall (fun e => - 2 ^ 62 < clockNow e - t < 2 ^ 62) es ->
  Forall2 (fun e p => issued p = None /\ failed p = false /\
    replicas p = if clockNow e <? t + grace e then 1 else 0) es (stopRun tmpl m es).
Proof.
  intros Hd Hp Hm. induction es as [|e es IH]; intros Hs Hr; simpl; [constructor|].
  apply Forall_cons in Hs as [Hse Hses]. apply Forall_cons in Hr as [Hre Hres].
  destruct (softStop_waiting tmpl e m raw t Hd Hse Hm Hp Hre) as (rq & ->). constructor; [done|]. by apply IH.
Qed.
End Stop.

(** ** Properties *)

(** A soft stop is graceful and sent once: from the pass that stamps the
    request on, as long as the game stays up, the stop sequence is sent by that
    pass and by no later one, and the pod is kept until the grace period, counted
    from the stamp (stored with whole seconds), has elapsed, and then removed. *)
Lemma soft_stop_graceful ParseRFC3339 FormatRFC3339 tmpl m e0 es base :
  ParseRFC3339 (FormatRFC3339 (clockNow e0)) = Some (persisted (clockNow e0)) ->
  LifecycleStop tmpl <> [] -> m !! stopRequestedAtAnnotation = None ->
  Forall (stoppable tmpl) (e0 :: es) ->
  Forall (fun e => base <= clockNow e < base + 2 ^ 61) (e0 :: es) ->
  exists p0 ps, stopRun ParseRFC3339 FormatRFC3339 tmpl m (e0 :: es) = p0 :: ps /\
    replicas p0 = 1 /\ issued p0 = Some (usableTransport e0 tmpl) /\
    Forall2 (fun e p => issued p = None /\ failed p = false /\
      replicas p = if clockNow e <? persisted (clockNow e0) + grace e then 1 else 0) es ps.
Proof.
  intros Hrt Hd Hm Hs Hb. apply Forall_cons in Hs as [(Ht & (n & Hn & Hne) & Hok & _) Hs].
  apply Forall_cons in Hb as [Hb0 Hb].
  assert (H0 : softStop ParseRFC3339 FormatRFC3339 e0 tmpl m =
    MkPower 1 (grace e0) false (<[stopRequestedAtAnnotation := FormatRFC3339 (clockNow e0)]> m) (Some (usableTransport e0 tmpl))).
  { unfold softStop. destruct (LifecycleStop tmpl); [done|]. rewrite Hn, Hm, Hok.
    destruct (Z.eqb_spec n 0); [done|]. by destruct (usableTransport e0 tmpl). }
  cbn [stopRun]. rewrite H0. eexists _, _. split; [done|]. split; [done|]. split; [done|].
  eapply stopRun_waiting; [done|exact Hrt|simpl; by rewrite lookup_insert_eq|done|].
  eapply Forall_impl; [exact Hb|]. intros e He. simpl in He.
  pose proof (persisted_bounds (clockNow e0)). assert (Second < 2 ^ 60) by done. lia.
Qed.

(** The replicas a protected StatefulSet runs now. *)
Definition current (set : option (bool * option Z)) : Z :=
  match set with None => 0 | Some (_, None) => 1 | Some (_, Some n) => n end.

Definition same_move (p q : power) : Prop := replicas p = replicas q /\ leaves p = leaves q /\ issued p = issued q.

(** With a guard of its own, the server is only ever brought down. *)
Lemma restPower_guarded P F e gs tmpl idle :
  gann gs restoreGuardAnnotation <> EmptyString \/ gann gs wipeGuardAnnotation <> EmptyString ->
  same_move (restPower P F e gs tmpl idle) (softStop P F (stop e) tmpl (gsAnnotations gs)).
Proof.
  intros Hg. unfold restPower, same_move.
  destruct (negb (String.eqb (gann gs wipeGuardAnnotation) "") || pendingWipe gs) eqn:Ew.
  - by destruct (_ && settledWipeFailure e).
  - apply orb_false_iff in Ew as [Ew _]. rewrite negb_false_iff in Ew. apply String.eqb_eq in Ew.
    destruct Hg as [Hr|Hw]; [|done]. by destruct (String.eqb_spec (gann gs restoreGuardAnnotation) "").
Qed.

(** Whoever owns the data decides the power state.  While the live server
    records a Backup, every pass keeps the workload exactly as it is (or at zero,
    when the remains of a restore must be stopped), sends no stop sequence and
    writes nothing, whatever the user, the idle policy or a restart request ask for.
    While it records a Restore or a Wipe with its guard, every pass only continues
    the soft stop. *)
Lemma owner_controls_power `{OwnerCodec} P F e live gs tmpl idle op :
  liveServer e = Some live -> gsUID live = gsUID gs -> lifecycleOwner live = Ok (Some op) ->
  InitialStartup (ident op) = false -> Baseline (ident op) = false ->
  let p := desiredReplicas P F e gs tmpl idle in
  (Kind (ident op) = "Backup" ->
     issued p = None /\ leaves p = gsAnnotations gs /\
     (failed p = false ->
        (lifecycleRecoveryNeedsStop op = true /\ replicas p = 0) \/
        exists set, protectedSet e = Some set /\ replicas p = current set)) /\
  (Kind (ident op) = "Restore" \/ Kind (ident op) = "Wipe" -> Recovery op = [] ->
     gann live restoreGuardAnnotation <> EmptyString \/ gann live wipeGuardAnnotation <> EmptyString ->
     same_move p (softStop P F (stop e) tmpl (gsAnnotations gs)) \/
     same_move p (softStop P F (stop e) tmpl (gsAnnotations live))).
Proof.
  intros Hl Hu Ho Hi Hb. cbn zeta. unfold desiredReplicas. rewrite Hl, Hu, String.eqb_refl, Ho, Hi, Hb. simpl.
  split.
  - intros Hk. rewrite Hk. simpl. destruct (lifecycleRecoveryNeedsStop op); [split_and!; by auto|].
    destruct (protectedSet e) as [[[[] [n|]]|]|]; simpl; split_and!; try done; intros _; right; eexists; split; done.
  - intros Hk HR Hg. unfold lifecycleRecoveryNeedsStop. rewrite HR. simpl.
    assert (Hk' : String.eqb (Kind (ident op)) "Rollout" = false /\ String.eqb (Kind (ident op)) "Backup" = false)
      by (by destruct Hk as [-> | ->]).
    destruct Hk' as [-> ->]. simpl.
    destruct (String.eqb_spec (gann live restoreGuardAnnotation) (gann gs restoreGuardAnnotation)) as [Er|]; simpl;
      [|by right; split_and!].
    destruct (String.eqb_spec (gann live wipeGuardAnnotation) (gann gs wipeGuardAnnotation)) as [Ew|]; simpl;
      [|by right; split_and!].
    left. apply restPower_guarded. by rewrite <- Er, <- Ew.
Qed.

(** [upsertCondition] leaves at most one condition per type and touches no other
    type. *)
Lemma upsert_types conds c t : NoDup (map cType conds) -> NoDup (map cType (upsertCondition conds c t)).
Proof.
  induction conds as [|d conds IH]; simpl; intros Hnd.
  - apply NoDup_singleton.
  - apply NoDup_cons in Hnd as [Hd Hnd]. destruct (String.eqb_spec (cType d) (cType c)) as [E|Hne]; simpl.
    + apply NoDup_cons. by rewrite <- E.
    + apply NoDup_cons. split; [|by apply IH]. clear IH Hnd.
      induction conds as [|e conds IH]; simpl in *; [destruct (IsZero _); set_solver|].
      destruct (String.eqb_spec (cType e) (cType c)); simpl; set_solver.
Qed.

Lemma upsert_other conds c t d : cType d <> cType c -> d ∈ upsertCondition conds c t <-> d ∈ conds.
Proof.
  intros Hne. induction conds as [|e conds IH]; simpl.
  - rewrite list_elem_of_singleton. split; [intros ->|by intros ?%elem_of_nil]. by destruct (IsZero _).
  - destruct (String.eqb_spec (cType e) (cType c)) as [E|]; simpl; rewrite !elem_of_cons; [|by rewrite IH].
    split; intros [->|?]; auto; done.
Qed.

(** *** Witnesses *)

Definition demo_template : GameTemplate := MkTemplate "" (Some "source") ["save-all"; "stop"].
Definition demo_stop (t : time) : stopEnv := MkStop true false (Some (Some 1)) (Some 10) t true.

Lemma demo_stoppable t : stoppable demo_template (demo_stop t).
Proof.
  split; [vm_compute; discriminate|]. split; [exists 1; split; [reflexivity|lia]|]. split; [reflexivity|].
  intros s [= <-]. lia.
Qed.

(** Stamped at 0.5 s (stored as 0 s), still up at 9 s, removed at 10 s. *)
Lemma soft_stop_graceful_witness :
  exists p0 ps, stopRun (fun _ => Some 0) (fun _ => "t0") demo_template ∅
      [demo_stop 500000000; demo_stop (9 * Second); demo_stop (10 * Second)] = p0 :: ps /\
    replicas p0 = 1 /\ issued p0 = Some stopTransportRCON /\
    Forall2 (fun e p => issued p = None /\ failed p = false /\
      replicas p = if clockNow e <? 0 + grace e then 1 else 0) [demo_stop (9 * Second); demo_stop (10 * Second)] ps.
Proof.
  apply (soft_stop_graceful (fun _ => Some 0) (fun _ => "t0") demo_template ∅ (demo_stop 500000000)
    [demo_stop (9 * Second); demo_stop (10 * Second)] 0).
  - vm_compute. reflexivity.
  - discriminate.
  - reflexivity.
  - repeat apply Forall_cons_2; try apply demo_stoppable. apply Forall_nil_2.
  - repeat apply Forall_cons_2; try apply Forall_nil_2; unfold Second; simpl; lia.
Defined.

(** A suspended server with a backup running keeps its one replica. *)
Definition demo_power_env : powerEnv :=
  MkPowerEnv (Some demo_held) (Some (Some (true, Some 1))) false (Ok (Some 1)) true true (demo_stop 0).

Lemma owner_controls_power_witness :
  exists set, protectedSet demo_power_env = Some set /\
    replicas (desiredReplicas (fun _ => Some 0) (fun _ => "t0") demo_power_env (suspend demo_held true) demo_template idleAsleep) =
    current set.
Proof.
  assert (Ho : lifecycleOwner demo_held = Ok (Some (MkOp demo_backup []))) by (vm_compute; reflexivity).
  destruct (owner_controls_power (fun _ => Some 0) (fun _ => "t0") demo_power_env demo_held (suspend demo_held true)
    demo_template idleAsleep (MkOp demo_backup []) eq_refl eq_refl Ho eq_refl eq_refl) as [Hb _].
  destruct (Hb eq_refl) as (_ & _ & Hf). destruct Hf as [[Hx _]|Hset]; [vm_compute; reflexivity|discriminate Hx|exact Hset].
Defined.
