(* ===== verification/Icu.v ===== *)
(** * icu: the message format of the language packs

    The parser of i18n/icu/parse.go, the renderer of format.go and the
    placeholder collectors of placeholders.go.

    The parser's cursor is the pair of its byte offset and the text that is
    left, so that [p.s[p.pos]] is the head of [rest].  The recursion of
    [parseSeq], [parseArgument], [parseChoice] and [parseTag] is not structural:
    the two loops of the code take fuel, and running out of it is an error value
    of its own, [Fuel], which [Parse] is proved never to return. *)

From Stdlib Require Import Ascii.
From S2P Require Import Prelude GoText GoToken.
Local Open Scope string_scope.
Local Open Scope Z_scope.

(** ** Messages *)

(** [icu.Node]: one constructor per [Kind], carrying the fields the kind uses.
    An [icu.Option] is the pair of its key and its value. *)
#[local] Set Warnings "-register-all".
Inductive Node :=
| Literal (Text : string)
| Argument (Name Format Style : string)
| Plural (Name : string) (Options : list (string * list Node))
| Select (Name : string) (Options : list (string * list Node))
| Pound
| Tag (Name : string) (Children : list Node).

Definition Message := list Node.

Definition is_literal (n : Node) : bool :=
  match n with Literal _ => true | _ => false end.

(** Induction on nodes, through the options and the children. *)
Section NodeInd.
Variable P : Node -> Prop.
Variable Q : list Node -> Prop.
Hypothesis HLiteral : forall t, P (Literal t).
Hypothesis HArgument : forall n f s, P (Argument n f s).
Hypothesis HPlural : forall n o, Forall (fun kv => Q kv.2) o -> P (Plural n o).
Hypothesis HSelect : forall n o, Forall (fun kv => Q kv.2) o -> P (Select n o).
Hypothesis HPound : P Pound.
Hypothesis HTag : forall n c, Q c -> P (Tag n c).
Hypothesis HQnil : Q [].
Hypothesis HQcons : forall n m, P n -> Q m -> Q (n :: m).

Fixpoint node_ind (n : Node) : P n :=
  let fix nodes (l : list Node) : Q l :=
    match l with [] => HQnil | x :: l' => HQcons x l' (node_ind x) (nodes l') end in
  let fix options (o : list (string * list Node)) : Forall (fun kv => Q kv.2) o :=
    match o with
    | [] => List.Forall_nil _
    | kv :: o' => List.Forall_cons _ kv o' (nodes kv.2) (options o')
    end in
  match n with
  | Literal t => HLiteral t
  | Argument a f s => HArgument a f s
  | Plural a o => HPlural a o (options o)
  | Select a o => HSelect a o (options o)
  | Pound => HPound
  | Tag a c => HTag a c (nodes c)
  end.

Lemma message_ind (m : Message) : Q m.
Proof using All. induction m as [|n m IH]; [done|]. apply HQcons; [apply node_ind|done]. Qed.
End NodeInd.

(** ** The parser *)

(** [icu.SyntaxError], beside the model's own [Fuel]. *)
Inductive perr :=
| Fuel
| SyntaxError (Offset : Z) (Msg : string).

(** [icu.ctx] *)
Record ctx := Ctx { plural : bool; option_ : bool; tag : string }.

(** [icu.parser]: the offset and what is left of the text from there. *)
Record parser := Parser { pos : Z; rest : string }.

Definition P (A : Type) : Type := parser -> result perr (A * parser).
#[export] Instance P_ret : MRet P := fun A a p => Ok (a, p).
#[export] Instance P_bind : MBind P := fun A B f m p =>
  match m p with Ok (a, p') => f a p' | Err e => Err e end.

Definition getPos : P Z := fun p => Ok (pos p, p).
(** [p.s[p.pos]], or nothing at the end of the text. *)
Definition peek : P (option Ascii.ascii) := fun p =>
  Ok (match rest p with String c _ => Some c | EmptyString => None end, p).
(** [p.pos++] *)
Definition advance : P () := fun p =>
  Ok ((), match rest p with String _ r => Parser (pos p + 1) r | EmptyString => p end).
Definition errAt {A} (off : Z) (msg : string) : P A := fun _ => Err (SyntaxError off msg).

Definition quote : string := String (Ascii.ascii_of_nat 34) EmptyString.
(** [%q] of the words the parser prints: letters, digits, '_', '-', '='. *)
Definition quoted (s : string) : string := quote +:+ s +:+ quote.

Definition isLetter (c : Ascii.ascii) : bool :=
  let b := byte_of_ascii c in in_range 97 122 b || in_range 65 90 b.
Definition isDigit (c : Ascii.ascii) : bool := is_digit (byte_of_ascii c).
Definition isSpace (c : Ascii.ascii) : bool :=
  let b := byte_of_ascii c in (b =? 32) || (b =? 9) || (b =? 10) || (b =? 13).
Definition isNameByte (dashes : bool) (c : Ascii.ascii) : bool :=
  isLetter c || isDigit c || Ascii.eqb c "_"%char || (dashes && Ascii.eqb c "-"%char).

(** The longest prefix whose bytes satisfy [f], and what follows it. *)
Fixpoint span (f : Ascii.ascii -> bool) (s : string) : string * string :=
  match s with
  | String c s' => if f c then let '(a, b) := span f s' in (String c a, b) else (EmptyString, s)
  | EmptyString => (EmptyString, EmptyString)
  end.
Definition spanP (f : Ascii.ascii -> bool) : P string := fun p =>
  let '(w, r) := span f (rest p) in
  Ok (w, Parser (pos p + Z.of_nat (String.length w)) r).

Definition skipSpace : P () := w ← spanP isSpace; mret ().
Definition parseWord : P string := spanP isLetter.

(** [parseName]: [None] stands for [ok = false]. *)
Definition parseName (dashes : bool) : P (option string) :=
  c ← peek;
  match c with
  | Some c =>
      if isLetter c || Ascii.eqb c "_"%char
      then w ← spanP (isNameByte dashes); mret (Some w)
      else mret None
  | None => mret None
  end.

(** The quoted run of [apostrophe], after its opening quote: the text it
    stands for and what follows the closing quote. *)
Fixpoint quotedText (s : string) : string * string :=
  match s with
  | EmptyString => (EmptyString, EmptyString)
  | String b s' =>
      if Ascii.eqb b "'"%char then
        match s' with
        | String b' s'' =>
            if Ascii.eqb b' "'"%char then let '(t, r) := quotedText s'' in (String b t, r)
            else (EmptyString, s')
        | EmptyString => (EmptyString, s')
        end
      else let '(t, r) := quotedText s' in (String b t, r)
  end.

(** [next] opens quoted text. *)
Definition quotes (c : ctx) (next : Ascii.ascii) : bool :=
  Ascii.eqb next "{"%char || Ascii.eqb next "}"%char || Ascii.eqb next "<"%char || Ascii.eqb next "|"%char
  || (Ascii.eqb next "#"%char && plural c).

Definition strLen (s : string) : Z := Z.of_nat (String.length s).

(** [apostrophe], at the apostrophe: what it appends to the literal. *)
Definition apostrophe (c : ctx) : P string := fun p =>
  match rest p with
  | String q (String next r) =>
      if Ascii.eqb next "'"%char then Ok ("'", Parser (pos p + 2) r)
      else if quotes c next then
        let '(t, r') := quotedText (String next r) in
        Ok (t, Parser (pos p + (strLen (rest p) - strLen r')) r')
      else Ok ("'", Parser (pos p + 1) (String next r))
  | _ => Ok ("'", Parser (pos p + strLen (rest p)) EmptyString)
  end.

Definition parseKey (typ : string) : P string :=
  if String.eqb typ "select" then
    k ← parseName true;
    match k with
    | Some key => mret key
    | None => off ← getPos; errAt off "expected select key"
    end
  else
    c ← peek;
    if bool_decide (c = Some "="%char) then
      start ← getPos;
      advance;;
      digits ← spanP isDigit;
      if String.eqb digits EmptyString then errAt start "expected digits after '='"
      else mret (String "="%char digits)
    else
      off ← getPos;
      word ← parseWord;
      if String.eqb word "offset" then errAt off "offset: is not supported"
      else if bool_decide (word ∈ ["zero"; "one"; "two"; "few"; "many"; "other"]) then mret word
      else if String.eqb word EmptyString then errAt off "expected plural key"
      else errAt off ("unknown plural key " +:+ quoted word).

(** [parseChoice] up to its loop, and what follows it: [loop] is the option
    list, [seen] the keys of what it returns. *)
Definition parseChoice (loop : ctx -> string -> Z -> list (string * list Node) -> P (list (string * list Node)))
    (c : ctx) (name typ : string) (open : Z) : P Node :=
  b ← peek;
  if negb (bool_decide (b = Some ","%char)) then
    off ← getPos; errAt off ("expected ',' after " +:+ typ)
  else
    advance;;
    opts ← loop c typ open [];
    if bool_decide ("other" ∈ opts.*1) then
      mret (if String.eqb typ "select" then Select name opts else Plural name opts)
    else errAt open (typ +:+ " " +:+ quoted name +:+ " is missing other branch").

(** [parseArgument]; [choice] is [parseChoice]. *)
Definition parseArgument (choice : ctx -> string -> string -> Z -> P Node) (c : ctx) : P Node :=
  open ← getPos;
  advance;;
  skipSpace;;
  n ← parseName false;
  match n with
  | None => off ← getPos; errAt off "expected argument name"
  | Some name =>
      skipSpace;;
      b ← peek;
      match b with
      | None => errAt open "unterminated '{'"
      | Some b =>
          if Ascii.eqb b "}"%char then advance;; mret (Argument name "" "")
          else if negb (Ascii.eqb b ","%char) then
            off ← getPos; errAt off "expected ',' or '}' after argument name"
          else
            advance;;
            skipSpace;;
            typOff ← getPos;
            typ ← parseWord;
            skipSpace;;
            b ← peek;
            match b with
            | None => errAt open "unterminated '{'"
            | Some b =>
                if bool_decide (typ ∈ ["number"; "date"; "time"]) then
                  if Ascii.eqb b "}"%char then advance;; mret (Argument name typ "")
                  else if negb (Ascii.eqb b ","%char) then
                    off ← getPos; errAt off "expected ',' or '}' after format"
                  else
                    advance;;
                    style ← spanP (fun x => negb (Ascii.eqb x "}"%char));
                    e ← peek;
                    match e with
                    | None => errAt open "unterminated '{'"
                    | Some _ => advance;; mret (Argument name typ (TrimSpace style))
                    end
                else if bool_decide (typ ∈ ["plural"; "select"]) then choice c name typ open
                else if String.eqb typ EmptyString then errAt typOff "expected argument type"
                else errAt typOff ("unknown argument type " +:+ quoted typ)
            end
      end
  end.

(** [parseTag]; [seq] is [parseSeq]. *)
Definition parseTag (seq : ctx -> P Message) (c : ctx) : P Node :=
  open ← getPos;
  advance;;
  n ← parseName true;
  let name := default EmptyString n in
  if negb (match name with String h _ => isLetter h | EmptyString => false end)
  then errAt open "invalid tag name"
  else
    b ← peek;
    if negb (bool_decide (b = Some ">"%char)) then
      off ← getPos; errAt off ("tag <" +:+ name +:+ "> must not have attributes")
    else
      advance;;
      body ← seq (Ctx (plural c) false name);
      e ← peek;
      match e with
      | None => errAt open ("missing closing tag </" +:+ name +:+ ">")
      | Some _ =>
          closeOff ← getPos;
          advance;; advance;;
          cn ← parseName true;
          let closeName := default EmptyString cn in
          b ← peek;
          if negb (bool_decide (b = Some ">"%char)) then errAt closeOff "invalid closing tag"
          else
            advance;;
            if String.eqb closeName name then mret (Tag name body)
            else errAt closeOff ("closing tag </" +:+ closeName +:+ "> does not match <" +:+ name +:+ ">")
      end.

(** [flush] *)
Definition flush (out : list Node) (lit : string) : list Node :=
  match lit with EmptyString => out | _ => out ++ [Literal lit] end.

(** The byte after the current one, when there is one. *)
Definition peek2 (p : parser) : option Ascii.ascii :=
  match rest p with String _ (String d _) => Some d | _ => None end.
Definition isSlash (d : option Ascii.ascii) : bool := bool_decide (d = Some "/"%char).
Definition isLetterAt (d : option Ascii.ascii) : bool :=
  match d with Some d => isLetter d | None => false end.

(** The loop of [parseSeq], with the nodes and the literal read so far, and the
    option loop of [parseChoice], with the options read so far. *)
Fixpoint seqLoop (fuel : nat) (c : ctx) (out : list Node) (lit : string) : P Message := fun p =>
  match fuel with
  | O => Err Fuel
  | S f =>
      match rest p with
      | EmptyString => Ok (flush out lit, p)
      | String ch _ =>
          if Ascii.eqb ch "'"%char then (t ← apostrophe c; seqLoop f c out (lit +:+ t)) p
          else if Ascii.eqb ch "{"%char then
            (n ← parseArgument (parseChoice (choiceLoop f)) c;
             seqLoop f c (flush out lit ++ [n]) EmptyString) p
          else if Ascii.eqb ch "}"%char then
            if option_ c then Ok (flush out lit, p) else errAt (pos p) "unmatched '}'" p
          else if Ascii.eqb ch "#"%char then
            (advance;;
             if plural c then seqLoop f c (flush out lit ++ [Pound]) EmptyString
             else seqLoop f c out (lit +:+ "#")) p
          else if Ascii.eqb ch "<"%char && isSlash (peek2 p) then
            if negb (String.eqb (tag c) EmptyString) then Ok (flush out lit, p)
            else errAt (pos p) "closing tag has no matching opening tag" p
          else if Ascii.eqb ch "<"%char && isLetterAt (peek2 p) then
            (n ← parseTag (fun c' => seqLoop f c' [] EmptyString) c;
             seqLoop f c (flush out lit ++ [n]) EmptyString) p
          else (advance;; seqLoop f c out (lit +:+ String ch EmptyString)) p
      end
  end
with choiceLoop (fuel : nat) (c : ctx) (typ : string) (open : Z)
    (opts : list (string * list Node)) : P (list (string * list Node)) := fun p =>
  match fuel with
  | O => Err Fuel
  | S f =>
      (skipSpace;;
       b ← peek;
       match b with
       | None => errAt open "unterminated '{'"
       | Some b =>
           if Ascii.eqb b "}"%char then advance;; mret opts
           else
             keyOff ← getPos;
             key ← parseKey typ;
             if bool_decide (key ∈ opts.*1) then errAt keyOff ("duplicate key " +:+ quoted key)
             else
               skipSpace;;
               b ← peek;
               match b with
               | None => errAt open "unterminated '{'"
               | Some b =>
                   if negb (Ascii.eqb b "{"%char) then
                     off ← getPos; errAt off ("expected '{' after " +:+ quoted key)
                   else
                     advance;;
                     value ← seqLoop f (Ctx (plural c || String.eqb typ "plural") true EmptyString)
                               [] EmptyString;
                     e ← peek;
                     match e with
                     | None => errAt open "unterminated '{'"
                     | Some _ => advance;; choiceLoop f c typ open (opts ++ [(key, value)])
                     end
               end
       end) p
  end.

Definition parseSeq (fuel : nat) (c : ctx) : P Message := seqLoop fuel c [] EmptyString.

(** [icu.Parse]: one more unit of fuel than there are bytes. *)
Definition Parse (s : string) : result perr Message :=
  match parseSeq (S (String.length s)) (Ctx false false EmptyString) (Parser 0 s) with
  | Err e => Err e
  | Ok (msg, p) =>
      match rest p with
      | EmptyString => Ok msg
      | String _ _ => Err (SyntaxError (pos p) "unmatched '}'")
      end
  end.

(** ** Rendering *)

(** [plural.Form] of golang.org/x/text. *)
Inductive Form := FZero | FOne | FTwo | FFew | FMany | FOther.

(** The dynamic types [toNumber] and [formatArgument] tell apart.  A [float32]
    is kept as the [float64] it converts to; [F] is the type of floats, [T] of
    times and [O] of everything else. *)
Inductive any (F T O : Type) :=
| GoInt (z : Z)
| GoUint (z : Z)
| GoFloat32 (f : F)
| GoFloat64 (f : F)
| GoString (s : string)
| GoTime (t : T)
| GoOther (o : O).
Arguments GoInt {F T O} z.
Arguments GoUint {F T O} z.
Arguments GoFloat32 {F T O} f.
Arguments GoFloat64 {F T O} f.
Arguments GoString {F T O} s.
Arguments GoTime {F T O} t.
Arguments GoOther {F T O} o.

(** What the renderer calls in strconv, math, time, fmt and golang.org/x/text,
    for the language tags [L]. *)
Class XText (L F T O : Type) := {
  ParseFloat : string -> option F;
  FormatFloat : F -> Z -> string;
  IsNaN : F -> bool;
  IsInf : F -> bool;
  float_eqb : F -> F -> bool;
  float_of_int : Z -> F;
  Decimal : L -> any F T O -> string;
  MatchPlural : L -> Z -> Z -> Z -> Z -> Z -> Form;
  FormatTime : T -> string -> string;
  SprintAny : any F T O -> string
}.

(** [findOption] over options whose values are of any type. *)
Fixpoint findOption {V} (opts : list (string * V)) (key : string) : option V :=
  match opts with
  | [] => None
  | (k, v) :: opts' => if String.eqb k key then Some v else findOption opts' key
  end.

(** The last [n] bytes of [s]. *)
Definition tailInt (s : string) : Z :=
  let s := if (7 <? String.length s)%nat then drop_str (String.length s - 7) s else s in
  match ParseInt64 s with Some n => n | None => 0 end.

(** [strings.TrimRight(s, c)] for one byte. *)
Definition trim_right_byte (c : Ascii.ascii) (s : string) : string :=
  rev_str (trim_left_byte c (rev_str s)).

Definition operands (text : string) : Z * Z * Z * Z * Z :=
  let text := TrimPrefix text "-" in
  let '(intPart, frac) :=
    match cut_at (fun c => Ascii.eqb c "."%char) text with
    | Some (a, _, b) => (a, b)
    | None => (text, EmptyString)
    end in
  let fracTrim := trim_right_byte "0"%char frac in
  (tailInt intPart, strLen frac, strLen fracTrim, tailInt frac, tailInt fracTrim).

Section Format.
Context {L F T O : Type} `{X : XText L F T O}.
Abbreviation val := (any F T O).

(** [fmt.Sprint]: integers and strings print as themselves. *)
Definition Sprint (v : val) : string :=
  match v with
  | GoInt z | GoUint z => Itoa z
  | GoString s => s
  | _ => SprintAny v
  end.

Definition finite (f : F) : bool := negb (IsNaN f || IsInf f).

(** [toNumber]: the value for [number.Decimal] and its plain decimal text. *)
Definition toNumber (v : val) : option (val * string) :=
  match v with
  | GoInt z => Some (GoInt z, Itoa z)
  | GoUint z => Some (GoUint z, Itoa z)
  | GoFloat32 f => if finite f then Some (GoFloat64 f, FormatFloat f 32) else None
  | GoFloat64 f => if finite f then Some (GoFloat64 f, FormatFloat f 64) else None
  | GoString s =>
      match ParseFloat (TrimSpace s) with
      | Some f => if finite f then Some (GoFloat64 f, FormatFloat f 64) else None
      | None => None
      end
  | GoTime _ | GoOther _ => None
  end.

Definition formatArgument (v : val) (fmt : string) (lang : L) : string :=
  if String.eqb fmt "number" then
    match toNumber v with Some (n, _) => Decimal lang n | None => Sprint v end
  else if String.eqb fmt "date" then
    match v with GoTime t => FormatTime t "2006-01-02" | _ => Sprint v end
  else if String.eqb fmt "time" then
    match v with GoTime t => FormatTime t "15:04" | _ => Sprint v end
  else Sprint v.

Definition pluralKey (lang : L) (text : string) : string :=
  let '(i, v, w, f, t) := operands text in
  match MatchPlural lang i v w f t with
  | FZero => "zero" | FOne => "one" | FTwo => "two" | FFew => "few" | FMany => "many"
  | FOther => "other"
  end.

(** [exactOption]: the first [=N] whose number is [x]. *)
Fixpoint exactOption {V} (opts : list (string * V)) (x : F) : option V :=
  match opts with
  | [] => None
  | (k, v) :: opts' =>
      match k with
      | String e digits =>
          if Ascii.eqb e "="%char then
            match ParseInt64 digits with
            | Some n => if float_eqb x (float_of_int n) then Some v else exactOption opts' x
            | None => exactOption opts' x
            end
          else exactOption opts' x
      | EmptyString => exactOption opts' x
      end
  end.

(** [icu.state]; [pound] is [Some] exactly when [hasPound]. *)
Record state := State { lang : L; args : gmap string val; pound : option string }.

(** [writeOption] on an option whose value is already a renderer. *)
Definition writeOption (opt : option (state -> string)) (st : state) (pnd : option string) : string :=
  match opt with
  | None => EmptyString
  | Some render =>
      render (match pnd with Some p => State (lang st) (args st) (Some p) | None => st end)
  end.

Definition orElse {V} (a b : option V) : option V := match a with Some _ => a | None => b end.

Definition writePlural (opts : list (string * (state -> string))) (v : val) (st : state) : string :=
  match toNumber v with
  | None => writeOption (findOption opts "other") st (Some (Sprint v))
  | Some (n, text) =>
      (* the texts of toNumber are decimals in range: ParseFloat reads them *)
      let x := default (float_of_int 0) (ParseFloat text) in
      let opt := orElse (exactOption opts x)
                   (orElse (findOption opts (pluralKey (lang st) text)) (findOption opts "other")) in
      writeOption opt st (Some (Decimal (lang st) n))
  end.

(** [writeNodes]: the text one node writes, and the text of a list. *)
Fixpoint writeNode (n : Node) (st : state) {struct n} : string :=
  let writeNodes := fix writeNodes (l : list Node) (st : state) : string :=
    match l with [] => EmptyString | x :: l' => writeNode x st +:+ writeNodes l' st end in
  let renderers := map (fun kv : string * list Node => (kv.1, writeNodes kv.2)) in
  match n with
  | Literal t => t
  | Pound => default "#" (pound st)
  | Tag name body => "<" +:+ name +:+ ">" +:+ writeNodes body st +:+ "</" +:+ name +:+ ">"
  | Argument name fmt _ =>
      match args st !! name with
      | None => "{" +:+ name +:+ "}"
      | Some v => formatArgument v fmt (lang st)
      end
  | Plural name opts =>
      match args st !! name with
      | None => "{" +:+ name +:+ "}"
      | Some v => writePlural (renderers opts) v st
      end
  | Select name opts =>
      match args st !! name with
      | None => writeOption (findOption (renderers opts) "other") st None
      | Some v =>
          writeOption (orElse (findOption (renderers opts) (Sprint v))
                              (findOption (renderers opts) "other")) st None
      end
  end.
Definition writeNodes : list Node -> state -> string :=
  fix writeNodes (l : list Node) (st : state) : string :=
    match l with [] => EmptyString | x :: l' => writeNode x st +:+ writeNodes l' st end.

(** [icu.Format] *)
Definition Format (m : Message) (lg : L) (a : gmap string val) : string :=
  writeNodes m (State lg a None).
End Format.
Arguments state : clear implicits.

(** ** Placeholders *)

(** [collectArguments] and [collectTags], one node at a time. *)
Fixpoint argumentsNode (set : gset string) (n : Node) {struct n} : gset string :=
  match n with
  | Argument name _ _ => {[name]} ∪ set
  | Plural name opts | Select name opts =>
      fold_left (fun s kv => fold_left argumentsNode kv.2 s) opts ({[name]} ∪ set)
  | Tag _ body => fold_left argumentsNode body set
  | Literal _ | Pound => set
  end.
Definition collectArguments (nodes : list Node) (set : gset string) : gset string :=
  fold_left argumentsNode nodes set.
Definition Arguments_ (m : Message) : gset string := collectArguments m ∅.

Fixpoint tagsNode (set : gset string) (n : Node) {struct n} : gset string :=
  match n with
  | Tag name body => fold_left tagsNode body ({[name]} ∪ set)
  | Plural _ opts | Select _ opts => fold_left (fun s kv => fold_left tagsNode kv.2 s) opts set
  | Argument _ _ _ | Literal _ | Pound => set
  end.
Definition collectTags (nodes : list Node) (set : gset string) : gset string :=
  fold_left tagsNode nodes set.
Definition Tags (m : Message) : gset string := collectTags m ∅.

(** [icu.SortedKeys] *)
Definition SortedKeys (set : gset string) : list string := merge_sort str_le (elements set).
