(* ===== verification/Modlocale.v ===== *)
(** * modlocale: the translatable strings of a game module

    i18n/modlocale/ids.go: the escaping of message ids and of plain text, the
    id rule, and [Derive], which walks the decoded module.yaml and
    template.yaml.  A decoded document is a [doc]; a Go map is an association
    list in the order the loop over it sees. *)

From Stdlib Require Import Ascii.
From S2P Require Import Prelude GoText GoToken Icu.
Local Open Scope string_scope.
Local Open Scope Z_scope.

(** [strings.ReplaceAll(s, old, new)] for a non-empty [old]; [skip] bytes of the
    last match are still to be passed over. *)
Fixpoint replaceFrom (old new : string) (skip : nat) (s : string) : string :=
  match s with
  | EmptyString => EmptyString
  | String c s' =>
      match skip with
      | S k => replaceFrom old new k s'
      | O => if HasPrefix s old then new +:+ replaceFrom old new (String.length old - 1) s'
             else String c (replaceFrom old new 0 s')
      end
  end.
Definition ReplaceAll (s old new : string) : string := replaceFrom old new 0 s.

Definition Escape (seg : string) : string := ReplaceAll (ReplaceAll seg "~" "~0") "." "~1".
Definition Unescape (seg : string) : string := ReplaceAll (ReplaceAll seg "~1" ".") "~0" "~".

(** ** Ids *)

Definition idPrefixes : list string :=
  ["module"; "template"; "versions"; "config"; "actions"; "mods"; "metrics"].
Definition isIdByte (c : Ascii.ascii) : bool :=
  isLetter c || isDigit c || Ascii.eqb c "_"%char || Ascii.eqb c "~"%char || Ascii.eqb c "-"%char.

(** [idRE]: a prefix, then at least one segment after a dot. *)
Definition idRE (id : string) : bool :=
  match split_on "."%char id with
  | prefix :: (_ :: _) as segs =>
      bool_decide (prefix ∈ idPrefixes) &&
      forallb (fun s => negb (String.eqb s EmptyString) && str_all isIdByte s) (tail segs)
  | _ => false
  end.

(** The loop of [ValidID]: every "~" starts "~0" or "~1". *)
Fixpoint escapesOk (id : string) : bool :=
  match id with
  | EmptyString => true
  | String c s =>
      if Ascii.eqb c "~"%char then
        match s with
        | String d s' => (Ascii.eqb d "0"%char || Ascii.eqb d "1"%char) && escapesOk s'
        | EmptyString => false
        end
      else escapesOk s
  end.
Definition ValidID (id : string) : bool := idRE id && escapesOk id.

(** ** [ICUEscape] *)

(** The escaping is written over the special bytes [sp]; [ICUEscape] fixes them
    to the four of the code. *)
Section Escaping.
Variable sp : Ascii.ascii -> bool.

Definition isRunByte (c : Ascii.ascii) : bool := Ascii.eqb c "'"%char || sp c.

(** The apostrophes at the front of [s] lead into a special byte. *)
Fixpoint leadsIntoSpecial (s : string) : bool :=
  match s with
  | String c s' => if Ascii.eqb c "'"%char then leadsIntoSpecial s' else sp c
  | EmptyString => false
  end.

Fixpoint doubleQuotes (s : string) : string :=
  match s with
  | EmptyString => EmptyString
  | String c s' =>
      if Ascii.eqb c "'"%char then String c (String c (doubleQuotes s'))
      else String c (doubleQuotes s')
  end.

(** [quotedRun]: what it writes and what is left. *)
Definition quotedRun (s : string) : string * string :=
  let '(run, r) := span isRunByte s in ("'" +:+ doubleQuotes run +:+ "'", r).

(** The loop; every turn passes at least one byte. *)
Fixpoint escapeFrom (fuel : nat) (s : string) : string :=
  match fuel with
  | O => EmptyString
  | S f =>
      match s with
      | EmptyString => EmptyString
      | String c s' =>
          if negb (sp c) then
            if Ascii.eqb c "'"%char then
              if leadsIntoSpecial s
              then let '(q, r) := quotedRun s in q +:+ escapeFrom f r
              else "''" +:+ escapeFrom f s'
            else String c (escapeFrom f s')
          else let '(q, r) := quotedRun s in q +:+ escapeFrom f r
      end
  end.
End Escaping.

Definition isSpecial (c : Ascii.ascii) : bool :=
  Ascii.eqb c "{"%char || Ascii.eqb c "}"%char || Ascii.eqb c "<"%char || Ascii.eqb c "|"%char.

Definition ICUEscape (s : string) : string := escapeFrom isSpecial (String.length s) s.

(** ** Documents *)

#[local] Set Warnings "-register-all".
Inductive doc :=
| DString (s : string)
| DList (l : list doc)
| DMap (m : list (string * doc))
| DOther.

Definition field (m : list (string * doc)) (key : string) : option doc := findOption m key.

(** [m[key].(map[string]any)], a nil map when it is not one. *)
Definition subMap (m : list (string * doc)) (key : string) : list (string * doc) :=
  match field m key with Some (DMap s) => s | _ => [] end.

Definition str (m : list (string * doc)) (key : string) : string :=
  match field m key with Some (DString s) => s | _ => EmptyString end.

Definition list_ (m : list (string * doc)) (key : string) : list (list (string * doc)) :=
  match field m key with
  | Some (DList raw) => omap (fun d => match d with DMap mm => Some mm | _ => None end) raw
  | _ => []
  end.

Definition strList (m : list (string * doc)) (key : string) : list string :=
  match field m key with
  | Some (DList raw) => omap (fun d => match d with DString s => Some s | _ => None end) raw
  | _ => []
  end.

(** ** [Derive] *)

Record Ref := MkRef { ID : string; English : string; Description : string }.

(** [add] *)
Definition add (id english desc : string) : list Ref :=
  if String.eqb english EmptyString then [] else [MkRef id (ICUEscape english) desc].

(** [sort.SliceStable] by id: a reference goes in front of the equal ones that
    came after it. *)
Fixpoint insertRef (r : Ref) (l : list Ref) : list Ref :=
  match l with
  | [] => [r]
  | x :: l' => if String.ltb (ID x) (ID r) then x :: insertRef r l' else r :: l
  end.
Definition sortRefs (l : list Ref) : list Ref := foldr insertRef [] l.

(** The body of a loop over named items: nothing for an item with no name. *)
Definition named (key : string) (f : string -> list (string * doc) -> list Ref)
    (item : list (string * doc)) : list Ref :=
  if String.eqb (str item key) EmptyString then [] else f (str item key) item.

Section Derive.
(** [strconv.Quote], in the notes for translators. *)
Variable Quote : string -> string.

Definition versionRefs (id : string) (v : list (string * doc)) : list Ref :=
  add ("versions." +:+ Escape id +:+ ".displayName") (str v "displayName")
    ("Label of game version " +:+ id +:+ " in the version picker (template.yaml spec.versions)").

Definition configRefs (name : string) (f : list (string * doc)) : list Ref :=
  let base := "config." +:+ Escape name in
  add (base +:+ ".displayName") (str f "displayName")
    ("Label of configuration field " +:+ name +:+ " (template.yaml spec.configSchema)") ++
  add (base +:+ ".description") (str f "description")
    ("Help text of configuration field " +:+ name +:+ " (template.yaml spec.configSchema)") ++
  flat_map (fun opt => add (base +:+ ".options." +:+ Escape opt) opt
    ("Choice " +:+ Quote opt +:+ " of configuration field " +:+ name
     +:+ " (template.yaml spec.configSchema)")) (strList f "enum").

Definition paramRefs (base id pname : string) (p : list (string * doc)) : list Ref :=
  let pbase := base +:+ ".params." +:+ Escape pname in
  let whose := " of server action " +:+ id +:+ " (template.yaml spec.capabilities.actions)" in
  add (pbase +:+ ".displayName") (str p "displayName") ("Label of parameter " +:+ pname +:+ whose) ++
  add (pbase +:+ ".description") (str p "description") ("Help text of parameter " +:+ pname +:+ whose) ++
  flat_map (fun opt => add (pbase +:+ ".options." +:+ Escape opt) opt
    ("Choice " +:+ Quote opt +:+ " of parameter " +:+ pname +:+ whose)) (strList p "enum").

Definition actionRefs (id : string) (a : list (string * doc)) : list Ref :=
  let base := "actions." +:+ Escape id in
  let whose := " of server action " +:+ id +:+ " (template.yaml spec.capabilities.actions)" in
  add (base +:+ ".displayName") (str a "displayName") ("Label" +:+ whose) ++
  add (base +:+ ".description") (str a "description") ("Help text" +:+ whose) ++
  add (base +:+ ".group") (str a "group") ("Group heading" +:+ whose) ++
  flat_map (named "name" (paramRefs base id)) (list_ a "params").

(** One entry of the loaders map; an entry that is no map has no name. *)
Definition loaderRefs (kv : string * doc) : list Ref :=
  let l := match kv.2 with DMap m => m | _ => [] end in
  add ("mods." +:+ Escape kv.1 +:+ ".displayName") (str l "displayName")
    ("Label of the mod volume " +:+ kv.1
     +:+ " in the Mods tab (template.yaml spec.capabilities.mods.loaders)").

Definition metricRefs (id : string) (m : list (string * doc)) : list Ref :=
  add ("metrics." +:+ Escape id +:+ ".displayName") (str m "displayName")
    ("Label of status metric " +:+ id +:+ " (template.yaml spec.capabilities.status.metrics)").

Definition Derive (module template : list (string * doc)) : list Ref :=
  let spec := match field template "spec" with Some (DMap s) => s | _ => template end in
  let caps := subMap spec "capabilities" in
  sortRefs
    (add "module.displayName" (str module "displayName")
       "Display name of the module (module.yaml displayName)" ++
     add "module.summary" (str module "summary")
       "One-line summary of the module (module.yaml summary)" ++
     add "template.displayName" (str spec "displayName")
       "Display name of the game template (template.yaml spec.displayName)" ++
     add "template.description" (str spec "description")
       "Description of the game template (template.yaml spec.description)" ++
     flat_map (named "id" versionRefs) (list_ spec "versions") ++
     flat_map (named "name" configRefs) (list_ spec "configSchema") ++
     flat_map (named "id" actionRefs) (list_ caps "actions") ++
     flat_map loaderRefs (subMap (subMap caps "mods") "loaders") ++
     flat_map (named "id" metricRefs) (list_ (subMap caps "status") "metrics")).
End Derive.
