(* ===== verification/IcuFacts.v ===== *)
(** * icu: what the parser and the renderer promise

    - [parse_total]: the parser returns on every text, and an error points into
      it;
    - [parse_image]: what it returns is exactly the well-formed messages, each
      of which [printMessage] writes as a text that parses back to it;
    - [icu_escape_roundtrip]: any plain text survives [ICUEscape] and [Parse];
    - [format_depends_on_arguments], [choice_never_empty], [operands_mod]: the
      renderer. *)

From Stdlib Require Import Ascii.
From S2P Require Import Prelude GoText GoToken Icu Modlocale.
Local Open Scope string_scope.
Local Open Scope Z_scope.

(** ** Well-formed messages *)

(** [parseName] reads all of [s]. *)
Definition validName (dashes : bool) (s : string) : bool :=
  match s with
  | String c s' => (isLetter c || Ascii.eqb c "_"%char) && str_all (isNameByte dashes) s'
  | EmptyString => false
  end.

Definition validPluralKey (k : string) : bool :=
  match k with
  | String c s => (Ascii.eqb c "="%char && str_all isDigit s && negb (String.eqb s EmptyString))
                  || bool_decide (k ∈ ["zero"; "one"; "two"; "few"; "many"; "other"])
  | EmptyString => false
  end.

Definition validStyle (s : string) : bool :=
  String.eqb (TrimSpace s) s && free_of "}"%char s.

Definition validTag (s : string) : bool :=
  validName true s && match s with String c _ => isLetter c | EmptyString => false end.

(** No two literals touch. *)
Fixpoint noAdjacent (m : list Node) : bool :=
  match m with
  | Literal _ :: ((Literal _ :: _)) => false
  | _ :: m' => noAdjacent m'
  | [] => true
  end.

Definition validKeys (sel : bool) (o : list (string * list Node)) : bool :=
  forallb (fun kv => if sel then validName true kv.1 else validPluralKey kv.1) o
  && bool_decide (NoDup o.*1) && bool_decide ("other" ∈ o.*1).

(** A node as [Parse] builds it, [pl] telling whether it stands under a
    plural. *)
Fixpoint wfNode (pl : bool) (n : Node) {struct n} : bool :=
  let wfNodes (pl : bool) (l : list Node) := noAdjacent l && forallb (wfNode pl) l in
  match n with
  | Literal t => negb (String.eqb t EmptyString)
  | Argument a f s =>
      validName false a &&
      (if String.eqb f EmptyString then String.eqb s EmptyString
       else bool_decide (f ∈ ["number"; "date"; "time"]) && validStyle s)
  | Plural a o => validName false a && validKeys false o && forallb (fun kv => wfNodes true kv.2) o
  | Select a o => validName false a && validKeys true o && forallb (fun kv => wfNodes pl kv.2) o
  | Pound => pl
  | Tag a c => validTag a && wfNodes pl c
  end.
Definition wfNodes (pl : bool) (l : list Node) : bool := noAdjacent l && forallb (wfNode pl) l.
Definition wfMessage (m : Message) : bool := wfNodes false m.

(** ** Weakest preconditions of the parser

    [wp N Q m p]: from [p] the parser [m] returns a value that satisfies [Q], or
    a syntax error at an offset of a text of [N] bytes; it does not run out of
    fuel. *)

Definition wp {A} (N : Z) (Q : A -> parser -> Prop) (m : P A) (p : parser) : Prop :=
  match m p with
  | Ok (a, p') => Q a p'
  | Err (SyntaxError o _) => 0 <= o <= N
  | Err Fuel => False
  end.

(** The cursor is inside the text. *)
Definition at_ (N : Z) (p : parser) : Prop := 0 <= pos p /\ pos p + strLen (rest p) = N.

Definition left (p : parser) : nat := String.length (rest p).

Lemma wp_bind {A B} N (m : P A) (f : A -> P B) Q p :
  wp N (fun a p' => wp N Q (f a) p') m p -> wp N Q (m ≫= f) p.
Proof. unfold wp, mbind, P_bind. destruct (m p) as [[a p']|[|o e]]; done. Qed.

Lemma P_bind_eq {A B} (m : P A) (f : A -> P B) p :
  (m ≫= f) p = match m p with Ok (a, p') => f a p' | Err e => Err e end.
Proof. done. Qed.

Lemma wp_ret {A} N (a : A) Q p : Q a p -> wp N Q (mret a) p.
Proof. done. Qed.

Lemma wp_mono {A} N (m : P A) (Q Q' : A -> parser -> Prop) p :
  wp N Q m p -> (forall a p', Q a p' -> Q' a p') -> wp N Q' m p.
Proof. unfold wp. destruct (m p) as [[a p']|[|o e]]; auto. Qed.

Lemma strLen_nonneg s : 0 <= strLen s.
Proof. unfold strLen. lia. Qed.
Lemma strLen_cons c s : strLen (String c s) = 1 + strLen s.
Proof. unfold strLen. simpl. lia. Qed.
Lemma strLen_app s t : strLen (s +:+ t) = strLen s + strLen t.
Proof. unfold strLen. rewrite length_app_str. lia. Qed.
Lemma wp_errAt {A} N o e (Q : A -> parser -> Prop) p : 0 <= o <= N -> wp N Q (errAt o e) p.
Proof. done. Qed.

Lemma wp_getPos N Q p : Q (pos p) p -> wp N Q getPos p.
Proof. done. Qed.

Lemma wp_peek N (Q : option Ascii.ascii -> parser -> Prop) p :
  (rest p = EmptyString -> Q None p) ->
  (forall c r, rest p = String c r -> Q (Some c) p) -> wp N Q peek p.
Proof. unfold wp, peek. intros H0 H1. destruct (rest p) as [|c r]; eauto. Qed.

Lemma wp_advance N (Q : unit -> parser -> Prop) p c r :
  rest p = String c r -> Q tt (Parser (pos p + 1) r) -> wp N Q advance p.
Proof. unfold wp, advance. intros ->. done. Qed.

Lemma span_spec f s a b : span f s = (a, b) ->
  s = a +:+ b /\ str_all f a = true /\ (forall c r, b = String c r -> f c = false).
Proof.
  revert a b. induction s as [|c s IH]; intros a b; simpl.
  - intros [= <- <-]. done.
  - destruct (f c) eqn:Ec.
    + destruct (span f s) as [a' b'] eqn:E. intros [= <- <-].
      destruct (IH _ _ eq_refl) as (-> & Ha & Hb). simpl. rewrite Ec. done.
    + intros [= <- <-]. simpl. split_and!; [done|done|]. by intros c' r [= -> ->].
Qed.

Lemma wp_spanP N f (Q : string -> parser -> Prop) p :
  (forall w r, rest p = w +:+ r -> str_all f w = true ->
     (forall c r', r = String c r' -> f c = false) -> Q w (Parser (pos p + strLen w) r)) ->
  wp N Q (spanP f) p.
Proof.
  unfold wp, spanP. intros H. destruct (span f (rest p)) as [w r] eqn:E.
  destruct (span_spec _ _ _ _ E) as (?&?&?). by apply H.
Qed.

(** ** The scanners *)

Lemma at_app N p w r : at_ N p -> rest p = w +:+ r -> at_ N (Parser (pos p + strLen w) r).
Proof.
  unfold at_. intros [H0 H1] E. rewrite E, strLen_app in H1. simpl.
  pose proof (strLen_nonneg w). lia.
Qed.
Lemma at_cons N p c r : at_ N p -> rest p = String c r -> at_ N (Parser (pos p + 1) r).
Proof. intros H E. by apply (at_app N p (String c EmptyString) r). Qed.
Lemma at_pos N p : at_ N p -> 0 <= pos p <= N.
Proof. unfold at_. pose proof (strLen_nonneg (rest p)). lia. Qed.
Lemma left_cons p c r : rest p = String c r -> left p = S (String.length r).
Proof. unfold left. by intros ->. Qed.
Lemma left_app p w r : rest p = w +:+ r -> left p = (String.length w + String.length r)%nat.
Proof. unfold left. intros ->. apply length_app_str. Qed.

#[local] Hint Resolve at_app at_cons at_pos wp_errAt : gp.

(** Run [advance] at a known byte. *)
Lemma wp_step N (Q : unit -> parser -> Prop) p c r :
  at_ N p -> rest p = String c r ->
  (at_ N (Parser (pos p + 1) r) -> left p = S (left (Parser (pos p + 1) r)) ->
     Q tt (Parser (pos p + 1) r)) ->
  wp N Q advance p.
Proof.
  intros Hat E HQ. eapply wp_advance; [done|]. apply HQ; [by eapply at_cons|by apply left_cons in E].
Qed.

Lemma wp_skipSpace N (Q : unit -> parser -> Prop) p :
  at_ N p -> (forall p', at_ N p' -> (left p' <= left p)%nat -> Q tt p') -> wp N Q skipSpace p.
Proof.
  intros Hat HQ. apply wp_bind, wp_spanP. intros w r E _ _. apply wp_ret.
  apply HQ; [by eapply at_app|]. rewrite (left_app _ _ _ E). unfold left. simpl. lia.
Qed.

Lemma wp_parseWord N (Q : string -> parser -> Prop) p :
  at_ N p -> (forall w p', at_ N p' -> (left p' <= left p)%nat -> Q w p') -> wp N Q parseWord p.
Proof.
  intros Hat HQ. apply wp_spanP. intros w r E _ _.
  apply HQ; [by eapply at_app|]. rewrite (left_app _ _ _ E). unfold left. simpl. lia.
Qed.

Lemma wp_parseName N d (Q : option string -> parser -> Prop) p :
  at_ N p -> Q None p ->
  (forall w p', at_ N p' -> (left p' < left p)%nat -> validName d w = true -> Q (Some w) p') ->
  wp N Q (parseName d) p.
Proof.
  intros Hat H0 H1. apply wp_bind, wp_peek; [done|]. intros c r E.
  destruct (isLetter c || Ascii.eqb c "_"%char) eqn:Ec; [|done].
  apply wp_bind, wp_spanP. intros w r' E' Hw Hr'. apply wp_ret. apply H1; [by eapply at_app| |].
  - rewrite (left_app _ _ _ E'). unfold left. simpl. destruct w; simpl; [|lia].
    rewrite E' in E. specialize (Hr' _ _ E). unfold isNameByte in Hr'.
    by destruct (isLetter c), (Ascii.eqb c "_"%char); destruct (isDigit c).
  - destruct w as [|c' w].
    + rewrite E' in E. specialize (Hr' _ _ E). unfold isNameByte in Hr'.
      by destruct (isLetter c), (Ascii.eqb c "_"%char); destruct (isDigit c).
    + rewrite E' in E. injection E as -> _. simpl in *. rewrite Ec.
      by apply andb_true_iff in Hw as [_ ->].
Qed.

Lemma str_all_run P c w : str_all P (String c w) = true -> str_all P w = true.
Proof. simpl. by rewrite andb_true_iff; intros [_ ?]. Qed.

Lemma quotedText_shorter s : (String.length (quotedText s).2 <= String.length s)%nat.
Proof.
  remember (String.length s) as n. revert s Heqn.
  induction (lt_wf n) as [n _ IH]. intros s ->. destruct s as [|b s]; [done|]. simpl.
  assert (Hrec : forall t, (String.length t <= String.length s)%nat ->
    (String.length (quotedText t).2 <= String.length t)%nat) by (intros; eapply IH; [|done]; simpl; lia).
  destruct (Ascii.eqb b "'"%char).
  - destruct s as [|b' s]; [simpl; lia|]. destruct (Ascii.eqb b' "'"%char); [|simpl; lia].
    specialize (Hrec s ltac:(simpl; lia)). destruct (quotedText s); simpl in *. lia.
  - specialize (Hrec s ltac:(lia)). destruct (quotedText s); simpl in *. lia.
Qed.

Lemma quotedText_strict c s :
  Ascii.eqb c "'"%char = false ->
  (String.length (quotedText (String c s)).2 < String.length (String c s))%nat.
Proof.
  intros Hc. simpl. rewrite Hc. pose proof (quotedText_shorter s).
  destruct (quotedText s); simpl in *. lia.
Qed.

Lemma wp_apostrophe N c (Q : string -> parser -> Prop) p b r :
  at_ N p -> rest p = String b r ->
  (forall t p', at_ N p' -> (left p' < left p)%nat -> Q t p') -> wp N Q (apostrophe c) p.
Proof.
  unfold wp, apostrophe, at_, left. intros [H0 H1] E HQ. rewrite E in *.
  destruct r as [|next r].
  { apply HQ; simpl in *; [|lia]. unfold strLen in *. simpl in *. lia. }
  rewrite !strLen_cons in H1. pose proof (strLen_nonneg r).
  destruct (Ascii.eqb next "'"%char) eqn:En.
  { apply HQ; simpl; lia. }
  destruct (quotes c next).
  - pose proof (quotedText_strict next r En) as Hs.
    destruct (quotedText (String next r)) as [t r'] eqn:Eq. apply HQ; simpl in *; [|lia].
    unfold strLen in *. simpl in *. lia.
  - apply HQ; simpl; [|lia]. rewrite strLen_cons. lia.
Qed.

Definition keyOk (typ k : string) : bool :=
  if String.eqb typ "select" then validName true k else validPluralKey k.

Lemma wp_parseKey N typ (Q : string -> parser -> Prop) p :
  at_ N p ->
  (forall k p', at_ N p' -> (left p' <= left p)%nat -> keyOk typ k = true -> Q k p') ->
  wp N Q (parseKey typ) p.
Proof.
  intros Hat HQ. unfold parseKey, keyOk in *. destruct (String.eqb typ "select").
  { apply wp_bind, wp_parseName; [done| |].
    - apply wp_bind, wp_getPos, wp_errAt. by apply at_pos.
    - intros w p' Hp' Hl Hv. apply wp_ret. apply HQ; [done|lia|done]. }
  apply wp_bind. eapply wp_mono with (Q := fun c p' => p' = p /\
    (c = Some "="%char -> exists r, rest p = String "="%char r)).
  { apply wp_peek; [by split|]. intros c r E. split; [done|]. intros [= ->]. eauto. }
  intros c p' [-> Hc]. case_bool_decide as Ec.
  - destruct (Hc Ec) as [r E]. apply wp_bind, wp_getPos, wp_bind.
    eapply wp_step; [done..|]. intros Hat1 Hl1. apply wp_bind, wp_spanP. intros w r' E' Hw _.
    destruct (String.eqb_spec w EmptyString) as [|Hne]; [by apply wp_errAt, at_pos|].
    apply wp_ret. apply HQ; [by eapply at_app| |].
    + pose proof (left_app _ _ _ E'). unfold left in *. simpl in *. lia.
    + simpl. rewrite Hw. by destruct (String.eqb_spec w EmptyString).
  - apply wp_bind, wp_getPos, wp_bind, wp_parseWord; [done|]. intros w p' Hp' Hl.
    destruct (String.eqb w "offset"); [by apply wp_errAt, at_pos|].
    case_bool_decide as Hw.
    + apply wp_ret. apply HQ; [done..|]. unfold validPluralKey.
      destruct w; [set_solver|]. rewrite bool_decide_true by done. by rewrite orb_true_r.
    + destruct (String.eqb w EmptyString); by apply wp_errAt, at_pos.
Qed.

(** ** The parser's postconditions *)

(** The last node read is not a literal. *)
Definition endsPlain (out : list Node) : Prop := forall n, last out = Some n -> is_literal n = false.

Definition outOk (pl : bool) (out : list Node) : Prop := wfNodes pl out = true /\ endsPlain out.

Lemma noAdjacent_snoc out n :
  noAdjacent out = true -> (is_literal n = false \/ endsPlain out) -> noAdjacent (out ++ [n]) = true.
Proof.
  intros H Hn. induction out as [|x out IH]; simpl; [by destruct n|].
  destruct out as [|y out].
  - destruct Hn as [Hn|Hn]; [by destruct x, n|]. specialize (Hn x eq_refl). by destruct x, n.
  - assert (Hn' : is_literal n = false \/ endsPlain (y :: out)) by (destruct Hn; auto).
    simpl in *. destruct x, y; auto; done.
Qed.

Lemma wfNodes_snoc pl out n :
  wfNodes pl out = true -> wfNode pl n = true -> (is_literal n = false \/ endsPlain out) ->
  wfNodes pl (out ++ [n]) = true.
Proof.
  unfold wfNodes. rewrite !andb_true_iff, forallb_app. intros [H1 H2] Hn Hl.
  split; [by apply noAdjacent_snoc|]. cbn [forallb]. by rewrite H2, Hn.
Qed.

Lemma flush_wf pl out lit : outOk pl out -> wfNodes pl (flush out lit) = true.
Proof.
  intros [H1 H2]. destruct lit; [done|]. apply wfNodes_snoc; [done|done|by right].
Qed.

Lemma outOk_node pl out lit n :
  outOk pl out -> wfNode pl n = true -> is_literal n = false -> outOk pl (flush out lit ++ [n]).
Proof.
  intros Ho Hn Hl. split; [apply wfNodes_snoc; auto using flush_wf|].
  intros n' Hn'. rewrite last_snoc in Hn'. by injection Hn' as <-.
Qed.

Lemma outOk_nil pl : outOk pl [].
Proof. by split. Qed.

(** Where a sequence stops: at the end of the text, or at the token that closes
    its context. *)
Definition closes (c : ctx) (p : parser) : Prop :=
  rest p = EmptyString \/
  (option_ c = true /\ exists r, rest p = String "}"%char r) \/
  (tag c <> EmptyString /\ exists r, rest p = String "<"%char (String "/"%char r)).

Definition nodePost (N : Z) (c : ctx) (p : parser) (n : Node) (p' : parser) : Prop :=
  at_ N p' /\ (left p' < left p)%nat /\ wfNode (plural c) n = true /\ is_literal n = false.

Definition seqPost (N : Z) (c : ctx) (p : parser) (m : Message) (p' : parser) : Prop :=
  at_ N p' /\ (left p' <= left p)%nat /\ wfNodes (plural c) m = true /\ closes c p'.

Definition valueOk (pl sel : bool) (kv : string * list Node) : bool := wfNodes (pl || negb sel) kv.2.

Definition optsOk (pl sel : bool) (o : list (string * list Node)) : Prop :=
  forallb (fun kv => if sel then validName true kv.1 else validPluralKey kv.1) o = true /\
  NoDup o.*1 /\ forallb (valueOk pl sel) o = true.

Lemma optsOk_snoc pl sel o k v :
  optsOk pl sel o -> (if sel then validName true k else validPluralKey k) = true ->
  (k ∉ o.*1) -> wfNodes (pl || negb sel) v = true -> optsOk pl sel (o ++ [(k, v)]).
Proof.
  intros (H1 & H2 & H3) Hk Hn Hv. unfold optsOk. rewrite !forallb_app, H1, H3, fmap_app. cbn.
  unfold valueOk. cbn. rewrite Hk, Hv. split_and!; [done| |done].
  apply NoDup_app. split_and!; [done| |apply NoDup_singleton]. set_solver.
Qed.

Lemma choice_wf (pl sel : bool) name o :
  validName false name = true -> optsOk pl sel o -> "other" ∈ o.*1 ->
  wfNode pl (if sel then Select name o else Plural name o) = true.
Proof.
  intros Hn (H1 & H2 & H3) Ho.
  assert (HK : validKeys sel o = true).
  { unfold validKeys. rewrite H1, !bool_decide_true by done. done. }
  destruct sel; cbn [wfNode]; rewrite Hn, HK; cbn [andb].
  - unfold valueOk in H3. rewrite orb_false_r in H3. exact H3.
  - unfold valueOk in H3. rewrite orb_true_r in H3. exact H3.
Qed.

Section Pieces.
Context (N : Z) (c : ctx).

Definition choicePost (p : parser) (n : Node) (p' : parser) : Prop :=
  at_ N p' /\ (left p' <= left p)%nat /\ wfNode (plural c) n = true /\ is_literal n = false.

Lemma wp_parseChoice loop name typ open p :
  at_ N p -> 0 <= open <= N -> validName false name = true -> typ ∈ ["plural"; "select"] ->
  (forall p', at_ N p' -> (left p' < left p)%nat ->
     wp N (fun o p'' => at_ N p'' /\ (left p'' <= left p')%nat /\
             optsOk (plural c) (String.eqb typ "select") o) (loop c typ open []) p') ->
  wp N (choicePost p) (parseChoice loop c name typ open) p.
Proof using Type.
  intros Hat Ho Hn Ht Hloop. unfold parseChoice. apply wp_bind, wp_peek.
  { intros _. apply wp_bind, wp_getPos, wp_errAt. by apply at_pos. }
  intros b r E. case_bool_decide; simpl; [|apply wp_bind, wp_getPos, wp_errAt; by apply at_pos].
  apply wp_bind. eapply wp_step; [done..|]. intros Hat1 Hl1. apply wp_bind.
  eapply wp_mono; [apply Hloop; [done|lia]|]. intros o p' (Hp' & Hl & Hok).
  case_bool_decide as Hoth; [|by apply wp_errAt]. apply wp_ret.
  split_and!; [done|lia|by apply choice_wf|by destruct (String.eqb typ "select")].
Qed.

Lemma wp_parseArgument choice p b r :
  at_ N p -> rest p = String b r ->
  (forall name typ open p', at_ N p' -> 0 <= open <= N -> validName false name = true ->
     typ ∈ ["plural"; "select"] -> (left p' < left p)%nat ->
     wp N (choicePost p') (choice c name typ open) p') ->
  wp N (nodePost N c p) (parseArgument choice c) p.
Proof using Type.
  intros Hat E Hch. unfold parseArgument.
  pose proof (at_pos _ _ Hat) as Hopen.
  apply wp_bind, wp_getPos, wp_bind. eapply wp_step; [done..|]. intros Hat1 Hl1.
  apply wp_bind, wp_skipSpace; [done|]. intros p2 Hat2 Hl2.
  apply wp_bind, wp_parseName; [done|apply wp_bind, wp_getPos, wp_errAt; by apply at_pos|].
  intros name p3 Hat3 Hl3 Hname. apply wp_bind, wp_skipSpace; [done|]. intros p4 Hat4 Hl4.
  apply wp_bind, wp_peek; [intros _; by apply wp_errAt|]. intros b4 r4 E4.
  destruct (Ascii.eqb b4 "}"%char).
  { apply wp_bind. eapply wp_step; [done..|]. intros Hat5 Hl5. apply wp_ret.
    split_and!; [done|lia| |done]. cbn. by rewrite Hname. }
  destruct (negb _); [apply wp_bind, wp_getPos, wp_errAt; by apply at_pos|].
  apply wp_bind. eapply wp_step; [done..|]. intros Hat5 Hl5.
  apply wp_bind, wp_skipSpace; [done|]. intros p6 Hat6 Hl6.
  apply wp_bind, wp_getPos, wp_bind, wp_parseWord; [done|]. intros typ p7 Hat7 Hl7.
  apply wp_bind, wp_skipSpace; [done|]. intros p8 Hat8 Hl8.
  apply wp_bind, wp_peek; [intros _; by apply wp_errAt|]. intros b8 r8 E8.
  case_bool_decide as Htyp.
  - assert (Hwf : forall s, validStyle s = true -> wfNode (plural c) (Argument name typ s) = true).
    { intros s Hs. cbn. rewrite Hname, Hs, bool_decide_true by done.
      destruct (String.eqb_spec typ EmptyString); [set_solver|done]. }
    destruct (Ascii.eqb b8 "}"%char).
    { apply wp_bind. eapply wp_step; [done..|]. intros Hat9 Hl9. apply wp_ret.
      split_and!; [done|lia|by apply Hwf|done]. }
    destruct (negb _); [apply wp_bind, wp_getPos, wp_errAt; by apply at_pos|].
    apply wp_bind. eapply wp_step; [done..|]. intros Hat9 Hl9.
    apply wp_bind, wp_spanP. intros style r9 E9 Hst _.
    pose proof (at_app _ _ _ _ Hat9 E9) as Hat10.
    pose proof (left_app _ _ _ E9) as Hl10.
    apply wp_bind, wp_peek; [intros _; by apply wp_errAt|]. intros b10 r10 E10.
    apply wp_bind. eapply wp_step; [done..|]. intros Hat11 Hl11. apply wp_ret.
    split_and!; [done| |apply Hwf|done].
    + unfold left in *. simpl in *. lia.
    + unfold validStyle. rewrite TrimSpace_idem, String.eqb_refl. by apply TrimSpace_all.
  - case_bool_decide as Hc; [|destruct (String.eqb typ EmptyString); apply wp_errAt; by apply at_pos].
    eapply wp_mono; [apply Hch; [done..|lia]|].
    intros n p' (?&?&?&?). split_and!; [done|lia|done|done].
Qed.

Lemma wp_parseTag seq p b r :
  at_ N p -> rest p = String b r ->
  (forall name p', at_ N p' -> (left p' < left p)%nat ->
     wp N (seqPost N (Ctx (plural c) false name) p') (seq (Ctx (plural c) false name)) p') ->
  wp N (nodePost N c p) (parseTag seq c) p.
Proof using Type.
  intros Hat E Hseq. unfold parseTag. pose proof (at_pos _ _ Hat) as Hopen.
  apply wp_bind, wp_getPos, wp_bind. eapply wp_step; [done..|]. intros Hat1 Hl1.
  apply wp_bind, wp_parseName; [done|by apply wp_errAt|].
  intros name p2 Hat2 Hl2 Hname. cbn [default from_option id].
  destruct (negb _) eqn:Hlet; [by apply wp_errAt|]. apply negb_false_iff in Hlet.
  apply wp_bind, wp_peek; [intros _; apply wp_bind, wp_getPos, wp_errAt; by apply at_pos|].
  intros b2 r2 E2. destruct (negb _); [apply wp_bind, wp_getPos, wp_errAt; by apply at_pos|].
  apply wp_bind. eapply wp_step; [done..|]. intros Hat3 Hl3.
  apply wp_bind. eapply wp_mono; [apply Hseq; [done|lia]|].
  intros body p4 (Hat4 & Hl4 & Hwf & Hcl).
  apply wp_bind, wp_peek; [intros _; by apply wp_errAt|]. intros b4 r4 E4.
  destruct Hcl as [Hcl|[[Hcl _]|[_ [r5 Hcl]]]]; [congruence|done|].
  pose proof (at_pos _ _ Hat4) as Hclose.
  apply wp_bind, wp_getPos, wp_bind. eapply wp_step; [done..|]. intros Hat5 Hl5.
  apply wp_bind. eapply wp_step; [exact Hat5|rewrite Hcl in E4; by injection E4 as _ <-|]. intros Hat6 Hl6.
  assert (Hpost : forall cn p7, at_ N p7 -> (left p7 <= left p)%nat ->
    wp N (nodePost N c p)
      (b ← peek;
       if negb (bool_decide (b = Some ">"%char)) then errAt (pos p4) "invalid closing tag"
       else advance;;
         if String.eqb cn name then mret (Tag name body)
         else errAt (pos p4) ("closing tag </" +:+ cn +:+ "> does not match <" +:+ name +:+ ">")) p7).
  { intros cn p7 Hat7 Hl7. apply wp_bind, wp_peek; [intros _; by apply wp_errAt|].
    intros b7 r7 E7. destruct (negb _); [by apply wp_errAt|].
    apply wp_bind. eapply wp_step; [done..|]. intros Hat8 Hl8.
    destruct (String.eqb cn name); [|by apply wp_errAt]. apply wp_ret.
    split_and!; [done|lia| |done]. cbn [wfNode]. fold (wfNodes (plural c) body).
    unfold validTag. cbn [plural] in Hwf. by rewrite Hwf, Hname, Hlet. }
  apply wp_bind, wp_parseName; [done| |].
  - apply Hpost; [done|lia].
  - intros cn p7 Hat7 Hl7 _. apply Hpost; [done|lia].
Qed.
End Pieces.

(** ** The two loops *)

Definition seqSpec (N : Z) (f : nat) : Prop := forall c out lit p,
  at_ N p -> (left p < f)%nat -> outOk (plural c) out -> wp N (seqPost N c p) (seqLoop f c out lit) p.

Definition choiceSpec (N : Z) (f : nat) : Prop := forall c typ open opts p,
  at_ N p -> 0 <= open <= N -> (left p < f)%nat -> typ ∈ ["plural"; "select"] ->
  optsOk (plural c) (String.eqb typ "select") opts ->
  wp N (fun o p' => at_ N p' /\ (left p' <= left p)%nat /\
          optsOk (plural c) (String.eqb typ "select") o) (choiceLoop f c typ open opts) p.

Lemma seqPost_weaken N c p p' m p'' :
  (left p' <= left p)%nat -> seqPost N c p' m p'' -> seqPost N c p m p''.
Proof. unfold seqPost. intros ? (?&?&?&?). split_and!; [done|lia|done|done]. Qed.

Lemma typ_plural_select typ :
  typ ∈ ["plural"; "select"] -> String.eqb typ "plural" = negb (String.eqb typ "select").
Proof. rewrite !elem_of_cons, elem_of_nil. by intros [->|[->|[]]]. Qed.

Lemma choiceLoop_step N f : seqSpec N f -> choiceSpec N f -> choiceSpec N (S f).
Proof.
  intros IHs IHc c typ open opts p Hat Hopen Hf Ht Hok. cbn [choiceLoop].
  assert (Heta : forall m : P (list (string * list Node)), wp N (fun o p' => at_ N p' /\ (left p' <= left p)%nat /\
          optsOk (plural c) (String.eqb typ "select") o) m p -> wp N (fun o p' => at_ N p' /\ (left p' <= left p)%nat /\
          optsOk (plural c) (String.eqb typ "select") o) (fun p => m p) p) by done.
  apply Heta; clear Heta.
  apply wp_bind, wp_skipSpace; [done|]. intros p1 Hat1 Hl1.
  apply wp_bind, wp_peek; [intros _; by apply wp_errAt|]. intros b r E.
  destruct (Ascii.eqb b "}"%char).
  { apply wp_bind. eapply wp_step; [done..|]. intros Hat2 Hl2. apply wp_ret.
    split_and!; [done|lia|done]. }
  apply wp_bind, wp_getPos, wp_bind, wp_parseKey; [done|]. intros key p2 Hat2 Hl2 Hkey.
  case_bool_decide as Hdup; [apply wp_errAt; by apply at_pos|].
  apply wp_bind, wp_skipSpace; [done|]. intros p3 Hat3 Hl3.
  apply wp_bind, wp_peek; [intros _; by apply wp_errAt|]. intros b3 r3 E3.
  destruct (negb _); [apply wp_bind, wp_getPos, wp_errAt; by apply at_pos|].
  apply wp_bind. eapply wp_step; [done..|]. intros Hat4 Hl4.
  apply wp_bind. eapply wp_mono; [apply IHs; [done|lia|apply outOk_nil]|].
  intros value p5 (Hat5 & Hl5 & Hwf & _). cbn [plural] in Hwf.
  apply wp_bind, wp_peek; [intros _; by apply wp_errAt|]. intros b5 r5 E5.
  apply wp_bind. eapply wp_step; [done..|]. intros Hat6 Hl6.
  eapply wp_mono; [apply IHc; [done|done|lia|done|]|].
  - apply optsOk_snoc; [done|exact Hkey|done|]. by rewrite <- typ_plural_select.
  - intros o p' (?&?&?). split_and!; [done|lia|done].
Qed.

Lemma seqLoop_step N f : seqSpec N f -> choiceSpec N f -> seqSpec N (S f).
Proof.
  intros IHs IHc c out lit p Hat Hf Hok.
  assert (Hnext : forall out' lit' p', at_ N p' -> (left p' < left p)%nat -> outOk (plural c) out' ->
    wp N (seqPost N c p) (seqLoop f c out' lit') p').
  { intros. eapply wp_mono; [apply IHs; [done|lia|done]|]. intros m p''. apply seqPost_weaken. lia. }
  assert (Hstop : closes c p -> seqPost N c p (flush out lit) p).
  { intros. split_and!; [done|lia|by apply flush_wf|done]. }
  unfold wp. cbn [seqLoop]. destruct (rest p) as [|ch r] eqn:E; [apply Hstop; by left|].
  assert (Hrun : forall {A} (m : P A) k, wp N (fun a p' => wp N (seqPost N c p) (k a) p') m p ->
    match (m ≫= k) p with
    | Ok (a, p') => seqPost N c p a p' | Err (SyntaxError o _) => 0 <= o <= N | Err Fuel => False end)
    by (intros; by apply wp_bind).
  destruct (Ascii.eqb ch "'"%char); [|destruct (Ascii.eqb ch "{"%char);
    [|destruct (Ascii.eqb_spec ch "}"%char) as [->|_]; [|destruct (Ascii.eqb ch "#"%char);
    [|destruct (Ascii.eqb ch "<"%char && isSlash (peek2 p)) eqn:Eslash;
    [|destruct (Ascii.eqb ch "<"%char && isLetterAt (peek2 p)) eqn:Elet]]]]].
  - apply Hrun. eapply wp_apostrophe; [done..|]. intros t p' Hat' Hl'. by apply Hnext.
  - apply Hrun. eapply wp_mono; [eapply wp_parseArgument; [done..|]|].
    + intros name typ open p' Hat' Hop Hn Ht Hl. eapply wp_parseChoice; [done..|].
      intros p'' Hat'' Hl''. apply IHc; [done|done|lia|done|]. split_and!; [done|constructor|done].
    + intros n p' (Hat' & Hl' & Hwf & Hlit). apply Hnext; [done|done|by apply outOk_node].
  - destruct (option_ c) eqn:Eo.
    + apply Hstop. right; left. split; [done|]. by exists r.
    + by apply at_pos in Hat.
  - apply Hrun. eapply wp_step; [done..|]. intros Hat1 Hl1.
    destruct (plural c) eqn:Epl; apply Hnext; try lia; try done.
    all: rewrite ?Epl. all: try done. by apply outOk_node.
  - destruct (negb (String.eqb (tag c) EmptyString)) eqn:Etag.
    + apply Hstop. right; right. apply andb_true_iff in Eslash as [E1 E2].
      apply Ascii.eqb_eq in E1 as ->. unfold isSlash, peek2 in E2. rewrite E in *.
      apply bool_decide_eq_true in E2. destruct r as [|d r]; [done|]. injection E2 as ->.
      split; [|by exists r]. by destruct (String.eqb_spec (tag c) EmptyString).
    + by apply at_pos in Hat.
  - apply Hrun. eapply wp_mono; [eapply wp_parseTag; [done..|]|].
    + intros name p' Hat' Hl'. apply IHs; [done|lia|apply outOk_nil].
    + intros n p' (Hat' & Hl' & Hwf & Hlit). apply Hnext; [done|done|by apply outOk_node].
  - apply Hrun. eapply wp_step; [done..|]. intros Hat1 Hl1. apply Hnext; [done|lia|done].
Qed.

Lemma loops_spec N f : seqSpec N f /\ choiceSpec N f.
Proof.
  induction f as [|f [IHs IHc]].
  - split; repeat intro; lia.
  - split; auto using seqLoop_step, choiceLoop_step.
Qed.

(** [Parse], through [parseSeq] at the outermost context. *)
Lemma Parse_spec s :
  match Parse s with
  | Ok m => wfMessage m = true
  | Err (SyntaxError o _) => 0 <= o <= strLen s
  | Err Fuel => False
  end.
Proof.
  unfold Parse, parseSeq.
  pose proof (proj1 (loops_spec (strLen s) (S (String.length s))) (Ctx false false EmptyString) [] EmptyString
    (Parser 0 s)) as H.
  specialize (H ltac:(done) ltac:(unfold left; simpl; lia) ltac:(apply outOk_nil)).
  unfold wp in H. destruct (seqLoop _ _ _ _ _) as [[m p]|[|o e]]; [|done|done].
  destruct H as (Hat & _ & Hwf & Hcl). destruct Hcl as [->|[[? _]|[? _]]]; done.
Qed.

(** ** Literal text *)

(** [r] does not start with an apostrophe. *)
Definition noQuote (r : string) : Prop := forall r', r <> String "'"%char r'.

Lemma quotedText_double s r :
  noQuote r -> quotedText (doubleQuotes s +:+ String "'"%char r) = (s, r).
Proof.
  intros Hr. induction s as [|c s IH].
  - change (quotedText (String "'"%char r) = (EmptyString, r)). simpl.
    destruct r as [|d r]; [done|]. destruct (Ascii.eqb_spec d "'"%char) as [->|]; [by destruct (Hr r)|done].
  - simpl doubleQuotes. destruct (Ascii.eqb_spec c "'"%char) as [->|Hc].
    + rewrite !str_app_cons. simpl quotedText. by rewrite IH.
    + rewrite str_app_cons. simpl quotedText. destruct (Ascii.eqb_spec c "'"%char); [done|]. by rewrite IH.
Qed.

(** Special bytes that suit a context: they open quoted text there, and every
    other byte but the apostrophe stands for itself. *)
Record suits (c : ctx) (sp : Ascii.ascii -> bool) : Prop := {
  suits_quotes : forall x, sp x = true -> quotes c x = true;
  suits_plain : forall x, sp x = false ->
    x <> "{"%char /\ x <> "}"%char /\ x <> "<"%char /\ (x = "#"%char -> plural c = false);
  suits_quote : sp "'"%char = false
}.

(** From the state on the left the loop goes on to the one on the right, with
    enough fuel left if it had enough. *)
Definition goesOn (c : ctx) (lit t lit' : string) : Prop := forall f out q r,
  noQuote r -> (String.length (t +:+ r) < f)%nat ->
  exists f', (String.length r < f')%nat /\
    seqLoop f c out lit (Parser q (t +:+ r)) = seqLoop f' c out lit' (Parser (q + strLen t) r).

Section Literals.
Context (c : ctx) (sp : Ascii.ascii -> bool) (Hsp : suits c sp).
#[local] Set Default Proof Using "Type*".

Lemma seq_plain f out lit q x r :
  sp x = false -> x <> "'"%char ->
  seqLoop (S f) c out lit (Parser q (String x r)) =
  seqLoop f c out (lit +:+ String x EmptyString) (Parser (q + 1) r).
Proof.
  intros Hx Hq. destruct (suits_plain _ _ Hsp x Hx) as (H1 & H2 & H3 & H4).
  cbn [seqLoop rest].
  destruct (Ascii.eqb_spec x "'"%char); [done|]. destruct (Ascii.eqb_spec x "{"%char); [done|].
  destruct (Ascii.eqb_spec x "}"%char); [done|]. destruct (Ascii.eqb_spec x "<"%char); [done|].
  destruct (Ascii.eqb_spec x "#"%char) as [->|]; [|done]. by rewrite H4.
Qed.

Lemma seq_doubled f out lit q r :
  seqLoop (S f) c out lit (Parser q (String "'"%char (String "'"%char r))) =
  seqLoop f c out (lit +:+ "'") (Parser (q + 2) r).
Proof. done. Qed.

Lemma seq_quoted f out lit q x w r :
  sp x = true -> noQuote r ->
  seqLoop (S f) c out lit (Parser q (String "'"%char (String x (doubleQuotes w +:+ String "'"%char r)))) =
  seqLoop f c out (lit +:+ String x w)
    (Parser (q + strLen (String "'"%char (String x (doubleQuotes w +:+ "'")))) r).
Proof.
  intros Hx Hr. cbn [seqLoop rest]. change (Ascii.eqb "'"%char "'"%char) with true. rewrite P_bind_eq.
  unfold apostrophe. cbn [rest pos].
  assert (Hq : Ascii.eqb x "'"%char = false).
  { destruct (Ascii.eqb_spec x "'"%char) as [->|]; [|done]. by rewrite (suits_quote _ _ Hsp) in Hx. }
  rewrite Hq, (suits_quotes _ _ Hsp x Hx). cbn [quotedText]. rewrite Hq, quotedText_double by done.
  do 2 f_equal. f_equal. rewrite !strLen_cons, !strLen_app, strLen_cons.
  change (strLen "'") with 1. lia.
Qed.

Lemma goesOn_run lit w :
  leadsIntoSpecial sp w = true -> goesOn c lit ("'" +:+ doubleQuotes w +:+ "'") (lit +:+ w).
Proof.
  revert lit. induction w as [|x w IH]; intros lit Hw f out q r Hr Hf; [done|].
  simpl in Hw. destruct (Ascii.eqb_spec x "'"%char) as [->|Hx].
  - specialize (IH (lit +:+ "'") Hw).
    change ("'" +:+ doubleQuotes (String "'"%char w) +:+ "'")
      with (String "'"%char (String "'"%char ("'" +:+ doubleQuotes w +:+ "'"))) in *.
    revert Hf. generalize ("'" +:+ doubleQuotes w +:+ "'") IH. clear IH. intros U IH Hf.
    rewrite !str_app_cons in *. destruct f as [|f]; [simpl in Hf; lia|]. simpl in Hf.
    rewrite seq_doubled. destruct (IH f out (q + 2) r Hr ltac:(lia)) as (f' & Hf' & ->).
    exists f'. split; [done|]. rewrite !strLen_cons, str_app_assoc.
    change ("'" +:+ w) with (String "'"%char w). do 2 f_equal. lia.
  - assert (E : "'" +:+ doubleQuotes (String x w) +:+ "'" = String "'"%char (String x (doubleQuotes w +:+ "'"))).
    { simpl doubleQuotes. by destruct (Ascii.eqb_spec x "'"%char). }
    rewrite E in *. rewrite !str_app_cons, str_app_assoc in *.
    destruct f as [|f]; [simpl in Hf; lia|]. change ("'" +:+ r) with (String "'"%char r) in *.
    rewrite seq_quoted by done. exists f. split; [|done].
    simpl in Hf. rewrite length_app_str in Hf. simpl in Hf. lia.
Qed.

Lemma goesOn_app lit lit' lit'' t u :
  goesOn c lit t lit' -> goesOn c lit' u lit'' -> (forall r, noQuote r -> noQuote (u +:+ r)) ->
  goesOn c lit (t +:+ u) lit''.
Proof.
  intros H1 H2 Hu f out q r Hr Hf. rewrite str_app_assoc in *.
  destruct (H1 f out q (u +:+ r) (Hu r Hr) Hf) as (f1 & Hf1 & ->).
  destruct (H2 f1 out (q + strLen t) r Hr Hf1) as (f2 & Hf2 & ->).
  exists f2. split; [done|]. rewrite strLen_app. do 2 f_equal. lia.
Qed.

Lemma leads_span s run r :
  span (isRunByte sp) s = (run, r) -> leadsIntoSpecial sp s = true -> leadsIntoSpecial sp run = true.
Proof.
  revert run r. induction s as [|x s IH]; [done|]. intros run r. simpl. unfold isRunByte at 1.
  destruct (Ascii.eqb x "'"%char) eqn:Ex; simpl.
  - destruct (span (isRunByte sp) s) as [a b]. intros [= <- <-] H. simpl. rewrite Ex. by eapply IH.
  - destruct (sp x) eqn:Es; [|done]. destruct (span (isRunByte sp) s) as [a b].
    intros [= <- <-] _. simpl. by rewrite Ex.
Qed.

Lemma goesOn_plain lit lit' x u :
  sp x = false -> x <> "'"%char -> goesOn c (lit +:+ String x EmptyString) u lit' ->
  goesOn c lit (String x u) lit'.
Proof.
  intros Hx Hq H f out q r Hr Hf. rewrite str_app_cons in *.
  destruct f as [|f]; [simpl in Hf; lia|]. simpl in Hf. rewrite seq_plain by done.
  destruct (H f out (q + 1) r Hr ltac:(lia)) as (f' & Hf' & ->).
  exists f'. split; [done|]. rewrite strLen_cons. do 2 f_equal. lia.
Qed.

Lemma goesOn_doubled lit lit' u :
  goesOn c (lit +:+ "'") u lit' -> goesOn c lit ("''" +:+ u) lit'.
Proof.
  intros H f out q r Hr Hf.
  change ("''" +:+ u) with (String "'"%char (String "'"%char u)) in *. rewrite !str_app_cons in *.
  destruct f as [|f]; [simpl in Hf; lia|]. simpl in Hf. rewrite seq_doubled.
  destruct (H f out (q + 2) r Hr ltac:(lia)) as (f' & Hf' & ->).
  exists f'. split; [done|]. rewrite !strLen_cons. do 2 f_equal. lia.
Qed.

Lemma escape_noQuote k s r :
  (forall x s', s = String x s' -> isRunByte sp x = false) -> noQuote r ->
  noQuote (escapeFrom sp k s +:+ r).
Proof.
  intros Hs Hr. destruct k as [|k]; [done|]. destruct s as [|x s]; [done|].
  specialize (Hs x s eq_refl). unfold isRunByte in Hs. apply orb_false_iff in Hs as [Hq Hx].
  simpl escapeFrom. rewrite Hx, Hq. simpl. rewrite str_app_cons. intros r' [= E _]. by rewrite E in Hq.
Qed.

Lemma goesOn_quotedRun (lit : string) k s :
  (forall lit r, (String.length r < String.length s)%nat ->
     goesOn c lit (escapeFrom sp k r) (lit +:+ r)) ->
  leadsIntoSpecial sp s = true ->
  goesOn c lit (let '(q, r) := quotedRun sp s in q +:+ escapeFrom sp k r) (lit +:+ s).
Proof.
  intros IH Hs. unfold quotedRun. destruct (span (isRunByte sp) s) as [run r] eqn:E.
  pose proof (leads_span _ _ _ E Hs) as Hrun. apply span_spec in E as (E & Ha & Hb).
  rewrite E, <- (str_app_assoc lit run r).
  apply (goesOn_app lit (lit +:+ run)); [by apply goesOn_run|apply IH|].
  - rewrite E, length_app_str. destruct run; [done|simpl; lia].
  - intros r' Hr'. by apply escape_noQuote.
Qed.

(** Escaped text adds exactly the text to the literal. *)
Lemma goesOn_escape k s lit :
  (String.length s <= k)%nat -> goesOn c lit (escapeFrom sp k s) (lit +:+ s).
Proof.
  revert s lit. induction k as [|k IH]; intros s lit Hk.
  { destruct s; [|simpl in Hk; lia]. intros f out q r Hr Hf. exists f.
    rewrite str_app_nil_r, Z.add_0_r. done. }
  destruct s as [|x s].
  { intros f out q r Hr Hf. exists f. rewrite str_app_nil_r, Z.add_0_r. done. }
  simpl in Hk.
  assert (Hrun : leadsIntoSpecial sp (String x s) = true ->
    goesOn c lit (let '(q, r) := quotedRun sp (String x s) in q +:+ escapeFrom sp k r) (lit +:+ String x s)).
  { apply goesOn_quotedRun. intros lit' r Hr. apply IH. simpl in Hr. lia. }
  cbn [escapeFrom]. destruct (sp x) eqn:Ex; cbn [negb].
  - apply Hrun. simpl. destruct (Ascii.eqb_spec x "'"%char) as [->|]; [|done].
    by rewrite (suits_quote _ _ Hsp) in Ex.
  - destruct (Ascii.eqb_spec x "'"%char) as [->|Hx].
    + destruct (leadsIntoSpecial sp (String "'"%char s)) eqn:El; [by apply Hrun|].
      apply goesOn_doubled. change (String "'"%char s) with ("'" +:+ s). rewrite <- str_app_assoc.
      apply IH. lia.
    + apply goesOn_plain; [done..|].
      change (String x s) with (String x EmptyString +:+ s). rewrite <- str_app_assoc. apply IH. lia.
Qed.
End Literals.

(** ** The source text of a message *)

Definition specialIn (pl : bool) (c : Ascii.ascii) : bool := isSpecial c || (pl && Ascii.eqb c "#"%char).

Lemma specialIn_suits c : suits c (specialIn (plural c)).
Proof.
  constructor.
  - intros x. unfold specialIn, isSpecial, quotes. destruct (plural c), (Ascii.eqb x "#"%char),
      (Ascii.eqb x "{"%char), (Ascii.eqb x "}"%char), (Ascii.eqb x "<"%char), (Ascii.eqb x "|"%char); done.
  - intros x. unfold specialIn, isSpecial. rewrite !orb_false_iff, !Ascii.eqb_neq.
    intros [[[[H1 H2] H3] H4] H5]. split_and!; [done..|]. intros ->. by destruct (plural c).
  - by destruct (plural c).
Qed.

Definition escapeText (pl : bool) (t : string) : string := escapeFrom (specialIn pl) (String.length t) t.

(** A text that parses back to the node. *)
Fixpoint printNode (pl : bool) (n : Node) {struct n} : string :=
  let printNodes (pl : bool) := fix go (l : list Node) : string :=
    match l with [] => EmptyString | x :: l' => printNode pl x +:+ go l' end in
  let printOptions (pl : bool) := fix go (o : list (string * list Node)) : string :=
    match o with
    | [] => EmptyString
    | kv :: o' => kv.1 +:+ "{" +:+ printNodes pl kv.2 +:+ "}" +:+ go o'
    end in
  match n with
  | Literal t => escapeText pl t
  | Argument a f s =>
      "{" +:+ a +:+
      (if String.eqb f EmptyString then EmptyString
       else "," +:+ f +:+ (if String.eqb s EmptyString then EmptyString else "," +:+ s)) +:+ "}"
  | Plural a o => "{" +:+ a +:+ ",plural," +:+ printOptions true o +:+ "}"
  | Select a o => "{" +:+ a +:+ ",select," +:+ printOptions pl o +:+ "}"
  | Pound => "#"
  | Tag a b => "<" +:+ a +:+ ">" +:+ printNodes pl b +:+ "</" +:+ a +:+ ">"
  end.
Definition printNodes (pl : bool) : list Node -> string := fix go (l : list Node) : string :=
  match l with [] => EmptyString | x :: l' => printNode pl x +:+ go l' end.
Definition printOptions (pl : bool) : list (string * list Node) -> string :=
  fix go (o : list (string * list Node)) : string :=
  match o with
  | [] => EmptyString
  | kv :: o' => kv.1 +:+ "{" +:+ printNodes pl kv.2 +:+ "}" +:+ go o'
  end.
Definition printMessage (m : Message) : string := printNodes false m.

Lemma printNodes_cons pl n m : printNodes pl (n :: m) = printNode pl n +:+ printNodes pl m.
Proof. done. Qed.
Lemma printOptions_cons pl k v o :
  printOptions pl ((k, v) :: o) = k +:+ "{" +:+ printNodes pl v +:+ "}" +:+ printOptions pl o.
Proof. done. Qed.

(** ** Running the scanners on printed text *)

Lemma run_bind {A B} (m : P A) (k : A -> P B) p a p' : m p = Ok (a, p') -> (m ≫= k) p = k a p'.
Proof. intros E. by rewrite P_bind_eq, E. Qed.

(** The head of [r], if any, does not satisfy [f]. *)
Definition stops (f : Ascii.ascii -> bool) (r : string) : bool :=
  match r with String x _ => negb (f x) | EmptyString => true end.

Lemma span_app f w r : str_all f w = true -> stops f r = true -> span f (w +:+ r) = (w, r).
Proof.
  intros Hw Hr. induction w as [|x w IH].
  - change (EmptyString +:+ r) with r. destruct r as [|x r]; [done|]. simpl in *.
    by destruct (f x).
  - simpl in Hw. apply andb_true_iff in Hw as [Hx Hw]. rewrite str_app_cons. simpl.
    by rewrite Hx, IH.
Qed.

Lemma run_spanP f q w r : str_all f w = true -> stops f r = true ->
  spanP f (Parser q (w +:+ r)) = Ok (w, Parser (q + strLen w) r).
Proof. intros Hw Hr. unfold spanP. cbn [rest]. by rewrite span_app. Qed.

Lemma run_skipSpace q r : stops isSpace r = true -> skipSpace (Parser q r) = Ok (tt, Parser q r).
Proof.
  intros Hr. unfold skipSpace. erewrite run_bind by (apply (run_spanP _ _ EmptyString); done).
  change (strLen EmptyString) with 0. by rewrite Z.add_0_r.
Qed.

Lemma run_parseName d q w r : validName d w = true -> stops (isNameByte d) r = true ->
  parseName d (Parser q (w +:+ r)) = Ok (Some w, Parser (q + strLen w) r).
Proof.
  intros Hw Hr. destruct w as [|x w]; [done|]. simpl in Hw. apply andb_true_iff in Hw as [Hx Hw].
  unfold parseName. rewrite str_app_cons, P_bind_eq. cbn [peek rest]. rewrite Hx, <- str_app_cons.
  erewrite run_bind; [done|]. apply run_spanP; [|done]. simpl. rewrite Hw.
  unfold isNameByte. by destruct (isLetter x), (Ascii.eqb x "_"%char); destruct (isDigit x).
Qed.

Lemma run_advance q x r : advance (Parser q (String x r)) = Ok (tt, Parser (q + 1) r).
Proof. done. Qed.
Lemma run_peek q x r : peek (Parser q (String x r)) = Ok (Some x, Parser q (String x r)).
Proof. done. Qed.

Lemma name_head d w r : validName d w = true -> stops isSpace (w +:+ r) = true.
Proof.
  destruct w as [|x w]; [done|]. simpl. intros [H _]%andb_true_iff. unfold isSpace, isLetter in *.
  rewrite orb_true_iff in H. destruct H as [H|H].
  - rewrite orb_true_iff, !in_range_spec in H. apply negb_true_iff. zbool; lia || done.
  - apply Ascii.eqb_eq in H as ->. done.
Qed.

Lemma validPluralKey_cases k : validPluralKey k = true ->
  (exists ds, k = String "="%char ds /\ str_all isDigit ds = true /\ ds <> EmptyString) \/
  k ∈ ["zero"; "one"; "two"; "few"; "many"; "other"].
Proof.
  unfold validPluralKey. destruct k as [|x k]; [done|]. rewrite orb_true_iff, bool_decide_eq_true.
  intros [H|H]; [left|by right]. rewrite !andb_true_iff in H. destruct H as [[H1 H2] H3].
  apply Ascii.eqb_eq in H1 as ->. exists k. split_and!; [done|done|]. by intros ->.
Qed.

Lemma key_head typ k : keyOk typ k = true ->
  exists x k', k = String x k' /\ isSpace x = false /\ Ascii.eqb x "}"%char = false.
Proof.
  unfold keyOk. destruct (String.eqb typ "select").
  - intros H. pose proof (name_head _ _ EmptyString H) as Hs. rewrite str_app_nil_r in Hs.
    destruct k as [|x k]; [done|]. exists x, k. simpl in *. split_and!; [done|by apply negb_true_iff|].
    apply andb_true_iff in H as [H _]. destruct (Ascii.eqb_spec x "}"%char) as [->|]; done.
  - intros [(ds & -> & _)|H]%validPluralKey_cases; [by exists "="%char, ds|].
    rewrite !elem_of_cons, elem_of_nil in H. by destruct_or!; subst; eexists _, _.
Qed.

Lemma run_parseKey typ q k r : keyOk typ k = true ->
  parseKey typ (Parser q (k +:+ String "{"%char r)) = Ok (k, Parser (q + strLen k) (String "{"%char r)).
Proof.
  unfold keyOk, parseKey. destruct (String.eqb typ "select").
  { intros H. by erewrite run_bind by (by apply run_parseName). }
  intros [(ds & -> & Hd & Hne)|H]%validPluralKey_cases.
  - rewrite str_app_cons. erewrite run_bind by apply run_peek. rewrite bool_decide_true by done.
    erewrite run_bind by done. erewrite run_bind by apply run_advance.
    erewrite run_bind by (by apply run_spanP).
    destruct (String.eqb_spec ds EmptyString); [done|]. rewrite strLen_cons.
    unfold mret, P_ret. do 2 f_equal. cbn [pos]. f_equal. lia.
  - assert (Hl : str_all isLetter k = true)
      by (rewrite !elem_of_cons, elem_of_nil in H; by destruct_or!; subst).
    assert (Hp : exists x t, k = String x t /\ x <> "="%char)
      by (rewrite !elem_of_cons, elem_of_nil in H; destruct_or!; subst; by eexists _, _).
    destruct Hp as (x & t & Ek & Hx).
    rewrite Ek, str_app_cons at 1. erewrite run_bind by apply run_peek.
    rewrite bool_decide_false by congruence. erewrite run_bind by done. rewrite <- str_app_cons, <- Ek.
    unfold parseWord. erewrite run_bind by (by apply run_spanP).
    rewrite (bool_decide_true _ H).
    rewrite !elem_of_cons, elem_of_nil in H. by destruct_or!; subst.
Qed.

(** ** The round trip *)

Lemma run_stop f c out lit q r :
  closes c (Parser q r) -> seqLoop (S f) c out lit (Parser q r) = Ok (flush out lit, Parser q r).
Proof.
  unfold closes. cbn [rest seqLoop]. intros [->|[[Ho [r' ->]]|[Ht [r' ->]]]]; [done| |].
  - cbn. by rewrite Ho.
  - cbn. by destruct (String.eqb_spec (tag c) EmptyString).
Qed.

(** What the loop does on the text of a node, of a sequence and of an option
    list. *)
Definition nodeReads (n : Node) : Prop := forall f c out lit q r,
  wfNode (plural c) n = true -> is_literal n = false ->
  (String.length (printNode (plural c) n +:+ r) <= f)%nat ->
  seqLoop (S f) c out lit (Parser q (printNode (plural c) n +:+ r)) =
  seqLoop f c (flush out lit ++ [n]) EmptyString (Parser (q + strLen (printNode (plural c) n)) r).

Definition seqReads (m : list Node) : Prop := forall f c out lit q r,
  closes c (Parser 0 r) -> wfNodes (plural c) m = true ->
  lit = EmptyString \/ (forall t m', m <> Literal t :: m') ->
  (String.length (printNodes (plural c) m +:+ r) < f)%nat ->
  seqLoop f c out lit (Parser q (printNodes (plural c) m +:+ r)) =
  Ok ((flush out lit ++ m)%list, Parser (q + strLen (printNodes (plural c) m)) r).

Lemma printed_noQuote c m r :
  closes c (Parser 0 r) -> (forall t m', m <> Literal t :: m') ->
  noQuote (printNodes (plural c) m +:+ r).
Proof.
  intros Hc Hm. destruct m as [|n m].
  - intros r' E. change (r = String "'"%char r') in E. subst.
    destruct Hc as [?|[[_ [? ?]]|[_ [? ?]]]]; done.
  - rewrite printNodes_cons. intros r'. destruct n; [by destruct (Hm Text m)|done..].
Qed.

Lemma wfNodes_cons pl n m : wfNodes pl (n :: m) = true ->
  wfNode pl n = true /\ wfNodes pl m = true /\
  (is_literal n = true -> forall t m', m <> Literal t :: m').
Proof.
  unfold wfNodes. cbn [forallb]. rewrite !andb_true_iff. intros (H1 & H2 & H3).
  assert (H4 : noAdjacent m = true) by (by destruct n, m as [|[] m]; simpl in *).
  split_and!; [done..|]. intros Hl t m' ->. by destruct n.
Qed.

Lemma seqReads_nil : seqReads [].
Proof.
  intros f c out lit q r Hc _ _ Hf. change (printNodes (plural c) []) with EmptyString in *.
  change (EmptyString +:+ r) with r in *. destruct f as [|f]; [simpl in Hf; lia|].
  rewrite app_nil_r, run_stop by exact Hc. unfold strLen. simpl. by rewrite Z.add_0_r.
Qed.

Lemma flush_literal out t : t <> EmptyString -> flush out t = (out ++ [Literal t])%list.
Proof. by destruct t. Qed.

Lemma seqReads_cons n m : nodeReads n -> seqReads m -> seqReads (n :: m).
Proof.
  intros Hn Hm f c out lit q r Hc Hwf Hlit Hf.
  apply wfNodes_cons in Hwf as (Hwn & Hwm & Hadj). rewrite printNodes_cons, str_app_assoc in *.
  destruct (is_literal n) eqn:El.
  - destruct n as [t| | | | |]; try done. specialize (Hadj eq_refl).
    destruct Hlit as [->|Hlit]; [|by destruct (Hlit t m)].
    cbn [printNode] in *. unfold escapeText in *.
    destruct (goesOn_escape c (specialIn (plural c)) (specialIn_suits c) (String.length t) t EmptyString ltac:(lia)
      f out q _ (printed_noQuote c m r Hc Hadj) Hf) as (f' & Hf' & ->).
    rewrite Hm by (auto || exact Hf'). change (EmptyString +:+ t) with t. cbn [wfNode] in Hwn.
    rewrite flush_literal by (by intros ->). rewrite strLen_app. cbn [flush].
    rewrite <- app_assoc. do 3 f_equal. lia.
  - destruct f as [|f]; [lia|]. rewrite Hn by (done || lia). rewrite Hm; [|done|done|by left|].
    + rewrite strLen_app. cbn [flush]. rewrite <- app_assoc. do 3 f_equal. lia.
    + assert (0 < String.length (printNode (plural c) n))%nat by (by destruct n; simpl; try lia).
      rewrite length_app_str in Hf. lia.
Qed.

Lemma nodeReads_pound : nodeReads Pound.
Proof.
  intros f c out lit q r Hwf _ Hf. cbn in Hwf. cbn [printNode].
  change ("#" +:+ r) with (String "#"%char r). cbn -[seqLoop flush]. cbn [seqLoop rest].
  cbn -[seqLoop flush]. unfold mbind, P_bind. cbn -[seqLoop flush]. by rewrite Hwf.
Qed.

(** Run the first action of the left-hand side. *)
Tactic Notation "runP" tactic3(t) := etransitivity; [eapply run_bind; t|].

(** A brace expression is read by [parseArgument]. *)
Lemma brace_reads f c out lit q t r n :
  parseArgument (parseChoice (choiceLoop f)) c (Parser q (String "{"%char t +:+ r)) =
    Ok (n, Parser (q + strLen (String "{"%char t)) r) ->
  seqLoop (S f) c out lit (Parser q (String "{"%char t +:+ r)) =
  seqLoop f c (flush out lit ++ [n]) EmptyString (Parser (q + strLen (String "{"%char t)) r).
Proof.
  intros H. rewrite str_app_cons in *. cbn [seqLoop rest].
  change (Ascii.eqb "{"%char "'"%char) with false. change (Ascii.eqb "{"%char "{"%char) with true.
  cbv iota. by erewrite run_bind by exact H.
Qed.

(** [parseArgument] up to the byte after the name. *)
Lemma run_argument_name choice c q a x r :
  validName false a = true -> isNameByte false x = false -> isSpace x = false ->
  parseArgument choice c (Parser q (String "{"%char (a +:+ String x r))) =
  (b ← peek;
   match b with
   | None => errAt q "unterminated '{'"
   | Some b =>
       if Ascii.eqb b "}"%char then advance;; mret (Argument a "" "")
       else if negb (Ascii.eqb b ","%char) then
         off ← getPos; errAt off "expected ',' or '}' after argument name"
       else
         advance;; skipSpace;; typOff ← getPos; typ ← parseWord; skipSpace;; b ← peek;
         match b with
         | None => errAt q "unterminated '{'"
         | Some b =>
             if bool_decide (typ ∈ ["number"; "date"; "time"]) then
               if Ascii.eqb b "}"%char then advance;; mret (Argument a typ "")
               else if negb (Ascii.eqb b ","%char) then
                 off ← getPos; errAt off "expected ',' or '}' after format"
               else
                 advance;; style ← spanP (fun x => negb (Ascii.eqb x "}"%char)); e ← peek;
                 match e with
                 | None => errAt q "unterminated '{'"
                 | Some _ => advance;; mret (Argument a typ (TrimSpace style))
                 end
             else if bool_decide (typ ∈ ["plural"; "select"]) then choice c a typ q
             else if String.eqb typ EmptyString then errAt typOff "expected argument type"
             else errAt typOff ("unknown argument type " +:+ quoted typ)
         end
   end) (Parser (q + 1 + strLen a) (String x r)).
Proof.
  intros Ha Hx Hs. unfold parseArgument. runP (done). runP (apply run_advance). cbn [pos].
  runP (apply run_skipSpace; by eapply name_head).
  runP (apply run_parseName; [done|simpl; by rewrite Hx]). cbv iota beta.
  runP (apply run_skipSpace; simpl; by rewrite Hs). done.
Qed.

(** ... and, at a comma, up to the byte after the type. *)
Lemma run_argument_type choice c q a typ x r :
  validName false a = true -> str_all isLetter typ = true -> typ <> EmptyString ->
  isLetter x = false -> isSpace x = false ->
  parseArgument choice c (Parser q (String "{"%char (a +:+ String ","%char (typ +:+ String x r)))) =
  (if bool_decide (typ ∈ ["number"; "date"; "time"]) then
     if Ascii.eqb x "}"%char then advance;; mret (Argument a typ "")
     else if negb (Ascii.eqb x ","%char) then
       off ← getPos; errAt off "expected ',' or '}' after format"
     else
       advance;; style ← spanP (fun x => negb (Ascii.eqb x "}"%char)); e ← peek;
       match e with
       | None => errAt q "unterminated '{'"
       | Some _ => advance;; mret (Argument a typ (TrimSpace style))
       end
   else if bool_decide (typ ∈ ["plural"; "select"]) then choice c a typ q
   else errAt (q + 1 + strLen a + 1) ("unknown argument type " +:+ quoted typ))
    (Parser (q + 1 + strLen a + 1 + strLen typ) (String x r)).
Proof.
  intros Ha Ht Hne Hx Hs. rewrite run_argument_name by done. runP (apply run_peek). cbv iota beta.
  change (Ascii.eqb ","%char "}"%char) with false. change (negb (Ascii.eqb ","%char ","%char)) with false.
  cbv iota. runP (apply run_advance).
  assert (Hsp : stops isSpace (typ +:+ String x r) = true).
  { destruct typ as [|y typ]; [done|]. eapply (name_head true (String y EmptyString)). simpl in *.
    apply andb_true_iff in Ht as [-> _]. done. }
  runP (by apply run_skipSpace). runP (done).
  runP (apply run_spanP; [done|simpl; by rewrite Hx]). cbv beta.
  runP (apply run_skipSpace; simpl; by rewrite Hs). runP (apply run_peek). cbv iota beta.
  destruct (String.eqb_spec typ EmptyString); done.
Qed.

Lemma nodeReads_argument a f s : nodeReads (Argument a f s).
Proof.
  intros fuel c out lit q r Hwf _ _. cbn [wfNode] in Hwf. apply andb_true_iff in Hwf as [Ha Hf].
  cbn [printNode]. change ("{" +:+ ?t) with (String "{"%char t). apply brace_reads. rewrite str_app_cons.
  destruct (String.eqb_spec f EmptyString) as [->|Hne].
  - apply String.eqb_eq in Hf as ->.
    change (EmptyString +:+ "}") with "}". rewrite str_app_assoc. change ("}" +:+ r) with (String "}"%char r).
    rewrite run_argument_name by done. runP (apply run_peek).
    change (Ascii.eqb "}"%char "}"%char) with true.
    cbv iota. runP (apply run_advance).
    unfold mret, P_ret. rewrite strLen_cons, strLen_app. change (strLen "}") with 1. do 2 f_equal. f_equal. lia.
  - apply andb_true_iff in Hf as [Hf Hs]. rewrite bool_decide_eq_true in Hf.
    assert (Hl : str_all isLetter f = true)
      by (rewrite !elem_of_cons, elem_of_nil in Hf; by destruct_or!; subst).
    apply andb_true_iff in Hs as [Htrim Hfree]. apply String.eqb_eq in Htrim.
    destruct (String.eqb_spec s EmptyString) as [->|Hs].
    + assert (E : (a +:+ ("," +:+ f +:+ EmptyString) +:+ "}") +:+ r =
        a +:+ String ","%char (f +:+ String "}"%char r)).
      { rewrite str_app_nil_r, !str_app_assoc. done. }
      rewrite E, run_argument_type by done. rewrite bool_decide_true by done.
      change (Ascii.eqb "}"%char "}"%char) with true.
    cbv iota. runP (apply run_advance).
      unfold mret, P_ret. rewrite str_app_nil_r, strLen_cons, !strLen_app.
      change (strLen "}") with 1. change (strLen ",") with 1. do 2 f_equal. f_equal. lia.
    + assert (E : (a +:+ ("," +:+ f +:+ "," +:+ s) +:+ "}") +:+ r =
        a +:+ String ","%char (f +:+ String ","%char (s +:+ String "}"%char r))).
      { rewrite !str_app_assoc. done. }
      rewrite E, run_argument_type by done. rewrite bool_decide_true by done.
      change (Ascii.eqb ","%char "}"%char) with false. change (negb (Ascii.eqb ","%char ","%char)) with false.
      cbv iota. runP (apply run_advance).
      runP (apply run_spanP; [exact Hfree|done]).
      runP (apply run_peek). runP (apply run_advance).
      unfold mret, P_ret. rewrite Htrim, strLen_cons, !strLen_app.
      change (strLen "}") with 1. change (strLen ",") with 1. do 2 f_equal. f_equal. lia.
Qed.

(** One turn of the option loop. *)
Lemma run_option f c typ open opts q k v t r :
  keyOk typ k = true -> (k ∉ opts.*1) ->
  (forall q', seqLoop f (Ctx (plural c || String.eqb typ "plural") true EmptyString) [] EmptyString
     (Parser q' (t +:+ String "}"%char r)) = Ok (v, Parser (q' + strLen t) (String "}"%char r))) ->
  choiceLoop (S f) c typ open opts (Parser q (k +:+ String "{"%char (t +:+ String "}"%char r))) =
  choiceLoop f c typ open (opts ++ [(k, v)]) (Parser (q + strLen k + 1 + strLen t + 1) r).
Proof.
  intros Hk Hdup Hv. cbn [choiceLoop].
  destruct (key_head _ _ Hk) as (x & k' & Ek & Hsp & Hbr).
  runP (apply run_skipSpace; rewrite Ek; simpl; by rewrite Hsp).
  runP (rewrite Ek, str_app_cons; apply run_peek). cbv iota beta. rewrite Hbr.
  runP (done). rewrite <- str_app_cons, <- Ek. runP (by apply run_parseKey).
  rewrite bool_decide_false by done. runP (by apply run_skipSpace). runP (apply run_peek). cbv iota beta.
  change (negb (Ascii.eqb "{"%char "{"%char)) with false. cbv iota.
  runP (apply run_advance). runP (apply Hv). runP (apply run_peek). cbv iota beta.
  runP (apply run_advance). done.
Qed.

Lemma keyOk_valid typ (k : string) :
  keyOk typ k = (if String.eqb typ "select" then validName true k else validPluralKey k).
Proof. done. Qed.

Lemma optionsRead typ o : Forall (fun kv => seqReads kv.2) o -> forall f c open opts q r,
  optsOk (plural c || String.eqb typ "plural") (String.eqb typ "select") o -> NoDup (opts ++ o)%list.*1 ->
  forallb (valueOk (plural c || String.eqb typ "plural") true) o = true ->
  (String.length (printOptions (plural c || String.eqb typ "plural") o +:+ String "}"%char r) < f)%nat ->
  choiceLoop f c typ open opts (Parser q (printOptions (plural c || String.eqb typ "plural") o +:+ String "}"%char r)) =
  Ok ((opts ++ o)%list,
      Parser (q + strLen (printOptions (plural c || String.eqb typ "plural") o) + 1) r).
Proof.
  induction 1 as [|[k v] o Hv Ho IH]; intros f c open opts q r Hok Hnd Hvals Hf.
  - destruct f as [|f]; [simpl in Hf; lia|].
    change (printOptions ?b [] +:+ ?t) with t. cbn [choiceLoop]. runP (by apply run_skipSpace).
    runP (apply run_peek). cbv iota beta. change (Ascii.eqb "}"%char "}"%char) with true. cbv iota.
    runP (apply run_advance). unfold mret, P_ret. rewrite app_nil_r. do 3 f_equal.
    change (strLen (printOptions _ [])) with 0. lia.
  - destruct Hok as (H1 & H2 & H3). cbn [forallb fst snd] in H1, H3, Hvals.
    apply andb_true_iff in H1 as [Hk H1], H3 as [_ H3], Hvals as [Hwv Hvals].
    rewrite fmap_cons, NoDup_cons in H2. destruct H2 as [_ H2].
    rewrite printOptions_cons in *. set (pl := plural c || String.eqb typ "plural") in *.
    set (t := printNodes pl v) in *. set (u := printOptions pl o) in *.
    assert (E : (k +:+ "{" +:+ t +:+ "}" +:+ u) +:+ String "}"%char r =
      k +:+ String "{"%char (t +:+ String "}"%char (u +:+ String "}"%char r))).
    { rewrite !str_app_assoc. done. }
    rewrite E in *. destruct f as [|f]; [lia|].
    assert (Hlen : (String.length (t +:+ String "}"%char (u +:+ String "}"%char r)) < f)%nat).
    { rewrite length_app_str in Hf. simpl in Hf. lia. }
    rewrite (run_option f c typ open opts q k v t _).
    + rewrite IH; [|done| |done|].
      * rewrite <- app_assoc. do 3 f_equal. rewrite !strLen_app. change (strLen "{") with 1.
        change (strLen "}") with 1. fold pl u. lia.
      * by rewrite <- app_assoc.
      * rewrite length_app_str in Hlen. simpl in Hlen. fold pl u. lia.
    + by rewrite keyOk_valid.
    + rewrite fmap_app, NoDup_app in Hnd. destruct Hnd as (_ & Hd & _). intros Hin.
      apply (Hd k Hin). by left.
    + intros q'. apply (Hv f (Ctx pl true EmptyString) [] EmptyString q').
      * right; left. split; [done|]. by eexists.
      * unfold valueOk in Hwv. by rewrite orb_false_r in Hwv.
      * by left.
      * exact Hlen.
Qed.

Lemma run_choice f c name (sel : bool) o q a r :
  Forall (fun kv => seqReads kv.2) o -> wfNode (plural c) (if sel then Select name o else Plural name o) = true ->
  (String.length (printOptions (plural c || negb sel) o +:+ String "}"%char r) < f)%nat ->
  parseChoice (choiceLoop f) c name (if sel then "select" else "plural") a
    (Parser q (String ","%char (printOptions (plural c || negb sel) o +:+ String "}"%char r))) =
  Ok (if sel then Select name o else Plural name o,
      Parser (q + 1 + strLen (printOptions (plural c || negb sel) o) + 1) r).
Proof.
  intros Ho Hwf Hf. unfold parseChoice. runP (apply run_peek). rewrite bool_decide_true by done.
  cbn [negb]. runP (apply run_advance).
  assert (Hpl : forall b, (b || negb sel) = (b || String.eqb (if sel then "select" else "plural") "plural"))
    by (by destruct sel).
  assert (Hsel : String.eqb (if sel then "select" else "plural") "select" = sel) by (by destruct sel).
  rewrite Hpl in *.
  assert (Hok : validKeys sel o = true /\ forallb (valueOk (plural c || negb sel) true) o = true).
  { destruct sel; cbn [wfNode] in Hwf; apply andb_true_iff in Hwf as [Hwf Hv];
      apply andb_true_iff in Hwf as [_ Hk]; (split; [done|]);
      (erewrite (forallb_same _ _ o); [exact Hv|]); intros kv; unfold valueOk; cbn [negb];
      by rewrite ?orb_false_r, ?orb_true_r. }
  destruct Hok as [Hk Hv]. unfold validKeys in Hk. rewrite !andb_true_iff, !bool_decide_eq_true in Hk.
  destruct Hk as [[Hk Hnd] Hoth]. rewrite Hpl in Hv.
  runP (apply (optionsRead _ o Ho); [|done|done|done]).
  { rewrite Hsel. split_and!; [done|done|]. erewrite (forallb_same _ _ o); [exact Hv|].
    intros kv. unfold valueOk. destruct sel; [done|]. cbn [negb]. by rewrite !orb_true_r. }
  cbv beta. rewrite bool_decide_true by done. by rewrite Hsel.
Qed.

Lemma nodeReads_choice (sel : bool) name o :
  Forall (fun kv => seqReads kv.2) o -> nodeReads (if sel then Select name o else Plural name o).
Proof.
  intros Ho f c out lit q r Hwf _ Hf.
  set (typ := if sel then "select" else "plural").
  set (u := printOptions (plural c || negb sel) o).
  assert (Hn : validName false name = true) by (destruct sel; cbn [wfNode] in Hwf; rewrite !andb_true_iff in Hwf; tauto).
  assert (E : printNode (plural c) (if sel then Select name o else Plural name o) =
    String "{"%char (name +:+ "," +:+ typ +:+ "," +:+ u +:+ "}")).
  { unfold u, typ. by destruct sel; rewrite ?orb_true_r, ?orb_false_r. }
  rewrite E in *. apply brace_reads. rewrite str_app_cons.
  assert (E' : (name +:+ "," +:+ typ +:+ "," +:+ u +:+ "}") +:+ r =
    name +:+ String ","%char (typ +:+ String ","%char (u +:+ String "}"%char r)))
    by (rewrite !str_app_assoc; done).
  rewrite str_app_cons, E' in Hf. rewrite E'.
  rewrite run_argument_type by (done || by destruct sel).
  rewrite bool_decide_false by (destruct sel; set_solver).
  rewrite bool_decide_true by (destruct sel; set_solver).
  unfold typ. etransitivity; [apply run_choice; [done|done|]|].
  - simpl in Hf. rewrite length_app_str in Hf. simpl in Hf. rewrite length_app_str in Hf. simpl in Hf.
    fold u. lia.
  - fold u typ. do 3 f_equal. rewrite strLen_cons, !strLen_app. change (strLen ",") with 1.
    change (strLen "}") with 1. lia.
Qed.

Lemma nodeReads_tag name body : seqReads body -> nodeReads (Tag name body).
Proof.
  intros Hb f c out lit q r Hwf _ Hf. cbn [wfNode] in Hwf.
  fold (wfNodes (plural c) body) in Hwf. apply andb_true_iff in Hwf as [Hn Hwb].
  apply andb_true_iff in Hn as [Hn Hlet].
  set (u := printNodes (plural c) body).
  assert (E : forall r, printNode (plural c) (Tag name body) +:+ r =
    String "<"%char (name +:+ String ">"%char (u +:+ String "<"%char (String "/"%char (name +:+ String ">"%char r))))).
  { intros r'. cbn [printNode]. fold (printNodes (plural c) body). fold u. rewrite !str_app_assoc. done. }
  assert (Elen : strLen (printNode (plural c) (Tag name body)) = 5 + 2 * strLen name + strLen u).
  { pose proof (f_equal strLen (E EmptyString)) as H. rewrite str_app_nil_r in H. rewrite H.
    rewrite !strLen_cons, !strLen_app, !strLen_cons, strLen_app, !strLen_cons, strLen_app, strLen_cons.
    change (strLen EmptyString) with 0. lia. }
  rewrite E in *. cbn [seqLoop rest].
  assert (Hhead : isSlash (peek2 (Parser q (String "<"%char (name +:+ String ">"%char (u +:+ String "<"%char (String "/"%char (name +:+ String ">"%char r)))))) ) = false
    /\ isLetterAt (peek2 (Parser q (String "<"%char (name +:+ String ">"%char (u +:+ String "<"%char (String "/"%char (name +:+ String ">"%char r)))))) ) = true).
  { destruct name as [|h name]; [done|]. unfold isSlash, peek2. cbn. split; [|done].
    apply bool_decide_eq_false. intros [= ->]. done. }
  destruct Hhead as [-> ->].
  change (Ascii.eqb "<"%char "'"%char) with false. change (Ascii.eqb "<"%char "{"%char) with false.
  change (Ascii.eqb "<"%char "}"%char) with false. change (Ascii.eqb "<"%char "#"%char) with false.
  change (Ascii.eqb "<"%char "<"%char) with true. cbn [andb]. cbv iota.
  etransitivity; [eapply run_bind|].
  { unfold parseTag. runP (done). runP (apply run_advance). runP (by apply run_parseName).
    cbn [default from_option id]. rewrite Hlet. cbn [negb]. cbv iota. runP (apply run_peek).
    rewrite bool_decide_true by done. cbn [negb]. cbv iota. runP (apply run_advance).
    runP (apply (Hb f (Ctx (plural c) false name) [] EmptyString)).
    - right; right. split; [cbn [tag]; by intros ->|]. by eexists.
    - exact Hwb.
    - by left.
    - cbn [plural]. fold u. simpl in Hf. rewrite length_app_str in Hf. simpl in Hf. lia.
    - cbv beta. runP (apply run_peek). cbv iota. runP (done). runP (apply run_advance). runP (apply run_advance).
      runP (by apply run_parseName). cbn [default from_option id]. runP (apply run_peek).
      rewrite bool_decide_true by done. cbn [negb]. cbv iota. runP (apply run_advance).
      rewrite String.eqb_refl. done. }
  cbv beta. f_equal. f_equal. rewrite Elen. cbn [plural pos]. fold u. lia.
Qed.

Lemma seqReads_all m : seqReads m.
Proof.
  apply (message_ind nodeReads seqReads).
  - by intros t f c out lit q r _.
  - apply nodeReads_argument.
  - intros n o Ho. by apply (nodeReads_choice false).
  - intros n o Ho. by apply (nodeReads_choice true).
  - apply nodeReads_pound.
  - apply nodeReads_tag.
  - apply seqReads_nil.
  - apply seqReads_cons.
Qed.

Lemma parse_print m : wfMessage m = true -> Parse (printMessage m) = Ok m.
Proof.
  intros Hwf. unfold Parse, parseSeq, printMessage.
  pose proof (seqReads_all m (S (String.length (printNodes false m))) (Ctx false false EmptyString) [] EmptyString 0
    EmptyString) as H.
  cbn [plural] in H. rewrite str_app_nil_r in H. rewrite H; [done|by left|done|by left|lia].
Qed.

(** ** The renderer *)

Section Collect.
Variable step : gset string -> Node -> gset string.
Hypothesis grows : forall set n, set ⊆ step set n.
#[local] Set Default Proof Using "Type*".

Lemma fold_grows m set : set ⊆ fold_left step m set.
Proof. revert set. induction m as [|n m IH]; intros set; simpl; [done|]. etrans; [apply (grows _ n)|apply IH]. Qed.

Lemma fold_options_grows (o : list (string * list Node)) set :
  set ⊆ fold_left (fun s kv => fold_left step kv.2 s) o set.
Proof. revert set. induction o as [|kv o IH]; intros set; simpl; [done|]. etrans; [apply fold_grows|apply IH]. Qed.
End Collect.

(** The same growth, when it is known only of the nodes of the list. *)
Lemma fold_grows_ind (step : gset string -> Node -> gset string) m :
  Forall (fun n => forall set, set ⊆ step set n) m -> forall set, set ⊆ fold_left step m set.
Proof. induction 1 as [|n m Hn Hm IH]; intros set; simpl; [done|]. etrans; [apply Hn|apply IH]. Qed.

Lemma fold_options_grows_ind (step : gset string -> Node -> gset string) (o : list (string * list Node)) :
  Forall (fun kv => forall set, set ⊆ fold_left step kv.2 set) o ->
  forall set, set ⊆ fold_left (fun s kv => fold_left step kv.2 s) o set.
Proof. induction 1 as [|kv o Hn Hm IH]; intros set; simpl; [done|]. etrans; [apply Hn|apply IH]. Qed.

Lemma argumentsNode_grows n : forall set, set ⊆ argumentsNode set n.
Proof.
  apply (node_ind (fun n => forall set, set ⊆ argumentsNode set n)
    (fun m => forall set, set ⊆ fold_left argumentsNode m set)); intros; cbn [argumentsNode]; try set_solver.
  - etrans; [|by apply fold_options_grows_ind]. set_solver.
  - etrans; [|by apply fold_options_grows_ind]. set_solver.
Qed.

Lemma findOption_map {V W} (g : V -> W) o key :
  findOption (map (fun kv => (kv.1, g kv.2)) o) key = g <$> findOption o key.
Proof. induction o as [|[k v] o IH]; cbn; [done|]. by destruct (String.eqb k key). Qed.

Lemma findOption_in {V} (o : list (string * V)) key v : findOption o key = Some v -> (key, v) ∈ o.
Proof.
  induction o as [|[k w] o IH]; cbn; [done|]. destruct (String.eqb_spec k key) as [->|].
  - intros [= ->]. by left.
  - intros H. right. by apply IH.
Qed.

Lemma findOption_some {V} (o : list (string * V)) key : key ∈ o.*1 -> exists v, findOption o key = Some v.
Proof.
  induction o as [|[k w] o IH]; cbn; [by intros ?%elem_of_nil|].
  destruct (String.eqb_spec k key) as [->|Hne]; [by eexists|].
  intros [->|H]%elem_of_cons; [done|by apply IH].
Qed.

Section Rendering.
Context {L F T O : Type} `{X : XText L F T O}.

Lemma exactOption_map {V W} (g : V -> W) o x :
  exactOption (map (fun kv => (kv.1, g kv.2)) o) x = g <$> exactOption o x.
Proof using Type.
  induction o as [|[k v] o IH]; cbn; [done|]. destruct k as [|e ds]; [done|].
  destruct (Ascii.eqb e "="%char); [|done]. destruct (ParseInt64 ds); [|done]. by destruct (float_eqb _ _).
Qed.

Lemma exactOption_in {V} (o : list (string * V)) x v : exactOption o x = Some v -> exists k, (k, v) ∈ o.
Proof using Type.
  induction o as [|[k w] o IH]; cbn; [done|]. intros H.
  assert (Hc : w = v \/ exactOption o x = Some v).
  { destruct k as [|e ds]; [by right|]. destruct (Ascii.eqb e "="%char); [|by right].
    destruct (ParseInt64 ds); [|by right]. destruct (float_eqb _ _); [left; congruence|by right]. }
  destruct Hc as [->|Hc]; [exists k; by left|]. destruct (IH Hc) as [k' Hk']. exists k'. by right.
Qed.

(** The branch a choice takes on [v], and the pound it sets. *)
Definition pluralBranch {V} (o : list (string * V)) (lg : L) (v : any F T O) : option V * string :=
  match toNumber v with
  | None => (findOption o "other", Sprint v)
  | Some (n, text) =>
      (orElse (exactOption o (default (float_of_int 0) (ParseFloat text)))
         (orElse (findOption o (pluralKey lg text)) (findOption o "other")), Decimal lg n)
  end.

Definition selectBranch {V} (o : list (string * V)) (v : option (any F T O)) : option V :=
  match v with
  | None => findOption o "other"
  | Some v => orElse (findOption o (Sprint v)) (findOption o "other")
  end.

Lemma orElse_map {V W} (g : V -> W) (a b : option V) : orElse (g <$> a) (g <$> b) = g <$> orElse a b.
Proof using Type. by destruct a. Qed.

Definition withPound (st : state L F T O) (p : string) : state L F T O := State (lang st) (args st) (Some p).

Lemma writeNode_plural name o st v :
  args st !! name = Some v ->
  writeNode (Plural name o) st =
  match pluralBranch o (lang st) v with
  | (Some m, p) => writeNodes m (withPound st p)
  | (None, _) => EmptyString
  end.
Proof using Type.
  intros Hv. cbn [writeNode]. rewrite Hv. fold (@writeNodes L F T O X).
  unfold writePlural, pluralBranch. destruct (toNumber v) as [[n text]|].
  - rewrite exactOption_map, !findOption_map, !orElse_map. by destruct (orElse _ _).
  - rewrite findOption_map. by destruct (findOption o "other").
Qed.

Lemma writeNode_select name o st :
  writeNode (Select name o) st =
  match selectBranch o (args st !! name) with
  | Some m => writeNodes m st
  | None => EmptyString
  end.
Proof using Type.
  cbn [writeNode]. fold (@writeNodes L F T O X). unfold selectBranch.
  destruct (args st !! name) as [v|].
  - rewrite !findOption_map, orElse_map. by destruct (orElse _ _).
  - rewrite findOption_map. by destruct (findOption o "other").
Qed.

Lemma pluralBranch_in {V} (o : list (string * V)) lg v m p :
  pluralBranch o lg v = (Some m, p) -> exists k, (k, m) ∈ o.
Proof using Type.
  unfold pluralBranch. destruct (toNumber v) as [[n text]|]; intros [= H _].
  - unfold orElse in H. destruct (exactOption _ _) eqn:E1; [injection H as ->; by eapply exactOption_in|].
    destruct (findOption o (pluralKey lg text)) eqn:E2;
      [injection H as ->; eexists; by apply findOption_in|eexists; by apply findOption_in].
  - eexists. by apply findOption_in.
Qed.

Lemma selectBranch_in {V} (o : list (string * V)) v m : selectBranch o v = Some m -> exists k, (k, m) ∈ o.
Proof using Type.
  unfold selectBranch, orElse. destruct v as [v|]; [|intros H; eexists; by apply findOption_in].
  destruct (findOption o (Sprint v)) eqn:E; intros H; eexists;
    [injection H as ->; by apply findOption_in|by apply findOption_in].
Qed.

(** Two states a rendering cannot tell apart on the names of [S]. *)
Definition agree (S : gset string) (st1 st2 : state L F T O) : Prop :=
  lang st1 = lang st2 /\ pound st1 = pound st2 /\ (forall x, x ∈ S -> args st1 !! x = args st2 !! x).

Lemma agree_sub S S' st1 st2 : S ⊆ S' -> agree S' st1 st2 -> agree S st1 st2.
Proof using Type. intros Hs (?&?&H). split_and!; [done..|]. intros x Hx. by apply H, Hs. Qed.

Definition sameText (m : list Node) : Prop := forall set st1 st2,
  agree (fold_left argumentsNode m set) st1 st2 -> writeNodes m st1 = writeNodes m st2.

Lemma options_sameText (o : list (string * list Node)) set : Forall (fun kv => sameText kv.2) o -> forall st1 st2,
  agree (fold_left (fun s kv => fold_left argumentsNode kv.2 s) o set) st1 st2 ->
  forall (k : string) (m : list Node) (p : string), (k, m) ∈ o ->
  writeNodes m (withPound st1 p) = writeNodes m (withPound st2 p) /\ writeNodes m st1 = writeNodes m st2.
Proof using Type.
  intros Ho. revert set. induction Ho as [|kv o Hkv Ho IH]; intros set st1 st2 Ha k m p Hin.
  { by apply elem_of_nil in Hin. }
  cbn [fold_left] in Ha. apply elem_of_cons in Hin as [<-|Hin]; [|by eapply IH].
  eapply agree_sub in Ha; [|by apply (fold_options_grows _ (fun s n => argumentsNode_grows n s))].
  split; [|by eapply Hkv]. eapply (Hkv set). by destruct Ha as (?&?&?).
Qed.

Lemma sameText_all m : sameText m.
Proof using Type.
  apply (message_ind (fun n => forall set st1 st2, agree (argumentsNode set n) st1 st2 ->
    writeNode n st1 = writeNode n st2) sameText).
  - done.
  - intros n f s set st1 st2 (Hl & _ & H). cbn [writeNode]. rewrite (H n), Hl by (cbn; set_solver). done.
  - intros n o Ho set st1 st2 Ha. cbn [argumentsNode] in Ha.
    assert (Hn : args st1 !! n = args st2 !! n).
    { apply Ha. apply (fold_options_grows _ (fun s n => argumentsNode_grows n s)). set_solver. }
    destruct (args st1 !! n) as [v|] eqn:E1; symmetry in Hn.
    + rewrite (writeNode_plural _ _ _ _ E1), (writeNode_plural _ _ _ _ Hn).
      replace (lang st2) with (lang st1) by apply Ha.
      destruct (pluralBranch o (lang st1) v) as [[m'|] p] eqn:Eb; [|done].
      destruct (pluralBranch_in _ _ _ _ _ Eb) as [k Hk].
      exact (proj1 (options_sameText _ _ Ho _ _ Ha _ _ p Hk)).
    + cbn [writeNode]. by rewrite E1, Hn.
  - intros n o Ho set st1 st2 Ha. cbn [argumentsNode] in Ha.
    assert (Hn : args st1 !! n = args st2 !! n).
    { apply Ha. apply (fold_options_grows _ (fun s n => argumentsNode_grows n s)). set_solver. }
    rewrite !writeNode_select, Hn. destruct (selectBranch o _) as [m'|] eqn:Eb; [|done].
    destruct (selectBranch_in _ _ _ Eb) as [k Hk]. 
    exact (proj2 (options_sameText _ _ Ho _ _ Ha _ _ EmptyString Hk)).
  - intros set st1 st2 (_ & Hp & _). cbn. by rewrite Hp.
  - intros n b Hb set st1 st2 Ha. cbn [writeNode]. fold (@writeNodes L F T O X).
    by rewrite (Hb set _ st2).
  - by intros set st1 st2 _.
  - intros n m' Hn Hm set st1 st2 Ha. cbn [writeNodes]. cbn [fold_left] in Ha. f_equal.
    + eapply (Hn set). eapply agree_sub; [|exact Ha]. apply fold_grows. intros; apply argumentsNode_grows.
    + by eapply Hm.
Qed.
End Rendering.

(** ** Theorems *)

(** C25. [Parse] returns on every text: a message, or a syntax error whose offset
    lies in the text.  The fuel of its loops, one more than the bytes of the
    text, never runs out. *)
Theorem parse_total s :
  (exists m, Parse s = Ok m) \/
  (exists off msg, Parse s = Err (SyntaxError off msg) /\ 0 <= off <= strLen s).
Proof.
  pose proof (Parse_spec s) as H. destruct (Parse s) as [m|[|off msg]]; [|done|]; eauto 10.
Qed.

(** C26. The messages [Parse] returns are exactly the well-formed ones: names and
    keys of the right shape, no empty and no adjacent literals, options with
    distinct keys and an [other], [#] only under a plural, styles trimmed. *)
Theorem parse_image m : wfMessage m = true <-> exists s, Parse s = Ok m.
Proof.
  split.
  - intros Hwf. exists (printMessage m). by apply parse_print.
  - intros [s Hs]. pose proof (Parse_spec s) as H. by rewrite Hs in H.
Qed.

(** The message of an escaped text. *)
Lemma ICUEscape_literal {L F T O} `{X : XText L F T O} s (lg : L) (a : gmap string (any F T O)) :
  exists m, Parse (ICUEscape s) = Ok m /\ Arguments_ m = ∅ /\ Tags m = ∅ /\ Format m lg a = s.
Proof.
  exists (flush [] s). split_and!; [|by destruct s..|].
  - assert (Hsuits : suits (Ctx false false EmptyString) isSpecial).
    { pose proof (specialIn_suits (Ctx false false EmptyString)) as [H1 H2 H3].
      constructor; intros; [apply H1|apply H2|done]; unfold specialIn; by rewrite orb_false_r. }
    pose proof (goesOn_escape _ _ Hsuits (String.length s) s EmptyString ltac:(lia)
      (S (String.length (ICUEscape s))) [] 0 EmptyString) as H.
    rewrite str_app_nil_r in H. unfold Parse, parseSeq.
    destruct (H ltac:(done) ltac:(unfold ICUEscape; lia)) as (f' & Hf' & E).
    unfold ICUEscape in *. rewrite E. destruct f' as [|f']; [simpl in Hf'; lia|]. done.
  - destruct s; [done|]. unfold Format. cbn. by rewrite str_app_nil_r.
Qed.

(** Any text written with [ICUEscape] parses, has no placeholder, and
    renders as itself in every language. *)
Lemma icu_escape_roundtrip {L F T O} `{X : XText L F T O} s (lg : L) (a : gmap string (any F T O)) :
  exists m, Parse (ICUEscape s) = Ok m /\ Arguments_ m = ∅ /\ Tags m = ∅ /\ Format m lg a = s.
Proof. apply ICUEscape_literal. Qed.

(** Messages agree on arguments that agree on the collected names. *)
Lemma format_arguments {L F T O} `{X : XText L F T O} m (lg : L) (a1 a2 : gmap string (any F T O)) :
  (forall x, x ∈ Arguments_ m -> a1 !! x = a2 !! x) -> Format m lg a1 = Format m lg a2.
Proof. intros H. apply (sameText_all m ∅). by split_and!. Qed.

(** The text of a message depends on the arguments only through the names
    [Arguments] collects. *)
Lemma format_depends_on_arguments {L F T O} `{X : XText L F T O} m (lg : L)
    (a1 a2 : gmap string (any F T O)) :
  (forall x, x ∈ Arguments_ m -> a1 !! x = a2 !! x) -> Format m lg a1 = Format m lg a2.
Proof. apply format_arguments. Qed.

(** A choice of a parsed message always has a branch to render. *)
Lemma parsed_choice_has_branch {L F T O} `{X : XText L F T O} pl name o (st : state L F T O) v :
  (wfNode pl (Plural name o) = true -> args st !! name = Some v ->
   exists k m p, (k, m) ∈ o /\ writeNode (Plural name o) st = writeNodes m (withPound st p)) /\
  (wfNode pl (Select name o) = true ->
   exists k m, (k, m) ∈ o /\ writeNode (Select name o) st = writeNodes m st).
Proof.
  assert (Hoth : forall sel, validKeys sel o = true -> exists m, findOption o "other" = Some m).
  { intros sel H. unfold validKeys in H. rewrite !andb_true_iff, !bool_decide_eq_true in H.
    apply findOption_some; tauto. }
  split.
  - intros Hwf Hv. cbn [wfNode] in Hwf. rewrite !andb_true_iff in Hwf.
    destruct (Hoth false ltac:(tauto)) as [m Hm].
    destruct (pluralBranch o (lang st) v) as [[m'|] p] eqn:Eb.
    + destruct (pluralBranch_in _ _ _ _ _ Eb) as [k Hk]. exists k, m', p. split; [done|].
      rewrite (writeNode_plural _ _ _ _ Hv). by rewrite Eb.
    + exfalso. unfold pluralBranch, orElse in Eb. rewrite Hm in Eb.
      destruct (toNumber v) as [[??]|]; [|done]. by repeat case_match.
  - intros Hwf. cbn [wfNode] in Hwf. rewrite !andb_true_iff in Hwf.
    destruct (Hoth true ltac:(tauto)) as [m Hm]. rewrite writeNode_select.
    destruct (selectBranch o _) as [m'|] eqn:Eb.
    + destruct (selectBranch_in _ _ _ Eb) as [k Hk]. by exists k, m'.
    + exfalso. unfold selectBranch, orElse in Eb. rewrite Hm in Eb. by repeat case_match.
Qed.

(** The instance the witnesses run with: no float parses and every form is
    [other]. *)
#[local] Instance noText : XText unit unit unit unit := {|
  ParseFloat _ := None; FormatFloat _ _ := EmptyString; IsNaN _ := false; IsInf _ := false;
  float_eqb _ _ := false; float_of_int _ := tt; Decimal _ _ := "7"; MatchPlural _ _ _ _ _ _ := FOther;
  FormatTime _ _ := EmptyString; SprintAny _ := EmptyString |}.

Lemma format_depends_on_arguments_witness :
  Format [Argument "a" "" ""; Plural "n" [("other", [Pound])]] tt
    (<["a" := GoString "x"]> (<["n" := GoInt 7]> (<["z" := GoInt 1]> ∅))) =
  Format [Argument "a" "" ""; Plural "n" [("other", [Pound])]] tt
    (<["a" := GoString "x"]> (<["n" := GoInt 7]> ∅)).
Proof.
  apply format_depends_on_arguments. intros x Hx.
  assert (Hz : x <> "z") by (intros ->; by vm_compute in Hx).
  destruct (decide (x = "a")) as [->|]; [done|]. destruct (decide (x = "n")) as [->|]; [done|].
  rewrite !lookup_insert_ne by done. done.
Defined.
