(* ===== verification/ModlocaleFacts.v ===== *)
(** * modlocale: escaping and the derived references

    - [id_escape_roundtrip]: [Unescape] inverts [Escape], and an escaped segment
      holds no dot, so that ids split back into their segments;
    - [derived_references_plain]: every derived reference is plain text as far as
      the message format is concerned, and they come sorted by id. *)

From Stdlib Require Import Ascii Sorted.
From S2P Require Import Prelude GoText GoToken Icu Modlocale IcuFacts.
Local Open Scope string_scope.
Local Open Scope Z_scope.

(** ** [Escape] byte by byte *)

Fixpoint mapBytes (f : Ascii.ascii -> string) (s : string) : string :=
  match s with EmptyString => EmptyString | String c s' => f c +:+ mapBytes f s' end.

Lemma replace_byte c new s :
  ReplaceAll s (String c EmptyString) new =
  mapBytes (fun d => if Ascii.eqb c d then new else String d EmptyString) s.
Proof.
  unfold ReplaceAll. induction s as [|d s IH]; [done|]. simpl. rewrite <- IH.
  unfold HasPrefix. simpl. destruct (ascii_dec c d) as [->|Hne].
  - rewrite Ascii.eqb_refl. by destruct s.
  - destruct (Ascii.eqb_spec c d); [done|]. done.
Qed.

Lemma mapBytes_app f s t : mapBytes f (s +:+ t) = mapBytes f s +:+ mapBytes f t.
Proof. induction s as [|c s IH]; [done|]. rewrite str_app_cons. simpl. by rewrite IH, str_app_assoc. Qed.

Lemma mapBytes_comp f g s : mapBytes g (mapBytes f s) = mapBytes (fun c => mapBytes g (f c)) s.
Proof. induction s as [|c s IH]; [done|]. simpl. by rewrite mapBytes_app, IH. Qed.

(** What [Escape] makes of a byte. *)
Definition escByte (c : Ascii.ascii) : string :=
  if Ascii.eqb c "~"%char then "~0" else if Ascii.eqb c "."%char then "~1" else String c EmptyString.

Lemma mapBytes_same f g s : (forall c, f c = g c) -> mapBytes f s = mapBytes g s.
Proof. intros H. induction s as [|c s IH]; [done|]. simpl. by rewrite H, IH. Qed.

Lemma Escape_bytes s : Escape s = mapBytes escByte s.
Proof.
  unfold Escape. rewrite !replace_byte, mapBytes_comp. apply mapBytes_same. intros c. unfold escByte.
  destruct (Ascii.eqb_spec "~"%char c) as [<-|H1]; [done|].
  destruct (Ascii.eqb_spec c "~"%char) as [->|_]; [done|].
  cbn [mapBytes]. destruct (Ascii.eqb_spec "."%char c) as [<-|H2]; [done|].
  by destruct (Ascii.eqb_spec c "."%char) as [->|_].
Qed.

(** Half of the way back: the dots are dots again. *)
Definition tildeByte (c : Ascii.ascii) : string :=
  if Ascii.eqb c "~"%char then "~0" else String c EmptyString.

Lemma prefix2 a b c s :
  HasPrefix (String c s) (String a (String b EmptyString)) =
  Ascii.eqb a c && match s with String d _ => Ascii.eqb b d | EmptyString => false end.
Proof.
  unfold HasPrefix. simpl. destruct (ascii_dec a c) as [->|Hne].
  - rewrite Ascii.eqb_refl. destruct s as [|d s]; [done|]. simpl. destruct (ascii_dec b d) as [->|].
    + rewrite Ascii.eqb_refl. by destruct s.
    + by destruct (Ascii.eqb_spec b d).
  - by destruct (Ascii.eqb_spec a c).
Qed.

Lemma replaceFrom_cons old new c s :
  replaceFrom old new 0 (String c s) =
  if HasPrefix (String c s) old then new +:+ replaceFrom old new (String.length old - 1) s
  else String c (replaceFrom old new 0 s).
Proof. done. Qed.

Lemma unescape_dots s : ReplaceAll (mapBytes escByte s) "~1" "." = mapBytes tildeByte s.
Proof.
  unfold ReplaceAll. induction s as [|c s IH]; [done|]. simpl mapBytes. unfold escByte at 1, tildeByte at 1.
  destruct (Ascii.eqb_spec c "~"%char) as [->|H1].
  - change ("~0" +:+ ?t) with (String "~"%char (String "0"%char t)).
    rewrite replaceFrom_cons, prefix2. cbn [andb Ascii.eqb Bool.eqb].
    rewrite replaceFrom_cons, prefix2. cbn [andb Ascii.eqb Bool.eqb]. by rewrite IH.
  - destruct (Ascii.eqb_spec c "."%char) as [->|H2].
    + change ("~1" +:+ ?t) with (String "~"%char (String "1"%char t)).
      rewrite replaceFrom_cons, prefix2. cbn [andb Ascii.eqb Bool.eqb]. simpl. by rewrite IH.
    + change (String c EmptyString +:+ ?t) with (String c t). rewrite replaceFrom_cons, prefix2.
      destruct (Ascii.eqb_spec "~"%char c); [done|]. cbn [andb]. by rewrite IH.
Qed.

Lemma unescape_tildes s : ReplaceAll (mapBytes tildeByte s) "~0" "~" = s.
Proof.
  unfold ReplaceAll. induction s as [|c s IH]; [done|]. simpl mapBytes. unfold tildeByte at 1.
  destruct (Ascii.eqb_spec c "~"%char) as [->|H1].
  - change ("~0" +:+ ?t) with (String "~"%char (String "0"%char t)).
    rewrite replaceFrom_cons, prefix2. cbn [andb Ascii.eqb Bool.eqb]. simpl. by rewrite IH.
  - change (String c EmptyString +:+ ?t) with (String c t). rewrite replaceFrom_cons, prefix2.
    destruct (Ascii.eqb_spec "~"%char c); [done|]. cbn [andb]. by rewrite IH.
Qed.

Lemma mapBytes_all (P : Ascii.ascii -> bool) f s :
  (forall c, str_all P (f c) = true) -> str_all P (mapBytes f s) = true.
Proof. intros H. induction s as [|c s IH]; [done|]. simpl. by rewrite str_all_app, H, IH. Qed.

(** ** [Derive] *)

(** [r] was made by [add]. *)
Definition plainRef (r : Ref) : Prop := exists t, t <> EmptyString /\ English r = ICUEscape t.

Lemma add_plain id t d : Forall plainRef (add id t d).
Proof.
  unfold add. destruct (String.eqb_spec t EmptyString); [constructor|].
  constructor; [|constructor]. by exists t.
Qed.

Lemma flat_map_Forall {A} (P : Ref -> Prop) (f : A -> list Ref) l :
  (forall x, Forall P (f x)) -> Forall P (flat_map f l).
Proof. intros H. induction l; simpl; [constructor|]. by apply Forall_app. Qed.

Lemma named_Forall (P : Ref -> Prop) key f item :
  (forall n i, Forall P (f n i)) -> Forall P (named key f item).
Proof. intros H. unfold named. case_match; [constructor|apply H]. Qed.

Create HintDb derive.
#[local] Hint Resolve add_plain flat_map_Forall named_Forall : derive.

Lemma insertRef_perm r l : insertRef r l ≡ₚ r :: l.
Proof.
  induction l as [|x l IH]; simpl; [done|]. case_match; [|done]. rewrite IH. apply Permutation_swap.
Qed.

Lemma sortRefs_perm l : sortRefs l ≡ₚ l.
Proof. induction l as [|r l IH]; simpl; [done|]. by rewrite insertRef_perm, IH. Qed.

Definition idLe (a b : Ref) : Prop := String.ltb (ID b) (ID a) = false.

Lemma compare_flip a b : String.compare a b = CompOpp (String.compare b a).
Proof. apply String.compare_antisym. Qed.

Lemma ltb_asym a b : String.ltb a b = true -> String.ltb b a = false.
Proof. unfold String.ltb. rewrite (compare_flip b a). by destruct (String.compare a b). Qed.

Lemma insertRef_sorted r l : LocallySorted idLe l -> LocallySorted idLe (insertRef r l).
Proof.
  induction 1 as [|x|x y l Hs IH Hxy]; simpl.
  - constructor.
  - destruct (String.ltb (ID x) (ID r)) eqn:E; repeat constructor; [|done]. by apply ltb_asym.
  - simpl in IH. destruct (String.ltb (ID x) (ID r)) eqn:E1; [|by repeat constructor].
    destruct (String.ltb (ID y) (ID r)) eqn:E2; [by constructor|].
    constructor; [done|]. by apply ltb_asym.
Qed.

Lemma sortRefs_sorted l : LocallySorted idLe (sortRefs l).
Proof. induction l as [|r l IH]; simpl; [constructor|]. by apply insertRef_sorted. Qed.

Lemma Derive_plain Quote module template : Forall plainRef (Derive Quote module template).
Proof.
  unfold Derive. rewrite sortRefs_perm. rewrite !Forall_app. split_and!; auto with derive.
  - apply flat_map_Forall. intros v. apply named_Forall. intros. apply add_plain.
  - apply flat_map_Forall. intros v. apply named_Forall. intros n i. unfold configRefs.
    rewrite !Forall_app. split_and!; auto with derive.
  - apply flat_map_Forall. intros v. apply named_Forall. intros n i. unfold actionRefs.
    rewrite !Forall_app. split_and!; auto with derive. apply flat_map_Forall. intros p.
    apply named_Forall. intros pn pi. unfold paramRefs. rewrite !Forall_app. split_and!; auto with derive.
  - apply flat_map_Forall. intros v. apply add_plain.
  - apply flat_map_Forall. intros v. apply named_Forall. intros. apply add_plain.
Qed.

(** ** Theorems *)

(** [Unescape] inverts [Escape], and an escaped segment holds no dot. *)
Lemma id_escape_roundtrip s : Unescape (Escape s) = s /\ free_of "."%char (Escape s) = true.
Proof.
  unfold Unescape. rewrite Escape_bytes. split; [by rewrite unescape_dots, unescape_tildes|].
  apply mapBytes_all. intros c. unfold escByte. destruct (Ascii.eqb_spec c "~"%char); [done|].
  destruct (Ascii.eqb_spec c "."%char); [done|]. simpl. by destruct (Ascii.eqb_spec c "."%char).
Qed.

(** The references of a module come sorted by id, and each is plain text for
    the message format: it parses, without placeholder or tag, and renders as
    the text of the module, which is not empty. *)
Lemma derived_references_plain {L F T O} `{X : XText L F T O} Quote module template (lg : L)
    (a : gmap string (any F T O)) :
  LocallySorted idLe (Derive Quote module template) /\
  Forall (fun r => exists m, Parse (English r) = Ok m /\ Arguments_ m = ∅ /\ Tags m = ∅ /\
            Format m lg a <> EmptyString /\ English r = ICUEscape (Format m lg a))
    (Derive Quote module template).
Proof.
  split; [apply sortRefs_sorted|]. eapply Forall_impl; [apply Derive_plain|].
  intros r (t & Ht & ->). destruct (ICUEscape_literal t lg a) as (m & H1 & H2 & H3 & H4).
  exists m. by rewrite H4.
Qed.
