(* ===== verification/LangPack.v ===== *)
(** * pack and catalog: language packs and the lookup of their messages

    i18n/pack (validation, completeness, stamping) and i18n/catalog (loading
    and lookup with its cache of parsed messages).  A pack is a finite map from
    message ids to entries.  Decoding the JSON files is left to the caller: a
    directory carries the entries and the descriptor it decodes to.  SHA-256 and
    the Unicode case tables are section variables. *)

From Stdlib Require Import Ascii QArith.
From S2P Require Import Prelude GoText GoToken Icu.
Local Open Scope string_scope.
Local Open Scope Z_scope.

(** ** Entries and findings *)

Record Entry := MkEntry { DefaultMessage : string; EDescription : string; ESourceHash : string }.
Record Meta := MkMeta { MTag : string; NativeName : string; EnglishName : string; Direction : string }.

#[export] Instance Entry_eq_dec : EqDecision Entry.
Proof. solve_decision. Defined.

Inductive Severity := SeverityError | SeverityInfo.
Record Finding := MkFinding {
  Code : string; FSeverity : Severity; File : string; FID : string; FMessage : string }.

Definition errorFinding (code file id msg : string) : Finding :=
  MkFinding code SeverityError file id msg.

(** [SyntaxError.Error] *)
Definition perrText (e : perr) : string :=
  match e with
  | SyntaxError off msg => "offset " +:+ Itoa off +:+ ": " +:+ msg
  | Fuel => EmptyString
  end.

(** ** Sets of names *)

(** [setDifference] *)
Definition setDifference (a b : gset string) : list string := SortedKeys (a ∖ b).

(** [sameSet]: the same size, and every member of [a] in [b]. *)
Definition sameSet (a b : gset string) : bool :=
  bool_decide (size a = size b) && bool_decide (set_Forall (fun k => k ∈ b) a).

Fixpoint braceList (names : list string) : string :=
  match names with
  | [] => EmptyString
  | [n] => "{" +:+ n +:+ "}"
  | n :: names' => "{" +:+ n +:+ "}" +:+ ", " +:+ braceList names'
  end.

(** [sortedEntryIDs] *)
Definition sortedEntryIDs (m : gmap string Entry) : list string := SortedKeys (dom m).

(** ** Language tags *)

Definition lowerAZ (c : Ascii.ascii) : bool := in_range 97 122 (byte_of_ascii c).
Definition upperAZ (c : Ascii.ascii) : bool := in_range 65 90 (byte_of_ascii c).

(** The three parts of [tagRE]. *)
Definition langPart (s : string) : bool :=
  ((String.length s =? 2) || (String.length s =? 3))%nat && str_all lowerAZ s.
Definition scriptPart (s : string) : bool :=
  match s with
  | String c s' => upperAZ c && (String.length s' =? 3)%nat && str_all lowerAZ s'
  | EmptyString => false
  end.
Definition regionPart (s : string) : bool :=
  ((String.length s =? 2)%nat && str_all upperAZ s) || ((String.length s =? 3)%nat && str_all isDigit s).

(** [ValidTag] *)
Definition ValidTag (t : string) : bool :=
  match split_on "-"%char t with
  | [l] => langPart l
  | [l; x] => langPart l && (scriptPart x || regionPart x)
  | [l; s; r] => langPart l && scriptPart s && regionPart r
  | _ => false
  end.


(** ** Markup *)

(** [entityRE] at the start of [s], and anywhere in it. *)
Definition entityAt (s : string) : bool :=
  match s with
  | String a (String b s') =>
      Ascii.eqb a "&"%char && (isLetter b || Ascii.eqb b "#"%char) &&
      match (span (fun c => isLetter c || isDigit c) s').2 with
      | String e _ => Ascii.eqb e ";"%char
      | EmptyString => false
      end
  | _ => false
  end.
Fixpoint hasEntity (s : string) : bool :=
  entityAt s || match s with String _ s' => hasEntity s' | EmptyString => false end.

Section Pack.
(** [unicode.ToLower] above ASCII, and [SourceHash]. *)
Variable uni : Z -> Z.
Variable SourceHash : string -> string.

(** [CheckMarkup]: the problem, or nothing. *)
Definition CheckMarkup (raw : string) (m : Message) : option string :=
  match List.find (fun name => negb (String.eqb name "b" || String.eqb name "link")) (SortedKeys (Tags m)) with
  | Some name => Some ("uses tag <" +:+ name +:+ ">; only <b> and <link> are allowed")
  | None =>
      if hasEntity raw then Some "contains an HTML entity"
      else if Contains (ToLower uni raw) "javascript:" then Some "contains a javascript: link"
      else if Contains (ToLower uni raw) "<script" then Some "contains a script tag"
      else None
  end.

(** The findings of one reference entry. *)
Definition referenceFindings (file id : string) (e : Entry) : list Finding :=
  app
    (match Parse (DefaultMessage e) with
     | Err err => [errorFinding "icu-syntax" file id ("does not parse: " +:+ perrText err)]
     | Ok m => match CheckMarkup (DefaultMessage e) m with
               | Some msg => [errorFinding "markup" file id msg]
               | None => []
               end
     end)
    (if String.eqb (TrimSpace (EDescription e)) EmptyString
     then [errorFinding "missing-description" file id "has no translator note (description)"] else []).

Definition ValidateReference (ref : gmap string Entry) (file : string) : list Finding :=
  flat_map (fun id => match ref !! id with Some e => referenceFindings file id e | None => [] end)
    (sortedEntryIDs ref).

(** [ValidateMeta] on a descriptor that decoded, or on the decoding error;
    [Quote] is the %q of fmt. *)
Definition ValidateMeta (Quote : string -> string) (parsed : result string Meta) (dirTag file : string) : list Finding :=
  let bad msg := [errorFinding "invalid-meta" file "<meta>" msg] in
  match parsed with
  | Err e => bad ("meta.json is not valid: " +:+ e)
  | Ok meta =>
      let nameFindings field name :=
        if String.eqb name EmptyString then bad ("missing required field " +:+ quoted field)
        else if (64 <? rune_count (bytes_of name))%nat then bad (field +:+ " is longer than 64 characters")
        else [] in
      app
        (if String.eqb (MTag meta) EmptyString then bad ("missing required field " +:+ quoted "tag")
         else app
           (if negb (ValidTag (MTag meta)) && negb (String.eqb (MTag meta) "en-XA")
            then bad ("tag " +:+ Quote (MTag meta) +:+ " is not a valid language tag") else [])
           (if negb (String.eqb dirTag EmptyString) && negb (String.eqb (MTag meta) dirTag)
            then bad ("tag " +:+ Quote (MTag meta) +:+ " does not match directory " +:+ Quote dirTag) else []))
        (app (nameFindings "nativeName" (NativeName meta))
        (app (nameFindings "englishName" (EnglishName meta))
           (if String.eqb (Direction meta) EmptyString then bad ("missing required field " +:+ quoted "direction")
            else if String.eqb (Direction meta) "ltr" || String.eqb (Direction meta) "rtl" then []
            else bad ("direction " +:+ Quote (Direction meta) +:+ " must be " +:+ quoted "ltr"
                      +:+ " or " +:+ quoted "rtl"))))
  end.

(** The placeholder findings of a translation that parses to [m]. *)
Definition placeholderFindings (file id : string) (refE : Entry) (m : Message) : list Finding :=
  match Parse (DefaultMessage refE) with
  | Err _ => []
  | Ok refM =>
      let missing := setDifference (Arguments_ refM) (Arguments_ m) in
      let extra := setDifference (Arguments_ m) (Arguments_ refM) in
      app
        (match missing with
         | [] => []
         | _ => [errorFinding "missing-placeholder" file id ("missing placeholder(s): " +:+ braceList missing)]
         end)
        (match extra with
         | [] => []
         | _ => [errorFinding "extra-placeholder" file id
                  ("placeholder(s) not in English: " +:+ braceList extra)]
         end)
  end.

(** The turn of [ValidateTranslation] for one id. *)
Definition translationFindings (ref : gmap string Entry) (file id : string) (e : Entry) : list Finding :=
  match ref !! id with
  | None => [errorFinding "unknown-id" file id "translation for an id the English reference no longer has"]
  | Some refE =>
      match Parse (DefaultMessage e) with
      | Err err => [errorFinding "icu-syntax" file id ("does not parse: " +:+ perrText err)]
      | Ok m =>
          let errors := app (placeholderFindings file id refE m)
            (match CheckMarkup (DefaultMessage e) m with
             | Some msg => [errorFinding "markup" file id msg]
             | None => []
             end) in
          match errors with
          | _ :: _ => errors
          | [] =>
              if negb (String.eqb (ESourceHash e) EmptyString)
                 && negb (String.eqb (ESourceHash e) (SourceHash (DefaultMessage refE)))
              then [MkFinding "needs-review" SeverityInfo file id
                      "English text changed since this was translated; please review"]
              else []
          end
      end
  end.

Definition ValidateTranslation (ref tr : gmap string Entry) (file : string) : list Finding :=
  flat_map (fun id => match tr !! id with Some e => translationFindings ref file id e | None => [] end)
    (sortedEntryIDs tr).

(** ** Completeness *)

Inductive Status := StatusTranslated | StatusNeedsReview | StatusInvalid | StatusMissing.

(** [EntryStatus]; [None] is an entry that is not present. *)
Definition EntryStatus (ref : Entry) (tr : option Entry) : Status :=
  match tr with
  | None => StatusMissing
  | Some tr =>
      if String.eqb (DefaultMessage tr) EmptyString then StatusMissing
      else match Parse (DefaultMessage tr) with
      | Err _ => StatusInvalid
      | Ok trM =>
          if match Parse (DefaultMessage ref) with
             | Ok refM => negb (sameSet (Arguments_ refM) (Arguments_ trM))
             | Err _ => false
             end then StatusInvalid
          else match CheckMarkup (DefaultMessage tr) trM with
          | Some _ => StatusInvalid
          | None =>
              if negb (String.eqb (ESourceHash tr) EmptyString)
                 && negb (String.eqb (ESourceHash tr) (SourceHash (DefaultMessage ref)))
              then StatusNeedsReview else StatusTranslated
          end
      end
  end.

Definition usable (s : Status) : bool :=
  match s with StatusTranslated | StatusNeedsReview => true | _ => false end.

Definition Statuses (ref tr : gmap string Entry) : gmap string Status :=
  map_imap (fun id refE => Some (EntryStatus refE (tr !! id))) ref.

(** [Completeness], as the fraction the floats stand for. *)
Definition Completeness (ref tr : gmap string Entry) : Q :=
  match size ref with
  | O => 100
  | S n => Qmake (Z.of_nat (length (List.filter (fun p => usable p.2) (map_to_list (Statuses ref tr)))) * 100)
             (Pos.of_succ_nat n)
  end%Q.

Definition ListingThreshold : Q := 80.

(** [pack.Listed] *)
Definition Listed (t : string) (meta : Meta) (completeness : Q) : bool :=
  if String.eqb t "en" then true
  else Qle_bool ListingThreshold completeness && String.eqb (Direction meta) "ltr"
       && negb (String.eqb t "en-XA").

Definition Valid (ref tr : gmap string Entry) : gmap string Entry :=
  map_imap (fun id e => match ref !! id with
                        | None => None
                        | Some refE => if usable (EntryStatus refE (Some e)) then Some e else None
                        end) tr.

(** The entry [Stamp] replaces [entry] by, when it does. *)
Definition stampEntry (ref : gmap string Entry) (id : string) (entry : Entry) : option Entry :=
  match ref !! id with
  | None => None
  | Some r =>
      if negb (String.eqb (ESourceHash entry) EmptyString) then None
      else match EntryStatus r (Some entry) with
      | StatusTranslated =>
          Some (MkEntry (DefaultMessage entry) (EDescription entry) (SourceHash (DefaultMessage r)))
      | _ => None
      end
  end.

Definition Stamp (ref tr : gmap string Entry) : gmap string Entry * bool :=
  (map_imap (fun id e => Some (default e (stampEntry ref id e))) tr,
   existsb (fun p => match stampEntry ref p.1 p.2 with Some _ => true | None => false end) (map_to_list tr)).

(** ** The catalog *)

Record Catalog := MkCatalog {
  reference : string;
  packs : gmap string (gmap string Entry);
  meta : gmap string Meta;
  completeness : gmap string Q;
  cache : gmap (string * string) Message
}.

(** A directory under locales/: its app.json and meta.json as they decode. *)
Inductive metaRead := MetaOk (m : Meta) | MetaNotExist | MetaBad.
Record dir := MkDir { isDir : bool; name : string; entries : option (gmap string Entry); metaFile : metaRead }.

Inductive loadErr := BadReference | BadReferenceMeta | NoReference.

Record languagePack := MkPack { lpTag : string; lpEntries : gmap string Entry; lpMeta : Meta }.

(** The loop over the directories: the reference once seen, and the others. *)
Fixpoint loadDirs (ref : string) (dirs : list dir)
    (seen : option (gmap string Entry * Meta)) (others : list languagePack)
  : result loadErr (option (gmap string Entry * Meta) * list languagePack) :=
  match dirs with
  | [] => Ok (seen, others)
  | d :: dirs' =>
      if negb (isDir d) then loadDirs ref dirs' seen others
      else if String.eqb (name d) ref then
        match entries d, metaFile d with
        | None, _ => Err BadReference
        | Some _, MetaBad => Err BadReferenceMeta
        | Some es, MetaOk m => loadDirs ref dirs' (Some (es, m)) others
        | Some es, MetaNotExist =>
            loadDirs ref dirs' (Some (es, MkMeta ref EmptyString EmptyString "ltr")) others
        end
      else match entries d, metaFile d with
      | Some es, MetaOk m =>
          if String.eqb (MTag m) (name d)
          then loadDirs ref dirs' seen (app others [MkPack (name d) es m])
          else loadDirs ref dirs' seen others
      | _, _ => loadDirs ref dirs' seen others
      end
  end.

Definition addPack (refEntries : gmap string Entry) (c : Catalog) (p : languagePack) : Catalog :=
  MkCatalog (reference c)
    (<[lpTag p := Valid refEntries (lpEntries p)]> (packs c))
    (<[lpTag p := lpMeta p]> (meta c))
    (<[lpTag p := Completeness refEntries (lpEntries p)]> (completeness c)) (cache c).

Definition Load (ref : string) (dirs : list dir) : result loadErr Catalog :=
  match loadDirs ref dirs None [] with
  | Err e => Err e
  | Ok (None, _) => Err NoReference
  | Ok (Some (refEntries, refMeta), others) =>
      Ok (fold_left (addPack refEntries) others
            (MkCatalog ref {[ref := refEntries]} {[ref := refMeta]} {[ref := 100%Q]} ∅))
  end.

(** [Catalog.Tags]: the reference first, the rest sorted. *)
Definition CTags (c : Catalog) : list string :=
  let others := SortedKeys (dom (packs c) ∖ {[reference c]}) in
  match packs c !! reference c with Some _ => reference c :: others | None => others end.

Definition IsListed (c : Catalog) (t : string) : bool :=
  match completeness c !! t with
  | None => false
  | Some comp =>
      if String.eqb t (reference c) then true
      else Listed t (default (MkMeta EmptyString EmptyString EmptyString EmptyString) (meta c !! t)) comp
  end.

Definition CListed (c : Catalog) : list string := List.filter (IsListed c) (CTags c).

(** [Catalog.parse]: the message, and the catalog with its cache after. *)
Definition parse (c : Catalog) (key id text : string) : result perr Message * Catalog :=
  match cache c !! (key, id) with
  | Some msg => (Ok msg, c)
  | None =>
      match Parse text with
      | Err e => (Err e, c)
      | Ok msg =>
          (Ok msg, MkCatalog (reference c) (packs c) (meta c) (completeness c)
                     (<[(key, id) := msg]> (cache c)))
      end
  end.

Definition packEntry (c : Catalog) (key id : string) : option Entry := packs c !! key ≫= (.!! id).

Section Lookup.
Context {L F T O : Type} `{X : XText L F T O}.
(** [language.Make] *)
Variable Make : string -> L.

(** The keys [Lookup] tries, each once. *)
Fixpoint dedup (seen keys : list string) : list string :=
  match keys with
  | [] => []
  | k :: keys' => if bool_decide (k ∈ seen) then dedup (seen ++ [k])%list keys'
                  else k :: dedup (seen ++ [k])%list keys'
  end.

Fixpoint lookupKeys (c : Catalog) (keys : list string) (id : string) (args : gmap string (any F T O))
  : option string * Catalog :=
  match keys with
  | [] => (None, c)
  | key :: keys' =>
      match packEntry c key id with
      | None => lookupKeys c keys' id args
      | Some e =>
          match parse c key id (DefaultMessage e) with
          | (Err _, c') => lookupKeys c' keys' id args
          | (Ok msg, c') => (Some (Format msg (Make key) args), c')
          end
      end
  end.

(** [Catalog.Lookup] for the tag that prints as [t], of base language
    [base]; [None] is [ok = false]. *)
Definition Lookup (c : Catalog) (t base id : string) (args : gmap string (any F T O))
  : option string * Catalog :=
  lookupKeys c (dedup [] [t; base; reference c]) id args.
End Lookup.
End Pack.
