(* ===== verification/LangPackFacts.v ===== *)
(** * pack and catalog: what validation, loading and lookup promise

    - [validation_matches_loading]: a pack validates without an error exactly
      when loading drops none of its entries;
    - [valid_entries_safe]: what loading keeps has the placeholders of the
      English text and only the allowed tags;
    - [stamp_stable]: stamping is idempotent and changes no status;
    - [lookup_history_independent], [lookup_english_placeholders]: the cache of
      the catalog is invisible, and a text depends only on the placeholders of
      the English message. *)

From Stdlib Require Import Ascii QArith.
From S2P Require Import Prelude GoText GoToken Icu Modlocale IcuFacts LangPack.
Local Open Scope string_scope.
Local Open Scope Z_scope.

(** ** Sets of names *)

Lemma SortedKeys_elem (s : gset string) x : x ∈ SortedKeys s <-> x ∈ s.
Proof. unfold SortedKeys. by rewrite merge_sort_Permutation, elem_of_elements. Qed.

Lemma SortedKeys_nil (s : gset string) : SortedKeys s = [] <-> s = ∅.
Proof.
  split; [|by intros ->]. intros H. apply set_eq. intros x. rewrite <- SortedKeys_elem, H. set_solver.
Qed.

Lemma setDifference_nil a b : setDifference a b = [] <-> a ⊆ b.
Proof.
  unfold setDifference. rewrite SortedKeys_nil.
  split; [apply empty_difference_subseteq_L|apply subseteq_empty_difference_L].
Qed.

Lemma sameSet_eq a b : sameSet a b = true <-> a = b.
Proof.
  unfold sameSet. rewrite andb_true_iff, !bool_decide_eq_true. split.
  - intros [Hs Hsub]. apply set_eq. apply set_subseteq_antisymm; [exact Hsub|].
    assert (E : size (b ∖ a) = 0%nat) by (rewrite size_difference by exact Hsub; lia).
    apply size_empty_inv in E. set_solver.
  - intros ->. split; [done|]. by intros x.
Qed.

Lemma NoDup_sortedEntryIDs m id : id ∈ sortedEntryIDs m <-> is_Some (m !! id).
Proof. unfold sortedEntryIDs. by rewrite SortedKeys_elem, elem_of_dom. Qed.

(** ** Findings and statuses *)

Definition isInfo (f : Finding) : bool := match FSeverity f with SeverityInfo => true | _ => false end.

Lemma placeholderFindings_spec file id refE m :
  match Parse (DefaultMessage refE) with
  | Ok refM => negb (sameSet (Arguments_ refM) (Arguments_ m))
  | Err _ => false
  end = match placeholderFindings file id refE m with [] => false | _ => true end /\
  forallb (fun f => negb (isInfo f)) (placeholderFindings file id refE m) = true.
Proof.
  unfold placeholderFindings. destruct (Parse (DefaultMessage refE)) as [refM|e]; [|done].
  destruct (setDifference (Arguments_ refM) (Arguments_ m)) eqn:E1,
    (setDifference (Arguments_ m) (Arguments_ refM)) eqn:E2; simpl; (split; [|done]).
  - apply setDifference_nil in E1, E2. apply negb_false_iff, sameSet_eq. set_solver.
  - apply negb_true_iff, not_true_iff_false. rewrite sameSet_eq. intros Heq.
    rewrite Heq in E2. by rewrite (proj2 (setDifference_nil _ _)) in E2.
  - apply negb_true_iff, not_true_iff_false. rewrite sameSet_eq. intros Heq.
    rewrite Heq in E1. by rewrite (proj2 (setDifference_nil _ _)) in E1.
  - apply negb_true_iff, not_true_iff_false. rewrite sameSet_eq. intros Heq.
    rewrite Heq in E1. by rewrite (proj2 (setDifference_nil _ _)) in E1.
Qed.

Section PackFacts.
Context (uni : Z -> Z) (SourceHash : string -> string).
Abbreviation CheckMarkup := (CheckMarkup uni).
Abbreviation EntryStatus := (EntryStatus uni SourceHash).
Abbreviation translationFindings := (translationFindings uni SourceHash).
Abbreviation ValidateTranslation := (ValidateTranslation uni SourceHash).
Abbreviation Valid := (Valid uni SourceHash).

(** The findings of an entry say what its status says. *)
Lemma findings_status ref file id r e :
  ref !! id = Some r -> DefaultMessage e <> EmptyString ->
  match EntryStatus r (Some e) with
  | StatusTranslated => translationFindings ref file id e = []
  | StatusNeedsReview => exists f, translationFindings ref file id e = [f] /\ isInfo f = true
  | StatusInvalid => translationFindings ref file id e <> [] /\
      forallb (fun f => negb (isInfo f)) (translationFindings ref file id e) = true
  | StatusMissing => False
  end.
Proof.
  intros Hr He. unfold EntryStatus, translationFindings. rewrite Hr.
  destruct (String.eqb_spec (DefaultMessage e) EmptyString); [done|].
  destruct (Parse (DefaultMessage e)) as [m|err]; [|done].
  destruct (placeholderFindings_spec file id r m) as [-> Hp].
  destruct (placeholderFindings file id r m) as [|f fs].
  - simpl. destruct (CheckMarkup (DefaultMessage e) m); [done|].
    destruct (negb _ && negb _); [|done]. eexists. split; [done|done].
  - split; [done|]. simpl in *. rewrite forallb_app. apply andb_true_iff in Hp as [-> ->].
    by destruct (CheckMarkup (DefaultMessage e) m).
Qed.

Lemma Valid_lookup ref tr id e :
  Valid ref tr !! id = Some e <->
  tr !! id = Some e /\ exists r, ref !! id = Some r /\ usable (EntryStatus r (Some e)) = true.
Proof.
  unfold LangPack.Valid. rewrite map_lookup_imap.
  destruct (tr !! id) as [e'|]; cbn [mbind option_bind]; [|by split; [|intros [? _]]].
  destruct (ref !! id) as [r|]; [|by split; [|intros (_ & ? & ? & _)]].
  destruct (usable (EntryStatus r (Some e'))) eqn:Eu; split.
  - intros [= ->]. split; [done|]. by exists r.
  - by intros [[= ->] _].
  - done.
  - intros ([= ->] & r' & [= ->] & Hu). congruence.
Qed.

Lemma infos_status ref file id e :
  DefaultMessage e <> EmptyString ->
  forallb isInfo (translationFindings ref file id e) = true <->
  exists r, ref !! id = Some r /\ usable (EntryStatus r (Some e)) = true.
Proof.
  intros He. destruct (ref !! id) as [r|] eqn:Er.
  - pose proof (findings_status ref file id r e Er He) as H.
    destruct (EntryStatus r (Some e)) eqn:Es.
    + rewrite H. split; [|done]. intros _. exists r. by rewrite Es.
    + destruct H as (f & -> & Hf). split; [intros _; exists r; by rewrite Es|]. intros _. simpl. by rewrite Hf.
    + destruct H as [Hne Hall]. split; [|intros (r' & [= <-] & Hu); by rewrite Es in Hu].
      destruct (translationFindings ref file id e) as [|f fs]; [done|]. simpl in *.
      by destruct (isInfo f).
    + done.
  - unfold translationFindings. rewrite Er. split; [done|]. by intros (r & ? & _).
Qed.

Lemma infos_all ref tr file :
  forallb isInfo (ValidateTranslation ref tr file) = true <->
  forall id e, tr !! id = Some e -> forallb isInfo (translationFindings ref file id e) = true.
Proof.
  unfold ValidateTranslation. rewrite forallb_forall. split.
  - intros H id e He. apply forallb_forall. intros f Hf. apply H, in_flat_map. exists id.
    rewrite He. split; [|done]. apply list_elem_of_In, NoDup_sortedEntryIDs. by rewrite He.
  - intros H f Hf. apply in_flat_map in Hf as (id & _ & Hf).
    destruct (tr !! id) as [e|] eqn:He; [|done]. specialize (H id e He).
    rewrite forallb_forall in H. by apply H.
Qed.

Lemma Valid_sub ref tr : Valid ref tr ⊆ tr.
Proof. apply map_subseteq_spec. intros id e. by rewrite Valid_lookup; intros [? _]. Qed.

(** ** Tags *)

Lemma CheckMarkup_tags raw m : CheckMarkup raw m = None -> Tags m ⊆ {["b"; "link"]}.
Proof.
  unfold CheckMarkup. destruct (List.find _ _) eqn:E; [done|]. intros _ x Hx.
  apply SortedKeys_elem, list_elem_of_In in Hx. pose proof (find_none _ _ E x Hx) as H. simpl in H.
  apply negb_false_iff, orb_true_iff in H. rewrite !String.eqb_eq in H. set_solver.
Qed.

Lemma usable_spec r e : usable (EntryStatus r (Some e)) = true ->
  exists m, Parse (DefaultMessage e) = Ok m /\ CheckMarkup (DefaultMessage e) m = None /\
    (forall rm, Parse (DefaultMessage r) = Ok rm -> Arguments_ m = Arguments_ rm).
Proof.
  unfold EntryStatus. destruct (String.eqb _ _); [done|].
  destruct (Parse (DefaultMessage e)) as [m|]; [|done]. intros H. exists m. split; [done|].
  destruct (Parse (DefaultMessage r)) as [rm|].
  - destruct (sameSet (Arguments_ rm) (Arguments_ m)) eqn:Es; [|done]. simpl in H.
    apply sameSet_eq in Es. split; [by destruct (CheckMarkup _ _)|]. by intros rm' [= <-].
  - split; [by destruct (CheckMarkup _ _)|done].
Qed.

(** ** Stamping *)

Abbreviation stampEntry := (stampEntry uni SourceHash).
Abbreviation Stamp := (Stamp uni SourceHash).

Lemma EntryStatus_hash r d e h :
  usable (EntryStatus r (Some (MkEntry (DefaultMessage e) d h))) = usable (EntryStatus r (Some e)).
Proof.
  unfold LangPack.EntryStatus. cbn [DefaultMessage ESourceHash]. destruct (String.eqb _ _); [done|].
  destruct (Parse (DefaultMessage e)); [|done]. case_match; [done|].
  destruct (CheckMarkup _ _); [done|]. by repeat case_match.
Qed.

Lemma stampEntry_Some ref id e e' : stampEntry ref id e = Some e' ->
  exists r, ref !! id = Some r /\ EntryStatus r (Some e) = StatusTranslated /\
    e' = MkEntry (DefaultMessage e) (EDescription e) (SourceHash (DefaultMessage r)).
Proof.
  unfold LangPack.stampEntry. destruct (ref !! id) as [r|]; [|done]. destruct (negb _); [done|].
  destruct (EntryStatus r (Some e)) eqn:E; [|done..]. intros [= <-]. by exists r.
Qed.

(** A stamped entry is up to date with the English text it was stamped from. *)
Lemma stamped_translated r e :
  EntryStatus r (Some e) = StatusTranslated ->
  EntryStatus r (Some (MkEntry (DefaultMessage e) (EDescription e) (SourceHash (DefaultMessage r)))) =
  StatusTranslated.
Proof.
  unfold LangPack.EntryStatus. cbn [DefaultMessage ESourceHash]. destruct (String.eqb _ _); [done|].
  destruct (Parse (DefaultMessage e)); [|done]. case_match; [done|].
  destruct (CheckMarkup _ _); [done|]. by rewrite String.eqb_refl, andb_false_r.
Qed.

Lemma Stamp_lookup ref tr id :
  (Stamp ref tr).1 !! id = (fun e => default e (stampEntry ref id e)) <$> (tr !! id).
Proof. unfold LangPack.Stamp. cbn [fst]. rewrite map_lookup_imap. by destruct (tr !! id). Qed.

Lemma stampEntry_again ref id e :
  (forall t, SourceHash t <> EmptyString) ->
  stampEntry ref id (default e (stampEntry ref id e)) = None.
Proof.
  intros Hh. destruct (stampEntry ref id e) as [e'|] eqn:E; [|exact E]. change (default e (Some e')) with e'.
  destruct (stampEntry_Some _ _ _ _ E) as (r & Hr & _ & ->). unfold LangPack.stampEntry. rewrite Hr.
  cbn [ESourceHash]. destruct (String.eqb_spec (SourceHash (DefaultMessage r)) EmptyString); [|done].
  by destruct (Hh (DefaultMessage r)).
Qed.
End PackFacts.

(** ** Completeness *)

Lemma Statuses_size uni SourceHash ref tr : size (Statuses uni SourceHash ref tr) = size ref.
Proof.
  unfold Statuses. rewrite <- !size_dom. f_equal. apply set_eq. intros x.
  rewrite !elem_of_dom, map_lookup_imap. destruct (ref !! x); cbn; split; intros [? ?]; eauto; done.
Qed.

Lemma completeness_range uni SourceHash ref tr :
  (0 <= Completeness uni SourceHash ref tr)%Q /\ (Completeness uni SourceHash ref tr <= 100)%Q.
Proof.
  unfold Completeness. destruct (size ref) as [|n] eqn:E; [done|].
  pose proof (List.filter_length_le (fun p : string * Status => usable p.2)
    (map_to_list (Statuses uni SourceHash ref tr))) as H.
  rewrite length_map_to_list, Statuses_size, E in H. unfold Qle. cbn [Qnum Qden]. split; lia.
Qed.

(** ** The catalog *)

Section CatalogFacts.
Context (uni : Z -> Z) (SourceHash : string -> string).
Context {L F T O : Type} `{X : XText L F T O} (Make : string -> L).
Abbreviation Lookup := (Lookup Make).
Abbreviation lookupKeys := (lookupKeys Make).

(** A catalog that differs from [c] in its cache only, and whose cache holds
    what the packs parse to. *)
Definition cached (c c' : Catalog) : Prop :=
  reference c' = reference c /\ packs c' = packs c /\ meta c' = meta c /\
  completeness c' = completeness c /\
  (forall key id m, cache c' !! (key, id) = Some m ->
     exists e, packEntry c key id = Some e /\ Parse (DefaultMessage e) = Ok m).

(** The message a lookup settles on, without the cache. *)
Fixpoint resolve (c : Catalog) (keys : list string) (id : string) : option (string * Message) :=
  match keys with
  | [] => None
  | key :: keys' =>
      match packEntry c key id with
      | None => resolve c keys' id
      | Some e => match Parse (DefaultMessage e) with
                  | Ok m => Some (key, m)
                  | Err _ => resolve c keys' id
                  end
      end
  end.

Lemma parse_cached c c' key id e r c'' :
  cached c c' -> packEntry c key id = Some e -> parse c' key id (DefaultMessage e) = (r, c'') ->
  cached c c'' /\ match Parse (DefaultMessage e) with Ok m => r = Ok m | Err _ => exists x, r = Err x end.
Proof using Type.
  intros Hc He. pose proof Hc as (H1 & H2 & H3 & H4 & H5). unfold parse.
  destruct (cache c' !! (key, id)) as [m|] eqn:E.
  - intros [= <- <-]. split; [done|]. destruct (H5 _ _ _ E) as (e' & He' & Hm).
    rewrite He in He'. injection He' as <-. by rewrite Hm.
  - destruct (Parse (DefaultMessage e)) as [m|x] eqn:Ep; intros [= <- <-]; [|by split; [|eexists]].
    split; [|done]. split_and!; [done..|]. cbn [cache]. intros key' id' m'.
    destruct (decide ((key', id') = (key, id))) as [[= -> ->]|Hne].
    + rewrite lookup_insert_eq. intros [= <-]. by exists e.
    + rewrite lookup_insert_ne by done. apply H5.
Qed.

Lemma lookupKeys_resolve c c' keys id a :
  cached c c' ->
  (lookupKeys c' keys id a).1 = (fun km => Format km.2 (Make km.1) a) <$> resolve c keys id /\
  cached c (lookupKeys c' keys id a).2.
Proof using Type.
  revert c'. induction keys as [|key keys IH]; intros c' Hc; [done|]. cbn [LangPack.lookupKeys resolve].
  assert (Hp : packEntry c' key id = packEntry c key id).
  { unfold packEntry. by destruct Hc as (_ & -> & _). }
  rewrite Hp. destruct (packEntry c key id) as [e|] eqn:Ee; [|by apply IH].
  destruct (parse c' key id (DefaultMessage e)) as [r c''] eqn:Er.
  destruct (parse_cached _ _ _ _ _ _ _ Hc Ee Er) as [Hc'' Hr].
  destruct (Parse (DefaultMessage e)) as [m|x]; [by subst r|]. destruct Hr as [y ->]. by apply IH.
Qed.

(** Any number of lookups, in any order. *)
Inductive reachable (c : Catalog) : Catalog -> Prop :=
| reach_refl : reachable c c
| reach_step c' t base id a : reachable c c' -> reachable c (Lookup c' t base id a).2.

Lemma reachable_cached c c' : cache c = ∅ -> reachable c c' -> cached c c'.
Proof using Type.
  intros He. induction 1 as [|c' t base id a _ IH].
  - split_and!; [done..|]. intros key id m. by rewrite He, lookup_empty.
  - unfold LangPack.Lookup. by apply lookupKeys_resolve.
Qed.

Lemma resolve_in c keys id key m : resolve c keys id = Some (key, m) ->
  exists e, packEntry c key id = Some e /\ Parse (DefaultMessage e) = Ok m.
Proof using Type.
  induction keys as [|k keys IH]; [done|]. cbn [resolve].
  destruct (packEntry c k id) as [e|] eqn:Ee; [|done].
  destruct (Parse (DefaultMessage e)) as [m'|] eqn:Ep; [|done]. intros [= <- <-]. by exists e.
Qed.

Lemma resolve_None c keys id : resolve c keys id = None ->
  forall key e, key ∈ keys -> packEntry c key id = Some e -> is_ok (Parse (DefaultMessage e)) = false.
Proof using Type.
  induction keys as [|k keys IH]; cbn [resolve]; [by intros _ ?? ?%elem_of_nil|].
  intros H key e [->|Hin]%elem_of_cons He.
  - rewrite He in H. by destruct (Parse (DefaultMessage e)).
  - destruct (packEntry c k id); [|by eapply IH]. destruct (Parse _); [done|by eapply IH].
Qed.

(** ** Loading *)

Abbreviation Load := (Load uni SourceHash).

(** What a loaded catalog holds for [tag]: the reference as it is, any other
    pack reduced to its valid entries. *)
Definition loadedOk (ref : string) (refEntries : gmap string Entry) (c : Catalog) : Prop :=
  reference c = ref /\ cache c = ∅ /\
  (forall t es, packs c !! t = Some es ->
     (t = ref /\ es = refEntries) \/ exists tr, es = Valid uni SourceHash refEntries tr).

Lemma loadDirs_others ref dirs seen others r :
  Forall (fun p => lpTag p <> ref) others -> loadDirs ref dirs seen others = Ok r ->
  Forall (fun p => lpTag p <> ref) r.2.
Proof using Type.
  revert seen others. induction dirs as [|d dirs IH]; intros seen others Ho; cbn [loadDirs].
  { by intros [= <-]. }
  destruct (negb (isDir d)); [by apply IH|]. destruct (String.eqb_spec (name d) ref).
  - destruct (entries d); [|done]. destruct (metaFile d); by try apply IH.
  - destruct (entries d); [|by apply IH]. destruct (metaFile d); try by apply IH.
    destruct (String.eqb _ _); [|by apply IH]. apply IH, Forall_app. by split; [|constructor].
Qed.

Lemma addPacks_loaded ref refEntries others : Forall (fun p => lpTag p <> ref) others -> forall c,
  loadedOk ref refEntries c -> packs c !! ref = Some refEntries ->
  loadedOk ref refEntries (fold_left (addPack uni SourceHash refEntries) others c) /\
  packs (fold_left (addPack uni SourceHash refEntries) others c) !! ref = Some refEntries.
Proof using Type.
  induction 1 as [|p others Hp _ IH]; intros c (H1 & H2 & H3) Hr; [done|]. cbn [fold_left]. apply IH.
  - split_and!; [done..|]. cbn [packs addPack]. intros t es.
    destruct (decide (t = lpTag p)) as [->|].
    + rewrite lookup_insert_eq. intros [= <-]. right. by eexists.
    + rewrite lookup_insert_ne by done. apply H3.
  - cbn [packs addPack]. by rewrite lookup_insert_ne by done.
Qed.

Lemma Load_ok ref dirs c : Load ref dirs = Ok c ->
  exists refEntries, loadedOk ref refEntries c /\ packs c !! ref = Some refEntries.
Proof using Type.
  unfold LangPack.Load. destruct (loadDirs ref dirs None []) as [[[[es m]|] others]|e] eqn:E; [|done|done].
  intros [= <-]. exists es. apply addPacks_loaded.
  - by apply (loadDirs_others _ _ _ _ _ (Forall_nil_2 _) E).
  - split_and!; [done..|]. cbn [packs]. intros t es' [-> ->]%lookup_singleton_Some. by left.
  - cbn [packs]. by rewrite lookup_singleton_eq.
Qed.

(** The message of a loaded catalog has the placeholders of the English one. *)
Lemma loaded_placeholders ref refEntries c key id e re rm m :
  loadedOk ref refEntries c -> packEntry c key id = Some e -> Parse (DefaultMessage e) = Ok m ->
  refEntries !! id = Some re -> Parse (DefaultMessage re) = Ok rm -> Arguments_ m = Arguments_ rm.
Proof using Type.
  intros (_ & _ & Hp) He Hm Hre Hrm. unfold packEntry in He.
  destruct (packs c !! key) as [es|] eqn:Ek; [|done]. cbn in He.
  destruct (Hp _ _ Ek) as [[-> ->]|[tr ->]]; [congruence|].
  apply Valid_lookup in He as (_ & r & Hr & Hu). rewrite Hre in Hr. injection Hr as <-.
  destruct (usable_spec _ _ _ _ Hu) as (m' & Hm' & _ & Ha). rewrite Hm in Hm'. injection Hm' as <-.
  by apply Ha.
Qed.

(** ** Theorems *)

(** Whatever was looked up before, a lookup in a loaded catalog returns what
    it returns in the catalog as loaded: the cache of parsed messages is
    invisible. *)
Lemma lookup_history_independent ref dirs c c' t base id a :
  Load ref dirs = Ok c -> reachable c c' -> (Lookup c' t base id a).1 = (Lookup c t base id a).1.
Proof using Type.
  intros Hl Hr. destruct (Load_ok _ _ _ Hl) as (es & (H1 & H2 & _) & _).
  pose proof (reachable_cached _ _ H2 Hr) as Hc.
  pose proof (reachable_cached _ _ H2 (reach_refl c)) as Hc0. unfold LangPack.Lookup.
  rewrite (proj1 (lookupKeys_resolve _ _ _ _ _ Hc)), (proj1 (lookupKeys_resolve _ _ _ _ _ Hc0)).
  by destruct Hc as (-> & _).
Qed.

(** C24. When the English message of an id parses, the lookup of the id succeeds
    in every language, and its text depends on the arguments only through the
    placeholders of the English message. *)
Theorem lookup_english_placeholders ref dirs c c' t base id e rm a1 a2 :
  Load ref dirs = Ok c -> reachable c c' ->
  packEntry c ref id = Some e -> Parse (DefaultMessage e) = Ok rm ->
  (forall x, x ∈ Arguments_ rm -> a1 !! x = a2 !! x) ->
  exists text, (Lookup c' t base id a1).1 = Some text /\ (Lookup c' t base id a2).1 = Some text.
Proof using Type.
  intros Hl Hr He Hrm Ha. destruct (Load_ok _ _ _ Hl) as (es & Hok & Hes). pose proof Hok as (H1 & H2 & _).
  pose proof (reachable_cached _ _ H2 Hr) as Hc. unfold LangPack.Lookup.
  rewrite !(proj1 (lookupKeys_resolve _ _ _ _ _ Hc)). destruct Hc as (-> & _). rewrite H1.
  destruct (resolve c (dedup [] [t; base; ref]) id) as [[key m]|] eqn:E.
  - exists (Format m (Make key) a1). split; [done|]. cbn. f_equal. symmetry.
    apply format_arguments. destruct (resolve_in _ _ _ _ _ E) as (e' & He' & Hm).
    assert (Hre : es !! id = Some e) by (unfold packEntry in He; by rewrite Hes in He).
    by rewrite (loaded_placeholders _ _ _ _ _ _ _ _ _ Hok He' Hm Hre Hrm).
  - assert (Hin : ref ∈ dedup [] [t; base; ref]).
    { cbn. repeat case_bool_decide; rewrite ?elem_of_cons in *; tauto || set_solver. }
    pose proof (resolve_None _ _ _ E ref e Hin He) as Hf. by rewrite Hrm in Hf.
Qed.
End CatalogFacts.

(** A pack whose entries all have a text validates without an error finding
    exactly when loading keeps every one of them. *)
Lemma validation_matches_loading uni SourceHash ref tr file :
  (forall id e, tr !! id = Some e -> DefaultMessage e <> EmptyString) ->
  forallb isInfo (ValidateTranslation uni SourceHash ref tr file) = true <->
  Valid uni SourceHash ref tr = tr.
Proof.
  intros Hne. rewrite infos_all. split.
  - intros H. apply map_eq. intros id. destruct (tr !! id) as [e|] eqn:E.
    + apply Valid_lookup. split; [done|]. eapply infos_status; [by eapply Hne|]. by apply H.
    + destruct (Valid uni SourceHash ref tr !! id) as [e|] eqn:Ev; [|done].
      apply Valid_lookup in Ev as [? _]. congruence.
  - intros H id e He. apply infos_status; [by eapply Hne|]. rewrite <- H in He.
    apply Valid_lookup in He. apply He.
Qed.

(** Every entry loading keeps parses, uses no tag but [b] and [link], and has
    exactly the placeholders of its English message when that parses. *)
Lemma valid_entries_safe uni SourceHash ref tr id e :
  Valid uni SourceHash ref tr !! id = Some e ->
  tr !! id = Some e /\ exists r m, ref !! id = Some r /\ Parse (DefaultMessage e) = Ok m /\
    Tags m ⊆ {["b"; "link"]} /\
    (forall rm, Parse (DefaultMessage r) = Ok rm -> Arguments_ m = Arguments_ rm).
Proof.
  intros (Htr & r & Hr & Hu)%Valid_lookup. split; [done|].
  destruct (usable_spec _ _ _ _ Hu) as (m & Hm & Hc & Ha). exists r, m.
  split_and!; [done..| |done]. by eapply CheckMarkup_tags.
Qed.

(** Stamping a stamped pack changes nothing, and stamping leaves every entry
    as usable as it was. *)
Lemma stamp_stable uni SourceHash ref tr :
  (forall t, SourceHash t <> EmptyString) ->
  Stamp uni SourceHash ref (Stamp uni SourceHash ref tr).1 = ((Stamp uni SourceHash ref tr).1, false) /\
  dom (Valid uni SourceHash ref (Stamp uni SourceHash ref tr).1) = dom (Valid uni SourceHash ref tr).
Proof.
  intros Hh. split.
  - rewrite (surjective_pairing (Stamp _ _ _ (Stamp _ _ _ _).1)). f_equal.
    + apply map_eq. intros id. rewrite !Stamp_lookup. destruct (tr !! id) as [e|]; [|done]. cbn.
      by rewrite stampEntry_again.
    + unfold Stamp at 1. cbn [snd]. apply not_true_iff_false. rewrite existsb_exists.
      intros ([id e] & Hin & H). apply list_elem_of_In, elem_of_map_to_list in Hin. cbn [fst snd] in H.
      rewrite Stamp_lookup in Hin. destruct (tr !! id) as [e0|]; [|done]. cbn in Hin. injection Hin as <-.
      by rewrite stampEntry_again in H.
  - apply set_eq. intros id. rewrite !elem_of_dom. unfold is_Some.
    assert (Hu : forall r e, ref !! id = Some r ->
      usable (EntryStatus uni SourceHash r (Some (default e (stampEntry uni SourceHash ref id e)))) =
      usable (EntryStatus uni SourceHash r (Some e))).
    { intros r e Hr. destruct (stampEntry uni SourceHash ref id e) as [e'|] eqn:E; [|done].
      destruct (stampEntry_Some _ _ _ _ _ _ E) as (r' & _ & _ & ->). apply EntryStatus_hash. }
    split; intros [e He]; apply Valid_lookup in He as (Ht & r & Hr & Husable).
    + rewrite Stamp_lookup in Ht. destruct (tr !! id) as [e0|] eqn:E0; [|done]. cbn in Ht. injection Ht as <-.
      exists e0. apply Valid_lookup. split; [done|]. exists r. split; [done|]. by rewrite <- Hu.
    + exists (default e (stampEntry uni SourceHash ref id e)). apply Valid_lookup.
      rewrite Stamp_lookup, Ht. split; [done|]. exists r. split; [done|]. by rewrite Hu.
Qed.

(** ** Witnesses *)

Definition demoRef : gmap string Entry := {["hi" := MkEntry "Hi {n}" "A greeting" EmptyString]}.
Definition demoFr : gmap string Entry := {["hi" := MkEntry "Salut <b>{n}</b>" EmptyString EmptyString]}.
Definition demoHash (s : string) : string := String "h"%char s.
Definition demoDirs : list dir :=
  [MkDir true "en" (Some demoRef) MetaNotExist;
   MkDir true "fr" (Some demoFr) (MetaOk (MkMeta "fr" "F" "F" "ltr"))].
Definition demoCatalog : Catalog :=
  MkCatalog "en" (<["fr" := demoFr]> {["en" := demoRef]})
    (<["fr" := MkMeta "fr" "F" "F" "ltr"]> {["en" := MkMeta "en" EmptyString EmptyString "ltr"]})
    (<["fr" := 100%Q]> {["en" := 100%Q]}) ∅.

Lemma validation_matches_loading_witness :
  forallb isInfo (ValidateTranslation id demoHash demoRef demoFr "fr") = true <->
  Valid id demoHash demoRef demoFr = demoFr.
Proof. apply validation_matches_loading. unfold demoFr. intros i e H. apply lookup_singleton_Some in H as [_ <-]. done. Defined.

Lemma valid_entries_safe_witness :
  demoFr !! "hi" = Some (MkEntry "Salut <b>{n}</b>" EmptyString EmptyString) /\
  exists r m, demoRef !! "hi" = Some r /\ Parse "Salut <b>{n}</b>" = Ok m /\ Tags m ⊆ {["b"; "link"]} /\
    (forall rm, Parse (DefaultMessage r) = Ok rm -> Arguments_ m = Arguments_ rm).
Proof.
  apply (valid_entries_safe id demoHash demoRef demoFr "hi"
    (MkEntry "Salut <b>{n}</b>" EmptyString EmptyString)). vm_compute. reflexivity.
Defined.

Lemma stamp_stable_witness :
  Stamp id demoHash demoRef (Stamp id demoHash demoRef demoFr).1 = ((Stamp id demoHash demoRef demoFr).1, false) /\
  dom (Valid id demoHash demoRef (Stamp id demoHash demoRef demoFr).1) = dom (Valid id demoHash demoRef demoFr).
Proof. apply stamp_stable. done. Defined.

#[local] Existing Instance noText.

Lemma lookup_history_independent_witness :
  (Lookup (fun _ => tt) (Lookup (fun _ => tt) demoCatalog "fr-CA" "fr" "hi" ∅).2 "fr" "fr" "hi" ∅).1 =
  (Lookup (fun _ => tt) demoCatalog "fr" "fr" "hi" ∅).1.
Proof.
  apply (lookup_history_independent id demoHash (fun _ => tt) "en" demoDirs demoCatalog).
  - vm_compute. reflexivity.
  - apply reach_step, reach_refl.
Defined.

Lemma lookup_english_placeholders_witness : exists text,
  (Lookup (fun _ => tt) demoCatalog "fr" "fr" "hi" (<["n" := GoInt 3]> (<["z" := GoInt 4]> ∅))).1 = Some text /\
  (Lookup (fun _ => tt) demoCatalog "fr" "fr" "hi" {["n" := GoInt 3]}).1 = Some text.
Proof.
  apply (lookup_english_placeholders id demoHash (fun _ => tt) "en" demoDirs demoCatalog demoCatalog "fr" "fr"
    "hi" (MkEntry "Hi {n}" "A greeting" EmptyString) [Literal "Hi "; Argument "n" EmptyString EmptyString]).
  - vm_compute. reflexivity.
  - apply reach_refl.
  - vm_compute. reflexivity.
  - vm_compute. reflexivity.
  - intros x Hx. assert (x = "n") as ->; [|done].
    unfold Arguments_, collectArguments in Hx. cbn in Hx. set_solver.
Defined.

(** A lookup can fail although the reference has the id: when the English
    message itself does not parse. *)
Lemma lookup_malformed_reference :
  exists c, Load id demoHash "en" [MkDir true "en" (Some {["hi" := MkEntry "Hi {n" "" ""]}) MetaNotExist] = Ok c /\
    packEntry c "en" "hi" <> None /\ (Lookup (fun _ => tt) c "en" "en" "hi" ∅).1 = None.
Proof. eexists. split; [vm_compute; reflexivity|]. by vm_compute. Qed.
