(* ===== verification/GoBase64.v ===== *)
(** * encoding/base64 (RawURLEncoding) and big-endian integers

    The unpadded URL alphabet of RFC 4648 as the Go package encodes and decodes
    it: the decoder skips carriage returns and newlines and does not insist that
    the unused bits of the last character are zero. *)

From Stdlib Require Import Ascii.
From S2P Require Import Prelude GoText GoToken.
Local Open Scope Z_scope.

(** ** The alphabet *)

Definition b64char (v : Z) : Z :=
  if v <? 26 then 65 + v
  else if v <? 52 then 71 + v
  else if v <? 62 then v - 4
  else if v =? 62 then 45 else 95.

Definition b64val (c : Z) : option Z :=
  if in_range 65 90 c then Some (c - 65)
  else if in_range 97 122 c then Some (c - 71)
  else if in_range 48 57 c then Some (c + 4)
  else if c =? 45 then Some 62
  else if c =? 95 then Some 63 else None.

Lemma b64val_char v : 0 <= v < 64 -> b64val (b64char v) = Some v.
Proof.
  intros Hv. unfold b64char, b64val, in_range.
  repeat (zbool; simpl; try lia; try (f_equal; lia)).
Qed.

(** ** Encoding *)

Fixpoint b64encode (b : list Z) : list Z :=
  match b with
  | b0 :: b1 :: b2 :: b' =>
      b64char (b0 / 4) :: b64char (b0 mod 4 * 16 + b1 / 16)
      :: b64char (b1 mod 16 * 4 + b2 / 64) :: b64char (b2 mod 64) :: b64encode b'
  | [b0; b1] => [b64char (b0 / 4); b64char (b0 mod 4 * 16 + b1 / 16); b64char (b1 mod 16 * 4)]
  | [b0] => [b64char (b0 / 4); b64char (b0 mod 4 * 16)]
  | [] => []
  end.
Definition EncodeToString (b : list Z) : string := string_of (b64encode b).

(** ** Decoding *)

Definition b64skip (c : Z) : bool := (c =? 10) || (c =? 13).

(** The sextets of the text, or a character outside the alphabet. *)
Fixpoint sextets (s : list Z) : option (list Z) :=
  match s with
  | [] => Some []
  | c :: s' => if b64skip c then sextets s'
               else v ← b64val c; r ← sextets s'; Some (v :: r)
  end.

(** The bytes of the sextets; a single one at the end is an error. *)
Fixpoint pack6 (v : list Z) : option (list Z) :=
  match v with
  | v0 :: v1 :: v2 :: v3 :: v' =>
      r ← pack6 v';
      Some (v0 * 4 + v1 / 16 :: v1 mod 16 * 16 + v2 / 4 :: v2 mod 4 * 64 + v3 :: r)
  | [v0; v1; v2] => Some [v0 * 4 + v1 / 16; v1 mod 16 * 16 + v2 / 4]
  | [v0; v1] => Some [v0 * 4 + v1 / 16]
  | [_] => None
  | [] => Some []
  end.
Definition DecodeString (s : string) : option (list Z) := sextets (bytes_of s) ≫= pack6.

(** ** The round trip *)

Fixpoint split6 (b : list Z) : list Z :=
  match b with
  | b0 :: b1 :: b2 :: b' =>
      b0 / 4 :: b0 mod 4 * 16 + b1 / 16 :: b1 mod 16 * 4 + b2 / 64 :: b2 mod 64 :: split6 b'
  | [b0; b1] => [b0 / 4; b0 mod 4 * 16 + b1 / 16; b1 mod 16 * 4]
  | [b0] => [b0 / 4; b0 mod 4 * 16]
  | [] => []
  end.

(** Induction three bytes at a time. *)
Lemma bytes3_ind (Q : list Z -> Prop) :
  Q [] -> (forall a, Q [a]) -> (forall a b, Q [a; b]) ->
  (forall a b c l, Q l -> Q (a :: b :: c :: l)) -> forall l, Q l.
Proof.
  intros H0 H1 H2 H3 l. remember (length l) as n. revert l Heqn.
  induction (lt_wf n) as [n _ IH]. intros l ->. destruct l as [|a [|b [|c l]]]; [done..|].
  apply H3. eapply IH; [|done]. simpl. lia.
Qed.

Ltac sextet := unfold is_byte in *; Z.to_euclidean_division_equations; lia.

Lemma split6_range b : Forall is_byte b -> Forall (fun v => 0 <= v < 64) (split6 b).
Proof.
  induction b as [|x|x y|x y z b IH] using bytes3_ind; simpl; rewrite ?Forall_cons; [done|intros; split_and!..].
  all: try (split_and!); try done; try sextet.
  apply IH. tauto.
Qed.

Lemma encode_split6 b : b64encode b = map b64char (split6 b).
Proof. induction b as [|x|x y|x y z b IH] using bytes3_ind; simpl; [done..|]. by rewrite IH. Qed.

Lemma pack6_split6 b : Forall is_byte b -> pack6 (split6 b) = Some b.
Proof.
  induction b as [|x|x y|x y z b IH] using bytes3_ind; rewrite ?Forall_cons; simpl; [done|..].
  - intros [Hx _]. do 2 f_equal. sextet.
  - intros (Hx & Hy & _). repeat f_equal; sextet.
  - intros (Hx & Hy & Hz & Hb). rewrite (IH Hb). simpl. repeat f_equal; sextet.
Qed.

Lemma b64char_plain v : 0 <= v < 64 -> is_byte (b64char v) /\ b64skip (b64char v) = false /\ b64char v <> 46.
Proof.
  intros Hv. unfold b64char, b64skip, is_byte.
  repeat (zbool; simpl; try lia); split_and!; try lia; try done.
Qed.

Lemma sextets_chars v : Forall (fun x => 0 <= x < 64) v -> sextets (map b64char v) = Some v.
Proof.
  induction 1 as [|x v Hx _ IH]; simpl; [done|]. destruct (b64char_plain x Hx) as (_ & -> & _).
  by rewrite b64val_char, IH.
Qed.

Lemma encode_bytes b : Forall is_byte b -> Forall (fun c => is_byte c /\ c <> 46) (b64encode b).
Proof.
  intros Hb. rewrite encode_split6. apply split6_range in Hb.
  induction Hb as [|x v Hx _ IH]; simpl; constructor; [|done]. by destruct (b64char_plain x Hx) as (?&_&?).
Qed.

Lemma Decode_Encode b : Forall is_byte b -> DecodeString (EncodeToString b) = Some b.
Proof.
  intros Hb. unfold DecodeString, EncodeToString. rewrite bytes_of_string_of.
  - rewrite encode_split6, sextets_chars by (by apply split6_range). cbn. by apply pack6_split6.
  - eapply Forall_impl; [by apply encode_bytes|]. by intros c [? _].
Qed.

(** The encoding holds no dot, the separator of a token. *)
Lemma Encode_free b : Forall is_byte b -> free_of "."%char (EncodeToString b) = true.
Proof.
  intros Hb. unfold EncodeToString. pose proof (encode_bytes b Hb) as H. unfold free_of.
  induction H as [|c l [Hc Hne] _ IH]; simpl; [done|]. rewrite IH, andb_true_r.
  apply negb_true_iff, Ascii.eqb_neq. intros E. apply Hne.
  apply (f_equal byte_of_ascii) in E. unfold ascii_of_byte, byte_of_ascii in E.
  unfold is_byte in Hc. rewrite Ascii.N_ascii_embedding in E by lia.
  change (Z.of_N (Ascii.N_of_ascii ".")) with 46 in E. lia.
Qed.

(** Decoded bytes are bytes. *)
Lemma b64val_range c v : b64val c = Some v -> 0 <= v < 64.
Proof.
  unfold b64val, in_range. intros H. repeat (zbool; simpl in *; try lia; try (injection H as <-; lia)); done.
Qed.

Lemma sextets_range s v : sextets s = Some v -> Forall (fun x => 0 <= x < 64) v.
Proof.
  revert v. induction s as [|c s IH]; intros v; simpl; [intros [= <-]; constructor|].
  destruct (b64skip c); [by apply IH|]. destruct (b64val c) as [x|] eqn:E; [|done]. simpl.
  destruct (sextets s) as [r|]; [|done]. intros [= <-]. constructor; [by eapply b64val_range|by apply IH].
Qed.

(** ** Big-endian 64-bit integers *)

Definition be64 (z : Z) : list Z :=
  map (fun k => Z.shiftr z (8 * k) mod 256) [7; 6; 5; 4; 3; 2; 1; 0].
Definition be_u64 (b : list Z) : Z := fold_left (fun a x => a * 256 + x) (firstn 8 b) 0.

Lemma shiftr_byte z k : 0 <= k ->
  Z.shiftr z (8 * k) = Z.shiftr z (8 * (k + 1)) * 256 + Z.shiftr z (8 * k) mod 256.
Proof.
  intros Hk. replace (8 * (k + 1)) with (8 * k + 8) by lia. rewrite <- Z.shiftr_shiftr by lia.
  rewrite (Z.shiftr_div_pow2 _ 8) by lia. change (2 ^ 8) with 256.
  pose proof (Z.div_mod (Z.shiftr z (8 * k)) 256 ltac:(lia)). lia.
Qed.

Lemma be_u64_be64 z rest : 0 <= z < 2 ^ 64 -> be_u64 (be64 z ++ rest) = z.
Proof.
  intros Hz. unfold be_u64, be64. cbn [map app firstn fold_left].
  assert (H8 : Z.shiftr z (8 * 8) = 0).
  { rewrite Z.shiftr_div_pow2 by lia. apply Z.div_small. exact Hz. }
  pose proof (shiftr_byte z 7 ltac:(lia)) as H7. pose proof (shiftr_byte z 6 ltac:(lia)) as H6.
  pose proof (shiftr_byte z 5 ltac:(lia)) as H5. pose proof (shiftr_byte z 4 ltac:(lia)) as H4.
  pose proof (shiftr_byte z 3 ltac:(lia)) as H3. pose proof (shiftr_byte z 2 ltac:(lia)) as H2.
  pose proof (shiftr_byte z 1 ltac:(lia)) as H1. pose proof (shiftr_byte z 0 ltac:(lia)) as H0.
  change (8 * 0) with 0 in *. rewrite Z.shiftr_0_r in *.
  change (8 * (7 + 1)) with (8 * 8) in H7. rewrite H8 in H7.
  change (8 * (0 + 1)) with (8 * 1) in H0. change (8 * (1 + 1)) with (8 * 2) in H1.
  change (8 * (2 + 1)) with (8 * 3) in H2. change (8 * (3 + 1)) with (8 * 4) in H3.
  change (8 * (4 + 1)) with (8 * 5) in H4. change (8 * (5 + 1)) with (8 * 6) in H5.
  change (8 * (6 + 1)) with (8 * 7) in H6. rewrite take_0. cbn [fold_left]. lia.
Qed.

Lemma be64_bytes z : Forall is_byte (be64 z).
Proof.
  unfold be64. apply Forall_forall. intros x Hx. apply list_elem_of_In, in_map_iff in Hx as (k & <- & _).
  apply Z.mod_pos_bound. lia.
Qed.
