(* ===== verification/Telemetry.v ===== *)
(** * telemetry: proof of work and per-source limits of the report receiver

    telemetryschema/pow.go (what a sender and a receiver agree on),
    telemetry-receiver/pow.go (the challenges) and telemetry-receiver/
    ratelimit.go (the limiters).  SHA-256 and HMAC, the random bytes and the
    logarithm of the difficulty are parameters; a mutex-protected section is one
    step on the state. *)

From Stdlib Require Import Ascii.
From S2P Require Import Prelude GoTime GoText GoToken GoDate GoBase64.
Local Open Scope Z_scope.

Definition u64 (z : Z) : Z := z mod 2 ^ 64.

(** ** telemetryschema/pow.go *)

Definition MaxPoWBits : Z := 26.
Definition MaxChallengeLen : Z := 256.
Definition solveCheckEvery : Z := 4096.

(** The leading zero bits of a byte that is not zero: the inner loop, from the
    mask [2 ^ k] down. *)
Fixpoint zeroBitsFrom (b : Z) (k : nat) : Z :=
  match k with
  | O => 0
  | S k' => if Z.testbit b (Z.of_nat k') then 0 else 1 + zeroBitsFrom b k'
  end.

Fixpoint leadingZeroBits (sum : list Z) : Z :=
  match sum with
  | [] => 0
  | b :: sum' => if b =? 0 then 8 + leadingZeroBits sum' else zeroBitsFrom b 8
  end.

(** [strings.LastIndexByte(s, c)], as a cut: what precedes the last [c] and what
    follows it. *)
Fixpoint cut_last (c : Ascii.ascii) (s : string) : option (string * string) :=
  match s with
  | EmptyString => None
  | String d s' =>
      match cut_last c s' with
      | Some (a, b) => Some (String d a, b)
      | None => if Ascii.eqb d c then Some (EmptyString, s') else None
      end
  end.

(** [strconv.ParseUint(s, 10, 64)] *)
Definition ParseUint64 (s : string) : option Z :=
  match bytes_of s with
  | [] => None
  | b => match digits_value 0 b with
         | Some n => if n <? 2 ^ 64 then Some n else None
         | None => None
         end
  end.

Inductive powErr := NoColon | BadChallenge | BadNonce.

Definition FormatPoW (challenge : string) (nonce : Z) : string :=
  challenge +:+ String ":"%char (Itoa nonce).

Definition ParsePoW (header : string) : result powErr (string * Z) :=
  match cut_last ":"%char header with
  | None => Err NoColon
  | Some (challenge, raw) =>
      if String.eqb challenge EmptyString || (MaxChallengeLen <? Z.of_nat (String.length challenge))
      then Err BadChallenge
      else match ParseUint64 raw with
      | Some nonce => if String.eqb (Itoa nonce) raw then Ok (challenge, nonce) else Err BadNonce
      | None => Err BadNonce
      end
  end.

Inductive solveErr := Difficulty | Cancelled | OutOfFuel.

Section Hash.
(** [sha256.Sum256] *)
Variable sha256 : list Z -> list Z.

Definition powHash (challenge : string) (nonce : Z) : Z :=
  leadingZeroBits (sha256 (bytes_of (FormatPoW challenge nonce))).

Definition PoWOK (challenge : string) (nonce bits : Z) : bool :=
  if bits <=? 0 then true else bits <=? powHash challenge nonce.

(** The loop of [SolvePoW]; [done_ n] tells whether the context is done when
    the loop reaches nonce [n]. *)
Fixpoint solveFrom (fuel : nat) (done_ : Z -> bool) (challenge : string) (bits nonce : Z)
  : result solveErr Z :=
  match fuel with
  | O => Err OutOfFuel
  | S f =>
      if (nonce mod solveCheckEvery =? 0) && done_ nonce then Err Cancelled
      else if bits <=? powHash challenge nonce then Ok nonce
      else solveFrom f done_ challenge bits (u64 (nonce + 1))
  end.

Definition SolvePoW (fuel : nat) (done_ : Z -> bool) (challenge : string) (bits : Z)
  : result solveErr Z :=
  if (bits <? 0) || (MaxPoWBits <? bits) then Err Difficulty
  else solveFrom fuel done_ challenge bits 0.
End Hash.

(** ** telemetry-receiver/pow.go *)

Definition powTokenVersion : Z := 1.
Definition powTTLSeconds : Z := 15 * 60.
Definition powMACSize : nat := 16.
Definition powIDSize : nat := 16.
Definition powPayloadSize : nat := 26.
Definition powWindow : Z := 60.
Definition powDecayStep : duration := 5 * Minute.
Definition powPruneEvery : duration := Minute.

Inductive powVerdict := powAccepted | powMissing | powInvalid | powBusy.

(** One second of the issue window. *)
Record powSlot := PowSlot { sec : Z; n : Z }.

Record powState := PowState {
  targetPerMin : Z; minBits : Z; maxBits : Z;
  slots : list powSlot;
  peak : Z; peakAt : time;
  used : gmap (list Z) Z;
  lastPrune : time
}.

(** [newPoW], but for the key, which is part of [mac] below. *)
Definition newPoW (cfgTarget cfgMin cfgMax : Z) : powState :=
  let mn := Z.max cfgMin 0 in
  PowState (Z.max cfgTarget 1) mn (Z.max (Z.min cfgMax MaxPoWBits) mn)
    (repeat (PowSlot 0 0) 60) 0 zero_time ∅ zero_time.

Definition set_slots (p : powState) (s : list powSlot) : powState :=
  PowState (targetPerMin p) (minBits p) (maxBits p) s (peak p) (peakAt p) (used p) (lastPrune p).
Definition set_peak (p : powState) (k : Z) (t : time) : powState :=
  PowState (targetPerMin p) (minBits p) (maxBits p) (slots p) k t (used p) (lastPrune p).
Definition set_used (p : powState) (u : gmap (list Z) Z) (t : time) : powState :=
  PowState (targetPerMin p) (minBits p) (maxBits p) (slots p) (peak p) (peakAt p) u t.

(** [countLocked] *)
Definition countLocked (p : powState) (now : time) : Z :=
  let s := Unix now in
  foldr (fun sl total => if (s - powWindow <? sec sl) && (sec sl <=? s) then n sl + total else total)
    0 (slots p).

(** [((sec % powWindow) + powWindow) % powWindow], with Go's remainder. *)
Definition slotIndex (s : Z) : nat := Z.to_nat (Z.rem (Z.rem s powWindow + powWindow) powWindow).

Definition recordLocked (p : powState) (now : time) : Z * powState :=
  let s := Unix now in
  let i := slotIndex s in
  let slot := nth i (slots p) (PowSlot 0 0) in
  let slot := if negb (sec slot =? s) then PowSlot s 0 else slot in
  let p' := set_slots p (<[i := PowSlot (sec slot) (n slot + 1)]> (slots p)) in
  (countLocked p' now, p').

Section PoW.
Variable sha256 : list Z -> list Z.
(** The truncated HMAC of a payload under the receiver's key. *)
Variable mac : list Z -> list Z.
(** [int(math.Ceil(2 * math.Log2(float64(r) / float64(t))))] *)
Variable ceil2log2 : Z -> Z -> Z.
(** [powUsedCap] *)
Variable powUsedCap : Z.

Definition bitsForRate (p : powState) (r : Z) : Z :=
  if r <=? targetPerMin p then 0 else Z.min (maxBits p) (ceil2log2 r (targetPerMin p)).

Definition difficultyLocked (p : powState) (now : time) (r : Z) (commit : bool) : Z * powState :=
  let target := bitsForRate p r in
  let decayed :=
    if 0 <? peak p then
      let steps := Z.max (Z.quot (Sub now (peakAt p)) powDecayStep) 0 in
      Z.max (peak p - steps) 0
    else 0 in
  if decayed <? target
  then (Z.max (minBits p) target, if commit then set_peak p target now else p)
  else (Z.max (minBits p) decayed, p).

Definition currentBits (p : powState) (now : time) : Z :=
  (difficultyLocked p now (countLocked p now + 1) false).1.

(** [issue] with the random bytes [rnd]: the token, its difficulty, its expiry
    in Unix seconds, and the state after. *)
Definition payloadOf (issued bits : Z) (rnd : list Z) : list Z :=
  powTokenVersion :: be64 issued ++ Z.land bits 255 :: rnd.
Definition tokenOf (payload : list Z) : string :=
  EncodeToString payload +:+ String "."%char (EncodeToString (mac payload)).
Definition issue (p : powState) (now : time) (rnd : list Z) : (string * Z * Z) * powState :=
  let '(r, p1) := recordLocked p now in
  let '(bits, p2) := difficultyLocked p1 now r true in
  let issued := Z.max (Unix now) 0 in
  ((tokenOf (payloadOf issued bits rnd), bits, issued + powTTLSeconds), p2).

Definition parseToken (token : string) : option (list Z) :=
  match cut_at (fun c => Ascii.eqb c "."%char) token with
  | None => None
  | Some (rawPayload, _, rawMAC) =>
      match DecodeString rawPayload with
      | None => None
      | Some payload =>
          if negb (length payload =? powPayloadSize)%nat || negb (nth 0 payload 0 =? powTokenVersion)
          then None
          else match DecodeString rawMAC with
          | None => None
          | Some got => if bool_decide (got = mac payload) then Some payload else None
          end
      end
  end.

(** The fields of a payload. *)
Definition issuedOf (payload : list Z) : Z := be_u64 (firstn 8 (skipn 1 payload)).
Definition expiresOf (payload : list Z) : Z := u64 (issuedOf payload + powTTLSeconds).
Definition bitsOf (payload : list Z) : Z := nth 9 payload 0.
Definition idOf (payload : list Z) : list Z := firstn powIDSize (skipn 10 payload).

Definition pruneLocked (p : powState) (now : time) : powState :=
  if Sub now (lastPrune p) <? powPruneEvery then p
  else
    let nowSec := Unix now in
    if nowSec <? 0 then set_used p (used p) now
    else set_used p (filter (fun kv => nowSec <= kv.2) (used p)) now.

(** [check] before it takes the lock: the payload of a solution to weigh. *)
Definition precheck (header : string) (now : time) : result powVerdict (list Z) :=
  if String.eqb header EmptyString then Err powMissing
  else match ParsePoW header with
  | Err _ => Err powInvalid
  | Ok (token, nonce) =>
      match parseToken token with
      | None => Err powInvalid
      | Some payload =>
          let nowSec := Unix now in
          if nowSec <? 0 then Err powInvalid
          else if expiresOf payload <? nowSec then Err powInvalid
          else if negb (PoWOK sha256 token nonce (bitsOf payload)) then Err powInvalid
          else Ok payload
      end
  end.

(** [check] under the lock. *)
Definition claim (p : powState) (payload : list Z) (now : time) : powVerdict * powState :=
  let p1 := pruneLocked p now in
  match used p1 !! idOf payload with
  | Some _ => (powInvalid, p1)
  | None =>
      if powUsedCap <=? Z.of_nat (size (used p1)) then (powBusy, p1)
      else (powAccepted, set_used p1 (<[idOf payload := expiresOf payload]> (used p1)) (lastPrune p1))
  end.

Definition check (p : powState) (header : string) (now : time) : powVerdict * powState :=
  match precheck header now with
  | Err v => (v, p)
  | Ok payload => claim p payload now
  end.

(** [requirePoW]: the status of the refusal and the Retry-After header, or
    nothing when the request may go on.  [None] for [s.pow] is proof of work
    switched off. *)
Definition requirePoW (p : option powState) (header : string) (now : time)
  : option (Z * string * bool) * option powState :=
  match p with
  | None => (None, None)
  | Some p =>
      let '(v, p') := check p header now in
      (match v with
       | powAccepted => None
       | powMissing => Some (428, "pow_required", false)
       | powBusy => Some (503, "pow_busy", true)
       | powInvalid => Some (428, "pow_invalid", false)
       end%string, Some p')
  end.
End PoW.
