(* ===== verification/TelemetryFacts.v ===== *)
(** * telemetry: what the proof of work promises

    - [pow_header_exact], [solve_least]: the header and the solver;
    - [pow_solution_once]: a solution is accepted once, whatever is asked, as
      long as the clock reads in the order the lock is taken;
    - [pow_honest_accepted]: an issued challenge, solved and sent in time, is
      accepted;
    - [pow_window_exact], [pow_bits_bounded]: the ring of counters is the number
      of challenges of the last minute, and the difficulty stays in its range. *)

From Stdlib Require Import Ascii.
From S2P Require Import Prelude GoTime GoText GoToken GoDate GoBase64 Telemetry.
Local Open Scope Z_scope.

(** ** Cutting *)

Lemma cut_last_app c a b : free_of c b = true -> cut_last c (a +:+ String c b) = Some (a, b).
Proof.
  intros Hb. assert (Hn : cut_last c b = None).
  { revert Hb. unfold free_of. induction b as [|d b IH]; simpl; [done|].
    intros [Hd Hb]%andb_true_iff. rewrite (IH Hb). by destruct (Ascii.eqb d c). }
  induction a as [|d a IH].
  - simpl. by rewrite Hn, Ascii.eqb_refl.
  - rewrite str_app_cons. simpl. by rewrite IH.
Qed.

Lemma cut_last_Some c s a b : cut_last c s = Some (a, b) -> s = a +:+ String c b.
Proof.
  revert a b. induction s as [|d s IH]; intros a b; simpl; [done|].
  destruct (cut_last c s) as [[a' b']|].
  - intros [= <- <-]. by rewrite (IH _ _ eq_refl).
  - destruct (Ascii.eqb_spec d c) as [->|]; [|done]. by intros [= <- <-].
Qed.

Lemma cut_at_first c a b :
  free_of c a = true -> cut_at (fun d => Ascii.eqb d c) (a +:+ String c b) = Some (a, c, b).
Proof.
  unfold free_of. induction a as [|d a IH]; simpl.
  - intros _. by rewrite Ascii.eqb_refl.
  - intros [Hd Ha]%andb_true_iff. rewrite (IH Ha). by destruct (Ascii.eqb d c).
Qed.

(** ** The header *)

Lemma digits_value_nonneg b : forall acc v, 0 <= acc -> digits_value acc b = Some v -> 0 <= v.
Proof.
  induction b as [|d b IH]; intros acc v Ha; simpl; [by intros [= <-]|].
  destruct (is_digit d) eqn:E; [|done]. unfold is_digit in E. apply in_range_spec in E.
  apply IH. lia.
Qed.

Lemma ParseUint64_Itoa k : 0 <= k < 2 ^ 64 -> ParseUint64 (Itoa k) = Some k.
Proof.
  intros Hk. unfold ParseUint64. destruct (bytes_of (Itoa k)) as [|c l] eqn:E.
  - destruct (Itoa_digits k ltac:(lia)) as [Hne _]. by destruct (Itoa k).
  - rewrite <- E, Itoa_value by lia. by destruct (Z.ltb_spec k (2 ^ 64)); [|lia].
Qed.

Lemma ParseUint64_range s k : ParseUint64 s = Some k -> 0 <= k < 2 ^ 64.
Proof.
  unfold ParseUint64. destruct (bytes_of s) as [|c l]; [done|].
  destruct (digits_value 0 (c :: l)) as [v|] eqn:E; [|done]. destruct (Z.ltb_spec v (2 ^ 64)); [|done].
  intros [= <-]. split; [|done]. by eapply digits_value_nonneg in E.
Qed.

Lemma Itoa_no_colon k : 0 <= k -> free_of ":"%char (Itoa k) = true.
Proof. intros Hk. by apply Itoa_free. Qed.

(** [ParsePoW] accepts exactly the headers [FormatPoW] writes: a challenge of
    1 to 256 bytes, any bytes, and a nonce within uint64. *)
Lemma pow_header_exact header challenge nonce :
  ParsePoW header = Ok (challenge, nonce) <->
  header = FormatPoW challenge nonce /\ challenge <> EmptyString /\
  Z.of_nat (String.length challenge) <= MaxChallengeLen /\ 0 <= nonce < 2 ^ 64.
Proof.
  unfold ParsePoW, FormatPoW. split.
  - destruct (cut_last ":"%char header) as [[a b]|] eqn:E; [|done]. apply cut_last_Some in E as ->.
    destruct (String.eqb_spec a EmptyString); [done|]. simpl. unfold MaxChallengeLen.
    destruct (Z.ltb_spec 256 (Z.of_nat (String.length a))); [done|].
    destruct (ParseUint64 b) as [k|] eqn:Ek; [|done]. destruct (String.eqb_spec (Itoa k) b) as [<-|]; [|done].
    intros [= <- <-]. apply ParseUint64_range in Ek. by split_and!; try lia.
  - unfold MaxChallengeLen. intros (-> & Hne & Hl & Hn). rewrite cut_last_app by (apply Itoa_no_colon; lia).
    destruct (String.eqb_spec challenge EmptyString); [done|]. simpl.
    destruct (Z.ltb_spec 256 (Z.of_nat (String.length challenge))); [lia|].
    by rewrite ParseUint64_Itoa, String.eqb_refl.
Qed.

(** ** The solver *)

Section Solver.
Context (sha256 : list Z -> list Z) (done_ : Z -> bool) (challenge : string) (bits : Z).
Abbreviation ok := (fun k => bits <=? powHash sha256 challenge k).

Lemma solveFrom_least fuel k m : 0 <= k ->
  k + Z.of_nat fuel <= 2 ^ 64 -> solveFrom sha256 fuel done_ challenge bits k = Ok m ->
  k <= m < 2 ^ 64 /\ ok m = true /\ forall j, k <= j < m -> ok j = false.
Proof using Type.
  revert k. induction fuel as [|f IH]; intros k Hk Hf; [done|]. cbn [solveFrom].
  destruct (_ && _); [done|]. destruct (bits <=? powHash sha256 challenge k) eqn:E.
  - intros [= <-]. split_and!; [lia|lia|done|lia].
  - intros H. destruct f as [|f']; [done|].
    assert (Hu : u64 (k + 1) = k + 1) by (unfold u64; rewrite Z.mod_small; lia).
    rewrite Hu in H. apply IH in H as (H1 & H2 & H3); [|lia|lia]. split_and!; [lia|lia|done|].
    intros j Hj. destruct (decide (j = k)) as [->|]; [done|]. apply H3. lia.
Qed.

Lemma solveFrom_finds m : 0 <= m < 2 ^ 64 -> (forall j, 0 <= j <= m -> done_ j = false) ->
  ok m = true -> (forall j, 0 <= j < m -> ok j = false) ->
  forall fuel k, 0 <= k <= m -> m < k + Z.of_nat fuel ->
  solveFrom sha256 fuel done_ challenge bits k = Ok m.
Proof using Type.
  intros Hm Hd Hok Hleast. induction fuel as [|f IH]; intros k Hk Hf; [lia|]. cbn [solveFrom].
  rewrite Hd, andb_false_r by lia.
  destruct (decide (k = m)) as [->|Hne]; [by cbn beta in Hok; rewrite Hok|].
  rewrite (Hleast k) by lia. assert (Hu : u64 (k + 1) = k + 1) by (unfold u64; rewrite Z.mod_small; lia).
  rewrite Hu. apply IH; lia.
Qed.
End Solver.

(** [SolvePoW] finds the smallest nonce: given a difficulty in range, a context
    that stays open and a nonce [m] that is the first to do, [m + 1] turns of its
    loop return [m]; and whatever it returns within the uint64 nonces is the
    first that does. *)
Lemma solve_least sha256 done_ challenge bits m :
  0 <= bits <= MaxPoWBits -> 0 <= m < 2 ^ 64 -> (forall j, 0 <= j <= m -> done_ j = false) ->
  (PoWOK sha256 challenge m bits = true /\ (forall j, 0 <= j < m -> PoWOK sha256 challenge j bits = false)) <->
  SolvePoW sha256 (Z.to_nat (m + 1)) done_ challenge bits = Ok m.
Proof.
  intros Hb Hm Hd. unfold SolvePoW, MaxPoWBits in *.
  destruct (Z.ltb_spec bits 0); [lia|]. destruct (Z.ltb_spec 26 bits); [lia|]. cbn [orb].
  assert (Hpos : forall l, 0 <= leadingZeroBits l).
  { assert (Hz : forall b k, 0 <= zeroBitsFrom b k)
      by (intros b k; induction k; simpl; [lia|]; destruct (Z.testbit _ _); lia).
    induction l as [|x l IH]; cbn [leadingZeroBits]; [lia|]. destruct (x =? 0); [lia|apply Hz]. }
  assert (Hok : forall k, PoWOK sha256 challenge k bits = (bits <=? powHash sha256 challenge k)).
  { intros k. unfold PoWOK. destruct (Z.leb_spec bits 0); [|done]. symmetry. apply Z.leb_le.
    unfold powHash. pose proof (Hpos (sha256 (bytes_of (FormatPoW challenge k)))). lia. }
  split.
  - intros [H1 H2]. apply solveFrom_finds; try lia; [done|by rewrite <- Hok|].
    intros j Hj. rewrite <- Hok. by apply H2.
  - intros Hs. apply solveFrom_least in Hs as (_ & H1 & H2); [|lia|lia]. rewrite Hok. split; [done|].
    intros j Hj. rewrite Hok. by apply H2.
Qed.

(** ** The window of challenges *)

Definition cnt (P : Z -> bool) (h : list Z) : Z := Z.of_nat (length (List.filter P h)).

Fixpoint sumZ (l : list Z) : Z := match l with [] => 0 | x :: l' => x + sumZ l' end.

Lemma cnt_cons P x h : cnt P (x :: h) = (if P x then 1 else 0) + cnt P h.
Proof. unfold cnt. simpl. destruct (P x); simpl; lia. Qed.

Lemma cnt_snoc P h x : cnt P (h ++ [x]) = cnt P h + (if P x then 1 else 0).
Proof. unfold cnt. rewrite List.filter_app, length_app. simpl. destruct (P x); simpl; lia. Qed.

Lemma cnt_ext P Q h : (forall x, x ∈ h -> P x = Q x) -> cnt P h = cnt Q h.
Proof.
  intros H. induction h as [|x h IH]; [done|]. rewrite !cnt_cons, (H x) by (by left).
  rewrite IH; [done|]. intros y Hy. apply H. by right.
Qed.

Lemma cnt_false h : cnt (fun _ => false) h = 0.
Proof. by induction h. Qed.

Lemma sumZ_add (f g : nat -> Z) l : sumZ (map (fun i => f i + g i) l) = sumZ (map f l) + sumZ (map g l).
Proof. induction l as [|x l IH]; simpl; lia. Qed.

Lemma sumZ_single k m a : (a <= k < a + m)%nat ->
  sumZ (map (fun i => if (i =? k)%nat then 1 else 0) (seq a m)) = 1.
Proof.
  assert (H0 : forall m a, (k < a)%nat -> sumZ (map (fun i => if (i =? k)%nat then 1 else 0) (seq a m)) = 0).
  { clear. induction m as [|m IH]; intros a Ha; simpl; [done|].
    destruct (Nat.eqb_spec a k); [lia|]. rewrite IH; lia. }
  revert a. induction m as [|m IH]; intros a Ha; [lia|]. simpl. destruct (Nat.eqb_spec a k).
  - rewrite H0; lia.
  - rewrite IH; lia.
Qed.

(** Counting by residue. *)
Lemma cnt_partition P h :
  sumZ (map (fun i => cnt (fun x => P x && (Z.to_nat (x mod 60) =? i)%nat) h) (seq 0 60)) = cnt P h.
Proof.
  induction h as [|x h IH].
  - replace (map _ _) with (map (fun _ : nat => 0) (seq 0 60)); [done|]. by apply map_ext.
  - rewrite cnt_cons, <- IH.
    rewrite (map_ext _ (fun i => (if P x then if (i =? Z.to_nat (x mod 60))%nat then 1 else 0 else 0) +
      cnt (fun x => P x && (Z.to_nat (x mod 60) =? i)%nat) h)).
    + rewrite sumZ_add. f_equal. destruct (P x).
      * apply sumZ_single. pose proof (Z.mod_pos_bound x 60 ltac:(lia)). lia.
      * done.
    + intros i. rewrite cnt_cons, Nat.eqb_sym. by destruct (P x).
Qed.

Lemma map_nth_seq {A} (d : A) l : map (fun i => nth i l d) (seq 0 (length l)) = l.
Proof.
  induction l as [|x l IH]; [done|]. cbn [length seq map nth]. f_equal.
  rewrite <- seq_shift, map_map. exact IH.
Qed.

Definition inWindow (s x : Z) : bool := (s - powWindow <? x) && (x <=? s).

Lemma countLocked_sum p now :
  countLocked p now =
  sumZ (map (fun i => let sl := nth i (slots p) (PowSlot 0 0) in
                      if inWindow (Unix now) (sec sl) then n sl else 0) (seq 0 (length (slots p)))).
Proof.
  unfold countLocked. rewrite <- (map_map (fun i => nth i (slots p) (PowSlot 0 0))
    (fun sl => if inWindow (Unix now) (sec sl) then n sl else 0)), map_nth_seq.
  induction (slots p) as [|sl l IH]; simpl; [done|]. unfold inWindow in *. by destruct (_ && _); rewrite IH.
Qed.

(** The ring holds, at the residue of each second, the count of the latest
    second of that residue. *)
Definition ringOk (h : list Z) (sl : list powSlot) : Prop :=
  length sl = 60%nat /\ forall i, (i < 60)%nat ->
    let s := nth i sl (PowSlot 0 0) in
    n s = (if (Z.to_nat (sec s mod 60) =? i)%nat then cnt (Z.eqb (sec s)) h else 0) /\
    (forall x, x ∈ h -> Z.to_nat (x mod 60) = i ->
       sec s ∈ h /\ Z.to_nat (sec s mod 60) = i /\ x <= sec s).

Lemma ringOk_count h p now :
  ringOk h (slots p) -> (forall x, x ∈ h -> x <= Unix now) -> countLocked p now = cnt (inWindow (Unix now)) h.
Proof.
  intros [Hlen Hring] Hmax. rewrite countLocked_sum, Hlen, <- cnt_partition. f_equal.
  apply map_ext_in. intros i Hi%in_seq. destruct (Hring i ltac:(lia)) as [Hn Hb].
  cbv zeta in *. set (s := nth i (slots p) (PowSlot 0 0)) in *. set (u := Unix now) in *.
  destruct (inWindow u (sec s) && (Z.to_nat (sec s mod 60) =? i)%nat) eqn:E.
  - apply andb_true_iff in E as [Ew Ei]. rewrite Ew, Hn, Ei. apply cnt_ext. intros x Hx.
    destruct (Z.eqb_spec (sec s) x) as [<-|Hne]; [by rewrite Ew, Ei|]. symmetry. apply andb_false_iff.
    destruct (inWindow u x) eqn:Ex; [right|by left]. apply Nat.eqb_neq. intros Hi'.
    destruct (Hb x Hx Hi') as (_ & Hm & Hle). unfold inWindow, powWindow in *. zbool; try done.
    apply Hne. apply Nat.eqb_eq in Ei.
    pose proof (Z.mod_pos_bound x 60 ltac:(lia)). pose proof (Z.mod_pos_bound (sec s) 60 ltac:(lia)).
    assert (x mod 60 = sec s mod 60) by lia. Z.to_euclidean_division_equations. lia.
  - transitivity 0.
    + destruct (inWindow u (sec s)); [|done]. cbn [andb] in E. by rewrite Hn, E.
    + rewrite <- (cnt_false h). apply cnt_ext. intros x Hx. symmetry. apply andb_false_iff.
      destruct (inWindow u x) eqn:Ex; [right|by left]. apply Nat.eqb_neq. intros Hi'.
      destruct (Hb x Hx Hi') as (Hin & Hm & Hle). apply Hmax in Hin.
      rewrite Hm, Nat.eqb_refl, andb_true_r in E. unfold inWindow, powWindow in *. zbool; try done; lia.
Qed.

Lemma slotIndex_mod s : slotIndex s = Z.to_nat (s mod 60).
Proof. unfold slotIndex, powWindow. f_equal. Z.to_euclidean_division_equations. lia. Qed.

Lemma nth_insert_same {A} i (x : A) l d : (i < length l)%nat -> nth i (<[i := x]> l) d = x.
Proof. intros Hi. apply nth_lookup_Some. by apply list_lookup_insert_eq. Qed.
Lemma nth_insert_other {A} i j (x : A) l d : i <> j -> nth j (<[i := x]> l) d = nth j l d.
Proof. intros Hi. rewrite !nth_lookup. by rewrite list_lookup_insert_ne. Qed.

Lemma ringOk_record h p now :
  ringOk h (slots p) -> (forall x, x ∈ h -> x <= Unix now) ->
  ringOk (h ++ [Unix now]) (slots (recordLocked p now).2).
Proof.
  intros [Hlen Hring] Hmax. unfold recordLocked. set (u := Unix now) in *. rewrite slotIndex_mod.
  set (k := Z.to_nat (u mod 60)).
  assert (Hk : (k < 60)%nat) by (pose proof (Z.mod_pos_bound u 60 ltac:(lia)); lia).
  cbn [snd set_slots slots]. split; [by rewrite length_insert|]. intros i Hi.
  destruct (Hring i Hi) as [Hn Hb]. cbv zeta in *. destruct (decide (i = k)) as [->|Hne'].
  - rewrite nth_insert_same by lia. set (s := nth k (slots p) (PowSlot 0 0)) in *. cbn [sec n].
    assert (Hsec : sec (if negb (sec s =? u) then PowSlot u 0 else s) = u)
      by (by destruct (Z.eqb_spec (sec s) u)).
    rewrite Hsec. fold k. split.
    + rewrite Nat.eqb_refl, cnt_snoc, Z.eqb_refl. f_equal.
      destruct (Z.eqb_spec (sec s) u) as [Heq|Hneq]; cbn [negb].
      * rewrite Hn, Heq. fold k. by rewrite Nat.eqb_refl.
      * cbn [n]. rewrite <- (cnt_false h). apply cnt_ext. intros x Hx.
        symmetry. apply Z.eqb_neq. intros <-. destruct (Hb u Hx eq_refl) as (Hin & _ & Hle).
        apply Hmax in Hin. lia.
    + intros x Hx Hi'. split_and!; [set_solver|done|].
      apply elem_of_app in Hx as [Hx|Hx]; [by apply Hmax|]. apply list_elem_of_singleton in Hx. lia.
  - assert (Hne : k <> i) by congruence. rewrite nth_insert_other by done.
    set (s := nth i (slots p) (PowSlot 0 0)) in *. split.
    + rewrite Hn. destruct (Nat.eqb_spec (Z.to_nat (sec s mod 60)) i) as [Hi'|]; [|done].
      rewrite cnt_snoc. destruct (Z.eqb_spec (sec s) u) as [E|]; [|lia]. by rewrite E in Hi'.
    + intros x Hx Hi'. apply elem_of_app in Hx as [Hx|Hx].
      * destruct (Hb x Hx Hi') as (?&?&?). split_and!; [set_solver|done|done].
      * apply list_elem_of_singleton in Hx as ->. done.
Qed.

Fixpoint records (p : powState) (nows : list time) : powState :=
  match nows with [] => p | now :: nows' => records (recordLocked p now).2 nows' end.

(** Times in the order they are read. *)
Fixpoint ordered (t : time) (l : list time) : Prop :=
  match l with [] => True | now :: l' => t <= now /\ ordered now l' end.

Lemma Unix_mono t u : t <= u -> Unix t <= Unix u.
Proof. intros H. unfold Unix, Second. apply Z.sub_le_mono_r, Z.div_le_mono; lia. Qed.

Lemma ringOk_new tgt mn mx : ringOk [] (slots (newPoW tgt mn mx)).
Proof.
  split; [done|]. intros i Hi. split; [|by intros x ?%elem_of_nil].
  assert (E : nth i (slots (newPoW tgt mn mx)) (PowSlot 0 0) = PowSlot 0 0).
  { cbn [slots newPoW]. by rewrite nth_repeat. }
  rewrite E. by destruct i.
Qed.

Lemma records_ring nows : forall h p t, ringOk h (slots p) -> (forall x, x ∈ h -> x <= Unix t) ->
  ordered t nows -> ringOk (h ++ map Unix nows) (slots (records p nows)).
Proof.
  induction nows as [|now nows IH]; intros h p t Hr Hmax Ho; simpl; [by rewrite app_nil_r|].
  destruct Ho as [Ht Ho].
  assert (Hmax' : forall x, x ∈ h -> x <= Unix now).
  { intros x Hx. apply Hmax in Hx. apply Unix_mono in Ht. lia. }
  replace (h ++ Unix now :: map Unix nows) with ((h ++ [Unix now]) ++ map Unix nows) by (by rewrite <- app_assoc).
  eapply (IH _ _ now); [by apply ringOk_record| |done].
  intros x [Hx|Hx]%elem_of_app; [by apply Hmax'|]. apply list_elem_of_singleton in Hx. lia.
Qed.

Lemma ordered_snoc t l now : ordered t (l ++ [now]) -> ordered t l /\ forall x, x ∈ l -> x <= now.
Proof.
  revert t. induction l as [|y l IH]; intros t; simpl.
  - intros _. split; [done|]. by intros x ?%elem_of_nil.
  - intros [Ht Ho]. destruct (IH _ Ho) as [Ho' Hl]. split; [done|].
    assert (Hy : y <= now).
    { clear -Ho. revert y Ho. induction l as [|z l IH]; intros y; simpl; [tauto|].
      intros [H1 H2]. etrans; [exact H1|]. by apply IH. }
    intros x [->|Hx]%elem_of_cons; [done|by apply Hl].
Qed.

(** The ring of sixty counters counts exactly: when the clock does not run
    backwards, recording a challenge returns how many were recorded in the last
    sixty seconds, this one included. *)
Lemma pow_window_exact tgt mn mx t nows now :
  ordered t (nows ++ [now]) ->
  (recordLocked (records (newPoW tgt mn mx) nows) now).1 =
  cnt (inWindow (Unix now)) (map Unix (nows ++ [now])).
Proof.
  intros Ho. destruct (ordered_snoc _ _ _ Ho) as [Ho' Hmax].
  set (p := records (newPoW tgt mn mx) nows).
  assert (Hr : ringOk (map Unix nows) (slots p)).
  { apply (records_ring nows [] _ t); [apply ringOk_new| |done]. by intros x ?%elem_of_nil. }
  assert (Hm : forall x, x ∈ map Unix nows -> x <= Unix now).
  { intros x Hx. apply list_elem_of_In, in_map_iff in Hx as (y & <- & Hy).
    apply Unix_mono, Hmax. by apply list_elem_of_In. }
  rewrite map_app. cbn [map]. apply (ringOk_count _ (recordLocked p now).2).
  - by apply ringOk_record.
  - intros x [Hx|Hx]%elem_of_app; [by apply Hm|]. apply list_elem_of_singleton in Hx. lia.
Qed.

Lemma pow_window_exact_witness :
  (recordLocked (records (newPoW 60 0 22) [63000000000 * Second; 63000000005 * Second]) (63000000060 * Second)).1 = 2.
Proof.
  rewrite (pow_window_exact 60 0 22 0 [63000000000 * Second; 63000000005 * Second] (63000000060 * Second)).
  - vm_compute. reflexivity.
  - cbn. unfold Second. lia.
Defined.

(** ** Challenges *)

Section Challenges.
Context (sha256 mac : list Z -> list Z) (ceil2log2 : Z -> Z -> Z) (powUsedCap : Z).
Abbreviation check := (check sha256 mac powUsedCap).
Abbreviation precheck := (precheck sha256 mac).
Abbreviation claim := (claim powUsedCap).
Abbreviation issue := (issue mac ceil2log2).

(** ** A solution is accepted once *)

(** At [t] the receiver refuses [P]: it remembers it, or it has expired. *)
Definition blocked (p : powState) (t : time) (P : list Z) : Prop :=
  used p !! idOf P = Some (expiresOf P) \/ expiresOf P < Unix t.

Lemma prune_blocked p t now P : blocked p t P -> t <= now -> blocked (pruneLocked p now) now P.
Proof using Type.
  intros Hb Ht. unfold blocked, pruneLocked in *. apply Unix_mono in Ht.
  destruct Hb as [Hb|Hb]; [|right; lia]. destruct (_ <? _); [by left|].
  destruct (Z.ltb_spec (Unix now) 0); [by left|]. cbn [used set_used].
  destruct (decide (Unix now <= expiresOf P)); [left|right; lia].
  apply map_lookup_filter_Some. split; [done|]. by cbn.
Qed.

Lemma claim_blocked p t now P P' v p' :
  blocked p t P -> t <= now -> claim p P' now = (v, p') ->
  blocked p' now P /\ (P' = P -> Unix now <= expiresOf P -> v <> powAccepted).
Proof using Type.
  intros Hb Ht H. apply (prune_blocked _ _ _ _ Hb) in Ht as Hb'. unfold Telemetry.claim in H.
  set (p1 := pruneLocked p now) in *.
  destruct (used p1 !! idOf P') as [x|] eqn:E; [injection H as <- <-; by split|].
  destruct (powUsedCap <=? _); [injection H as <- <-; by split|].
  injection H as <- <-. split.
  - unfold blocked in *. cbn [used set_used]. destruct Hb' as [Hb'|Hb']; [|by right].
    destruct (decide (idOf P' = idOf P)) as [Hid|Hid]; [congruence|].
    left. by rewrite lookup_insert_ne.
  - intros -> Hexp _. destruct Hb' as [Hb'|Hb']; [congruence|lia].
Qed.

Lemma claim_accepted p now P p' : claim p P now = (powAccepted, p') -> blocked p' now P.
Proof using Type.
  unfold Telemetry.claim. destruct (used _ !! idOf P); [done|]. destruct (powUsedCap <=? _); [done|].
  intros [= <-]. left. cbn. by rewrite lookup_insert_eq.
Qed.

Lemma precheck_unexpired h now P : precheck h now = Ok P -> Unix now <= expiresOf P.
Proof using Type.
  unfold Telemetry.precheck. destruct (String.eqb h EmptyString); [done|]. destruct (ParsePoW h) as [[t k]|]; [|done].
  destruct (parseToken mac t) as [pl|]; [|done]. destruct (_ <? 0); [done|].
  destruct (Z.ltb_spec (expiresOf pl) (Unix now)); [done|]. destruct (negb _); [done|]. by intros [= <-].
Qed.

(** The payloads accepted, in the order the lock is taken. *)
Fixpoint accepted (p : powState) (hist : list (string * time)) : list (list Z) :=
  match hist with
  | [] => []
  | (h, now) :: hist' =>
      let '(v, p') := check p h now in
      match precheck h now, v with
      | Ok P, powAccepted => P :: accepted p' hist'
      | _, _ => accepted p' hist'
      end
  end.

Lemma check_blocked p t h now P v p' :
  blocked p t P -> t <= now -> check p h now = (v, p') ->
  blocked p' now P /\ (precheck h now = Ok P -> v <> powAccepted).
Proof using Type.
  intros Hb Ht H. unfold Telemetry.check in H. destruct (precheck h now) as [P'|v'] eqn:E.
  - destruct (claim_blocked _ _ _ _ _ _ _ Hb Ht H) as [H1 H2]. split; [done|].
    intros [= ->]. apply H2; [done|]. by eapply precheck_unexpired.
  - injection H as <- <-. split; [|done]. unfold blocked in *. apply Unix_mono in Ht.
    destruct Hb; [by left|right; lia].
Qed.

Lemma blocked_never p t P hist :
  blocked p t P -> ordered t hist.*2 -> (P ∉ accepted p hist).
Proof using Type.
  revert p t. induction hist as [|[h now] hist IH]; intros p t Hb Ho; [by apply not_elem_of_nil|].
  destruct Ho as [Ht Ho]. cbn [accepted]. destruct (check p h now) as [v p'] eqn:E.
  destruct (check_blocked _ _ _ _ _ _ _ Hb Ht E) as [Hb' Hne]. specialize (IH p' now Hb' Ho).
  destruct (precheck h now) as [P'|] eqn:Ep; [|done]. destruct v; try done.
  rewrite not_elem_of_cons. split; [|done]. intros <-. by apply Hne.
Qed.

(** ** Difficulty *)

Definition powInv (p : powState) : Prop := 0 <= minBits p <= maxBits p /\ 0 <= peak p <= maxBits p.

Lemma newPoW_inv tgt mn mx : powInv (newPoW tgt mn mx).
Proof using Type. unfold powInv, newPoW. cbn. lia. Qed.

Lemma recordLocked_frame p now :
  let p' := (recordLocked p now).2 in
  minBits p' = minBits p /\ maxBits p' = maxBits p /\ peak p' = peak p /\ used p' = used p.
Proof using Type. done. Qed.

Lemma difficulty_range p now r commit bits p' : powInv p ->
  difficultyLocked ceil2log2 p now r commit = (bits, p') ->
  minBits p <= bits <= maxBits p /\ powInv p' /\ minBits p' = minBits p /\ maxBits p' = maxBits p /\
  used p' = used p.
Proof using Type.
  unfold powInv, difficultyLocked. intros [Hm Hp] H.
  set (target := bitsForRate ceil2log2 p r) in *.
  assert (Ht : target <= maxBits p) by (unfold target, bitsForRate; destruct (r <=? _); [lia|apply Z.le_min_l]).
  set (decayed := if 0 <? peak p then _ else _) in *.
  assert (Hd : 0 <= decayed <= maxBits p).
  { unfold decayed. destruct (0 <? peak p); [|lia]. cbv zeta.
    generalize (Sub now (peakAt p) ÷ powDecayStep)%Z. intros q. lia. }
  destruct (Z.ltb_spec decayed target); injection H as <- <-.
  - destruct commit; cbn [minBits maxBits peak set_peak used]; split_and!; lia || done.
  - split_and!; lia || done.
Qed.

(** The states a receiver goes through: challenges issued and headers
    checked, at any times. *)
Inductive powReach (tgt mn mx : Z) : powState -> Prop :=
| reach_new : powReach tgt mn mx (newPoW tgt mn mx)
| reach_issue p now rnd : powReach tgt mn mx p -> powReach tgt mn mx (issue p now rnd).2
| reach_check p h now : powReach tgt mn mx p -> powReach tgt mn mx (check p h now).2.

Lemma issue_spec p now rnd token bits exp p' : powInv p -> issue p now rnd = ((token, bits, exp), p') ->
  minBits p <= bits <= maxBits p /\ powInv p' /\ minBits p' = minBits p /\ maxBits p' = maxBits p /\
  used p' = used p /\ exp = Z.max (Unix now) 0 + powTTLSeconds /\
  token = tokenOf mac (payloadOf (Z.max (Unix now) 0) bits rnd).
Proof using Type.
  intros Hinv. unfold Telemetry.issue. destruct (recordLocked p now) as [r p1] eqn:E1.
  destruct (difficultyLocked ceil2log2 p1 now r true) as [b p2] eqn:E2. intros [= <- <- <- <-].
  assert (Hinv1 : powInv p1 /\ minBits p1 = minBits p /\ maxBits p1 = maxBits p /\ used p1 = used p).
  { unfold recordLocked in E1. injection E1 as _ <-. done. }
  destruct Hinv1 as (Hi1 & Ha & Hb & Hc).
  destruct (difficulty_range _ _ _ _ _ _ Hi1 E2) as (H1 & H2 & H3 & H4 & H5).
  rewrite Ha, Hb in *. rewrite H5. done.
Qed.

Lemma prune_frame p now :
  minBits (pruneLocked p now) = minBits p /\ maxBits (pruneLocked p now) = maxBits p /\
  peak (pruneLocked p now) = peak p /\ used (pruneLocked p now) ⊆ used p.
Proof using Type.
  unfold pruneLocked. destruct (_ <? _); [done|]. destruct (_ <? 0); [done|]. cbn.
  split_and!; try done. apply map_filter_subseteq.
Qed.

Lemma check_frame p h now :
  minBits (check p h now).2 = minBits p /\ maxBits (check p h now).2 = maxBits p /\
  peak (check p h now).2 = peak p.
Proof using Type.
  unfold Telemetry.check. destruct (precheck h now); [|done]. unfold Telemetry.claim.
  destruct (prune_frame p now) as (H1 & H2 & H3 & _).
  destruct (used _ !! _); [done|]. by destruct (powUsedCap <=? _).
Qed.

Lemma powReach_inv tgt mn mx p : powReach tgt mn mx p ->
  powInv p /\ minBits p = minBits (newPoW tgt mn mx) /\ maxBits p = maxBits (newPoW tgt mn mx).
Proof using Type.
  induction 1 as [|p now rnd _ (IH & IH1 & IH2)|p h now _ (IH & IH1 & IH2)].
  - split; [apply newPoW_inv|done].
  - destruct (issue p now rnd) as [[[token bits] exp] p'] eqn:E.
    destruct (issue_spec _ _ _ _ _ _ _ IH E) as (_ & ? & ? & ? & _). cbn [snd]. by split_and!; congruence || done.
  - destruct (check_frame p h now) as (H1 & H2 & H3). unfold powInv in *. rewrite H1, H2, H3. done.
Qed.

Lemma claim_size p P now : 0 <= powUsedCap -> Z.of_nat (size (used p)) <= powUsedCap ->
  Z.of_nat (size (used (claim p P now).2)) <= powUsedCap.
Proof using Type.
  intros Hcap Hp. unfold Telemetry.claim. destruct (prune_frame p now) as (_ & _ & _ & Hsub).
  apply map_subseteq_size in Hsub as Hsize. destruct (used _ !! _) eqn:E; [cbn; lia|].
  destruct (Z.leb_spec powUsedCap (Z.of_nat (size (used (pruneLocked p now))))); cbn [snd used set_used]; [lia|].
  rewrite map_size_insert_None by done. lia.
Qed.

(** ** Tokens *)

Lemma payloadOf_fields issued bits rnd :
  0 <= issued < 2 ^ 63 -> 0 <= bits < 256 -> length rnd = 16%nat -> Forall is_byte rnd ->
  let P := payloadOf issued bits rnd in
  length P = powPayloadSize /\ nth 0 P 0 = powTokenVersion /\ Forall is_byte P /\
  issuedOf P = issued /\ expiresOf P = issued + powTTLSeconds /\ bitsOf P = bits /\ idOf P = rnd.
Proof using Type.
  intros Hi Hb Hl Hr P.
  assert (Hland : Z.land bits 255 = bits).
  { change 255 with (Z.ones 8). rewrite Z.land_ones by lia. apply Z.mod_small. lia. }
  assert (Hiss : issuedOf P = issued).
  { unfold issuedOf, P, payloadOf. cbn [skipn].
    change (firstn 8 (be64 issued ++ Z.land bits 255 :: rnd)) with (be64 issued).
    rewrite <- (app_nil_r (be64 issued)). apply be_u64_be64. lia. }
  split_and!.
  - unfold P, payloadOf, powPayloadSize. cbn [length]. rewrite length_app. cbn [length]. rewrite Hl. done.
  - done.
  - unfold P, payloadOf. apply Forall_cons. split; [unfold is_byte, powTokenVersion; lia|].
    apply Forall_app. split; [apply be64_bytes|]. apply Forall_cons. rewrite Hland. done.
  - done.
  - unfold expiresOf. rewrite Hiss. unfold u64, powTTLSeconds. apply Z.mod_small. lia.
  - unfold bitsOf, P, payloadOf. exact Hland.
  - unfold idOf, P, payloadOf, powIDSize. change (skipn 10 _) with rnd. rewrite <- Hl. apply firstn_all.
Qed.

Hypothesis mac_bytes : forall x, Forall is_byte (mac x).
Hypothesis mac_size : forall x, length (mac x) = powMACSize.

Lemma parseToken_tokenOf P :
  length P = powPayloadSize -> nth 0 P 0 = powTokenVersion -> Forall is_byte P ->
  parseToken mac (tokenOf mac P) = Some P.
Proof using mac_bytes.
  intros Hl Hv Hb. unfold parseToken, tokenOf. rewrite cut_at_first by (by apply Encode_free).
  rewrite Decode_Encode by done. rewrite Hl, Hv, Nat.eqb_refl, Z.eqb_refl. cbn [negb orb].
  rewrite Decode_Encode by done. by rewrite bool_decide_true.
Qed.

Lemma length_encode b : (length (b64encode b) <= 2 * length b)%nat.
Proof using Type. induction b as [|x|x y|x y z b IH] using bytes3_ind; simpl; lia. Qed.

Lemma length_string_of b : String.length (string_of b) = length b.
Proof using Type. induction b as [|x b IH]; simpl; [done|]. by rewrite IH. Qed.

Lemma tokenOf_length P : length P = powPayloadSize ->
  tokenOf mac P <> EmptyString /\ Z.of_nat (String.length (tokenOf mac P)) <= MaxChallengeLen.
Proof using mac_size.
  intros Hl. unfold tokenOf, EncodeToString, MaxChallengeLen. split.
  - by destruct (string_of (b64encode P)).
  - rewrite length_app_str. cbn [String.length]. rewrite !length_string_of.
    pose proof (length_encode P). pose proof (length_encode (mac P)).
    rewrite Hl, mac_size in *. unfold powPayloadSize, powMACSize in *. lia.
Qed.

(** An issued challenge passes every check before the lock. *)
Lemma precheck_issued issued bits rnd nonce now :
  0 <= issued < 2 ^ 63 -> 0 <= bits < 256 -> length rnd = 16%nat -> Forall is_byte rnd ->
  0 <= nonce < 2 ^ 64 -> PoWOK sha256 (tokenOf mac (payloadOf issued bits rnd)) nonce bits = true ->
  0 <= Unix now <= issued + powTTLSeconds ->
  precheck (FormatPoW (tokenOf mac (payloadOf issued bits rnd)) nonce) now = Ok (payloadOf issued bits rnd).
Proof using mac_bytes mac_size.
  intros Hi Hb Hl Hr Hn Hok Hnow.
  destruct (payloadOf_fields issued bits rnd Hi Hb Hl Hr) as (F1 & F2 & F3 & F4 & F5 & F6 & F7).
  set (P := payloadOf issued bits rnd) in *. set (tok := tokenOf mac P) in *.
  destruct (tokenOf_length P F1) as [Hne Hlen].
  assert (Hparse : ParsePoW (FormatPoW tok nonce) = Ok (tok, nonce)).
  { unfold ParsePoW, FormatPoW. rewrite cut_last_app by (apply Itoa_no_colon; lia).
    destruct (String.eqb_spec tok EmptyString); [done|]. cbn [orb].
    destruct (Z.ltb_spec MaxChallengeLen (Z.of_nat (String.length tok))); [fold tok in Hlen; lia|].
    by rewrite ParseUint64_Itoa, String.eqb_refl. }
  unfold Telemetry.precheck. destruct (String.eqb_spec (FormatPoW tok nonce) EmptyString) as [E|_].
  { unfold FormatPoW in E. by destruct tok. }
  rewrite Hparse. unfold tok. rewrite parseToken_tokenOf by done. fold tok. cbv zeta.
  destruct (Z.ltb_spec (Unix now) 0); [lia|]. rewrite F5.
  destruct (Z.ltb_spec (issued + powTTLSeconds) (Unix now)); [lia|]. by rewrite F6, Hok.
Qed.
End Challenges.

(** C23. Whatever headers are checked, no solution is accepted twice, provided the
    clock reads of the checks are in the order in which they take the lock. *)
Theorem pow_solution_once sha256 mac powUsedCap p t hist :
  ordered t hist.*2 -> NoDup (accepted sha256 mac powUsedCap p hist).
Proof.
  revert p t. induction hist as [|[h now] hist IH]; intros p t Ho; [constructor|].
  destruct Ho as [Ht Ho]. cbn [accepted]. destruct (check sha256 mac powUsedCap p h now) as [v p'] eqn:E.
  specialize (IH p' now Ho). destruct (precheck sha256 mac h now) as [P|] eqn:Ep; [|done].
  destruct v; try done. apply NoDup_cons. split; [|done]. eapply blocked_never; [|done].
  unfold check in E. rewrite Ep in E. by eapply claim_accepted.
Qed.

(** The receiver remembers at most [powUsedCap] solutions, and every challenge
    it issues is at least as hard as configured and never harder than its
    maximum, in whatever order it issues and checks. *)
Lemma pow_bounded sha256 mac ceil2log2 powUsedCap tgt mn mx p :
  0 <= powUsedCap -> mn <= MaxPoWBits -> powReach sha256 mac ceil2log2 powUsedCap tgt mn mx p ->
  Z.of_nat (size (used p)) <= powUsedCap /\
  forall now rnd, Z.max mn 0 <= (issue mac ceil2log2 p now rnd).1.1.2 <= MaxPoWBits.
Proof.
  intros Hcap Hmn Hr. split.
  - induction Hr as [|p now rnd Hr IH|p h now Hr IH]; [done| |].
    + destruct (powReach_inv _ _ _ _ _ _ _ _ Hr) as [Hi _].
      destruct (issue mac ceil2log2 p now rnd) as [[[token bits] exp] p'] eqn:E.
      destruct (issue_spec _ _ _ _ _ _ _ _ _ Hi E) as (_ & _ & _ & _ & Hu & _). cbn [snd]. by rewrite Hu.
    + unfold check. destruct (precheck sha256 mac h now); [|done]. by apply claim_size.
  - intros now rnd. destruct (powReach_inv _ _ _ _ _ _ _ _ Hr) as (Hi & H1 & H2).
    destruct (issue mac ceil2log2 p now rnd) as [[[token bits] exp] p'] eqn:E.
    destruct (issue_spec _ _ _ _ _ _ _ _ _ Hi E) as (Hb & _). rewrite H1, H2 in Hb.
    cbn [fst snd newPoW minBits maxBits] in *. unfold MaxPoWBits in *. lia.
Qed.

(** C39. An issued challenge is good for its whole life: any nonce that solves it,
    sent before it expires to a receiver that has not seen it and is not full,
    is accepted. *)
Theorem pow_honest_accepted sha256 mac ceil2log2 powUsedCap tgt mn mx p q now now' rnd nonce token bits exp p' :
  (forall x, Forall is_byte (mac x)) -> (forall x, length (mac x) = powMACSize) ->
  length rnd = powIDSize -> Forall is_byte rnd -> mn <= MaxPoWBits ->
  powReach sha256 mac ceil2log2 powUsedCap tgt mn mx p -> Unix now < 2 ^ 62 ->
  issue mac ceil2log2 p now rnd = ((token, bits, exp), p') ->
  0 <= nonce < 2 ^ 64 -> PoWOK sha256 token nonce bits = true -> 0 <= Unix now' <= exp ->
  used q !! rnd = None -> Z.of_nat (size (used q)) < powUsedCap ->
  (check sha256 mac powUsedCap q (FormatPoW token nonce) now').1 = powAccepted.
Proof.
  intros Hmb Hms Hl Hr Hmn Hreach Hnow Hissue Hnonce Hok Hnow' Hfresh Hroom.
  destruct (powReach_inv _ _ _ _ _ _ _ _ Hreach) as (Hinv & H1 & H2).
  destruct (issue_spec _ _ _ _ _ _ _ _ _ Hinv Hissue) as (Hbits & _ & _ & _ & _ & -> & ->).
  rewrite H1, H2 in Hbits. cbn [newPoW minBits maxBits] in Hbits. unfold MaxPoWBits in *.
  assert (Hb : 0 <= bits < 256) by lia. assert (Hi : 0 <= Z.max (Unix now) 0 < 2 ^ 63) by lia.
  unfold check. rewrite (precheck_issued sha256 mac Hmb Hms) by (done || lia).
  destruct (payloadOf_fields (Z.max (Unix now) 0) bits rnd Hi Hb Hl Hr) as (_ & _ & _ & _ & _ & _ & Hid).
  unfold claim. rewrite Hid. destruct (prune_frame q now') as (_ & _ & _ & Hsub).
  assert (Hf : used (pruneLocked q now') !! rnd = None) by (by eapply lookup_weaken_None).
  rewrite Hf. apply map_subseteq_size in Hsub.
  destruct (Z.leb_spec powUsedCap (Z.of_nat (size (used (pruneLocked q now'))))); [lia|done].
Qed.

(** ** Witnesses *)

Definition zeroHash (_ : list Z) : list Z := repeat 0 32.
Definition demoMac (_ : list Z) : list Z := repeat 7 16.
Definition demoLog (_ _ : Z) : Z := 1.
(** 2021-03-14 or so, in seconds. *)
Definition demoNow : time := (62135596800 + 1615700000) * Second.
Definition demoToken (rnd : Z) (now : time) : string :=
  (issue demoMac demoLog (newPoW 60 4 22) now (repeat rnd 16)).1.1.1.

Lemma solve_least_witness :
  (PoWOK zeroHash "challenge" 0 20 = true /\ (forall j, 0 <= j < 0 -> PoWOK zeroHash "challenge" j 20 = false)) <->
  SolvePoW zeroHash (Z.to_nat (0 + 1)) (fun _ => false) "challenge" 20 = Ok 0.
Proof. apply solve_least; [unfold MaxPoWBits; lia|lia|done]. Defined.

Lemma pow_solution_once_witness :
  NoDup (accepted zeroHash demoMac 10 (newPoW 60 4 22)
    [(FormatPoW (demoToken 1 demoNow) 5, demoNow + Second); (FormatPoW (demoToken 1 demoNow) 5, demoNow + 2 * Second)]).
Proof. apply (pow_solution_once _ _ _ _ demoNow). vm_compute. split_and!; done. Defined.

Lemma pow_bounded_witness :
  Z.of_nat (size (used (newPoW 60 4 22))) <= 10 /\
  forall now rnd, Z.max 4 0 <= (issue demoMac demoLog (newPoW 60 4 22) now rnd).1.1.2 <= MaxPoWBits.
Proof.
  apply (pow_bounded zeroHash demoMac demoLog 10 60 4 22); [lia|unfold MaxPoWBits; lia|constructor].
Defined.

Lemma pow_honest_accepted_witness :
  (check zeroHash demoMac 10 (newPoW 60 4 22) (FormatPoW (demoToken 1 demoNow) 9) (demoNow + 900 * Second)).1 =
  powAccepted.
Proof.
  apply (pow_honest_accepted zeroHash demoMac demoLog 10 60 4 22 (newPoW 60 4 22) (newPoW 60 4 22) demoNow
    (demoNow + 900 * Second) (repeat 1 16) 9 (demoToken 1 demoNow) 4 (1615700000 + 900)
    (issue demoMac demoLog (newPoW 60 4 22) demoNow (repeat 1 16)).2).
  - intros x. unfold demoMac, is_byte. repeat constructor; lia.
  - done.
  - done.
  - unfold is_byte. repeat constructor; lia.
  - unfold MaxPoWBits. lia.
  - constructor.
  - vm_compute. reflexivity.
  - vm_compute. reflexivity.
  - lia.
  - vm_compute. reflexivity.
  - vm_compute. split; done.
  - done.
  - vm_compute. reflexivity.
Defined.

(** The order of the clock reads matters: a check that read the clock in the
    last second of a challenge's life, but takes the lock after one that read
    the next second and swept the used set, accepts the solution again. *)
Lemma pow_replay_out_of_order :
  let h1 := FormatPoW (demoToken 1 demoNow) 5 in
  let h2 := FormatPoW (demoToken 2 (demoNow + 600 * Second)) 5 in
  let acc := accepted zeroHash demoMac 10 (newPoW 60 4 22)
    [(h1, demoNow + Second); (h2, demoNow + 901 * Second); (h1, demoNow + 900 * Second)] in
  length acc = 3%nat /\ nth 0 acc [] = nth 2 acc [].
Proof. vm_compute. split; reflexivity. Qed.
