(* ===== verification/SourceLimits.v ===== *)
(** * telemetry: per-source limits

    telemetry-receiver/ratelimit.go: which source a request counts against, the
    daily limit and the token bucket, both over at most [max] sources with the
    least recently used one evicted.  The elements of the recency list are found
    through the map in the code; here the list holds the keys themselves, most
    recent first.  [netip.ParseAddr] and [net.SplitHostPort] are section
    variables, and so is float64. *)

From Stdlib Require Import Ascii.
From S2P Require Import Prelude GoTime GoText GoToken GoDate.
Local Open Scope Z_scope.

(** ** Addresses *)

(** [netip.Addr]: the zero value, an IPv4 address, or an IPv6 address with its
    zone. *)
Inductive Addr := AInvalid | A4 (v : Z) | A6 (v : Z) (zone : string).

(** [netip.Prefix] *)
Record Prefix := MkPrefix { is4 : bool; paddr : Z; pbits : Z }.

#[export] Instance Addr_eq_dec : EqDecision Addr.
Proof. solve_decision. Defined.
#[export] Instance Prefix_eq_dec : EqDecision Prefix.
Proof. solve_decision. Defined.
#[export] Instance Prefix_countable : Countable Prefix.
Proof.
  apply (inj_countable' (fun p => (is4 p, paddr p, pbits p)) (fun t => MkPrefix t.1.1 t.1.2 t.2)).
  by intros [].
Defined.

(** [Addr.Is4In6], [Addr.Unmap], [Addr.WithZone] with no zone *)
Definition Is4In6 (v : Z) : bool := Z.shiftr v 32 =? 0xffff.
Definition Unmap (a : Addr) : Addr :=
  match a with A6 v _ => if Is4In6 v then A4 (v mod 2 ^ 32) else a | _ => a end.
Definition WithoutZone (a : Addr) : Addr := match a with A6 v _ => A6 v EmptyString | _ => a end.

(** [Prefix.Contains]: the same family, no zone, and the same leading bits. *)
Definition PContains (p : Prefix) (a : Addr) : bool :=
  match a with
  | AInvalid => false
  | A4 v => is4 p && (Z.shiftr (Z.lxor v (paddr p)) (32 - pbits p) =? 0)
  | A6 v z => negb (is4 p) && String.eqb z EmptyString && (Z.shiftr (Z.lxor v (paddr p)) (128 - pbits p) =? 0)
  end.

(** 192.0.2.0/24 *)
Definition invalidKey : Prefix := MkPrefix true 0xC0000200 24.

Definition sourceKey (a : Addr) : Prefix :=
  match Unmap a with
  | AInvalid => invalidKey
  | A4 v => MkPrefix true v 32
  | A6 v _ => MkPrefix false (Z.shiftl (Z.shiftr v 64) 64) 64
  end.

(** [inPrefixes] *)
Definition inPrefixes (ps : list Prefix) (a : Addr) : bool := existsb (fun p => PContains p a) ps.

Section Source.
(** [netip.ParseAddr] and [net.SplitHostPort], whose errors are [None]. *)
Variable ParseAddr : string -> option Addr.
Variable SplitHost : string -> option string.

Definition peerAddr (remote : string) : Addr :=
  let host := default remote (SplitHost remote) in
  match ParseAddr host with
  | None => AInvalid
  | Some a => WithoutZone (Unmap a)
  end.

(** The loop of [sourceIP] over the entries from the last to the first. *)
Fixpoint rightmost (trusted : list Prefix) (peer : Addr) (parts : list string) : Addr :=
  match parts with
  | [] => peer
  | part :: parts' =>
      let raw := TrimSpace part in
      if String.eqb raw EmptyString then rightmost trusted peer parts'
      else match ParseAddr raw with
      | None => peer
      | Some a =>
          let a := WithoutZone (Unmap a) in
          if negb (inPrefixes trusted a) then a else rightmost trusted peer parts'
      end
  end.

(** [sourceIP] of a request from [remote] with these X-Forwarded-For values. *)
Definition sourceIP (remote : string) (forwarded : list string) (trusted : list Prefix) : Addr :=
  let peer := peerAddr remote in
  if bool_decide (peer = AInvalid) || negb (inPrefixes trusted peer) then peer
  else rightmost trusted peer (rev (split_on ","%char (Join ","%char forwarded))).
End Source.

(** [dayString] *)
Definition dayString (t : time) : string := formatDay t.

(** ** The recency list *)

Definition touch (key : Prefix) (lru : list Prefix) : list Prefix :=
  key :: List.filter (fun k => negb (bool_decide (k = key))) lru.

(** Make room when [m] is full: drop its least recently used key. *)
Definition evict {V} (max : Z) (m : gmap Prefix V) (lru : list Prefix) : gmap Prefix V * list Prefix :=
  if max <=? Z.of_nat (size m) then
    match last lru with
    | Some k => (delete k m, removelast lru)
    | None => (m, lru)
    end
  else (m, lru).

(** ** The daily limit *)

Record dailyLimiter := MkDaily {
  limit : Z; dmax : Z; day : string; counts : gmap Prefix Z; dlru : list Prefix }.

Definition limiterMaxSources : Z := 100000.
Definition newDailyLimiter (lim : Z) : dailyLimiter := MkDaily lim limiterMaxSources EmptyString ∅ [].

Definition take_ (l : dailyLimiter) (src : Addr) (now : time) : bool * dailyLimiter :=
  if limit l <=? 0 then (true, l)
  else
    let today := dayString now in
    let l := if negb (String.eqb today (day l)) then MkDaily (limit l) (dmax l) today ∅ [] else l in
    let key := sourceKey src in
    let '(c, m, lru) :=
      match counts l !! key with
      | None =>
          let '(m, lru) := evict (dmax l) (counts l) (dlru l) in
          (0, <[key := 0]> m, key :: lru)
      | Some c => (c, counts l, touch key (dlru l))
      end in
    if limit l <=? c then (false, MkDaily (limit l) (dmax l) (day l) m lru)
    else (true, MkDaily (limit l) (dmax l) (day l) (<[key := c + 1]> m) lru).

(** ** The token bucket *)

(** The float64 operations of the bucket. *)
Class Float64 (F : Type) := {
  fadd : F -> F -> F; fsub : F -> F -> F; fmul : F -> F -> F; fmin : F -> F -> F;
  fltb : F -> F -> bool; fone : F; fseconds : duration -> F }.

Definition limiterIdleTTL : duration := 10 * Minute.
Definition limiterSweepEvery : duration := Minute.

Record bucket (F : Type) := MkBucket { tokens : F; blast : time }.
Arguments MkBucket {F}. Arguments tokens {F}. Arguments blast {F}.

Record bucketLimiter (F : Type) := MkBuckets {
  rate : F; burst : F; bmax : Z; bday : string; lastSweep : time;
  buckets : gmap Prefix (bucket F); blru : list Prefix }.
Arguments MkBuckets {F}. Arguments rate {F}. Arguments burst {F}. Arguments bmax {F}.
Arguments bday {F}. Arguments lastSweep {F}. Arguments buckets {F}. Arguments blru {F}.

Section Bucket.
Context {F : Type} `{Float64 F}.

Definition newBucketLimiter (r b : F) : bucketLimiter F :=
  MkBuckets r b limiterMaxSources EmptyString zero_time ∅ [].

Definition sweep (l : bucketLimiter F) (now : time) : bucketLimiter F :=
  let today := dayString now in
  if negb (String.eqb today (bday l)) then MkBuckets (rate l) (burst l) (bmax l) today now ∅ []
  else if Sub now (lastSweep l) <? limiterSweepEvery then l
  else
    let idle b := limiterIdleTTL <=? Sub now (blast b) in
    let kept := filter (fun kv => idle kv.2 = false) (buckets l) in
    MkBuckets (rate l) (burst l) (bmax l) (bday l) now kept
      (List.filter (fun k => bool_decide (is_Some (kept !! k))) (blru l)).

Definition allow (l : bucketLimiter F) (src : Addr) (now : time) : bool * bucketLimiter F :=
  let l := sweep l now in
  let key := sourceKey src in
  let '(b, m, lru) :=
    match buckets l !! key with
    | None =>
        let '(m, lru) := evict (bmax l) (buckets l) (blru l) in
        (MkBucket (burst l) now, m, key :: lru)
    | Some b => (b, buckets l, touch key (blru l))
    end in
  let b :=
    if 0 <? Sub now (blast b)
    then MkBucket (fmin (burst l) (fadd (tokens b) (fmul (fseconds (Sub now (blast b))) (rate l)))) now
    else b in
  if fltb (tokens b) fone
  then (false, MkBuckets (rate l) (burst l) (bmax l) (bday l) (lastSweep l) (<[key := b]> m) lru)
  else (true, MkBuckets (rate l) (burst l) (bmax l) (bday l) (lastSweep l)
                (<[key := MkBucket (fsub (tokens b) fone) (blast b)]> m) lru).
End Bucket.
