(* ===== verification/SourceLimitsFacts.v ===== *)
(** * telemetry: what the per-source limits promise

    - [daily_limit_exact]: within a day and within the number of sources the
      limiter tracks, a source gets exactly its limit;
    - [limiters_bounded]: both limiters track at most [max] sources whatever the
      traffic, and their recency list and map agree;
    - [source_not_spoofable], [source_key_exact]: what a client can and cannot
      choose about the source it counts against. *)

From Stdlib Require Import Ascii.
From S2P Require Import Prelude GoTime GoText GoToken GoDate SourceLimits.
Local Open Scope Z_scope.

(** ** The recency list *)

(** The map and the list hold the same keys, each once, at most [max]. *)
Definition lruOk {V} (max : Z) (m : gmap Prefix V) (lru : list Prefix) : Prop :=
  NoDup lru /\ (forall k, k ∈ lru <-> is_Some (m !! k)) /\ Z.of_nat (size m) <= max.

Lemma lruOk_size {V} max (m : gmap Prefix V) lru : lruOk max m lru -> size m = length lru.
Proof.
  intros (Hnd & Hk & _). rewrite <- size_dom, <- (size_list_to_set (C := gset Prefix) lru Hnd). f_equal.
  apply set_eq. intros k. by rewrite elem_of_dom, elem_of_list_to_set, Hk.
Qed.

Lemma touch_ok {V} max (m : gmap Prefix V) lru key v :
  lruOk max m lru -> is_Some (m !! key) -> lruOk max (<[key := v]> m) (touch key lru).
Proof.
  intros (Hnd & Hk & Hs) Hkey. unfold touch. split_and!.
  - apply NoDup_cons. split.
    + intros Hin%list_elem_of_In%filter_In. by rewrite bool_decide_true in Hin; destruct Hin.
    + apply NoDup_ListNoDup, List.NoDup_filter. by apply NoDup_ListNoDup.
  - intros k. rewrite elem_of_cons, list_elem_of_In, filter_In, <- list_elem_of_In, negb_true_iff,
      bool_decide_eq_false, Hk.
    destruct (decide (k = key)) as [->|]; [rewrite lookup_insert_eq; naive_solver|].
    rewrite lookup_insert_ne by done. naive_solver.
  - destruct Hkey as [x Hx]. rewrite map_size_insert_Some by (by exists x). done.
Qed.

Lemma evict_ok {V} max (m : gmap Prefix V) lru key v :
  0 < max -> lruOk max m lru -> m !! key = None ->
  lruOk max (<[key := v]> (evict max m lru).1) (key :: (evict max m lru).2).
Proof.
  intros Hmax Hok Hkey. pose proof (lruOk_size _ _ _ Hok) as Hsz. destruct Hok as (Hnd & Hk & Hs).
  assert (Hnin : key ∉ lru) by (rewrite Hk, Hkey; by intros [? ?]).
  unfold evict. destruct (Z.leb_spec max (Z.of_nat (size m))) as [Hfull|Hroom]; cbn [fst snd].
  - destruct (last lru) as [b|] eqn:Eb.
    + destruct (last_Some lru b) as [Hl _]. destruct (Hl Eb) as [l' ->]. cbn [fst snd].
      rewrite removelast_last. apply NoDup_app in Hnd as (Hnd & Hdis & _).
      assert (Hb : key <> b) by (intros ->; apply Hnin, elem_of_app; right; by left).
      split_and!.
      * apply NoDup_cons. split; [|done]. intros Hin. apply Hnin, elem_of_app. by left.
      * intros k. rewrite elem_of_cons. destruct (decide (k = key)) as [->|Hne].
        { rewrite lookup_insert_eq. split; [by eexists|by left]. }
        rewrite lookup_insert_ne by done. destruct (decide (k = b)) as [->|Hkb].
        { rewrite lookup_delete_eq. split; [|by intros [? ?]]. intros [?|Hin]; [done|].
          exfalso. apply (Hdis b Hin). by left. }
        rewrite lookup_delete_ne by done. rewrite <- Hk, elem_of_app, list_elem_of_singleton. naive_solver.
      * rewrite map_size_insert_None by (rewrite lookup_delete_ne by done; done).
        assert (is_Some (m !! b)) as Hsome by (apply Hk, elem_of_app; right; by left).
        rewrite map_size_delete_Some by done. lia.
    + apply last_None in Eb as ->. cbn in Hsz. lia.
  - split_and!.
    + by apply NoDup_cons.
    + intros k. rewrite elem_of_cons. destruct (decide (k = key)) as [->|Hne].
      * rewrite lookup_insert_eq. split; [by eexists|by left].
      * rewrite lookup_insert_ne by done. rewrite <- Hk. naive_solver.
    + rewrite map_size_insert_None by done. lia.
Qed.

(** Writing a tracked key again changes neither the keys nor their number. *)
Lemma lruOk_rewrite {V} max (m : gmap Prefix V) lru key v :
  lruOk max m lru -> is_Some (m !! key) -> lruOk max (<[key := v]> m) lru.
Proof.
  intros (Hnd & Hk & Hs) Hkey. split_and!; [done| |].
  - intros k. rewrite Hk. destruct (decide (k = key)) as [->|].
    + rewrite lookup_insert_eq. split; [by eexists|done].
    + by rewrite lookup_insert_ne.
  - by rewrite map_size_insert_Some.
Qed.

Lemma lruOk_empty {V} max : 0 <= max -> lruOk max (∅ : gmap Prefix V) [].
Proof.
  intros Hm. split_and!; [constructor| |done]. intros k. rewrite lookup_empty.
  split; [by intros ?%elem_of_nil|by intros [? ?]].
Qed.

(** ** Both limiters keep it *)

Definition dailyOk (l : dailyLimiter) : Prop := lruOk (dmax l) (counts l) (dlru l).

Lemma take_ok l src now : 0 < dmax l -> dailyOk l ->
  dailyOk (take_ l src now).2 /\ dmax (take_ l src now).2 = dmax l.
Proof.
  intros Hmax Hok. unfold take_. destruct (limit l <=? 0); [done|].
  set (l' := if negb _ then _ else l).
  assert (Hl' : dailyOk l' /\ dmax l' = dmax l /\ limit l' = limit l).
  { unfold l'. destruct (negb _); [|done]. split; [|done]. apply lruOk_empty. cbn. lia. }
  destruct Hl' as (Hok' & Hm & Hlim). rewrite <- Hm in Hmax. rewrite <- Hm. clearbody l'. unfold dailyOk in *.
  destruct (counts l' !! sourceKey src) as [c|] eqn:E.
  - assert (Ht : forall v, lruOk (dmax l') (<[sourceKey src := v]> (counts l')) (touch (sourceKey src) (dlru l')))
      by (intros v; apply touch_ok; [done|by exists c]).
    destruct (limit l' <=? c); cbn [snd dmax counts dlru]; (split; [|done]).
    + specialize (Ht c). by rewrite insert_id in Ht by done.
    + apply Ht.
  - pose proof (evict_ok (dmax l') (counts l') (dlru l') (sourceKey src) 0 Hmax Hok' E) as He.
    destruct (evict (dmax l') (counts l') (dlru l')) as [m lru]. cbn [fst snd] in He.
    destruct (limit l' <=? 0); cbn [snd dmax counts dlru]; (split; [|done]); [done|].
    rewrite insert_insert_eq. pose proof (lruOk_rewrite _ _ _ (sourceKey src) (0 + 1) He) as H.
    rewrite insert_insert_eq in H. apply H. rewrite lookup_insert_eq. by eexists.
Qed.

Section BucketFacts.
Context {F : Type} `{Float64 F}.

Definition bucketsOk (l : bucketLimiter F) : Prop := lruOk (bmax l) (buckets l) (blru l).

Lemma sweep_ok l now : 0 < bmax l -> bucketsOk l -> bucketsOk (sweep l now) /\ bmax (sweep l now) = bmax l.
Proof using Type.
  intros Hmax (Hnd & Hk & Hs). unfold sweep. destruct (negb _).
  { split; [|done]. apply lruOk_empty. cbn. lia. }
  destruct (_ <? _); [done|]. split; [|done]. cbn [bmax buckets blru]. unfold bucketsOk. cbn [bmax buckets blru].
  set (kept := filter _ (buckets l)). split_and!.
  - apply NoDup_ListNoDup, List.NoDup_filter. by apply NoDup_ListNoDup.
  - intros k. rewrite list_elem_of_In, filter_In, <- list_elem_of_In, bool_decide_eq_true, Hk.
    split; [by intros [_ ?]|]. intros [b Hb]. split; [|by exists b].
    apply map_lookup_filter_Some in Hb as [Hb _]. by exists b.
  - assert (kept ⊆ buckets l) as Hsub%map_subseteq_size by apply map_filter_subseteq. lia.
Qed.

Lemma allow_ok l src now : 0 < bmax l -> bucketsOk l ->
  bucketsOk (allow l src now).2 /\ bmax (allow l src now).2 = bmax l.
Proof using Type.
  intros Hmax Hok. unfold allow. destruct (sweep_ok l now Hmax Hok) as [Hok' Hm].
  set (l' := sweep l now) in *. rewrite <- Hm in *. clearbody l'. unfold bucketsOk in *.
  destruct (buckets l' !! sourceKey src) as [b|] eqn:E.
  - assert (Ht : forall v, lruOk (bmax l') (<[sourceKey src := v]> (buckets l')) (touch (sourceKey src) (blru l')))
      by (intros v; apply touch_ok; [done|by exists b]).
    destruct (fltb _ _); cbn [snd bmax buckets blru]; by split; [apply Ht|].
  - assert (He : forall v, lruOk (bmax l') (<[sourceKey src := v]> (evict (bmax l') (buckets l') (blru l')).1)
      (sourceKey src :: (evict (bmax l') (buckets l') (blru l')).2)) by (intros v; by apply evict_ok).
    destruct (evict (bmax l') (buckets l') (blru l')) as [m lru]. cbn [fst snd] in He.
    destruct (fltb _ _); cbn [snd bmax buckets blru]; by split; [apply He|].
Qed.
End BucketFacts.

Fixpoint takes (l : dailyLimiter) (hist : list (Addr * time)) : list bool * dailyLimiter :=
  match hist with
  | [] => ([], l)
  | (src, now) :: hist' =>
      let '(b, l1) := take_ l src now in
      let '(bs, l2) := takes l1 hist' in (b :: bs, l2)
  end.

Fixpoint allows {F} `{Float64 F} (l : bucketLimiter F) (hist : list (Addr * time)) : bucketLimiter F :=
  match hist with [] => l | (src, now) :: hist' => allows (allow l src now).2 hist' end.

(** Whatever the traffic, a limiter tracks at most its maximum of sources, and
    its recency list names exactly the tracked sources, each once. *)
Lemma limiters_bounded {F} `{Float64 F} lim (r b : F) hist :
  lruOk limiterMaxSources (counts (takes (newDailyLimiter lim) hist).2) (dlru (takes (newDailyLimiter lim) hist).2) /\
  lruOk limiterMaxSources (buckets (allows (newBucketLimiter r b) hist)) (blru (allows (newBucketLimiter r b) hist)).
Proof.
  assert (HD : forall hist l, dmax l = limiterMaxSources -> dailyOk l ->
    lruOk limiterMaxSources (counts (takes l hist).2) (dlru (takes l hist).2)).
  { clear. induction hist as [|[src now] hist IH]; intros l Hm Hok; cbn [takes].
    - rewrite <- Hm. exact Hok.
    - destruct (take_ok l src now) as [Hok' Hm']; [rewrite Hm; done|done|].
      destruct (take_ l src now) as [v l1]. specialize (IH l1). cbn [snd] in *.
      destruct (takes l1 hist) as [bs l2]. cbn [snd] in *. apply IH; [congruence|done]. }
  assert (HB : forall hist (l : bucketLimiter F), bmax l = limiterMaxSources -> bucketsOk l ->
    lruOk limiterMaxSources (buckets (allows l hist)) (blru (allows l hist))).
  { clear. induction hist as [|[src now] hist IH]; intros l Hm Hok; cbn [allows].
    - rewrite <- Hm. exact Hok.
    - destruct (allow_ok l src now) as [Hok' Hm']; [rewrite Hm; done|done|]. apply IH; [congruence|done]. }
  split; [apply HD|apply HB]; try done; by apply lruOk_empty.
Qed.

(** ** The daily limit *)

(** How often [k] occurs. *)
Definition occurs (k : Prefix) (l : list Prefix) : Z :=
  Z.of_nat (length (List.filter (fun x => bool_decide (x = k)) l)).

Lemma occurs_cons k x l : occurs k (x :: l) = (if bool_decide (x = k) then 1 else 0) + occurs k l.
Proof. unfold occurs. cbn [List.filter]. case_bool_decide; cbn [length]; lia. Qed.

Lemma occurs_notin k l : (k ∉ l) -> occurs k l = 0.
Proof.
  induction l as [|x l IH]; [done|]. rewrite not_elem_of_cons, occurs_cons. intros [Hne Hl].
  rewrite bool_decide_false, IH by congruence. done.
Qed.

(** The reference: the [i]-th report of a source is accepted while [i] is within
    the limit. *)
Fixpoint underLimit (lim : Z) (seen keys : list Prefix) : list bool :=
  match keys with
  | [] => []
  | k :: keys' => (occurs k seen <? lim) :: underLimit lim (k :: seen) keys'
  end.

(** The counts are those of the sources seen today. *)
Definition countsAre (lim : Z) (seen : list Prefix) (m : gmap Prefix Z) : Prop :=
  forall k, m !! k = if bool_decide (k ∈ seen) then Some (Z.min lim (occurs k seen)) else None.

Definition keySet (l : list Prefix) : gset Prefix := list_to_set l.

Lemma countsAre_size lim seen m : countsAre lim seen m -> size m = size (keySet seen).
Proof.
  intros H. rewrite <- size_dom. f_equal. apply set_eq. intros k.
  unfold keySet. rewrite elem_of_dom, elem_of_list_to_set, H.
  case_bool_decide; split; try done; by intros [? ?].
Qed.

Lemma countsAre_bump lim seen m k :
  countsAre lim seen m ->
  countsAre lim (k :: seen) (<[k := Z.min lim (1 + occurs k seen)]> m).
Proof.
  intros H x. destruct (decide (x = k)) as [->|Hne].
  - rewrite lookup_insert_eq, bool_decide_true by (by left). by rewrite occurs_cons, bool_decide_true.
  - rewrite lookup_insert_ne, H by done. rewrite occurs_cons, (bool_decide_false (k = x)) by congruence.
    destruct (decide (x ∈ seen)) as [Hx|Hx].
    + by rewrite !bool_decide_true by (done || by right).
    + rewrite !bool_decide_false; [done| |done]. rewrite elem_of_cons. by intros [|].
Qed.

(** One report, on a limiter whose day is right or which is new. *)
Lemma take_exact lim seen l src now d :
  0 < lim -> limit l = lim -> dayString now = d -> countsAre lim seen (counts l) ->
  day l = d \/ seen = [] -> Z.of_nat (size (keySet (sourceKey src :: seen))) <= dmax l ->
  exists l', take_ l src now = (occurs (sourceKey src) seen <? lim, l') /\
    limit l' = lim /\ day l' = d /\ dmax l' = dmax l /\ countsAre lim (sourceKey src :: seen) (counts l').
Proof.
  intros Hpos Hlim Hd Hc Hday Hroom. unfold take_. destruct (Z.leb_spec (limit l) 0); [lia|].
  set (l' := if negb _ then _ else l).
  assert (Hl' : limit l' = lim /\ day l' = d /\ dmax l' = dmax l /\ countsAre lim seen (counts l')).
  { unfold l'. destruct (String.eqb_spec (dayString now) (day l)) as [E|E]; cbn [negb].
    - split_and!; try done. congruence.
    - split_and!; try done. cbn [counts]. destruct Hday as [Hday| ->]; [congruence|].
      intros k. by rewrite lookup_empty, bool_decide_false by apply not_elem_of_nil. }
  destruct Hl' as (H1 & H2 & H3 & H4). clearbody l'. set (key := sourceKey src) in *.
  pose proof (countsAre_bump _ _ _ key H4) as Hbump. pose proof (H4 key) as Hkey.
  assert (Hnn : 0 <= occurs key seen) by (unfold occurs; lia).
  destruct (bool_decide (key ∈ seen)) eqn:Ein.
  - rewrite Hkey, H1. destruct (Z.leb_spec lim (Z.min lim (occurs key seen))).
    + eexists. split; [by destruct (Z.ltb_spec (occurs key seen) lim); [lia|]|].
      cbn [limit day dmax counts]. split_and!; try done.
      rewrite Z.min_l in Hbump by lia. rewrite insert_id in Hbump; [done|]. rewrite Hkey. f_equal. lia.
    + eexists. split; [by destruct (Z.ltb_spec (occurs key seen) lim); [|lia]|].
      cbn [limit day dmax counts]. split_and!; try done.
      replace (Z.min lim (occurs key seen) + 1) with (Z.min lim (1 + occurs key seen)) by lia. done.
  - rewrite Hkey. apply bool_decide_eq_false in Ein. rewrite occurs_notin in * by done.
    assert (Hev : evict (dmax l') (counts l') (dlru l') = (counts l', dlru l')).
    { unfold evict. rewrite (countsAre_size _ _ _ H4), H3.
      destruct (Z.leb_spec (dmax l) (Z.of_nat (size (keySet seen)))); [|done].
      unfold keySet in *. cbn [list_to_set] in Hroom.
      rewrite size_union, size_singleton in Hroom by (by rewrite disjoint_singleton_l, elem_of_list_to_set). lia. }
    rewrite Hev, H1. destruct (Z.leb_spec lim 0); [lia|]. eexists. split.
    + by destruct (Z.ltb_spec 0 lim); [|lia].
    + cbn [limit day dmax counts]. split_and!; try done.
      rewrite insert_insert_eq. by rewrite Z.min_r in Hbump by lia.
Qed.

Lemma takes_exact lim d hist : 0 < lim -> Forall (fun st => dayString st.2 = d) hist -> forall seen l,
  limit l = lim -> countsAre lim seen (counts l) -> day l = d \/ seen = [] ->
  Z.of_nat (size (keySet (map (fun st => sourceKey st.1) hist ++ seen))) <= dmax l ->
  (takes l hist).1 = underLimit lim seen (map (fun st => sourceKey st.1) hist).
Proof.
  intros Hpos. induction 1 as [|[src now] hist Hd Hdays IH]; intros seen l Hl Hc Hday Hroom; [done|].
  cbn [takes map underLimit fst snd app] in *.
  assert (Hroom1 : Z.of_nat (size (keySet (sourceKey src :: seen))) <= dmax l).
  { etrans; [|exact Hroom]. apply Nat2Z.inj_le. apply subseteq_size. unfold keySet. cbn [list_to_set].
    rewrite list_to_set_app. set_solver. }
  destruct (take_exact lim seen l src now d Hpos Hl Hd Hc Hday Hroom1) as (l' & E & H1 & H2 & H3 & H4).
  rewrite E. specialize (IH (sourceKey src :: seen) l' H1 H4 (or_introl H2)).
  destruct (takes l' hist) as [bs l2]. cbn [fst] in *. f_equal. apply IH. rewrite H3.
  etrans; [|exact Hroom]. apply Nat2Z.inj_le. apply subseteq_size. unfold keySet. cbn [list_to_set].
  rewrite !list_to_set_app. cbn [list_to_set]. set_solver.
Qed.

(** On one UTC day, with no more distinct sources than the limiter tracks, the
    [i]-th report of a source is accepted exactly when [i] is within the limit. *)
Lemma daily_limit_exact lim d hist :
  0 < lim -> Forall (fun st => dayString st.2 = d) hist ->
  Z.of_nat (size (keySet (map (fun st => sourceKey st.1) hist))) <= limiterMaxSources ->
  (takes (newDailyLimiter lim) hist).1 = underLimit lim [] (map (fun st => sourceKey st.1) hist).
Proof.
  intros Hpos Hd Hroom. apply (takes_exact lim d hist Hpos Hd []); [done| |by right|by rewrite app_nil_r].
  intros k. cbn [newDailyLimiter counts]. by rewrite lookup_empty, bool_decide_false by apply not_elem_of_nil.
Qed.

Lemma daily_limit_exact_witness :
  (takes (newDailyLimiter 2) [(A4 1, 5); (A4 2, 6); (A4 1, 7); (A6 (0xffff * 2 ^ 32 + 1) EmptyString, 8)]).1 =
  [true; true; true; false].
Proof.
  rewrite (daily_limit_exact 2 (dayString 5)).
  - vm_compute. reflexivity.
  - lia.
  - repeat constructor; vm_compute; reflexivity.
  - vm_compute. done.
Defined.

(** ** Sources *)

Section SourceFacts.
Context (ParseAddr : string -> option Addr) (SplitHost : string -> option string).
Abbreviation sourceIP := (sourceIP ParseAddr SplitHost).
Abbreviation peerAddr := (peerAddr ParseAddr SplitHost).

(** A client cannot choose the source it counts against.  Talking to the
    receiver directly, its X-Forwarded-For headers are ignored; behind a
    trusted proxy that appends the address it sees, whatever the client put
    before it is ignored too. *)
Lemma source_not_spoofable remote (trusted : list Prefix) (client : list string) (last_ : string) a :
  (inPrefixes trusted (peerAddr remote) = false -> sourceIP remote client trusted = peerAddr remote) /\
  (peerAddr remote <> AInvalid -> inPrefixes trusted (peerAddr remote) = true ->
   token last_ = true -> free_of ","%char last_ = true -> ParseAddr last_ = Some a ->
   inPrefixes trusted (WithoutZone (Unmap a)) = false ->
   sourceIP remote (client ++ [last_])%list trusted = WithoutZone (Unmap a)).
Proof using Type.
  unfold SourceLimits.sourceIP. split.
  - intros ->. by rewrite orb_true_r.
  - intros Hv Hp Htok Hfree Ha Hun. rewrite bool_decide_false, Hp by done. cbn [negb orb].
    assert (Hsplit : exists front, split_on ","%char (Join ","%char (client ++ [last_])%list) =
      (front ++ [last_])%list).
    { destruct client as [|x client].
      - exists []. cbn [app Join]. by apply split_on_free.
      - assert (E : Join ","%char ((x :: client) ++ [last_])%list =
          Join ","%char (x :: client) +:+ String ","%char last_).
        { revert x. induction client as [|y client IH]; intros x; [done|].
          change (Join ","%char ((x :: y :: client) ++ [last_])%list)
            with (x +:+ String ","%char (Join ","%char ((y :: client) ++ [last_])%list)).
          rewrite IH. change (Join ","%char (x :: y :: client))
            with (x +:+ String ","%char (Join ","%char (y :: client))).
          by rewrite str_app_assoc, str_app_cons. }
        rewrite E, split_on_app, (split_on_free _ last_) by done. by eexists. }
    destruct Hsplit as [front ->]. rewrite rev_unit. cbn [rightmost].
    rewrite (TrimSpace_token last_ Htok), Ha. destruct (String.eqb_spec last_ EmptyString) as [->|_]; [done|].
    by rewrite Hun.
Qed.
End SourceFacts.

(** Two addresses count as one source exactly when they are the same IPv4
    address, mapped into IPv6 or not, or IPv6 addresses of the same /64; every
    unparsable peer shares one source of its own. *)
Lemma source_key_exact a b :
  sourceKey a = sourceKey b <->
  match Unmap a, Unmap b with
  | AInvalid, AInvalid => True
  | A4 v, A4 w => v = w
  | A6 v _, A6 w _ => Z.shiftr v 64 = Z.shiftr w 64
  | _, _ => False
  end.
Proof.
  unfold sourceKey, invalidKey.
  destruct (Unmap a) as [|v|v z], (Unmap b) as [|w|w z']; split; try done.
  - by intros [= ->].
  - by intros ->.
  - intros [= H]. apply (f_equal (fun x => Z.shiftr x 64)) in H.
    by rewrite !Z.shiftr_shiftl_l, !Z.shiftl_0_r in H by lia.
  - by intros ->.
Qed.

Lemma source_not_spoofable_witness :
  SourceLimits.sourceIP (fun s => if String.eqb s "10.0.0.1" then Some (A4 0x0A000001) else
      if String.eqb s "9.9.9.9" then Some (A4 0x09090909) else None) (fun _ => Some "10.0.0.1")%string
    "10.0.0.1:99"%string ["1.2.3.4"%string; "9.9.9.9"%string] [MkPrefix true 0x0A000000 8] = A4 0x09090909.
Proof.
  apply (source_not_spoofable
    (fun s => if String.eqb s "10.0.0.1" then Some (A4 0x0A000001) else
      if String.eqb s "9.9.9.9" then Some (A4 0x09090909) else None) (fun _ => Some "10.0.0.1")%string
    "10.0.0.1:99"%string [MkPrefix true 0x0A000000 8] ["1.2.3.4"%string] "9.9.9.9"%string (A4 0x09090909));
    by vm_compute.
Defined.
