(* ===== verification/GameServer.v ===== *)
(** * operator: the GameServer object and the cluster objects read beside it

    The parts of the custom resource (src/operator/api/v1alpha1/
    gameserver_types.go) and of the core Kubernetes types that the status, the
    Service and the tunnel of a server are computed from.  A Go pointer is an
    [option], a slice a list, a map a [gmap]; a nil slice or map is the empty one. *)

From S2P Require Import Prelude GoText GoTime Idle Power.
Local Open Scope Z_scope.

(** ** Spec *)

(** [PortOverride] *)
Record PortOverride := MkOverride { poName : string; poServicePort : Z; poNodePort : Z }.

(** [RemotePortMapping] and [FrpTunnelSpec] *)
Record RemotePortMapping := MkRemote { rmName : string; rmRemotePort : Z }.
Record FrpTunnelSpec := MkFrp { frpServerAddr : string; frpServerPort : Z; frpRemotePorts : list RemotePortMapping }.

(** [TailscaleTunnelSpec] *)
Record TailscaleTunnelSpec := MkTailscale { tsHostname : string; tsTags : list string }.

(** [GameServerTunnel]; the credentials reference is the Secret's name, and a
    [PlayitTunnelSpec] is its tunnel name. *)
Record GameServerTunnel := MkTunnel {
  tEnabled : bool;
  tProvider : string;
  tCredentials : option string;
  tFrp : option FrpTunnelSpec;
  tTailscale : option TailscaleTunnelSpec;
  tPlayit : option string
}.

(** [GameServerNetworking] *)
Record GameServerNetworking := MkNet {
  Expose : string;
  Hostname : string;
  ServiceAnnotations : gmap string string;
  PortOverrides : list PortOverride;
  SourceRanges : list string;
  AddressPool : string;
  Address : string;
  Tunnel : option GameServerTunnel
}.

(** ** Status *)

(** [GameServerPhase] *)
Inductive GameServerPhase :=
| PhasePending | PhaseStarting | PhaseRunning | PhaseStopping | PhaseStopped | PhaseSuspended | PhaseFailed.

#[export] Instance phase_eq_dec : EqDecision GameServerPhase.
Proof. solve_decision. Defined.

(** [GameServerEndpoint] *)
Record GameServerEndpoint := MkEndpoint {
  epName : string;
  epHost : string;
  epPort : Z;
  epProtocol : string;
  epPrivate : bool;
  epTunnelProvider : string;
  epPool : string
}.

#[export] Instance endpoint_eq_dec : EqDecision GameServerEndpoint.
Proof. solve_decision. Defined.
#[export] Instance condition_eq_dec : EqDecision Condition.
Proof. solve_decision. Defined.
#[export] Instance idle_reason_eq_dec : EqDecision reason.
Proof. solve_decision. Defined.
#[export] Instance idleStatus_eq_dec : EqDecision IdleStatus.
Proof. solve_decision. Defined.

(** [GameServerStatus], the fields the status of a server is made of.  [Agent] is
    what the agent wrote: [None] no report, [Some None] a report without a
    heartbeat.  The template revision, the last backup and the capture status
    have their own writers. *)
Record GameServerStatus := MkStatus {
  stPhase : option GameServerPhase;
  stObservedGeneration : Z;
  stConditions : list Condition;
  stConditionArgs : gmap string (gmap string string);
  stEndpoints : list GameServerEndpoint;
  stAgent : option (option time);
  stStartedAt : option time;
  stIdle : option IdleStatus;
  stTunnelEndpoints : list GameServerEndpoint
}.

#[export] Instance status_eq_dec : EqDecision GameServerStatus.
Proof. solve_decision. Defined.

Definition set_conditions (s : GameServerStatus) (c : list Condition) : GameServerStatus :=
  MkStatus (stPhase s) (stObservedGeneration s) c (stConditionArgs s) (stEndpoints s) (stAgent s)
    (stStartedAt s) (stIdle s) (stTunnelEndpoints s).

(** ** The object *)

(** [GameServer] *)
Record GameServer := MkGS {
  gsName : string;
  gsNamespace : string;
  gsGeneration : Z;
  gsCreationTimestamp : time;
  gsDeletionTimestamp : option time;
  gsSuspend : bool;
  gsNetworking : GameServerNetworking;
  gsStatus : GameServerStatus
}.
Definition set_status (gs : GameServer) (s : GameServerStatus) : GameServer :=
  MkGS (gsName gs) (gsNamespace gs) (gsGeneration gs) (gsCreationTimestamp gs) (gsDeletionTimestamp gs)
    (gsSuspend gs) (gsNetworking gs) s.

(** ** Cluster objects *)

(** What a read of the cluster returns: the object, a NotFound error, or another
    error. *)
Inductive read (A : Type) := Found (a : A) | NotFound | ReadError.
#[global] Arguments Found {A} a.
#[global] Arguments NotFound {A}.
#[global] Arguments ReadError {A}.

(** [corev1.ServicePort] and [corev1.Service] *)
Record ServicePort := MkServicePort {
  spName : string; spPort : Z; spTargetPort : Z; spProtocol : string; spNodePort : Z }.
Record Service := MkService {
  svcType : string;
  svcClusterIP : string;
  svcPorts : list ServicePort;
  svcSelector : gmap string string;
  svcSourceRanges : list string;
  svcAnnotations : gmap string string;
  svcLabels : gmap string string;
  svcIngress : list (string * string);       (* hostname, IP *)
  svcConditions : list Condition
}.

(** [meta.FindStatusCondition] and [meta.IsStatusConditionTrue] *)
Definition FindStatusCondition (conds : list Condition) (ty : string) : option Condition :=
  List.find (fun c => String.eqb (cType c) ty) conds.
Definition IsStatusConditionTrue (conds : list Condition) (ty : string) : bool :=
  match FindStatusCondition conds ty with Some c => String.eqb (cStatus c) "True" | None => false end.

(** [removeCondition] *)
Definition removeCondition (conds : list Condition) (ty : string) : list Condition :=
  List.filter (fun c => negb (String.eqb (cType c) ty)) conds.

(** A condition as the operator writes it, its transition time unset. *)
Definition cond (ty status reason message : string) (gen : Z) : Condition :=
  MkCond ty status reason message gen zero_time.

(** ** Lemmas on condition lists *)

Lemma upsert_find conds c t ty :
  FindStatusCondition (upsertCondition conds c t) ty =
  if String.eqb (cType c) ty
  then Some (with_transition c (match FindStatusCondition conds ty with
             | None => if IsZero (cLastTransition c) then t else cLastTransition c
             | Some d => if String.eqb (cStatus d) (cStatus c) then cLastTransition d else t end))
  else FindStatusCondition conds ty.
Proof.
  unfold FindStatusCondition. induction conds as [|d conds IH]; cbn [upsertCondition List.find].
  - destruct (String.eqb_spec (cType c) ty) as [<-|]; destruct (IsZero _); cbn;
      rewrite ?String.eqb_refl; [done|by destruct c|by rewrite (proj2 (String.eqb_neq _ _))..].
  - destruct (String.eqb_spec (cType d) (cType c)) as [E|E]; cbn [negb List.find cType with_transition].
    + rewrite E. destruct (String.eqb_spec (cType c) ty); [|done]. by destruct (String.eqb (cStatus d) (cStatus c)).
    + rewrite IH. destruct (String.eqb_spec (cType d) ty) as [<-|]; [|done].
      by rewrite (proj2 (String.eqb_neq _ _)).
Qed.

Lemma remove_find conds ty ty' :
  FindStatusCondition (removeCondition conds ty') ty =
  if String.eqb ty' ty then None else FindStatusCondition conds ty.
Proof.
  unfold FindStatusCondition, removeCondition. induction conds as [|d conds IH]; cbn [List.filter List.find].
  - by destruct (String.eqb _ _).
  - destruct (String.eqb_spec (cType d) ty') as [->|E]; cbn [negb List.find].
    + rewrite IH. by destruct (String.eqb_spec ty' ty).
    + rewrite IH. destruct (String.eqb_spec (cType d) ty) as [<-|]; [|done].
      by rewrite (proj2 (String.eqb_neq _ _)).
Qed.

Lemma remove_types conds ty : NoDup (map cType conds) -> NoDup (map cType (removeCondition conds ty)).
Proof.
  induction conds as [|d conds IH]; [done|]. cbn [map removeCondition List.filter].
  intros [Hd Hnd]%NoDup_cons. destruct (String.eqb (cType d) ty); cbn [negb map]; [by apply IH|].
  apply NoDup_cons. split; [|by apply IH]. intros Hin. apply Hd. revert Hin. clear.
  unfold removeCondition. induction conds as [|e conds IH]; cbn; [done|].
  destruct (String.eqb _ _); cbn; set_solver.
Qed.

Lemma find_In conds ty c : FindStatusCondition conds ty = Some c -> c ∈ conds /\ cType c = ty.
Proof. intros [H1 H2%String.eqb_eq]%List.find_some. split; [by apply list_elem_of_In|done]. Qed.
