(* ===== verification/Address.v ===== *)
(** * operator: the game Service and the address of a server

    The Service in front of a game (src/operator/internal/controller/
    gameserver_controller.go, [reconcileService] with the metadata it manages),
    the plan for a requested pool or address, who holds a contested address
    ([findAddressConflict]), and what is reported about the request
    (gameserver_status.go, [addressAssignmentCondition]).  The IP parser, [%q],
    the Unicode tables and [sort.Slice] are section variables. *)

From Stdlib Require Import Ascii.
From S2P Require Import Prelude GoText GoToken GoTime Idle Power GameServer.
Local Open Scope Z_scope.

(** A map lookup as in Go: the zero value when the key is absent. *)
Definition at_ (m : gmap string string) (k : string) : string := default EmptyString (m !! k).
Definition has (m : gmap string string) (k : string) : bool := bool_decide (k ∈ dom m).
Definition isEmpty (s : string) : bool := String.eqb s EmptyString.

Lemma Join_nonempty c (l : list string) : l <> [] -> Forall (fun s => isEmpty s = false) l -> isEmpty (Join c l) = false.
Proof.
  intros Hne H. destruct H as [|s l Hs H]; [done|]. destruct l as [|s' l]; [done|].
  change (Join c (s :: s' :: l)) with (s +:+ String c (Join c (s' :: l))). by destruct s.
Qed.

(** ** Managed metadata *)

Definition managedServiceAnnotationsKey : string := "gameplane.local/managed-service-annotations".
Definition managedServiceLabelsKey : string := "gameplane.local/managed-service-labels".
Definition externalDNSHostnameAnnotation : string := "external-dns.alpha.kubernetes.io/hostname".
Definition metalLBAddressPoolAnnotation : string := "metallb.io/address-pool".
Definition metalLBLoadBalancerIPsAnnotation : string := "metallb.io/loadBalancerIPs".
Definition ciliumAddressAnnotation : string := "lbipam.cilium.io/ips".
Definition ciliumPoolLabel : string := "gameplane.local/lb-pool".
Definition addressManagerMetalLB : string := "metallb".
Definition addressManagerCilium : string := "cilium".

(** [desiredServiceAnnotations] *)
Definition desiredServiceAnnotations (n : GameServerNetworking) : gmap string string :=
  if isEmpty (Hostname n) then ServiceAnnotations n
  else <[externalDNSHostnameAnnotation := Hostname n]> (ServiceAnnotations n).

(** The keys of [prev] that are no longer desired, dropped. *)
Definition prune (prev : string) (desired m : gmap string string) : gmap string string :=
  if isEmpty prev then m
  else foldl (fun m k => if has desired k then m else delete k m) m (split_on ","%char prev).

(** The bookkeeping annotation: the managed keys, or nothing. *)
Definition record_keys (key : string) (desired ann : gmap string string) : gmap string string :=
  if bool_decide (desired = ∅) then delete key ann
  else <[key := Join ","%char (sorted_keys desired)]> ann.

(** [applyManagedServiceAnnotations] *)
Definition applyManagedServiceAnnotations (ann desired : gmap string string) : gmap string string :=
  record_keys managedServiceAnnotationsKey desired
    (desired ∪ prune (at_ ann managedServiceAnnotationsKey) desired ann).

(** [applyManagedServiceLabels]: the annotations and the labels afterwards. *)
Definition applyManagedServiceLabels (ann labels desired : gmap string string)
  : gmap string string * gmap string string :=
  let prev := at_ ann managedServiceLabelsKey in
  if isEmpty prev && bool_decide (desired = ∅) then (ann, labels)
  else (record_keys managedServiceLabelsKey desired ann, desired ∪ prune prev desired labels).

(** ** The plan for a requested address *)

(** [poolExistence] and [checkMetalLBPoolExists], from what the read of the
    IPAddressPool returns. *)
Inductive poolExistence := poolExistenceUnknown | poolExistenceFound | poolExistenceMissing.
Definition checkMetalLBPoolExists (r : read unit) : poolExistence :=
  match r with
  | Found _ => poolExistenceFound
  | NotFound => poolExistenceMissing
  | ReadError => poolExistenceUnknown
  end.

(** [metalLBNamespace] *)
Definition metalLBNamespace (configured : string) : string :=
  if isEmpty configured then "metallb-system" else configured.

(** [addressPlanOutcome] and [addressPlan] *)
Inductive addressPlanOutcome :=
| addressPlanNotRequested
| addressPlanTranslated
| addressPlanIgnoredForExposureMode
| addressPlanNoAddressManagerConfigured
| addressPlanInvalidAddress.

#[export] Instance outcome_eq_dec : EqDecision addressPlanOutcome.
Proof. solve_decision. Defined.

Record addressPlan := MkAddrPlan { Manager : string; Pool : string; PAddress : string; Outcome : addressPlanOutcome }.

(** [addressPlan.requested] *)
Definition requested (p : addressPlan) : bool := negb (isEmpty (Pool p)) || negb (isEmpty (PAddress p)).

Section Plan.
(** Whether [netip.ParseAddr] accepts a text ([isValidAddress]). *)
Variable isValidAddress : string -> bool.

(** [planAddressPreference] *)
Definition planAddressPreference (n : GameServerNetworking) (manager : string) : addressPlan :=
  let p := MkAddrPlan manager (AddressPool n) (Address n) in
  if negb (requested (p addressPlanNotRequested)) then p addressPlanNotRequested
  else if negb (String.eqb (Expose n) "LoadBalancer") then p addressPlanIgnoredForExposureMode
  else if negb (isEmpty (Address n)) && negb (isValidAddress (Address n)) then p addressPlanInvalidAddress
  else if String.eqb manager addressManagerMetalLB || String.eqb manager addressManagerCilium
  then p addressPlanTranslated
  else p addressPlanNoAddressManagerConfigured.
End Plan.

Definition put_if (k v : string) (m : gmap string string) : gmap string string :=
  if isEmpty v then m else <[k := v]> m.

(** [addressPlan.serviceAnnotations] *)
Definition serviceAnnotations (p : addressPlan) : gmap string string :=
  if negb (bool_decide (Outcome p = addressPlanTranslated)) then ∅
  else if String.eqb (Manager p) addressManagerMetalLB then
    put_if metalLBLoadBalancerIPsAnnotation (PAddress p) (put_if metalLBAddressPoolAnnotation (Pool p) ∅)
  else if String.eqb (Manager p) addressManagerCilium then put_if ciliumAddressAnnotation (PAddress p) ∅
  else ∅.

(** [addressPlan.serviceLabels] *)
Definition serviceLabels (p : addressPlan) : gmap string string :=
  if negb (bool_decide (Outcome p = addressPlanTranslated)) || negb (String.eqb (Manager p) addressManagerCilium)
     || isEmpty (Pool p) then ∅
  else {[ciliumPoolLabel := Pool p]}.

(** ** The Service *)

(** [svcPortsFromTemplate]; a later override of a name replaces an earlier one. *)
Definition findOverride (os : list PortOverride) (name : string) : option PortOverride :=
  List.find (fun o => String.eqb (poName o) name) (rev os).

Definition servicePort (os : list PortOverride) (p : GamePort) : ServicePort :=
  let o := findOverride os (gpName p) in
  let port := match o with
              | Some o => if poServicePort o =? 0 then gpContainerPort p else poServicePort o
              | None => gpContainerPort p
              end in
  let nodePort := match o with Some o => poNodePort o | None => 0 end in
  MkServicePort (gpName p) port (gpContainerPort p) (if isEmpty (gpProtocol p) then "TCP" else gpProtocol p) nodePort.

Definition svcPortsFromTemplate (ports : list GamePort) (n : GameServerNetworking) : list ServicePort :=
  map (servicePort (PortOverrides n)) (List.filter gpAdvertise ports).

(** The selector of the game pod or of its sentinel. *)
Definition selectorFor (name : string) (routeToSentinel : bool) : gmap string string :=
  {["app.kubernetes.io/name" := if routeToSentinel then "gameplane-waker" else "gameplane-game";
    "app.kubernetes.io/instance" := name]}.

(** [reconcileService]: the mutation of the Service, new ([empty_service]) or
    as read. *)
Definition empty_service : Service := MkService EmptyString EmptyString [] ∅ [] ∅ ∅ [] [].

Definition reconcileService (isValidAddress : string -> bool) (manager : string) (gs : GameServer)
    (ports : list GamePort) (routeToSentinel : bool) (svc : Service) : Service :=
  let n := gsNetworking gs in
  let ty := if String.eqb (Expose n) "NodePort" then "NodePort"
            else if String.eqb (Expose n) "LoadBalancer" then "LoadBalancer" else "ClusterIP" in
  let plan := planAddressPreference isValidAddress n manager in
  let desired := serviceAnnotations plan ∪ desiredServiceAnnotations n in
  let ann := applyManagedServiceAnnotations (svcAnnotations svc) desired in
  let '(ann, labels) := applyManagedServiceLabels ann (svcLabels svc) (serviceLabels plan) in
  MkService ty (svcClusterIP svc) (svcPortsFromTemplate ports n) (selectorFor (gsName gs) routeToSentinel)
    (if String.eqb ty "LoadBalancer" then SourceRanges n else []) ann labels (svcIngress svc) (svcConditions svc).

(** [loadBalancerAddress] *)
Definition loadBalancerAddress (svc : option Service) : string :=
  match svc with
  | None => EmptyString
  | Some s =>
      if negb (String.eqb (svcType s) "LoadBalancer") then EmptyString
      else match svcIngress s with
      | [] => EmptyString
      | (hostname, ip) :: _ => if isEmpty hostname then ip else hostname
      end
  end.

(** [endpointsFromService] *)
Definition endpointsFromService (svc : Service) (plan : addressPlan) : list GameServerEndpoint :=
  let addr := loadBalancerAddress (Some svc) in
  let host := if isEmpty addr then svcClusterIP svc else addr in
  let pool := if negb (isEmpty addr) && bool_decide (Outcome plan = addressPlanTranslated)
              then Pool plan else EmptyString in
  map (fun p => MkEndpoint (spName p) host
                  (if String.eqb (svcType svc) "NodePort" && negb (spNodePort p =? 0) then spNodePort p else spPort p)
                  (spProtocol p) false EmptyString pool) (svcPorts svc).

(** ** Failures the address manager reports *)

(** [addressFailureReason] *)
Record addressFailureReason := MkFailure { afReason : string; afMessage : string; confirmedClear : bool }.
Definition noFailure : addressFailureReason := MkFailure EmptyString EmptyString false.

(** [corev1.Event], the fields in use. *)
Record Event := MkEvent {
  evType : string;
  evReason : string;
  evMessage : string;
  evComponent : string;
  evReportingController : string;
  evKind : string;
  evName : string;
  evUID : string
}.

Definition addressManagerEventSources : list string := ["metallb"; "kube-vip"; "purelb"; "openelb"].

Definition dquote : string := String (Ascii.ascii_of_nat 34) EmptyString.
Definition allocationFailedPrefix : string := "Failed to allocate IP for " +:+ dquote.

(** [stripAllocationFailedPrefix] *)
Definition stripAllocationFailedPrefix (msg : string) : string :=
  if negb (HasPrefix msg allocationFailedPrefix) then msg
  else match after_first (drop_str (String.length allocationFailedPrefix) msg) (dquote +:+ ": ") with
  | Some text => text
  | None => msg
  end.

(** [extractAddressFailureFromCiliumCondition] *)
Definition extractAddressFailureFromCiliumCondition (svc : option Service) : addressFailureReason :=
  match svc with
  | None => noFailure
  | Some s =>
      match FindStatusCondition (svcConditions s) "cilium.io/IPAMRequestSatisfied" with
      | None => noFailure
      | Some c =>
          if String.eqb (cStatus c) "True" then noFailure
          else if String.eqb (cReason c) "no_pool" then MkFailure "PoolNotFound" (cMessage c) false
          else if String.eqb (cReason c) "out_of_ips" then MkFailure "AllocationFailed" (cMessage c) false
          else noFailure
      end
  end.

(** [listServiceEvents]: whether the AddressAssignment condition makes the read
    unnecessary, and the events of the Service ([svcUID] is [None] when the
    Service is not readable, [events] is [None] when the list fails). *)
Definition AddressAssignment : string := "AddressAssignment".

Definition eventsSettled (st : GameServerStatus) : bool :=
  match FindStatusCondition (stConditions st) AddressAssignment with
  | None => false
  | Some c =>
      if String.eqb (cStatus c) "True" then negb (bool_decide (stEndpoints st = []))
      else bool_decide (cReason c ∈ ["IgnoredForExposureMode"; "NoAddressManagerConfigured"; "AddressInUse";
                                     "PoolNotFound"; "AllocationFailed"])
  end.

Definition eventMatches (name : string) (svcUID : option string) (ev : Event) : bool :=
  String.eqb (evKind ev) "Service" && String.eqb (evName ev) name &&
  match svcUID with
  | Some uid => isEmpty (evUID ev) || String.eqb (evUID ev) uid
  | None => true
  end.

Definition listServiceEvents (gs : GameServer) (svcUID : option string) (events : option (list Event))
  : result unit (list Event) :=
  if eventsSettled (gsStatus gs) then Ok []
  else match events with
  | None => Err ()
  | Some evs => Ok (List.filter (eventMatches (gsName gs) svcUID) evs)
  end.

(** What [Reconcile] hands on of them. *)
Definition serviceEvents (gs : GameServer) (svcUID : option string) (events : option (list Event)) : list Event :=
  if isEmpty (AddressPool (gsNetworking gs)) && isEmpty (Address (gsNetworking gs)) then []
  else match listServiceEvents gs svcUID events with Ok evs => evs | Err _ => [] end.

(** [addressRequestSummary] *)
Definition addressRequestSummary (p : addressPlan) : string :=
  if negb (isEmpty (Pool p)) && negb (isEmpty (PAddress p))
  then "address '" +:+ PAddress p +:+ "' from pool '" +:+ Pool p +:+ "'"
  else if negb (isEmpty (PAddress p)) then "address '" +:+ PAddress p +:+ "'"
  else "pool '" +:+ Pool p +:+ "'".

Section Report.
(** [unicode.ToLower] past ASCII, and the [%q] verb. *)
Variable uni : Z -> Z.
Variable Quote : string -> string.

(** [fromAddressManager] *)
Definition fromAddressManager (ev : Event) : bool :=
  existsb (fun field => negb (isEmpty field) &&
             existsb (Contains (ToLower uni field)) addressManagerEventSources)
    [evComponent ev; evReportingController ev].

(** [extractAddressFailureFromEvents] *)
Fixpoint extractAddressFailureFromEvents (events : list Event) : addressFailureReason :=
  match events with
  | [] => noFailure
  | ev :: rest =>
      if negb (String.eqb (evType ev) "Warning") || negb (String.eqb (evReason ev) "AllocationFailed")
      then extractAddressFailureFromEvents rest
      else if negb (fromAddressManager ev) then extractAddressFailureFromEvents rest
      else MkFailure "AllocationFailed" (stripAllocationFailedPrefix (evMessage ev)) false
  end.

(** The failure [reconcileStatus] hands to the condition: the Service condition
    for Cilium, the events and the pool for MetalLB. *)
Definition addressFailure (plan : addressPlan) (svc : option Service) (events : list Event)
    (poolRead : read unit) (metalLBNs : string) : addressFailureReason :=
  let failure := extractAddressFailureFromEvents events in
  let translated := bool_decide (Outcome plan = addressPlanTranslated) in
  if translated && String.eqb (Manager plan) addressManagerCilium
  then extractAddressFailureFromCiliumCondition svc
  else if translated && String.eqb (Manager plan) addressManagerMetalLB && negb (isEmpty (Pool plan)) then
    match checkMetalLBPoolExists poolRead with
    | poolExistenceMissing =>
        MkFailure "PoolNotFound"
          ("IPAddressPool " +:+ Quote (Pool plan) +:+ " not found in namespace " +:+
             Quote (metalLBNamespace metalLBNs) +:+ ".") false
    | poolExistenceFound =>
        if isEmpty (afReason failure) then MkFailure (afReason failure) (afMessage failure) true else failure
    | poolExistenceUnknown => failure
    end
  else failure.

(** The status, reason and message [addressAssignmentCondition] decides on, in
    the order of its cases. *)
Definition latched (existing : option Condition) (gen : Z) (failure : addressFailureReason) : option Condition :=
  match existing with
  | Some e =>
      if (cObservedGeneration e =? gen) &&
         (String.eqb (cReason e) "PoolNotFound" || String.eqb (cReason e) "AllocationFailed") &&
         (negb (confirmedClear failure) || negb (String.eqb (cReason e) "PoolNotFound"))
      then Some e else None
  | None => None
  end.

Definition addressVerdict (existing : option Condition) (gs : GameServer) (plan : addressPlan)
    (svc : option Service) (failure : addressFailureReason) (conflictingServer : string)
  : string * string * string :=
  let n := gsNetworking gs in
  let assigned := loadBalancerAddress svc in
  match Outcome plan with
  | addressPlanIgnoredForExposureMode =>
      ("False", "IgnoredForExposureMode",
       "Requested " +:+ addressRequestSummary plan +:+
         " is ignored: it applies only to expose mode 'LoadBalancer', and this server is exposed as '" +:+
         (if isEmpty (Expose n) then "ClusterIP" else Expose n) +:+ "'.")
  | addressPlanInvalidAddress =>
      ("False", "InvalidAddress", "Requested address " +:+ Quote (Address n) +:+ " is not a valid IP address.")
  | addressPlanNoAddressManagerConfigured =>
      ("False", "NoAddressManagerConfigured",
       "Requested " +:+ addressRequestSummary plan +:+
         " cannot be honored: this cluster has no load-balancer address manager configured, so any address the server receives comes from the default assignment policy.")
  | _ =>
      if negb (isEmpty conflictingServer) then
        ("False", "AddressInUse", "Requested address " +:+ Quote (Address n) +:+
           " is already in use by GameServer " +:+ Quote conflictingServer +:+ ".")
      else if negb (isEmpty (afReason failure)) then ("False", afReason failure, afMessage failure)
      else match (if isEmpty assigned then latched existing (gsGeneration gs) failure else None) with
      | Some e => ("False", cReason e, cMessage e)
      | None =>
          if match svc with None => true | Some s => negb (String.eqb (svcType s) "LoadBalancer") end then
            ("False", "ServiceNotReady", "Requested " +:+ addressRequestSummary plan +:+
               ": waiting for the LoadBalancer Service carrying the request to exist.")
          else if isEmpty assigned then
            ("False", "AssignmentPending", "Requested " +:+ addressRequestSummary plan +:+
               ": the address manager has not assigned an address yet.")
          else if negb (isEmpty (Pool plan)) then
            ("True", "Assigned", "Address " +:+ assigned +:+ " assigned from pool '" +:+ Pool plan +:+ "'.")
          else ("True", "Assigned", "Address " +:+ assigned +:+ " assigned.")
      end
  end.

(** [addressAssignmentCondition] *)
Definition addressAssignmentCondition (conds : list Condition) (gs : GameServer) (plan : addressPlan)
    (svc : option Service) (failure : addressFailureReason) (conflictingServer : string) (now : time)
  : list Condition :=
  if negb (requested plan) then removeCondition conds AddressAssignment
  else
    let '(status, reason_, message) :=
      addressVerdict (FindStatusCondition conds AddressAssignment) gs plan svc failure conflictingServer in
    upsertCondition conds (cond AddressAssignment status reason_ message (gsGeneration gs)) now.
End Report.

(** ** Who holds a contested address *)

(** [candidateHoldsAddress] *)
Definition candidateHoldsAddress (gs : GameServer) (addr : string) : bool :=
  String.eqb (Expose (gsNetworking gs)) "LoadBalancer" &&
  existsb (fun e => isEmpty (epTunnelProvider e) && String.eqb (epHost e) addr) (stEndpoints (gsStatus gs)).

(** [addressCandidate] *)
Record addressCandidate := MkCandidate { cgs : GameServer; holds : bool }.

(** [addressConflictLess] *)
Definition addressConflictLess (a b : addressCandidate) : bool :=
  if negb (Bool.eqb (holds a) (holds b)) then holds a
  else
    let at0 := gsCreationTimestamp (cgs a) in
    let bt := gsCreationTimestamp (cgs b) in
    if negb (at0 =? bt) then Before at0 bt
    else if negb (String.eqb (gsNamespace (cgs a)) (gsNamespace (cgs b)))
    then String.ltb (gsNamespace (cgs a)) (gsNamespace (cgs b))
    else String.ltb (gsName (cgs a)) (gsName (cgs b)).

(** The candidates of [findAddressConflict]: the other live servers that ask for
    or hold the address. *)
Definition same_server (a b : GameServer) : bool :=
  String.eqb (gsNamespace a) (gsNamespace b) && String.eqb (gsName a) (gsName b).

Definition contends (addr : string) (other : GameServer) : bool :=
  match gsDeletionTimestamp other with Some _ => false | None =>
    candidateHoldsAddress other addr || String.eqb (Address (gsNetworking other)) addr end.

Definition candidateOf (addr : string) (gs : GameServer) : addressCandidate :=
  MkCandidate gs (candidateHoldsAddress gs addr).

Definition candidates (gs : GameServer) (all : list GameServer) : list addressCandidate :=
  let addr := Address (gsNetworking gs) in
  map (candidateOf addr) (List.filter (fun o => negb (same_server o gs) && contends addr o) all).

Section Conflict.
(** [sort.Slice] on candidates under [addressConflictLess]. *)
Variable sortSlice : list addressCandidate -> list addressCandidate.

(** The server [findAddressConflict] reports. *)
Definition conflictWinner (gs : GameServer) (all : list GameServer) : option GameServer :=
  let addr := Address (gsNetworking gs) in
  if isEmpty addr then None
  else match sortSlice (candidates gs all) with
  | [] => None
  | winner :: _ => if addressConflictLess winner (candidateOf addr gs) then Some (cgs winner) else None
  end.

(** [findAddressConflict] on the listed servers ([None] when the list fails). *)
Definition findAddressConflict (gs : GameServer) (all : option (list GameServer)) : result unit string :=
  if isEmpty (Address (gsNetworking gs)) then Ok EmptyString
  else match all with
  | None => Err ()
  | Some all =>
      Ok (match conflictWinner gs all with
          | None => EmptyString
          | Some w => if String.eqb (gsNamespace w) (gsNamespace gs) then gsName w
                      else gsNamespace w +:+ "/" +:+ gsName w
          end)
  end.

(** What [Reconcile] hands on: a failed check is no conflict. *)
Definition conflictingServer (gs : GameServer) (all : option (list GameServer)) : string :=
  match findAddressConflict gs all with Ok s => s | Err _ => EmptyString end.
End Conflict.
