(* ===== verification/Tunnel.v ===== *)
(** * operator: the tunnel of a server

    Whether a tunnel pod is wanted and what it advertises (src/operator/internal/
    controller/gameserver_tunnel.go, [planTunnel]), the port lists handed to the
    pod, what is reported about it (gameserver_status.go,
    [computeTunnelConditions]) and the validation of the endpoints a playit
    tunnel reports back ([validatePlayitEndpoints]).  [net.ParseIP], the text of
    an IP, [%q] and the Unicode tables are section variables. *)

From Stdlib Require Import Ascii.
From S2P Require Import Prelude GoText GoToken GoTime Idle Power Netguard GameServer Address.
Import GoToken.
Local Open Scope Z_scope.

Definition isUpper (c : ascii) : bool := in_range 65 90 (byte_of_ascii c).
Definition isLower (c : ascii) : bool := in_range 97 122 (byte_of_ascii c).
Definition isAlpha (c : ascii) : bool := isLower c || isUpper c.

(** [isAlphaNumeric], on a byte *)
Definition isAlphaNumeric (c : ascii) : bool := isAlpha c || is_digit_char c.
Definition isTagChar (c : ascii) : bool := isAlphaNumeric c || Ascii.eqb c "-"%char.

(** ** The plan *)

(** [tailscaleTagPattern] *)
Definition tailscaleTagPattern (tag : string) : bool :=
  match TrimPrefix tag "tag:" with
  | String c rest => isAlpha c && str_all isTagChar rest
  | EmptyString => false
  end.

(** [validTailscaleTags] *)
Definition validTailscaleTags (tags : list string) : bool :=
  forallb (fun tag => let tag := TrimSpace tag in isEmpty tag || tailscaleTagPattern tag)
    (split_on ","%char (Join ","%char tags)).

(** [tunnelCredentialKey] *)
Definition tunnelCredentialKey (provider : string) : option string :=
  if String.eqb provider "frp" then Some "token"
  else if String.eqb provider "tailscale" then Some "authKey"
  else if String.eqb provider "playit" then Some "secretKey"
  else None.

(** [tunnelPlan] *)
Record tunnelPlan := MkTunnelPlan {
  wantTunnel : bool;
  tpEndpoints : list GameServerEndpoint;
  noMapping : list string;
  unsupportedPorts : list string
}.
Definition noTunnel : tunnelPlan := MkTunnelPlan false [] [] [].

(** The frp endpoint of an advertised port, when its name is mapped. *)
Definition findRemote (frp : FrpTunnelSpec) (name : string) : option RemotePortMapping :=
  List.find (fun rm => String.eqb (rmName rm) name) (frpRemotePorts frp).

Definition frpEndpoint (frp : FrpTunnelSpec) (p : GamePort) : option GameServerEndpoint :=
  match findRemote frp (gpName p) with
  | Some rm => Some (MkEndpoint (gpName p) (frpServerAddr frp) (rmRemotePort rm) (gpProtocol p) false "frp" EmptyString)
  | None => None
  end.

(** The tailscale endpoint of an advertised port, when its protocol is TCP or
    UDP. *)
Definition tailscaleSupports (p : GamePort) : bool :=
  isEmpty (gpProtocol p) || String.eqb (gpProtocol p) "TCP" || String.eqb (gpProtocol p) "UDP".
Definition tailscaleEndpoint (hostname : string) (p : GamePort) : GameServerEndpoint :=
  MkEndpoint (gpName p) hostname (gpContainerPort p) (gpProtocol p) true "tailscale" EmptyString.

(** [planTunnel] *)
Definition planTunnel (gs : GameServer) (ports : list GamePort) : tunnelPlan :=
  match Tunnel (gsNetworking gs) with
  | None => noTunnel
  | Some t =>
      if negb (tEnabled t) then noTunnel
      else
        let advertised := List.filter gpAdvertise ports in
        if String.eqb (tProvider t) "frp" then
          match tFrp t with
          | None => noTunnel
          | Some frp =>
              MkTunnelPlan true (omap (frpEndpoint frp) advertised)
                (map gpName (List.filter (fun p => negb (bool_decide (is_Some (findRemote frp (gpName p))))) advertised)) []
          end
        else if String.eqb (tProvider t) "tailscale" then
          match tTailscale t with
          | None => noTunnel
          | Some ts =>
              let hostname := if isEmpty (tsHostname ts) then gsName gs else tsHostname ts in
              MkTunnelPlan true (map (tailscaleEndpoint hostname) (List.filter tailscaleSupports advertised)) []
                (map gpName (List.filter (fun p => negb (tailscaleSupports p)) advertised))
          end
        else if String.eqb (tProvider t) "playit" then
          match tPlayit t with None => noTunnel | Some _ => MkTunnelPlan true [] [] [] end
        else MkTunnelPlan true [] [] []
  end.

(** ** The port lists handed to the pod *)

Section Ports.
(** [unicode.ToLower] past ASCII. *)
Variable uni : Z -> Z.

Definition protocolText (p : GamePort) : string :=
  let proto := ToLower uni (gpProtocol p) in if isEmpty proto then "tcp" else proto.

(** [buildFrpRemotePortsConfig] *)
Definition frpEntry (ports : list GamePort) (rm : RemotePortMapping) : option string :=
  match List.find (fun p => String.eqb (gpName p) (rmName rm)) ports with
  | Some p => Some (rmName rm +:+ String ":"%char (Itoa (gpContainerPort p) +:+ String ":"%char
                     (Itoa (rmRemotePort rm) +:+ String ":"%char (protocolText p))))
  | None => None
  end.
Definition buildFrpRemotePortsConfig (frp : option FrpTunnelSpec) (ports : option (list GamePort)) : string :=
  match frp, ports with
  | Some frp, Some ports => Join ","%char (omap (frpEntry ports) (frpRemotePorts frp))
  | _, _ => EmptyString
  end.

(** [buildTailscalePortsConfig] *)
Definition tailscaleEntry (p : GamePort) : string :=
  gpName p +:+ String ":"%char (Itoa (gpContainerPort p) +:+ String ":"%char (protocolText p)).
Definition buildTailscalePortsConfig (ports : list GamePort) : string :=
  Join ","%char (map tailscaleEntry (List.filter gpAdvertise ports)).
End Ports.

(** [buildPlayitPortsConfig] *)
Definition playitEntry (p : GamePort) : string := gpName p +:+ String ":"%char (Itoa (gpContainerPort p)).
Definition buildPlayitPortsConfig (ports : list GamePort) : string :=
  Join ","%char (map playitEntry (List.filter gpAdvertise ports)).

(** The environment [reconcileTunnel] gives the pod; [None] is an error. *)
Definition tagsString (tags : list string) : string :=
  foldl (fun acc tag => (if isEmpty acc then acc else acc +:+ ",") +:+ tag) EmptyString tags.

Definition tunnelEnv (uni : Z -> Z) (gs : GameServer) (uid : string) (t : GameServerTunnel) (ports : list GamePort)
  : option (list (string * string)) :=
  let dns := gsName gs +:+ "." +:+ gsNamespace gs +:+ ".svc" in
  let named := [("GAMESERVER_NAME", gsName gs); ("GAMESERVER_NAMESPACE", gsNamespace gs)] in
  if String.eqb (tProvider t) "frp" then
    match tFrp t with
    | None => None
    | Some frp =>
        Some (named ++
          [("GAMESERVER_UID", uid); ("TUNNEL_TYPE", "frp"); ("FRP_SERVER_ADDR", frpServerAddr frp);
           ("FRP_SERVER_PORT", Itoa (if frpServerPort frp =? 0 then 7000 else frpServerPort frp));
           ("BACKING_SERVICE_DNS", dns);
           ("BACKING_SERVICE_PORT", buildFrpRemotePortsConfig uni (Some frp) (Some ports))])
    end
  else if String.eqb (tProvider t) "tailscale" then
    match tTailscale t with
    | None => None
    | Some ts =>
        Some (named ++
          [("TUNNEL_TYPE", "tailscale");
           ("TAILSCALE_HOSTNAME", if isEmpty (tsHostname ts) then gsName gs else tsHostname ts);
           ("TAILSCALE_TAGS", tagsString (tsTags ts)); ("BACKING_SERVICE_DNS", dns);
           ("BACKING_SERVICE_PORTS", buildTailscalePortsConfig uni ports)])
    end
  else if String.eqb (tProvider t) "playit" then
    match tPlayit t with
    | None => None
    | Some name =>
        Some (named ++
          [("TUNNEL_TYPE", "playit"); ("PLAYIT_TUNNEL_NAME", if isEmpty name then gsName gs else name);
           ("BACKING_SERVICE_DNS", dns); ("BACKING_SERVICE_PORTS", buildPlayitPortsConfig ports)])
    end
  else Some [].

(** ** Conditions *)

(** [ignoredTunnelSettings] *)
Definition ignoredTunnelSettings (n : GameServerNetworking) : list string :=
  (if isEmpty (Hostname n) then [] else ["hostname"]) ++
  (if bool_decide (SourceRanges n = []) then [] else ["sourceRanges"]) ++
  (if existsb (fun po => negb (poNodePort po =? 0)) (PortOverrides n) then ["nodePort"] else []).

(** [appsv1.Deployment] of the tunnel, the fields in use; a container has its
    HTTP readiness probe, when it has one. *)
Record Container := MkContainer { ctName : string; ctHTTPProbe : option (string * Z) }.
Record Deployment := MkDeployment {
  dpGeneration : Z;
  dpObservedGeneration : Z;
  dpUpdatedReplicas : Z;
  dpReadyReplicas : Z;
  dpContainers : list Container
}.

(** [hasTunnelReadinessProbe] and [hasRelayReadinessProbe] *)
Fixpoint hasProbe (containers : list Container) (path : string) : bool :=
  match containers with
  | [] => false
  | c :: rest =>
      if String.eqb (ctName c) "tunnel" then
        match ctHTTPProbe c with
        | Some (p, port) => String.eqb p path && (port =? 8091)
        | None => hasProbe rest path
        end
      else hasProbe rest path
  end.
Definition hasTunnelReadinessProbe (dep : Deployment) (path : string) : bool := hasProbe (dpContainers dep) path.
Definition hasRelayReadinessProbe (dep : Deployment) : bool := hasTunnelReadinessProbe dep "/readyz".

(** The probe loop of the tailscale case: the last matching container decides. *)
Definition forwardingProbe (dep : Deployment) : bool :=
  foldl (fun acc c =>
    match String.eqb (ctName c) "tunnel", ctHTTPProbe c with
    | true, Some (p, port) => String.eqb p "/readyz" && (port =? 8091)
    | _, _ => acc
    end) false (dpContainers dep).

Definition rolledOut (dep : Deployment) : bool :=
  negb ((dpObservedGeneration dep <? dpGeneration dep) || (dpUpdatedReplicas dep =? 0)).

Definition noSecret (t : GameServerTunnel) : bool :=
  match tCredentials t with None => true | Some n => isEmpty n end.

(** The status, reason and message of TunnelReady when a tunnel is wanted. *)
Definition tunnelVerdict (gs : GameServer) (plan : tunnelPlan) (dep : option Deployment)
  : string * string * string :=
  match Tunnel (gsNetworking gs) with
  | None => ("False", "InvalidConfig", "tunnel enabled but no tunnel spec")
  | Some t =>
      let provider := tProvider t in
      if String.eqb provider "tailscale" &&
         match tTailscale t with Some ts => negb (validTailscaleTags (tsTags ts)) | None => false end then
        ("False", "InvalidTailscaleTags",
         "Tailscale tags must be optional tag: prefixes followed by a letter and only letters, digits or hyphens; correct spec.networking.tunnel.tailscale.tags")
      else if String.eqb provider "tailscale" && negb (bool_decide (unsupportedPorts plan = [])) then
        ("False", "UnsupportedProtocol",
         "Tailscale supports only TCP and UDP; unsupported advertised ports: " +:+ JoinWith ", " (unsupportedPorts plan))
      else if String.eqb provider "playit" && (bool_decide (tPlayit t = None) || noSecret t) then
        ("False", if bool_decide (tPlayit t = None) then "InvalidConfig" else "NoCredentials",
         "playit configuration and credentials are required before relay connection can be confirmed")
      else match dep with
      | None => ("False", "DeploymentNotReady", "waiting for tunnel deployment to be created")
      | Some dep =>
          let relay := String.eqb provider "frp" || String.eqb provider "playit" in
          let probePresent := hasRelayReadinessProbe dep ||
                              (String.eqb provider "playit" && hasTunnelReadinessProbe dep "/healthz") in
          if relay && (negb probePresent || negb (rolledOut dep)) then
            ("Unknown", "RelayConnectionUnknown",
             "waiting for the current relay deployment and its connection readiness probe")
          else if String.eqb provider "playit" then
            if bool_decide (stTunnelEndpoints (gsStatus gs) = []) then
              ("False", "AwaitingAddress", "waiting for playit endpoint assignment; relay connection is unconfirmed")
            else ("Unknown", "RelayConnectionUnknown",
                  "playit v1.0.10 IPC reports cached assignment but cannot confirm relay connection; check provider connectivity separately")
          else if dpReadyReplicas dep =? 0 then
            ("False", "DeploymentNotReady",
             "tunnel deployment has no ready replicas; relay connection or forward registration is unconfirmed")
          else if String.eqb provider "frp" then
            if bool_decide (is_Some (tFrp t)) then
              if bool_decide (noMapping plan = []) then
                ("True", "Ready", "relay connection and all configured frp forward registrations confirmed")
              else ("False", "PortNotMapped",
                    "frp remote ports not configured for: " +:+ JoinWith ", " (noMapping plan))
            else ("False", "InvalidConfig", "frp provider selected but no frp config")
          else if String.eqb provider "tailscale" then
            if bool_decide (is_Some (tTailscale t)) then
              if bool_decide (tCredentials t = None) then
                ("False", "NoCredentials", "no credentials secret provided; tailscale won't authenticate")
              else if negb (forwardingProbe dep) || negb (rolledOut dep) then
                ("False", "DeploymentNotReady",
                 "waiting for the Tailscale forwarding deployment and its readiness probe")
              else ("True", "Ready",
                    "tailnet online and all advertised TCP/UDP forwarding listeners active; client access remains subject to tailnet policy")
            else ("False", "InvalidConfig", "tailscale provider selected but no tailscale config")
          else ("False", "UnknownProvider", "unknown tunnel provider: " +:+ provider)
      end
  end.

(** [computeTunnelConditions] *)
Definition computeTunnelConditions (gs : GameServer) (plan : tunnelPlan) (dep : option Deployment) (now : time)
  : list Condition :=
  let conds := stConditions (gsStatus gs) in
  if negb (wantTunnel plan) then removeCondition (removeCondition conds "TunnelReady") "TunnelHostnameIgnored"
  else
    let ignored := ignoredTunnelSettings (gsNetworking gs) in
    let conds :=
      if bool_decide (ignored = []) then removeCondition conds "TunnelHostnameIgnored"
      else upsertCondition conds
             (cond "TunnelHostnameIgnored" "True" "SettingIgnored"
                (JoinWith ", " ignored +:+ " apply to the backing Service, not tunnel traffic") (gsGeneration gs)) now in
    let '(status, reason_, message) := tunnelVerdict gs plan dep in
    upsertCondition conds (cond "TunnelReady" status reason_ message (gsGeneration gs)) now.

(** ** Endpoints reported by playit *)

(** [getAdvertisedPortNames] *)
Definition getAdvertisedPortNames (ports : list GamePort) : list string :=
  map gpName (List.filter gpAdvertise ports).

(** [isValidDNSLabel]; a byte past ASCII is neither a letter nor a digit, so
    bytes stand for runes. *)
Definition isValidDNSLabel (label : string) : bool :=
  match label with
  | EmptyString => false
  | String c _ =>
      str_all isTagChar label && negb (Ascii.eqb c "-"%char) && negb (HasSuffix label "-")
  end.

Section Playit.
(** [net.ParseIP], [net.IP.String] and [%q]. *)
Variable ParseIP : string -> option (list Z).
Variable ipText : list Z -> string.
Variable Quote : string -> string.

(** The rune loop of [validatePlayitHost]. *)
Fixpoint hostRunes (rs : list Z) : option string :=
  match rs with
  | [] => None
  | ch :: rest =>
      if (ch =? 32) || (ch =? 9) || (ch =? 10) || (ch =? 13) then Some "host contains whitespace"
      else if (ch <? 32) || (ch =? 127) then Some "host contains control character"
      else hostRunes rest
  end.

Fixpoint hostLabels (labels : list string) : option string :=
  match labels with
  | [] => None
  | label :: rest =>
      if isEmpty label then Some "host contains empty DNS label"
      else if 63 <? Z.of_nat (String.length label) then
        Some ("DNS label too long (" +:+ Itoa (Z.of_nat (String.length label)) +:+ " > 63 characters)")
      else if negb (isValidDNSLabel label) then Some ("invalid DNS label: " +:+ label)
      else hostLabels rest
  end.

(** [validatePlayitHost]: the error, or nothing. *)
Definition validatePlayitHost (host : string) : option string :=
  if isEmpty host then Some "host cannot be empty"
  else if 253 <? Z.of_nat (String.length host) then
    Some ("host too long (" +:+ Itoa (Z.of_nat (String.length host)) +:+ " > 253 characters)")
  else match hostRunes (runes (bytes_of host)) with
  | Some e => Some e
  | None =>
      if Contains host "://" then Some "host contains embedded scheme"
      else match ParseIP host with
      | Some ip =>
          if IsPrivate ip || IsLoopback ip || IsLinkLocalUnicast ip
          then Some ("host is a private or internal address (" +:+ ipText ip +:+ ")") else None
      | None =>
          if HasSuffix host ".svc.cluster.local"
          then Some "host is a cluster-local service name; tunnel addresses must be public"
          else hostLabels (split_on "."%char host)
      end
  end.

(** [validatePlayitEndpoint] *)
Definition validatePlayitEndpoint (ep : GameServerEndpoint) (advertised : list string) : option string :=
  match validatePlayitHost (epHost ep) with
  | Some e => Some ("invalid hostname: " +:+ e)
  | None =>
      if (epPort ep <? 1) || (65535 <? epPort ep)
      then Some ("invalid port: " +:+ Itoa (epPort ep) +:+ " (must be 1-65535)")
      else if negb (bool_decide (epName ep ∈ advertised))
      then Some ("port name not advertised: " +:+ epName ep) else None
  end.

(** [validatePlayitEndpoints]: the loop at index [i] with the port names seen;
    the endpoints kept and the errors. *)
Fixpoint validateFrom (i : Z) (seen : gset string) (eps : list GameServerEndpoint) (advertised : list string)
  : list GameServerEndpoint * list string :=
  match eps with
  | [] => ([], [])
  | ep :: rest =>
      if bool_decide (epName ep ∈ seen) then
        let '(valid, errs) := validateFrom (i + 1) seen rest advertised in
        (valid, ("endpoint " +:+ Itoa i +:+ ": duplicate port name " +:+ Quote (epName ep)) :: errs)
      else
        let '(valid, errs) := validateFrom (i + 1) ({[epName ep]} ∪ seen) rest advertised in
        match validatePlayitEndpoint ep advertised with
        | Some msg => (valid, ("endpoint " +:+ Itoa i +:+ ": " +:+ msg) :: errs)
        | None => (ep :: valid, errs)
        end
  end.
Definition validatePlayitEndpoints (eps : list GameServerEndpoint) (advertised : list string)
  : list GameServerEndpoint * string :=
  let '(valid, errs) := validateFrom 0 ∅ eps advertised in (valid, JoinWith "; " errs).
End Playit.
