(* ===== verification/TunnelPod.v ===== *)
(** * tunnel: the relay supervisor beside a server

    Its configuration (src/tunnel/main.go, [loadConfig], the frpc file and the
    tailscale tags), the forward plan (tailscale_forward.go), the endpoints a
    playit relay reports (playit_reporter.go), the readiness of the relay and
    the supervision of its process (relay_health.go).  [net.SplitHostPort], the
    Unicode tables and the provider's answers are arguments. *)

From Stdlib Require Import Ascii.
From S2P Require Import Prelude GoText GoToken GoTime GameServer Address Tunnel.
Local Open Scope Z_scope.

(** ** Configuration *)

(** [Config] *)
Record Config := MkConfig {
  GameServerName : string;
  GameServerNamespace : string;
  GameServerUID : string;
  TunnelType : string;
  FrpServerAddr : string;
  FrpServerPort : Z;
  BackingServiceDNS : string;
  BackingServicePort : string;
  TailscaleHostname : string;
  TailscaleTags : string;
  BackingServicePorts : string;
  PlayitTunnelName : string
}.

Inductive configErr := Required (var : string) | BadIdentity | BadServerPort | BadTunnelType.

(** [validFrpIdentity]; a byte past ASCII is no letter, so bytes stand for
    runes. *)
Definition validFrpIdentity (uid : string) : bool :=
  negb (isEmpty uid) && (Z.of_nat (String.length uid) <=? 128) && str_all isTagChar uid.

Definition require {A} (var value : string) (k : result configErr A) : result configErr A :=
  if isEmpty value then Err (Required var) else k.

(** [loadConfig] *)
Definition loadConfig (getenv : string -> string) : result configErr Config :=
  let name := getenv "GAMESERVER_NAME" in
  let ns := getenv "GAMESERVER_NAMESPACE" in
  let uid := getenv "GAMESERVER_UID" in
  let ty := getenv "TUNNEL_TYPE" in
  let dns := getenv "BACKING_SERVICE_DNS" in
  require "GAMESERVER_NAME" name (require "GAMESERVER_NAMESPACE" ns (require "TUNNEL_TYPE" ty
    (require "BACKING_SERVICE_DNS" dns
      (if String.eqb ty "frp" then
         if negb (validFrpIdentity uid) then Err BadIdentity
         else require "FRP_SERVER_ADDR" (getenv "FRP_SERVER_ADDR")
           (let portStr := getenv "FRP_SERVER_PORT" in
            match (if isEmpty portStr then Some 7000
                   else match ParseInt64 portStr with
                        | Some p => if (p <? 1) || (65535 <? p) then None else Some p
                        | None => None
                        end) with
            | None => Err BadServerPort
            | Some port =>
                require "BACKING_SERVICE_PORT" (getenv "BACKING_SERVICE_PORT")
                  (Ok (MkConfig name ns uid ty (getenv "FRP_SERVER_ADDR") port dns (getenv "BACKING_SERVICE_PORT")
                         EmptyString EmptyString EmptyString EmptyString))
            end)
       else if String.eqb ty "tailscale" then
         require "TAILSCALE_HOSTNAME" (getenv "TAILSCALE_HOSTNAME")
           (require "BACKING_SERVICE_PORTS" (getenv "BACKING_SERVICE_PORTS")
             (Ok (MkConfig name ns uid ty EmptyString 0 dns EmptyString (getenv "TAILSCALE_HOSTNAME")
                    (getenv "TAILSCALE_TAGS") (getenv "BACKING_SERVICE_PORTS") EmptyString)))
       else if String.eqb ty "playit" then
         require "PLAYIT_TUNNEL_NAME" (getenv "PLAYIT_TUNNEL_NAME")
           (require "BACKING_SERVICE_PORTS" (getenv "BACKING_SERVICE_PORTS")
             (Ok (MkConfig name ns uid ty EmptyString 0 dns EmptyString EmptyString EmptyString
                    (getenv "BACKING_SERVICE_PORTS") (getenv "PLAYIT_TUNNEL_NAME"))))
       else Err BadTunnelType)))).

(** [allowedCredentialKeys] *)
Definition allowedCredentialKeys : gmap string string :=
  {["frp" := "token"; "tailscale" := "authKey"; "playit" := "secretKey"]}.

(** ** Tailscale *)

(** [tailscaleTagNameChar] *)
Definition tailscaleTagNameChar (c : ascii) : bool := isAlphaNumeric c || Ascii.eqb c "-"%char.

(** One entry of [parseTailscaleTags]: skipped, bad, or a qualified tag. *)
Definition qualifyTag (entry : string) : result unit (option string) :=
  let tag := TrimSpace entry in
  if isEmpty tag then Ok None
  else
    let tag := if Contains tag ":" then tag else "tag:" +:+ tag in
    if negb (HasPrefix tag "tag:") then Err ()
    else match TrimPrefix tag "tag:" with
    | EmptyString => Err ()
    | String c rest =>
        if negb (isAlpha c) then Err ()
        else if negb (str_all tailscaleTagNameChar (String c rest)) then Err ()
        else Ok (Some tag)
    end.

(** [parseTailscaleTags] *)
Fixpoint parseTagsFrom (tags : list string) (entries : list string) : result unit (list string) :=
  match entries with
  | [] => Ok tags
  | e :: rest =>
      match qualifyTag e with
      | Err _ => Err ()
      | Ok None => parseTagsFrom tags rest
      | Ok (Some tag) => parseTagsFrom (if bool_decide (tag ∈ tags) then tags else tags ++ [tag])%list rest
      end
  end.
Definition parseTailscaleTags (tagsStr : string) : result unit (list string) :=
  parseTagsFrom [] (split_on ","%char tagsStr).

(** [forwardPort] *)
Record forwardPort := MkForward { fwNetwork : string; fwPort : string; fwTarget : string }.

Inductive forwardErr := BadTarget | TooManyPorts | BadEntry | BadPort | BadProtocol | DuplicateListener.

(** [tailscaleForwardPlan]; the host of [net.JoinHostPort] has no colon, being
    the name and namespace of the server. *)
Definition JoinHostPort (host port : string) : string :=
  if Contains host ":" then "[" +:+ host +:+ "]:" +:+ port else host +:+ ":" +:+ port.

Fixpoint forwardFrom (dns : string) (seen : gset string) (entries : list string) : result forwardErr (list forwardPort) :=
  match entries with
  | [] => Ok []
  | e :: rest =>
      match split_on ":"%char e with
      | [name; portStr; proto] =>
          if isEmpty name then Err BadEntry
          else match ParseInt64 portStr with
          | None => Err BadPort
          | Some port =>
              if (port <? 1) || (65535 <? port) then Err BadPort
              else if negb (String.eqb proto "tcp") && negb (String.eqb proto "udp") then Err BadProtocol
              else
                let key := proto +:+ ":" +:+ Itoa port in
                if bool_decide (key ∈ seen) then Err DuplicateListener
                else match forwardFrom dns ({[key]} ∪ seen) rest with
                | Err e => Err e
                | Ok fs => Ok (MkForward proto (Itoa port) (JoinHostPort dns (Itoa port)) :: fs)
                end
          end
      | _ => Err BadEntry
      end
  end.
Definition tailscaleForwardPlan (cfg : Config) : result forwardErr (list forwardPort) :=
  if isEmpty (GameServerName cfg) || isEmpty (GameServerNamespace cfg) ||
     negb (String.eqb (BackingServiceDNS cfg)
             (GameServerName cfg +:+ "." +:+ GameServerNamespace cfg +:+ ".svc")) then Err BadTarget
  else
    let entries := split_on ","%char (BackingServicePorts cfg) in
    if 32 <? Z.of_nat (length entries) then Err TooManyPorts
    else forwardFrom (BackingServiceDNS cfg) ∅ entries.

(** ** frp *)

(** [escapeTomlString] *)
Definition tomlChar (c : ascii) : string :=
  let b := byte_of_ascii c in
  if b =? 92 then "\\" else if b =? 34 then "\" +:+ dquote
  else if b =? 10 then "\n" else if b =? 13 then "\r" else if b =? 9 then "\t"
  else String c EmptyString.
Fixpoint escapeTomlString (s : string) : string :=
  match s with EmptyString => EmptyString | String c s' => tomlChar c +:+ escapeTomlString s' end.

(** One proxy of the frpc file. *)
Record frpProxy := MkProxy { pxName : string; pxType : string; pxLocalPort : string; pxRemotePort : string }.

Inductive frpErr := BadMapping | BadMappingProtocol | BadUID.

(** The mappings [renderFrpConfig] reads. *)
Definition frpMapping (uni : Z -> Z) (entry : string) : result frpErr (option frpProxy) :=
  let entry := TrimSpace entry in
  if isEmpty entry then Ok None
  else match split_on ":"%char entry with
  | [name; localPort; remotePort; proto] =>
      let proto := ToLower uni (TrimSpace proto) in
      if negb (String.eqb proto "tcp") && negb (String.eqb proto "udp") then Err BadMappingProtocol
      else Ok (Some (MkProxy (TrimSpace name) proto (TrimSpace localPort) (TrimSpace remotePort)))
  | _ => Err BadMapping
  end.
Fixpoint frpMappings (uni : Z -> Z) (entries : list string) : result frpErr (list frpProxy) :=
  match entries with
  | [] => Ok []
  | e :: rest =>
      match frpMapping uni e with
      | Err e => Err e
      | Ok p =>
          match frpMappings uni rest with
          | Err e => Err e
          | Ok ps => Ok (match p with Some p => p :: ps | None => ps end)
          end
      end
  end.

Definition nl : string := String (Ascii.ascii_of_nat 10) EmptyString.
Definition quotedToml (s : string) : string := dquote +:+ escapeTomlString s +:+ dquote.
Definition line (key value : string) : string := key +:+ " = " +:+ value +:+ nl.
Definition rawQuoted (s : string) : string := dquote +:+ s +:+ dquote.

Definition frpHeader (cfg : Config) (token : string) : string :=
  nl +:+ line "user" (quotedToml (GameServerUID cfg)) +:+ line "serverAddr" (quotedToml (FrpServerAddr cfg)) +:+
  line "serverPort" (Itoa (FrpServerPort cfg)) +:+ line "auth.method" (rawQuoted "token") +:+
  line "auth.token" (quotedToml token) +:+ line "webServer.addr" (rawQuoted "127.0.0.1") +:+
  line "webServer.port" "7400" +:+ line "webServer.user" (rawQuoted "gameplane") +:+
  line "webServer.password" (quotedToml token) +:+ line "transport.heartbeatInterval" "5" +:+
  line "transport.heartbeatTimeout" "15" +:+ line "transport.tcpMuxKeepaliveInterval" "5".

Definition frpProxyText (dns : string) (p : frpProxy) : string :=
  nl +:+ "[[proxies]]" +:+ nl +:+ line "name" (quotedToml (pxName p)) +:+ line "type" (rawQuoted (pxType p)) +:+
  line "localIP" (rawQuoted dns) +:+ line "localPort" (pxLocalPort p) +:+ line "remotePort" (pxRemotePort p).

(** The text [renderFrpConfig] writes to the frpc file. *)
Definition renderFrpConfig (uni : Z -> Z) (cfg : Config) (token : string) : result frpErr string :=
  if negb (validFrpIdentity (GameServerUID cfg)) then Err BadUID
  else match frpMappings uni (split_on ","%char (BackingServicePort cfg)) with
  | Err e => Err e
  | Ok ps => Ok (frpHeader cfg token +:+ foldr (fun p acc => frpProxyText (BackingServiceDNS cfg) p +:+ acc) EmptyString ps)
  end.

(** ** playit *)

(** [backingPort] *)
Record backingPort := MkBacking { bpName : string; bpPort : Z }.

(** [parsePort] *)
Definition parsePort (s : string) : option Z :=
  match ParseInt64 s with
  | Some v => if (v <? 1) || (65535 <? v) then None else Some v
  | None => None
  end.

(** [strings.Cut] at the first colon. *)
Definition cutColon (s : string) : option (string * string) :=
  match split_on ":"%char s with
  | a :: (_ :: _) as rest => Some (a, Join ":"%char rest)
  | _ => None
  end.

(** [parseBackingPorts] *)
Fixpoint backingPortsFrom (entries : list string) : option (list backingPort) :=
  match entries with
  | [] => Some []
  | e :: rest =>
      let e := TrimSpace e in
      if isEmpty e then backingPortsFrom rest
      else match cutColon e with
      | None => None
      | Some (name, portStr) =>
          if isEmpty name then None
          else match parsePort portStr with
          | None => None
          | Some port =>
              match backingPortsFrom rest with
              | None => None
              | Some ps => Some (MkBacking name port :: ps)
              end
          end
      end
  end.
Definition parseBackingPorts (spec : string) : option (list backingPort) := backingPortsFrom (split_on ","%char spec).

(** [playitTunnel] and [playitState] *)
Record playitTunnel := MkPlayit { DisplayAddress : string; Destination : string; IsDisabled : bool }.
Record playitState := MkPlayitState { psPhase : string; psTunnels : list playitTunnel }.

(** [destinationPort]: what follows the last colon. *)
Definition destinationPort (dest : string) : option Z :=
  match last (split_on ":"%char dest), split_on ":"%char dest with
  | Some portStr, _ :: _ :: _ => parsePort portStr
  | _, _ => None
  end.

(** The order [playitEndpoints] sorts by. *)
Definition ep_le (a b : GameServerEndpoint) : Prop := str_le (epName a) (epName b).
#[export] Instance ep_le_dec : RelDecision ep_le := fun a b => str_le_dec (epName a) (epName b).

Definition maxTunnelEndpoints : nat := 32.

Section Playit.
(** [net.SplitHostPort] *)
Variable SplitHostPort : string -> option (string * string).

Definition enabledTunnel (t : playitTunnel) : bool := negb (IsDisabled t) && negb (isEmpty (DisplayAddress t)).

(** The port a tunnel serves. *)
Definition matchPort (ports : list backingPort) (nEnabled : nat) (t : playitTunnel) : option backingPort :=
  let byDest := match destinationPort (Destination t) with
                | Some p => List.find (fun b => bpPort b =? p) ports
                | None => None
                end in
  match byDest with
  | Some b => Some b
  | None => match ports with
            | [b] => if (nEnabled =? 1)%nat then Some b else None
            | _ => None
            end
  end.

(** The loop of [playitEndpoints]. *)
Fixpoint playitFrom (ports : list backingPort) (nEnabled : nat) (seen : gset string) (ts : list playitTunnel)
  : list GameServerEndpoint :=
  match ts with
  | [] => []
  | t :: rest =>
      match matchPort ports nEnabled t with
      | None => playitFrom ports nEnabled seen rest
      | Some b =>
          if bool_decide (bpName b ∈ seen) then playitFrom ports nEnabled seen rest
          else
            let addr := match SplitHostPort (DisplayAddress t) with
                        | Some (h, p) => match parsePort p with Some n => Some (h, n) | None => None end
                        | None => Some (DisplayAddress t, bpPort b)
                        end in
            match addr with
            | None => playitFrom ports nEnabled seen rest
            | Some (host, port) =>
                MkEndpoint (bpName b) host port EmptyString false "playit" EmptyString ::
                playitFrom ports nEnabled ({[bpName b]} ∪ seen) rest
            end
      end
  end.

(** [playitEndpoints]; the names are distinct, so any sort gives this order. *)
Definition playitEndpoints (tunnels : list playitTunnel) (ports : list backingPort) : list GameServerEndpoint :=
  let enabled := List.filter enabledTunnel tunnels in
  take maxTunnelEndpoints (merge_sort ep_le (playitFrom ports (length enabled) ∅ enabled)).
End Playit.

(** ** Readiness of the relay *)

(** [relayObservation] *)
Record relayObservation := MkObs { Connection : string; Forwards : bool; Assigned : bool }.
Definition unknownObs : relayObservation := MkObs "unknown" false false.
Definition obsReady (o : relayObservation) : bool := String.eqb (Connection o) "connected" && Forwards o && Assigned o.

Definition healthPollInterval : duration := 2 * Second.
Definition healthStaleAfter : duration := 10 * Second.
Definition healthyResetAfter : duration := Minute.

(** [exponentialBackoff]: [retries]; [next] returns the delay in seconds and the
    new count. *)
Definition backoffNext (retries : Z) : Z * Z :=
  let retries := if retries <? 10 then retries + 1 else retries in
  (Z.min 300 (Z.shiftl 1 (retries - 1)), retries).
Definition backoffReset : Z := 0.

(** [relayHealth]; a zero time is none. *)
Record relayHealth := MkHealth { observation : relayObservation; checked : time; healthySince : time }.
Definition clear : relayHealth := MkHealth unknownObs zero_time zero_time.

(** [observeLocked]; the retry count is returned too. *)
Definition observeLocked (h : relayHealth) (now : time) (o : relayObservation) (retries : Z) : relayHealth * Z :=
  if negb (obsReady o) then (MkHealth o now zero_time, retries)
  else
    let since := if IsZero (healthySince h) || (healthStaleAfter <=? Sub now (checked h)) then now
                 else healthySince h in
    (MkHealth o now since, if healthyResetAfter <=? Sub now since then backoffReset else retries).

(** [snapshot]: the observation served, and whether [/readyz] answers 200. *)
Definition snapshot (h : relayHealth) (now : time) : relayObservation * bool :=
  if IsZero (checked h) || (healthStaleAfter <=? Sub now (checked h)) then (unknownObs, false)
  else (observation h, obsReady (observation h)).

(** [checkFrpHealth] on the decoded answer of frpc ([None] for any failure), a
    list of proxies per type. *)
Record frpStatus := MkFrpStatus { fsName : string; fsType : string; fsStatus : string; fsError : string }.

Definition controlSession (p : frpStatus) : bool :=
  bool_decide (fsStatus p ∈ ["running"; "start error"; "wait start"]).

Fixpoint frpEntries (uni : Z -> Z) (status : string -> list frpStatus) (entries : list string)
    (connected allRegistered : bool) : option (bool * bool) :=
  match entries with
  | [] => Some (connected, allRegistered)
  | e :: rest =>
      match split_on ":"%char (TrimSpace e) with
      | [name; _; _; proto] =>
          let name := TrimSpace name in
          let proto := ToLower uni (TrimSpace proto) in
          let mine := List.filter (fun p => String.eqb (fsName p) name && String.eqb (fsType p) proto) (status proto) in
          let found := existsb (fun p => String.eqb (fsStatus p) "running" && isEmpty (fsError p)) mine in
          frpEntries uni status rest (connected || existsb controlSession mine) (allRegistered && found)
      | _ => None
      end
  end.
Definition checkFrpHealth (uni : Z -> Z) (cfg : Config) (answer : option (string -> list frpStatus)) : relayObservation :=
  match answer with
  | None => unknownObs
  | Some status =>
      match frpEntries uni status (split_on ","%char (BackingServicePort cfg)) false true with
      | None => unknownObs
      | Some (connected, all) => MkObs (if connected then "connected" else "unavailable") all all
      end
  end.

(** [playitHealthObservation] *)
Definition playitHealthObservation (SplitHostPort : string -> option (string * string)) (st : playitState)
    (ports : list backingPort) : relayObservation :=
  MkObs "unknown" false
    (String.eqb (psPhase st) "running" && negb (bool_decide (ports = [])) &&
     (length (playitEndpoints SplitHostPort (psTunnels st) ports) =? length ports)%nat).

(** ** Supervision *)

(** [isUnrecoverable] on the text of an error, [None] for nil. *)
Definition isUnrecoverable (err : option string) : bool :=
  match err with
  | None => false
  | Some e => Contains e "exit status 126" || Contains e "exit status 127" || Contains e "permission denied"
  end.

(** [superviseRelay] and the [monitorRelay] goroutine of its attempt, step by
    step.  The monitor asks the provider, takes the lock, checks that the attempt
    is not cancelled and records the answer; the supervisor cancels the attempt
    when the child exits, clears the state under the same lock, joins the monitor
    and waits before the next attempt. *)
Inductive supPhase :=
| Starting                          (* at the head of the loop *)
| ChildRuns                         (* runChild *)
| Cancelled                         (* after cancel() *)
| Cleared                           (* after h.clear() *)
| Waits (delay : Z)                 (* the monitor is joined; wait(ctx, delay) *)
| Stopped (failed : bool).          (* the loop returned *)

Inductive monPhase :=
| Asks                              (* the query, or the pause between two *)
| Answered (o : relayObservation)   (* about to take the lock *)
| Locked (o : relayObservation)     (* holds the lock, the check passed *)
| Returned.

Record sup := MkSup { health : relayHealth; retries : Z; phase_ : supPhase; monitor : monPhase; cancelled : bool }.

Inductive sup_step : sup -> sup -> Prop :=
| step_attempt h r m c :
    sup_step (MkSup h r Starting m c) (MkSup clear r ChildRuns Asks false)
| step_shutdown h r p c :
    p = Starting \/ p = Cleared \/ (exists d, p = Waits d) ->
    sup_step (MkSup h r p Returned c) (MkSup h r (Stopped false) Returned c)
| step_cancelled h r p m c :
    sup_step (MkSup h r p m c) (MkSup h r p m true)
| step_answer h r p c o :
    sup_step (MkSup h r p Asks c) (MkSup h r p (Answered o) c)
| step_lock h r p o :
    sup_step (MkSup h r p (Answered o) false) (MkSup h r p (Locked o) false)
| step_skip h r p o :
    sup_step (MkSup h r p (Answered o) true) (MkSup h r p Asks true)
| step_record h r p o c now :
    sup_step (MkSup h r p (Locked o) c)
             (MkSup (observeLocked h now o r).1 (observeLocked h now o r).2 p Asks c)
| step_monitor_returns h r p :
    sup_step (MkSup h r p Asks true) (MkSup h r p Returned true)
| step_exit h r m c :
    sup_step (MkSup h r ChildRuns m c) (MkSup h r Cancelled m true)
| step_clear h r m c :
    (forall o, m <> Locked o) ->
    sup_step (MkSup h r Cancelled m c) (MkSup clear r Cleared m c)
| step_join h r c err :
    sup_step (MkSup h r Cleared Returned c)
      (if isUnrecoverable err then MkSup h r (Stopped true) Returned c
       else MkSup h (backoffNext r).2 (Waits (backoffNext r).1) Returned c)
| step_again h r d m c :
    sup_step (MkSup h r (Waits d) m c) (MkSup h r Starting m c).

(** Reachable states of the supervisor, from a zero [relayHealth] and a fresh
    [exponentialBackoff]. *)
Inductive supervised : sup -> Prop :=
| sup_init : supervised (MkSup (MkHealth (MkObs EmptyString false false) zero_time zero_time) 0 Starting Returned true)
| sup_next s s' : supervised s -> sup_step s s' -> supervised s'.
