(* ===== verification/TunnelFacts.v ===== *)
(** * tunnel: what the operator and the relay supervisor promise each other

    - [tailscale_tags_agree]: the operator accepts a list of tags exactly when the
      supervisor does.
    - [tunnel_ports_agreed]: the supervisor reads back the ports the operator
      wrote, for each provider.
    - [playit_report_accepted]: what the supervisor reports passes the operator's
      validation, hosts aside.
    - [relay_never_stale]: no readiness of an exited relay is served, under any
      interleaving of the supervisor and its monitor. *)

From Stdlib Require Import Ascii.
From S2P Require Import Prelude GoText GoToken GoTime Idle GameServer Address Tunnel TunnelPod.
Local Open Scope Z_scope.

(** ** Supervision *)

(** Outside the run of a child nothing is recorded, and the monitor of the last
    attempt is gone once it is joined. *)
Definition supInv (s : sup) : Prop :=
  0 <= retries s <= 10 /\
  match phase_ s with
  | ChildRuns => True
  | Cancelled => cancelled s = true
  | Cleared => cancelled s = true /\ IsZero (checked (health s)) = true /\ forall o, monitor s <> Locked o
  | Starting | Stopped _ => IsZero (checked (health s)) = true /\ monitor s = Returned
  | Waits d => IsZero (checked (health s)) = true /\ monitor s = Returned /\ 1 <= d <= 300
  end.

Lemma backoffNext_bounds r : 0 <= r <= 10 -> 1 <= (backoffNext r).1 <= 300 /\ 0 <= (backoffNext r).2 <= 10.
Proof.
  intros Hr. unfold backoffNext. cbn [fst snd]. destruct (Z.ltb_spec r 10).
  - assert (1 <= Z.shiftl 1 (r + 1 - 1)); [|lia].
    rewrite Z.shiftl_mul_pow2, Z.mul_1_l by lia. pose proof (Z.pow_pos_nonneg 2 (r + 1 - 1)). lia.
  - assert (r = 10) as -> by lia. repeat split; vm_compute; discriminate.
Qed.

Lemma observe_retries h now o r : 0 <= r <= 10 -> 0 <= (observeLocked h now o r).2 <= 10.
Proof.
  intros. unfold observeLocked. destruct (obsReady o); cbn [negb snd]; [|done].
  destruct (_ <=? _); cbn [snd]; [unfold backoffReset; lia|done].
Qed.

Lemma supervised_inv s : supervised s -> supInv s.
Proof.
  induction 1 as [|s s' _ [Hr IH] Hs]; [by repeat split; vm_compute|].
  destruct Hs; unfold supInv in *; cbn [phase_ monitor cancelled health retries] in *;
    try (destruct (isUnrecoverable err)); cbn [phase_ monitor cancelled health retries];
    try (split; [first [done | by apply observe_retries | by apply backoffNext_bounds]|]);
    repeat match goal with
    | H : _ \/ _ |- _ => destruct H as [?|H]; [subst|]
    | H : exists _, _ |- _ => destruct H as [? ?]; subst
    end;
    try match goal with |- context [match ?p with Starting => _ | _ => _ end] => destruct p end;
    cbn in *; intuition (try congruence); subst; try done.
  all: try (by apply backoffNext_bounds).
  all: naive_solver.
Qed.

(** C33. Readiness is served only while a relay process runs (or in the instant
    between its exit and the reset): never before the first attempt, between two
    attempts or after the last, whatever the interleaving of the supervisor, the
    monitor and the provider's answers.  It is never older than ten seconds, and
    a restart waits between one second and five minutes. *)
Theorem relay_never_stale s now :
  supervised s ->
  ((snapshot (health s) now).2 = true ->
    (phase_ s = ChildRuns \/ phase_ s = Cancelled) /\
    obsReady (observation (health s)) = true /\ Sub now (checked (health s)) < 10 * Second) /\
  (forall d, phase_ s = Waits d -> 1 <= d <= 300).
Proof.
  intros [Hr H]%supervised_inv. split.
  - unfold snapshot. destruct (IsZero (checked (health s))) eqn:Ez; [done|]. cbn [orb].
    destruct (Z.leb_spec healthStaleAfter (Sub now (checked (health s)))) as [|Hlt]; [done|].
    cbn [snd]. intros Hready. split_and!; [|done|exact Hlt].
    destruct (phase_ s); try tauto; naive_solver congruence.
  - intros d E. rewrite E in H. tauto.
Qed.

(** ** Tags *)

Lemma HasPrefix_spec s p : HasPrefix s p = true <-> exists t, s = p +:+ t.
Proof.
  unfold HasPrefix. revert s. induction p as [|c p IH]; intros s.
  - split; [by exists s|]. by destruct s.
  - destruct s as [|d s]; cbn [String.prefix].
    + split; [done|]. intros [t Ht]. by rewrite str_app_cons in Ht.
    + destruct (ascii_dec c d) as [->|Hne].
      * rewrite IH. split; intros [t Ht].
        -- exists t. by rewrite str_app_cons, Ht.
        -- rewrite str_app_cons in Ht. injection Ht as Ht. by exists t.
      * split; [done|]. intros [t Ht]. rewrite str_app_cons in Ht. congruence.
Qed.

Lemma drop_str_app p t : drop_str (String.length p) (p +:+ t) = t.
Proof. induction p as [|c p IH]; [by destruct t|]. rewrite str_app_cons. cbn. apply IH. Qed.

Lemma TrimPrefix_app p t : TrimPrefix (p +:+ t) p = t.
Proof.
  unfold TrimPrefix. rewrite (proj2 (HasPrefix_spec _ _)) by (by exists t). apply drop_str_app.
Qed.

(** [strings.Contains] of a single byte. *)
Lemma Contains_byte c s : Contains s (String c EmptyString) = negb (free_of c s).
Proof.
  induction s as [|d s IH]; [done|]. cbn [Contains]. rewrite IH. unfold free_of at 2. cbn [str_all].
  rewrite negb_andb, negb_involutive. f_equal. unfold HasPrefix. cbn [String.prefix].
  destruct (ascii_dec c d) as [->|Hne].
  - rewrite Ascii.eqb_refl. by destruct s.
  - symmetry. by apply Ascii.eqb_neq.
Qed.

Lemma free_of_tag s : str_all isTagChar s = true -> free_of ":"%char s = true.
Proof.
  apply str_all_impl. intros c. destruct (Ascii.eqb_spec c ":"%char) as [->|]; [done|].
  intros _. done.
Qed.

(** The operator's pattern on one trimmed entry is the supervisor's check. *)
Lemma qualifyTag_pattern e :
  is_ok (qualifyTag e) = isEmpty (TrimSpace e) || tailscaleTagPattern (TrimSpace e).
Proof.
  unfold qualifyTag. generalize (TrimSpace e) as tag. clear e. intros tag.
  destruct (isEmpty tag) eqn:Ee; [done|]. cbn [orb].
  assert (Hname : forall name, is_ok (match name with
      | EmptyString => Err ()
      | String c rest => if negb (isAlpha c) then Err ()
          else if negb (str_all tailscaleTagNameChar (String c rest)) then Err () else Ok (Some tag) end) =
    match name with String c rest => isAlpha c && str_all isTagChar rest | EmptyString => false end).
  { intros [|c rest]; [done|]. cbn [str_all]. unfold tailscaleTagNameChar at 1, isAlphaNumeric.
    destruct (isAlpha c); [|done]. cbn [negb orb andb]. change tailscaleTagNameChar with isTagChar.
    by destruct (str_all isTagChar rest). }
  change (":"%string) with (String ":"%char EmptyString). rewrite Contains_byte.
  destruct (free_of ":"%char tag) eqn:Ef; cbn [negb].
  - assert (HasPrefix tag "tag:" = false) as Hp.
    { apply not_true_iff_false. intros [t ->]%HasPrefix_spec. rewrite !str_app_cons in Ef. cbn in Ef. done. }
    rewrite (proj2 (HasPrefix_spec ("tag:" +:+ tag) "tag:")) by (by exists tag). cbn [negb].
    rewrite TrimPrefix_app. unfold tailscaleTagPattern, TrimPrefix. rewrite Hp.
    specialize (Hname tag). destruct tag as [|c rest]; [done|]. revert Hname. cbn [str_all].
    intros <-. by destruct (isAlpha c), (tailscaleTagNameChar c && str_all tailscaleTagNameChar rest).
  - unfold tailscaleTagPattern. destruct (HasPrefix tag "tag:") eqn:Hp; cbn [negb].
    + apply Hname.
    + unfold TrimPrefix. rewrite Hp. symmetry. apply not_true_iff_false.
      destruct tag as [|c rest]; [done|]. intros [Hc Hr]%andb_true_iff.
      apply free_of_tag in Hr. unfold free_of in Ef. cbn [str_all] in Ef. unfold free_of in Hr. rewrite Hr in Ef.
      destruct (Ascii.eqb_spec c ":"%char) as [->|]; done.
Qed.

(** Splitting at a separator splits the two sides. *)
Section Entries.
Variable P : string -> bool.
Hypothesis P_empty : P EmptyString = true.

Definition entriesOk (s : string) : bool := forallb P (split_on ","%char s).

Lemma entriesOk_sep a b : entriesOk (a +:+ String ","%char b) = entriesOk a && entriesOk b.
Proof using Type. unfold entriesOk. by rewrite split_on_app, forallb_app. Qed.

Lemma entriesOk_Join tags : entriesOk (Join ","%char tags) = forallb entriesOk tags.
Proof using P_empty.
  induction tags as [|t tags IH]; [unfold entriesOk; cbn; by rewrite P_empty|]. cbn [forallb].
  destruct tags as [|t' tags]; [cbn; by rewrite andb_true_r|].
  change (Join ","%char (t :: t' :: tags)) with (t +:+ String ","%char (Join ","%char (t' :: tags))).
  by rewrite entriesOk_sep, IH.
Qed.

Lemma entriesOk_tagsString tags : entriesOk (tagsString tags) = forallb entriesOk tags.
Proof using P_empty.
  unfold tagsString.
  assert (H : forall acc, entriesOk (foldl (fun acc tag => (if isEmpty acc then acc else acc +:+ ",") +:+ tag) acc tags)
    = entriesOk acc && forallb entriesOk tags).
  { induction tags as [|t tags IH]; intros acc; cbn [foldl forallb]; [by rewrite andb_true_r|].
    rewrite IH, andb_assoc. f_equal. unfold isEmpty. destruct (String.eqb_spec acc EmptyString) as [->|].
    - unfold entriesOk at 2. cbn. by rewrite P_empty.
    - rewrite str_app_assoc. change ("," +:+ t) with (String ","%char t). apply entriesOk_sep. }
  rewrite H. unfold entriesOk at 1. cbn. by rewrite P_empty.
Qed.
End Entries.

Lemma parseTagsFrom_ok entries : forall tags,
  is_ok (parseTagsFrom tags entries) = forallb (fun e => is_ok (qualifyTag e)) entries.
Proof.
  induction entries as [|e entries IH]; intros tags; [done|]. cbn [parseTagsFrom forallb].
  destruct (qualifyTag e) as [[tag|]|]; cbn [is_ok andb]; done.
Qed.

(** The operator and the supervisor agree on tailscale tags: the operator
    accepts the list of a spec exactly when the supervisor parses the text it is
    given for it. *)
Lemma tailscale_tags_agree tags :
  validTailscaleTags tags = is_ok (parseTailscaleTags (tagsString tags)).
Proof.
  unfold validTailscaleTags, parseTailscaleTags. rewrite parseTagsFrom_ok.
  change (entriesOk (fun tag => isEmpty (TrimSpace tag) || tailscaleTagPattern (TrimSpace tag)) (Join ","%char tags) =
          entriesOk (fun e => is_ok (qualifyTag e)) (tagsString tags)).
  rewrite entriesOk_Join, entriesOk_tagsString by done.
  apply forallb_same. intros t. unfold entriesOk. apply forallb_same. intros e.
  symmetry. apply qualifyTag_pattern.
Qed.

(** ** Port lists *)

(** A port the CRD admits: a name without separators, a valid number. *)
Definition portOk (p : GamePort) : Prop :=
  token (gpName p) = true /\ free_of ":"%char (gpName p) = true /\ free_of ","%char (gpName p) = true /\
  1 <= gpContainerPort p <= 65535.

Lemma sep_free c s t : free_of c (s +:+ t) = free_of c s && free_of c t.
Proof. apply str_all_app. Qed.

Lemma cons_free c d s : free_of c (String d s) = negb (Ascii.eqb d c) && free_of c s.
Proof. done. Qed.

Lemma cons_token d s : is_printable d = true -> token s = true -> token (String d s) = true.
Proof.
  unfold token. intros Hd [_ Hs]%andb_true_iff. apply andb_true_iff. split; [done|].
  cbn [str_all]. by rewrite Hd.
Qed.

Lemma portOk_Itoa p : portOk p ->
  token (Itoa (gpContainerPort p)) = true /\ ParseInt64 (Itoa (gpContainerPort p)) = Some (gpContainerPort p) /\
  forall c, is_digit_char c = false -> free_of c (Itoa (gpContainerPort p)) = true.
Proof.
  intros (_ & _ & _ & Hp). split_and!.
  - apply Itoa_token. lia.
  - apply ParseInt64_Itoa. lia.
  - intros c Hc. apply Itoa_free; [lia|done].
Qed.

(** The entries of a list that holds no comma come back one by one. *)
Lemma entries_back (l : list string) :
  Forall (fun s => free_of ","%char s = true) l ->
  split_on ","%char (Join ","%char l) = (match l with [] => [EmptyString] | _ => l end).
Proof. intros H. destruct l as [|s l]; [done|]. by rewrite split_on_Join. Qed.

Lemma playitEntry_ok p : portOk p ->
  token (playitEntry p) = true /\ free_of ","%char (playitEntry p) = true /\
  split_on ":"%char (playitEntry p) = [gpName p; Itoa (gpContainerPort p)].
Proof.
  intros Hp. pose proof (portOk_Itoa p Hp) as (Ht & _ & Hf). destruct Hp as (Hn & Hc & Hk & _).
  unfold playitEntry. split_and!.
  - apply token_app; [done|]. by apply cons_token.
  - rewrite sep_free, cons_free, Hk, Hf by done. done.
  - rewrite split_on_cons by done. by rewrite split_on_free by (by apply Hf).
Qed.

Lemma backing_read l : Forall portOk l ->
  parseBackingPorts (Join ","%char (map playitEntry l)) = Some (map (fun p => MkBacking (gpName p) (gpContainerPort p)) l).
Proof.
  intros Hl. unfold parseBackingPorts. rewrite entries_back.
  2:{ apply Forall_map. eapply Forall_impl; [exact Hl|]. intros p Hp. apply (playitEntry_ok p Hp). }
  destruct l as [|p0 l0]; [done|]. cbn [map].
  change (playitEntry p0 :: map playitEntry l0) with (map playitEntry (p0 :: l0)).
  change (MkBacking (gpName p0) (gpContainerPort p0) :: map (fun p => MkBacking (gpName p) (gpContainerPort p)) l0)
    with (map (fun p => MkBacking (gpName p) (gpContainerPort p)) (p0 :: l0)).
  generalize dependent (p0 :: l0). clear. intros l Hl.
  induction Hl as [|p l Hp _ IH]; [done|]. cbn [map backingPortsFrom].
  pose proof (playitEntry_ok p Hp) as (Ht & _ & Hs). pose proof (portOk_Itoa p Hp) as (_ & Hi & _).
  rewrite TrimSpace_token by done. unfold cutColon. rewrite Hs.
  assert (isEmpty (playitEntry p) = false) as -> by (unfold token in Ht; by destruct (playitEntry p)).
  cbn [Join]. destruct Hp as (Hn & _ & _ & Hr).
  assert (isEmpty (gpName p) = false) as -> by (unfold token in Hn; by destruct (gpName p)).
  unfold parsePort. rewrite Hi. destruct (Z.ltb_spec (gpContainerPort p) 1), (Z.ltb_spec 65535 (gpContainerPort p)); [lia..|].
  cbn [orb]. by rewrite IH.
Qed.

Section Lists.
Variable uni : Z -> Z.

(** A protocol both sides know. *)
Lemma protocolText_known p : tailscaleSupports p = true ->
  protocolText uni p = "tcp" \/ protocolText uni p = "udp".
Proof using Type.
  unfold tailscaleSupports, protocolText. intros [[H|H]%orb_true_iff|H]%orb_true_iff; apply String.eqb_eq in H; rewrite H.
  - by left.
  - by left.
  - by right.
Qed.

Definition netToken (s : string) : Prop := s = "tcp" \/ s = "udp".

Lemma netToken_ok s : netToken s -> token s = true /\ free_of ":"%char s = true /\ free_of ","%char s = true /\
  ToLower uni s = s.
Proof using Type. by intros [-> | ->]. Qed.

(** What the supervisor forwards for an advertised port. *)
Definition forwardOf (dns : string) (p : GamePort) : forwardPort :=
  MkForward (protocolText uni p) (Itoa (gpContainerPort p)) (JoinHostPort dns (Itoa (gpContainerPort p))).

Definition listener (p : GamePort) : string := protocolText uni p +:+ ":" +:+ Itoa (gpContainerPort p).

Lemma tailscaleEntry_ok p : portOk p -> netToken (protocolText uni p) ->
  free_of ","%char (tailscaleEntry uni p) = true /\
  split_on ":"%char (tailscaleEntry uni p) = [gpName p; Itoa (gpContainerPort p); protocolText uni p].
Proof using Type.
  intros Hp Hn. pose proof (portOk_Itoa p Hp) as (Ht & _ & Hf). destruct Hp as (_ & Hc & Hk & _).
  pose proof (netToken_ok _ Hn) as (_ & Hcn & Hkn & _). unfold tailscaleEntry. split.
  - rewrite sep_free, cons_free, sep_free, cons_free, Hk, Hf, Hkn by done. done.
  - rewrite split_on_cons by done. rewrite split_on_cons by (by apply Hf). by rewrite split_on_free.
Qed.

Lemma forwards_read dns l : Forall portOk l -> Forall (fun p => netToken (protocolText uni p)) l ->
  forall seen, NoDup (map listener l) -> (forall p, p ∈ l -> listener p ∉ seen) ->
  forwardFrom dns seen (map (tailscaleEntry uni) l) = Ok (map (forwardOf dns) l).
Proof using Type.
  intros Hl Hn. induction l as [|p l IH]; intros seen Hnd Hseen; [done|].
  apply Forall_cons in Hl as [Hp Hl]. apply Forall_cons in Hn as [Hpn Hn].
  apply NoDup_cons in Hnd as [Hnew Hnd]. cbn [map forwardFrom].
  pose proof (tailscaleEntry_ok p Hp Hpn) as [_ ->]. pose proof (portOk_Itoa p Hp) as (_ & -> & _).
  assert (isEmpty (gpName p) = false) as ->.
  { destruct Hp as (Ht & _). unfold token in Ht. by destruct (gpName p). }
  assert ((gpContainerPort p <? 1) || (65535 <? gpContainerPort p) = false) as ->.
  { destruct Hp as (_ & _ & _ & ?). destruct (Z.ltb_spec (gpContainerPort p) 1), (Z.ltb_spec 65535 (gpContainerPort p)); lia || done. }
  assert (negb (String.eqb (protocolText uni p) "tcp") && negb (String.eqb (protocolText uni p) "udp") = false) as ->.
  { by destruct Hpn as [-> | ->]. }
  change (protocolText uni p +:+ ":" +:+ Itoa (gpContainerPort p)) with (listener p).
  rewrite bool_decide_false by (apply Hseen; set_solver). rewrite IH; try done.
  intros q Hq [Heq%elem_of_singleton|Hin]%elem_of_union.
  - apply Hnew. rewrite <- Heq. apply list_elem_of_fmap. by exists q.
  - apply (Hseen q); [set_solver|done].
Qed.

Lemma listener_inj l :
  Forall portOk l -> Forall (fun p => netToken (protocolText uni p)) l ->
  NoDup (map (fun p => (protocolText uni p, gpContainerPort p)) l) -> NoDup (map listener l).
Proof using Type.
  intros Hl Hn Hnd. induction l as [|p l IH]; [by constructor|]. cbn [map] in *.
  apply Forall_cons in Hl as [Hp Hl]. apply Forall_cons in Hn as [Hpn Hn]. apply NoDup_cons in Hnd as [Hnew Hnd].
  apply NoDup_cons. split; [|by apply IH]. intros (q & Heq & Hq)%list_elem_of_fmap. apply Hnew.
  apply list_elem_of_fmap. exists q. split; [|done].
  rewrite Forall_forall in Hl, Hn. pose proof (Hl q Hq) as Hq1. pose proof (Hn q Hq) as Hq2.
  unfold listener in Heq. pose proof (portOk_Itoa p Hp) as (_ & Ep & _). pose proof (portOk_Itoa q Hq1) as (_ & Eq & _).
  assert (Hi : forall a b : string, ("tcp" +:+ a = "tcp" +:+ b -> a = b) /\ ("udp" +:+ a = "udp" +:+ b -> a = b)).
  { intros a b. rewrite !str_app_cons. split; by intros [= ?]. }
  assert (Hc : forall a b : string, ":" +:+ a = ":" +:+ b -> a = b).
  { intros a b. rewrite !str_app_cons. by intros [= ?]. }
  destruct Hpn as [E1|E1], Hq2 as [E2|E2]; rewrite E1, E2 in *; try (rewrite !str_app_cons in Heq; done).
  all: apply Hi, Hc in Heq; rewrite Heq in Ep; rewrite Ep in Eq; injection Eq as ->; done.
Qed.

(** The frp proxy of a mapping. *)
Definition proxyOf (ports : list GamePort) (rm : RemotePortMapping) : option frpProxy :=
  match List.find (fun p => String.eqb (gpName p) (rmName rm)) ports with
  | Some p => Some (MkProxy (rmName rm) (protocolText uni p) (Itoa (gpContainerPort p)) (Itoa (rmRemotePort rm)))
  | None => None
  end.

Lemma frpMapping_read ports rm e : Forall portOk ports -> Forall (fun p => netToken (protocolText uni p)) ports ->
  1 <= rmRemotePort rm <= 65535 -> frpEntry uni ports rm = Some e ->
  free_of ","%char e = true /\ exists px, proxyOf ports rm = Some px /\ frpMapping uni e = Ok (Some px).
Proof using Type.
  intros Hports Hnets Hrm. unfold frpEntry, proxyOf.
  destruct (List.find _ ports) as [p|] eqn:Ef; [|done]. intros [= <-].
  apply List.find_some in Ef as [Hin%list_elem_of_In Hname%String.eqb_eq].
  rewrite Forall_forall in Hports, Hnets. pose proof (Hports p Hin) as Hp. pose proof (Hnets p Hin) as Hpn.
  pose proof (portOk_Itoa p Hp) as (Ht & _ & Hf). pose proof (netToken_ok _ Hpn) as (Htn & Hcn & Hkn & Hlow).
  destruct Hp as (Hnt & Hnc & Hnk & _). rewrite Hname in *.
  assert (Hr : token (Itoa (rmRemotePort rm)) = true) by (apply Itoa_token; lia).
  assert (Hrf : forall c, is_digit_char c = false -> free_of c (Itoa (rmRemotePort rm)) = true)
    by (intros; apply Itoa_free; [lia|done]).
  split.
  - rewrite sep_free, cons_free, sep_free, cons_free, sep_free, cons_free, Hnk, Hf, Hrf, Hkn by done. done.
  - eexists. split; [done|]. unfold frpMapping.
    assert (Htok : token (rmName rm +:+ String ":"%char (Itoa (gpContainerPort p) +:+ String ":"%char
      (Itoa (rmRemotePort rm) +:+ String ":"%char (protocolText uni p)))) = true).
    { repeat (apply token_app; [done|]; apply cons_token; [done|]). done. }
    rewrite TrimSpace_token by exact Htok.
    assert (isEmpty (rmName rm +:+ String ":"%char (Itoa (gpContainerPort p) +:+ String ":"%char
      (Itoa (rmRemotePort rm) +:+ String ":"%char (protocolText uni p)))) = false) as ->.
    { unfold token in Htok. apply andb_true_iff in Htok as [H _]. by apply negb_true_iff in H. }
    rewrite split_on_cons by done. rewrite split_on_cons by (by apply Hf).
    rewrite split_on_cons by (by apply Hrf). rewrite split_on_free by done.
    rewrite !TrimSpace_token, Hlow by done. by destruct Hpn as [-> | ->].
Qed.

Lemma mappings_read ports rms : Forall portOk ports -> Forall (fun p => netToken (protocolText uni p)) ports ->
  Forall (fun rm => 1 <= rmRemotePort rm <= 65535) rms ->
  Forall (fun e => free_of ","%char e = true) (omap (frpEntry uni ports) rms) /\
  frpMappings uni (omap (frpEntry uni ports) rms) = Ok (omap (proxyOf ports) rms).
Proof using Type.
  intros Hports Hnets Hrms. induction Hrms as [|rm rms Hrm _ [IH1 IH2]]; [done|]. cbn.
  destruct (frpEntry uni ports rm) as [e|] eqn:Ee.
  - destruct (frpMapping_read ports rm e Hports Hnets Hrm Ee) as (Hf & px & -> & Hm). split; [by constructor|].
    cbn. by rewrite Hm, IH2.
  - assert (proxyOf ports rm = None) as ->; [|done]. revert Ee. unfold frpEntry, proxyOf. by destruct (List.find _ _).
Qed.
End Lists.

(** [os.Getenv] in a pod with the given environment. *)
Definition getenvOf (env : list (string * string)) (var : string) : string :=
  match List.find (fun kv => String.eqb kv.1 var) env with Some (_, v) => v | None => EmptyString end.

Lemma token_nonempty s : token s = true -> isEmpty s = false.
Proof. unfold token. by destruct s. Qed.

Lemma app_nonempty a b : isEmpty a = false -> isEmpty (a +:+ b) = false.
Proof. by destruct a. Qed.

Lemma server_port n : 0 <= n <= 65535 ->
  isEmpty (Itoa (if n =? 0 then 7000 else n)) = false /\
  match ParseInt64 (Itoa (if n =? 0 then 7000 else n)) with
  | Some p => if (p <? 1) || (65535 <? p) then None else Some p | None => None end =
  Some (if n =? 0 then 7000 else n).
Proof.
  intros Hn. set (m := if n =? 0 then 7000 else n).
  assert (1 <= m <= 65535) by (unfold m; destruct (Z.eqb_spec n 0); lia).
  split; [apply token_nonempty, Itoa_token; lia|]. rewrite ParseInt64_Itoa by lia.
  destruct (Z.ltb_spec m 1), (Z.ltb_spec 65535 m); lia || done.
Qed.

Lemma Forall_filter {A} (P : A -> Prop) f (l : list A) : Forall P l -> Forall P (List.filter f l).
Proof.
  intros H. apply Forall_forall. intros x [Hx _]%list_elem_of_In%List.filter_In. rewrite Forall_forall in H.
  apply H. by apply list_elem_of_In.
Qed.

Section Agreed.
Variable uni : Z -> Z.
Context (gs : GameServer) (uid : string) (t : GameServerTunnel) (ports : list GamePort).
Hypothesis Hname : isEmpty (gsName gs) = false.
Hypothesis Hns : isEmpty (gsNamespace gs) = false.
Hypothesis Hports : Forall portOk ports.
Hypothesis Hnets : Forall (fun p => netToken (protocolText uni p)) ports.

Let adv := List.filter gpAdvertise ports.
Let dns := gsName gs +:+ "." +:+ gsNamespace gs +:+ ".svc".

Local Lemma Hdns : isEmpty dns = false.
Proof using Hname. by apply app_nonempty. Qed.
Local Lemma Hadv : Forall portOk adv.
Proof using Hports. by apply Forall_filter. Qed.
Local Lemma Hadvn : Forall (fun p => netToken (protocolText uni p)) adv.
Proof using Hnets. by apply Forall_filter. Qed.

Lemma tailscale_agreed ts :
  tProvider t = "tailscale" -> tTailscale t = Some ts -> adv <> [] -> (length adv <= 32)%nat ->
  NoDup (map (fun p => (protocolText uni p, gpContainerPort p)) adv) ->
  exists env cfg, tunnelEnv uni gs uid t ports = Some env /\ loadConfig (getenvOf env) = Ok cfg /\
    tailscaleForwardPlan cfg = Ok (map (forwardOf uni dns) adv).
Proof using Hname Hns Hports Hnets.
  intros Hp Hts Hne Hlen Hnd. unfold tunnelEnv. rewrite Hp, Hts. cbn [String.eqb Ascii.eqb Bool.eqb].
  eexists _, _. split; [reflexivity|]. split.
  - unfold loadConfig, getenvOf. cbn [List.find String.eqb Ascii.eqb Bool.eqb fst snd app].
    unfold require at 1 2 3 4. rewrite Hname, Hns. fold dns. rewrite Hdns. cbn [isEmpty String.eqb Ascii.eqb Bool.eqb].
    unfold require. replace (isEmpty (if isEmpty (tsHostname ts) then gsName gs else tsHostname ts)) with false
      by (destruct (isEmpty (tsHostname ts)) eqn:E; by rewrite ?E).
    unfold buildTailscalePortsConfig. rewrite Join_nonempty; [reflexivity|by intros ?%map_eq_nil|].
    apply Forall_map. eapply Forall_impl; [exact Hadv|]. intros p (Hn & _). by apply app_nonempty, token_nonempty.
  - unfold tailscaleForwardPlan. cbn [GameServerName GameServerNamespace BackingServiceDNS BackingServicePorts].
    rewrite Hname, Hns. fold dns. rewrite String.eqb_refl. cbn [orb negb].
    unfold buildTailscalePortsConfig. fold adv. rewrite split_on_Join; [|by intros ?%map_eq_nil|].
    + rewrite length_map. destruct (Z.ltb_spec 32 (Z.of_nat (length adv))); [lia|].
      apply forwards_read; [apply Hadv|apply Hadvn|by apply listener_inj; [apply Hadv|apply Hadvn|]|set_solver].
    + apply Forall_map. apply Forall_forall. intros p Hp'. apply tailscaleEntry_ok.
      * by apply (proj1 (Forall_forall _ _) Hadv).
      * by apply (proj1 (Forall_forall _ _) Hadvn).
Qed.

Lemma playit_agreed n : tProvider t = "playit" -> tPlayit t = Some n -> adv <> [] ->
  exists env cfg, tunnelEnv uni gs uid t ports = Some env /\ loadConfig (getenvOf env) = Ok cfg /\
    parseBackingPorts (BackingServicePorts cfg) = Some (map (fun p => MkBacking (gpName p) (gpContainerPort p)) adv).
Proof using Hname Hns Hports.
  intros Hp Hn Hne. unfold tunnelEnv. rewrite Hp, Hn. cbn [String.eqb Ascii.eqb Bool.eqb].
  eexists _, _. split; [reflexivity|]. split.
  - unfold loadConfig, getenvOf. cbn [List.find String.eqb Ascii.eqb Bool.eqb fst snd app].
    unfold require at 1 2 3 4. rewrite Hname, Hns. fold dns. rewrite Hdns. cbn [isEmpty String.eqb Ascii.eqb Bool.eqb].
    unfold require. replace (isEmpty (if isEmpty n then gsName gs else n)) with false
      by (destruct (isEmpty n) eqn:E; by rewrite ?E).
    unfold buildPlayitPortsConfig. rewrite Join_nonempty; [reflexivity|by intros ?%map_eq_nil|].
    apply Forall_map. eapply Forall_impl; [exact Hadv|]. intros p Hok. apply token_nonempty, playitEntry_ok, Hok.
  - cbn [BackingServicePorts]. apply backing_read, Hadv.
Qed.

Lemma frp_agreed frp : tProvider t = "frp" -> tFrp t = Some frp -> validFrpIdentity uid = true ->
  isEmpty (frpServerAddr frp) = false -> 0 <= frpServerPort frp <= 65535 ->
  Forall (fun rm => 1 <= rmRemotePort rm <= 65535) (frpRemotePorts frp) ->
  omap (proxyOf uni ports) (frpRemotePorts frp) <> [] ->
  exists env cfg, tunnelEnv uni gs uid t ports = Some env /\ loadConfig (getenvOf env) = Ok cfg /\
    frpMappings uni (split_on ","%char (BackingServicePort cfg)) = Ok (omap (proxyOf uni ports) (frpRemotePorts frp)).
Proof using Hname Hns Hports Hnets.
  intros Hp Hf Huid Haddr Hsp Hrm Hne. unfold tunnelEnv. rewrite Hp, Hf. cbn [String.eqb Ascii.eqb Bool.eqb].
  destruct (mappings_read uni ports _ Hports Hnets Hrm) as [Hfree Hread].
  assert (Hne' : omap (frpEntry uni ports) (frpRemotePorts frp) <> []).
  { intros E. apply Hne. rewrite E in Hread. cbn in Hread. by injection Hread as <-. }
  eexists _, _. split; [reflexivity|]. split.
  - unfold loadConfig, getenvOf. cbn [List.find String.eqb Ascii.eqb Bool.eqb fst snd app].
    unfold require at 1 2 3 4. rewrite Hname, Hns. fold dns. rewrite Hdns. cbn [isEmpty String.eqb Ascii.eqb Bool.eqb].
    rewrite Huid. unfold require. rewrite Haddr.
    destruct (server_port _ Hsp) as [-> ->]. cbn [negb]. unfold buildFrpRemotePortsConfig.
    rewrite Join_nonempty; [reflexivity|done|]. apply Forall_forall. intros e He.
    apply list_elem_of_omap in He as (rm & _ & He). unfold frpEntry in He.
    destruct (List.find _ ports) as [p|] eqn:Ef; [|done]. injection He as <-.
    apply List.find_some in Ef as [Hin%list_elem_of_In Hn%String.eqb_eq]. rewrite <- Hn.
    rewrite Forall_forall in Hports. destruct (Hports p Hin) as (Ht & _). by apply app_nonempty, token_nonempty.
  - cbn [BackingServicePort]. unfold buildFrpRemotePortsConfig. by rewrite split_on_Join.
Qed.
End Agreed.

(** A tunnel pod started with the environment the operator writes accepts its
    configuration and works on the ports of the template: it forwards each
    advertised port (tailscale), knows each advertised port by name (playit), or
    proxies each mapped port with its own protocol (frp). *)
Lemma tunnel_ports_agreed uni gs uid t ports :
  isEmpty (gsName gs) = false -> isEmpty (gsNamespace gs) = false ->
  Forall portOk ports -> Forall (fun p => netToken (protocolText uni p)) ports ->
  let adv := List.filter gpAdvertise ports in
  let dns := gsName gs +:+ "." +:+ gsNamespace gs +:+ ".svc" in
  (forall ts, tProvider t = "tailscale" -> tTailscale t = Some ts -> adv <> [] -> (length adv <= 32)%nat ->
     NoDup (map (fun p => (protocolText uni p, gpContainerPort p)) adv) ->
     exists env cfg, tunnelEnv uni gs uid t ports = Some env /\ loadConfig (getenvOf env) = Ok cfg /\
       tailscaleForwardPlan cfg = Ok (map (forwardOf uni dns) adv)) /\
  (forall n, tProvider t = "playit" -> tPlayit t = Some n -> adv <> [] ->
     exists env cfg, tunnelEnv uni gs uid t ports = Some env /\ loadConfig (getenvOf env) = Ok cfg /\
       parseBackingPorts (BackingServicePorts cfg) = Some (map (fun p => MkBacking (gpName p) (gpContainerPort p)) adv)) /\
  (forall frp, tProvider t = "frp" -> tFrp t = Some frp -> validFrpIdentity uid = true ->
     isEmpty (frpServerAddr frp) = false -> 0 <= frpServerPort frp <= 65535 ->
     Forall (fun rm => 1 <= rmRemotePort rm <= 65535) (frpRemotePorts frp) ->
     omap (proxyOf uni ports) (frpRemotePorts frp) <> [] ->
     exists env cfg, tunnelEnv uni gs uid t ports = Some env /\ loadConfig (getenvOf env) = Ok cfg /\
       frpMappings uni (split_on ","%char (BackingServicePort cfg)) = Ok (omap (proxyOf uni ports) (frpRemotePorts frp))).
Proof.
  intros Hname Hns Hports Hnets adv dns. split_and!.
  - intros ts. by apply tailscale_agreed.
  - intros n. by apply playit_agreed.
  - intros frp. by apply frp_agreed.
Qed.

(** ** The playit report *)

Section Report.
Variable SplitHostPort : string -> option (string * string).
Variable ParseIP : string -> option (list Z).
Variable ipText : list Z -> string.
Variable Quote : string -> string.

Abbreviation hostOk e := (bool_decide (validatePlayitHost ParseIP ipText (epHost e) = None)).

(** An endpoint that can fail validation only by its host. *)
Definition reportable (ports : list backingPort) (e : GameServerEndpoint) : Prop :=
  epName e ∈ map bpName ports /\ 1 <= epPort e <= 65535 /\ epTunnelProvider e = "playit".

Lemma parsePort_range s v : parsePort s = Some v -> 1 <= v <= 65535.
Proof using Type.
  unfold parsePort. destruct (ParseInt64 s) as [w|]; [|done].
  destruct (Z.ltb_spec w 1), (Z.ltb_spec 65535 w); cbn [orb]; try done. intros [= <-]. lia.
Qed.

Lemma matchPort_in ports n t b : matchPort ports n t = Some b -> b ∈ ports.
Proof using Type.
  unfold matchPort. destruct (match destinationPort _ with Some _ => _ | None => _ end) as [b'|] eqn:E.
  - intros [= <-]. destruct (destinationPort _); [|done]. apply List.find_some in E as [E _]. by apply list_elem_of_In.
  - destruct ports as [|b0 [|]]; [done| |done]. destruct (_ =? _)%nat; [|done]. intros [= <-]. set_solver.
Qed.

Lemma playitFrom_spec ports n ts : Forall (fun b => 1 <= bpPort b <= 65535) ports -> forall seen,
  NoDup (map epName (playitFrom SplitHostPort ports n seen ts)) /\
  Forall (fun e => reportable ports e /\ epName e ∉ seen) (playitFrom SplitHostPort ports n seen ts).
Proof using Type.
  clear ParseIP ipText Quote. intros Hp. induction ts as [|t ts IH]; intros seen; cbn [playitFrom]; [split; constructor|].
  destruct (matchPort ports n t) as [b|] eqn:Em; [|apply IH]. case_bool_decide as Hs; [apply IH|].
  destruct (match SplitHostPort _ with Some _ => _ | None => _ end) as [[host port]|] eqn:Ea; [|apply IH].
  destruct (IH ({[bpName b]} ∪ seen)) as [IH1 IH2]. apply matchPort_in in Em.
  assert (Hport : 1 <= port <= 65535).
  { destruct (SplitHostPort _) as [[h p]|].
    - destruct (parsePort p) eqn:E; [|done]. injection Ea as _ <-. by apply parsePort_range in E.
    - injection Ea as _ <-. rewrite Forall_forall in Hp. by apply Hp. }
  cbn [map epName]. split.
  - apply NoDup_cons. split; [|done]. intros (e & He & Hin)%list_elem_of_fmap. rewrite Forall_forall in IH2.
    destruct (IH2 e Hin) as [_ Hns]. apply Hns. rewrite <- He. set_solver.
  - constructor.
    + split; [|done]. split; [|done]. cbn. apply list_elem_of_fmap. by exists b.
    + eapply Forall_impl; [exact IH2|]. cbn. intros e [H1 H2]. split; [done|]. set_solver.
Qed.

Lemma playitEndpoints_spec ports ts : Forall (fun b => 1 <= bpPort b <= 65535) ports ->
  NoDup (map epName (playitEndpoints SplitHostPort ts ports)) /\
  Forall (reportable ports) (playitEndpoints SplitHostPort ts ports) /\
  (length (playitEndpoints SplitHostPort ts ports) <= 32)%nat.
Proof using Type.
  intros Hp. unfold playitEndpoints. set (enabled := List.filter enabledTunnel ts).
  destruct (playitFrom_spec ports (length enabled) enabled Hp ∅) as [Hnd Hall].
  set (l := playitFrom _ _ _ _ _) in *. pose proof (merge_sort_Permutation ep_le l) as Hperm.
  split_and!.
  - rewrite <- (take_drop maxTunnelEndpoints (merge_sort ep_le l)) in Hperm.
    rewrite <- Hperm, map_app in Hnd. by apply NoDup_app in Hnd as (? & _).
  - apply Forall_take. rewrite Hperm. eapply Forall_impl; [exact Hall|]. by intros e [? _].
  - rewrite length_take. unfold maxTunnelEndpoints. lia.
Qed.

Lemma validateFrom_hosts adv eps : forall i seen,
  Forall (fun e => epName e ∈ adv /\ 1 <= epPort e <= 65535 /\ epName e ∉ seen) eps -> NoDup (map epName eps) ->
  (validateFrom ParseIP ipText Quote i seen eps adv).1 = List.filter (fun e => hostOk e) eps /\
  ((validateFrom ParseIP ipText Quote i seen eps adv).2 = [] <-> forallb (fun e => hostOk e) eps = true).
Proof using Type.
  induction eps as [|e eps IH]; intros i seen Hall Hnd; [done|]. cbn [validateFrom List.filter forallb].
  apply Forall_cons in Hall as [(Hn & Hp & Hs) Hall]. cbn [map] in Hnd. apply NoDup_cons in Hnd as [Hnew Hnd].
  rewrite bool_decide_false by done.
  destruct (IH (i + 1) ({[epName e]} ∪ seen)) as [IH1 IH2]; [|done|].
  { rewrite Forall_forall in Hall |- *. intros e' He'. destruct (Hall e' He') as (? & ? & ?). do 2 (split; [done|]).
    intros [Heq%elem_of_singleton|]%elem_of_union; [|done]. apply Hnew. rewrite <- Heq.
    apply list_elem_of_fmap. by exists e'. }
  destruct (validateFrom _ _ _ (i + 1) _ eps adv) as [valid errs]. cbn [fst snd] in *.
  unfold validatePlayitEndpoint. destruct (validatePlayitHost ParseIP ipText (epHost e)) as [msg|] eqn:Eh.
  - rewrite (bool_decide_false (Some msg = None)) by done. cbn [fst snd]. split; [done|]. by split.
  - assert ((epPort e <? 1) || (65535 <? epPort e) = false) as ->
      by (destruct (Z.ltb_spec (epPort e) 1), (Z.ltb_spec 65535 (epPort e)); lia || done).
    rewrite (bool_decide_true (epName e ∈ adv)) by done. cbn [negb fst snd].
    rewrite bool_decide_true by done. cbn [andb]. by rewrite IH1.
Qed.

Lemma validateFrom_messages adv eps : forall i seen,
  Forall (fun e => exists m, e = "endpoint " +:+ m) (validateFrom ParseIP ipText Quote i seen eps adv).2.
Proof using Type.
  induction eps as [|e eps IH]; intros i seen; cbn [validateFrom]; [constructor|]. case_bool_decide.
  - specialize (IH (i + 1) seen). destruct (validateFrom _ _ _ _ _ _ _) as [valid errs]. cbn [snd] in *.
    constructor; [by eexists|done].
  - specialize (IH (i + 1) ({[epName e]} ∪ seen)). destruct (validateFrom _ _ _ _ _ _ _) as [valid errs].
    destruct (validatePlayitEndpoint _ _ _ _); cbn [snd] in *; [|done]. constructor; [by eexists|done].
Qed.

(** What a playit tunnel reports for a template passes the operator's
    validation but for its hosts: the endpoints kept are exactly those with an
    acceptable host, no other error is reported, each port name appears once, all
    are marked as playit's and there are at most 32. *)
Lemma playit_report_accepted tunnels ports :
  Forall portOk (List.filter gpAdvertise ports) ->
  let bps := map (fun p => MkBacking (gpName p) (gpContainerPort p)) (List.filter gpAdvertise ports) in
  let eps := playitEndpoints SplitHostPort tunnels bps in
  let '(valid, err) := validatePlayitEndpoints ParseIP ipText Quote eps (getAdvertisedPortNames ports) in
  valid = List.filter (fun e => hostOk e) eps /\
  (err = EmptyString <-> Forall (fun e => hostOk e = true) eps) /\
  NoDup (map epName eps) /\ Forall (fun e => epTunnelProvider e = "playit") eps /\ (length eps <= 32)%nat.
Proof using Type.
  intros Hok bps eps.
  assert (Hb : Forall (fun b => 1 <= bpPort b <= 65535) bps).
  { apply Forall_map. eapply Forall_impl; [exact Hok|]. intros p (_ & _ & _ & H). exact H. }
  destruct (playitEndpoints_spec bps tunnels Hb) as (Hnd & Hrep & Hlen). fold eps in Hnd, Hrep, Hlen.
  unfold validatePlayitEndpoints.
  destruct (validateFrom_hosts (getAdvertisedPortNames ports) eps 0 ∅) as [H1 H2].
  - eapply Forall_impl; [exact Hrep|]. intros e (Hn & Hp & _). split_and!; [|lia..|set_solver].
    unfold bps in Hn. rewrite map_map in Hn. exact Hn.
  - exact Hnd.
  - destruct (validateFrom ParseIP ipText Quote 0 ∅ eps _) as [valid errs] eqn:E. cbn [fst snd] in *.
    split_and!; try done.
    + rewrite Forall_forall. setoid_rewrite list_elem_of_In. rewrite <- forallb_forall, <- H2.
      split; [|by intros ->]. intros Hj. destruct errs as [|e1 errs]; [done|]. exfalso.
      pose proof (validateFrom_messages (getAdvertisedPortNames ports) eps 0 ∅) as Hm. rewrite E in Hm.
      apply Forall_cons in Hm as [[m ->] _]. destruct errs; cbn [JoinWith] in Hj; by rewrite !str_app_cons in Hj.
    + eapply Forall_impl; [exact Hrep|]. by intros e (_ & _ & ?).
Qed.
End Report.

(** ** Witnesses *)

Definition demoObs : relayObservation := MkObs "connected" true true.
Definition demoSup : sup := MkSup (MkHealth demoObs 5 5) 0 ChildRuns Asks false.

Lemma demoSup_supervised : supervised demoSup.
Proof.
  eapply (sup_next _ _ (sup_next _ _ (sup_next _ _ (sup_next _ _ sup_init (step_attempt _ _ _ _))
    (step_answer _ _ _ _ demoObs)) (step_lock _ _ _ _)) (step_record _ _ _ _ _ 5)).
Qed.

Lemma relay_never_stale_witness :
  (snapshot (health demoSup) 7).2 = true /\
  ((snapshot (health demoSup) 7).2 = true ->
    (phase_ demoSup = ChildRuns \/ phase_ demoSup = Cancelled) /\
    obsReady (observation (health demoSup)) = true /\ Sub 7 (checked (health demoSup)) < 10 * Second) /\
  (forall d, phase_ demoSup = Waits d -> 1 <= d <= 300).
Proof. split; [reflexivity|]. apply (relay_never_stale demoSup 7 demoSup_supervised). Defined.

Definition demoPorts : list GamePort :=
  [MkGamePort "java" 25565 "" true "minecraft"; MkGamePort "rcon" 25575 "TCP" false "none";
   MkGamePort "bedrock" 19132 "UDP" true "generic"].

Definition demoTunnel (provider : string) : GameServerTunnel :=
  MkTunnel true provider (Some "auth") (Some (MkFrp "relay.example" 7000 [MkRemote "java" 30001])) 
    (Some (MkTailscale "" ["games"; "tag:prod"])) (Some "").

Definition demoServer (name : string) (t : option GameServerTunnel) : GameServer :=
  MkGS name "games" 3 0 None false (MkNet "LoadBalancer" "" ∅ [] [] "public" "" t)
    (MkStatus None 0 [] ∅ [] None None None []).

Lemma demoPorts_ok : Forall portOk demoPorts /\ Forall (fun p => netToken (protocolText id p)) demoPorts.
Proof.
  split; repeat constructor; cbn; try lia; first [by left | by right | done].
Qed.

Lemma tunnel_ports_agreed_witness :
  (exists env cfg, tunnelEnv id (demoServer "mc" None) "uid-1" (demoTunnel "tailscale") demoPorts = Some env /\
     loadConfig (getenvOf env) = Ok cfg /\
     tailscaleForwardPlan cfg = Ok [MkForward "tcp" "25565" "mc.games.svc:25565"; MkForward "udp" "19132" "mc.games.svc:19132"]) /\
  (exists env cfg, tunnelEnv id (demoServer "mc" None) "uid-1" (demoTunnel "playit") demoPorts = Some env /\
     loadConfig (getenvOf env) = Ok cfg /\
     parseBackingPorts (BackingServicePorts cfg) = Some [MkBacking "java" 25565; MkBacking "bedrock" 19132]) /\
  (exists env cfg, tunnelEnv id (demoServer "mc" None) "uid-1" (demoTunnel "frp") demoPorts = Some env /\
     loadConfig (getenvOf env) = Ok cfg /\
     frpMappings id (split_on ","%char (BackingServicePort cfg)) = Ok [MkProxy "java" "tcp" "25565" "30001"]).
Proof.
  destruct demoPorts_ok as [H1 H2].
  split_and!.
  - apply (tunnel_ports_agreed id (demoServer "mc" None) "uid-1" (demoTunnel "tailscale") demoPorts eq_refl eq_refl H1 H2)
      with (ts := MkTailscale "" ["games"; "tag:prod"]); [done..|cbn; lia|].
    by apply (bool_decide_unpack _); vm_compute.
  - by apply (tunnel_ports_agreed id (demoServer "mc" None) "uid-1" (demoTunnel "playit") demoPorts eq_refl eq_refl H1 H2)
      with (n := "").
  - apply (tunnel_ports_agreed id (demoServer "mc" None) "uid-1" (demoTunnel "frp") demoPorts eq_refl eq_refl H1 H2)
      with (frp := MkFrp "relay.example" 7000 [MkRemote "java" 30001]); [done..|cbn; lia| |done].
    repeat constructor; cbn; lia.
Defined.

Lemma playit_report_accepted_witness :
  let eps := [MkEndpoint "java" "abc.joinmc.link" 25565 "" false "playit" ""] in
  playitEndpoints (fun _ => None) [MkPlayit "abc.joinmc.link" "127.0.0.1:25565" false]
    [MkBacking "java" 25565; MkBacking "bedrock" 19132] = eps /\
  validatePlayitEndpoints (fun _ => None) (fun _ => "") id eps ["java"; "bedrock"] = (eps, "") /\
  NoDup (map epName eps).
Proof.
  pose proof (playit_report_accepted (fun _ => None) (fun _ => None) (fun _ => "") id
    [MkPlayit "abc.joinmc.link" "127.0.0.1:25565" false] demoPorts) as H.
  specialize (H (Forall_filter _ _ _ (proj1 demoPorts_ok))). cbv zeta. split; [reflexivity|]. split; [reflexivity|].
  apply H.
Defined.
