(* ===== verification/Status.v ===== *)
(** * operator: the status of a server

    [reconcileStatus] (src/operator/internal/controller/gameserver_status.go)
    with everything it computes: the phase, why a pod is not up yet, the
    conditions with the arguments of their translations
    (gameserver_condition_args.go), the endpoints and the start time.  What the
    cluster answers is a record; one pass stamps its conditions with one clock
    reading, while the two readings of the heartbeat's age are kept apart. *)

From Stdlib Require Import Ascii.
From S2P Require Import Prelude GoText GoToken GoTime Idle Power GameServer Address Tunnel.
Local Open Scope Z_scope.

(** ** Phase *)

Definition heartbeatFreshness : duration := 60 * Second.

(** [heartbeatFresh], with what [time.Now] returns. *)
Definition heartbeatFresh (agent : option (option time)) (now : time) : bool :=
  match agent with
  | Some (Some t) => Sub now t <? heartbeatFreshness
  | _ => false
  end.

(** [derivePhase] *)
Definition derivePhase (suspend ssExists ssReady hbFresh : bool) (idle : idleState) : GameServerPhase :=
  if suspend || bool_decide (idle = idleAsleep) then
    if ssExists && ssReady then PhaseStopping else PhaseSuspended
  else if negb ssExists then PhasePending
  else if negb ssReady then PhaseStarting
  else if negb hbFresh then PhaseStarting
  else PhaseRunning.

(** ** Pods *)

(** [corev1.ContainerStatus] and [corev1.Pod], the fields in use. *)
Record ContainerStatus := MkCStatus {
  csName : string;
  csRestartCount : Z;
  csWaiting : option string;
  csTerminated : option Z;
  csRunning : option time
}.
Record Pod := MkPod {
  podInit : list ContainerStatus;
  podContainers : list ContainerStatus;
  podConditions : list (string * string)
}.

Definition gameContainerName : string := "game".
Definition isGame (cs : ContainerStatus) : bool := String.eqb (csName cs) gameContainerName.

(** [podReady] *)
Definition podReady (pod : Pod) : bool :=
  match List.find (fun c => String.eqb c.1 "Ready") (podConditions pod) with
  | Some (_, s) => String.eqb s "True"
  | None => false
  end.

(** [gameContainerStartedAt] *)
Definition gameContainerStartedAt (pod : read Pod) : option time :=
  match pod with
  | Found p => List.find (fun cs => isGame cs && bool_decide (is_Some (csRunning cs))) (podContainers p) ≫= csRunning
  | _ => None
  end.

(** [waitingReason]; [None] is ("", ""). *)
Definition waitingReason (reason_ : string) : option (string * string) :=
  if String.eqb reason_ "ImagePullBackOff" || String.eqb reason_ "ErrImagePull"
  then Some ("PullingImage", "pulling the game image")
  else if String.eqb reason_ "ContainerCreating" || String.eqb reason_ "PodInitializing"
  then Some ("ContainerCreating", "creating the container")
  else if String.eqb reason_ "CrashLoopBackOff"
  then Some ("CrashLoopBackOff", "the container is crash-looping during startup; check the logs")
  else None.

Fixpoint initWaiting (cs : list ContainerStatus) : option (string * string) :=
  match cs with
  | [] => None
  | c :: rest =>
      match csWaiting c ≫= waitingReason with
      | Some r => Some r
      | None => initWaiting rest
      end
  end.

(** [provisioningReason] *)
Definition provisioningReason (pod : Pod) (hbFresh : bool) : string * string :=
  match initWaiting (podInit pod) with
  | Some r => r
  | None =>
      match List.find isGame (podContainers pod) with
      | None => ("ContainerCreating", "creating the container")
      | Some game =>
          match csWaiting game, csTerminated game, csRunning game with
          | Some w, _, _ => default ("ContainerCreating", "creating the container") (waitingReason w)
          | None, Some _, _ => ("ContainerExited", "the container exited during startup; check the logs")
          | None, None, Some _ =>
              if podReady pod && negb hbFresh
              then ("WaitingForAgent", "server is up; waiting for the agent's first heartbeat")
              else ("InstallingServerFiles", "downloading game files / waiting for readiness")
          | None, None, None => ("Starting", "starting up")
          end
      end
  end.

Definition crashLoopFailureThreshold : Z := 3.

(** [containerFailure] *)
Definition containerFailure (cs : ContainerStatus) : option (string * string) :=
  match csWaiting cs with
  | Some w =>
      if String.eqb w "ImagePullBackOff"
      then Some ("ImagePullFailed", "cannot pull the image — check the image reference")
      else if String.eqb w "CrashLoopBackOff" && (crashLoopFailureThreshold <=? csRestartCount cs)
      then Some ("CrashLoopBackOff", "the container has crash-looped " +:+ Itoa (csRestartCount cs) +:+
                   " times during startup; check the logs")
      else None
  | None => None
  end ∪
  match csTerminated cs with
  | Some code =>
      if code =? 0 then None
      else Some ("ContainerExited", "the container exited with code " +:+ Itoa code +:+
                   " during startup; check the logs")
  | None => None
  end.

(** [startupFailure] *)
Fixpoint firstFailure (cs : list ContainerStatus) : option (string * string) :=
  match cs with
  | [] => None
  | c :: rest => containerFailure c ∪ firstFailure rest
  end.
Definition startupFailure (pod : Pod) : option (string * string) :=
  match firstFailure (podInit pod) with
  | Some f => Some f
  | None => List.find isGame (podContainers pod) ≫= containerFailure
  end.

(** [findContainerStatus] *)
Definition findContainerStatus (pod : Pod) (f : ContainerStatus -> bool) : option ContainerStatus :=
  match List.find f (podInit pod) with
  | Some cs => Some cs
  | None => List.find (fun cs => isGame cs && f cs) (podContainers pod)
  end.

(** [provisioningArgs] *)
Definition provisioningArgs (pod : Pod) (reason_ : string) : gmap string string :=
  if String.eqb reason_ "CrashLoopBackOff" then
    match findContainerStatus pod (fun cs => bool_decide (csWaiting cs = Some "CrashLoopBackOff")) with
    | Some cs => {["restartCount" := Itoa (csRestartCount cs)]}
    | None => ∅
    end
  else if String.eqb reason_ "ContainerExited" then
    let nonZero cs := match csTerminated cs with Some code => negb (code =? 0) | None => false end in
    match findContainerStatus pod nonZero ∪
          List.find (fun cs => isGame cs && bool_decide (is_Some (csTerminated cs))) (podContainers pod) with
    | Some cs => match csTerminated cs with Some code => {["exitCode" := Itoa code]} | None => ∅ end
    | None => ∅
    end
  else ∅.

(** ** Volumes *)

(** [corev1.PersistentVolumeClaim]: bound, and its storage class. *)
Record PVC := MkPVC { pvcBound : bool; pvcStorageClass : option string }.

(** [checkPVCProvisioningFailure]: an error, or the missing class and the text. *)
Definition checkPVCProvisioningFailure (pvc : read PVC) (storageClass : string -> read unit)
  : result unit (option (string * string)) :=
  match pvc with
  | NotFound => Ok None
  | ReadError => Err ()
  | Found p =>
      if pvcBound p then Ok None
      else match pvcStorageClass p with
      | Some sc =>
          if isEmpty sc then Ok None
          else match storageClass sc with
          | NotFound => Ok (Some (sc, "StorageClass '" +:+ sc +:+ "' not found on cluster."))
          | ReadError => Err ()
          | Found _ => Ok None
          end
      | None => Ok None
      end
  end.

(** ** Conditions *)

(** [provisioningInfo] *)
Record provisioningInfo := MkProv { pvReason : string; pvMessage : string; pvArgs : gmap string string }.

Definition PVCProvisioningFailed : string := "PVCProvisioningFailed".

(** The Ready, Progressing and Healthy conditions of a phase ([computeConditions]). *)
Definition phaseConditions (phase : GameServerPhase) (prov : option provisioningInfo) (idle : idleState) (gen : Z)
  : Condition * Condition * Condition :=
  let mk r rr rm p pr pm h hr :=
    (cond "Ready" r rr rm gen, cond "Progressing" p pr pm gen, cond "Healthy" h hr "" gen) in
  let named := match prov with Some i => if isEmpty (pvReason i) then None else Some i | None => None end in
  match phase with
  | PhaseRunning =>
      mk "True" "Running" "server is ready and the agent is reporting heartbeats" "False" "Stable" "" "True" "AgentFresh"
  | PhasePending =>
      match named with
      | Some i => mk "False" (pvReason i) (pvMessage i) "True" (pvReason i) (pvMessage i) "False" "Pending"
      | None => mk "False" "Pending" "" "True" "Pending" "" "False" "Pending"
      end
  | PhaseStarting =>
      match prov with
      | Some i =>
          let pvc := String.eqb (pvReason i) PVCProvisioningFailed in
          mk "False" (if pvc then pvReason i else "Starting") (if pvc then pvMessage i else "")
             "True" (if isEmpty (pvReason i) then "Starting" else pvReason i) (pvMessage i) "False" "AgentStale"
      | None => mk "False" "Starting" "" "True" "Starting" "" "False" "AgentStale"
      end
  | PhaseStopping => mk "False" "Stopping" "" "True" "Stopping" "" "False" "Stopping"
  | PhaseSuspended =>
      match idle with
      | idleAsleep => mk "False" "IdleAsleep" "asleep: no players online" "False" "IdleAsleep" "" "False" "IdleAsleep"
      | idleAwake => mk "False" "Suspended" "" "False" "Suspended" "" "False" "Suspended"
      end
  | PhaseFailed =>
      match named with
      | Some i => mk "False" (pvReason i) (pvMessage i) "False" (pvReason i) (pvMessage i) "False" "Failed"
      | None => mk "False" "Failed" "" "False" "Failed" "" "False" "Failed"
      end
  | PhaseStopped => mk "Unknown" "Unknown" "" "Unknown" "Unknown" "" "Unknown" "Unknown"
  end.

(** [addressRequestKind] *)
Definition addressRequestKind (p : addressPlan) : string :=
  if negb (isEmpty (Pool p)) && negb (isEmpty (PAddress p)) then "addressAndPool"
  else if negb (isEmpty (PAddress p)) then "address" else "pool".

(** [tunnelProviderArg] *)
Definition tunnelProviderArg (n : GameServerNetworking) : string :=
  match Tunnel n with None => "none" | Some t => tProvider t end.

(** [setConditionArgs] *)
Definition setConditionArgs (args : gmap string (gmap string string)) (ty : string) (a : gmap string string)
  : gmap string (gmap string string) :=
  if bool_decide (a = ∅) then delete ty args else <[ty := a]> args.

(** [conditionArgsInput] *)
Record conditionArgsInput := MkArgsIn {
  inProv : option provisioningInfo;
  inPlan : addressPlan;
  inAssigned : string;
  inConflicting : string;
  inTunnelPlan : tunnelPlan;
  inPlayitErr : string;
  inIdleSchedErr : option string
}.

(** [addressConditionArgs] *)
Definition addressConditionArgs (gs : GameServer) (c : Condition) (inp : conditionArgsInput) : gmap string string :=
  let plan := inPlan inp in
  let n := gsNetworking gs in
  let request := {["requestKind" := addressRequestKind plan; "address" := PAddress plan; "pool" := Pool plan]} in
  let r := cReason c in
  if String.eqb r "IgnoredForExposureMode"
  then <["expose" := if isEmpty (Expose n) then "ClusterIP" else Expose n]> request
  else if String.eqb r "InvalidAddress" then {["address" := Address n]}
  else if String.eqb r "NoAddressManagerConfigured" || String.eqb r "ServiceNotReady" || String.eqb r "AssignmentPending"
  then request
  else if String.eqb r "AddressInUse" then {["address" := Address n; "server" := inConflicting inp]}
  else if String.eqb r "PoolNotFound" then {["pool" := Pool plan]}
  else if String.eqb r "AllocationFailed" then {["detail" := cMessage c]}
  else if String.eqb r "Assigned"
  then {["address" := inAssigned inp; "pool" := Pool plan;
         "assignedFrom" := if isEmpty (Pool plan) then "default" else "pool"]}
  else ∅.

(** [conditionArgsFor] *)
Definition conditionArgsFor (gs : GameServer) (c : Condition) (inp : conditionArgsInput) : gmap string string :=
  let ty := cType c in
  let r := cReason c in
  let byProv :=
    match inProv inp with
    | Some i => (String.eqb ty "Ready" || String.eqb ty "Progressing") && String.eqb r (pvReason i) &&
                negb (bool_decide (pvArgs i = ∅))
    | None => false
    end in
  match byProv, inProv inp with
  | true, Some i => pvArgs i
  | _, _ =>
      if String.eqb ty "Ready" then (if String.eqb r "Failed" then {["detail" := cMessage c]} else ∅)
      else if String.eqb ty AddressAssignment then addressConditionArgs gs c inp
      else if String.eqb ty "TunnelReady" then
        if bool_decide (r ∈ ["InvalidConfig"; "NoCredentials"; "Ready"; "UnknownProvider"])
        then {["provider" := tunnelProviderArg (gsNetworking gs)]}
        else if String.eqb r "PortNotMapped" then {["ports" := JoinWith ", " (noMapping (inTunnelPlan inp))]}
        else ∅
      else if String.eqb ty "TunnelHostnameIgnored" then
        if String.eqb r "SettingIgnored"
        then {["settings" := JoinWith ", " (ignoredTunnelSettings (gsNetworking gs))]} else ∅
      else if String.eqb ty "TunnelAddressInvalid" then
        if String.eqb r "ValidationFailed" then {["details" := inPlayitErr inp]} else ∅
      else if String.eqb ty "IdleScheduleInvalid" then
        match inIdleSchedErr inp with
        | Some e => if String.eqb r "WakeWindowUnparseable" then {["details" := e]} else ∅
        | None => ∅
        end
      else ∅
  end.

(** [deriveConditionArgs] *)
Definition deriveConditionArgs (gs : GameServer) (inp : conditionArgsInput) : gmap string (gmap string string) :=
  foldl (fun out c =>
    let args := conditionArgsFor gs c inp in
    if bool_decide (args = ∅) then out else <[cType c := args]> out) ∅ (stConditions (gsStatus gs)).

(** ** [reconcileStatus] *)

(** What the cluster answers in one pass. *)
Record statusEnv := MkEnv {
  addressManager : string;
  metalLBNamespaceFlag : string;
  ssRead : read Z;                    (* the StatefulSet: its ready replicas *)
  svcRead : read Service;
  pvcRead : read PVC;
  storageClassRead : string -> read unit;
  podRead : read Pod;
  poolRead : string -> read unit;
  tunnelRead : read Deployment;
  phaseClock : time;                  (* the heartbeat's age for the phase *)
  podClock : time;                    (* its age for the pod's explanation *)
  stampClock : time;                  (* metav1.Now *)
  patchOk : bool                      (* whether a status patch is accepted *)
}.

Inductive statusErr := StatefulSetError | ServiceError | PVCError | PodError | PatchError.

Definition stampPlayit (e : GameServerEndpoint) : GameServerEndpoint :=
  MkEndpoint (epName e) (epHost e) (epPort e) (epProtocol e) (epPrivate e) "playit" (epPool e).

Section Reconcile.
Variable isValidAddress : string -> bool.
Variable uni : Z -> Z.
Variable Quote : string -> string.
Variable ParseIP : string -> option (list Z).
Variable ipText : list Z -> string.

(** [computeConditions] *)
Definition computeConditions (gs : GameServer) (phase : GameServerPhase) (prov : option provisioningInfo)
    (idle : idleState) (plan : addressPlan) (svc : option Service) (failure : addressFailureReason)
    (conflicting : string) (now : time) : list Condition :=
  let '(ready, progressing, healthy) := phaseConditions phase prov idle (gsGeneration gs) in
  let conds := upsertCondition (stConditions (gsStatus gs)) ready now in
  let conds := upsertCondition conds progressing now in
  let conds := upsertCondition conds healthy now in
  addressAssignmentCondition Quote conds gs plan svc failure conflicting now.

(** The phase and its explanation: the claim is looked at while Pending or
    Starting, the pod while Starting. *)
Definition phaseAndProvisioning (env : statusEnv) (gs : GameServer) (phase : GameServerPhase)
  : result statusErr (GameServerPhase * option provisioningInfo) :=
  let pvcName := gsName gs +:+ "-data" in
  let fromPVC :=
    if bool_decide (phase = PhasePending \/ phase = PhaseStarting) then
      match checkPVCProvisioningFailure (pvcRead env) (storageClassRead env) with
      | Err _ => Err PVCError
      | Ok None => Ok None
      | Ok (Some (sc, msg)) =>
          Ok (Some (MkProv PVCProvisioningFailed ("PVC " +:+ Quote pvcName +:+ ": " +:+ msg)
                      {["pvc" := pvcName; "storageClass" := sc]}))
      end
    else Ok None in
  match fromPVC with
  | Err e => Err e
  | Ok (Some prov) => Ok (phase, Some prov)
  | Ok None =>
      if bool_decide (phase = PhaseStarting) then
        match podRead env with
        | NotFound => Ok (phase, Some (MkProv "Pending" "scheduling the pod" ∅))
        | ReadError => Err PodError
        | Found pod =>
            match startupFailure pod with
            | Some (r, m) => Ok (PhaseFailed, Some (MkProv r m (provisioningArgs pod r)))
            | None =>
                let '(r, m) := provisioningReason pod (heartbeatFresh (stAgent (gsStatus gs)) (podClock env)) in
                Ok (phase, Some (MkProv r m (provisioningArgs pod r)))
            end
        end
      else Ok (phase, None)
  end.

(** The endpoints a playit tunnel reported, merged: the conditions, the plan and
    the text of the rejected ones. *)
Definition mergePlayit (gs : GameServer) (conds : list Condition) (plan : tunnelPlan) (ports : list GamePort) (now : time)
  : list Condition * tunnelPlan * string :=
  match Tunnel (gsNetworking gs) with
  | Some t =>
      if String.eqb (tProvider t) "playit" && negb (bool_decide (stTunnelEndpoints (gsStatus gs) = [])) then
        let '(valid, err) := validatePlayitEndpoints ParseIP ipText Quote (stTunnelEndpoints (gsStatus gs))
                               (getAdvertisedPortNames ports) in
        (if isEmpty err then removeCondition conds "TunnelAddressInvalid"
         else upsertCondition conds (cond "TunnelAddressInvalid" "True" "ValidationFailed" err (gsGeneration gs)) now,
         MkTunnelPlan (wantTunnel plan) (map stampPlayit valid) (noMapping plan) (unsupportedPorts plan), err)
      else (conds, plan, EmptyString)
  | None => (conds, plan, EmptyString)
  end.

(** The endpoints of the pass, tunnel addresses first. *)
Definition mergeEndpoints (gs : GameServer) (conds : list Condition) (plan : tunnelPlan) (svc : option Service)
    (addrPlan : addressPlan) : list GameServerEndpoint :=
  let own := match svc with
             | Some s => endpointsFromService s addrPlan
             | None => List.filter (fun e => negb (String.eqb (epTunnelProvider e) "tailscale"))
                         (stEndpoints (gsStatus gs))
             end in
  let provider := match Tunnel (gsNetworking gs) with Some t => tProvider t | None => EmptyString end in
  if wantTunnel plan && negb (bool_decide (tpEndpoints plan = [])) &&
     (negb (String.eqb provider "tailscale") || IsStatusConditionTrue conds "TunnelReady")
  then (tpEndpoints plan ++ own)%list else own.

Definition startedAt (env : statusEnv) (gs : GameServer) (phase : GameServerPhase) : option time :=
  match phase with
  | PhaseRunning =>
      match gameContainerStartedAt (podRead env) with
      | Some t => Some t
      | None => match stStartedAt (gsStatus gs) with Some t => Some t | None => Some (stampClock env) end
      end
  | PhaseStopped | PhaseSuspended => None
  | _ => stStartedAt (gsStatus gs)
  end.

(** [reconcileStatus]: the status afterwards and when to look again. *)
Definition reconcileStatus (env : statusEnv) (gs : GameServer) (idle : idleState) (idleStatus : option IdleStatus)
    (idleScheduleErr : option string) (tunnel : tunnelPlan) (ports : list GamePort) (svcEvents : list Event)
    (conflicting : string) : result statusErr (GameServerStatus * duration) :=
  let now := stampClock env in
  match ssRead env, svcRead env with
  | ReadError, _ => Err StatefulSetError
  | _, ReadError => Err ServiceError
  | ss, svcR =>
      let ssExists := match ss with Found _ => true | _ => false end in
      let ssReady := match ss with Found n => 0 <? n | _ => false end in
      let svc := match svcR with Found s => Some s | _ => None end in
      let addrPlan := planAddressPreference isValidAddress (gsNetworking gs) (addressManager env) in
      let phase := derivePhase (gsSuspend gs) ssExists ssReady
                     (heartbeatFresh (stAgent (gsStatus gs)) (phaseClock env)) idle in
      match phaseAndProvisioning env gs phase with
      | Err e => Err e
      | Ok (phase, prov) =>
          let failure := addressFailure uni Quote addrPlan svc svcEvents (poolRead env (Pool addrPlan))
                           (metalLBNamespaceFlag env) in
          let conds := computeConditions gs phase prov idle addrPlan svc failure conflicting now in
          let dep := if wantTunnel tunnel then match tunnelRead env with Found d => Some d | _ => None end else None in
          let conds := computeTunnelConditions (set_status gs (set_conditions (gsStatus gs) conds)) tunnel dep now in
          let '(conds, tunnel, playitErr) := mergePlayit gs conds tunnel ports now in
          let conds := match idleScheduleErr with
                       | Some e => upsertCondition conds
                                     (MkCond "IdleScheduleInvalid" "True" "WakeWindowUnparseable" e (gsGeneration gs) now) now
                       | None => removeCondition conds "IdleScheduleInvalid"
                       end in
          let st := gsStatus gs in
          let args := deriveConditionArgs (set_status gs (set_conditions st conds))
                        (MkArgsIn prov addrPlan (loadBalancerAddress svc) conflicting tunnel playitErr idleScheduleErr) in
          let st' := MkStatus (Some phase) (gsGeneration gs) conds args
                       (mergeEndpoints gs conds tunnel svc addrPlan) (stAgent st) (startedAt env gs phase)
                       idleStatus (stTunnelEndpoints st) in
          if negb (bool_decide (st' = st)) && negb (patchOk env) then Err PatchError
          else Ok (st', if bool_decide (phase = PhaseRunning) then heartbeatFreshness else 15 * Second)
      end
  end.
End Reconcile.

(** ** The other writers of conditions *)

(** [setPhase]: a pass that stopped early. *)
Definition setPhase (gs : GameServer) (msg : string) (now : time) : GameServerStatus :=
  let st := gsStatus gs in
  MkStatus (Some PhaseFailed) (stObservedGeneration st)
    (upsertCondition (stConditions st) (cond "Ready" "False" "Failed" msg (gsGeneration gs)) now)
    (setConditionArgs (stConditionArgs st) "Ready" {["detail" := msg]})
    (stEndpoints st) (stAgent st) (stStartedAt st) (stIdle st) (stTunnelEndpoints st).

Definition set_args (s : GameServerStatus) (a : gmap string (gmap string string)) : GameServerStatus :=
  MkStatus (stPhase s) (stObservedGeneration s) (stConditions s) a (stEndpoints s) (stAgent s) (stStartedAt s)
    (stIdle s) (stTunnelEndpoints s).

(** [setTunnelCredentialRefused] *)
Definition setTunnelCredentialRefused (Quote : string -> string) (gs : GameServer) (secretName : string) (now : time)
  : GameServerStatus :=
  let own := String.eqb secretName (gsName gs +:+ "-tunnel-auth") in
  let remedy :=
    if own then "add an ownerReference to this GameServer to the Secret, or delete the Secret and save the credential again via the dashboard or the PUT /servers/{name}:tunnel-credentials API"
    else "save the credential via the dashboard or the PUT /servers/{name}:tunnel-credentials API, or add an ownerReference to this GameServer to the Secret" in
  let st := gsStatus gs in
  set_args
    (set_conditions st (upsertCondition (stConditions st)
      (cond "TunnelReady" "False" "TunnelCredentialRefused"
         ("tunnel credentials secret " +:+ Quote secretName +:+
          " is not owned by this GameServer (no ownerReference matching its name and UID); " +:+ remedy)
         (gsGeneration gs)) now))
    (setConditionArgs (stConditionArgs st) "TunnelReady"
       {["secret" := secretName; "remedy" := if own then "defaultName" else "other"]}).

(** [clearTunnelCredentialRefused] *)
Definition clearTunnelCredentialRefused (gs : GameServer) : GameServerStatus :=
  let st := gsStatus gs in
  match FindStatusCondition (stConditions st) "TunnelReady" with
  | Some c =>
      if String.eqb (cReason c) "TunnelCredentialRefused"
      then set_args (set_conditions st (removeCondition (stConditions st) "TunnelReady"))
             (setConditionArgs (stConditionArgs st) "TunnelReady" ∅)
      else st
  | None => st
  end.

(** The requeue of [Reconcile]: the earliest positive hint. *)
Definition requeueAfter (base : duration) (hints : list duration) : duration :=
  foldl (fun acc hint => if (0 <? hint) && ((acc =? 0) || (hint <? acc)) then hint else acc) base hints.
