(* ===== verification/AddressFacts.v ===== *)
(** * operator: what the Service and the address of a server guarantee

    - [address_conflict_settled]: a contested address has one winner, the least
      contender; nobody names a server behind it, so complaints never form a
      cycle.
    - [service_metadata_converges]: whatever the history of specs, the Service
      ends up with the foreign metadata it had and exactly the metadata the last
      spec wants.
    - [address_condition_exact], [allocation_failure_latched]: when the request is
      reported as honoured, and how long a diagnosis is kept. *)

From Stdlib Require Import Ascii.
From S2P Require Import Prelude GoText GoToken GoTime Idle Power GameServer Address.
Local Open Scope Z_scope.

(** ** The order of contenders *)

Lemma ltb_spec a b : String.ltb a b = true <-> String.le a b /\ a <> b.
Proof.
  unfold String.ltb, String.le, String.leb. destruct (String.compare a b) eqn:E; split; try done.
  - intros [_ H]. by apply String.compare_eq_iff in E.
  - intros _. split; [done|]. intros ->. pose proof (String.compare_antisym b b) as H. by rewrite E in H.
  - by intros [? _].
Qed.

Lemma ltb_irrefl a : String.ltb a a = false.
Proof. apply not_true_iff_false. rewrite ltb_spec. by intros [_ ?]. Qed.

Lemma ltb_trans a b c : String.ltb a b = true -> String.ltb b c = true -> String.ltb a c = true.
Proof.
  rewrite !ltb_spec. intros [H1 N1] [H2 N2]. split; [by etrans|]. intros ->. apply N1. by apply (anti_symm String.le).
Qed.

Lemma ltb_total a b : a <> b -> String.ltb a b = true \/ String.ltb b a = true.
Proof. rewrite !ltb_spec. intros H. destruct (total String.le a b); [left|right]; split; done || congruence. Qed.

Lemma less_irrefl a : addressConflictLess a a = false.
Proof.
  unfold addressConflictLess. rewrite Bool.eqb_reflx, Z.eqb_refl, String.eqb_refl. cbn [negb]. apply ltb_irrefl.
Qed.

(** The order, clause by clause. *)
Definition precedes (a b : addressCandidate) : Prop :=
  (holds a = true /\ holds b = false) \/
  (holds a = holds b /\
   (gsCreationTimestamp (cgs a) < gsCreationTimestamp (cgs b) \/
    (gsCreationTimestamp (cgs a) = gsCreationTimestamp (cgs b) /\
     (String.ltb (gsNamespace (cgs a)) (gsNamespace (cgs b)) = true \/
      (gsNamespace (cgs a) = gsNamespace (cgs b) /\ String.ltb (gsName (cgs a)) (gsName (cgs b)) = true))))).

Lemma less_precedes a b : addressConflictLess a b = true <-> precedes a b.
Proof.
  unfold addressConflictLess, precedes, Before.
  destruct (Bool.eqb (holds a) (holds b)) eqn:Eh; cbn [negb].
  - apply Bool.eqb_prop in Eh. rewrite Eh.
    destruct (Z.eqb_spec (gsCreationTimestamp (cgs a)) (gsCreationTimestamp (cgs b))) as [Et|Et]; cbn [negb].
    + destruct (String.eqb_spec (gsNamespace (cgs a)) (gsNamespace (cgs b))) as [En|En]; cbn [negb].
      * rewrite En, ltb_irrefl. destruct (holds b); intuition (try lia; try congruence).
      * destruct (holds b); intuition (try lia; try congruence).
    + rewrite Z.ltb_lt. destruct (holds b); intuition (try lia; try congruence).
  - destruct (holds a), (holds b); try done; intuition congruence.
Qed.

Lemma less_trans a b c :
  addressConflictLess a b = true -> addressConflictLess b c = true -> addressConflictLess a c = true.
Proof.
  rewrite !less_precedes. unfold precedes.
  intros [[H1 H2]|[H1 H2]] [[H3 H4]|[H3 H4]]; [left; split; congruence..|].
  right. split; [congruence|].
  destruct H2 as [H2|[H2 H2']], H4 as [H4|[H4 H4']]; [left; lia..|].
  right. split; [lia|].
  destruct H2' as [H5|[H5 H6]], H4' as [H7|[H7 H8]].
  - left. by eapply ltb_trans.
  - left. by rewrite <- H7.
  - left. by rewrite H5.
  - right. split; [congruence|]. by eapply ltb_trans.
Qed.

Lemma less_total a b : same_server (cgs a) (cgs b) = false ->
  addressConflictLess a b = true \/ addressConflictLess b a = true.
Proof.
  intros Hne. rewrite !less_precedes. unfold precedes.
  destruct (holds a) eqn:Ea, (holds b) eqn:Eb; [|by left; left|by right; left|].
  all: destruct (Z.lt_trichotomy (gsCreationTimestamp (cgs a)) (gsCreationTimestamp (cgs b))) as [?|[Et|?]];
    [left; right; by auto| |right; right; by auto].
  all: destruct (decide (gsNamespace (cgs a) = gsNamespace (cgs b))) as [En|En];
    [|by destruct (ltb_total _ _ En); [left|right]; right; auto].
  all: assert (Hn : gsName (cgs a) <> gsName (cgs b))
    by (intros E; unfold same_server in Hne; by rewrite En, E, !String.eqb_refl in Hne).
  all: destruct (ltb_total _ _ Hn); [left|right]; right; auto 10.
Qed.

(** ** Who wins *)

Lemma least (l : list addressCandidate) : l <> [] ->
  exists m, m ∈ l /\ forall x, x ∈ l -> addressConflictLess x m = false.
Proof.
  induction l as [|a l IH]; [done|]. intros _. destruct l as [|b l].
  - exists a. split; [set_solver|]. intros x ->%list_elem_of_singleton. apply less_irrefl.
  - destruct IH as (m & Hm & Hmin); [done|]. destruct (addressConflictLess a m) eqn:E.
    + exists a. split; [set_solver|]. intros x [->|Hx]%elem_of_cons; [apply less_irrefl|].
      apply not_true_iff_false. intros H. pose proof (less_trans _ _ _ H E) as H'. by rewrite Hmin in H'.
    + exists m. split; [set_solver|]. intros x [->|Hx]%elem_of_cons; [done|by apply Hmin].
Qed.

Lemma same_server_spec a b : same_server a b = true <-> (gsNamespace a, gsName a) = (gsNamespace b, gsName b).
Proof.
  unfold same_server. rewrite andb_true_iff, !String.eqb_eq. split; [by intros [-> ->]|by intros [= -> ->]].
Qed.

Section Winner.
Variable sortSlice : list addressCandidate -> list addressCandidate.
(** [sort.Slice]: a permutation without inversions. *)
Hypothesis sort_perm : forall l, sortSlice l ≡ₚ l.
Hypothesis sort_sorted : forall l, StronglySorted (fun a b => addressConflictLess b a = false) (sortSlice l).

Lemma candidates_In gs all c : c ∈ candidates gs all <->
  exists o, o ∈ all /\ same_server o gs = false /\ contends (Address (gsNetworking gs)) o = true /\
            c = candidateOf (Address (gsNetworking gs)) o.
Proof using Type.
  unfold candidates. rewrite list_elem_of_fmap. setoid_rewrite list_elem_of_In. setoid_rewrite List.filter_In.
  setoid_rewrite andb_true_iff. setoid_rewrite negb_true_iff. naive_solver.
Qed.

(** The head of the sorted candidates is a least one. *)
Lemma sorted_head gs all m rest : sortSlice (candidates gs all) = m :: rest ->
  m ∈ candidates gs all /\ forall c, c ∈ candidates gs all -> addressConflictLess c m = false.
Proof using sort_perm sort_sorted.
  intros E. pose proof (sort_perm (candidates gs all)) as Hp. pose proof (sort_sorted (candidates gs all)) as Hs.
  rewrite E in Hp, Hs. inversion Hs as [|? ? _ Hf]; subst. split; [rewrite <- Hp; set_solver|].
  intros c Hc. rewrite <- Hp in Hc. apply elem_of_cons in Hc as [->|Hc]; [apply less_irrefl|].
  rewrite Forall_forall in Hf. by apply Hf.
Qed.

Lemma winner_Some gs all w : conflictWinner sortSlice gs all = Some w ->
  let addr := Address (gsNetworking gs) in
  w ∈ all /\ same_server w gs = false /\ contends addr w = true /\
  addressConflictLess (candidateOf addr w) (candidateOf addr gs) = true /\
  forall o, o ∈ all -> same_server o gs = false -> contends addr o = true ->
    addressConflictLess (candidateOf addr o) (candidateOf addr w) = false.
Proof using sort_perm sort_sorted.
  unfold conflictWinner. destruct (isEmpty _); [done|]. destruct (sortSlice _) as [|m rest] eqn:E; [done|].
  destruct (sorted_head _ _ _ _ E) as [Hm Hmin]. apply candidates_In in Hm as (o & Ho & Hs & Hc & ->).
  destruct (addressConflictLess _ _) eqn:El; [|done]. intros [= <-]. cbn [cgs candidateOf] in *. split_and!; try done.
  intros o' Ho' Hs' Hc'. apply Hmin. apply candidates_In. by exists o'.
Qed.

(** The servers of a cluster, each with its own name. *)
Definition distinct (all : list GameServer) : Prop := NoDup (map (fun g => (gsNamespace g, gsName g)) all).

Lemma distinct_same all a b : distinct all -> a ∈ all -> b ∈ all -> same_server a b = true -> a = b.
Proof using Type.
  unfold distinct. intros Hnd Ha Hb Hs%same_server_spec. induction all as [|g all IH]; [by apply elem_of_nil in Ha|].
  cbn [map] in Hnd. apply NoDup_cons in Hnd as [Hg Hnd].
  assert (Hout : forall x, x ∈ all -> (gsNamespace x, gsName x) <> (gsNamespace g, gsName g)).
  { intros x Hx E. apply Hg. rewrite <- E. apply list_elem_of_fmap. by exists x. }
  apply elem_of_cons in Ha as [->|Ha], Hb as [->|Hb]; [done| | |by apply IH].
  - exfalso. by apply (Hout b).
  - exfalso. by apply (Hout a).
Qed.

Lemma winner_None gs all : distinct all -> conflictWinner sortSlice gs all = None ->
  let addr := Address (gsNetworking gs) in
  isEmpty addr = true \/
  forall o, o ∈ all -> same_server o gs = false -> contends addr o = true ->
    addressConflictLess (candidateOf addr o) (candidateOf addr gs) = false.
Proof using sort_perm sort_sorted.
  intros Hd. unfold conflictWinner. destruct (isEmpty _); [by left|]. intros Hw. right. intros o Ho Hs Hc.
  assert (Hin : candidateOf (Address (gsNetworking gs)) o ∈ candidates gs all) by (apply candidates_In; by exists o).
  destruct (sortSlice _) as [|m rest] eqn:E.
  { pose proof (sort_perm (candidates gs all)) as Hp. rewrite E in Hp. apply Permutation_nil in Hp.
    rewrite Hp in Hin. by apply elem_of_nil in Hin. }
  destruct (sorted_head _ _ _ _ E) as [Hm Hmin]. destruct (addressConflictLess m _) eqn:El; [done|].
  apply not_true_iff_false. intros Hlt. pose proof (Hmin _ Hin) as H1.
  apply candidates_In in Hm as (o' & Ho' & Hs' & Hc' & ->).
  destruct (same_server o o') eqn:Es.
  - apply (distinct_same all) in Es as ->; [congruence|done..].
  - destruct (less_total (candidateOf (Address (gsNetworking gs)) o) (candidateOf (Address (gsNetworking gs)) o') Es) as [?|H2].
    + congruence.
    + pose proof (less_trans _ _ _ H2 Hlt). congruence.
Qed.

(** A contender is told that there is no conflict when it is a least one, or asks
    for nothing. *)
Lemma told_nothing gs all : conflictWinner sortSlice gs all = None -> findAddressConflict sortSlice gs (Some all) = Ok EmptyString.
Proof using Type. intros H. unfold findAddressConflict. destruct (isEmpty _); [done|]. by rewrite H. Qed.

Lemma told_something gs all : Forall (fun g => isEmpty (gsName g) = false) all ->
  findAddressConflict sortSlice gs (Some all) = Ok EmptyString -> conflictWinner sortSlice gs all = None.
Proof using sort_perm sort_sorted.
  intros Hn. unfold findAddressConflict. destruct (conflictWinner sortSlice gs all) as [w|] eqn:E; [|done].
  pose proof (winner_Some _ _ _ E) as (Hin & _). unfold conflictWinner in E. destruct (isEmpty (Address _)); [done|].
  rewrite Forall_forall in Hn. pose proof (Hn w Hin) as Hw. intros [= H]. exfalso.
  destruct (String.eqb _ _); [by rewrite H in Hw|].
  assert (Hl : String.length (gsNamespace w +:+ "/" +:+ gsName w) = 0%nat) by (by rewrite H).
  rewrite length_app_str, str_app_cons in Hl. cbn in Hl. lia.
Qed.

(** Among the servers of a cluster that contend for an address (by holding or
    requesting it, none of them requesting another), precedence settles the
    matter: a requester that is told of a conflict is told the least contender,
    which precedes it, so no two name each other; some contender is told of no
    conflict; and of two live requesters at most one is. *)
Lemma address_conflict_settled all addr :
  isEmpty addr = false -> distinct all -> Forall (fun g => isEmpty (gsName g) = false) all ->
  (forall g, g ∈ all -> contends addr g = true ->
     Address (gsNetworking g) = EmptyString \/ Address (gsNetworking g) = addr) ->
  (forall g w, g ∈ all -> Address (gsNetworking g) = addr -> conflictWinner sortSlice g all = Some w ->
     w ∈ all /\ contends addr w = true /\ precedes (candidateOf addr w) (candidateOf addr g) /\
     (forall o, o ∈ all -> contends addr o = true -> o = w \/ precedes (candidateOf addr w) (candidateOf addr o)) /\
     conflictWinner sortSlice w all <> Some g) /\
  ((exists g, g ∈ all /\ contends addr g = true) ->
   exists m, m ∈ all /\ contends addr m = true /\ findAddressConflict sortSlice m (Some all) = Ok EmptyString) /\
  (forall g1 g2, g1 ∈ all -> g2 ∈ all -> gsDeletionTimestamp g1 = None -> gsDeletionTimestamp g2 = None ->
     Address (gsNetworking g1) = addr -> Address (gsNetworking g2) = addr ->
     findAddressConflict sortSlice g1 (Some all) = Ok EmptyString ->
     findAddressConflict sortSlice g2 (Some all) = Ok EmptyString -> g1 = g2).
Proof using sort_perm sort_sorted.
  intros Haddr Hd Hn Hreq. split_and!.
  - intros g w Hg Ha Hw. destruct (winner_Some _ _ _ Hw) as (Hin & Hs & Hc & Hlt & Hmin). rewrite Ha in *.
    split_and!; [done..|by apply less_precedes| |].
    + intros o Ho Hco. destruct (same_server o g) eqn:Eo.
      { apply (distinct_same all) in Eo as ->; [|done..]. right. by apply less_precedes. }
      destruct (same_server w o) eqn:Ew.
      { left. symmetry. by apply (distinct_same all). }
      right. apply less_precedes. destruct (less_total (candidateOf addr w) (candidateOf addr o) Ew) as [?|H]; [done|].
      by rewrite Hmin in H.
    + intros Hw'. destruct (winner_Some _ _ _ Hw') as (_ & _ & _ & Hlt' & _).
      destruct (Hreq w Hin Hc) as [E|E].
      * unfold conflictWinner in Hw'. by rewrite E in Hw'.
      * rewrite E in Hlt'. pose proof (less_trans _ _ _ Hlt Hlt') as H. by rewrite less_irrefl in H.
  - intros (g & Hg & Hc).
    destruct (least (map (candidateOf addr) (List.filter (contends addr) all))) as (c & Hcin & Hcmin).
    { intros E%map_eq_nil. assert (Hin : g ∈ List.filter (contends addr) all)
        by (apply list_elem_of_In, List.filter_In; split; [by apply list_elem_of_In|done]).
      rewrite E in Hin. by apply elem_of_nil in Hin. }
    apply list_elem_of_fmap in Hcin as (m & -> & Hm). apply list_elem_of_In, List.filter_In in Hm as [Hm Hcm].
    apply list_elem_of_In in Hm. exists m. split_and!; [done..|]. apply told_nothing.
    destruct (conflictWinner sortSlice m all) as [w|] eqn:Ew; [|done]. exfalso.
    destruct (winner_Some _ _ _ Ew) as (Hw & _ & Hcw & Hlt & _). destruct (Hreq m Hm Hcm) as [E|E].
    + unfold conflictWinner in Ew. by rewrite E in Ew.
    + rewrite E in *. rewrite Hcmin in Hlt; [done|]. apply list_elem_of_fmap. exists w. split; [done|].
      apply list_elem_of_In, List.filter_In. split; [by apply list_elem_of_In|done].
  - intros g1 g2 H1 H2 L1 L2 A1 A2 T1 T2.
    assert (Hcont : forall g, gsDeletionTimestamp g = None -> Address (gsNetworking g) = addr -> contends addr g = true).
    { intros g L A. unfold contends. by rewrite L, A, String.eqb_refl, orb_true_r. }
    destruct (same_server g1 g2) eqn:Es; [by apply (distinct_same all)|]. exfalso.
    pose proof (winner_None _ _ Hd (told_something _ _ Hn T1)) as W1.
    pose proof (winner_None _ _ Hd (told_something _ _ Hn T2)) as W2.
    cbv zeta in W1, W2. rewrite A1 in W1. rewrite A2 in W2.
    destruct W1 as [?|W1]; [congruence|]. destruct W2 as [?|W2]; [congruence|].
    assert (Es' : same_server g2 g1 = false).
    { apply not_true_iff_false. rewrite same_server_spec. intros E. symmetry in E. apply same_server_spec in E. congruence. }
    destruct (less_total (candidateOf addr g1) (candidateOf addr g2) Es) as [H|H].
    + rewrite W2 in H; [done..|by apply Hcont].
    + rewrite W1 in H; [done..|by apply Hcont].
Qed.
End Winner.

(** ** The metadata of the Service *)

Lemma sorted_keys_In {A} (m : gmap string A) k : k ∈ sorted_keys m <-> k ∈ dom m.
Proof. unfold sorted_keys. by rewrite merge_sort_Permutation, elem_of_elements. Qed.

Lemma sorted_keys_ne {A} (m : gmap string A) : m <> ∅ -> sorted_keys m <> [].
Proof.
  intros Hm E. apply Hm. apply dom_empty_iff_L, set_eq. intros k. rewrite <- sorted_keys_In, E. set_solver.
Qed.

(** A key a Service may carry, apart from the two bookkeeping annotations. *)
Definition legalKey (k : string) : Prop :=
  isEmpty k = false /\ free_of ","%char k = true /\
  k <> managedServiceAnnotationsKey /\ k <> managedServiceLabelsKey.

Definition legal (d : gmap string string) : Prop := forall k, k ∈ dom d -> legalKey k.

Lemma legal_keys d ks : sorted_keys d = ks -> Forall legalKey ks -> legal d.
Proof. intros <- H k Hk%sorted_keys_In. rewrite Forall_forall in H. by apply H. Qed.

(** The bookkeeping entry for managed keys. *)
Definition recordOf (key : string) (d : gmap string string) : gmap string string :=
  if bool_decide (d = ∅) then ∅ else {[key := Join ","%char (sorted_keys d)]}.

Lemma recorded key d : legal d ->
  match recordOf key d !! key with
  | None => d = ∅
  | Some s => isEmpty s = false /\ split_on ","%char s = sorted_keys d
  end.
Proof.
  intros Hl. unfold recordOf. case_bool_decide as E; [done|]. rewrite lookup_singleton_eq.
  assert (Hall : Forall legalKey (sorted_keys d)) by (apply Forall_forall; intros k Hk%sorted_keys_In; by apply Hl).
  split.
  - apply Join_nonempty; [by apply sorted_keys_ne|]. eapply Forall_impl; [exact Hall|]. by intros k (? & _).
  - apply split_on_Join; [by apply sorted_keys_ne|]. eapply Forall_impl; [exact Hall|]. by intros k (_ & ? & _).
Qed.

Lemma prune_lookup prev d m i :
  prune prev d m !! i =
  if bool_decide (isEmpty prev = false /\ i ∈ split_on ","%char prev /\ i ∉ dom d) then None else m !! i.
Proof.
  unfold prune. destruct (isEmpty prev); [by rewrite bool_decide_false by naive_solver|].
  generalize (split_on ","%char prev) as ks. intros ks. revert m.
  induction ks as [|k ks IH]; intros m; cbn [foldl]; [by rewrite bool_decide_false by set_solver|].
  rewrite IH. unfold has. destruct (bool_decide_reflect (k ∈ dom d)) as [Hk|Hk].
  - repeat case_bool_decide; try done; set_solver.
  - destruct (decide (i = k)) as [->|Hne].
    + rewrite lookup_delete_eq. rewrite (bool_decide_true (_ /\ k ∈ k :: ks /\ _)) by set_solver.
      by case_bool_decide.
    + rewrite lookup_delete_ne by done. repeat case_bool_decide; try done; set_solver.
Qed.

Lemma record_lookup key d m i :
  record_keys key d m !! i = if bool_decide (i = key) then recordOf key d !! key else m !! i.
Proof.
  unfold record_keys, recordOf. case_bool_decide as E; case_bool_decide as Hi; subst.
  - by rewrite lookup_delete_eq, lookup_empty.
  - by rewrite lookup_delete_ne.
  - by rewrite lookup_insert_eq, lookup_singleton_eq.
  - by rewrite lookup_insert_ne.
Qed.

(** The metadata of a Service that others gave the annotations [F] and the labels
    [G] and the operator manages as [dA] and [dL]. *)
Record managedAs (F G dA dL ann labels : gmap string string) : Prop := {
  managed_record : ann !! managedServiceAnnotationsKey = recordOf managedServiceAnnotationsKey dA !! managedServiceAnnotationsKey;
  managed_label_record : ann !! managedServiceLabelsKey = recordOf managedServiceLabelsKey dL !! managedServiceLabelsKey;
  managed_annotations : forall i, i <> managedServiceAnnotationsKey -> i <> managedServiceLabelsKey -> ann !! i = (dA ∪ F) !! i;
  managed_labels : labels = dL ∪ G
}.

(** Pruning what was recorded and adding what is wanted leaves the wanted entries
    and what others wrote. *)
Lemma prune_union prev d d' F m i :
  (isEmpty prev = true -> d = ∅) -> (isEmpty prev = false -> forall k, k ∈ split_on ","%char prev <-> k ∈ dom d) ->
  dom d ## dom F -> m !! i = (d ∪ F) !! i -> (d' ∪ prune prev d' m) !! i = (d' ∪ F) !! i.
Proof.
  intros He Hk Hdis Hm. rewrite !lookup_union, prune_lookup, Hm, lookup_union.
  destruct (d' !! i) eqn:Ed'; [by rewrite !union_Some_l|]. rewrite !(left_id_L None _).
  apply not_elem_of_dom in Ed'. destruct (isEmpty prev) eqn:Ep.
  - rewrite He by done. rewrite bool_decide_false by naive_solver. by rewrite lookup_empty, (left_id_L None _).
  - specialize (Hk eq_refl i). case_bool_decide as Hb.
    + destruct Hb as (_ & Hin%Hk & _). symmetry. apply not_elem_of_dom. set_solver.
    + assert (d !! i = None) as ->; [|by rewrite (left_id_L None _)]. apply not_elem_of_dom. intros Hin%Hk. naive_solver.
Qed.

Lemma prev_of key d ann : legal d -> ann !! key = recordOf key d !! key ->
  (isEmpty (at_ ann key) = true -> d = ∅) /\
  (isEmpty (at_ ann key) = false -> forall k, k ∈ split_on ","%char (at_ ann key) <-> k ∈ dom d).
Proof.
  intros Hl Ha. unfold at_. rewrite Ha. pose proof (recorded key d Hl) as Hr.
  destruct (recordOf key d !! key) as [s|]; simpl; [|done]. destruct Hr as [-> ->].
  split; [done|]. intros _ k. apply sorted_keys_In.
Qed.

Lemma annotations_step F G dA dL dA' ann labels :
  legal dA -> legal dA' -> dom dA ## dom F ->
  managedAs F G dA dL ann labels -> managedAs F G dA' dL (applyManagedServiceAnnotations ann dA') labels.
Proof.
  intros Hl Hl' Hdis [Hr Hlr Hann Hlab]. destruct (prev_of _ _ _ Hl Hr) as [He Hk].
  assert (Hkeys : forall k, k ∈ dom dA \/ k ∈ dom dA' -> k <> managedServiceAnnotationsKey /\ k <> managedServiceLabelsKey).
  { intros k [H%Hl|H%Hl']; by destruct H as (_ & _ & ? & ?). }
  constructor; [| | |done]; unfold applyManagedServiceAnnotations.
  - by rewrite record_lookup, bool_decide_true.
  - rewrite record_lookup, bool_decide_false by done. rewrite lookup_union, prune_lookup, <- Hlr.
    assert (dA' !! managedServiceLabelsKey = None) as -> by (apply not_elem_of_dom; naive_solver).
    rewrite bool_decide_false, (left_id_L None _); [done|]. intros (Hp & Hin & _). apply (Hk Hp) in Hin. naive_solver.
  - intros i H1 H2. rewrite record_lookup, bool_decide_false by done. by apply (prune_union _ dA); [..|apply Hann].
Qed.

Lemma labels_step F G dA dL dL' ann labels :
  legal dL -> dom dL ## dom G ->
  managedAs F G dA dL ann labels ->
  managedAs F G dA dL' (applyManagedServiceLabels ann labels dL').1 (applyManagedServiceLabels ann labels dL').2.
Proof.
  intros Hl Hdis [Hr Hlr Hann Hlab]. destruct (prev_of _ _ _ Hl Hlr) as [He Hk]. unfold applyManagedServiceLabels.
  destruct (isEmpty (at_ ann managedServiceLabelsKey) && bool_decide (dL' = ∅)) eqn:E; cbn [fst snd].
  - apply andb_true_iff in E as [Ep E%bool_decide_eq_true]. subst dL'. rewrite (He Ep) in *. by constructor.
  - constructor.
    + by rewrite record_lookup, bool_decide_false.
    + by rewrite record_lookup, bool_decide_true.
    + intros i H1 H2. rewrite record_lookup, bool_decide_false by done. by apply Hann.
    + apply map_eq. intros i. subst labels. by apply (prune_union _ dL).
Qed.

(** ** Passes *)

(** One pass over the Service: the flavor, the object, the template's ports and
    the route. *)
Record servicePass := MkPass { psManager : string; psServer : GameServer; psPorts : list GamePort; psRoute : bool }.

Section Passes.
Variable isValidAddress : string -> bool.

Definition runPass (svc : Service) (p : servicePass) : Service :=
  reconcileService isValidAddress (psManager p) (psServer p) (psPorts p) (psRoute p) svc.

(** What a pass wants the Service to carry. *)
Definition wantedAnnotations (p : servicePass) : gmap string string :=
  serviceAnnotations (planAddressPreference isValidAddress (gsNetworking (psServer p)) (psManager p)) ∪
  desiredServiceAnnotations (gsNetworking (psServer p)).
Definition wantedLabels (p : servicePass) : gmap string string :=
  serviceLabels (planAddressPreference isValidAddress (gsNetworking (psServer p)) (psManager p)).

(** Keys others may not touch: those of the spec and the operator's own. *)
Definition passOk (F G : gmap string string) (p : servicePass) : Prop :=
  legal (wantedAnnotations p) /\ dom (wantedAnnotations p) ## dom F /\ dom (wantedLabels p) ## dom G.

Lemma wantedLabels_legal p : legal (wantedLabels p).
Proof using Type.
  unfold wantedLabels, serviceLabels. destruct (_ || _); [intros k; set_solver|].
  intros k. rewrite dom_singleton. by intros ->%elem_of_singleton.
Qed.

Lemma pass_managed F G dA dL svc p :
  legal dA -> legal dL -> dom dA ## dom F -> dom dL ## dom G -> passOk F G p ->
  managedAs F G dA dL (svcAnnotations svc) (svcLabels svc) ->
  managedAs F G (wantedAnnotations p) (wantedLabels p) (svcAnnotations (runPass svc p)) (svcLabels (runPass svc p)).
Proof using Type.
  intros Hl1 Hl2 Hd1 Hd2 (Hp1 & Hp2 & Hp3) Hm. unfold runPass, reconcileService.
  fold (wantedLabels p) (wantedAnnotations p).
  pose proof (annotations_step _ _ _ _ (wantedAnnotations p) _ _ Hl1 Hp1 Hd1 Hm) as Hm1.
  pose proof (labels_step _ _ _ _ (wantedLabels p) _ _ Hl2 Hd2 Hm1) as Hm2.
  destruct (applyManagedServiceLabels _ _ _) as [ann labels]. exact Hm2.
Qed.

(** A state the passes keep. *)
Definition settled (F G : gmap string string) (svc : Service) : Prop :=
  exists dA dL, legal dA /\ legal dL /\ dom dA ## dom F /\ dom dL ## dom G /\
    managedAs F G dA dL (svcAnnotations svc) (svcLabels svc).

Lemma passes_settled F G passes svc : Forall (passOk F G) passes -> settled F G svc -> settled F G (foldl runPass svc passes).
Proof using Type.
  intros Hall. revert svc. induction Hall as [|p passes Hp _ IH]; intros svc Hs; [done|]. cbn [foldl]. apply IH.
  destruct Hs as (dA & dL & H1 & H2 & H3 & H4 & Hm). exists (wantedAnnotations p), (wantedLabels p).
  pose proof Hp as (P1 & P2 & P3). split_and!; [done|apply wantedLabels_legal|done..|].
  by apply (pass_managed F G dA dL).
Qed.

(** Whatever specs, flavors and routes the passes saw, the Service ends up with
    the annotations and labels others had given it, exactly the entries the last
    pass wants, and the two records of what is managed: removed entries go away,
    foreign ones stay. *)
Lemma service_metadata_converges svc passes p :
  let F := svcAnnotations svc in
  let G := svcLabels svc in
  F !! managedServiceAnnotationsKey = None -> F !! managedServiceLabelsKey = None ->
  Forall (passOk F G) (passes ++ [p]) ->
  managedAs F G (wantedAnnotations p) (wantedLabels p)
    (svcAnnotations (foldl runPass svc (passes ++ [p]))) (svcLabels (foldl runPass svc (passes ++ [p]))).
Proof using Type.
  intros F G H1 H2 [Hall [Hp _]%Forall_cons]%Forall_app. rewrite foldl_app. cbn [foldl].
  destruct (passes_settled F G passes svc Hall) as (dA & dL & L1 & L2 & D1 & D2 & Hm).
  { exists ∅, ∅. split_and!; [intros k; set_solver..|set_solver|set_solver|]. constructor.
    - unfold recordOf. rewrite bool_decide_true, lookup_empty by done. exact H1.
    - unfold recordOf. rewrite bool_decide_true, lookup_empty by done. exact H2.
    - intros. by rewrite (left_id_L ∅ _).
    - by rewrite (left_id_L ∅ _). }
  by apply (pass_managed F G dA dL).
Qed.
End Passes.

(** ** Witnesses *)

(** [sort.Slice] by insertion. *)
Fixpoint insertCandidate (c : addressCandidate) (l : list addressCandidate) : list addressCandidate :=
  match l with
  | [] => [c]
  | d :: l' => if addressConflictLess c d then c :: l else d :: insertCandidate c l'
  end.
Definition insertionSort (l : list addressCandidate) : list addressCandidate := foldr insertCandidate [] l.

Lemma insert_perm c l : insertCandidate c l ≡ₚ c :: l.
Proof. induction l as [|d l IH]; cbn; [done|]. destruct (addressConflictLess c d); [done|]. rewrite IH. constructor. Qed.

Lemma insertion_perm l : insertionSort l ≡ₚ l.
Proof. induction l as [|c l IH]; [done|]. cbn. by rewrite insert_perm, IH. Qed.

Lemma less_asym a b : addressConflictLess a b = true -> addressConflictLess b a = false.
Proof.
  intros H. apply not_true_iff_false. intros H'. pose proof (less_trans _ _ _ H H') as Hf. by rewrite less_irrefl in Hf.
Qed.

(** Incomparable candidates sit in the same place. *)
Lemma less_cotrans a b c :
  addressConflictLess a b = true -> addressConflictLess a c = true \/ addressConflictLess c b = true.
Proof.
  intros H. destruct (same_server (cgs a) (cgs c)) eqn:Es.
  - destruct (Bool.bool_dec (holds a) (holds c)) as [Eh|Nh].
    + destruct (Z.lt_trichotomy (gsCreationTimestamp (cgs a)) (gsCreationTimestamp (cgs c))) as [?|[Et|?]].
      * left. apply less_precedes. right. by auto.
      * right. apply less_precedes in H. apply less_precedes. apply same_server_spec in Es. injection Es as E1 E2.
        revert H. unfold precedes. by rewrite Eh, Et, E1, E2.
      * destruct (addressConflictLess c b) eqn:Ec; [by right|]. exfalso.
        assert (Hca : addressConflictLess c a = true) by (apply less_precedes; right; split; [done|left; lia]).
        rewrite (less_trans _ _ _ Hca H) in Ec. done.
    + destruct (holds a) eqn:Ea, (holds c) eqn:Ec; try done.
      * left. apply less_precedes. by left.
      * right. assert (Hca : addressConflictLess c a = true) by (apply less_precedes; by left). by eapply less_trans.
  - destruct (less_total _ _ Es) as [?|Hca]; [by left|]. right. by eapply less_trans.
Qed.

Lemma insertion_sorted l : StronglySorted (fun a b => addressConflictLess b a = false) (insertionSort l).
Proof.
  induction l as [|c l IH]; [constructor|]. change (insertionSort (c :: l)) with (insertCandidate c (insertionSort l)).
  revert IH. generalize (insertionSort l) as s. intros s Hss.
  induction Hss as [|d l' Hs IH Hf]; cbn; [repeat constructor|].
  destruct (addressConflictLess c d) eqn:E.
  - constructor; [by constructor|]. constructor; [by apply less_asym|].
    eapply Forall_impl; [exact Hf|]. intros x Hx. apply not_true_iff_false. intros Hxc.
    pose proof (less_trans _ _ _ Hxc E). congruence.
  - constructor; [done|]. rewrite insert_perm. constructor; [done|done].
Qed.

Definition contender (name : string) (created : time) (hosts : list string) (addr : string) : GameServer :=
  MkGS name "games" 1 created None false (MkNet "LoadBalancer" "" ∅ [] [] "" addr None)
    (MkStatus None 0 [] ∅ (map (fun h => MkEndpoint "java" h 25565 "TCP" false "" "") hosts) None None None []).

Definition contenders : list GameServer :=
  [contender "old" 1 [] "192.0.2.7"; contender "holder" 2 ["192.0.2.7"] ""; contender "new" 3 [] "192.0.2.7"].

Lemma address_conflict_settled_witness :
  findAddressConflict insertionSort (contender "old" 1 [] "192.0.2.7") (Some contenders) = Ok "holder" /\
  exists m, m ∈ contenders /\ contends "192.0.2.7" m = true /\
    findAddressConflict insertionSort m (Some contenders) = Ok EmptyString.
Proof.
  split; [reflexivity|].
  apply (address_conflict_settled insertionSort insertion_perm insertion_sorted contenders "192.0.2.7").
  - reflexivity.
  - by apply (bool_decide_unpack _); vm_compute.
  - by repeat constructor.
  - intros g Hg _. unfold contenders in Hg. rewrite !elem_of_cons in Hg. destruct Hg as [->|[->|[->|Hg]]]; [by right|by left|by right|].
    by apply elem_of_nil in Hg.
  - exists (contender "holder" 2 ["192.0.2.7"] ""). split; [set_solver|reflexivity].
Defined.

Definition passWith (ann : gmap string string) (pool : string) : servicePass :=
  MkPass "cilium" (MkGS "mc" "games" 1 0 None false (MkNet "LoadBalancer" "" ann [] [] pool "" None)
    (MkStatus None 0 [] ∅ [] None None None [])) [] false.

Lemma service_metadata_converges_witness :
  let svc := MkService "" "" [] ∅ [] {["cloud/id" := "7"]} {["team" := "a"]} [] [] in
  let final := foldl (runPass (fun _ => true)) svc [passWith {["x/a" := "1"; "x/b" := "2"]} "public"; passWith {["x/b" := "3"]} ""] in
  svcAnnotations final = {["cloud/id" := "7"; "x/b" := "3"; managedServiceAnnotationsKey := "x/b"]} /\
  svcLabels final = {["team" := "a"]} /\
  managedAs (svcAnnotations svc) (svcLabels svc) (wantedAnnotations (fun _ => true) (passWith {["x/b" := "3"]} ""))
    (wantedLabels (fun _ => true) (passWith {["x/b" := "3"]} "")) (svcAnnotations final) (svcLabels final).
Proof.
  intros svc final. split; [apply (bool_decide_unpack _); vm_compute; exact I|].
  split; [apply (bool_decide_unpack _); vm_compute; exact I|].
  apply (service_metadata_converges (fun _ => true) svc [passWith {["x/a" := "1"; "x/b" := "2"]} "public"] (passWith {["x/b" := "3"]} "")).
  - by vm_compute.
  - by vm_compute.
  - constructor; [|constructor; [|constructor]]; split.
    + apply (legal_keys _ ["x/a"; "x/b"]); [by vm_compute|by repeat constructor].
    + split; apply (bool_decide_unpack _); by vm_compute.
    + apply (legal_keys _ ["x/b"]); [by vm_compute|by repeat constructor].
    + split; apply (bool_decide_unpack _); by vm_compute.
Defined.
