(* ===== verification/StatusFacts.v ===== *)
(** * operator: what the status of a server says

    - [status_faithful]: Ready, Healthy and Progressing say what the phase says,
      the phase is what the workload and the heartbeat show, and every type has
      one condition.
    - [endpoints_sound]: where each published endpoint comes from, and what had to
      hold for it.
    - [allocation_failure_latched]: how long a diagnosis is kept. *)

From Stdlib Require Import Ascii.
From S2P Require Import Prelude GoText GoToken GoTime Idle Power PowerFacts GameServer Address Tunnel Status.
Local Open Scope Z_scope.

Section Facts.
Variable isValidAddress : string -> bool.
Variable uni : Z -> Z.
Variable Quote : string -> string.
Variable ParseIP : string -> option (list Z).
Variable ipText : list Z -> string.

Abbreviation reconcileStatus := (reconcileStatus isValidAddress uni Quote ParseIP ipText).
Abbreviation computeConditions := (computeConditions Quote).
Abbreviation phaseAndProvisioning := (phaseAndProvisioning Quote).
Abbreviation mergePlayit := (mergePlayit Quote ParseIP ipText).
Abbreviation addressAssignmentCondition := (addressAssignmentCondition Quote).

(** ** One pass, taken apart *)

Definition planOf (env : statusEnv) (gs : GameServer) : addressPlan :=
  planAddressPreference isValidAddress (gsNetworking gs) (addressManager env).
Definition serviceOf (env : statusEnv) : option Service := match svcRead env with Found s => Some s | _ => None end.
Definition deploymentOf (env : statusEnv) (tunnel : tunnelPlan) : option Deployment :=
  if wantTunnel tunnel then match tunnelRead env with Found d => Some d | _ => None end else None.
Definition ssReady (env : statusEnv) : bool := match ssRead env with Found n => 0 <? n | _ => false end.
Definition ssExists (env : statusEnv) : bool := match ssRead env with Found _ => true | _ => false end.
Definition observedPhase (env : statusEnv) (gs : GameServer) (idle : idleState) : GameServerPhase :=
  derivePhase (gsSuspend gs) (ssExists env) (ssReady env) (heartbeatFresh (stAgent (gsStatus gs)) (phaseClock env)) idle.
Definition failureOf (env : statusEnv) (gs : GameServer) (events : list Event) : addressFailureReason :=
  addressFailure uni Quote (planOf env gs) (serviceOf env) events (poolRead env (Pool (planOf env gs)))
    (metalLBNamespaceFlag env).

(** The conditions after the idle schedule is reported. *)
Definition scheduleCondition (gs : GameServer) (err : option string) (conds : list Condition) (now : time) : list Condition :=
  match err with
  | Some e => upsertCondition conds (MkCond "IdleScheduleInvalid" "True" "WakeWindowUnparseable" e (gsGeneration gs) now) now
  | None => removeCondition conds "IdleScheduleInvalid"
  end.

Definition phaseConds (env : statusEnv) (gs : GameServer) (idle : idleState) (phase : GameServerPhase)
    (prov : option provisioningInfo) (events : list Event) (conflicting : string) : list Condition :=
  computeConditions gs phase prov idle (planOf env gs) (serviceOf env) (failureOf env gs events) conflicting (stampClock env).

Definition tunnelConds (env : statusEnv) (gs : GameServer) (tunnel : tunnelPlan) (conds : list Condition) : list Condition :=
  computeTunnelConditions (set_status gs (set_conditions (gsStatus gs) conds)) tunnel (deploymentOf env tunnel) (stampClock env).

Lemma status_inv env gs idle idleStatus schedErr tunnel ports events conflicting st' d :
  reconcileStatus env gs idle idleStatus schedErr tunnel ports events conflicting = Ok (st', d) ->
  exists phase prov conds tunnel' playitErr,
    phaseAndProvisioning env gs (observedPhase env gs idle) = Ok (phase, prov) /\
    mergePlayit gs (tunnelConds env gs tunnel (phaseConds env gs idle phase prov events conflicting)) tunnel ports
      (stampClock env) = (conds, tunnel', playitErr) /\
    let conds := scheduleCondition gs schedErr conds (stampClock env) in
    st' = MkStatus (Some phase) (gsGeneration gs) conds
      (deriveConditionArgs (set_status gs (set_conditions (gsStatus gs) conds))
         (MkArgsIn prov (planOf env gs) (loadBalancerAddress (serviceOf env)) conflicting tunnel' playitErr schedErr))
      (mergeEndpoints gs conds tunnel' (serviceOf env) (planOf env gs)) (stAgent (gsStatus gs)) (startedAt env gs phase)
      idleStatus (stTunnelEndpoints (gsStatus gs)) /\
    d = (if bool_decide (phase = PhaseRunning) then heartbeatFreshness else 15 * Second) /\
    svcRead env <> ReadError /\ ssRead env <> ReadError.
Proof using Type.
  unfold Status.reconcileStatus, observedPhase, ssExists, ssReady, tunnelConds, phaseConds, serviceOf, failureOf, serviceOf,
    planOf, deploymentOf.
  destruct (ssRead env) as [n| |] eqn:Es, (svcRead env) as [s| |] eqn:Ev; try done.
  all: destruct (phaseAndProvisioning _ _ _) as [[phase prov]|]; [|done].
  all: destruct (mergePlayit _ _ _ _ _) as [[conds tunnel'] playitErr] eqn:Em; cbv zeta.
  all: match goal with |- (if ?b then _ else _) = _ -> _ => destruct b; [done|] end; intros [= <- <-].
  all: exists phase, prov, conds, tunnel', playitErr; split; [done|]; split; [exact Em|done].
Qed.

(** ** Conditions of a pass *)

Lemma address_find conds gs plan svc failure conflicting now ty :
  ty <> AddressAssignment ->
  FindStatusCondition (addressAssignmentCondition conds gs plan svc failure conflicting now) ty = FindStatusCondition conds ty.
Proof using Type.
  intros Hty. unfold Address.addressAssignmentCondition. destruct (negb _).
  - by rewrite remove_find, (proj2 (String.eqb_neq _ _)).
  - destruct (addressVerdict _ _ _ _ _ _ _) as [[s r] m]. by rewrite upsert_find, (proj2 (String.eqb_neq _ _)).
Qed.

Lemma tunnel_find gs plan dep now ty : ty <> "TunnelReady" -> ty <> "TunnelHostnameIgnored" ->
  FindStatusCondition (computeTunnelConditions gs plan dep now) ty = FindStatusCondition (stConditions (gsStatus gs)) ty.
Proof using Type.
  intros H1 H2. unfold computeTunnelConditions. destruct (negb _).
  - by rewrite !remove_find, !(proj2 (String.eqb_neq _ _)).
  - destruct (tunnelVerdict _ _ _) as [[s r] m]. rewrite upsert_find, (proj2 (String.eqb_neq _ _)) by done.
    case_bool_decide; [by rewrite remove_find, (proj2 (String.eqb_neq _ _))|].
    by rewrite upsert_find, (proj2 (String.eqb_neq _ _)).
Qed.

Lemma playit_find gs conds plan ports now ty : ty <> "TunnelAddressInvalid" ->
  FindStatusCondition (mergePlayit gs conds plan ports now).1.1 ty = FindStatusCondition conds ty.
Proof using Type.
  intros H. unfold Status.mergePlayit. destruct (Tunnel _) as [t|]; [|done]. destruct (_ && _); [|done].
  destruct (validatePlayitEndpoints _ _ _ _ _) as [valid err]. cbn [fst]. destruct (isEmpty err).
  - by rewrite remove_find, (proj2 (String.eqb_neq _ _)).
  - by rewrite upsert_find, (proj2 (String.eqb_neq _ _)).
Qed.

Lemma schedule_find gs err conds now ty : ty <> "IdleScheduleInvalid" ->
  FindStatusCondition (scheduleCondition gs err conds now) ty = FindStatusCondition conds ty.
Proof using Type.
  intros H. unfold scheduleCondition. destruct err.
  - by rewrite upsert_find, (proj2 (String.eqb_neq _ _)).
  - by rewrite remove_find, (proj2 (String.eqb_neq _ _)).
Qed.

(** The three conditions of the phase survive the rest of the pass. *)
Definition phaseType (ty : string) : Prop := ty = "Ready" \/ ty = "Progressing" \/ ty = "Healthy".

Lemma final_find env gs idle tunnel ports events conflicting schedErr phase prov conds tunnel' playitErr ty :
  mergePlayit gs (tunnelConds env gs tunnel (phaseConds env gs idle phase prov events conflicting)) tunnel ports
    (stampClock env) = (conds, tunnel', playitErr) ->
  ty <> "TunnelAddressInvalid" -> ty <> "TunnelReady" -> ty <> "TunnelHostnameIgnored" -> ty <> "IdleScheduleInvalid" ->
  FindStatusCondition (scheduleCondition gs schedErr conds (stampClock env)) ty =
  FindStatusCondition (phaseConds env gs idle phase prov events conflicting) ty.
Proof using Type.
  intros Hm H1 H2 H3 H4. rewrite schedule_find by done.
  change conds with (conds, tunnel', playitErr).1.1. rewrite <- Hm, playit_find by done.
  unfold tunnelConds. by rewrite tunnel_find by done.
Qed.

Lemma phaseConditions_types phase prov idle gen :
  let '(r, p, h) := phaseConditions phase prov idle gen in cType r = "Ready" /\ cType p = "Progressing" /\ cType h = "Healthy".
Proof using Type.
  clear. unfold phaseConditions. destruct prov as [i|]; [destruct (isEmpty (pvReason i))|]; by destruct phase, idle.
Qed.

Lemma phaseConds_find env gs idle phase prov events conflicting ty : phaseType ty ->
  let '(r, p, h) := phaseConditions phase prov idle (gsGeneration gs) in
  exists t, FindStatusCondition (phaseConds env gs idle phase prov events conflicting) ty =
    Some (with_transition (if String.eqb ty "Ready" then r else if String.eqb ty "Progressing" then p else h) t).
Proof using Type.
  intros Hty. pose proof (phaseConditions_types phase prov idle (gsGeneration gs)) as Ht.
  destruct (phaseConditions phase prov idle (gsGeneration gs)) as [[r p] h] eqn:E. destruct Ht as (Hr & Hp & Hh).
  unfold phaseConds, Status.computeConditions. rewrite E. rewrite address_find by (by destruct Hty as [->|[->| ->]]).
  rewrite !upsert_find, Hr, Hp, Hh. destruct Hty as [->|[->| ->]]; cbn [String.eqb Ascii.eqb Bool.eqb]; by eexists.
Qed.

Lemma pass_types env gs idle idleStatus schedErr tunnel ports events conflicting st' d :
  reconcileStatus env gs idle idleStatus schedErr tunnel ports events conflicting = Ok (st', d) ->
  NoDup (map cType (stConditions (gsStatus gs))) -> NoDup (map cType (stConditions st')).
Proof using Type.
  intros H Hnd. destruct (status_inv _ _ _ _ _ _ _ _ _ _ _ H) as (phase & prov & conds & t' & e & _ & Hm & -> & _).
  cbn [stConditions]. unfold scheduleCondition.
  assert (Hc : NoDup (map cType conds)); [|destruct schedErr; [by apply upsert_types|by apply remove_types]].
  change conds with (conds, t', e).1.1. rewrite <- Hm. clear Hm.
  assert (Hp : NoDup (map cType (phaseConds env gs idle phase prov events conflicting))).
  { unfold phaseConds, Status.computeConditions. destruct (phaseConditions _ _ _ _) as [[r p] h].
    unfold Address.addressAssignmentCondition. destruct (negb _); [apply remove_types|
      destruct (addressVerdict _ _ _ _ _ _ _) as [[? ?] ?]; apply upsert_types]; by repeat apply upsert_types. }
  assert (Ht : NoDup (map cType (tunnelConds env gs tunnel (phaseConds env gs idle phase prov events conflicting)))).
  { unfold tunnelConds, computeTunnelConditions. cbn [gsStatus set_status stConditions set_conditions].
    destruct (negb _); [by repeat apply remove_types|]. destruct (tunnelVerdict _ _ _) as [[? ?] ?]. apply upsert_types.
    case_bool_decide; [by apply remove_types|by apply upsert_types]. }
  unfold Status.mergePlayit. destruct (Tunnel _); [|done]. destruct (_ && _); [|done].
  destruct (validatePlayitEndpoints _ _ _ _ _) as [? err]. cbn [fst].
  destruct (isEmpty err); [by apply remove_types|by apply upsert_types].
Qed.

(** What [phaseAndProvisioning] can do to a phase: only a failed start escalates. *)
Lemma provisioning_phase env gs phase phase' prov : phaseAndProvisioning env gs phase = Ok (phase', prov) ->
  phase' = phase /\ (phase = PhaseStarting \/ phase = PhasePending \/ prov = None) \/
  phase = PhaseStarting /\ phase' = PhaseFailed /\ exists pod r m, podRead env = Found pod /\
    startupFailure pod = Some (r, m) /\ prov = Some (MkProv r m (provisioningArgs pod r)).
Proof using Type.
  clear isValidAddress uni ParseIP ipText. unfold Status.phaseAndProvisioning.
  destruct (bool_decide_reflect (phase = PhasePending \/ phase = PhaseStarting)) as [Hp|Hp].
  - destruct (checkPVCProvisioningFailure _ _) as [[[sc msg]|]|]; [|..|done].
    + intros [= <- <-]. left. tauto.
    + case_bool_decide as Hs; [|intros [= <- <-]; left; tauto].
      destruct (podRead env) as [pod| |]; [|intros [= <- <-]; left; tauto|done].
      destruct (startupFailure pod) as [[r m]|] eqn:Ef.
      * intros [= <- <-]. right. split_and!; [done..|]. by exists pod, r, m.
      * destruct (provisioningReason _ _) as [r m]. intros [= <- <-]. left. tauto.
  - rewrite bool_decide_false by tauto. intros [= <- <-]. left. tauto.
Qed.

Lemma containerFailure_named cs r m : containerFailure cs = Some (r, m) -> isEmpty r = false.
Proof using Type. unfold containerFailure. repeat case_match; cbn; try done; by intros [= <- _]. Qed.

Lemma startupFailure_named pod r m : startupFailure pod = Some (r, m) -> isEmpty r = false.
Proof using Type.
  unfold startupFailure. destruct (firstFailure _) as [[r' m']|] eqn:E.
  - intros [= -> ->]. revert E. induction (podInit pod) as [|c cs IH]; [done|]. cbn [firstFailure].
    destruct (containerFailure c) as [[??]|] eqn:Ec; [rewrite union_Some_l|by rewrite (left_id_L None _)].
    intros [= -> ->]. by eapply containerFailure_named.
  - destruct (List.find _ _); [|done]. apply containerFailure_named.
Qed.

Lemma observed_running env gs idle : observedPhase env gs idle = PhaseRunning <->
  gsSuspend gs = false /\ idle = idleAwake /\ ssReady env = true /\
  heartbeatFresh (stAgent (gsStatus gs)) (phaseClock env) = true.
Proof using Type.
  clear. unfold observedPhase, derivePhase, ssExists, ssReady.
  destruct (heartbeatFresh _ _), (ssRead env) as [n| |], (gsSuspend gs), idle; cbn; try destruct (0 <? n); cbn; naive_solver.
Qed.

(** C31. After a pass the status says one thing.  There is at most one condition per
    type; Ready and Healthy are True exactly in the Running phase and Progressing
    exactly while Pending, Starting or Stopping, all at the generation seen.
    Running means that nobody asked the server to stop, that it is not asleep,
    that its pod is ready and that the agent reported within a minute; a Failed
    phase is a failed start and Ready gives its reason; the next look is at most a
    minute away. *)
Theorem status_faithful env gs idle idleStatus schedErr tunnel ports events conflicting st' d :
  reconcileStatus env gs idle idleStatus schedErr tunnel ports events conflicting = Ok (st', d) ->
  (NoDup (map cType (stConditions (gsStatus gs))) -> NoDup (map cType (stConditions st'))) /\
  d = (if bool_decide (stPhase st' = Some PhaseRunning) then 60 * Second else 15 * Second) /\
  exists phase r p h,
    stPhase st' = Some phase /\ FindStatusCondition (stConditions st') "Ready" = Some r /\
    FindStatusCondition (stConditions st') "Progressing" = Some p /\
    FindStatusCondition (stConditions st') "Healthy" = Some h /\
    (cStatus r = "True" <-> phase = PhaseRunning) /\ (cStatus h = "True" <-> phase = PhaseRunning) /\
    (cStatus p = "True" <-> phase = PhasePending \/ phase = PhaseStarting \/ phase = PhaseStopping) /\
    (cObservedGeneration r = gsGeneration gs /\ cObservedGeneration p = gsGeneration gs /\ cObservedGeneration h = gsGeneration gs) /\
    (phase = PhaseRunning <-> gsSuspend gs = false /\ idle = idleAwake /\ ssReady env = true /\
       heartbeatFresh (stAgent (gsStatus gs)) (phaseClock env) = true) /\
    (phase = PhaseFailed -> exists pod, podRead env = Found pod /\ startupFailure pod = Some (cReason r, cMessage r)).
Proof using Type.
  intros H. split; [by eapply pass_types|].
  destruct (status_inv _ _ _ _ _ _ _ _ _ _ _ H) as (phase & prov & conds & t' & e & Hpp & Hm & -> & -> & _).
  cbn [stPhase stConditions]. split; [by repeat case_bool_decide; naive_solver|].
  rewrite !(final_find _ _ _ _ _ _ _ _ _ _ _ _ _ _ Hm) by done.
  pose proof (phaseConds_find env gs idle phase prov events conflicting "Ready" ltac:(by left)) as HR.
  pose proof (phaseConds_find env gs idle phase prov events conflicting "Progressing" ltac:(by right; left)) as HP.
  pose proof (phaseConds_find env gs idle phase prov events conflicting "Healthy" ltac:(by right; right)) as HH.
  destruct (phaseConditions phase prov idle (gsGeneration gs)) as [[r p] h] eqn:E.
  destruct HR as [tr ->], HP as [tp ->], HH as [th ->]. cbn [String.eqb Ascii.eqb Bool.eqb].
  eexists phase, _, _, _. split; [done|]. do 3 (split; [reflexivity|]).
  cbn [cStatus cObservedGeneration cReason cMessage with_transition].
  assert (Hst : (cStatus r = "True" <-> phase = PhaseRunning) /\ (cStatus h = "True" <-> phase = PhaseRunning) /\
    (cStatus p = "True" <-> phase = PhasePending \/ phase = PhaseStarting \/ phase = PhaseStopping) /\
    (cObservedGeneration r = gsGeneration gs /\ cObservedGeneration p = gsGeneration gs /\ cObservedGeneration h = gsGeneration gs)).
  { unfold phaseConditions in E. destruct prov as [i|]; [destruct (isEmpty (pvReason i))|];
      destruct phase, idle; injection E as <- <- <-; cbn; naive_solver. }
  destruct Hst as (S1 & S2 & S3 & S4). split_and!; try done; try apply S1; try apply S2; try apply S3; try apply S4.
  all: destruct (provisioning_phase _ _ _ _ _ Hpp) as [[-> _]|(Ho & -> & pod & fr & fm & Hpod & Hf & ->)].
  - apply observed_running.
  - by rewrite <- observed_running, Ho.
  - unfold observedPhase, derivePhase. by repeat case_match.
  - intros _. exists pod. split; [done|]. unfold phaseConditions in E. cbn [pvReason pvMessage] in E.
    rewrite (startupFailure_named _ _ _ Hf) in E. by injection E as <- _ _.
Qed.
(** ** Endpoints *)

(** The hostname of a tailscale tunnel. *)
Definition tailscaleHost (gs : GameServer) (ts : TailscaleTunnelSpec) : string :=
  if isEmpty (tsHostname ts) then gsName gs else tsHostname ts.

Lemma planTunnel_providers gs ports e : e ∈ tpEndpoints (planTunnel gs ports) ->
  exists t p, Tunnel (gsNetworking gs) = Some t /\ tEnabled t = true /\ p ∈ ports /\ gpAdvertise p = true /\
    ((exists frp, tProvider t = "frp" /\ tFrp t = Some frp /\ frpEndpoint frp p = Some e) \/
     (exists ts, tProvider t = "tailscale" /\ tTailscale t = Some ts /\ tailscaleSupports p = true /\
        e = tailscaleEndpoint (tailscaleHost gs ts) p)).
Proof using Type.
  clear. assert (Hadv : forall f p, p ∈ List.filter f ports -> p ∈ ports /\ f p = true).
  { intros f p H%list_elem_of_In. apply List.filter_In in H. by rewrite <- list_elem_of_In in H. }
  unfold planTunnel. destruct (Tunnel _) as [t|]; [|by intros ?%elem_of_nil]. intros H. exists t.
  destruct (tEnabled t); cbn [negb] in H; [|by apply elem_of_nil in H].
  destruct (String.eqb_spec (tProvider t) "frp") as [Ep|_].
  { destruct (tFrp t) as [frp|] eqn:Ef; [|by apply elem_of_nil in H]. cbn [tpEndpoints] in H.
    apply list_elem_of_omap in H as (p & [? ?]%Hadv & He). exists p. split_and!; [done..|]. left. by exists frp. }
  destruct (String.eqb_spec (tProvider t) "tailscale") as [Ep|_].
  { destruct (tTailscale t) as [ts|] eqn:Et; [|by apply elem_of_nil in H]. cbn [tpEndpoints] in H.
    apply list_elem_of_fmap in H as (p & -> & Hp). apply list_elem_of_In, List.filter_In in Hp as [[? ?]%list_elem_of_In%Hadv ?].
    exists p. split_and!; [done..|]. right. by exists ts. }
  exfalso. destruct (String.eqb _ _); [|by apply elem_of_nil in H]. destruct (tPlayit t); by apply elem_of_nil in H.
Qed.

(** What a True TunnelReady of a tailscale tunnel took. *)
Lemma verdict_tailscale gs plan dep r m t :
  Tunnel (gsNetworking gs) = Some t -> tProvider t = "tailscale" -> tunnelVerdict gs plan dep = ("True", r, m) ->
  exists ts d, tTailscale t = Some ts /\ validTailscaleTags (tsTags ts) = true /\ tCredentials t <> None /\
    unsupportedPorts plan = [] /\ dep = Some d /\ dpReadyReplicas d <> 0 /\ forwardingProbe d = true /\ rolledOut d = true.
Proof using Type.
  clear. intros Ht Hp. unfold tunnelVerdict. rewrite Ht, Hp. cbn [String.eqb Ascii.eqb Bool.eqb andb orb].
  destruct (tTailscale t) as [ts|] eqn:Ets; cbn [negb].
  2:{ case_bool_decide; cbn [negb]; [|done]. destruct dep as [d|]; [|done]. by destruct (Z.eqb_spec (dpReadyReplicas d) 0). }
  destruct (validTailscaleTags (tsTags ts)) eqn:Ev; cbn [negb]; [|done].
  case_bool_decide as Hu; cbn [negb]; [|done]. destruct dep as [d|]; [|done].
  destruct (Z.eqb_spec (dpReadyReplicas d) 0) as [|Hr]; [done|].
  rewrite bool_decide_true by by eexists. case_bool_decide as Hc; [done|].
  destruct (forwardingProbe d) eqn:Ef, (rolledOut d) eqn:Er; cbn [negb orb]; try done. intros _. by exists ts, d.
Qed.

Lemma tunnelReady_find gs plan dep now : wantTunnel plan = true -> exists s r m t,
  tunnelVerdict gs plan dep = (s, r, m) /\
  FindStatusCondition (computeTunnelConditions gs plan dep now) "TunnelReady" =
    Some (with_transition (cond "TunnelReady" s r m (gsGeneration gs)) t).
Proof using Type.
  clear. intros Hw. unfold computeTunnelConditions. rewrite Hw. cbn [negb].
  destruct (tunnelVerdict gs plan dep) as [[s r] m]. exists s, r, m. rewrite upsert_find.
  cbn [cType cond String.eqb Ascii.eqb Bool.eqb]. by eexists.
Qed.

Lemma mergePlayit_plan gs conds plan ports now conds' plan' err :
  mergePlayit gs conds plan ports now = (conds', plan', err) ->
  wantTunnel plan' = wantTunnel plan /\
  forall e, e ∈ tpEndpoints plan' -> e ∈ tpEndpoints plan \/
    exists e0 t, Tunnel (gsNetworking gs) = Some t /\ tProvider t = "playit" /\ e = stampPlayit e0 /\
      e0 ∈ stTunnelEndpoints (gsStatus gs) /\ validatePlayitEndpoint ParseIP ipText e0 (getAdvertisedPortNames ports) = None.
Proof using Type.
  clear isValidAddress uni. unfold Status.mergePlayit. destruct (Tunnel _) as [t|]; [|intros [= <- <- <-]; by split; [|left]].
  destruct (_ && _) eqn:Ep; [|intros [= <- <- <-]; by split; [|left]].
  apply andb_true_iff in Ep as [Ep%String.eqb_eq _]. unfold validatePlayitEndpoints.
  assert (Hv : forall eps i seen e, e ∈ (validateFrom ParseIP ipText Quote i seen eps (getAdvertisedPortNames ports)).1 ->
    e ∈ eps /\ validatePlayitEndpoint ParseIP ipText e (getAdvertisedPortNames ports) = None).
  { clear. induction eps as [|e0 eps IH]; intros i seen e; cbn [validateFrom]; [by intros ?%elem_of_nil|].
    case_bool_decide.
    - specialize (IH (i + 1) seen e). destruct (validateFrom _ _ _ _ _ _ _) as [v es]. cbn [fst] in *.
      intros [? ?]%IH. split; [by right|done].
    - specialize (IH (i + 1) ({[epName e0]} ∪ seen) e). destruct (validateFrom _ _ _ _ _ _ _) as [v es].
      destruct (validatePlayitEndpoint _ _ e0 _) eqn:E0; cbn [fst] in *.
      + intros [? ?]%IH. split; [by right|done].
      + intros [->|[? ?]%IH]%elem_of_cons; split; [by left|done|by right|done]. }
  specialize (Hv (stTunnelEndpoints (gsStatus gs)) 0 ∅).
  destruct (validateFrom _ _ _ _ _ _ _) as [valid errs]. cbn [fst] in Hv. intros [= <- <- <-]. split; [done|].
  cbn [tpEndpoints]. intros e (e0 & -> & He0)%list_elem_of_fmap. right. destruct (Hv e0 He0). by exists e0, t.
Qed.

Lemma merge_cases gs conds plan svc addrPlan e : e ∈ mergeEndpoints gs conds plan svc addrPlan ->
  (wantTunnel plan = true /\ e ∈ tpEndpoints plan /\
    (negb (String.eqb (match Tunnel (gsNetworking gs) with Some t => tProvider t | None => EmptyString end) "tailscale") ||
     IsStatusConditionTrue conds "TunnelReady") = true) \/
  e ∈ match svc with
      | Some s => endpointsFromService s addrPlan
      | None => List.filter (fun e => negb (String.eqb (epTunnelProvider e) "tailscale")) (stEndpoints (gsStatus gs))
      end.
Proof using Type.
  unfold mergeEndpoints. destruct (wantTunnel plan) eqn:Ew, (_ || _) eqn:Eg; cbn [andb]; try (by right);
    destruct (negb (bool_decide (tpEndpoints plan = []))); cbn [andb]; try (by right).
  intros [He|He]%elem_of_app; [left|by right]. by split_and!.
Qed.

Lemma service_endpoints_plain s plan e : e ∈ endpointsFromService s plan -> epTunnelProvider e = EmptyString.
Proof using Type. clear. unfold endpointsFromService. by intros (p & -> & _)%list_elem_of_fmap. Qed.

Lemma retained_not_tailscale eps e :
  e ∈ List.filter (fun e => negb (String.eqb (epTunnelProvider e) "tailscale")) eps -> epTunnelProvider e <> "tailscale".
Proof using Type. clear. intros [_ H]%list_elem_of_In%List.filter_In E. by rewrite E in H. Qed.

(** The TunnelReady a pass ends with is its verdict on the tunnel. *)
Lemma tunnelReady_final env gs idle tunnel ports events conflicting schedErr phase prov conds tunnel' err :
  mergePlayit gs (tunnelConds env gs tunnel (phaseConds env gs idle phase prov events conflicting)) tunnel ports
    (stampClock env) = (conds, tunnel', err) ->
  wantTunnel tunnel = true ->
  IsStatusConditionTrue (scheduleCondition gs schedErr conds (stampClock env)) "TunnelReady" = true ->
  exists r m, tunnelVerdict gs tunnel (deploymentOf env tunnel) = ("True", r, m).
Proof using Type.
  intros Hm Hw. unfold IsStatusConditionTrue. rewrite schedule_find by done.
  change conds with (conds, tunnel', err).1.1. rewrite <- Hm, playit_find by done. unfold tunnelConds.
  edestruct (tunnelReady_find (set_status gs (set_conditions (gsStatus gs) (phaseConds env gs idle phase prov events conflicting)))
    tunnel (deploymentOf env tunnel) (stampClock env) Hw) as (s & r & m & tt & Hv & Hf).
  rewrite Hf. cbn [cStatus with_transition cond]. intros ->%String.eqb_eq. exists r, m. exact Hv.
Qed.

(** Where an endpoint of a status comes from. *)
Inductive origin (env : statusEnv) (gs : GameServer) (ports : list GamePort) (conds : list Condition)
  : GameServerEndpoint -> Prop :=
| from_service s e : svcRead env = Found s -> e ∈ endpointsFromService s (planOf env gs) -> origin env gs ports conds e
| from_frp t frp p e :
    Tunnel (gsNetworking gs) = Some t -> tEnabled t = true -> tProvider t = "frp" -> tFrp t = Some frp ->
    p ∈ ports -> gpAdvertise p = true -> frpEndpoint frp p = Some e -> origin env gs ports conds e
| from_tailscale t ts p dep :
    Tunnel (gsNetworking gs) = Some t -> tEnabled t = true -> tProvider t = "tailscale" -> tTailscale t = Some ts ->
    p ∈ ports -> gpAdvertise p = true ->
    IsStatusConditionTrue conds "TunnelReady" = true ->
    validTailscaleTags (tsTags ts) = true -> tCredentials t <> None -> unsupportedPorts (planTunnel gs ports) = [] ->
    tunnelRead env = Found dep -> dpReadyReplicas dep <> 0 -> forwardingProbe dep = true -> rolledOut dep = true ->
    origin env gs ports conds (tailscaleEndpoint (tailscaleHost gs ts) p)
| from_playit t e0 :
    Tunnel (gsNetworking gs) = Some t -> tEnabled t = true -> tProvider t = "playit" ->
    e0 ∈ stTunnelEndpoints (gsStatus gs) ->
    validatePlayitEndpoint ParseIP ipText e0 (getAdvertisedPortNames ports) = None ->
    origin env gs ports conds (stampPlayit e0)
| retained e : svcRead env = NotFound -> e ∈ stEndpoints (gsStatus gs) -> epTunnelProvider e <> "tailscale" ->
    origin env gs ports conds e.

Lemma planTunnel_wants gs ports : wantTunnel (planTunnel gs ports) = true ->
  exists t, Tunnel (gsNetworking gs) = Some t /\ tEnabled t = true.
Proof using Type.
  clear. unfold planTunnel. destruct (Tunnel _) as [t|]; [|done]. intros H. exists t. split; [done|].
  by destruct (tEnabled t).
Qed.

(** C32. Every endpoint a pass publishes is accounted for.  It is an endpoint of
    the Service; or the mapping of an advertised port on an enabled frp tunnel; or,
    while TunnelReady is True, an advertised port of an enabled tailscale tunnel
    with valid tags, credentials, supported ports and a rolled-out, ready
    forwarding deployment, marked private; or a report of an enabled playit tunnel
    that passed validation; or, when there is no Service, an endpoint of the status
    before the pass that is not a tailscale one.  When there is a Service all its
    endpoints are published and nothing of the old status is kept. *)
Theorem endpoints_sound env gs idle idleStatus schedErr ports events conflicting st' d :
  reconcileStatus env gs idle idleStatus schedErr (planTunnel gs ports) ports events conflicting = Ok (st', d) ->
  (forall e, e ∈ stEndpoints st' -> origin env gs ports (stConditions st') e) /\
  (forall s, svcRead env = Found s -> endpointsFromService s (planOf env gs) ⊆ stEndpoints st').
Proof using Type.
  intros H. destruct (status_inv _ _ _ _ _ _ _ _ _ _ _ H) as (phase & prov & conds & t' & err & _ & Hm & -> & _ & Hread & _).
  destruct (mergePlayit_plan _ _ _ _ _ _ _ _ Hm) as [Hwant Hplan]. cbn [stEndpoints stConditions] in *. unfold serviceOf. split.
  2: { intros s ->. unfold mergeEndpoints. case_match; [apply list_subseteq_app_r|]; done. }
  intros e [(Hw & Hin & Hg)|Hin]%merge_cases; rewrite ?Hwant in *.
  - destruct (Hplan e Hin) as [Hpl|(e0 & t & Ht & Hp & -> & H1 & H2)].
    2: { destruct (planTunnel_wants _ _ Hw) as (t2 & Ht2 & Hen). assert (t2 = t) as -> by congruence. by eapply from_playit. }
    destruct (planTunnel_providers _ _ _ Hpl) as (t & p & Ht & Hen & Hp & Hadv & [(frp & ? & ? & ?)|(ts & Hprov & Hts & _ & ->)]);
      [by eapply from_frp|].
    rewrite Ht, Hprov in Hg. cbn [String.eqb Ascii.eqb Bool.eqb negb orb] in Hg.
    destruct (tunnelReady_final _ _ _ _ _ _ _ _ _ _ _ _ _ Hm Hw Hg) as (r & m & Hv).
    destruct (verdict_tailscale _ _ _ _ _ t Ht Hprov Hv) as (ts' & dp & Hts' & Hval & Hcred & Huns & Hdep & H1 & H2 & H3).
    assert (ts' = ts) as -> by congruence. unfold deploymentOf in Hdep. rewrite Hw in Hdep.
    destruct (tunnelRead env) eqn:Hr; [injection Hdep as ->|done..]. by eapply from_tailscale.
  - destruct (svcRead env) as [s| |] eqn:Es; [by eapply from_service| |done].
    apply retained; [done| |by eapply retained_not_tailscale].
    by apply list_elem_of_In, List.filter_In in Hin as [Hin%list_elem_of_In _].
Qed.

(** ** The address condition over passes *)

(** What a pass says about the request. *)
Lemma address_verdict_find env gs idle tunnel ports events conflicting schedErr phase prov conds tunnel' err :
  mergePlayit gs (tunnelConds env gs tunnel (phaseConds env gs idle phase prov events conflicting)) tunnel ports
    (stampClock env) = (conds, tunnel', err) ->
  requested (planOf env gs) = true ->
  let '(s, r, m) := addressVerdict Quote (FindStatusCondition (stConditions (gsStatus gs)) AddressAssignment) gs
                      (planOf env gs) (serviceOf env) (failureOf env gs events) conflicting in
  exists t, FindStatusCondition (scheduleCondition gs schedErr conds (stampClock env)) AddressAssignment =
    Some (with_transition (cond AddressAssignment s r m (gsGeneration gs)) t).
Proof using Type.
  intros Hm Hreq. destruct (addressVerdict _ _ _ _ _ _ _) as [[s r] m] eqn:Ev.
  rewrite (final_find _ _ _ _ _ _ _ _ _ _ _ _ _ _ Hm) by done. unfold phaseConds, Status.computeConditions.
  pose proof (phaseConditions_types phase prov idle (gsGeneration gs)) as Ht.
  destruct (phaseConditions _ _ _ _) as [[rr p] h]. destruct Ht as (Hr & Hp & Hh).
  unfold Address.addressAssignmentCondition. rewrite Hreq. cbn [negb].
  assert (Hold : forall c, FindStatusCondition (upsertCondition (upsertCondition (upsertCondition
    (stConditions (gsStatus gs)) rr c) p c) h c) AddressAssignment = FindStatusCondition (stConditions (gsStatus gs)) AddressAssignment).
  { intros c. rewrite !upsert_find, Hr, Hp, Hh. done. }
  rewrite Hold, Ev, upsert_find. cbn [cType cond]. rewrite String.eqb_refl. by eexists.
Qed.

(** A pass of [Reconcile] over the status of a server: what it reads of the
    cluster, and the conflict it found. *)
Record statusPass := MkStatusPass {
  paEnv : statusEnv;
  paIdle : idleState;
  paIdleStatus : option IdleStatus;
  paScheduleErr : option string;
  paPorts : list GamePort;
  paServiceUID : option string;
  paEvents : option (list Event);
  paConflict : string
}.

Definition runStatus (gs : GameServer) (p : statusPass) : result statusErr (GameServerStatus * duration) :=
  reconcileStatus (paEnv p) gs (paIdle p) (paIdleStatus p) (paScheduleErr p) (planTunnel gs (paPorts p)) (paPorts p)
    (serviceEvents gs (paServiceUID p) (paEvents p)) (paConflict p).

(** Successful passes in a row. *)
Inductive passes : GameServer -> list statusPass -> GameServer -> Prop :=
| passes_nil gs : passes gs [] gs
| passes_cons gs p ps st d gs' :
    runStatus gs p = Ok (st, d) -> passes (set_status gs st) ps gs' -> passes gs (p :: ps) gs'.

(** A pass that sees a translated MetalLB request, no conflict, a pool that is not
    known to be missing and no address. *)
Definition quietPass (gs : GameServer) (p : statusPass) : Prop :=
  addressManager (paEnv p) = addressManagerMetalLB /\ Outcome (planOf (paEnv p) gs) = addressPlanTranslated /\
  paConflict p = EmptyString /\ poolRead (paEnv p) (AddressPool (gsNetworking gs)) <> NotFound /\
  loadBalancerAddress (serviceOf (paEnv p)) = EmptyString.

Definition diagnosed (gs : GameServer) (reason_ message : string) : Prop :=
  exists c, FindStatusCondition (stConditions (gsStatus gs)) AddressAssignment = Some c /\ cStatus c = "False" /\
    cReason c = reason_ /\ cMessage c = message /\ cObservedGeneration c = gsGeneration gs.

Lemma translated_requested env gs : Outcome (planOf env gs) = addressPlanTranslated -> requested (planOf env gs) = true.
Proof using Type.
  unfold planOf, planAddressPreference. destruct (requested _) eqn:E; cbn [negb]; [|by rewrite E].
  intros _. by repeat case_match.
Qed.

(** Once a failure is on record no event is read, and a pool that is not missing
    adds nothing. *)
Lemma settled_failure gs p reason_ message :
  reason_ = "AllocationFailed" \/ reason_ = "PoolNotFound" -> diagnosed gs reason_ message ->
  addressManager (paEnv p) = addressManagerMetalLB ->
  poolRead (paEnv p) (AddressPool (gsNetworking gs)) <> NotFound ->
  afReason (failureOf (paEnv p) gs (serviceEvents gs (paServiceUID p) (paEvents p))) = EmptyString.
Proof using Type.
  clear ParseIP ipText. intros Hreason (c & Hc & Hs & Hr & _) Hm Hpool.
  assert (Hev : serviceEvents gs (paServiceUID p) (paEvents p) = []).
  { unfold serviceEvents, listServiceEvents, eventsSettled. rewrite Hc, Hs, Hr. destruct (_ && _); [done|].
    cbn [String.eqb Ascii.eqb Bool.eqb]. rewrite bool_decide_true; [done|]. destruct Hreason; subst; set_solver. }
  rewrite Hev. unfold failureOf, addressFailure. cbn [extractAddressFailureFromEvents].
  assert (HM : Manager (planOf (paEnv p) gs) = addressManagerMetalLB /\ Pool (planOf (paEnv p) gs) = AddressPool (gsNetworking gs)).
  { unfold planOf, planAddressPreference. rewrite Hm. by repeat case_match. }
  destruct HM as [-> ->].
  replace (String.eqb addressManagerMetalLB addressManagerCilium) with false by done. rewrite andb_false_r, String.eqb_refl.
  destruct (_ && _); [|done]. by destruct (poolRead _ _).
Qed.

Lemma latch_step gs p message st d :
  diagnosed gs "AllocationFailed" message -> quietPass gs p -> runStatus gs p = Ok (st, d) ->
  diagnosed (set_status gs st) "AllocationFailed" message.
Proof using Type.
  intros Hd (Hm & Ho & Hconf & Hpool & Hnone) H.
  pose proof (settled_failure gs p _ _ (or_introl eq_refl) Hd Hm Hpool) as Hf.
  destruct (status_inv _ _ _ _ _ _ _ _ _ _ _ H) as (phase & prov & conds & t' & err & _ & Hmp & -> & _).
  pose proof (address_verdict_find _ _ _ _ _ _ _ (paScheduleErr p) _ _ _ _ _ Hmp (translated_requested _ _ Ho)) as Hv.
  destruct Hd as (c & Hc & Hs & Hr & Hmsg & Hg). unfold addressVerdict in Hv.
  rewrite Ho, Hconf, Hf, Hnone, Hc in Hv. cbn [isEmpty String.eqb negb] in Hv. unfold latched in Hv.
  rewrite Hg, Hr, Z.eqb_refl in Hv. cbn [String.eqb Ascii.eqb Bool.eqb orb andb negb] in Hv. rewrite orb_true_r in Hv.
  destruct Hv as [t Hv]. exists (with_transition (cond AddressAssignment "False" (cReason c) (cMessage c) (gsGeneration gs)) t).
  cbn. split_and!; try done.
Qed.

(** A failed allocation stays diagnosed.  Once the condition says
    AllocationFailed for the current request, it keeps the reason and the message
    over any number of passes that see no address, no conflict and no missing
    pool, whatever became of the event it was read from; and the first pass that
    sees the Service with an address reports it as assigned. *)
Lemma allocation_failure_latched gs ps gs' message :
  diagnosed gs "AllocationFailed" message -> Forall (quietPass gs) ps -> passes gs ps gs' ->
  diagnosed gs' "AllocationFailed" message /\
  (forall p st d s, addressManager (paEnv p) = addressManagerMetalLB -> Outcome (planOf (paEnv p) gs') = addressPlanTranslated ->
     paConflict p = EmptyString -> poolRead (paEnv p) (AddressPool (gsNetworking gs')) <> NotFound ->
     svcRead (paEnv p) = Found s -> loadBalancerAddress (Some s) <> EmptyString -> runStatus gs' p = Ok (st, d) ->
     exists c, FindStatusCondition (stConditions st) AddressAssignment = Some c /\ cStatus c = "True" /\ cReason c = "Assigned").
Proof using Type.
  intros Hd Hq Hps.
  assert (Hd' : diagnosed gs' "AllocationFailed" message).
  { induction Hps as [|gs p ps st d gs' Hp Hps IH]; [done|]. apply Forall_cons in Hq as [Hq Hqs].
    apply IH; [by eapply latch_step|]. eapply Forall_impl; [exact Hqs|]. done. }
  split; [done|]. intros p st d s Hm Ho Hconf Hpool Hs Haddr H. clear Hd Hq Hps gs.
  pose proof (settled_failure gs' p _ _ (or_introl eq_refl) Hd' Hm Hpool) as Hf.
  destruct (status_inv _ _ _ _ _ _ _ _ _ _ _ H) as (phase & prov & conds & t' & err & _ & Hmp & -> & _).
  pose proof (address_verdict_find _ _ _ _ _ _ _ (paScheduleErr p) _ _ _ _ _ Hmp (translated_requested _ _ Ho)) as Hv.
  unfold addressVerdict in Hv. assert (Hso : serviceOf (paEnv p) = Some s) by (unfold serviceOf; by rewrite Hs).
  assert (Hlb : svcType s = "LoadBalancer").
  { unfold loadBalancerAddress in Haddr. by destruct (String.eqb_spec (svcType s) "LoadBalancer"). }
  rewrite Ho, Hconf, Hf, Hso, Hlb in Hv. unfold isEmpty at 1 2 3 in Hv.
  rewrite (proj2 (String.eqb_neq _ _) Haddr) in Hv. cbn [String.eqb Ascii.eqb Bool.eqb negb] in Hv.
  unfold isEmpty at 1 in Hv. rewrite (proj2 (String.eqb_neq _ _) Haddr) in Hv.
  cbn [stConditions]. destruct (negb (isEmpty (Pool _))); destruct Hv as [t Hv]; eexists; rewrite Hv; by split_and!.
Qed.

(** ** What a pass leaves behind *)

(** A pass that finds no Service keeps the frp endpoints published before and puts
    the same ones in front of them again. *)
Lemma endpoints_accumulate env gs idle idleStatus schedErr ports events conflicting st' d t :
  reconcileStatus env gs idle idleStatus schedErr (planTunnel gs ports) ports events conflicting = Ok (st', d) ->
  svcRead env = NotFound -> Tunnel (gsNetworking gs) = Some t -> tProvider t = "frp" ->
  stEndpoints st' = (tpEndpoints (planTunnel gs ports) ++
    List.filter (fun e => negb (String.eqb (epTunnelProvider e) "tailscale")) (stEndpoints (gsStatus gs)))%list.
Proof using Type.
  intros H Hs Ht Hp. destruct (status_inv _ _ _ _ _ _ _ _ _ _ _ H) as (phase & prov & conds & t' & err & _ & Hm & -> & _).
  unfold Status.mergePlayit in Hm. rewrite Ht, Hp in Hm. cbn [String.eqb Ascii.eqb Bool.eqb andb] in Hm. injection Hm as _ <- _.
  cbn [stEndpoints]. unfold mergeEndpoints, serviceOf. rewrite Hs, Ht, Hp. cbn [String.eqb Ascii.eqb Bool.eqb negb orb].
  rewrite andb_true_r. case_bool_decide as Hempty; cbn [negb]; [by rewrite andb_false_r, Hempty|]. rewrite andb_true_r.
  destruct (wantTunnel (planTunnel gs ports)) eqn:Ew; [done|]. exfalso. apply Hempty.
  revert Ew. unfold planTunnel. rewrite Ht. destruct (negb _); [done|]. by repeat case_match.
Qed.

(** A server that no longer has a playit tunnel keeps the TunnelAddressInvalid
    condition it had. *)
Lemma tunnel_invalid_stale env gs idle idleStatus schedErr tunnel ports events conflicting st' d :
  reconcileStatus env gs idle idleStatus schedErr tunnel ports events conflicting = Ok (st', d) ->
  match Tunnel (gsNetworking gs) with Some t => tProvider t <> "playit" | None => True end ->
  FindStatusCondition (stConditions st') "TunnelAddressInvalid" =
  FindStatusCondition (stConditions (gsStatus gs)) "TunnelAddressInvalid".
Proof using Type.
  intros H Hp. destruct (status_inv _ _ _ _ _ _ _ _ _ _ _ H) as (phase & prov & conds & t' & err & _ & Hm & -> & _).
  cbn [stConditions]. rewrite schedule_find by done.
  assert (conds = tunnelConds env gs tunnel (phaseConds env gs idle phase prov events conflicting)) as ->.
  { unfold Status.mergePlayit in Hm. destruct (Tunnel _) as [t|]; [|by injection Hm as <- _ _].
    rewrite (proj2 (String.eqb_neq _ _) Hp) in Hm. by injection Hm as <- _ _. }
  unfold tunnelConds. rewrite tunnel_find by done. cbn [gsStatus set_status stConditions set_conditions].
  unfold phaseConds, Status.computeConditions.
  pose proof (phaseConditions_types phase prov idle (gsGeneration gs)) as Ht.
  destruct (phaseConditions _ _ _ _) as [[r p] h]. destruct Ht as (Hr & Hpr & Hh).
  rewrite address_find by done. by rewrite !upsert_find, Hr, Hpr, Hh.
Qed.
End Facts.

(** ** Witnesses *)

Definition demoStatus : GameServerStatus :=
  MkStatus None 0 [MkCond AddressAssignment "False" "AllocationFailed" "no available IPs" 3 7] ∅ [] (Some (Some (100 * Second)))
    None None [].
Definition demoGS : GameServer :=
  MkGS "mc" "games" 3 0 None false
    (MkNet "LoadBalancer" "" ∅ [] [] "public" ""
       (Some (MkTunnel true "tailscale" (Some "auth") None (Some (MkTailscale "" ["games"])) None)))
    demoStatus.
Definition demoService (ingress : list (string * string)) : Service :=
  MkService "LoadBalancer" "10.0.0.9" [MkServicePort "java" 25565 25565 "TCP" 0] ∅ [] ∅ ∅ ingress [].
Definition demoEnv (ingress : list (string * string)) : statusEnv :=
  MkEnv "metallb" "" (Found 1) (Found (demoService ingress)) NotFound (fun _ => NotFound) NotFound (fun _ => Found tt)
    (Found (MkDeployment 1 1 1 1 [MkContainer "tunnel" (Some ("/readyz", 8091))])) (130 * Second) (130 * Second) (130 * Second) true.
Definition demoPass (ingress : list (string * string)) : statusPass :=
  MkStatusPass (demoEnv ingress) idleAwake None None [MkGamePort "java" 25565 "" true "minecraft"] (Some "uid")
    (Some [MkEvent "Warning" "AllocationFailed" "pool exhausted" "metallb-controller" "" "Service" "mc" "uid"]) "".

Abbreviation demoReconcile p :=
  (runStatus (fun _ => true) id id (fun _ => None) (fun _ => EmptyString) demoGS p).

Lemma status_faithful_witness :
  exists st d, demoReconcile (demoPass []) = Ok (st, d) /\ d = 60 * Second /\
    exists r, FindStatusCondition (stConditions st) "Ready" = Some r /\ cStatus r = "True".
Proof.
  destruct (demoReconcile (demoPass [])) as [[st d]|e] eqn:E; [|by vm_compute in E]. exists st, d. split; [done|].
  destruct (status_faithful _ _ _ _ _ _ _ _ _ _ _ _ _ _ _ _ E) as (_ & Hd & phase & r & p & h & Hp & Hr & _ & _ & Hs & _ & _ & _ & Hrun & _).
  assert (phase = PhaseRunning) as -> by (apply Hrun; split_and!; reflexivity).
  split; [by rewrite Hd, Hp|]. exists r. split; [done|]. by apply Hs.
Defined.

Lemma endpoints_sound_witness :
  exists st d e, demoReconcile (demoPass []) = Ok (st, d) /\ e ∈ stEndpoints st /\ epTunnelProvider e = "tailscale" /\
    IsStatusConditionTrue (stConditions st) "TunnelReady" = true.
Proof.
  destruct (demoReconcile (demoPass [])) as [[st d]|e] eqn:E; [|by vm_compute in E].
  set (ep := MkEndpoint "java" "mc" 25565 "" true "tailscale" "").
  assert (Hin : ep ∈ stEndpoints st).
  { assert (E2 : (fun r : result statusErr (GameServerStatus * duration) => match r with Ok (s, _) => stEndpoints s | Err _ => [] end)
      (demoReconcile (demoPass [])) = [ep; MkEndpoint "java" "10.0.0.9" 25565 "TCP" false "" ""]) by (vm_compute; reflexivity).
    rewrite E in E2. rewrite E2. by left. }
  exists st, d, ep. split_and!; [done..|].
  assert (Ho := proj1 (endpoints_sound _ _ _ _ _ _ _ _ _ _ _ _ _ _ _ E) ep Hin).
  inversion Ho as [s e _ Hs|t frp p e _ _ _ _ _ _ Hf|t ts p dep _ _ _ _ _ _ Hready|t e0|e Hn].
  - by apply service_endpoints_plain in Hs.
  - unfold frpEndpoint in Hf. destruct (findRemote frp (gpName p)); discriminate Hf.
  - exact Hready.
  - discriminate Hn.
Defined.

Lemma allocation_failure_latched_witness :
  exists st d, demoReconcile (demoPass []) = Ok (st, d) /\
    diagnosed (set_status demoGS st) "AllocationFailed" "no available IPs".
Proof.
  destruct (demoReconcile (demoPass [])) as [[st d]|e] eqn:E; [|by vm_compute in E]. exists st, d. split; [done|].
  apply (allocation_failure_latched (fun _ => true) id id (fun _ => None) (fun _ => EmptyString) demoGS [demoPass []]).
  - eexists. by split_and!.
  - apply Forall_singleton. by split_and!.
  - eapply passes_cons; [exact E|]. apply passes_nil.
Defined.
