(* ===== verification/AuditLog.v ===== *)
(** * api: the audit log

    The tamper-evident log of src/api/internal/audit/audit.go: the canonical form
    of an event and its hash, the insert that chains a row to the one before it,
    [Verify] with its two anchors, retention, the request middleware and the
    queries behind the pages and the export; and the S3 mirror of s3.go beside it.
    The table is the list of its rows in the order of the primary key.  SHA-256,
    the JSON of the two anchors, the Unicode tables and the database's [LOWER] are
    section variables or the class [Digest]. *)

From Stdlib Require Import Ascii.
From S2P Require Import Prelude GoText GoToken GoTime.
Local Open Scope Z_scope.

(** ** Events and rows *)

(** [Event] *)
Record Event := MkEvent {
  eID : Z; eTS : string; eActor : string; eMethod : string; ePath : string;
  eTarget : string; eStatus : Z; eIP : string; eReason : string }.

(** A row of audit_events; the nullable columns are options. *)
Record row := MkRow {
  rID : Z; rTS : string; rActor : string; rMethod : string; rPath : string;
  rTarget : option string; rStatus : Z; rIP : option string; rReason : option string;
  rPrev : option string; rHash : option string }.

(** [COALESCE(column, '')] *)
Definition coalesce (c : option string) : string := default EmptyString c.

(** The event a row is scanned into. *)
Definition event_of (r : row) : Event :=
  MkEvent (rID r) (rTS r) (rActor r) (rMethod r) (rPath r) (coalesce (rTarget r)) (rStatus r)
    (coalesce (rIP r)) (coalesce (rReason r)).

(** The database: the rows, the next value of the identity column (it never goes
    back, not even when rows are deleted) and the two entries of the config table. *)
Record db := MkDB { rows : list row; nextID : Z; checkpointValue : option string; headValue : option string }.

Definition last_row (d : db) : option row := last (rows d).

(** ** The chain *)

(** One field of [canonicalize], prefixed with its length. *)
Definition field (s : string) : string := Itoa (Z.of_nat (String.length s)) +:+ String ":"%char s.

(** [canonicalize] *)
Definition canonicalize (e : Event) : string :=
  field (eTS e) +:+ field (eActor e) +:+ field (eMethod e) +:+ field (ePath e) +:+ field (eTarget e) +:+
  field (Itoa (eStatus e)) +:+ field (eIP e) +:+
  (if String.eqb (eReason e) EmptyString then EmptyString else field (eReason e)).

(** A lower-case hexadecimal digit, as [hex.EncodeToString] writes. *)
Definition hexChar (c : ascii) : bool := is_digit_char c || in_range 97 102 (byte_of_ascii c).

(** [chainCheckpoint] and [chainHead] have the same shape: an id and a hash. *)
Record anchor := MkAnchor { anID : Z; anHash : string }.

(** What the log needs of SHA-256 and of the JSON of its anchors: a digest is 64
    hexadecimal digits, and an anchor with a 64-bit id and such a hash is read back
    as written. *)
Class Digest := {
  hexSum : string -> string;
  MarshalCheckpoint : anchor -> string; UnmarshalCheckpoint : string -> option anchor;
  MarshalHead : anchor -> string; UnmarshalHead : string -> option anchor;
  hexSum_length s : String.length (hexSum s) = 64%nat;
  hexSum_hex s : str_all hexChar (hexSum s) = true;
  checkpoint_json a : 0 <= anID a < 2 ^ 63 -> str_all hexChar (anHash a) = true -> UnmarshalCheckpoint (MarshalCheckpoint a) = Some a;
  head_json a : 0 <= anID a < 2 ^ 63 -> str_all hexChar (anHash a) = true -> UnmarshalHead (MarshalHead a) = Some a }.

Section Chain.
Context `{Digest}.

(** [computeHash] *)
Definition computeHash (prevHash : string) (e : Event) : string := hexSum (prevHash +:+ canonicalize e).

(** The statements a call runs, any of which can fail; a commit that reports an
    error may or may not have taken effect, and an insert that is undone may or may
    not have used up a value of the identity column (the two databases differ). *)
Inductive sqlStep := Begin | ReadPrev | Insert | ReadID | WriteHead | FindBoundary | WriteCheckpoint | Delete | CommitTx
  | LoadCheckpoint | QueryChain | LoadHead | ReadHeadRow.
#[export] Instance sqlStep_eq_dec : EqDecision sqlStep.
Proof. solve_decision. Defined.
Inductive commitOutcome := Committed | RolledBack | CommittedWithError.
Record sqlEnv := MkSql { failsAt : sqlStep -> bool; commit : commitOutcome; burnsID : bool }.
Inductive auditErr := SqlError (at_ : sqlStep) | BadCheckpoint | BadHead.

(** The end of a transaction that leads to [d']. *)
Definition finish {A} (env : sqlEnv) (d d' : db) (a : A) : result auditErr A * db :=
  match commit env with
  | Committed => (Ok a, d')
  | RolledBack => (Err (SqlError CommitTx), d)
  | CommittedWithError => (Err (SqlError CommitTx), d')
  end.

(** [previousHash] *)
Definition previousHash (env : sqlEnv) (d : db) : result auditErr string :=
  if failsAt env ReadPrev then Err (SqlError ReadPrev)
  else match last_row d with
  | Some r => Ok (coalesce (rHash r))
  | None =>
      if failsAt env LoadCheckpoint then Err (SqlError LoadCheckpoint)
      else match checkpointValue d with
      | None => Ok EmptyString
      | Some raw => match UnmarshalCheckpoint raw with Some cp => Ok (anHash cp) | None => Err BadCheckpoint end
      end
  end.

(** [insertChained] *)
Definition insertChained (env : sqlEnv) (d : db) (ts actor method path target reason : string) (status : Z) (ip : string)
  : result auditErr unit * db :=
  if failsAt env Begin then (Err (SqlError Begin), d)
  else match previousHash env d with
  | Err e => (Err e, d)
  | Ok prevHash =>
      let hash := computeHash prevHash (MkEvent 0 ts actor method path target status ip reason) in
      let undone := MkDB (rows d) (if burnsID env then nextID d + 1 else nextID d) (checkpointValue d) (headValue d) in
      if failsAt env Insert then (Err (SqlError Insert), undone)
      else
        let newID := nextID d in
        let r := MkRow newID ts actor method path (Some target) status (Some ip) (Some reason) (Some prevHash) (Some hash) in
        if failsAt env ReadID then (Err (SqlError ReadID), undone)
        else if failsAt env WriteHead then (Err (SqlError WriteHead), undone)
        else finish env undone
               (MkDB (rows d ++ [r]) (nextID d + 1) (checkpointValue d) (Some (MarshalHead (MkAnchor newID hash)))) ()
  end.

(** [VerifyResult], with the kind of break in place of its text. *)
Inductive verdict := Intact | BrokenLink | BrokenContent | TailMissing | HeadChanged.
Record VerifyResult := MkVerify { vOK : bool; vFirstBadID : Z; vChecked : Z; vMessage : verdict }.

(** The rows [Verify] selects: chained, after the checkpoint. *)
Definition chainRow (afterID : Z) (r : row) : bool :=
  (afterID <? rID r) && negb (String.eqb (coalesce (rHash r)) EmptyString).

(** The walk of [Verify]. *)
Fixpoint walk (expectedPrev : string) (checked : Z) (rs : list row) : VerifyResult + Z :=
  match rs with
  | [] => inr checked
  | r :: rs =>
      let checked := checked + 1 in
      if negb (String.eqb (coalesce (rPrev r)) expectedPrev) then inl (MkVerify false (rID r) checked BrokenLink)
      else if negb (String.eqb (computeHash (coalesce (rPrev r)) (event_of r)) (coalesce (rHash r)))
      then inl (MkVerify false (rID r) checked BrokenContent)
      else walk (coalesce (rHash r)) checked rs
  end.

(** [verifyHead]: a break, if any. *)
Definition verifyHead (env : sqlEnv) (d : db) (checkpointID checked : Z) : result auditErr (option VerifyResult) :=
  if failsAt env LoadHead then Err (SqlError LoadHead)
  else match headValue d with
  | None => Ok None
  | Some raw =>
      match UnmarshalHead raw with
      | None => Err BadHead
      | Some head =>
          if anID head <=? checkpointID then Ok None
          else if failsAt env ReadHeadRow then Err (SqlError ReadHeadRow)
          else match List.find (fun r => rID r =? anID head) (rows d) with
          | None => Ok (Some (MkVerify false (anID head) checked TailMissing))
          | Some r =>
              if negb (String.eqb (coalesce (rHash r)) (anHash head))
              then Ok (Some (MkVerify false (anID head) checked HeadChanged))
              else Ok None
          end
      end
  end.

(** The checkpoint [Verify] starts from: an id and the hash expected before it. *)
Definition loadCheckpoint (env : sqlEnv) (d : db) : result auditErr anchor :=
  if failsAt env LoadCheckpoint then Err (SqlError LoadCheckpoint)
  else match checkpointValue d with
  | None => Ok (MkAnchor 0 EmptyString)
  | Some raw => match UnmarshalCheckpoint raw with Some cp => Ok cp | None => Err BadCheckpoint end
  end.

(** [Verify] *)
Definition Verify (env : sqlEnv) (d : db) : result auditErr VerifyResult :=
  match loadCheckpoint env d with
  | Err e => Err e
  | Ok cp =>
      if failsAt env QueryChain then Err (SqlError QueryChain)
      else match walk (anHash cp) 0 (List.filter (chainRow (anID cp)) (rows d)) with
      | inl broken => Ok broken
      | inr checked =>
          match verifyHead env d (anID cp) checked with
          | Err e => Err e
          | Ok (Some broken) => Ok broken
          | Ok None => Ok (MkVerify true 0 checked Intact)
          end
      end
  end.

(** ** Retention *)

(** [ts < cutoff], in the byte order of the column. *)
Definition older (cutoff : string) (r : row) : bool := String.ltb (rTS r) cutoff.

(** [Prune]: the rows deleted. *)
Definition Prune (env : sqlEnv) (d : db) (cutoff : string) : result auditErr Z * db :=
  if failsAt env Begin then (Err (SqlError Begin), d)
  else if failsAt env FindBoundary then (Err (SqlError FindBoundary), d)
  else match last (List.filter (older cutoff) (rows d)) with
  | None => finish env d d 0
  | Some boundary =>
      let hash := coalesce (rHash boundary) in
      let keep := String.eqb hash EmptyString in
      if negb keep && failsAt env WriteCheckpoint then (Err (SqlError WriteCheckpoint), d)
      else if failsAt env Delete then (Err (SqlError Delete), d)
      else
        let cp := if keep then checkpointValue d else Some (MarshalCheckpoint (MkAnchor (rID boundary) hash)) in
        finish env d
          (MkDB (List.filter (fun r => negb (older cutoff r)) (rows d)) (nextID d) cp (headValue d))
          (Z.of_nat (length (List.filter (older cutoff) (rows d))))
  end.
End Chain.

(** ** Recording requests *)

(** [shouldLog] *)
Definition shouldLog (method path : string) : bool :=
  if String.eqb method "GET" || String.eqb method "HEAD" || String.eqb method "OPTIONS" then false
  else if String.eqb path "/healthz" || String.eqb path "/metrics" then false
  else negb (HasPrefix path "/auth/oidc/").

(** [redactShareToken] *)
Definition redactShareToken (path : string) : string :=
  if negb (HasPrefix path "/shares/") then path
  else match cut_at (fun c => Ascii.eqb c "/"%char) (TrimPrefix path "/shares/") with
  | None => "/shares/<token>"
  | Some (_, sep, rest) => "/shares/<token>" +:+ String sep rest
  end.

(** The status a [responseRecorder] ends with: the last code written, or 200. *)
Definition recordedStatus (codes : list Z) : Z := default 200 (last codes).

Section Recording.
Context `{Digest}.
Variable SplitHostPort : string -> option (string * string).

(** A request as the middleware sees it, and what its handler left behind. *)
Record request := MkRequest { qMethod : string; qPath : string; qName : string; qClientIP : string; qRemoteAddr : string }.
Record handled := MkHandled { hActor : string; hContextUser : option string; hCodes : list Z; hRecorded : bool }.

(** The actor of a row of the middleware. *)
Definition actorOf (h : handled) : string :=
  if negb (String.eqb (hActor h) EmptyString) then hActor h
  else match hContextUser h with
  | Some u => if String.eqb u EmptyString then "anonymous" else u
  | None => "anonymous"
  end.

Definition clientIP (q : request) : string :=
  if negb (String.eqb (qClientIP q) EmptyString) then qClientIP q
  else match SplitHostPort (qRemoteAddr q) with Some (host, _) => host | None => qRemoteAddr q end.

(** [Middleware], once the handler has returned: the log and what the sinks get.
    A failed insert does not stop the sinks. *)
Definition Middleware (env : sqlEnv) (d : db) (q : request) (h : handled) (ts : string) : db * option Event :=
  if negb (shouldLog (qMethod q) (qPath q)) || hRecorded h then (d, None)
  else
    let path := redactShareToken (qPath q) in
    let '(_, d') := insertChained env d ts (actorOf h) (qMethod q) path (qName q) EmptyString
                      (recordedStatus (hCodes h)) (clientIP q) in
    (d', Some (MkEvent 0 ts (actorOf h) (qMethod q) path (qName q) (recordedStatus (hCodes h)) (clientIP q) EmptyString)).

(** [WriteSync]: a failed insert is reported and nothing goes to the sinks. *)
Definition WriteSync (env : sqlEnv) (d : db) (user : option string) (ip ts method path target reason : string) (status : Z)
  : result auditErr unit * db * option Event :=
  let actor := match user with
               | Some u => if String.eqb u EmptyString then "anonymous" else u
               | None => "anonymous" end in
  match insertChained env d ts actor method path target reason status ip with
  | (Err e, d') => (Err e, d', None)
  | (Ok _, d') => (Ok (), d', Some (MkEvent 0 ts actor method path target status ip reason))
  end.
End Recording.

(** ** Queries *)

Definition MaxAuditPageSize : Z := 500.
Definition DefaultAuditPageSize : Z := 100.

(** [Page] *)
Definition pageSize (limit : Z) : Z :=
  if (limit <=? 0) || (MaxAuditPageSize <? limit) then DefaultAuditPageSize else limit.
Definition Page (d : db) (limit before : Z) : list Event :=
  map event_of (take (Z.to_nat (pageSize limit))
    (List.filter (fun r => (before =? 0) || (rID r <? before)) (rev (rows d)))).

(** [StreamFilter] *)
Record StreamFilter := MkFilter {
  fSince : string; fUntil : string; fActor : string; fMethod : string; fStatusMin : Z; fStatusMax : Z }.

Definition backslash : ascii := ascii_of_byte 92.

(** [likeEscape] *)
Definition likeSpecial (c : ascii) : bool :=
  Ascii.eqb c backslash || Ascii.eqb c "%"%char || Ascii.eqb c "_"%char.
Fixpoint likeEscape (s : string) : string :=
  match s with
  | EmptyString => EmptyString
  | String c s => if likeSpecial c then String backslash (String c (likeEscape s)) else String c (likeEscape s)
  end.

(** SQL's [LIKE ... ESCAPE '\']: [%] stands for any text, [_] for one character,
    and the character after a backslash for itself. *)
Inductive likeTok := AnyText | AnyChar | Literal (c : ascii).
Fixpoint likeTokens (p : string) : list likeTok :=
  match p with
  | EmptyString => []
  | String c p' =>
      if Ascii.eqb c backslash then
        match p' with
        | EmptyString => []
        | String c' p'' => Literal c' :: likeTokens p''
        end
      else (if Ascii.eqb c "%"%char then AnyText else if Ascii.eqb c "_"%char then AnyChar else Literal c) :: likeTokens p'
  end.
Fixpoint likeMatch (p : list likeTok) : string -> bool :=
  match p with
  | [] => fun s => String.eqb s EmptyString
  | Literal c :: p => fun s => match s with String d s' => Ascii.eqb c d && likeMatch p s' | EmptyString => false end
  | AnyChar :: p => fun s => match s with String _ s' => likeMatch p s' | EmptyString => false end
  | AnyText :: p => fix any s := likeMatch p s || match s with String _ s' => any s' | EmptyString => false end
  end.
Definition LIKE (s pattern : string) : bool := likeMatch (likeTokens pattern) s.

Section ExportQuery.
(** The database's [LOWER] and Go's case tables. *)
Variables (LOWER : string -> string) (uniLower uniUpper : Z -> Z).

(** The WHERE clause of [Stream]. *)
Definition streamed (f : StreamFilter) (r : row) : bool :=
  let none s := String.eqb s EmptyString in
  (none (fSince f) || negb (String.ltb (rTS r) (fSince f))) &&
  (none (fUntil f) || negb (String.ltb (fUntil f) (rTS r))) &&
  (none (fActor f) || LIKE (LOWER (rActor r)) (String "%"%char (likeEscape (ToLower uniLower (fActor f)) +:+ "%"))) &&
  (none (fMethod f) || String.eqb (rMethod r) (fMethod f)) &&
  ((fStatusMax f =? 0) || ((fStatusMin f <=? rStatus r) && (rStatus r <=? fStatusMax f))).

(** [Stream]: [fn] on every row that passes, oldest first, until it fails. *)
Fixpoint streamRows {E S} (fn : S -> Event -> result E S) (s : S) (rs : list row) : result E S :=
  match rs with
  | [] => Ok s
  | r :: rs => match fn s (event_of r) with Ok s' => streamRows fn s' rs | Err e => Err e end
  end.
Definition Stream {E S} (d : db) (f : StreamFilter) (fn : S -> Event -> result E S) (s : S) : result E S :=
  streamRows fn s (List.filter (streamed f) (rows d)).

(** [parseStreamFilter], from the query string. *)
Definition exportMethods : list string := ["GET"; "POST"; "PUT"; "PATCH"; "DELETE"].
Inductive filterErr := UnsupportedMethod | BadStatusClass.
Definition parseStreamFilter (get : string -> string) : result filterErr StreamFilter :=
  let m := ToUpper uniUpper (TrimSpace (get "method")) in
  if negb (String.eqb m EmptyString) && negb (bool_decide (m ∈ exportMethods)) then Err UnsupportedMethod
  else
    let f := MkFilter (get "since") (get "until") (TrimSpace (get "actor")) m in
    let s := ToLower uniLower (TrimSpace (get "status")) in
    if String.eqb s EmptyString then Ok (f 0 0)
    else if String.eqb s "2xx" then Ok (f 200 299)
    else if String.eqb s "4xx" then Ok (f 400 499)
    else if String.eqb s "5xx" then Ok (f 500 599)
    else Err BadStatusClass.
End ExportQuery.

(** ** The S3 mirror *)

Definition s3Buffer : nat := 1024.
Definition s3FlushCountSize : nat := 100.
Definition s3FlushByteSize : Z := 1024 * 1024.

(** The answer of the store to one upload. *)
Inductive putOutcome := Stored | Permanent | Transient.

(** The attempts of [pushBatch]: at most three; a permanent error ends them. *)
Fixpoint attempts (outcomes : list putOutcome) (n : nat) : bool * nat :=
  match n, outcomes with
  | S n, Stored :: _ => (true, 1%nat)
  | S n, Permanent :: _ => (false, 1%nat)
  | S n, Transient :: outcomes => let '(ok, k) := attempts outcomes n in (ok, S k)
  | _, _ => (false, 0%nat)
  end.
Definition pushBatch (outcomes : list putOutcome) : bool * nat := attempts outcomes 3.

(** The worker of the sink: the channel, the batch under construction with its
    size, the batches given to the store (and whether it took them), the events
    that found the channel full, and the counters at /metrics. *)
Inductive s3Phase := Working | Draining | Finished.
Record s3State := MkS3 {
  sPhase : s3Phase; sChan : list Event; sBuffer : list Event; sBytes : Z;
  sPushed : list (list Event * bool); sDropped : list Event;
  sSent : Z; sFailed : Z; sDroppedCount : Z }.

Section Mirror.
(** The length of the NDJSON line of an event. *)
Variable encodedSize : Event -> Z.

(** [pushBatch] on the batch under construction, which starts again. *)
Definition flushed (s : s3State) (outcomes : list putOutcome) : s3State :=
  match sBuffer s with
  | [] => s
  | b =>
      let ok := (pushBatch outcomes).1 in
      let n := Z.of_nat (length b) in
      MkS3 (sPhase s) (sChan s) [] 0 (sPushed s ++ [(b, ok)]) (sDropped s)
        (if ok then sSent s + n else sSent s) (if ok then sFailed s else sFailed s + n) (sDroppedCount s)
  end.

(** [Enqueue] *)
Definition Enqueue (s : s3State) (e : Event) : s3State :=
  if (length (sChan s) <? s3Buffer)%nat
  then MkS3 (sPhase s) (sChan s ++ [e]) (sBuffer s) (sBytes s) (sPushed s) (sDropped s) (sSent s) (sFailed s) (sDroppedCount s)
  else MkS3 (sPhase s) (sChan s) (sBuffer s) (sBytes s) (sPushed s) (sDropped s ++ [e]) (sSent s) (sFailed s) (sDroppedCount s + 1).

(** An event received by [Start]. *)
Definition receive (s : s3State) (e : Event) (rest : list Event) (outcomes : list putOutcome) : s3State :=
  let b := (sBuffer s ++ [e])%list in
  let bytes := sBytes s + encodedSize e in
  let s' := MkS3 (sPhase s) rest b bytes (sPushed s) (sDropped s) (sSent s) (sFailed s) (sDroppedCount s) in
  if (s3FlushCountSize <=? length b)%nat || (s3FlushByteSize <=? bytes) then flushed s' outcomes else s'.

(** An event received by [drain]: only the count is looked at. *)
Definition receiveDrain (s : s3State) (e : Event) (rest : list Event) (outcomes : list putOutcome) : s3State :=
  let b := (sBuffer s ++ [e])%list in
  let s' := MkS3 (sPhase s) rest b (sBytes s) (sPushed s) (sDropped s) (sSent s) (sFailed s) (sDroppedCount s) in
  if (s3FlushCountSize <=? length b)%nat then flushed s' outcomes else s'.

Definition to_phase (p : s3Phase) (s : s3State) : s3State :=
  MkS3 p (sChan s) (sBuffer s) (sBytes s) (sPushed s) (sDropped s) (sSent s) (sFailed s) (sDroppedCount s).

(** [Start] and [drain], beside any number of callers of [Enqueue]; the list is
    what has been offered to the sink so far. *)
Inductive s3Step : list Event * s3State -> list Event * s3State -> Prop :=
| s3_enqueue offered s e : s3Step (offered, s) (offered ++ [e], Enqueue s e)
| s3_receive offered s e rest outcomes :
    sPhase s = Working -> sChan s = e :: rest -> s3Step (offered, s) (offered, receive s e rest outcomes)
| s3_tick offered s outcomes : sPhase s = Working -> s3Step (offered, s) (offered, flushed s outcomes)
| s3_stop offered s : sPhase s = Working -> s3Step (offered, s) (offered, to_phase Draining s)
| s3_drain offered s e rest outcomes :
    sPhase s = Draining -> sChan s = e :: rest -> s3Step (offered, s) (offered, receiveDrain s e rest outcomes)
| s3_finish offered s outcomes :
    sPhase s = Draining -> s3Step (offered, s) (offered, to_phase Finished (flushed s outcomes)).

Inductive mirrored : list Event * s3State -> Prop :=
| mirror_init : mirrored ([], MkS3 Working [] [] 0 [] [] 0 0 0)
| mirror_next s s' : mirrored s -> s3Step s s' -> mirrored s'.
End Mirror.
