(* ===== verification/AuditLogFacts.v ===== *)
(** * What the audit log promises

    The canonical form is unambiguous; the log of any run of inserts and sweeps,
    failures included, verifies; a table that verifies against the anchors of an
    honest log holds the rows of that log, or exhibits two texts with one digest;
    the export is the literal filter; the S3 mirror accounts for every event. *)

From Stdlib Require Import Ascii.
From stdpp Require Import pretty.
From S2P Require Import Prelude GoText GoToken GoTime AuditLog.
Local Open Scope Z_scope.

(** ** The canonical form *)

Lemma Itoa_inj a b : Itoa a = Itoa b -> a = b.
Proof. unfold Itoa. apply (inj pretty). Qed.

Lemma pretty_N_go_length k : forall x s, Z.of_N x < 10 ^ Z.of_nat k ->
  (String.length (pretty_N_go x s) <= k + String.length s)%nat.
Proof.
  induction k as [|k IH]; intros x s Hx.
  - assert (x = 0%N) as -> by (simpl in Hx; lia). by rewrite pretty_N_go_0.
  - destruct (decide (x = 0%N)) as [->|Hne]; [rewrite pretty_N_go_0; lia|].
    rewrite pretty_N_go_step by lia.
    assert (Hdiv : Z.of_N (x `div` 10) < 10 ^ Z.of_nat k).
    { rewrite N2Z.inj_div. apply Z.div_lt_upper_bound; [lia|].
      rewrite Nat2Z.inj_succ, Z.pow_succ_r in Hx by lia. exact Hx. }
    specialize (IH _ (String (pretty_N_char (x `mod` 10)) s) Hdiv). simpl in IH. lia.
Qed.

Lemma Itoa_length n : 0 <= n < 2 ^ 63 -> (String.length (Itoa n) <= 19)%nat.
Proof.
  intros Hn. unfold Itoa. destruct n as [|p|p]; [simpl; lia| |lia].
  change (pretty (Z.pos p)) with (pretty_N_go (N.pos p) EmptyString).
  etransitivity; [apply (pretty_N_go_length 19)|simpl; lia].
  assert (2 ^ 63 < 10 ^ Z.of_nat 19) by (vm_compute; reflexivity). lia.
Qed.

Lemma cut_unique c (a b x y : string) : free_of c a = true -> free_of c b = true ->
  a +:+ String c x = b +:+ String c y -> a = b /\ x = y.
Proof.
  revert b. induction a as [|d a IH]; intros [|e b] Ha Hb; rewrite ?str_app_cons; intros E.
  - change (String c x = String c y) in E. by simplify_eq.
  - change (String c x = String e (b +:+ String c y)) in E. simplify_eq. cbn in Hb. by rewrite Ascii.eqb_refl in Hb.
  - change (String d (a +:+ String c x) = String c y) in E. simplify_eq. cbn in Ha. by rewrite Ascii.eqb_refl in Ha.
  - simplify_eq. cbn in Ha, Hb. apply andb_true_iff in Ha as [_ Ha], Hb as [_ Hb].
    destruct (IH b Ha Hb ltac:(done)) as [-> ->]. done.
Qed.

Lemma app_same_length (a b x y : string) : String.length a = String.length b ->
  a +:+ x = b +:+ y -> a = b /\ x = y.
Proof.
  revert b. induction a as [|c a IH]; intros [|d b] Hl; try discriminate Hl; [done|].
  rewrite !str_app_cons. injection Hl as Hl. intros [= -> E]. by destruct (IH b Hl E) as [-> ->].
Qed.

Lemma colon_free n : 0 <= n -> free_of ":"%char (Itoa n) = true.
Proof. intros. by apply Itoa_free. Qed.

Lemma field_inj a b x y : field a +:+ x = field b +:+ y -> a = b /\ x = y.
Proof.
  unfold field. rewrite !str_app_assoc, !str_app_cons. intros E.
  apply cut_unique in E as [El E]; [|by apply colon_free; lia..].
  apply Itoa_inj in El. by apply app_same_length in E; [|lia].
Qed.

(** The part of an event that is hashed: everything but the id. *)
Definition unid (e : Event) : Event :=
  MkEvent 0 (eTS e) (eActor e) (eMethod e) (ePath e) (eTarget e) (eStatus e) (eIP e) (eReason e).

Lemma field_not_empty s : field s <> EmptyString.
Proof. unfold field. by destruct (Itoa _). Qed.

Lemma canonicalize_inj e e' : canonicalize e = canonicalize e' -> unid e = unid e'.
Proof.
  unfold canonicalize. intros E.
  do 7 (apply field_inj in E as [? E]).
  assert (Hr : eReason e = eReason e').
  { destruct (String.eqb_spec (eReason e) EmptyString) as [E1|N1], (String.eqb_spec (eReason e') EmptyString) as [E2|N2].
    - congruence.
    - by destruct (field_not_empty (eReason e')).
    - by destruct (field_not_empty (eReason e)).
    - rewrite <- (str_app_nil_r (field (eReason e))), <- (str_app_nil_r (field (eReason e'))) in E.
      by apply field_inj in E as [? _]. }
  unfold unid. match goal with H : Itoa _ = Itoa _ |- _ => apply Itoa_inj in H end. congruence.
Qed.

(** A length a Go string can have. *)
Definition fits (s : string) : Prop := Z.of_nat (String.length s) < 2 ^ 63.

(** A digest, or the empty text before the first row. *)
Definition digestish (p : string) : Prop :=
  p = EmptyString \/ (String.length p = 64%nat /\ str_all hexChar p = true).

Lemma canonicalize_no_digest p e t : fits (eTS e) -> String.length p = 64%nat -> str_all hexChar p = true ->
  canonicalize e <> p +:+ t.
Proof.
  intros Hf Hl Hh. unfold canonicalize, field at 1. rewrite !str_app_assoc, !str_app_cons.
  set (n := Itoa _). assert (Hn : (String.length n <= 19)%nat) by (apply Itoa_length; unfold fits in Hf; lia).
  generalize (eTS e +:+ field (eActor e) +:+ field (eMethod e) +:+ field (ePath e) +:+ field (eTarget e) +:+
    field (Itoa (eStatus e)) +:+ field (eIP e) +:+ (if String.eqb (eReason e) EmptyString then EmptyString else field (eReason e))).
  intros rest E. assert (Hlt : (String.length n < String.length p)%nat) by lia. clearbody n. clear Hn Hl Hf.
  revert p Hh Hlt E. induction n as [|c n IH]; intros [|d p] Hh Hlt E; cbn in Hlt; try lia; rewrite ?str_app_cons in E.
  - change (String ":"%char rest = String d (p +:+ t)) in E. injection E as <- _. cbn in Hh. done.
  - injection E as -> E. cbn in Hh. apply andb_true_iff in Hh as [_ Hh]. apply (IH p Hh); [lia|done].
Qed.

Lemma input_inj p p' e e' : digestish p -> digestish p' -> fits (eTS e) -> fits (eTS e') ->
  p +:+ canonicalize e = p' +:+ canonicalize e' -> p = p' /\ unid e = unid e'.
Proof.
  intros [->|[Hl Hh]] [->|[Hl' Hh']] Hf Hf' E.
  - split; [done|]. by apply canonicalize_inj.
  - by destruct (canonicalize_no_digest p' e (canonicalize e') Hf Hl' Hh').
  - by destruct (canonicalize_no_digest p e' (canonicalize e) Hf' Hl Hh).
  - apply app_same_length in E as [-> E]; [|lia]. split; [done|]. by apply canonicalize_inj.
Qed.

(** ** Chains *)

Section Chains.
Context `{Digest}.

Definition hashOf (r : row) : string := coalesce (rHash r).
Definition prevOf (r : row) : string := coalesce (rPrev r).

(** Rows that follow one another from [p] on. *)
Fixpoint chain (p : string) (l : list row) : Prop :=
  match l with
  | [] => True
  | r :: l => prevOf r = p /\ hashOf r = computeHash p (event_of r) /\ chain (hashOf r) l
  end.
Fixpoint end_ (p : string) (l : list row) : string :=
  match l with [] => p | r :: l => end_ (hashOf r) l end.

Lemma chain_app p l l' : chain p (l ++ l') <-> chain p l /\ chain (end_ p l) l'.
Proof using Type. revert p. induction l as [|r l IH]; intros p; cbn; [tauto|]. rewrite IH. tauto. Qed.
Lemma end_app p l l' : end_ p (l ++ l') = end_ (end_ p l) l'.
Proof using Type. revert p. induction l as [|r l IH]; intros p; cbn; [done|]. apply IH. Qed.

Lemma walk_chain p n l : (exists m, walk p n l = inr m) <-> chain p l.
Proof using Type.
  revert p n. induction l as [|r l IH]; intros p n; cbn [walk chain]; [split; [done|by eexists]|].
  fold (prevOf r) (hashOf r).
  destruct (String.eqb_spec (prevOf r) p) as [Hp|Hp]; cbn [negb].
  2: { split; [by intros [m ?]|tauto]. }
  rewrite <- Hp. destruct (String.eqb_spec (computeHash (prevOf r) (event_of r)) (hashOf r)) as [Hh|Hh]; cbn [negb].
  - rewrite IH. split; [by intros; split_and!|by intros (_ & _ & ?)].
  - split; [by intros [m ?]|]. intros (_ & ? & _). congruence.
Qed.
Lemma walk_count p n l m : walk p n l = inr m -> m = n + Z.of_nat (length l).
Proof using Type.
  revert p n. induction l as [|r l IH]; intros p n; cbn [walk length]; [intros [= <-]; lia|].
  destruct (negb _); [done|]. destruct (negb _); [done|]. intros Hm%IH. lia.
Qed.

Lemma computeHash_digest p e : digestish (computeHash p e) /\ computeHash p e <> EmptyString.
Proof using Type.
  unfold computeHash. split; [right; split; [apply hexSum_length|apply hexSum_hex]|].
  intros E. pose proof (hexSum_length (p +:+ canonicalize e)) as Hl. rewrite E in Hl. done.
Qed.
Lemma chain_hash p l r : chain p l -> r ∈ l -> digestish (hashOf r) /\ hashOf r <> EmptyString.
Proof using Type.
  revert p. induction l as [|r' l IH]; intros p Hc Hr; [by apply not_elem_of_nil in Hr|]. cbn in Hc.
  destruct Hc as (_ & Hh & Hc). apply elem_of_cons in Hr as [->|Hr]; [|by eapply IH].
  rewrite Hh. apply computeHash_digest.
Qed.
Lemma end_digest p l : digestish p -> chain p l -> digestish (end_ p l).
Proof using Type.
  intros Hp. destruct l as [|r l _] using rev_ind; [done|]. intros Hc. rewrite end_app. cbn.
  eapply chain_hash; [exact Hc|]. apply elem_of_app. right. by apply list_elem_of_singleton.
Qed.

(** What the digest of a row is taken of. *)
Definition inputOf (r : row) : string := prevOf r +:+ canonicalize (event_of r).
Definition content (r : row) : string * string * Event := (prevOf r, hashOf r, unid (event_of r)).

Lemma chain_input p l r : chain p l -> r ∈ l -> hashOf r = hexSum (inputOf r).
Proof using Type.
  revert p. induction l as [|r' l IH]; intros p Hc Hr; [by apply not_elem_of_nil in Hr|]. cbn in Hc.
  destruct Hc as (Hp & Hh & Hc). apply elem_of_cons in Hr as [->|Hr]; [|by eapply IH].
  rewrite Hh. unfold inputOf. by rewrite Hp.
Qed.

(** No text of the first list shares its digest with a different one of the second. *)
Definition separate (l l' : list row) : Prop :=
  forall r r', r ∈ l -> r' ∈ l' -> hexSum (inputOf r) = hexSum (inputOf r') -> inputOf r = inputOf r'.
Definition rowsFit (l : list row) : Prop := Forall (fun r => fits (rTS r)) l.

(** A chain that ends where the history ends is a tail of the history. *)
Lemma chain_back p A : forall h, digestish p -> chain EmptyString h -> chain p A -> rowsFit h -> rowsFit A -> separate h A ->
  end_ EmptyString h = end_ p A ->
  exists h1 h2, h = h1 ++ h2 /\ map content h2 = map content A /\ end_ EmptyString h1 = p.
Proof using Type.
  induction A as [|a A IH] using rev_ind; intros h Hp Hh HA Fh FA Hs He.
  { exists h, []. by rewrite app_nil_r. }
  pose proof (proj1 (chain_app _ _ _) HA) as [HA1 [Hap [Hah _]]]. rewrite end_app in He. cbn in He.
  destruct h as [|r h _] using rev_ind.
  { destruct (computeHash_digest (end_ p A) (event_of a)) as [_ []]. rewrite <- Hah. done. }
  pose proof (proj1 (chain_app _ _ _) Hh) as [Hh1 [Hrp [Hrh _]]]. rewrite end_app in He. cbn in He.
  assert (Er : r ∈ (h ++ [r])%list) by (apply elem_of_app; right; by apply list_elem_of_singleton).
  assert (Ea : a ∈ (A ++ [a])%list) by (apply elem_of_app; right; by apply list_elem_of_singleton).
  assert (Ei : inputOf r = inputOf a).
  { apply Hs; [done..|]. by rewrite <- (chain_input _ _ _ Hh Er), <- (chain_input _ _ _ HA Ea). }
  unfold rowsFit in *. apply Forall_app in Fh as [Fh Fr%Forall_inv], FA as [FA Fa%Forall_inv].
  apply input_inj in Ei as [Ep Ee]; [| | |done..].
  2: { rewrite Hrp. by apply end_digest; [left|]. }
  2: { rewrite Hap. by apply end_digest. }
  destruct (IH h) as (h1 & h2 & -> & Hm & He1); try done.
  - intros x y Hx Hy. apply Hs; apply elem_of_app; by left.
  - congruence.
  - exists h1, (h2 ++ [r])%list. split; [by rewrite app_assoc|]. split; [|done].
    rewrite !map_app, Hm. cbn. unfold content. by rewrite Ep, Ee, He.
Qed.

(** A history does not come back to an earlier hash. *)
Lemma chain_no_return h1 h2 : chain EmptyString (h1 ++ h2) -> rowsFit (h1 ++ h2) -> separate (h1 ++ h2) (h1 ++ h2) ->
  end_ EmptyString h1 = end_ EmptyString (h1 ++ h2) -> h2 = [].
Proof using Type.
  intros Hc Hf Hs He. pose proof (proj1 (chain_app _ _ _) Hc) as [Hc1 _].
  destruct (chain_back EmptyString (h1 ++ h2) h1) as (k1 & k2 & E & Hm & _); try done.
  - by left.
  - by apply Forall_app in Hf as [? _].
  - intros x y Hx Hy. apply Hs; [apply elem_of_app; by left|done].
  - apply (f_equal length) in Hm. rewrite !length_map, length_app in Hm. apply (f_equal length) in E.
    rewrite length_app in E. destruct h2; [done|]. cbn in Hm. lia.
Qed.

Lemma same_end_same_prefix h x y x' y' : h = x ++ y -> h = x' ++ y' -> chain EmptyString h -> rowsFit h -> separate h h ->
  end_ EmptyString x = end_ EmptyString x' -> x = x'.
Proof using Type.
  intros E E' Hc Hf Hs He. subst h.
  assert (Hle : forall a b a' b' : list row, a ++ b = a' ++ b' -> (length a <= length a')%nat -> exists m, a' = a ++ m /\ b = m ++ b').
  { clear. induction a as [|r a IH]; intros b a' b' E Hl; [by exists a'|]. destruct a' as [|r' a']; [cbn in Hl; lia|].
    cbn in E. injection E as -> E. destruct (IH b a' b' E) as (m & -> & ->); [cbn in Hl; lia|]. by exists m. }
  destruct (decide (length x <= length x')%nat) as [Hl|Hl].
  - destruct (Hle _ _ _ _ E' Hl) as (m & -> & ->).
    rewrite app_assoc in Hc, Hf, Hs. rewrite (chain_no_return x m); [by rewrite app_nil_r|..|done].
    + by apply chain_app in Hc as [? _].
    + by apply Forall_app in Hf as [? _].
    + intros r r' Hr Hr'. apply Hs; apply elem_of_app; by left.
  - destruct (Hle _ _ _ _ (eq_sym E') ltac:(lia)) as (m & -> & ->).
    rewrite (chain_no_return x' m); [by rewrite app_nil_r|..|done].
    + by apply chain_app in Hc as [? _].
    + by apply Forall_app in Hf as [? _].
    + intros r r' Hr Hr'. apply Hs; apply elem_of_app; by left.
Qed.
End Chains.

(** ** Honest logs *)

Section Honest.
Context `{Digest}.

(** The rows with a timestamp before the cutoff come first: a sweep takes a prefix. *)
Definition in_order (cutoff : string) (l : list row) : Prop :=
  exists del keep, l = del ++ keep /\ Forall (fun r => older cutoff r = true) del /\ Forall (fun r => older cutoff r = false) keep.

(** A log as the program makes it, with the chained rows inserted so far: from a
    table of rows older than the chain, by inserts and sweeps with any outcome. *)
Inductive logged : db -> list row -> Prop :=
| logged_new legacy n :
    0 < n < 2 ^ 63 -> Forall (fun r => rHash r = None) legacy -> Forall (fun r => 0 < rID r < n) legacy ->
    Sorted.StronglySorted Z.lt (map rID legacy) -> logged (MkDB legacy n None None) []
| logged_insert d h env ts actor method path target reason status ip res d' :
    logged d h -> nextID d + 1 < 2 ^ 63 -> fits ts -> insertChained env d ts actor method path target reason status ip = (res, d') ->
    logged d' (h ++ drop (length (rows d)) (rows d'))
| logged_prune d h env cutoff res d' :
    logged d h -> in_order cutoff (rows d) -> Prune env d cutoff = (res, d') -> logged d' h.

Definition anchor_of (l : list row) : option anchor := (fun r => MkAnchor (rID r) (hashOf r)) <$> last l.

(** The rows older than the chain, those swept and those still there. *)
Record log_inv (d : db) (h legacy swept live : list row) : Prop := {
  li_rows : rows d = legacy ++ live;
  li_history : h = swept ++ live;
  li_chain : chain EmptyString h;
  li_legacy : Forall (fun r => rHash r = None) legacy;
  li_gone : swept = [] \/ legacy = [];
  li_sorted : Sorted.StronglySorted Z.lt (map rID (legacy ++ h));
  li_ids : Forall (fun r => 0 < rID r < nextID d) (legacy ++ h);
  li_next : 0 < nextID d < 2 ^ 63;
  li_fits : rowsFit h;
  li_checkpoint : checkpointValue d = MarshalCheckpoint <$> anchor_of swept;
  li_head : headValue d = MarshalHead <$> anchor_of h }.

Lemma last_app_cases {A} (l l' : list A) : last (l ++ l') = match last l' with Some x => Some x | None => last l end.
Proof using Type. destruct l' as [|x l' _] using rev_ind; [by rewrite app_nil_r|]. by rewrite app_assoc, !last_snoc. Qed.
Lemma end_last p l : end_ p l = match last l with Some r => hashOf r | None => p end.
Proof using Type. destruct l as [|r l _] using rev_ind; [done|]. by rewrite end_app, last_snoc. Qed.
Lemma history_hex h p r : chain p h -> last h = Some r -> str_all hexChar (hashOf r) = true.
Proof using Type.
  intros Hc Hl. assert (Hr : r ∈ h) by (apply last_Some in Hl as [l ->]; set_solver).
  destruct (chain_hash _ _ _ Hc Hr) as [[?|[_ ?]] ?]; done.
Qed.

Lemma history_id d h legacy swept live r : log_inv d h legacy swept live -> r ∈ h -> 0 < rID r < 2 ^ 63.
Proof using Type.
  intros Hi Hr. pose proof (li_next _ _ _ _ _ Hi). pose proof (li_ids _ _ _ _ _ Hi) as Hid. apply Forall_app in Hid as [_ Hid].
  rewrite Forall_forall in Hid. specialize (Hid r Hr). cbn in Hid. lia.
Qed.

Lemma checkpoint_read d h legacy swept live : log_inv d h legacy swept live ->
  checkpointValue d = None /\ swept = [] \/
  exists raw a, checkpointValue d = Some raw /\ UnmarshalCheckpoint raw = Some a /\ anchor_of swept = Some a.
Proof using Type.
  intros Hi. rewrite (li_checkpoint _ _ _ _ _ Hi). unfold anchor_of.
  destruct (last swept) as [r|] eqn:E; cbn [fmap option_fmap option_map]; [right|left; split; [done|by apply last_None]].
  eexists _, _. split; [done|]. split; [|done]. apply checkpoint_json; cbn.
  { assert (Hr : r ∈ h) by (rewrite (li_history _ _ _ _ _ Hi); apply last_Some in E as [l' ->]; set_solver).
    pose proof (history_id _ _ _ _ _ r Hi Hr). lia. }
  pose proof (li_chain _ _ _ _ _ Hi) as Hc. rewrite (li_history _ _ _ _ _ Hi) in Hc. apply chain_app in Hc as [Hc _].
  by eapply history_hex.
Qed.

Lemma previousHash_end env d h legacy swept live p : log_inv d h legacy swept live ->
  previousHash env d = Ok p -> p = end_ EmptyString h.
Proof using Type.
  intros Hi. unfold previousHash, last_row. destruct (failsAt env ReadPrev); [done|].
  rewrite (li_rows _ _ _ _ _ Hi), last_app_cases, end_last, (li_history _ _ _ _ _ Hi), last_app_cases.
  destruct (last live) as [r|] eqn:El; [by intros [= <-]|].
  destruct (last legacy) as [r|] eqn:Eg.
  { intros [= <-]. assert (Hn : swept = []).
    { destruct (li_gone _ _ _ _ _ Hi) as [| ->]; [done|by rewrite last_nil in Eg]. }
    rewrite Hn. cbn. apply last_Some in Eg as [g ->]. pose proof (li_legacy _ _ _ _ _ Hi) as Hg.
    apply Forall_app in Hg as [_ Hg%Forall_inv]. by rewrite Hg. }
  destruct (failsAt env LoadCheckpoint); [done|].
  destruct (checkpoint_read _ _ _ _ _ Hi) as [[-> ->]|(raw & a & -> & -> & Ha)]; [by intros [= <-]|].
  intros [= <-]. unfold anchor_of in Ha. destruct (last swept); [|done]. by injection Ha as <-.
Qed.

Lemma Forall_weaken_ids n m (l : list row) : n <= m -> Forall (fun r => 0 < rID r < n) l -> Forall (fun r => 0 < rID r < m) l.
Proof using Type. clear. intros Hn Hl. eapply Forall_impl; [exact Hl|]. cbn. lia. Qed.

Lemma sorted_snoc (l : list row) r : Sorted.StronglySorted Z.lt (map rID l) -> Forall (fun x => rID x < rID r) l ->
  Sorted.StronglySorted Z.lt (map rID (l ++ [r])).
Proof using Type.
  clear. intros Hs Hl. rewrite map_app. induction l as [|x l IH]; cbn; [repeat constructor|].
  apply Sorted.StronglySorted_inv in Hs as [Hs Hx]. apply Forall_cons in Hl as [Hlt Hl].
  constructor; [by apply IH|]. apply Forall_app. split; [done|]. by constructor.
Qed.

(** A step that leaves the rows and the anchors alone. *)
Lemma log_inv_idle d h legacy swept live n : nextID d <= n < 2 ^ 63 -> log_inv d h legacy swept live ->
  log_inv (MkDB (rows d) n (checkpointValue d) (headValue d)) h legacy swept live.
Proof using Type.
  intros Hn [R Hh Hc Hl Hg Hs Hi Hn0 Hf Hcp Hhd]. split; cbn; try done; [eapply Forall_weaken_ids; [|done]; lia|lia].
Qed.

Lemma log_inv_insert d h legacy swept live ts actor method path target reason status ip :
  log_inv d h legacy swept live -> nextID d + 1 < 2 ^ 63 -> fits ts ->
  let p := end_ EmptyString h in
  let r := MkRow (nextID d) ts actor method path (Some target) status (Some ip) (Some reason) (Some p)
             (Some (computeHash p (MkEvent 0 ts actor method path target status ip reason))) in
  log_inv (MkDB (rows d ++ [r]) (nextID d + 1) (checkpointValue d) (Some (MarshalHead (MkAnchor (nextID d) (hashOf r)))))
    (h ++ [r]) legacy swept (live ++ [r]).
Proof using Type.
  intros [R Hh Hc Hl Hg Hs Hi Hn0 Hf Hcp Hhd] Hmax Hts p r. split; cbn [rows nextID checkpointValue headValue]; try done.
  - by rewrite R, app_assoc.
  - by rewrite Hh, app_assoc.
  - apply chain_app. split; [done|]. cbn. split_and!; done.
  - rewrite app_assoc. apply sorted_snoc; [done|]. eapply Forall_impl; [exact Hi|]. cbn. lia.
  - rewrite app_assoc. apply Forall_app. split; [eapply Forall_weaken_ids; [|exact Hi]; lia|].
    repeat constructor; cbn; lia.
  - lia.
  - apply Forall_app. split; [done|]. by repeat constructor.
  - unfold anchor_of. by rewrite last_snoc.
Qed.

Lemma sorted_suffix (a b : list row) : Sorted.StronglySorted Z.lt (map rID (a ++ b)) -> Sorted.StronglySorted Z.lt (map rID b).
Proof using Type.
  clear. induction a as [|r a IH]; [done|]. cbn. intros Hs. apply IH. by apply Sorted.StronglySorted_inv in Hs as [? _].
Qed.

Lemma app_split {A} (a b a' b' : list A) : a ++ b = a' ++ b' ->
  (exists m, a = a' ++ m /\ b' = m ++ b) \/ (exists m, m <> [] /\ a' = a ++ m /\ b = m ++ b').
Proof using Type.
  clear. revert a'. induction a as [|r a IH]; intros [|r' a'] E; cbn in E.
  - left. exists []. by rewrite E.
  - right. by exists (r' :: a').
  - left. by exists (r :: a).
  - injection E as -> E. destruct (IH a' E) as [(m & -> & ->)|(m & ? & -> & ->)]; [left|right]; by exists m.
Qed.

Lemma filter_const {A} (f : A -> bool) v l : Forall (fun x => f x = v) l -> List.filter f l = if v then l else [].
Proof using Type. clear. induction 1 as [|x l Hx _ IH]; [by destruct v|]. cbn. rewrite Hx, IH. by destruct v. Qed.

Lemma filter_split {A} (f : A -> bool) (a b : list A) :
  Forall (fun x => f x = true) a -> Forall (fun x => f x = false) b ->
  List.filter f (a ++ b) = a /\ List.filter (fun x => negb (f x)) (a ++ b) = b.
Proof using Type.
  clear. intros Ha Hb. rewrite !List.filter_app, (filter_const f true a Ha), (filter_const f false b Hb).
  rewrite (filter_const (fun x => negb (f x)) false a), (filter_const (fun x => negb (f x)) true b), app_nil_r; [done|..].
  - eapply Forall_impl; [exact Hb|]. by intros x ->.
  - eapply Forall_impl; [exact Ha|]. by intros x ->.
Qed.

Lemma log_inv_prune d h legacy swept live cutoff boundary :
  log_inv d h legacy swept live -> in_order cutoff (rows d) ->
  last (List.filter (older cutoff) (rows d)) = Some boundary ->
  exists legacy' swept' live',
    log_inv (MkDB (List.filter (fun r => negb (older cutoff r)) (rows d)) (nextID d)
               (if String.eqb (hashOf boundary) EmptyString then checkpointValue d
                else Some (MarshalCheckpoint (MkAnchor (rID boundary) (hashOf boundary)))) (headValue d))
      h legacy' swept' live'.
Proof using Type.
  intros [R Hh Hc Hl Hg Hs Hi Hn0 Hf Hcp Hhd] (del & keep & E & Hd & Hk). rewrite E.
  destruct (filter_split _ _ _ Hd Hk) as [-> ->]. intros Hb. apply last_Some in Hb as Hb'. destruct Hb' as [del' Edel].
  rewrite R in E. apply app_split in E as [(m & -> & ->)|(m & Hm & -> & ->)].
  - assert (Hnone : rHash boundary = None).
    { rewrite Edel in Hl. rewrite !Forall_app in Hl. destruct Hl as [[_ Hl%Forall_inv] _]. done. }
    assert (Hbe : String.eqb (hashOf boundary) EmptyString = true) by (unfold hashOf; by rewrite Hnone).
    exists m, swept, live. rewrite Hbe, <- app_assoc in *.
    split; cbn [rows nextID checkpointValue headValue]; try done.
    + by apply Forall_app in Hl as [_ ?].
    + destruct Hg as [|Hg]; [by left|right]. by apply app_eq_nil in Hg as [_ ?].
    + by eapply sorted_suffix.
    + by apply Forall_app in Hi as [_ ?].
  - rewrite last_app_cases in Hb. destruct m as [|b m _] using rev_ind; [done|]. rewrite last_snoc in Hb. injection Hb as ->.
    assert (Hbe : String.eqb (hashOf boundary) EmptyString = false).
    { apply String.eqb_neq. eapply chain_hash; [exact Hc|]. rewrite Hh, !elem_of_app. right. left. right. by apply list_elem_of_singleton. }
    exists [], (swept ++ m ++ [boundary])%list, keep. rewrite Hbe.
    split; cbn [rows nextID checkpointValue headValue app]; try done.
    + by rewrite Hh, <- !app_assoc.
    + by right.
    + by eapply sorted_suffix.
    + by apply Forall_app in Hi as [_ ?].
    + unfold anchor_of. by rewrite app_assoc, last_snoc.
Qed.

Lemma logged_inv d h : logged d h -> exists legacy swept live, log_inv d h legacy swept live.
Proof using Type.
  induction 1 as [legacy n Hn Hl Hi Hs|d h env ts actor method path target reason status ip res d' _ IH Hmax Hts Hins
                 |d h env cutoff res d' _ IH Ho Hp].
  - exists legacy, [], []. split; cbn; rewrite ?app_nil_r; try done; [by left|constructor].
  - destruct IH as (legacy & swept & live & IH). unfold insertChained in Hins.
    assert (Hsame : forall n, nextID d <= n < 2 ^ 63 -> d' = MkDB (rows d) n (checkpointValue d) (headValue d) ->
      exists legacy swept live, log_inv d' (h ++ drop (length (rows d)) (rows d')) legacy swept live).
    { intros n Hn ->. exists legacy, swept, live. cbn [rows]. rewrite drop_all, app_nil_r. by apply log_inv_idle. }
    assert (Hd : d = MkDB (rows d) (nextID d) (checkpointValue d) (headValue d)) by (by destruct d).
    destruct (failsAt env Begin); [injection Hins as <- <-; eapply Hsame; [|exact Hd]; pose proof (li_next _ _ _ _ _ IH); lia|].
    destruct (previousHash env d) as [p|e] eqn:Ep; [|injection Hins as <- <-; eapply Hsame; [|exact Hd]; pose proof (li_next _ _ _ _ _ IH); lia].
    apply (previousHash_end _ _ _ _ _ _ _ IH) in Ep as ->. set (p := end_ EmptyString h) in *.
    assert (Hun : forall b : bool, nextID d <= (if b then nextID d + 1 else nextID d) < 2 ^ 63) by (intros []; lia).
    destruct (failsAt env Insert); [injection Hins as <- <-; exact (Hsame _ (Hun _) eq_refl)|].
    destruct (failsAt env ReadID); [injection Hins as <- <-; exact (Hsame _ (Hun _) eq_refl)|].
    destruct (failsAt env WriteHead); [injection Hins as <- <-; exact (Hsame _ (Hun _) eq_refl)|].
    pose proof (log_inv_insert d h legacy swept live ts actor method path target reason status ip IH Hmax Hts) as Hok. cbv zeta in Hok.
    unfold finish in Hins. destruct (commit env); injection Hins as <- <-; [|exact (Hsame _ (Hun _) eq_refl)|];
      exists legacy, swept, (live ++ [MkRow (nextID d) ts actor method path (Some target) status (Some ip) (Some reason) (Some p)
             (Some (computeHash p (MkEvent 0 ts actor method path target status ip reason)))])%list;
      cbn [rows]; rewrite drop_app_length; exact Hok.
  - destruct IH as (legacy & swept & live & IH). unfold Prune in Hp.
    assert (Hsame : d' = d -> exists legacy swept live, log_inv d' h legacy swept live) by (intros ->; by eexists _, _, _).
    destruct (failsAt env Begin); [injection Hp as <- <-; by apply Hsame|].
    destruct (failsAt env FindBoundary); [injection Hp as <- <-; by apply Hsame|].
    destruct (last (List.filter (older cutoff) (rows d))) as [b|] eqn:Eb.
    2: { unfold finish in Hp. destruct (commit env); injection Hp as <- <-; by apply Hsame. }
    destruct (_ && _); [injection Hp as <- <-; by apply Hsame|].
    destruct (failsAt env Delete); [injection Hp as <- <-; by apply Hsame|].
    pose proof (log_inv_prune _ _ _ _ _ _ _ IH Ho Eb) as Hok. fold (hashOf b) in Hp.
    unfold finish in Hp. destruct (commit env); injection Hp as <- <-; [exact Hok|by apply Hsame|exact Hok].
Qed.
End Honest.

(** ** Verification *)

Section Verification.
Context `{Digest}.

Lemma sorted_after (a b : list row) r : Sorted.StronglySorted Z.lt (map rID (a ++ b)) -> last a = Some r ->
  Forall (fun x => rID r < rID x) b.
Proof using Type.
  clear. intros Hs [a' ->]%last_Some. rewrite <- app_assoc in Hs. apply sorted_suffix in Hs. cbn in Hs.
  apply Sorted.StronglySorted_inv in Hs as [_ Hs]. rewrite Forall_map in Hs. exact Hs.
Qed.

Lemma find_last (l : list row) r : Sorted.StronglySorted Z.lt (map rID l) -> last l = Some r ->
  List.find (fun x => rID x =? rID r) l = Some r.
Proof using Type.
  clear. intros Hs [l' ->]%last_Some. induction l' as [|x l' IH]; cbn; [by rewrite Z.eqb_refl|].
  cbn in Hs. apply Sorted.StronglySorted_inv in Hs as [Hs Hx]. rewrite Forall_map, Forall_app in Hx.
  destruct Hx as [_ Hx%Forall_inv]. destruct (Z.eqb_spec (rID x) (rID r)); [lia|]. by apply IH.
Qed.

Lemma live_rows d h legacy swept live after : log_inv d h legacy swept live ->
  Forall (fun r => after < rID r) live -> List.filter (chainRow after) (rows d) = live.
Proof using Type.
  intros Hi Ha. rewrite (li_rows _ _ _ _ _ Hi), List.filter_app, (filter_const _ false legacy), (filter_const _ true live); [done|..].
  - pose proof (li_chain _ _ _ _ _ Hi) as Hc. rewrite (li_history _ _ _ _ _ Hi) in Hc. apply chain_app in Hc as [_ Hc].
    apply Forall_forall. intros r Hr. rewrite Forall_forall in Ha. specialize (Ha r Hr). unfold chainRow.
    rewrite (proj2 (Z.ltb_lt _ _) Ha). destruct (chain_hash _ _ _ Hc Hr) as [_ Hne].
    unfold hashOf in Hne. by rewrite (proj2 (String.eqb_neq _ _) Hne).
  - eapply Forall_impl; [exact (li_legacy _ _ _ _ _ Hi)|]. intros r Hr. unfold chainRow. rewrite Hr. apply andb_false_r.
Qed.

(** The checkpoint of an honest log: everything swept is before it, everything
    else after it, and it has the last swept hash. *)
Lemma checkpoint_spec env d h legacy swept live cp : log_inv d h legacy swept live ->
  loadCheckpoint env d = Ok cp ->
  anHash cp = end_ EmptyString swept /\ Forall (fun r => anID cp < rID r) live /\
  match last swept with Some r => anID cp = rID r | None => anID cp = 0 end.
Proof using Type.
  intros Hi. unfold loadCheckpoint. destruct (failsAt env LoadCheckpoint); [done|]. rewrite end_last.
  destruct (checkpoint_read _ _ _ _ _ Hi) as [[-> Hs]|(raw & a & -> & -> & Ha)].
  - intros [= <-]. subst swept. cbn. split_and!; [done| |done].
    pose proof (li_ids _ _ _ _ _ Hi) as Hid. rewrite (li_history _ _ _ _ _ Hi) in Hid. apply Forall_app in Hid as [_ Hid].
    eapply Forall_impl; [exact Hid|]. cbn. lia.
  - intros [= <-]. unfold anchor_of in Ha. destruct (last swept) as [r|] eqn:El; [|done]. injection Ha as <-. cbn.
    split_and!; [done| |done]. eapply sorted_after; [|exact El].
    pose proof (li_sorted _ _ _ _ _ Hi) as Hs. rewrite (li_history _ _ _ _ _ Hi) in Hs. by eapply sorted_suffix.
Qed.

Lemma chained_rows d h legacy swept live : log_inv d h legacy swept live -> List.filter (chainRow 0) (rows d) = live.
Proof using Type.
  intros Hi. eapply live_rows; [exact Hi|]. pose proof (li_ids _ _ _ _ _ Hi) as Hid.
  rewrite (li_history _ _ _ _ _ Hi), !Forall_app in Hid. destruct Hid as (_ & _ & Hid).
  eapply Forall_impl; [exact Hid|]. cbn. lia.
Qed.

Lemma head_read d h legacy swept live raw : log_inv d h legacy swept live -> headValue d = Some raw ->
  exists r, last h = Some r /\ UnmarshalHead raw = Some (MkAnchor (rID r) (hashOf r)).
Proof using Type.
  intros Hi. rewrite (li_head _ _ _ _ _ Hi). unfold anchor_of. destruct (last h) as [r|] eqn:E; [|done].
  cbn. intros [= <-]. exists r. split; [done|]. apply head_json; cbn.
  { assert (Hr : r ∈ h) by (apply last_Some in E as [l' ->]; set_solver).
    pose proof (history_id _ _ _ _ _ r Hi Hr). lia. }
  eapply history_hex; [exact (li_chain _ _ _ _ _ Hi)|done].
Qed.

Lemma logged_verifies d h env : logged d h -> (forall s, failsAt env s = false) ->
  Verify env d = Ok (MkVerify true 0 (Z.of_nat (length (List.filter (chainRow 0) (rows d)))) Intact).
Proof using Type.
  intros (legacy & swept & live & Hi)%logged_inv Hq. unfold Verify.
  assert (Hcp : exists cp, loadCheckpoint env d = Ok cp).
  { unfold loadCheckpoint. rewrite Hq. destruct (checkpoint_read _ _ _ _ _ Hi) as [[-> _]|(raw & a & -> & -> & _)]; by eexists. }
  destruct Hcp as [cp Hcp]. rewrite Hcp, Hq. destruct (checkpoint_spec _ _ _ _ _ _ _ Hi Hcp) as (Hh & Haft & Hid).
  rewrite (live_rows _ _ _ _ _ _ Hi Haft), (chained_rows _ _ _ _ _ Hi).
  pose proof (li_chain _ _ _ _ _ Hi) as Hc. rewrite (li_history _ _ _ _ _ Hi) in Hc. apply chain_app in Hc as [_ Hc].
  rewrite <- Hh in Hc. apply (walk_chain _ 0) in Hc as [n Hn]. rewrite Hn. apply walk_count in Hn as ->.
  unfold verifyHead. rewrite !Hq. destruct (headValue d) as [raw|] eqn:Eh; [|done].
  destruct (head_read _ _ _ _ _ _ Hi Eh) as (r & Hr & ->). cbn [anID anHash].
  rewrite (li_history _ _ _ _ _ Hi), last_app_cases in Hr. destruct (last live) as [r'|] eqn:El.
  - injection Hr as ->. destruct (Z.leb_spec (rID r) (anID cp)) as [|Hlt]; [done|].
    rewrite (find_last (rows d) r).
    + fold (hashOf r). by rewrite String.eqb_refl.
    + rewrite (li_rows _ _ _ _ _ Hi). pose proof (li_sorted _ _ _ _ _ Hi) as Hs. rewrite (li_history _ _ _ _ _ Hi) in Hs.
      destruct (li_gone _ _ _ _ _ Hi) as [->| ->]; [done|]. cbn. by eapply sorted_suffix.
    + by rewrite (li_rows _ _ _ _ _ Hi), last_app_cases, El.
  - rewrite Hr in Hid. rewrite Hid, (proj2 (Z.leb_le _ _)) by lia. done.
Qed.

(** *** Sweeps out of order *)

Lemma walk_checked p n l : match walk p n l with inl v => vChecked v | inr m => m end <= n + Z.of_nat (length l).
Proof using Type.
  revert p n. induction l as [|r l IH]; intros p n; cbn [walk length]; [lia|].
  destruct (negb _); [cbn; lia|]. destruct (negb _); [cbn; lia|].
  specialize (IH (coalesce (rHash r)) (n + 1)). destruct (walk _ _ _); lia.
Qed.

Lemma Verify_checked env d cp v : loadCheckpoint env d = Ok cp -> Verify env d = Ok v ->
  vChecked v <= Z.of_nat (length (List.filter (chainRow (anID cp)) (rows d))).
Proof using Type.
  unfold Verify. intros ->. destruct (failsAt env QueryChain); [done|].
  pose proof (walk_checked (anHash cp) 0 (List.filter (chainRow (anID cp)) (rows d))) as Hw.
  destruct (walk _ _ _) as [w|m]; [by intros [= <-]|]. unfold verifyHead.
  repeat case_match; intros; simplify_eq/=; lia.
Qed.

Lemma filter_fewer {A} (f g : A -> bool) l x : (forall y, g y = true -> f y = true) ->
  x ∈ l -> f x = true -> g x = false -> (length (List.filter g l) < length (List.filter f l))%nat.
Proof using Type.
  clear. intros Hgf. assert (Hle : forall l, (length (List.filter g l) <= length (List.filter f l))%nat).
  { induction l0 as [|y l0 IH]; cbn; [lia|]. destruct (g y) eqn:Eg; [rewrite (Hgf _ Eg); cbn; lia|].
    destruct (f y); cbn; lia. }
  intros Hx Hf Hg. induction l as [|y l IH]; [by apply not_elem_of_nil in Hx|].
  cbn. apply elem_of_cons in Hx as [->|Hx].
  - rewrite Hf, Hg. cbn. specialize (Hle l). lia.
  - specialize (IH Hx). destruct (g y) eqn:Eg; [rewrite (Hgf _ Eg); cbn; lia|]. destruct (f y); cbn; lia.
Qed.

Lemma filter_last_after (f : row -> bool) l b s : Sorted.StronglySorted Z.lt (map rID l) ->
  last (List.filter f l) = Some b -> s ∈ l -> f s = true -> exists l1 l2, l = l1 ++ s :: l2 /\ b ∈ s :: l2 /\ rID s <= rID b.
Proof using Type.
  clear. intros Hs Hb Hin Hf. apply list_elem_of_split in Hin as (l1 & l2 & ->). exists l1, l2. split; [done|].
  apply sorted_suffix in Hs. cbn in Hs. apply Sorted.StronglySorted_inv in Hs as [_ Hs].
  rewrite List.filter_app in Hb. cbn in Hb. rewrite Hf, last_app_cases in Hb.
  destruct (last (s :: List.filter f l2)) as [x|] eqn:E; [|by apply last_None in E]. injection Hb as ->.
  apply last_Some_elem_of, elem_of_cons in E as [->|E]; [split; [left|lia]|].
  apply list_elem_of_In, List.filter_In in E as [E%list_elem_of_In _]. split; [by right|].
  rewrite Forall_map, Forall_forall in Hs. specialize (Hs b E). cbn in Hs. lia.
Qed.

(** A sweep that takes a chained row moves the checkpoint past it. *)
Lemma Prune_checkpoint env env' d h cutoff n d' s : logged d h -> Prune env d cutoff = (Ok n, d') ->
  s ∈ rows d -> chainRow 0 s = true -> older cutoff s = true ->
  rows d' = List.filter (fun r => negb (older cutoff r)) (rows d) /\
  forall cp, loadCheckpoint env' d' = Ok cp -> rID s <= anID cp.
Proof using Type.
  intros (legacy & swept & live & Hi)%logged_inv Hp Hs Hc Ho. unfold Prune in Hp.
  destruct (failsAt env Begin), (failsAt env FindBoundary); try done.
  destruct (last (List.filter (older cutoff) (rows d))) as [b|] eqn:Eb.
  2: { apply last_None in Eb. assert (Hin : s ∈ []); [|by apply not_elem_of_nil in Hin].
       rewrite <- Eb. apply list_elem_of_In, List.filter_In. by rewrite <- list_elem_of_In. }
  assert (Hsort : Sorted.StronglySorted Z.lt (map rID (rows d))).
  { rewrite (li_rows _ _ _ _ _ Hi). pose proof (li_sorted _ _ _ _ _ Hi) as H'. rewrite (li_history _ _ _ _ _ Hi) in H'.
    destruct (li_gone _ _ _ _ _ Hi) as [->| ->]; [done|]. cbn. by eapply sorted_suffix. }
  destruct (filter_last_after _ _ _ _ Hsort Eb Hs Ho) as (l1 & l2 & E & Hb & Hid).
  assert (Hlive : b ∈ live).
  { assert (Hsl : s ∈ live) by (rewrite <- (chained_rows _ _ _ _ _ Hi); apply list_elem_of_In, List.filter_In; by rewrite <- list_elem_of_In).
    assert (Hbr : b ∈ legacy ++ live).
    { rewrite <- (li_rows _ _ _ _ _ Hi), E. apply elem_of_app. by right. }
    apply elem_of_app in Hbr as [Hbl|]; [exfalso|done].
    rewrite (li_rows _ _ _ _ _ Hi) in Hsort. apply list_elem_of_split in Hbl as (g1 & g2 & ->).
    rewrite <- app_assoc in Hsort. apply sorted_suffix in Hsort. cbn in Hsort.
    apply Sorted.StronglySorted_inv in Hsort as [_ Hsort]. rewrite Forall_map, Forall_forall in Hsort.
    specialize (Hsort s ltac:(set_solver)). cbn in Hsort. lia. }
  assert (Hbh : b ∈ h) by (rewrite (li_history _ _ _ _ _ Hi); set_solver).
  destruct (chain_hash _ _ _ (li_chain _ _ _ _ _ Hi) Hbh) as [Hdig Hne]. unfold hashOf in *.
  rewrite (proj2 (String.eqb_neq _ _) Hne) in Hp. cbn [negb andb] in Hp.
  destruct (failsAt env WriteCheckpoint), (failsAt env Delete); try done.
  unfold finish in Hp. destruct (commit env); simplify_eq/=. split; [done|]. intros cp.
  unfold loadCheckpoint. destruct (failsAt env' LoadCheckpoint); [done|]. cbn.
  pose proof (history_id _ _ _ _ _ b Hi Hbh). rewrite checkpoint_json; [|cbn; lia|destruct Hdig as [?|[_ ?]]; done].
  by intros [= <-].
Qed.

(** C30. When the log verifies, and when not: after any sequence of inserts and
    retention sweeps, with failures and lost commits at every statement, in which
    each sweep took the oldest rows, [Verify] reports an intact chain and has
    checked every chained row of the table.  The condition is needed: a sweep of
    such a log that takes a chained row and keeps a chained row inserted before it
    moves the checkpoint past the row it keeps, and [Verify] no longer checks every
    chained row of the table, whatever it reports. *)
Theorem audit_log_verifies d h :
  logged d h ->
  (forall env, (forall s, failsAt env s = false) ->
    Verify env d = Ok (MkVerify true 0 (Z.of_nat (length (List.filter (chainRow 0) (rows d)))) Intact)) /\
  (forall env env' cutoff n d' kept gone v,
    Prune env d cutoff = (Ok n, d') ->
    kept ∈ rows d -> gone ∈ rows d -> chainRow 0 kept = true -> chainRow 0 gone = true -> rID kept < rID gone ->
    older cutoff kept = false -> older cutoff gone = true -> Verify env' d' = Ok v ->
    vChecked v < Z.of_nat (length (List.filter (chainRow 0) (rows d')))).
Proof using Type.
  intros Hl. split; [intros env; exact (logged_verifies d h env Hl)|].
  intros env env' cutoff n d' kept gone v Hp Hk Hg Hck Hcg Hid Hok Hog Hv.
  destruct (Prune_checkpoint env env' d h cutoff n d' gone Hl Hp Hg Hcg Hog) as [Hr Hcp].
  destruct (loadCheckpoint env' d') as [cp|e] eqn:Ecp; [|unfold Verify in Hv; by rewrite Ecp in Hv].
  specialize (Hcp cp eq_refl). apply (Verify_checked _ _ _ _ Ecp) in Hv.
  eapply Z.le_lt_trans; [exact Hv|]. apply inj_lt. apply (filter_fewer _ _ _ kept).
  - intros y. unfold chainRow. intros [Hy ->]%andb_true_iff. apply Z.ltb_lt in Hy.
    apply andb_true_iff in Hcg as [H1%Z.ltb_lt _]. rewrite (proj2 (Z.ltb_lt 0 (rID y))); [done|lia].
  - rewrite Hr. apply list_elem_of_In, List.filter_In. rewrite <- list_elem_of_In, Hok. done.
  - done.
  - unfold chainRow. rewrite (proj2 (Z.ltb_ge _ _)); [done|lia].
Qed.

(** Two different texts, one of the history, with one digest. *)
Definition collision (h l : list row) : Prop :=
  Exists (fun r => Exists (fun r' => inputOf r <> inputOf r' /\ hexSum (inputOf r) = hexSum (inputOf r')) l) h.

Lemma separate_or_collision h l : collision h l \/ separate h l.
Proof using Type.
  destruct (decide (collision h l)) as [Hc|Hn]; [by left|right].
  intros r r' Hr Hr' E. destruct (decide (inputOf r = inputOf r')) as [|Hne]; [done|]. destruct Hn.
  apply Exists_exists. exists r. split; [done|]. apply Exists_exists. by exists r'.
Qed.

Lemma verify_ok env d cp v : loadCheckpoint env d = Ok cp -> Verify env d = Ok v -> vOK v = true ->
  chain (anHash cp) (List.filter (chainRow (anID cp)) (rows d)) /\
  exists n, verifyHead env d (anID cp) n = Ok None.
Proof using Type.
  unfold Verify. intros ->. destruct (failsAt env QueryChain); [done|].
  destruct (walk _ 0 _) as [b|n] eqn:Ew.
  { intros [= <-] Hv. exfalso. clear -Ew Hv. revert Ew. generalize (anHash cp) 0. induction (List.filter _ _) as [|r l IH]; intros p k; cbn; [done|].
    destruct (negb _); [intros [= <-]; done|]. destruct (negb _); [intros [= <-]; done|]. apply IH. }
  intros Hv Hok. split; [apply (walk_chain _ 0); by eexists|]. exists n.
  destruct (verifyHead env d (anID cp) n) as [[b|]|e] eqn:Eh; [|done..]. exfalso. injection Hv as ->.
  unfold verifyHead in Eh. repeat case_match; simplify_eq; done.
Qed.

Lemma find_split {A} (f : A -> bool) (g : A -> bool) l x : List.find f l = Some x -> g x = true ->
  exists a b, List.filter g l = a ++ [x] ++ b /\ f x = true.
Proof using Type.
  clear. intros Hf Hg. destruct (find_some _ _ Hf) as [Hin Hfx]. apply in_split in Hin as (l1 & l2 & ->).
  exists (List.filter g l1), (List.filter g l2). split; [|done]. rewrite List.filter_app. cbn. by rewrite Hg.
Qed.

Lemma tail_of_history h swept live p A :
  h = swept ++ live -> chain EmptyString h -> rowsFit h -> separate h h -> p = end_ EmptyString swept ->
  chain p A -> rowsFit A -> separate h A -> end_ EmptyString h = end_ p A -> map content A = map content live.
Proof using Type.
  intros Eh Hc Hf Hs Hp HA FA HsA He.
  assert (Hd : digestish p).
  { rewrite Hp. apply end_digest; [by left|]. rewrite Eh in Hc. by apply chain_app in Hc as [? _]. }
  destruct (chain_back p A h) as (h1 & h2 & E & Hm & H1); try done.
  rewrite Hp in H1. rewrite <- Hm. f_equal.
  assert (swept = h1) as -> by (eapply same_end_same_prefix; done). rewrite Eh in E. by apply app_inv_head in E.
Qed.

(** The newest row of the log is in a table that passes [verifyHead]. *)
Lemma head_present env d h legacy swept live rows' after n r0 : log_inv d h legacy swept live ->
  last live = Some r0 -> after < rID r0 ->
  verifyHead env (MkDB rows' (nextID d) (checkpointValue d) (headValue d)) after n = Ok None ->
  exists r a b, List.filter (chainRow after) rows' = (a ++ [r]) ++ b /\ rID r = rID r0 /\ hashOf r = hashOf r0.
Proof using Type.
  intros Hi El Hr0 Hh.
  assert (Elh : last h = Some r0) by (by rewrite (li_history _ _ _ _ _ Hi), last_app_cases, El).
  unfold verifyHead in Hh. cbn [headValue rows] in Hh. destruct (failsAt env LoadHead); [done|].
  destruct (headValue d) as [raw|] eqn:Eh.
  2: { rewrite (li_head _ _ _ _ _ Hi) in Eh. unfold anchor_of in Eh. by rewrite Elh in Eh. }
  destruct (head_read _ _ _ _ _ _ Hi Eh) as (r1 & Hr1 & Hun). rewrite Hun in Hh. rewrite Elh in Hr1. injection Hr1 as <-.
  cbn [anID anHash] in Hh. rewrite (proj2 (Z.leb_gt _ _) Hr0) in Hh. destruct (failsAt env ReadHeadRow); [done|].
  destruct (List.find _ rows') as [r|] eqn:Ef; [|done].
  destruct (String.eqb_spec (coalesce (rHash r)) (hashOf r0)) as [Ehash|]; [|done].
  assert (Erid : rID r = rID r0) by (by apply find_some in Ef as [_ ?%Z.eqb_eq]).
  destruct (chain_hash _ _ r0 (li_chain _ _ _ _ _ Hi)) as [_ Hne].
  { apply last_Some in Elh as [l' ->]. set_solver. }
  destruct (find_split _ (chainRow after) _ _ Ef) as (a & b & Efil & _).
  { unfold chainRow. rewrite Erid, (proj2 (Z.ltb_lt _ _) Hr0), Ehash. by rewrite (proj2 (String.eqb_neq _ _) Hne). }
  exists r, a, b. by rewrite <- app_assoc.
Qed.

(** C14. Tampering with the table shows.  Replace the rows of an honest log by any
    others, leaving the anchors alone: if [Verify] still reports an intact chain,
    then the chained rows are those of the log, in order and with their content
    and links, up to the newest one, which keeps its id (what may follow it is a
    longer chain); otherwise two different texts with one digest are at hand. *)
Theorem audit_tamper_evident d h env rows' v :
  logged d h -> rowsFit rows' ->
  Verify env (MkDB rows' (nextID d) (checkpointValue d) (headValue d)) = Ok v -> vOK v = true ->
  collision h (h ++ rows') \/
  exists cp a b, loadCheckpoint env d = Ok cp /\ List.filter (chainRow (anID cp)) rows' = a ++ b /\
    map content a = map content (List.filter (chainRow 0) (rows d)) /\
    (rID <$> last a) = (rID <$> last (List.filter (chainRow 0) (rows d))).
Proof using Type.
  intros (legacy & swept & live & Hi)%logged_inv Hfit Hv Hok.
  destruct (separate_or_collision h (h ++ rows')) as [|Hsep]; [by left|right].
  rewrite (chained_rows _ _ _ _ _ Hi). destruct (loadCheckpoint env d) as [cp|e] eqn:Hcp.
  2: { exfalso. unfold Verify in Hv. change (loadCheckpoint env (MkDB _ _ _ _)) with (loadCheckpoint env d) in Hv. by rewrite Hcp in Hv. }
  destruct (verify_ok env (MkDB rows' (nextID d) (checkpointValue d) (headValue d)) cp v Hcp Hv Hok) as [Hc [n Hh]].
  destruct (checkpoint_spec _ _ _ _ _ _ _ Hi Hcp) as (Hhash & Haft & Hid). cbn [rows] in Hc. exists cp.
  destruct (last live) as [r0|] eqn:El.
  2: { apply last_None in El as ->. eexists [], _. by split_and!. }
  assert (Hr0 : anID cp < rID r0).
  { rewrite Forall_forall in Haft. apply Haft. apply last_Some in El as [l' ->]. set_solver. }
  destruct (head_present _ _ _ _ _ _ _ _ _ _ Hi El Hr0 Hh) as (r & a & b & Efil & Erid & Ehash).
  exists (a ++ [r])%list, b. split; [done|]. split; [done|]. rewrite last_snoc. cbn. rewrite Erid. split; [|done].
  rewrite Efil in Hc. apply chain_app in Hc as [Hc _].
  assert (Hsub : forall x, x ∈ (a ++ [r])%list -> x ∈ rows').
  { intros x Hx. apply list_elem_of_In, (proj1 (List.filter_In (chainRow (anID cp)) x rows')), list_elem_of_In.
    rewrite Efil. apply elem_of_app. by left. }
  apply (tail_of_history h swept live (anHash cp)); try done.
  - exact (li_history _ _ _ _ _ Hi).
  - exact (li_chain _ _ _ _ _ Hi).
  - exact (li_fits _ _ _ _ _ Hi).
  - intros x y Hx Hy. apply Hsep; [done|]. apply elem_of_app. by left.
  - unfold rowsFit in *. rewrite Forall_forall in *. intros x Hx. by apply Hfit, Hsub.
  - intros x y Hx Hy. apply Hsep; [done|]. apply elem_of_app. right. by apply Hsub.
  - rewrite !end_last, last_snoc, (li_history _ _ _ _ _ Hi), last_app_cases, El. done.
Qed.
End Verification.

(** ** Export *)

Lemma like_any s : likeMatch [AnyText] s = true.
Proof. induction s as [|c s IH]; [done|]. cbn in *. by rewrite IH. Qed.

Lemma like_literals (p : string) : forall s, likeMatch (likeTokens (likeEscape p +:+ "%")) s = HasPrefix s p.
Proof.
  unfold HasPrefix. induction p as [|c p IH]; intros s.
  - change (likeMatch [AnyText] s = String.prefix EmptyString s). rewrite like_any. by destruct s.
  - cbn [likeEscape]. unfold likeSpecial.
    assert (Hl : forall t, likeMatch (Literal c :: t) s = match s with String d s' => Ascii.eqb c d && likeMatch t s' | EmptyString => false end) by done.
    destruct (Ascii.eqb c backslash || Ascii.eqb c "%"%char || Ascii.eqb c "_"%char) eqn:E; rewrite !str_app_cons.
    + cbn [likeTokens]. rewrite Ascii.eqb_refl, Hl. destruct s as [|d s]; [done|]. cbn [String.prefix]. rewrite IH.
      destruct (Ascii.eqb_spec c d) as [->|Hn]; cbn; destruct (ascii_dec _ _); congruence.
    + apply orb_false_iff in E as [[E1 E2]%orb_false_iff E3]. cbn [likeTokens]. rewrite E1, E2, E3, Hl.
      destruct s as [|d s]; [done|]. cbn [String.prefix]. rewrite IH.
      destruct (Ascii.eqb_spec c d) as [->|Hn]; cbn; destruct (ascii_dec _ _); congruence.
Qed.

Lemma like_contains p s : LIKE s (String "%"%char (likeEscape p +:+ "%")) = Contains s p.
Proof.
  unfold LIKE. cbn [likeTokens]. change (Ascii.eqb "%" backslash) with false. cbn [Ascii.eqb Bool.eqb].
  induction s as [|c s IH].
  - cbn [Contains]. rewrite <- like_literals. cbn. by rewrite orb_false_r.
  - cbn [Contains]. rewrite <- IH, <- like_literals. done.
Qed.

Section ExportFacts.
Variables (LOWER : string -> string) (uniLower uniUpper : Z -> Z).

(** The rows the query string of an export describes. *)
Definition asked (get : string -> string) (r : row) : bool :=
  let actor := TrimSpace (get "actor") in
  let method := ToUpper uniUpper (TrimSpace (get "method")) in
  let class := ToLower uniLower (TrimSpace (get "status")) in
  (String.eqb (get "since") EmptyString || negb (String.ltb (rTS r) (get "since"))) &&
  (String.eqb (get "until") EmptyString || negb (String.ltb (get "until") (rTS r))) &&
  (String.eqb actor EmptyString || Contains (LOWER (rActor r)) (ToLower uniLower actor)) &&
  (String.eqb method EmptyString || String.eqb (rMethod r) method) &&
  (String.eqb class EmptyString || String.eqb class (Itoa (rStatus r / 100) +:+ "xx")).

Lemma stream_collects d f : Stream LOWER uniLower d f (fun acc e => Ok (E := unit) (acc ++ [e])) [] =
  Ok (map event_of (List.filter (streamed LOWER uniLower f) (rows d))).
Proof using Type.
  unfold Stream. generalize (List.filter (streamed LOWER uniLower f) (rows d)). intros l.
  assert (Hg : forall acc, streamRows (fun acc e => Ok (E := unit) (acc ++ [e])) acc l = Ok (acc ++ map event_of l)).
  { induction l as [|r l IH]; intros acc; cbn; [by rewrite app_nil_r|]. by rewrite IH, <- app_assoc. }
  apply Hg.
Qed.

Lemma class_bounds k s : 0 <= k <= 9 -> (k * 100 <=? s) && (s <=? k * 100 + 99) = String.eqb (Itoa k +:+ "xx") (Itoa (s / 100) +:+ "xx").
Proof using Type.
  clear. intros Hk. destruct (String.eqb_spec (Itoa k +:+ "xx") (Itoa (s / 100) +:+ "xx")) as [E|E].
  - assert (k = s / 100) as ->.
    { apply (inj pretty). apply (f_equal bytes_of) in E. rewrite !bytes_of_app in E. by apply app_inv_tail, bytes_of_inj in E. }
    pose proof (Z.div_mod s 100). pose proof (Z.mod_pos_bound s 100). zbool; lia.
  - apply not_true_iff_false. rewrite andb_true_iff, !Z.leb_le. intros [H1 H2]. destruct E. do 2 f_equal.
    apply Z.div_unique with (s - k * 100); lia.
Qed.

(** An export holds exactly the rows its query describes: the bounds are
    inclusive, the actor text is matched literally (wildcards in it match
    themselves), and a class such as 4xx means the hundred of the status. *)
Lemma audit_export_exact get d f :
  parseStreamFilter uniLower uniUpper get = Ok f ->
  Stream LOWER uniLower d f (fun acc e => Ok (E := unit) (acc ++ [e])) [] =
  Ok (map event_of (List.filter (asked get) (rows d))).
Proof using Type.
  intros Hp. rewrite stream_collects. do 2 f_equal. apply List.filter_ext. intros r.
  unfold parseStreamFilter in Hp. destruct (negb _ && negb _); [done|]. unfold streamed, asked.
  generalize dependent (ToLower uniLower (TrimSpace (get "status"))). intros class Hp.
  assert (Hst : exists lo hi, f = MkFilter (get "since") (get "until") (TrimSpace (get "actor")) (ToUpper uniUpper (TrimSpace (get "method"))) lo hi /\
    ((hi =? 0) || ((lo <=? rStatus r) && (rStatus r <=? hi))) =
    (String.eqb class EmptyString || String.eqb class (Itoa (rStatus r / 100) +:+ "xx"))).
  { destruct (String.eqb_spec class EmptyString) as [|_]; [injection Hp as <-; by eexists _, _|].
    destruct (String.eqb_spec class "2xx") as [Ec|_]; [rewrite Ec; injection Hp as <-; eexists _, _; split; [done|apply (class_bounds 2); lia]|].
    destruct (String.eqb_spec class "4xx") as [Ec|_]; [rewrite Ec; injection Hp as <-; eexists _, _; split; [done|apply (class_bounds 4); lia]|].
    destruct (String.eqb_spec class "5xx") as [Ec|_]; [rewrite Ec; injection Hp as <-; eexists _, _; split; [done|apply (class_bounds 5); lia]|done]. }
  destruct Hst as (lo & hi & -> & Hst). cbn [fSince fUntil fActor fMethod fStatusMin fStatusMax].
  by rewrite like_contains, Hst.
Qed.
End ExportFacts.

(** ** The S3 mirror *)

Section MirrorFacts.
Variable encodedSize : Event -> Z.
Local Ltac fields := cbn [fst snd sPhase sChan sBuffer sBytes sPushed sDropped sSent sFailed sDroppedCount to_phase] in *.

Definition total (ok : bool) (pushed : list (list Event * bool)) : Z :=
  foldr (fun b n => if Bool.eqb b.2 ok then Z.of_nat (length b.1) + n else n) 0 pushed.
Definition sizeOf (l : list Event) : Z := foldr (fun e n => encodedSize e + n) 0 l.

Lemma total_snoc ok pushed b : total ok (pushed ++ [b]) = total ok pushed + (if Bool.eqb b.2 ok then Z.of_nat (length b.1) else 0).
Proof using Type. unfold total. induction pushed as [|c l IH]; cbn; [by destruct (Bool.eqb _ _); lia|]. destruct (Bool.eqb c.2 ok); lia. Qed.
Lemma sizeOf_app l l' : sizeOf (l ++ l') = sizeOf l + sizeOf l'.
Proof using Type. induction l as [|e l IH]; cbn; [done|]. unfold sizeOf in *. lia. Qed.

(** What holds of the sink at any time, the size of the batch apart. *)
Record accounted (offered : list Event) (s : s3State) : Prop := {
  ac_events : exists accepted, accepted `sublist_of` offered /\ accepted ++ sDropped s ≡ₚ offered /\
    accepted = concat (map fst (sPushed s)) ++ sBuffer s ++ sChan s;
  ac_chan : (length (sChan s) <= s3Buffer)%nat;
  ac_batches : Forall (fun b => (0 < length b.1 <= s3FlushCountSize)%nat) (sPushed s);
  ac_sent : sSent s = total true (sPushed s);
  ac_failed : sFailed s = total false (sPushed s);
  ac_dropped : sDroppedCount s = Z.of_nat (length (sDropped s)) }.

Lemma flushed_accounted offered s outcomes : (length (sBuffer s) <= s3FlushCountSize)%nat ->
  accounted offered s -> accounted offered (flushed s outcomes).
Proof using Type.
  intros Hb Ha. unfold flushed. destruct (sBuffer s) as [|e b] eqn:E; [done|]. rewrite <- E in *.
  destruct Ha as [(acc & H1 & H2 & H3) H4 H5 H6 H7 H8]. split; fields; try done.
  - exists acc. split_and!; [done..|]. rewrite map_app, concat_app, H3. cbn. by rewrite app_nil_r, <- app_assoc.
  - apply Forall_app. split; [done|]. constructor; [|done]. cbn. rewrite E in *. cbn in *. lia.
  - rewrite total_snoc, H6. cbn. destruct (pushBatch outcomes).1; cbn; lia.
  - rewrite total_snoc, H7. cbn. destruct (pushBatch outcomes).1; cbn; lia.
Qed.

Lemma received_accounted offered s e rest bytes : sChan s = e :: rest -> accounted offered s ->
  accounted offered (MkS3 (sPhase s) rest (sBuffer s ++ [e]) bytes (sPushed s) (sDropped s) (sSent s) (sFailed s) (sDroppedCount s)).
Proof using Type.
  intros Hc [(acc & H1 & H2 & H3) H4 H5 H6 H7 H8]. rewrite Hc in *. split; fields; try done.
  - exists acc. split_and!; [done..|]. by rewrite H3, <- (app_assoc (sBuffer s)).
  - cbn in H4. lia.
Qed.

Lemma flushed_buffer s outcomes : sBuffer (flushed s outcomes) = [].
Proof using Type. unfold flushed. by destruct (sBuffer s) eqn:E. Qed.

(** C34. The mirror accounts for every event offered to it.  At any time, under
    any interleaving of callers, worker, ticks and shutdown, the events accepted
    are, in order, those of the batches given to the store, of the batch under
    construction and of the channel; all others are counted as dropped; no batch
    is empty or has more than a hundred events; and the counters are exact. *)
Theorem s3_mirror_accounts offered s :
  mirrored encodedSize (offered, s) ->
  accounted offered s /\ (length (sBuffer s) < s3FlushCountSize)%nat /\
  (sPhase s = Working -> sBytes s = sizeOf (sBuffer s) /\ sBytes s < s3FlushByteSize).
Proof using Type.
  set (P := fun os : list Event * s3State => accounted os.1 os.2 /\ (length (sBuffer os.2) < s3FlushCountSize)%nat /\
    (sPhase os.2 = Working -> sBytes os.2 = sizeOf (sBuffer os.2) /\ sBytes os.2 < s3FlushByteSize)).
  enough (Hall : forall os, mirrored encodedSize os -> P os) by (intros Hm; exact (Hall _ Hm)).
  intros os. induction 1 as [|os os' _ (Ha & Hb & Hw) Hstep].
  { split_and!; [|cbn; unfold s3FlushCountSize; lia|done]. split; fields; try done; [by exists []|unfold s3Buffer; cbn; lia]. }
  assert (Hfl : forall offered s o, accounted offered s -> (length (sBuffer s) <= s3FlushCountSize)%nat ->
    (sBuffer s = [] -> sPhase s = Working -> sBytes s = sizeOf [] /\ sBytes s < s3FlushByteSize) ->
    P (offered, flushed s o)).
  { intros offered' s' o Ha' Hb' Hw'. split_and!; cbn [fst snd]; [by apply flushed_accounted| |].
    - rewrite flushed_buffer. cbn. unfold s3FlushCountSize. lia.
    - rewrite flushed_buffer. unfold flushed. destruct (sBuffer s') eqn:E; [by apply Hw'|]. done. }
  destruct Hstep as [offered' s' e|offered' s' e rest o Hp Hc|offered' s' o Hp|offered' s' Hp|offered' s' e rest o Hp Hc|offered' s' o Hp];
    cbn [fst snd] in *.
  - unfold Enqueue. destruct Ha as [(acc & H1 & H2 & H3) H4 H5 H6 H7 H8].
    destruct (Nat.ltb_spec (length (sChan s')) s3Buffer) as [Hl|Hl]; (split_and!; cbn [fst snd sBuffer sPhase sBytes]; [|done..]);
      split; fields; try done; try (rewrite length_app; cbn; lia).
    + exists (acc ++ [e]). split_and!; [by apply sublist_app| |by rewrite H3, <- !app_assoc].
      rewrite <- H2, <- !app_assoc. apply Permutation_app_head, Permutation_app_comm.
    + exists acc. split_and!; [by apply sublist_inserts_r| |done]. by rewrite <- H2, <- app_assoc.
  - unfold receive. set (s1 := MkS3 _ _ _ _ _ _ _ _ _).
    assert (Ha1 : accounted offered' s1) by (by apply received_accounted).
    assert (Hb1 : (length (sBuffer s1) <= s3FlushCountSize)%nat) by (cbn; rewrite length_app; cbn; lia).
    destruct (_ || _) eqn:Ec; [apply Hfl; [done..|]; by cbn; destruct (sBuffer s')|].
    apply orb_false_iff in Ec as [Ec1%Nat.leb_gt Ec2%Z.leb_gt]. destruct (Hw Hp) as [Hw1 Hw2].
    split_and!; cbn [fst snd]; [done|exact Ec1|]. intros _. split; [|exact Ec2]. cbn. rewrite sizeOf_app, Hw1. cbn. lia.
  - apply Hfl; [done|lia|]. intros Hn _. rewrite Hn in Hw. by apply Hw.
  - split_and!; fields; try done. by destruct Ha.
  - unfold receiveDrain. set (s1 := MkS3 _ _ _ _ _ _ _ _ _).
    assert (Ha1 : accounted offered' s1) by (by apply received_accounted).
    assert (Hb1 : (length (sBuffer s1) <= s3FlushCountSize)%nat) by (cbn; rewrite length_app; cbn; lia).
    destruct (_ <=? _)%nat eqn:Ec; [apply Hfl; [done..|]; by cbn; destruct (sBuffer s')|].
    apply Nat.leb_gt in Ec. split_and!; cbn [fst snd]; [done|exact Ec|]. cbn. congruence.
  - destruct (Hfl offered' s' o Ha ltac:(lia) ltac:(congruence)) as (H1 & H2 & H3).
    split_and!; fields; try done. by destruct H1.
Qed.
End MirrorFacts.

(** ** Witnesses *)

(** A digest that keeps the form of SHA-256: a checksum in 64 hexadecimal digits. *)
Definition checksum (s : string) : Z := foldl (fun acc b => (acc * 257 + b + 1) mod 2 ^ 256) 1 (bytes_of s).
Definition nibble (v : Z) : ascii := ascii_of_byte (if v <? 10 then 48 + v else 87 + v).
Fixpoint nibbles (k : nat) (v : Z) : string :=
  match k with O => EmptyString | S k => String (nibble (v mod 16)) (nibbles k (v / 16)) end.

Lemma nibble_hex v : 0 <= v < 16 -> hexChar (nibble v) = true.
Proof.
  intros Hv. assert (In v [0; 1; 2; 3; 4; 5; 6; 7; 8; 9; 10; 11; 12; 13; 14; 15]) as Hin by (cbn; lia).
  cbn in Hin. repeat (destruct Hin as [<-|Hin]; [done|]). done.
Qed.
Lemma nibbles_length k v : String.length (nibbles k v) = k.
Proof. revert v. induction k as [|k IH]; intros v; [done|]. cbn. by rewrite IH. Qed.
Lemma nibbles_hex k v : str_all hexChar (nibbles k v) = true.
Proof. revert v. induction k as [|k IH]; intros v; [done|]. cbn [nibbles str_all]. by rewrite nibble_hex, IH by (apply Z.mod_pos_bound; lia). Qed.

Definition printAnchor (a : anchor) : string := Itoa (anID a) +:+ String ":"%char (anHash a).
Definition readAnchor (s : string) : option anchor :=
  match split_on ":"%char s with
  | [i; h] => match ParseInt64 i with Some i => Some (MkAnchor i h) | None => None end
  | _ => None
  end.
Lemma readAnchor_print a : 0 <= anID a < 2 ^ 63 -> str_all hexChar (anHash a) = true -> readAnchor (printAnchor a) = Some a.
Proof.
  intros Hi Hh. unfold readAnchor, printAnchor. rewrite split_on_cons by (apply colon_free; lia).
  rewrite split_on_free, ParseInt64_Itoa; [by destruct a|lia|].
  eapply str_all_impl; [|exact Hh]. intros c Hc. by destruct (Ascii.eqb_spec c ":"%char) as [->|].
Qed.

#[local] Instance demo_digest : Digest := {|
  hexSum s := nibbles 64 (checksum s);
  MarshalCheckpoint := printAnchor; UnmarshalCheckpoint := readAnchor;
  MarshalHead := printAnchor; UnmarshalHead := readAnchor;
  hexSum_length s := nibbles_length 64 (checksum s);
  hexSum_hex s := nibbles_hex 64 (checksum s);
  checkpoint_json := readAnchor_print; head_json := readAnchor_print |}.

Definition demo_env : sqlEnv := MkSql (fun _ => false) Committed false.
Definition demo_add (d : db) (ts actor : string) : db :=
  (insertChained demo_env d ts actor "POST" "/servers" "alpha" EmptyString 201 "10.0.0.7").2.
Definition demo_empty : db := MkDB [] 1 None None.
Definition demo_log : db := demo_add (demo_add (demo_add demo_empty "2026-01-01T00:00:00Z" "ann") "2026-01-02T00:00:00Z" "bob") "2026-01-03T00:00:00Z" "cy".
Definition demo_swept : db := (Prune demo_env demo_log "2026-01-02T00:00:00Z").2.

Lemma demo_logged : logged demo_log (rows demo_log).
Proof.
  assert (H0 : logged demo_empty []) by (by repeat constructor).
  assert (H1 := logged_insert _ _ demo_env "2026-01-01T00:00:00Z" "ann" "POST" "/servers" "alpha" EmptyString 201 "10.0.0.7" (Ok ()) _ H0
    ltac:(done) ltac:(done) (eq_refl (Ok (), demo_add demo_empty "2026-01-01T00:00:00Z" "ann"))).
  assert (H2 := logged_insert _ _ demo_env "2026-01-02T00:00:00Z" "bob" "POST" "/servers" "alpha" EmptyString 201 "10.0.0.7" (Ok ()) _ H1
    ltac:(done) ltac:(done) (eq_refl (Ok (), demo_add (demo_add demo_empty "2026-01-01T00:00:00Z" "ann") "2026-01-02T00:00:00Z" "bob"))).
  exact (logged_insert _ _ demo_env "2026-01-03T00:00:00Z" "cy" "POST" "/servers" "alpha" EmptyString 201 "10.0.0.7" (Ok ()) _ H2
    ltac:(done) ltac:(done) (eq_refl (Ok (), demo_log))).
Qed.

Lemma demo_swept_logged : logged demo_swept (rows demo_log).
Proof.
  eapply (logged_prune _ _ demo_env "2026-01-02T00:00:00Z" (Ok 1)); [exact demo_logged| |reflexivity].
  exists (take 1 (rows demo_log)), (drop 1 (rows demo_log)).
  split; [reflexivity|]. split; repeat constructor.
Qed.

(** Two requests inserted in the other order than they were stamped. *)
Definition demo_crossed : db := demo_add (demo_add demo_empty "2026-01-02T00:00:01Z" "ann") "2026-01-02T00:00:00Z" "bob".

Lemma demo_crossed_logged : logged demo_crossed (rows demo_crossed).
Proof.
  assert (H0 : logged demo_empty []) by (by repeat constructor).
  assert (H1 := logged_insert _ _ demo_env "2026-01-02T00:00:01Z" "ann" "POST" "/servers" "alpha" EmptyString 201 "10.0.0.7" (Ok ()) _ H0
    ltac:(done) ltac:(done) (eq_refl (Ok (), demo_add demo_empty "2026-01-02T00:00:01Z" "ann"))).
  exact (logged_insert _ _ demo_env "2026-01-02T00:00:00Z" "bob" "POST" "/servers" "alpha" EmptyString 201 "10.0.0.7" (Ok ()) _ H1
    ltac:(done) ltac:(done) (eq_refl (Ok (), demo_crossed))).
Qed.

(** A log swept in order, and one swept between two crossed stamps. *)
Lemma audit_log_verifies_witness :
  Verify demo_env demo_swept = Ok (MkVerify true 0 2 Intact) /\
  let d' := (Prune demo_env demo_crossed "2026-01-02T00:00:01Z").2 in
  0 < Z.of_nat (length (List.filter (chainRow 0) (rows d'))).
Proof.
  split.
  - exact (proj1 (audit_log_verifies demo_swept (rows demo_log) demo_swept_logged) demo_env (fun _ => eq_refl)).
  - apply (proj2 (audit_log_verifies demo_crossed (rows demo_crossed) demo_crossed_logged) demo_env demo_env
      "2026-01-02T00:00:01Z" 1 _ (List.nth 0 (rows demo_crossed) (MkRow 0 "" "" "" "" None 0 None None None None))
      (List.nth 1 (rows demo_crossed) (MkRow 0 "" "" "" "" None 0 None None None None)) (MkVerify true 0 0 Intact)).
    + vm_compute. reflexivity.
    + vm_compute. left.
    + vm_compute. right. left.
    + vm_compute. reflexivity.
    + vm_compute. reflexivity.
    + vm_compute. reflexivity.
    + vm_compute. reflexivity.
    + vm_compute. reflexivity.
    + vm_compute. reflexivity.
Defined.

Lemma audit_tamper_evident_witness :
  collision (rows demo_log) (rows demo_log ++ rows demo_swept) \/
  exists cp a b, loadCheckpoint demo_env demo_swept = Ok cp /\
    List.filter (chainRow (anID cp)) (rows demo_swept) = a ++ b /\
    map content a = map content (List.filter (chainRow 0) (rows demo_swept)) /\
    (rID <$> last a) = (rID <$> last (List.filter (chainRow 0) (rows demo_swept))).
Proof.
  apply (audit_tamper_evident demo_swept (rows demo_log) demo_env (rows demo_swept) (MkVerify true 0 2 Intact)).
  - exact demo_swept_logged.
  - repeat constructor.
  - vm_compute. reflexivity.
  - reflexivity.
Defined.

Lemma audit_export_exact_witness :
  let get := fun k : string => if String.eqb k "actor" then " B%b "%string else if String.eqb k "status" then "2xx"%string else EmptyString in
  exists f, parseStreamFilter ascii_lower ascii_upper get = Ok f /\
    Stream (ToLower ascii_lower) ascii_lower demo_log f (fun acc e => Ok (E := unit) (acc ++ [e])) [] = Ok [].
Proof.
  intros get. eexists. split; [reflexivity|].
  rewrite (audit_export_exact (ToLower ascii_lower) ascii_lower ascii_upper get demo_log _ eq_refl). reflexivity.
Defined.

Lemma s3_mirror_accounts_witness :
  let e := MkEvent 0 "2026-01-01T00:00:00Z" "ann" "POST" "/servers" "alpha" 201 EmptyString EmptyString in
  let s := to_phase Finished (flushed (to_phase Draining (receive (fun _ => 100) (Enqueue (MkS3 Working [] [] 0 [] [] 0 0 0) e) e [] [])) [Transient; Stored]) in
  accounted [e] s /\ sSent s = 1.
Proof.
  intros e s. split; [|reflexivity].
  apply (s3_mirror_accounts (fun _ => 100) [e] s).
  eapply mirror_next; [eapply mirror_next; [eapply mirror_next; [eapply mirror_next; [apply mirror_init|]|]|]|].
  - apply (s3_enqueue _ [] _ e).
  - apply (s3_receive _ _ _ e [] []); reflexivity.
  - apply s3_stop. reflexivity.
  - apply (s3_finish _ [e] (to_phase Draining _) [Transient; Stored]). reflexivity.
Defined.

(** ** Where the guarantees end *)

(** Requests are stamped before the lock is taken, so two of them can be inserted
    in the other order.  A sweep whose cutoff falls between the two stamps deletes
    the newest row and keeps the one before it.  The next insert is chained to that
    row instead of the checkpoint, and [Verify] reports a break nobody caused; until
    then the kept row, being below the checkpoint, can be changed unnoticed. *)
Lemma audit_sweep_out_of_order :
  let d2 := (Prune demo_env demo_crossed "2026-01-02T00:00:01Z").2 in
  let forged := MkDB (map (fun r => MkRow (rID r) (rTS r) "mallory" (rMethod r) (rPath r) (rTarget r) (rStatus r) (rIP r)
                       (rReason r) (rPrev r) (rHash r)) (rows d2)) (nextID d2) (checkpointValue d2) (headValue d2) in
  length (rows d2) = 1%nat /\
  Verify demo_env forged = Ok (MkVerify true 0 0 Intact) /\
  Verify demo_env (demo_add d2 "2026-04-01T00:00:00Z" "cy") = Ok (MkVerify false 3 1 BrokenLink).
Proof. vm_compute. done. Qed.

(** A forged row without a hash is taken for one older than the chain. *)
Lemma audit_unhashed_row_accepted :
  let forged := MkRow 9 "2026-01-02T12:00:00Z" "ann" "DELETE" "/servers" None 200 None None None None in
  Verify demo_env (MkDB (rows demo_log ++ [forged]) 10 (checkpointValue demo_log) (headValue demo_log)) =
  Ok (MkVerify true 0 3 Intact) /\
  map eActor (Page (MkDB (rows demo_log ++ [forged]) 10 (checkpointValue demo_log) (headValue demo_log)) 2 0) = ["ann"; "cy"].
Proof. vm_compute. done. Qed.

(** A token never reaches the log. *)
Lemma share_token_redacted token rest : free_of "/"%char token = true ->
  redactShareToken ("/shares/" +:+ token) = "/shares/<token>" /\
  redactShareToken ("/shares/" +:+ token +:+ String "/"%char rest) = "/shares/<token>/" +:+ rest.
Proof.
  intros Hf. unfold redactShareToken.
  assert (Hp : forall t, HasPrefix ("/shares/" +:+ t) "/shares/" = true) by (by intros []).
  assert (Ht : forall t, TrimPrefix ("/shares/" +:+ t) "/shares/" = t) by (by intros []).
  rewrite !Hp, !Ht. cbn [negb]. split; (induction token as [|c t IH]; cbn in *; [done|]);
    apply andb_true_iff in Hf as [Hc Hf]; rewrite ?str_app_cons; cbn;
    destruct (Ascii.eqb c "/"%char); [done| |done|]; specialize (IH Hf);
    destruct (cut_at _ _) as [[[p s] q]|]; done.
Qed.
