(* ===== verification/Files.v ===== *)
(** * agent: the file browser

    src/agent/internal/files: the lexical checks of files.go, the descriptor walk
    of rooted_linux.go and the access metadata of access_linux.go.  An operation is
    a program of system calls ([prog]); what the kernel answers, and whatever else
    happens to the volume between two calls, is left to the semantics in which the
    program is run: [traces] (any answers a kernel may give, under interference) or
    [run] (a volume of one's own).  [sort.Slice] is a section variable. *)

From Stdlib Require Import Ascii.
From S2P Require Import Prelude GoText GoToken GoIO Prog.
Local Open Scope Z_scope.

Definition isEmptyStr (s : string) : bool := String.eqb s EmptyString.

(** ** Paths *)

Definition slash : ascii := "/"%char.

(** The elements of a path that [filepath.Clean] keeps, [..] aside. *)
Definition elements_of (p : string) : list string :=
  List.filter (fun c => negb (isEmptyStr c) && negb (String.eqb c ".")) (split_on slash p).

(** [..] removes the element before it; at the start it stays, except below [/]. *)
Fixpoint clean_elements (rooted : bool) (acc : list string) (l : list string) : list string :=
  match l with
  | [] => rev acc
  | c :: l =>
      if String.eqb c ".." then
        match acc with
        | [] => clean_elements rooted (if rooted then [] else [".."]) l
        | c' :: acc' => clean_elements rooted (if String.eqb c' ".." then c :: acc else acc') l
        end
      else clean_elements rooted (c :: acc) l
  end.

(** [filepath.Clean], [filepath.Join], [filepath.Rel], [filepath.Base]. *)
Definition Clean (p : string) : string :=
  let rooted := HasPrefix p "/" in
  let s := Join slash (clean_elements rooted [] (elements_of p)) in
  if rooted then String slash s else if isEmptyStr s then "." else s.
Definition JoinPath (l : list string) : string :=
  match List.filter (fun c => negb (isEmptyStr c)) l with
  | [] => EmptyString
  | l => Clean (Join slash l)
  end.
Fixpoint strip_common (a b : list string) : list string * list string :=
  match a, b with
  | x :: a', y :: b' => if String.eqb x y then strip_common a' b' else (a, b)
  | _, _ => (a, b)
  end.
Definition Rel (base targ : string) : option string :=
  let base := Clean base in
  let targ := Clean targ in
  if String.eqb base targ then Some "."
  else if negb (Bool.eqb (HasPrefix base "/") (HasPrefix targ "/")) then None
  else match strip_common (elements_of base) (elements_of targ) with
  | (".." :: _, _) => None
  | (bs, ts) => Some (Join slash (map (fun _ => "..") bs ++ ts))
  end%string.
Definition Base (p : string) : string :=
  if isEmptyStr p then "."
  else match List.filter (fun c => negb (isEmptyStr c)) (split_on slash p) with
  | [] => "/"
  | c :: l => List.last (c :: l) EmptyString
  end.

(** ** Errors *)

(** [EACCES] stands for the two codes of [os.ErrPermission]. *)
Inductive errno := ENOENT | EEXIST | ELOOP | ENOTDIR | EISDIR | EACCES | ENODATA | EOPNOTSUPP | OtherErrno.
#[export] Instance errno_eq_dec : EqDecision errno.
Proof. solve_decision. Defined.

(** The errors of the package by what [errors.Is] sees in them; [InBadPath] wraps
    another error. *)
Inductive fileErr :=
| errPathOutOfRoot | errLinkTraversal | errDotfile | errFileExists | errInvalidFilename
| errPreserveAccess (e : option errno) | errBadPath (e : fileErr) | ErrSys (e : errno)
| errTooLarge | errBody | errUnexpectedEOF | errOverLimit | errTooManyFiles | errMultipart.

Fixpoint is_errno (x : errno) (e : fileErr) : bool :=
  match e with
  | ErrSys y => bool_decide (x = y)
  | errPreserveAccess (Some y) => bool_decide (x = y)
  | errBadPath e => is_errno x e
  | _ => false
  end.
Definition is_badPath (e : fileErr) : bool := match e with errBadPath _ => true | _ => false end.
Definition is_outOfRoot (e : fileErr) : bool := match e with errPathOutOfRoot | errLinkTraversal => true | _ => false end.
Definition is_dotfile (e : fileErr) : bool := match e with errDotfile => true | _ => false end.

(** [httpErr] and [handler.fail], by status. *)
Definition httpErr (e : fileErr) : Z :=
  match e with
  | errTooLarge => 413
  | errFileExists => 409
  | errPreserveAccess _ => 409
  | _ => if is_errno ENOENT e then 404 else if is_errno EACCES e then 403 else 500
  end.
Definition fail (e : fileErr) : Z := if is_outOfRoot e || is_dotfile e || is_badPath e then 400 else httpErr e.

(** ** Lexical checks *)

(** [hasDotComponent] *)
Definition hasDotComponent (rel : string) : bool := HasPrefix rel "." || Contains rel "/.".

(** [relComponents] *)
Definition relComponents (root abs : string) : result fileErr (list string) :=
  match Rel root abs with
  | None => Err errPathOutOfRoot
  | Some rel =>
      if String.eqb rel ".." || HasPrefix rel "../" then Err errPathOutOfRoot
      else if String.eqb rel "." then Ok []
      else Ok (split_on slash rel)
  end.

(** [resolve] and [components] *)
Definition resolve (root rel : string) : result fileErr string :=
  let rel := TrimPrefix rel "/" in
  if isEmptyStr rel then Ok root
  else if hasDotComponent rel then Err errDotfile
  else
    let abs := JoinPath [root; Clean (String slash rel)] in
    if negb (HasPrefix abs (root +:+ "/")) && negb (String.eqb abs root) then Err errPathOutOfRoot
    else Ok abs.
Definition components (root rel : string) : result fileErr (list string) :=
  match resolve root rel with Ok p => relComponents root p | Err e => Err e end.

(** [parentsOf] and the last component *)
Definition parentsOf (comps : list string) : list string := removelast comps.
Definition lastOf (comps : list string) : string := List.last comps EmptyString.

(** [entryPath] *)
Definition entryPath (comps : list string) (name : string) : string := String slash (Join slash (comps ++ [name])).

(** ** System calls *)

(** A descriptor is the inode it refers to. *)
Abbreviation ino := Z.
Inductive kind := KDir | KReg | KLink | KOther.
#[export] Instance kind_eq_dec : EqDecision kind.
Proof. solve_decision. Defined.

(** The fields of [unix.Stat_t] the code looks at. *)
Record stat := MkStat {
  stKind : kind; stIno : ino; stMode : Z; stUid : Z; stGid : Z; stSize : Z; stMtim : Z; stCtim : Z; stDev : Z }.
#[export] Instance stat_eq_dec : EqDecision stat.
Proof. solve_decision. Defined.

(** [dirFlags], [fileFlags], O_PATH without following, and the exclusive create. *)
Inductive oflags := DirFlags | FileFlags | PathFlags | CreateExcl.

(** The calls, with the type of what a successful one returns. *)
Inductive sys : Type -> Type :=
| OpenRoot : sys ino
| Openat (dir : ino) (name : string) (flags : oflags) : sys ino
| Fstatat (dir : ino) (name : string) : sys stat
| Fstat (fd : ino) : sys stat
| Readlinkat (dir : ino) (name : string) : sys string
| Readdirnames (fd : ino) : sys (list string)
| Mkdirat (dir : ino) (name : string) : sys unit
| Unlinkat (dir : ino) (name : string) (rmdir : bool) : sys unit
| Renameat (dir : ino) (old new : string) (noreplace : bool) : sys unit
| ReadFile (fd : ino) : sys string
| Write (fd : ino) (data : string) : sys unit
| Sync (fd : ino) : sys unit
| Close (fd : ino) : sys unit
| Getxattr (fd : ino) : sys (list Z)
| Fsetxattr (fd : ino) (raw : list Z) : sys unit
| Fremovexattr (fd : ino) : sys unit
| Fchmod (fd : ino) (mode : Z) : sys unit
| Fchown (fd : ino) (gid : Z) : sys unit.

(** Programs of these calls. *)
Abbreviation prog := (Prog.prog sys errno).
Local Open Scope prog_scope.

(** A call whose errno is passed on. *)
Definition syscall {A} (s : sys A) : prog (result fileErr A) :=
  let! r := call s in Ret (map_err ErrSys r).

(** ** The descriptor walk *)

Section Walk.
Variable root : string.

(** [symlinkError]: the target is read only to choose the message. *)
Definition symlinkError (dir : ino) (parents : list string) (name : string) : prog fileErr :=
  let! r := call (Readlinkat dir name) in
  match r with
  | Err _ => Ret errLinkTraversal
  | Ok target =>
      if isEmptyStr target then Ret errLinkTraversal
      else
        let abs := if HasPrefix target "/" then Clean target else JoinPath [root; JoinPath parents; target] in
        match Rel root abs with
        | Some rel =>
            if negb (String.eqb rel ".") && negb (String.eqb rel "..") && negb (HasPrefix rel "../") && hasDotComponent rel
            then Ret errDotfile else Ret errLinkTraversal
        | None => Ret errLinkTraversal
        end
  end.

(** [openChild] *)
Definition openChild (dir : ino) (parents : list string) (name : string) (flags : oflags) : prog (result fileErr ino) :=
  let! r := call (Openat dir name flags) in
  match r with
  | Ok fd => Ret (Ok fd)
  | Err e =>
      if bool_decide (e = ELOOP) || bool_decide (e = ENOTDIR) then
        let! s := call (Fstatat dir name) in
        match s with
        | Ok st => if bool_decide (stKind st = KLink)
                   then let! x := symlinkError dir parents name in Ret (Err x)
                   else Ret (Err (ErrSys e))
        | Err _ => Ret (Err (ErrSys e))
        end
      else Ret (Err (ErrSys e))
  end.

(** The loop of [walkDirs], at [cur] below [parents]. *)
Fixpoint walkFrom (cur : ino) (parents comps : list string) (create target : bool) : prog (result fileErr ino) :=
  match comps with
  | [] => Ret (Ok cur)
  | name :: rest =>
      let! next := openChild cur parents name DirFlags in
      try! next :=
        match next with
        | Err oerr =>
            if is_errno ENOENT oerr && create then
              let! m := call (Mkdirat cur name) in
              match m with
              | Err merr => if bool_decide (merr = EEXIST)
                            then let! again := openChild cur parents name DirFlags in Ret (Ok again)
                            else Ret (Err (ErrSys merr))
              | Ok _ => let! again := openChild cur parents name DirFlags in Ret (Ok again)
              end
            else Ret (Ok (Err oerr))
        | Ok fd => Ret (Ok (Ok fd))
        end in
      match next with
      | Err oerr =>
          if is_errno ENOTDIR oerr && negb (target && bool_decide (rest = [])) then Ret (Err (errBadPath oerr))
          else Ret (Err oerr)
      | Ok fd => walkFrom fd (parents ++ [name]) rest create target
      end
  end.

(** [walkDirs] *)
Definition walkDirs (rootFD : ino) (comps : list string) (create target : bool) : prog (result fileErr ino) :=
  try! cur := syscall (Openat rootFD "." DirFlags) in
  walkFrom cur [] comps create target.

(** [locate] *)
Definition locate (rootFD : ino) (comps : list string) (create : bool) : prog (result fileErr (ino * string)) :=
  match comps with
  | [] => try! fd := walkDirs rootFD [] false false in Ret (Ok (fd, EmptyString))
  | _ => try! fd := walkDirs rootFD (parentsOf comps) create false in Ret (Ok (fd, lastOf comps))
  end.

(** [dirNames] *)
Definition dirNames (fd : ino) : prog (result fileErr (list string)) :=
  try! rd := syscall (Openat fd "." DirFlags) in
  try! names := syscall (Readdirnames rd) in
  Ret (Ok (merge_sort str_le names)).

(** [Entry]; the mode and the time are kept as numbers. *)
Record Entry := MkEntry { enName : string; enPath : string; enSize : Z; enMode : Z; enDir : bool; enModTime : Z }.

(** [listDir] *)
Fixpoint listEntries (dir : ino) (comps names : list string) : prog (list Entry) :=
  match names with
  | [] => Ret []
  | n :: names =>
      if HasPrefix n "." then listEntries dir comps names
      else
        let! r := call (Fstatat dir n) in
        match r with
        | Err _ => listEntries dir comps names
        | Ok st =>
            let! out := listEntries dir comps names in
            Ret (MkEntry n (entryPath comps n) (stSize st) (stMode st) (bool_decide (stKind st = KDir)) (stMtim st) :: out)
        end
  end.
Definition listDir (comps : list string) : prog (result fileErr (list Entry)) :=
  try! rootFD := syscall OpenRoot in
  try! (parentFD, name) := locate rootFD comps false in
  try! dirFD := (if isEmptyStr name then Ret (Ok parentFD) else openChild parentFD (parentsOf comps) name DirFlags) in
  try! names := dirNames dirFD in
  let! out := listEntries dirFD comps names in
  Ret (Ok out).

(** [openFile] *)
Definition openFile (comps : list string) : prog (result fileErr (ino * string)) :=
  try! rootFD := syscall OpenRoot in
  try! (parentFD, name) := locate rootFD comps false in
  let name := if isEmptyStr name then "." else name in
  try! fd := openChild parentFD (parentsOf comps) name FileFlags in
  Ret (Ok (fd, name)).

(** [makeDirs] *)
Definition makeDirs (comps : list string) : prog (result fileErr unit) :=
  try! rootFD := syscall OpenRoot in
  try! _ := walkDirs rootFD comps true true in
  Ret (Ok ()).
End Walk.

(** ** POSIX access lists (access_linux.go) *)

Definition aclUserObj : Z := 1.
Definition aclUser : Z := 2.
Definition aclGroupObj : Z := 4.
Definition aclGroup : Z := 8.
Definition aclMask : Z := 16.
Definition aclOther : Z := 32.
Definition aclUndefined : Z := 0xffffffff.

(** [aclEntry] *)
Record aclEntry := MkAcl { aTag : Z; aPerm : Z; aId : Z }.
#[export] Instance aclEntry_eq_dec : EqDecision aclEntry.
Proof. solve_decision. Defined.

Definition knownTag (t : Z) : bool :=
  (t =? aclUserObj) || (t =? aclUser) || (t =? aclGroupObj) || (t =? aclGroup) || (t =? aclMask) || (t =? aclOther).

(** The entries of [decodeACL], eight bytes each. *)
Fixpoint decodeEntries (raw : list Z) : option (list aclEntry) :=
  match raw with
  | [] => Some []
  | t0 :: t1 :: p0 :: p1 :: i0 :: i1 :: i2 :: i3 :: rest =>
      let e := MkAcl (le_u16 [t0; t1]) (le_u16 [p0; p1]) (le_u32 [i0; i1; i2; i3]) in
      if 7 <? aPerm e then None
      else if negb (knownTag (aTag e)) then None
      else match decodeEntries rest with Some es => Some (e :: es) | None => None end
  | _ => None
  end.

(** [decodeACL] and [encodeACL] *)
Definition decodeACL (raw : list Z) : option (list aclEntry) :=
  let n := Z.of_nat (length raw) in
  if (n <? 4) || negb ((n - 4) mod 8 =? 0) || negb (le_u32 (take 4 raw) =? 2) then None
  else decodeEntries (drop 4 raw).
Definition encodeEntry (e : aclEntry) : list Z := (le16 (aTag e) ++ le16 (aPerm e) ++ le32 (aId e))%list.
Definition encodeACL (es : list aclEntry) : list Z := (le32 2 ++ concat (map encodeEntry es))%list.

(** The order of [sort.Slice]. *)
Definition aclLess (a b : aclEntry) : bool :=
  if negb (aTag a =? aTag b) then aTag a <? aTag b else aId a <? aId b.

(** The permission bits of the owner, the group and the others. *)
Definition ownerPerm (mode : Z) : Z := Z.land (Z.shiftr mode 6) 7.
Definition groupPerm (mode : Z) : Z := Z.land (Z.shiftr mode 3) 7.
Definition otherPerm (mode : Z) : Z := Z.land mode 7.

Section Access.
Variable sortSlice : list aclEntry -> list aclEntry.

(** The last mask of a list, or all permissions. *)
Definition maskOf (es : list aclEntry) : Z :=
  foldl (fun m e => if aTag e =? aclMask then aPerm e else m) 7 es.

(** The loop of [replacementACL]: the entries kept, with their effective
    permissions, and the new mask. *)
Fixpoint replaceEntries (uid oldMask : Z) (es : list aclEntry) (mask : Z) : list aclEntry * Z :=
  match es with
  | [] => ([], mask)
  | e :: es =>
      if (aTag e =? aclMask) || ((aTag e =? aclUser) && (aId e =? uid)) then replaceEntries uid oldMask es mask
      else if (aTag e =? aclUser) || (aTag e =? aclGroup) || (aTag e =? aclGroupObj) then
        let perm := Z.land (aPerm e) oldMask in
        let '(out, m) := replaceEntries uid oldMask es (Z.lor mask perm) in
        (MkAcl (aTag e) perm (aId e) :: out, m)
      else let '(out, m) := replaceEntries uid oldMask es mask in (e :: out, m)
  end.

(** The entries of a mode without an access list. *)
Definition modeEntries (mode : Z) : list aclEntry :=
  [MkAcl aclUserObj (ownerPerm mode) aclUndefined; MkAcl aclGroupObj (groupPerm mode) aclUndefined;
   MkAcl aclOther (otherPerm mode) aclUndefined].

Definition replacedEntries (st : stat) (es : list aclEntry) (oldMask : Z) : list aclEntry :=
  let '(out, mask) := replaceEntries (stUid st) oldMask es (ownerPerm (stMode st)) in
  sortSlice (out ++ [MkAcl aclUser (ownerPerm (stMode st)) (stUid st); MkAcl aclMask mask aclUndefined]).

(** [replacementACL] *)
Definition replacementACL (st : stat) (raw : list Z) (newUID : Z) : option (list Z) :=
  if stUid st =? newUID then Some raw
  else if bool_decide (raw = []) then Some (encodeACL (replacedEntries st (modeEntries (stMode st)) 7))
  else match decodeACL raw with
  | None => None
  | Some es => Some (encodeACL (replacedEntries st es (maskOf es)))
  end.

(** [fileAccess] *)
Record fileAccess := MkAccess { faExists : bool; faStat : stat; faAcl : list Z }.
Definition zeroStat : stat := MkStat KOther 0 0 0 0 0 0 0 0.
Definition noAccess : fileAccess := MkAccess false zeroStat [].

(** [destAccess] *)
Definition destAccess (root : string) (dir : ino) (parents : list string) (name : string) : prog (result fileErr fileAccess) :=
  let! r := call (Openat dir name PathFlags) in
  match r with
  | Err e => if bool_decide (e = ENOENT) then Ret (Ok noAccess) else Ret (Err (ErrSys e))
  | Ok fd =>
      try! st := syscall (Fstat fd) in
      if bool_decide (stKind st = KLink) then let! x := symlinkError root dir parents name in Ret (Err x)
      else if negb (bool_decide (stKind st = KReg)) then Ret (Err (errPreserveAccess None))
      else
        let! n := call (Getxattr fd) in
        match n with
        | Err e => if bool_decide (e = ENODATA) || bool_decide (e = EOPNOTSUPP) then Ret (Ok (MkAccess true st []))
                   else Ret (Err (errPreserveAccess (Some e)))
        | Ok _ =>
            let! raw := call (Getxattr fd) in
            match raw with
            | Err e => Ret (Err (errPreserveAccess (Some e)))
            | Ok raw => Ret (Ok (MkAccess true st raw))
            end
        end
  end.

(** The end of [apply]: no access list, and the mode. *)
Definition applyMode (fd : ino) (mode : Z) : prog (result errno unit) :=
  let! r := call (Fremovexattr fd) in
  match r with
  | Err e => if bool_decide (e = ENODATA) || bool_decide (e = EOPNOTSUPP) then call (Fchmod fd mode) else Ret (Err e)
  | Ok _ => call (Fchmod fd mode)
  end.

(** [apply]: [EOPNOTSUPP] and the like stand for an access list that does not
    decode. *)
Definition apply_ (a : fileAccess) (fd : ino) : prog (result errno unit) :=
  if negb (faExists a) then applyMode fd 0x1a4
  else
    let mode := Z.land (stMode (faStat a)) 0x1ff in
    try! cur := call (Fstat fd) in
    try! _ := (if stGid cur =? stGid (faStat a) then Ret (Ok ()) else call (Fchown fd (stGid (faStat a)))) in
    match replacementACL (faStat a) (faAcl a) (stUid cur) with
    | None => Ret (Err OtherErrno)
    | Some raw =>
        try! _ := call (Fchmod fd mode) in
        if bool_decide (raw = []) then applyMode fd mode else call (Fsetxattr fd raw)
    end.

(** [unchanged] *)
Definition unchanged (a : fileAccess) (dir : ino) (name : string) : prog bool :=
  let! r := call (Fstatat dir name) in
  match r with
  | Err e => Ret (if bool_decide (e = ENOENT) then negb (faExists a) else false)
  | Ok st =>
      if bool_decide (stKind st = KLink) then Ret true
      else Ret (faExists a && (stDev st =? stDev (faStat a)) && (stIno st =? stIno (faStat a)) && (stCtim st =? stCtim (faStat a)) &&
                (stUid st =? stUid (faStat a)) && (stGid st =? stGid (faStat a)) && (stMode st =? stMode (faStat a)))
  end.
End Access.

(** ** Storing *)

(** A request body as it arrives: data, or the error that ends it. *)
Inductive chunk := Data (s : string) | Fails (e : fileErr).
Definition len (s : string) : Z := Z.of_nat (String.length s).
Definition takeStr (n : Z) (s : string) : string := String.substring 0 (Z.to_nat n) s.

(** [http.MaxBytesReader] *)
Fixpoint maxBytes (n : Z) (body : list chunk) : list chunk :=
  match body with
  | [] => []
  | Fails e :: _ => [Fails e]
  | Data s :: body => if len s <=? n then Data s :: maxBytes (n - len s) body
                      else [Data (takeStr n s); Fails errTooLarge]
  end.
(** [io.LimitReader] *)
Fixpoint limitReader (n : Z) (body : list chunk) : list chunk :=
  match body with
  | [] => []
  | Fails e :: _ => if n <=? 0 then [] else [Fails e]
  | Data s :: body => if n <=? 0 then [] else if len s <=? n then Data s :: limitReader (n - len s) body
                      else [Data (takeStr n s)]
  end.
(** [io.Copy] into a file: the bytes written. *)
Fixpoint copyBody (fd : ino) (n : Z) (body : list chunk) : prog (result fileErr Z) :=
  match body with
  | [] => Ret (Ok n)
  | Fails e :: _ => Ret (Err e)
  | Data s :: body => try! _ := syscall (Write fd s) in copyBody fd (n + len s) body
  end.

Inductive storeMode := storeReplace | storeCreate.

Section Store.
Variables (root : string) (sortSlice : list aclEntry -> list aclEntry).

(** [createTemp], with the random names it draws. *)
Fixpoint createTempFrom (dir : ino) (prefix : string) (rands : list string) : prog (result fileErr (ino * string)) :=
  match rands with
  | [] => Ret (Err (ErrSys EEXIST))
  | r :: rands =>
      let name := prefix +:+ r in
      let! x := call (Openat dir name CreateExcl) in
      match x with
      | Ok fd => Ret (Ok (fd, name))
      | Err e => if bool_decide (e = EEXIST) then createTempFrom dir prefix rands else Ret (Err (ErrSys e))
      end
  end.
Definition createTemp (dir : ino) (prefix : string) (rands : list string) : prog (result fileErr (ino * string)) :=
  createTempFrom dir prefix (take 16 rands).

(** [abort]: the temporary file is closed and removed, the errors ignored. *)
Definition abort_ (fd dir : ino) (tmpName : string) (cause : fileErr) : prog (result fileErr unit) :=
  let! _ := call (Close fd) in
  let! _ := call (Unlinkat dir tmpName false) in
  Ret (Err cause).

(** What is known of the destination before anything is copied. *)
Definition probeDest (dir : ino) (parents : list string) (name : string) (mode : storeMode) : prog (result fileErr fileAccess) :=
  match mode with
  | storeCreate =>
      let! r := call (Fstatat dir name) in
      match r with
      | Ok _ => Ret (Err errFileExists)
      | Err e => if bool_decide (e = ENOENT) then Ret (Ok noAccess) else Ret (Err (ErrSys e))
      end
  | storeReplace => destAccess root dir parents name
  end.

(** The last step of [storeFile]: the temporary file takes its name. *)
Definition commitFile (fd dir : ino) (tmpName name : string) (mode : storeMode) (access : fileAccess) : prog (result fileErr unit) :=
  match mode with
  | storeCreate =>
      let! r := call (Renameat dir tmpName name true) in
      match r with
      | Ok _ => Ret (Ok ())
      | Err e => abort_ fd dir tmpName (if bool_decide (e = EEXIST) then errFileExists else ErrSys e)
      end
  | storeReplace =>
      let! same := unchanged access dir name in
      if negb same then abort_ fd dir tmpName (errPreserveAccess None)
      else
        let! r := call (Renameat dir tmpName name false) in
        match r with
        | Ok _ => Ret (Ok ())
        | Err e => abort_ fd dir tmpName (ErrSys e)
        end
  end.

(** [storeFile] *)
Definition storeFile (dir : ino) (parents : list string) (name prefix : string) (mode : storeMode)
    (rands : list string) (fill : ino -> prog (result fileErr unit)) : prog (result fileErr unit) :=
  try! access := probeDest dir parents name mode in
  try! (fd, tmpName) := createTemp dir prefix rands in
  let! r := fill fd in
  match r with
  | Err e => abort_ fd dir tmpName e
  | Ok _ =>
      let! r := apply_ sortSlice access fd in
      match r with
      | Err e => abort_ fd dir tmpName (errPreserveAccess (Some e))
      | Ok _ =>
          let! r := call (Sync fd) in
          match r with
          | Err e => abort_ fd dir tmpName (ErrSys e)
          | Ok _ =>
              let! r := call (Close fd) in
              match r with
              | Err e => abort_ fd dir tmpName (ErrSys e)
              | Ok _ => commitFile fd dir tmpName name mode access
              end
          end
      end
  end.

(** [storeIn], [writeFile], [createFile] *)
Definition storeIn (comps : list string) (name prefix : string) (create : bool) (mode : storeMode)
    (rands : list string) (fill : ino -> prog (result fileErr unit)) : prog (result fileErr unit) :=
  try! rootFD := syscall OpenRoot in
  try! dirFD := walkDirs root rootFD comps create false in
  storeFile dirFD comps name prefix mode rands fill.
Definition writeFile (comps rands : list string) (fill : ino -> prog (result fileErr unit)) : prog (result fileErr unit) :=
  match comps with
  | [] => Ret (Err (ErrSys EISDIR))
  | _ => storeIn (parentsOf comps) (lastOf comps) ".write-" true storeReplace rands fill
  end.
Definition createFile (comps rands : list string) (fill : ino -> prog (result fileErr unit)) : prog (result fileErr unit) :=
  match comps with
  | [] => Ret (Err errFileExists)
  | _ => storeIn (parentsOf comps) (lastOf comps) ".create-" true storeCreate rands fill
  end.

(** [storePart] *)
Definition storePart (comps : list string) (filename : string) (rands : list string) (body : list chunk) (limit : Z)
  : prog (result fileErr unit) :=
  let name := Base filename in
  if String.eqb name "." || String.eqb name ".." || String.eqb name "/" then Ret (Err errInvalidFilename)
  else if HasPrefix name "." then Ret (Err errDotfile)
  else storeIn comps name ".upload-" false storeReplace rands
         (fun fd => try! n := copyBody fd 0 (limitReader (limit + 1) body) in
                    Ret (if limit <? n then Err errOverLimit else Ok ())).

(** ** Deleting *)

(** [removeEntry] *)
Definition removeEntry (dir : ino) (name : string) : prog (result fileErr unit) :=
  let! u := call (Unlinkat dir name false) in
  match u with
  | Ok _ => Ret (Ok ())
  | Err uerr =>
      let! r := call (Unlinkat dir name true) in
      match r with
      | Ok _ => Ret (Ok ())
      | Err rerr => Ret (Err (ErrSys (if bool_decide (rerr = ENOTDIR) then uerr else rerr)))
      end
  end.

(** [checkNoDotAt]; the loop over the names of a directory is [checkNames]. *)
Fixpoint checkNames (check : string -> prog (result fileErr unit)) (names : list string) : prog (result fileErr unit) :=
  match names with
  | [] => Ret (Ok ())
  | n :: names => if HasPrefix n "." then Ret (Err errDotfile) else try! _ := check n in checkNames check names
  end.
Fixpoint checkNoDotAt (fuel : nat) (dir : ino) (parents : list string) (name : string) : prog (result fileErr unit) :=
  match fuel with
  | O => OutOfFuel
  | S fuel =>
      let! r := call (Fstatat dir name) in
      match r with
      | Err e => if bool_decide (e = ENOENT) then Ret (Ok ()) else Ret (Err (ErrSys e))
      | Ok st =>
          if negb (bool_decide (stKind st = KDir)) then Ret (Ok ())
          else
            try! fd := openChild root dir parents name DirFlags in
            try! names := dirNames fd in
            checkNames (checkNoDotAt fuel fd (parents ++ [name])) names
      end
  end.

(** [removeTree]; [removeChildren] is [checkNames] over it. *)
Definition removeDone (r : result errno unit) : result fileErr unit :=
  match r with Err e => if bool_decide (e = ENOENT) then Ok () else Err (ErrSys e) | Ok _ => Ok () end.
Fixpoint removeTree (fuel : nat) (dir : ino) (parents : list string) (name : string) : prog (result fileErr unit) :=
  match fuel with
  | O => OutOfFuel
  | S fuel =>
      let! r := call (Fstatat dir name) in
      match r with
      | Err e => if bool_decide (e = ENOENT) then Ret (Ok ()) else Ret (Err (ErrSys e))
      | Ok st =>
          if negb (bool_decide (stKind st = KDir)) then
            let! u := call (Unlinkat dir name false) in Ret (removeDone u)
          else
            try! fd := openChild root dir parents name DirFlags in
            try! _ := (try! names := dirNames fd in checkNames (removeTree fuel fd (parents ++ [name])) names) in
            let! u := call (Unlinkat dir name true) in Ret (removeDone u)
      end
  end.

(** [removePath] *)
Definition removePath (fuel : nat) (comps : list string) (recursive : bool) : prog (result fileErr unit) :=
  try! rootFD := syscall OpenRoot in
  let! l := locate root rootFD comps false in
  match l with
  | Err e => Ret (Err (if is_errno ENOENT e then errBadPath e else e))
  | Ok (parentFD, name) =>
      let parents := parentsOf comps in
      if negb recursive then removeEntry parentFD name
      else try! _ := checkNoDotAt fuel parentFD parents name in removeTree fuel parentFD parents name
  end.

(** ** Handlers *)

Inductive response := Listing (l : list Entry) | Content (name data : string) | Status_ (code : Z).

Definition maxRead : Z := 2 * 2 ^ 20.
Definition maxWriteBytes : Z := 64 * 2 ^ 20.
Definition maxUploadFileBytes : Z := 64 * 2 ^ 20.
Definition maxUploadFiles : Z := 64.

Definition respond {A} (f : A -> response) (p : prog (result fileErr A)) : prog response :=
  let! r := p in Ret (match r with Ok a => f a | Err e => Status_ (fail e) end).

(** The path of a request, checked. *)
Definition withPath (rel : string) (k : list string -> prog response) : prog response :=
  match components root rel with Err e => Ret (Status_ (fail e)) | Ok comps => k comps end.

(** [list], [read], [download] *)
Definition list_ (rel : string) : prog response := withPath rel (fun comps => respond Listing (listDir root comps)).
Definition readOrDownload (limited : bool) (rel : string) : prog response :=
  withPath rel (fun comps =>
    let! f := openFile root comps in
    match f with
    | Err e => Ret (Status_ (fail e))
    | Ok (fd, name) =>
        let! st := call (Fstat fd) in
        match st with
        | Err e => Ret (Status_ (httpErr (ErrSys e)))
        | Ok st =>
            if bool_decide (stKind st = KDir) then Ret (Status_ 400)
            else if limited && (maxRead <? stSize st) then Ret (Status_ 413)
            else
              let! d := call (ReadFile fd) in
              Ret (match d with Ok d => Content name d | Err _ => Status_ 500 end)
        end
    end).
Definition read (rel : string) : prog response := readOrDownload true rel.
Definition download (rel : string) : prog response := readOrDownload false rel.

(** [storeRequest]: [write] and [create]. *)
Definition storeRequest (rel : string) (createOnly : bool) (rands : list string) (body : list chunk) : prog response :=
  withPath rel (fun comps =>
    let fill fd := try! _ := copyBody fd 0 (maxBytes maxWriteBytes body) in Ret (Ok ()) in
    respond (fun _ => Status_ 204) ((if createOnly then createFile else writeFile) comps rands fill)).
Definition write (rel : string) (rands : list string) (body : list chunk) : prog response := storeRequest rel false rands body.
Definition create (rel : string) (rands : list string) (body : list chunk) : prog response := storeRequest rel true rands body.

(** [upload]: the parts of the form (a file name, empty for a plain field, and a
    body), and how the form ends. *)
Inductive formEnd := FormEOF | FormTruncated | FormError.
Fixpoint uploadParts (comps : list string) (parts : list (string * list string * list chunk)) (ending : formEnd)
    (count : Z) : prog (result Z unit) :=
  match parts with
  | [] => Ret (match ending with FormEOF => Ok () | _ => Err 400 end)
  | (filename, rands, body) :: parts =>
      if isEmptyStr filename then uploadParts comps parts ending count
      else if maxUploadFiles <? count + 1 then Ret (Err 400)
      else
        let! r := storePart comps filename rands body maxUploadFileBytes in
        match r with
        | Err errUnexpectedEOF => Ret (Err 400)
        | Err e => Ret (Err (fail e))
        | Ok _ => uploadParts comps parts ending (count + 1)
        end
  end.
Definition upload (rel : string) (isForm : bool) (contentLength : Z) (parts : list (string * list string * list chunk))
    (ending : formEnd) : prog response :=
  if negb isForm then Ret (Status_ 400)
  else withPath rel (fun comps =>
    let! m := makeDirs root comps in
    match m with
    | Err e => Ret (Status_ (fail e))
    | Ok _ =>
        let! r := uploadParts comps parts ending 0 in
        Ret (Status_ (match r with
                      | Err code => code
                      | Ok _ => if bool_decide (parts = []) && (0 <? contentLength) then 400 else 204
                      end))
    end).

(** [mkdir], [del] *)
Definition mkdir (rel : string) : prog response :=
  withPath rel (fun comps => respond (fun _ => Status_ 204) (makeDirs root comps)).
Definition del (fuel : nat) (rel : string) (recursive : bool) : prog response :=
  withPath rel (fun comps =>
    match comps with
    | [] => Ret (Status_ 400)
    | _ => respond (fun _ => Status_ 204) (removePath fuel comps recursive)
    end).
End Store.
