(* ===== verification/Volume.v ===== *)
(** * A volume and its kernel

    The part of a Linux file system that src/agent/internal/files relies on:
    inodes with their entries, the calls of [Files.sys] on them, and two ways to
    run a program: alone ([run]), or beside others that change the volume between
    any two of its calls while every call may fail ([step]).  What the kernel does
    with names of more than one component is left open. *)

From Stdlib Require Import Ascii.
From S2P Require Import Prelude GoText GoToken GoIO Prog Files.
Local Open Scope Z_scope.

Inductive node := NDir (es : gmap string ino) | NFile (data : string) | NLink (target : string) | NSpecial.
Record inode := MkInode { iNode : node; iMode : Z; iUid : Z; iGid : Z; iMtim : Z; iCtim : Z; iAcl : list Z }.
Abbreviation fs := (gmap ino inode).

(** The device of the volume, which is one file system. *)
Definition volumeDev : Z := 1.

Section Kernel.
(** The root of the data volume, the identity of the agent, a free inode number,
    the time, and the resolution of other names. *)
Variables (rootIno : ino) (agentUid agentGid : Z) (alloc : fs -> ino) (now : fs -> Z)
  (elsewhere : fs -> ino -> string -> option ino).

Definition kindOf (n : node) : kind :=
  match n with NDir _ => KDir | NFile _ => KReg | NLink _ => KLink | NSpecial => KOther end.
Definition nodeSize (n : node) : Z :=
  match n with NFile d => len d | NLink t => len t | _ => 0 end.
Definition statOf (i : ino) (x : inode) : stat :=
  MkStat (kindOf (iNode x)) i (iMode x) (iUid x) (iGid x) (nodeSize (iNode x)) (iMtim x) (iCtim x) volumeDev.

Definition entries (f : fs) (dir : ino) : option (gmap string ino) :=
  match f !! dir with Some x => match iNode x with NDir es => Some es | _ => None end | None => None end.

(** A name of one component. *)
Definition oneComponent (name : string) : bool :=
  negb (isEmptyStr name) && free_of slash name && negb (String.eqb name "..").

(** The inode a name refers to, a link at the end not followed. *)
Definition child (f : fs) (dir : ino) (name : string) : option ino :=
  if String.eqb name "." then Some dir
  else if oneComponent name then match entries f dir with Some es => es !! name | None => None end
  else elsewhere f dir name.

Definition with_node (x : inode) (n : node) : inode := MkInode n (iMode x) (iUid x) (iGid x) (iMtim x) (iCtim x) (iAcl x).
(** The directory [dir] with other entries. *)
Definition set_entries (f : fs) (dir : ino) (es : gmap string ino) : fs :=
  match f !! dir with Some x => <[dir := with_node x (NDir es)]> f | None => f end.
(** A new inode as an entry of [dir]. *)
Definition add_entry (f : fs) (dir : ino) (es : gmap string ino) (name : string) (n : node) (mode : Z) : fs :=
  let i := alloc f in
  <[i := MkInode n mode agentUid agentGid (now f) (now f) []]> (set_entries f dir (<[name := i]> es)).

Definition openat (f : fs) (dir : ino) (name : string) (flags : oflags) : result errno ino * fs :=
  match flags with
  | CreateExcl =>
      match entries f dir with
      | None => (Err ENOTDIR, f)
      | Some es =>
          match child f dir name with
          | Some _ => (Err EEXIST, f)
          | None => if oneComponent name then (Ok (alloc f), add_entry f dir es name (NFile EmptyString) 0x180) else (Err OtherErrno, f)
          end
      end
  | _ =>
      match child f dir name with
      | None => (Err ENOENT, f)
      | Some i =>
          match f !! i with
          | None => (Err ENOENT, f)
          | Some x =>
              match flags, iNode x with
              | DirFlags, NDir _ => (Ok i, f)
              | DirFlags, _ => (Err ENOTDIR, f)
              | FileFlags, NLink _ => (Err ELOOP, f)
              | _, _ => (Ok i, f)
              end
          end
      end
  end.

Definition with_inode (f : fs) (i : ino) {B} (g : inode -> result errno B * fs) : result errno B * fs :=
  match f !! i with Some x => g x | None => (Err ENOENT, f) end.
Definition update (f : fs) (i : ino) (g : inode -> inode) : result errno unit * fs :=
  with_inode f i (fun x => (Ok (), <[i := g x]> f)).

(** The calls on a volume where nothing fails without a reason. *)
Definition sysStep {B} (f : fs) (s : sys B) : result errno B * fs :=
  match s in sys B return result errno B * fs with
  | OpenRoot => (Ok rootIno, f)
  | Openat dir name flags => openat f dir name flags
  | Fstatat dir name =>
      match child f dir name with
      | None => (Err ENOENT, f)
      | Some i => with_inode f i (fun x => (Ok (statOf i x), f))
      end
  | Fstat fd => with_inode f fd (fun x => (Ok (statOf fd x), f))
  | Readlinkat dir name =>
      match child f dir name with
      | None => (Err ENOENT, f)
      | Some i => with_inode f i (fun x => match iNode x with NLink t => (Ok t, f) | _ => (Err OtherErrno, f) end)
      end
  | Readdirnames fd =>
      match entries f fd with Some es => (Ok (elements (dom es)), f) | None => (Err ENOTDIR, f) end
  | Mkdirat dir name =>
      match entries f dir with
      | None => (Err ENOTDIR, f)
      | Some es =>
          match child f dir name with
          | Some _ => (Err EEXIST, f)
          | None => if oneComponent name then (Ok (), add_entry f dir es name (NDir ∅) 0x1ed) else (Err OtherErrno, f)
          end
      end
  | Unlinkat dir name rmdir =>
      match entries f dir, child f dir name with
      | Some es, Some i =>
          with_inode f i (fun x =>
            match iNode x, rmdir with
            | NDir es', true => if bool_decide (es' = ∅) then (Ok (), set_entries f dir (delete name es)) else (Err OtherErrno, f)
            | NDir _, false => (Err EISDIR, f)
            | _, true => (Err ENOTDIR, f)
            | _, false => (Ok (), set_entries f dir (delete name es))
            end)
      | Some _, None => (Err ENOENT, f)
      | None, _ => (Err ENOTDIR, f)
      end
  | Renameat dir old new noreplace =>
      match entries f dir, child f dir old with
      | Some es, Some i =>
          match child f dir new with
          | Some j =>
              if noreplace then (Err EEXIST, f)
              else with_inode f j (fun x =>
                match iNode x with
                | NDir _ => (Err EISDIR, f)
                | _ => (Ok (), set_entries f dir (<[new := i]> (delete old es)))
                end)
          | None => if oneComponent new then (Ok (), set_entries f dir (<[new := i]> (delete old es))) else (Err OtherErrno, f)
          end
      | Some _, None => (Err ENOENT, f)
      | None, _ => (Err ENOTDIR, f)
      end
  | ReadFile fd => with_inode f fd (fun x => match iNode x with NFile d => (Ok d, f) | _ => (Err EISDIR, f) end)
  | Write fd data =>
      with_inode f fd (fun x => match iNode x with
                                | NFile d => (Ok (), <[fd := with_node x (NFile (d +:+ data))]> f)
                                | _ => (Err OtherErrno, f)
                                end)
  | Sync fd | Close fd => (Ok (), f)
  | Getxattr fd => with_inode f fd (fun x => match iAcl x with [] => (Err ENODATA, f) | acl => (Ok acl, f) end)
  | Fsetxattr fd raw => update f fd (fun x => MkInode (iNode x) (iMode x) (iUid x) (iGid x) (iMtim x) (iCtim x) raw)
  | Fremovexattr fd => update f fd (fun x => MkInode (iNode x) (iMode x) (iUid x) (iGid x) (iMtim x) (iCtim x) [])
  | Fchmod fd mode => update f fd (fun x => MkInode (iNode x) mode (iUid x) (iGid x) (iMtim x) (iCtim x) (iAcl x))
  | Fchown fd gid => update f fd (fun x => MkInode (iNode x) (iMode x) (iUid x) gid (iMtim x) (iCtim x) (iAcl x))
  end.

(** A program alone on its volume. *)
Fixpoint run {A} (p : prog A) (f : fs) : option (A * fs) :=
  match p with
  | Ret a => Some (a, f)
  | Call s k => let '(r, f') := sysStep f s in run (k r) f'
  | OutOfFuel => None
  end.

(** What a call that reports an error may have done: nothing, or for a write a
    part of it. *)
Definition partial {B} (f : fs) (s : sys B) (f' : fs) : Prop :=
  f' = f \/
  match s with
  | Write fd data => exists data', f' = (sysStep f (Write fd data')).2
  | _ => False
  end.

(** One call, as the kernel may answer it. *)
Definition kernelStep {B} (f : fs) (s : sys B) (r : result errno B) (f' : fs) : Prop :=
  sysStep f s = (r, f') \/ exists e, r = Err e /\ partial f s f'.

(** A volume: what is below a directory inside is inside, under an entry name. *)
Definition volume (inside : ino -> Prop) (f : fs) : Prop :=
  forall dir es name i, inside dir -> entries f dir = Some es -> es !! name = Some i -> inside i /\ oneComponent name = true.

(** A program beside others: they leave a volume behind, and nothing else is
    known of what they do. *)
Inductive step {A} (inside : ino -> Prop) : fs * prog A -> fs * prog A -> Prop :=
| step_agent {B} f (s : sys B) k r f' : kernelStep f s r f' -> step inside (f, Call s k) (f', k r)
| step_others f f' p : volume inside f' -> step inside (f, p) (f', p).
End Kernel.
