(* ===== verification/FilesFacts.v ===== *)
(** * What the file browser promises: confinement

    The components that pass the lexical checks are plain names; a program that
    only uses plain names below descriptors it was given never leaves the volume,
    whatever happens to the volume between its calls. *)

From Stdlib Require Import Ascii.
From stdpp Require Import relations.
From S2P Require Import Prelude GoText GoToken GoIO Prog Files Volume.
Local Open Scope Z_scope.

(** ** Paths *)

(** A name of one directory entry. *)
Definition entryName (c : string) : bool := negb (isEmptyStr c) && free_of slash c.
(** An entry name that does not start with a dot. *)
Definition plain (c : string) : bool := entryName c && negb (HasPrefix c ".").
(** An element [filepath.Clean] keeps as it is. *)
Definition okElem (c : string) : bool := entryName c && negb (String.eqb c ".") && negb (String.eqb c "..").
(** A clean absolute path below [/]. *)
Definition absPath (l : list string) : string := String slash (Join slash l).
Definition rootOk (root : string) : Prop := exists l, l <> [] /\ Forall (fun c => okElem c = true) l /\ root = absPath l.

Lemma plain_ok c : plain c = true -> okElem c = true.
Proof.
  unfold plain, okElem. rewrite !andb_true_iff, !negb_true_iff. intros [He Hp]. split_and!; [done|..]; apply String.eqb_neq; by intros ->.
Qed.

Lemma split_elem_free c s x : x ∈ split_on c s -> free_of c x = true.
Proof.
  revert x. induction s as [|d s IH]; intros x; cbn [split_on]; [intros ->%list_elem_of_singleton; done|].
  pose proof (split_on_ne c s). destruct (split_on c s) as [|w ws]; [done|]. destruct (Ascii.eqb_spec d c) as [->|Hd].
  - intros [->|Hx]%elem_of_cons; [done|by apply IH].
  - intros [->|Hx]%elem_of_cons; [|apply IH; by right]. cbn. rewrite (proj2 (Ascii.eqb_neq _ _) Hd). apply IH. by left.
Qed.

Lemma elements_app a b : elements_of (a +:+ String slash b) = elements_of a ++ elements_of b.
Proof. unfold elements_of. by rewrite split_on_app, List.filter_app. Qed.

Lemma okElem_inv c : okElem c = true -> c <> EmptyString /\ free_of slash c = true /\ c <> "." /\ c <> "..".
Proof.
  unfold okElem, entryName, isEmptyStr. rewrite !andb_true_iff, !negb_true_iff, !String.eqb_neq. tauto.
Qed.

Lemma filter_all {A} (f : A -> bool) l : Forall (fun x => f x = true) l -> List.filter f l = l.
Proof. induction 1 as [|x l Hx _ IH]; [done|]. cbn. by rewrite Hx, IH. Qed.

Lemma elements_abs l : l <> [] -> Forall (fun c => okElem c = true) l -> elements_of (absPath l) = l.
Proof.
  intros Hne Hl. unfold absPath. change (String slash (Join slash l)) with (EmptyString +:+ String slash (Join slash l)).
  rewrite elements_app. unfold elements_of. cbn [split_on List.filter isEmptyStr String.eqb negb andb app].
  rewrite split_on_Join; [|done|].
  - apply filter_all. eapply Forall_impl; [exact Hl|]. intros c (H1 & _ & H2 & _)%okElem_inv.
    unfold isEmptyStr. by rewrite (proj2 (String.eqb_neq _ _) H1), (proj2 (String.eqb_neq _ _) H2).
  - apply Forall_forall. intros c Hc. rewrite Forall_forall in Hl. by apply okElem_inv, Hl.
Qed.

Lemma clean_elements_id r acc l : Forall (fun c => c <> "..") l -> clean_elements r acc l = rev acc ++ l.
Proof.
  intros Hl. revert acc. induction Hl as [|c l Hc _ IH]; intros acc; cbn; [by rewrite app_nil_r|].
  rewrite (proj2 (String.eqb_neq _ _) Hc), IH. cbn. by rewrite <- app_assoc.
Qed.

(** [Clean] of a rooted path whose elements have no [..]. *)
Lemma Clean_rooted p : HasPrefix p "/" = true -> Forall (fun c => c <> "..") (elements_of p) ->
  Clean p = absPath (elements_of p).
Proof. intros Hp Hl. unfold Clean, absPath. by rewrite Hp, clean_elements_id. Qed.

Lemma abs_rooted l : HasPrefix (absPath l) "/" = true.
Proof. unfold absPath, HasPrefix. cbn. by destruct (Join slash l). Qed.

Lemma okElem_dots l : Forall (fun c => okElem c = true) l -> Forall (fun c => c <> "..") l.
Proof. intros Hl. eapply Forall_impl; [exact Hl|]. intros c Hc%okElem_inv. tauto. Qed.

Lemma Clean_abs l : l <> [] -> Forall (fun c => okElem c = true) l -> Clean (absPath l) = absPath l.
Proof.
  intros Hne Hl. rewrite Clean_rooted, elements_abs; [done|done|done|apply abs_rooted|].
  rewrite elements_abs by done. by apply okElem_dots.
Qed.

Lemma dot_elements s : Contains s "/." = false -> exists w ws, split_on slash s = w :: ws /\
  HasPrefix w "." = HasPrefix s "." /\ Forall (fun x => HasPrefix x "." = false) ws.
Proof.
  induction s as [|c s IH]; intros Hc; [by exists EmptyString, []|].
  cbn [Contains] in Hc. apply orb_false_iff in Hc as [Hp Hc]. destruct (IH Hc) as (w & ws & E & Hw & Hws).
  cbn [split_on]. rewrite E. destruct (Ascii.eqb_spec c slash) as [->|Hn].
  - exists EmptyString, (w :: ws). split_and!; [done|done|]. constructor; [|done]. rewrite Hw.
    unfold HasPrefix in *. cbn [String.prefix] in Hp. destruct s as [|d s]; [done|]. cbn [String.prefix] in *.
    destruct (ascii_dec slash slash); [|done]. by destruct (ascii_dec "." d).
  - exists (String c w), ws. split_and!; [done| |done]. unfold HasPrefix. cbn [String.prefix]. destruct (ascii_dec "." c); [|done]. by destruct w, s.
Qed.

Lemma plain_elements s : hasDotComponent s = false -> Forall (fun c => plain c = true) (elements_of s).
Proof.
  unfold hasDotComponent. intros [Hp Hc]%orb_false_iff. destruct (dot_elements s Hc) as (w & ws & E & Hw & Hws).
  apply Forall_forall. intros x Hx. unfold elements_of in Hx.
  apply list_elem_of_In, List.filter_In in Hx as [Hx%list_elem_of_In Hne].
  apply andb_true_iff in Hne as [Hne _]. unfold plain, entryName. rewrite Hne, (split_elem_free slash s x Hx). cbn.
  rewrite E in Hx. apply elem_of_cons in Hx as [->|Hx]; [by rewrite Hw, Hp|].
  rewrite Forall_forall in Hws. by rewrite (Hws x Hx).
Qed.

Lemma strip_common_app a b : strip_common a (a ++ b) = ([], b).
Proof. induction a as [|x a IH]; [by destruct b|]. cbn. by rewrite String.eqb_refl, IH. Qed.

Lemma absPath_inj a b : a <> [] -> b <> [] -> Forall (fun c => okElem c = true) a -> Forall (fun c => okElem c = true) b ->
  absPath a = absPath b -> a = b.
Proof. intros Ha Hb Fa Fb E. rewrite <- (elements_abs a), <- (elements_abs b) by done. by rewrite E. Qed.

(** The path of a request, below a root. *)
Lemma relComponents_below root l e : l <> [] -> Forall (fun c => okElem c = true) l -> root = absPath l ->
  Forall (fun c => plain c = true) e -> relComponents root (absPath (l ++ e)) = Ok e.
Proof.
  intros Hne Hl -> He. unfold relComponents, Rel.
  assert (Hle : l ++ e <> []) by (by destruct l).
  assert (Hok : Forall (fun c => okElem c = true) (l ++ e)).
  { apply Forall_app. split; [done|]. eapply Forall_impl; [exact He|]. apply plain_ok. }
  rewrite !Clean_abs by done. destruct (String.eqb_spec (absPath l) (absPath (l ++ e))) as [E|E].
  { apply absPath_inj in E; [|done..]. destruct e; [done|]. apply (f_equal length) in E. rewrite length_app in E. cbn in E. lia. }
  rewrite !abs_rooted. cbn [Bool.eqb negb]. rewrite !elements_abs, strip_common_app by done. cbn [map app].
  destruct e as [|x e]; [by rewrite app_nil_r in E|].
  assert (Hsp : split_on slash (Join slash (x :: e)) = x :: e).
  { apply split_on_Join; [done|]. eapply Forall_impl; [exact He|]. intros c Hc%plain_ok%okElem_inv. tauto. }
  assert (Hx : plain x = true) by (by apply Forall_inv in He).
  assert (Hdot : HasPrefix (Join slash (x :: e)) "." = false).
  { unfold plain, entryName in Hx. rewrite !andb_true_iff, !negb_true_iff in Hx. destruct Hx as [[Hx1 _] Hx2].
    destruct x as [|c x]; [done|]. revert Hx2. unfold HasPrefix. destruct e as [|y e]; [done|].
    change (Join slash (String c x :: y :: e)) with (String c (x +:+ String slash (Join slash (y :: e)))). cbn [String.prefix].
    destruct (ascii_dec "." c); [|done]. by destruct x. }
  assert (Hno : forall p, HasPrefix p "." = true -> String.eqb (Join slash (x :: e)) p = false).
  { intros p Hp. apply String.eqb_neq. intros E'. congruence. }
  rewrite (Hno ".."), (Hno ".") by done. rewrite Hsp.
  assert (Hdd : HasPrefix (Join slash (x :: e)) "../" = false).
  { destruct (Join slash (x :: e)) as [|c j]; [done|]. revert Hdot. unfold HasPrefix. cbn [String.prefix].
    destruct (ascii_dec "." c); [|done]. by destruct j. }
  by rewrite Hdd.
Qed.

Lemma JoinPath_below l e : l <> [] -> Forall (fun c => okElem c = true) l -> Forall (fun c => plain c = true) e ->
  JoinPath [absPath l; absPath e] = absPath (l ++ e).
Proof.
  intros Hne Hl He. change (JoinPath [absPath l; absPath e]) with (Clean (absPath l +:+ String slash (absPath e))).
  assert (Hel : elements_of (absPath l +:+ String slash (absPath e)) = l ++ e).
  { rewrite elements_app, elements_abs by done. f_equal. destruct e as [|x e]; [done|].
    apply elements_abs; [done|]. eapply Forall_impl; [exact He|]. apply plain_ok. }
  rewrite Clean_rooted, Hel; [done| |].
  - unfold HasPrefix, absPath. rewrite str_app_cons. cbn. by destruct (Join slash l +:+ _).
  - rewrite Hel. apply Forall_app. split; [by apply okElem_dots|]. apply okElem_dots.
    eapply Forall_impl; [exact He|]. apply plain_ok.
Qed.

(** What a request's path resolves to: its non-empty elements, all plain; or it
    has an element that starts with a dot. *)
Lemma components_spec root rel : rootOk root ->
  components root rel = (if hasDotComponent (TrimPrefix rel "/") then Err errDotfile else Ok (elements_of (TrimPrefix rel "/"))).
Proof.
  intros (l & Hne & Hl & Er). unfold components, resolve. set (r := TrimPrefix rel "/").
  unfold isEmptyStr. destruct (String.eqb_spec r EmptyString) as [->|Hr].
  { cbn. rewrite <- (app_nil_r l) in Er at 1. rewrite Er at 2. rewrite (relComponents_below root l []); [done|done|done| |done].
    by rewrite app_nil_r in Er. }
  destruct (hasDotComponent r) eqn:Hd; [done|].
  pose proof (plain_elements r Hd) as He.
  assert (Hels : elements_of (String slash r) = elements_of r).
  { change (String slash r) with (EmptyString +:+ String slash r). rewrite elements_app. done. }
  assert (Hcl : Clean (String slash r) = absPath (elements_of r)).
  { rewrite Clean_rooted, Hels; [done|by unfold HasPrefix; cbn; destruct r|].
    rewrite Hels. apply okElem_dots. eapply Forall_impl; [exact He|]. apply plain_ok. }
  rewrite Hcl, Er, JoinPath_below by done. rewrite <- Er.
  assert (Hpre : negb (HasPrefix (absPath (l ++ elements_of r)) (root +:+ "/")) && negb (String.eqb (absPath (l ++ elements_of r)) root) = false).
  { destruct (elements_of r) as [|x e] eqn:Ee; [by rewrite app_nil_r, <- Er, String.eqb_refl, andb_false_r|].
    assert (Hpr : exists t, absPath (l ++ x :: e) = (root +:+ "/") +:+ t).
    { rewrite Er. exists (Join slash (x :: e)). unfold absPath. rewrite !str_app_cons. f_equal. clear -Hne.
      induction l as [|y l IH]; [done|]. destruct l as [|z l].
      - change (Join slash ([y] ++ x :: e)) with (y +:+ String slash (Join slash (x :: e))). cbn [Join]. by rewrite str_app_assoc, str_app_cons.
      - change (Join slash ((y :: z :: l) ++ x :: e)) with (y +:+ String slash (Join slash ((z :: l) ++ x :: e))).
        rewrite IH by done. change (Join slash (y :: z :: l)) with (y +:+ String slash (Join slash (z :: l))).
        rewrite ?str_app_assoc, ?str_app_cons, ?str_app_assoc. done. }
    destruct Hpr as [t ->]. unfold HasPrefix. replace (String.prefix (root +:+ "/") ((root +:+ "/") +:+ t)) with true; [done|].
    symmetry. generalize (root +:+ "/"). clear. intros s. induction s as [|c s IH]; [by destruct t|]. rewrite str_app_cons. cbn [String.prefix].
    by destruct (ascii_dec c c). }
  rewrite Hpre. by apply (relComponents_below root l).
Qed.

Lemma components_plain root rel comps : rootOk root -> components root rel = Ok comps -> Forall (fun c => plain c = true) comps.
Proof.
  intros Hr. rewrite components_spec by done. destruct (hasDotComponent _) eqn:Hd; [done|]. intros [= <-]. by apply plain_elements.
Qed.

(** ** Safe programs *)

(** The name of a temporary file of the package. *)
Definition tempName (n : string) : bool :=
  free_of slash n && (HasPrefix n ".write-" || HasPrefix n ".create-" || HasPrefix n ".upload-").
Definition selfOrPlain (n : string) : bool := String.eqb n "." || plain n.

Section Policy.
Variable inside : ino -> Prop.

(** The calls the package may make: below descriptors inside the volume, with
    plain names, [.] to reopen a directory, and temporary names that are created,
    renamed and removed. *)
Definition okCall {B} (s : sys B) : Prop :=
  match s with
  | OpenRoot => True
  | Openat dir name CreateExcl => inside dir /\ tempName name = true
  | Openat dir name _ | Fstatat dir name | Readlinkat dir name => inside dir /\ selfOrPlain name = true
  | Mkdirat dir name => inside dir /\ plain name = true
  | Unlinkat dir name _ => inside dir /\ plain name || tempName name = true
  | Renameat dir old new _ => inside dir /\ tempName old = true /\ plain new = true
  | Fstat fd | Readdirnames fd | ReadFile fd | Write fd _ | Sync fd | Close fd
  | Getxattr fd | Fsetxattr fd _ | Fremovexattr fd | Fchmod fd _ | Fchown fd _ => inside fd
  end.

(** What it may count on: descriptors are inside, entries have entry names. *)
Definition okAns {B} (s : sys B) : B -> Prop :=
  match s in sys B return B -> Prop with
  | OpenRoot | Openat _ _ _ => fun i => inside i
  | Readdirnames _ => fun names => Forall (fun n => entryName n = true) names
  | _ => fun _ => True
  end.
Definition okResult {B} (s : sys B) (r : result errno B) : Prop := match r with Ok b => okAns s b | Err _ => True end.

(** Every call is allowed, whatever the answers, and the value satisfies [Q]. *)
Fixpoint safe {A} (p : prog A) (Q : A -> Prop) : Prop :=
  match p with
  | Ret a => Q a
  | Call s k => okCall s /\ forall r, okResult s r -> safe (k r) Q
  | OutOfFuel => True
  end.

Lemma safe_mono {A} (p : prog A) (Q Q' : A -> Prop) : (forall a, Q a -> Q' a) -> safe p Q -> safe p Q'.
Proof using Type.
  intros HQ. induction p as [a|B s k IH|]; cbn; [apply HQ| |done]. intros [Hs Hk]. split; [done|]. intros r Hr. by apply IH, Hk.
Qed.
Lemma safe_bind {A B} (p : prog A) (f : A -> prog B) Q : safe p (fun a => safe (f a) Q) -> safe (pbind p f) Q.
Proof using Type.
  induction p as [a|C s k IH|]; cbn; [done| |done]. intros [Hs Hk]. split; [done|]. intros r Hr. by apply IH, Hk.
Qed.
(** A result that satisfies [Q] when there is no error. *)
Definition onOk {E A} (Q : A -> Prop) (r : result E A) : Prop := match r with Ok a => Q a | Err _ => True end.
Lemma safe_check {E A B} (p : prog (result E A)) (f : A -> prog (result E B)) Q :
  safe p (onOk (fun a => safe (f a) (onOk Q))) -> safe (pcheck p f) (onOk Q).
Proof using Type. intros Hp. apply safe_bind. eapply safe_mono; [|exact Hp]. by intros [a|e]. Qed.
Lemma safe_call {B} (s : sys B) (Q : result errno B -> Prop) : okCall s -> (forall r, okResult s r -> Q r) -> safe (call s) Q.
Proof using Type. intros Hs HQ. by split. Qed.
Lemma safe_syscall {B} (s : sys B) (Q : B -> Prop) : okCall s -> (forall b, okAns s b -> Q b) -> safe (syscall s) (onOk Q).
Proof using Type. intros Hs HQ. apply safe_bind, safe_call; [done|]. intros [b|e] Hr; [by apply HQ|done]. Qed.
Lemma safe_ok {E A} (Q : A -> Prop) (r : result E A) : onOk Q r -> safe (Ret r) (onOk Q).
Proof using Type. done. Qed.

(** ** The operations are safe *)

Variable root : string.

Lemma plain_self n : plain n = true -> selfOrPlain n = true.
Proof using Type. unfold selfOrPlain. intros ->. by rewrite orb_true_r. Qed.

Lemma symlinkError_safe dir parents name : inside dir -> selfOrPlain name = true ->
  safe (symlinkError root dir parents name) (fun _ => True).
Proof using Type.
  intros Hd Hn. apply safe_bind, safe_call; [done|]. intros [t|e] _; [|done].
  destruct (isEmptyStr t); [done|]. cbv zeta. set (abs := if HasPrefix t "/" then _ else _).
  destruct (Rel root abs) as [rel|]; [|done]. by destruct (negb _ && negb _ && negb _ && _).
Qed.

Lemma openChild_safe dir parents name flags : inside dir -> selfOrPlain name = true -> flags <> CreateExcl ->
  safe (openChild root dir parents name flags) (onOk inside).
Proof using Type.
  intros Hd Hn Hf. apply safe_bind, safe_call; [by destruct flags|]. intros [fd|e] Hr; [done|].
  destruct (_ || _); [|done]. apply safe_bind, safe_call; [done|]. intros [st|e'] _; [|done].
  case_bool_decide; [|done]. apply safe_bind. eapply safe_mono; [|by apply symlinkError_safe]. done.
Qed.

Lemma walkFrom_safe comps : forall cur parents create target, inside cur -> Forall (fun c => plain c = true) comps ->
  safe (walkFrom root cur parents comps create target) (onOk inside).
Proof using Type.
  induction comps as [|name rest IH]; intros cur parents create target Hc Hp; [done|].
  apply Forall_cons in Hp as [Hn Hp]. pose proof (plain_self _ Hn) as Hs.
  assert (Hopen : safe (openChild root cur parents name DirFlags) (onOk inside)) by (by apply openChild_safe).
  cbn [walkFrom]. apply safe_bind. eapply safe_mono; [|exact Hopen]. intros next Hnext.
  apply safe_check. apply (safe_mono _ (onOk (onOk inside))).
  { intros [[fd|oerr]|merr] Hfd; [by apply IH| |done]. cbn [onOk]. by destruct (_ && _). }
  assert (Hagain : safe (let! again := openChild root cur parents name DirFlags in Ret (@Ok fileErr _ again))%prog (onOk (onOk inside))).
  { apply safe_bind. by eapply safe_mono; [|exact Hopen]. }
  destruct next as [fd|oerr]; [done|]. destruct (_ && _); [|done].
  apply safe_bind, safe_call; [done|]. intros [[]|merr] _; [done|]. by case_bool_decide.
Qed.

Lemma walkDirs_safe rootFD comps create target : inside rootFD -> Forall (fun c => plain c = true) comps ->
  safe (walkDirs root rootFD comps create target) (onOk inside).
Proof using Type. intros Hr Hp. apply safe_check, safe_syscall; [done|]. intros cur Hc. by apply walkFrom_safe. Qed.

Lemma Forall_removelast {A} (P : A -> Prop) l : Forall P l -> Forall P (removelast l).
Proof using Type. clear. induction 1 as [|x l Hx Hl IH]; [done|]. cbn. destruct l; [done|]. by constructor. Qed.
Lemma plain_last comps : comps <> [] -> Forall (fun c => plain c = true) comps -> plain (lastOf comps) = true.
Proof using Type.
  clear. intros Hne Hc. destruct comps as [|c comps _] using rev_ind; [done|]. unfold lastOf. rewrite last_last.
  by apply Forall_app in Hc as [_ Hc%Forall_inv].
Qed.
Lemma plain_not_empty c : plain c = true -> isEmptyStr c = false.
Proof using Type. clear. unfold plain, entryName. rewrite !andb_true_iff, !negb_true_iff. tauto. Qed.

Lemma locate_safe rootFD comps create : inside rootFD -> Forall (fun c => plain c = true) comps ->
  safe (locate root rootFD comps create) (onOk (fun x => inside x.1 /\ (comps <> [] -> x.2 = lastOf comps) /\ (comps = [] -> x.2 = EmptyString))).
Proof using Type.
  intros Hr Hp. destruct comps as [|c comps]; apply safe_check; (eapply safe_mono; [|apply walkDirs_safe; [done|]]);
    [| |..]; try (by intros [fd|e] Hfd); try done. by apply Forall_removelast.
Qed.

Lemma dirNames_safe fd : inside fd -> safe (dirNames fd) (onOk (Forall (fun n => entryName n = true))).
Proof using Type.
  intros Hf. apply safe_check, safe_syscall; [done|]. intros rd Hrd. apply safe_check, safe_syscall; [done|]. intros names Hn.
  cbn. cbn in Hn. by rewrite merge_sort_Permutation.
Qed.

Lemma entry_plain n : entryName n = true -> HasPrefix n "." = false -> plain n = true.
Proof using Type. clear. unfold plain. by intros -> ->. Qed.

Lemma listEntries_safe dir comps names : inside dir -> Forall (fun n => entryName n = true) names ->
  safe (listEntries dir comps names) (fun _ => True).
Proof using Type.
  intros Hd. induction 1 as [|n names Hn _ IH]; [done|]. cbn [listEntries]. destruct (HasPrefix n ".") eqn:Ed; [done|].
  apply safe_bind, safe_call; [split; [done|]; by apply plain_self, entry_plain|]. intros [st|e] _; [|done].
  apply safe_bind. by eapply safe_mono; [|exact IH].
Qed.

Lemma listDir_safe comps : Forall (fun c => plain c = true) comps -> safe (listDir root comps) (fun _ => True).
Proof using Type.
  intros Hp. apply (safe_mono _ (onOk (fun _ => True))); [done|]. apply safe_check, safe_syscall; [done|]. intros rootFD Hr.
  apply safe_check. eapply safe_mono; [|by apply locate_safe]. intros [[pfd name]|e]; [|done]. intros (Hi & Hl & He). cbn [onOk fst snd] in *.
  apply safe_check. apply (safe_mono _ (onOk inside)).
  - intros [dfd|e] Hd; [|done]. cbn [onOk]. apply safe_check. eapply safe_mono; [|by apply dirNames_safe]. intros [names|e] Hn; [|done].
    cbn [onOk]. apply safe_bind. by eapply safe_mono; [|by apply listEntries_safe].
  - destruct comps as [|c comps]; [by rewrite He|]. rewrite Hl by done.
    rewrite plain_not_empty by (by apply plain_last). apply openChild_safe; [done| |done]. by apply plain_self, plain_last.
Qed.

Lemma openFile_safe comps : Forall (fun c => plain c = true) comps ->
  safe (openFile root comps) (onOk (fun x => inside x.1)).
Proof using Type.
  intros Hp. apply safe_check, safe_syscall; [done|]. intros rootFD Hr.
  apply safe_check. eapply safe_mono; [|by apply locate_safe]. intros [[pfd name]|e]; [|done]. intros (Hi & Hl & He). cbn [onOk fst snd] in *.
  apply safe_check. eapply safe_mono; [|apply openChild_safe; [done| |done]]; [by intros [fd|e]|].
  destruct comps as [|c comps]; [by rewrite He|]. rewrite Hl by done.
  rewrite plain_not_empty by (by apply plain_last). by apply plain_self, plain_last.
Qed.

Lemma makeDirs_safe comps : Forall (fun c => plain c = true) comps -> safe (makeDirs root comps) (onOk (fun _ => True)).
Proof using Type.
  intros Hp. apply safe_check, safe_syscall; [done|]. intros rootFD Hr. apply safe_check.
  eapply safe_mono; [|by apply walkDirs_safe]. by intros [fd|e].
Qed.

Variable sortSlice : list aclEntry -> list aclEntry.

(** A program with no interest in its value. *)
Local Abbreviation quiet p := (safe p (fun _ => True)).
Lemma quiet_check {E A B} (p : prog (result E A)) (f : A -> prog (result E B)) Q :
  safe p (onOk Q) -> (forall a, Q a -> quiet (f a)) -> quiet (pcheck p f).
Proof using Type. intros Hp Hf. apply safe_bind. eapply safe_mono; [|exact Hp]. intros [a|e]; [apply Hf|done]. Qed.
Lemma quiet_call {B C} (s : sys B) (k : result errno B -> prog C) :
  okCall s -> (forall r, okResult s r -> quiet (k r)) -> quiet (pbind (call s) k).
Proof using Type. intros Hs Hk. apply safe_bind, safe_call; done. Qed.

Lemma destAccess_safe dir parents name : inside dir -> plain name = true ->
  quiet (destAccess root dir parents name).
Proof using Type.
  intros Hd Hn. pose proof (plain_self _ Hn) as Hs. apply quiet_call; [done|]. intros [fd|e] Hr; [|by case_bool_decide].
  eapply quiet_check; [by apply (safe_syscall _ (fun _ => True))|]. intros st _. case_bool_decide.
  { apply safe_bind. by eapply safe_mono; [|by apply symlinkError_safe]. }
  case_bool_decide; [|done]. cbn [negb]. apply quiet_call; [done|]. intros [raw|e] _; [|by destruct (_ || _)].
  apply quiet_call; [done|]. by intros [raw'|e] _.
Qed.

Lemma applyMode_safe fd mode : inside fd -> quiet (applyMode fd mode).
Proof using Type.
  intros Hf. apply quiet_call; [done|]. intros [u|e] _; [by apply safe_call|]. destruct (_ || _); [by apply safe_call|done].
Qed.

Lemma apply_safe a fd : inside fd -> quiet (apply_ sortSlice a fd).
Proof using Type.
  intros Hf. unfold apply_. destruct (faExists a); cbn [negb]; [|by apply applyMode_safe].
  eapply quiet_check; [by apply (safe_call _ (onOk (fun _ => True))); [|intros []]|]. intros cur _.
  apply (quiet_check _ _ (fun _ => True)).
  { destruct (_ =? _); [done|]. by apply safe_call; [|intros []]. }
  intros _ _. destruct (replacementACL _ _ _ _) as [raw|]; [|done].
  eapply quiet_check; [by apply (safe_call _ (onOk (fun _ => True))); [|intros []]|]. intros _ _.
  case_bool_decide; [by apply applyMode_safe|by apply safe_call].
Qed.

Lemma unchanged_safe a dir name : inside dir -> plain name = true -> quiet (unchanged a dir name).
Proof using Type.
  intros Hd Hn. apply quiet_call; [split; [done|by apply plain_self]|]. intros [st|e] _; [by case_bool_decide|done].
Qed.

Definition goodPrefix (p : string) : Prop := p = ".write-" \/ p = ".create-" \/ p = ".upload-".
Lemma temp_of_prefix p r : goodPrefix p -> free_of slash r = true -> tempName (p +:+ r) = true.
Proof using Type.
  clear. intros Hp Hr. unfold tempName, free_of. rewrite str_all_app. fold (free_of slash r). rewrite Hr.
  destruct Hp as [->|[->| ->]]; by destruct r.
Qed.

Lemma createTemp_safe dir prefix rands : inside dir -> goodPrefix prefix -> Forall (fun r => free_of slash r = true) rands ->
  safe (createTemp dir prefix rands) (onOk (fun x => inside x.1 /\ tempName x.2 = true)).
Proof using Type.
  intros Hd Hp Hr. apply (Forall_take _ 16%nat) in Hr. unfold createTemp.
  generalize dependent (take 16 rands). clear rands. induction 1 as [|r rands Hr _ IH]; [done|].
  cbn [createTempFrom]. pose proof (temp_of_prefix _ _ Hp Hr) as Ht. apply safe_bind, safe_call; [done|].
  intros [fd|e] Hfd; [by split|]. by case_bool_decide.
Qed.

Lemma abort_safe fd dir tmp cause : inside fd -> inside dir -> tempName tmp = true -> quiet (abort_ fd dir tmp cause).
Proof using Type.
  intros Hf Hd Ht. apply quiet_call; [done|]. intros _ _. apply quiet_call; [|done]. split; [done|]. by rewrite Ht, orb_true_r.
Qed.

Lemma commitFile_safe fd dir tmp name mode a : inside fd -> inside dir -> tempName tmp = true -> plain name = true ->
  quiet (commitFile fd dir tmp name mode a).
Proof using Type.
  intros Hf Hd Ht Hn. destruct mode; cbn [commitFile].
  - apply safe_bind. eapply safe_mono; [|by apply unchanged_safe]. intros [] _; cbn [negb]; [|by apply abort_safe].
    apply quiet_call; [done|]. intros [u|e] _; [done|by apply abort_safe].
  - apply quiet_call; [done|]. intros [u|e] _; [done|by apply abort_safe].
Qed.

Lemma probeDest_safe dir parents name mode : inside dir -> plain name = true -> quiet (probeDest root dir parents name mode).
Proof using Type.
  intros Hd Hn. destruct mode; [by apply destAccess_safe|]. apply quiet_call; [split; [done|by apply plain_self]|].
  intros [st|e] _; [done|by case_bool_decide].
Qed.

Lemma quiet_onOk {E A} (p : prog (result E A)) : quiet p -> safe p (onOk (fun _ => True)).
Proof using Type. apply safe_mono. by intros [] _. Qed.

Lemma storeFile_safe dir parents name prefix mode rands fill :
  inside dir -> plain name = true -> goodPrefix prefix -> Forall (fun r => free_of slash r = true) rands ->
  (forall fd, inside fd -> quiet (fill fd)) -> quiet (storeFile root sortSlice dir parents name prefix mode rands fill).
Proof using Type.
  intros Hd Hn Hp Hr Hfill. eapply quiet_check; [by apply quiet_onOk, probeDest_safe|]. intros access _.
  eapply quiet_check; [by apply createTemp_safe|]. intros [fd tmp] [Hf Ht]. cbn [fst snd] in *.
  assert (Hab : forall e, quiet (abort_ fd dir tmp e)) by (intros; by apply abort_safe).
  apply safe_bind. eapply safe_mono; [|by apply Hfill]. intros [u|e] _; [|done].
  apply safe_bind. eapply safe_mono; [|by apply apply_safe]. intros [u'|e] _; [|done].
  apply quiet_call; [done|]. intros [u'' |e] _; [|done]. apply quiet_call; [done|]. intros [u3|e] _; [|done].
  by apply commitFile_safe.
Qed.

Lemma storeIn_safe comps name prefix create mode rands fill :
  Forall (fun c => plain c = true) comps -> plain name = true -> goodPrefix prefix -> Forall (fun r => free_of slash r = true) rands ->
  (forall fd, inside fd -> quiet (fill fd)) -> quiet (storeIn root sortSlice comps name prefix create mode rands fill).
Proof using Type.
  intros Hc Hn Hp Hr Hfill. eapply quiet_check; [by apply (safe_syscall _ inside)|]. intros rootFD Hroot.
  eapply quiet_check; [by apply walkDirs_safe|]. intros dirFD Hd. by apply storeFile_safe.
Qed.

Lemma copyBody_safe fd body : inside fd -> forall n, quiet (copyBody fd n body).
Proof using Type.
  intros Hf. induction body as [|[s|e] body IH]; intros n; cbn [copyBody]; [done| |done].
  eapply quiet_check; [by apply (safe_syscall _ (fun _ => True))|]. intros _ _. apply IH.
Qed.

Lemma storePart_safe comps filename rands body limit : Forall (fun c => plain c = true) comps ->
  Forall (fun r => free_of slash r = true) rands -> quiet (storePart root sortSlice comps filename rands body limit).
Proof using Type.
  intros Hc Hr. unfold storePart. destruct (String.eqb (Base filename) "." || _ || String.eqb (Base filename) "/") eqn:Eb; [done|].
  apply orb_false_iff in Eb as [_ Eb]. destruct (HasPrefix (Base filename) ".") eqn:Ed; [done|].
  apply storeIn_safe; try done; [|by right; right|].
  - apply entry_plain; [|done]. unfold Base in *. destruct (isEmptyStr filename); [done|].
    destruct (List.filter (fun c => negb (isEmptyStr c)) (split_on slash filename)) as [|c l] eqn:El; [done|].
    assert (Hin : List.last (c :: l) EmptyString ∈ c :: l).
    { clear. destruct (c :: l) as [|x k _] eqn:E using rev_ind; [done|]. rewrite last_last. apply elem_of_app. right. by left. }
    rewrite <- El in Hin at 2. apply list_elem_of_In, List.filter_In in Hin as [Hin%list_elem_of_In Hne].
    unfold entryName. by rewrite Hne, (split_elem_free slash filename _ Hin).
  - intros fd Hf. eapply quiet_check; [by apply quiet_onOk, copyBody_safe|]. done.
Qed.

Lemma checkNames_safe check names : Forall (fun n => entryName n = true) names ->
  (forall n, plain n = true -> quiet (check n)) -> quiet (checkNames check names).
Proof using Type.
  intros Hn Hc. induction Hn as [|n names Hn _ IH]; [done|]. cbn [checkNames]. destruct (HasPrefix n ".") eqn:E; [done|].
  eapply quiet_check; [by apply quiet_onOk, Hc, entry_plain|]. done.
Qed.

Lemma checkNoDotAt_safe fuel : forall dir parents name, inside dir -> plain name = true ->
  quiet (checkNoDotAt root fuel dir parents name).
Proof using Type.
  induction fuel as [|fuel IH]; intros dir parents name Hd Hn; [done|]. cbn [checkNoDotAt]. pose proof (plain_self _ Hn) as Hs.
  apply quiet_call; [done|]. intros [st|e] _; [|by case_bool_decide]. case_bool_decide; [|done]. cbn [negb].
  eapply quiet_check; [by apply openChild_safe|]. intros fd Hf.
  eapply quiet_check; [by apply dirNames_safe|]. intros names Hnames. apply checkNames_safe; [done|]. intros n. by apply IH.
Qed.

Lemma removeTree_safe fuel : forall dir parents name, inside dir -> plain name = true ->
  quiet (removeTree root fuel dir parents name).
Proof using Type.
  induction fuel as [|fuel IH]; intros dir parents name Hd Hn; [done|]. cbn [removeTree]. pose proof (plain_self _ Hn) as Hs.
  assert (Hu : forall b, okCall (Unlinkat dir name b)) by (intros; split; [done|by rewrite Hn]).
  apply quiet_call; [done|]. intros [st|e] _; [|by case_bool_decide]. case_bool_decide; cbn [negb].
  2: { by apply quiet_call. }
  eapply quiet_check; [by apply openChild_safe|]. intros fd Hf. eapply quiet_check.
  { apply quiet_onOk. eapply quiet_check; [by apply dirNames_safe|]. intros names Hnames. apply checkNames_safe; [done|]. intros n. by apply IH. }
  intros _ _. by apply quiet_call.
Qed.

Lemma removePath_safe fuel comps recursive : comps <> [] -> Forall (fun c => plain c = true) comps ->
  quiet (removePath root fuel comps recursive).
Proof using Type.
  intros Hne Hc. eapply quiet_check; [by apply (safe_syscall _ inside)|]. intros rootFD Hroot.
  apply safe_bind. eapply safe_mono; [|by apply locate_safe]. intros [[pfd name]|e]; [|done]. intros (Hi & Hl & _). cbn [fst snd] in *.
  pose proof (plain_last _ Hne Hc) as Hn. rewrite <- (Hl Hne) in Hn. destruct recursive; cbn [negb].
  - eapply quiet_check; [by apply quiet_onOk, checkNoDotAt_safe|]. intros _ _. by apply removeTree_safe.
  - assert (Hu : forall b, okCall (Unlinkat pfd name b)) by (intros; split; [done|by rewrite Hn]).
    apply quiet_call; [done|]. intros [u|e] _; [done|]. apply quiet_call; [done|]. by intros [u|e'] _.
Qed.

(** ** Requests *)

Inductive fileRequest :=
| RList (rel : string) | RRead (rel : string) | RDownload (rel : string)
| RWrite (rel : string) (rands : list string) (body : list chunk)
| RCreate (rel : string) (rands : list string) (body : list chunk)
| RUpload (rel : string) (isForm : bool) (contentLength : Z) (parts : list (string * list string * list chunk)) (ending : formEnd)
| RMkdir (rel : string)
| RDelete (rel : string) (recursive : bool).

(** The random names of a request have no slash. *)
Definition randsOk (q : fileRequest) : Prop :=
  match q with
  | RWrite _ rands _ | RCreate _ rands _ => Forall (fun r => free_of slash r = true) rands
  | RUpload _ _ _ parts _ => Forall (fun p => Forall (fun r => free_of slash r = true) p.1.2) parts
  | _ => True
  end.

Definition serve (fuel : nat) (q : fileRequest) : prog response :=
  match q with
  | RList rel => list_ root rel
  | RRead rel => read root rel
  | RDownload rel => download root rel
  | RWrite rel rands body => write root sortSlice rel rands body
  | RCreate rel rands body => create root sortSlice rel rands body
  | RUpload rel isForm n parts ending => upload root sortSlice rel isForm n parts ending
  | RMkdir rel => mkdir root rel
  | RDelete rel recursive => del root fuel rel recursive
  end.

Lemma withPath_safe rel k : rootOk root -> (forall comps, Forall (fun c => plain c = true) comps -> quiet (k comps)) -> quiet (withPath root rel k).
Proof using Type.
  intros Hr Hk. unfold withPath. destruct (components root rel) as [comps|e] eqn:E; [|done]. by eapply Hk, components_plain.
Qed.
Lemma respond_safe {A} (f : A -> response) p : quiet p -> quiet (respond f p).
Proof using Type. intros Hp. apply safe_bind. by eapply safe_mono; [|exact Hp]. Qed.

Lemma uploadParts_safe comps parts ending : Forall (fun c => plain c = true) comps ->
  Forall (fun p => Forall (fun r => free_of slash r = true) p.1.2) parts ->
  forall count, quiet (uploadParts root sortSlice comps parts ending count).
Proof using Type.
  intros Hc. induction 1 as [|[[filename rands] body] parts Hr _ IH]; intros count; cbn [uploadParts]; [done|].
  destruct (isEmptyStr filename); [done|]. destruct (_ <? _); [done|].
  apply safe_bind. eapply safe_mono; [|by apply storePart_safe]. intros [u|e] _; [done|]. by destruct e.
Qed.

Lemma readOrDownload_safe limited rel : rootOk root -> quiet (readOrDownload root limited rel).
Proof using Type.
  intros Hr. apply withPath_safe; [done|]. intros comps Hc. apply safe_bind.
  eapply safe_mono; [|by apply openFile_safe]. intros [[fd name]|e] Hf; [|done]. cbn in Hf.
  apply quiet_call; [done|]. intros [st|e] _; [|done]. case_bool_decide; [done|]. destruct (_ && _); [done|].
  by apply quiet_call.
Qed.

Lemma serve_safe fuel q : rootOk root -> randsOk q -> quiet (serve fuel q).
Proof using Type.
  intros Hr Hq. destruct q as [rel|rel|rel|rel rands body|rel rands body|rel isForm n parts ending|rel|rel recursive]; cbn [serve randsOk] in *.
  - apply withPath_safe; [done|]. intros comps Hc. by apply respond_safe, listDir_safe.
  - by apply readOrDownload_safe.
  - by apply readOrDownload_safe.
  - apply withPath_safe; [done|]. intros [|c comps] Hc; [done|]. apply respond_safe, storeIn_safe; try done.
    + by apply Forall_removelast.
    + by apply plain_last.
    + by left.
    + intros fd Hf. eapply quiet_check; [by apply quiet_onOk, copyBody_safe|]. done.
  - apply withPath_safe; [done|]. intros [|c comps] Hc; [done|]. apply respond_safe, storeIn_safe; try done.
    + by apply Forall_removelast.
    + by apply plain_last.
    + by right; left.
    + intros fd Hf. eapply quiet_check; [by apply quiet_onOk, copyBody_safe|]. done.
  - unfold upload. destruct isForm; [|done]. cbn [negb]. apply withPath_safe; [done|]. intros comps Hc. apply safe_bind.
    eapply safe_mono; [|by apply makeDirs_safe]. intros [u|e] _; [|done]. apply safe_bind.
    by eapply safe_mono; [|by apply uploadParts_safe].
  - apply withPath_safe; [done|]. intros comps Hc. apply respond_safe. eapply safe_mono; [|by apply makeDirs_safe]. done.
  - apply withPath_safe; [done|]. intros [|c comps] Hc; [done|]. by apply respond_safe, removePath_safe.
Qed.
End Policy.

(** ** Confinement *)

Section Confined.
Variables (rootIno : ino) (agentUid agentGid : Z) (alloc : fs -> ino) (now : fs -> Z)
  (elsewhere : fs -> ino -> string -> option ino) (inside : ino -> Prop).
Hypotheses (root_inside : inside rootIno) (alloc_inside : forall f, inside (alloc f)).
Local Abbreviation sysStep := (sysStep rootIno agentUid agentGid alloc now elsewhere).
Local Abbreviation kernelStep := (kernelStep rootIno agentUid agentGid alloc now elsewhere).
Local Abbreviation child := (child elsewhere).
Local Abbreviation volume := (volume inside).

(** The effect of a call is confined. *)
Definition confined (f f' : fs) : Prop := volume f' /\ forall i, ~ inside i -> f' !! i = f !! i.

Lemma confined_refl f : volume f -> confined f f.
Proof using Type. by split. Qed.

Lemma plain_one n : plain n = true -> oneComponent n = true.
Proof using Type.
  clear. unfold plain, oneComponent, entryName. rewrite !andb_true_iff, !negb_true_iff. intros [[-> ->] Hd]. split_and!; try done.
  apply String.eqb_neq. by intros ->.
Qed.
Lemma temp_one n : tempName n = true -> oneComponent n = true.
Proof using Type.
  clear. unfold tempName, oneComponent. rewrite !andb_true_iff, !negb_true_iff. intros [-> Hp]. split_and!; try done.
  - by destruct n.
  - apply String.eqb_neq. by intros ->.
Qed.

Lemma child_inside f dir name i : volume f -> inside dir -> selfOrPlain name = true \/ oneComponent name = true ->
  child f dir name = Some i -> inside i.
Proof using Type.
  intros Hv Hd Hn. unfold child. destruct (String.eqb_spec name ".") as [->|Hne]; [by intros [= <-]|].
  assert (Ho : oneComponent name = true).
  { destruct Hn as [Hn|]; [|done]. unfold selfOrPlain in Hn. rewrite (proj2 (String.eqb_neq _ _) Hne) in Hn. by apply plain_one. }
  rewrite Ho. destruct (entries f dir) as [es|] eqn:E; [|done]. intros Hi. by eapply Hv.
Qed.

Lemma entries_inode f i x : f !! i = Some x -> entries f i = match iNode x with NDir es => Some es | _ => None end.
Proof using Type. unfold entries. by intros ->. Qed.

(** An inode of the volume changes, its entries being as they should. *)
Lemma confined_insert f i x : volume f -> inside i ->
  (forall es n j, iNode x = NDir es -> es !! n = Some j -> inside j /\ oneComponent n = true) -> confined f (<[i := x]> f).
Proof using Type.
  intros Hv Hi Hx. split; [|intros j Hj; by rewrite lookup_insert_ne by congruence].
  intros dir es n j Hd. unfold entries. destruct (decide (i = dir)) as [->|Hne].
  - rewrite lookup_insert_eq. destruct (iNode x) eqn:E; [|done..]. intros [= ->] Hn. by eapply Hx.
  - rewrite lookup_insert_ne by done. fold (entries f dir). by apply Hv.
Qed.
Lemma confined_same_node f i x y : volume f -> inside i -> f !! i = Some x -> iNode y = iNode x \/ (forall es, iNode y <> NDir es) ->
  confined f (<[i := y]> f).
Proof using Type.
  intros Hv Hi Hx Hy. apply confined_insert; [done..|]. intros es n j Hes Hn. destruct Hy as [Hy|Hy]; [|by destruct (Hy es)].
  apply (Hv i es n j Hi); [|done]. unfold entries. by rewrite Hx, <- Hy, Hes.
Qed.
Lemma confined_trans f g h : confined f g -> confined g h -> confined f h.
Proof using Type. intros [_ H1] [H2 H3]. split; [done|]. intros i Hi. by rewrite H3, H1. Qed.

Lemma confined_set f dir es : volume f -> inside dir ->
  (forall n j, es !! n = Some j -> inside j /\ oneComponent n = true) -> confined f (set_entries f dir es).
Proof using Type.
  intros Hv Hd Hes. unfold set_entries. destruct (f !! dir) as [x|]; [|by apply confined_refl].
  apply confined_insert; [done..|]. intros es' n j [= <-]. apply Hes.
Qed.

Lemma confined_add f dir es name n mode : volume f -> inside dir -> entries f dir = Some es -> oneComponent name = true ->
  (forall es', n = NDir es' -> es' = ∅) -> confined f (add_entry agentUid agentGid alloc now f dir es name n mode).
Proof using alloc_inside.
  intros Hv Hd He Ho Hn. eapply confined_trans; [apply (confined_set f dir (<[name := alloc f]> es) Hv Hd)|].
  - intros m j [[<- <-]|[_ Hm]]%lookup_insert_Some; [done|]. by eapply Hv.
  - apply confined_insert; [|done|].
    + apply confined_set; [done..|]. intros m j [[<- <-]|[_ Hm]]%lookup_insert_Some; [done|]. by eapply Hv.
    + cbn. intros es' m j Hes'. by rewrite (Hn es' Hes').
Qed.

Lemma confined_delete f dir es name : volume f -> inside dir -> entries f dir = Some es -> confined f (set_entries f dir (delete name es)).
Proof using Type.
  intros Hv Hd He. apply confined_set; [done..|]. intros n j [_ Hn]%lookup_delete_Some. by eapply Hv.
Qed.
Lemma confined_rename f dir es old new i : volume f -> inside dir -> entries f dir = Some es -> inside i -> oneComponent new = true ->
  confined f (set_entries f dir (<[new := i]> (delete old es))).
Proof using Type.
  intros Hv Hd He Hi Ho. apply confined_set; [done..|].
  intros n j [[<- <-]|[_ [_ Hn]%lookup_delete_Some]]%lookup_insert_Some; [done|]. exact (Hv dir es n j Hd He Hn).
Qed.

Lemma same (P : Prop) f : volume f -> P -> P /\ confined f f.
Proof using Type. intros. split; [done|by apply confined_refl]. Qed.

Lemma openat_confined f dir name flags r f' : volume f -> okCall inside (Openat dir name flags) ->
  openat agentUid agentGid alloc now elsewhere f dir name flags = (r, f') ->
  okResult inside (Openat dir name flags) r /\ confined f f'.
Proof using alloc_inside.
  intros Hv Hok. unfold openat. destruct flags; cbn [okCall] in Hok; destruct Hok as [Hd Hn].
  4: { destruct (entries f dir) as [es|] eqn:E; [|intros [= <- <-]; by apply same].
       destruct (child f dir name); [intros [= <- <-]; by apply same|]. rewrite (temp_one _ Hn). intros [= <- <-].
       split; [apply alloc_inside|]. apply confined_add; try done. by apply temp_one. }
  all: destruct (child f dir name) as [i|] eqn:Ec; [|intros [= <- <-]; by apply same];
    (assert (Hi : inside i) by (eapply child_inside; [exact Hv|exact Hd|by left|done]));
    destruct (f !! i) as [x|]; [|intros [= <- <-]; by apply same]; destruct (iNode x); intros [= <- <-]; by apply same.
Qed.

Lemma with_inode_confined {B} f i (g : inode -> result errno B * fs) r f' (Q : result errno B -> Prop) :
  volume f -> (forall e, Q (Err e)) -> (forall x r f', f !! i = Some x -> g x = (r, f') -> Q r /\ confined f f') ->
  with_inode f i g = (r, f') -> Q r /\ confined f f'.
Proof using Type.
  intros Hv He Hg. unfold with_inode. destruct (f !! i) as [x|] eqn:E; [by apply Hg|]. intros [= <- <-]. by apply same.
Qed.

Lemma update_confined f i g r f' : volume f -> inside i -> (forall x, iNode (g x) = iNode x) ->
  update f i g = (r, f') -> okResult inside (Sync i) r /\ confined f f'.
Proof using Type.
  intros Hv Hi Hg. apply (with_inode_confined _ _ _ _ _ (okResult inside (Sync i))); [done..|].
  intros x r' f'' Hx [= <- <-]. split; [done|]. eapply confined_same_node; [done..|]. left. apply Hg.
Qed.

Lemma sysStep_confined {B} f (s : sys B) r f' : volume f -> okCall inside s -> sysStep f s = (r, f') ->
  okResult inside s r /\ confined f f'.
Proof using root_inside alloc_inside.
  intros Hv Hok. destruct s; cbn [Volume.sysStep]; try (by apply openat_confined); try (intros [= <- <-]; by apply same);
    try (apply update_confined; done); cbn [okCall] in Hok.
  - destruct (child f dir name); [|intros [= <- <-]; by apply same].
    apply (with_inode_confined _ _ _ _ _ (okResult inside (Fstatat dir name))); [done..|]. intros x r' f'' _ [= <- <-]. by apply same.
  - apply (with_inode_confined _ _ _ _ _ (okResult inside (Fstat fd))); [done..|]. intros x r' f'' _ [= <- <-]. by apply same.
  - destruct (child f dir name); [|intros [= <- <-]; by apply same].
    apply (with_inode_confined _ _ _ _ _ (okResult inside (Readlinkat dir name))); [done..|].
    intros x r' f'' _. destruct (iNode x); intros [= <- <-]; by apply same.
  - destruct (entries f fd) as [es|] eqn:E; intros [= <- <-]; (split; [|by apply confined_refl]); [|done].
    cbn. apply Forall_forall. intros n [i Hi]%elem_of_elements%elem_of_dom. destruct (Hv fd es n i Hok E Hi) as [_ Ho].
    unfold oneComponent in Ho. rewrite !andb_true_iff in Ho. unfold entryName. by destruct Ho as [[-> ->] _].
  - destruct Hok as [Hd Hn]. destruct (entries f dir) as [es|] eqn:E; [|intros [= <- <-]; by apply same].
    destruct (child f dir name); [intros [= <- <-]; by apply same|]. rewrite (plain_one _ Hn). intros [= <- <-].
    split; [done|]. apply confined_add; try done; [by apply plain_one|]. by intros es' [= <-].
  - destruct Hok as [Hd Hn]. destruct (entries f dir) as [es|] eqn:E; [|intros [= <- <-]; by apply same].
    destruct (child f dir name) as [i|]; [|intros [= <- <-]; by apply same].
    apply (with_inode_confined _ _ _ _ _ (okResult inside (Unlinkat dir name rmdir))); [done|done|].
    intros x r' f'' _. destruct (iNode x), rmdir; try case_bool_decide; intros [= <- <-];
      (split; [done|]); (by apply confined_refl) || (by apply confined_delete).
  - destruct Hok as (Hd & Ho & Hn). destruct (entries f dir) as [es|] eqn:E; [|intros [= <- <-]; by apply same].
    destruct (child f dir old) as [i|] eqn:Ei; [|intros [= <- <-]; by apply same].
    assert (Hi : inside i) by (eapply child_inside; [exact Hv|exact Hd|right; by apply temp_one|done]).
    destruct (child f dir new) as [j|] eqn:Ej.
    + destruct noreplace; [intros [= <- <-]; by apply same|].
      apply (with_inode_confined _ _ _ _ _ (okResult inside (Renameat dir old new false))); [done|done|].
      intros x r' f'' _. destruct (iNode x); intros [= <- <-]; (split; [done|]);
        (by apply confined_refl) || (by apply confined_rename, plain_one).
    + rewrite (plain_one _ Hn). intros [= <- <-]. split; [done|]. by apply confined_rename, plain_one.
  - apply (with_inode_confined _ _ _ _ _ (okResult inside (ReadFile fd))); [done..|]. intros x r' f'' _.
    destruct (iNode x); intros [= <- <-]; by apply same.
  - apply (with_inode_confined _ _ _ _ _ (okResult inside (Write fd data))); [done..|]. intros x r' f'' Hx.
    destruct (iNode x); intros [= <- <-]; (split; [done|]); try (by apply confined_refl).
    eapply confined_same_node; [done..|]. by right.
  - apply (with_inode_confined _ _ _ _ _ (okResult inside (Getxattr fd))); [done..|]. intros x r' f'' _.
    destruct (iAcl x); intros [= <- <-]; by apply same.
Qed.

Lemma kernelStep_confined {B} f (s : sys B) r f' : volume f -> okCall inside s -> kernelStep f s r f' ->
  okResult inside s r /\ confined f f'.
Proof using root_inside alloc_inside.
  intros Hv Hok [Hs|(e & -> & Hp)]; [by apply sysStep_confined|]. split; [done|].
  destruct Hp as [->|Hp]; [by apply confined_refl|]. destruct s; try done. destruct Hp as [data' ->].
  destruct (sysStep f (Write fd data')) as [r' f''] eqn:E. by eapply (sysStep_confined f (Write fd data')).
Qed.

(** C12. No request leaves the volume.  While others rename, replace and link what
    is in it between any two calls, and calls fail at will, every call a request
    makes is below a descriptor inside the volume, with a single name that does
    not start with a dot (its own temporary files apart), every descriptor it
    obtains is inside, and nothing outside is changed by it. *)
Theorem file_requests_confined root sortSlice fuel q f0 f p :
  rootOk root -> randsOk q -> volume f0 ->
  rtc (step rootIno agentUid agentGid alloc now elsewhere inside) (f0, serve root sortSlice fuel q) (f, p) ->
  volume f /\
  forall B (s : sys B) k r f', p = Call s k -> kernelStep f s r f' ->
    okCall inside s /\ okResult inside s r /\ forall i, ~ inside i -> f' !! i = f !! i.
Proof using root_inside alloc_inside.
  intros Hroot Hrands Hv Hr.
  assert (Hinv : volume (f, p).1 /\ safe inside (f, p).2 (fun _ => True)).
  { remember (f0, serve root sortSlice fuel q) as c0 eqn:E0. remember (f, p) as c eqn:E. clear E f p.
    assert (H0 : volume c0.1 /\ safe inside c0.2 (fun _ => True)) by (subst c0; split; [done|by apply serve_safe]).
    clear E0. induction Hr as [c|c1 c2 c3 Hs _ IH]; [done|]. apply IH. clear IH.
    destruct Hs as [B f s k r f' Hk|f f' p Hf]; cbn [fst snd] in *; [|split; [done|apply H0]].
    destruct H0 as [H1 [H2 H3]]. destruct (kernelStep_confined _ _ _ _ H1 H2 Hk) as [Ha [Hb _]]. split; [done|]. by apply H3. }
  cbn in Hinv. destruct Hinv as [H1 H2]. split; [done|]. intros B s k r f' -> Hk. destruct H2 as [H2 _].
  destruct (kernelStep_confined _ _ _ _ H1 H2 Hk) as [Ha [_ Hb]]. done.
Qed.
End Confined.

(** A volume with a link that leads out of it: the first call of a download is
    answered, and the link is reached below the volume's own descriptor. *)
Definition demoInode (n : node) : inode := MkInode n 0x1ff 1000 1000 0 0 [].
Definition demoFs : fs :=
  <[1 := demoInode (NDir (<["a" := 2]> ∅))]> (<[2 := demoInode (NLink "/etc/shadow")]> (<[100 := demoInode (NFile "secret")]> ∅)).
Lemma demoFs_volume : volume (fun i => i < 100) demoFs.
Proof.
  intros dir es name i Hd. unfold entries. destruct (demoFs !! dir) as [x|] eqn:E; [|done].
  unfold demoFs in E. apply lookup_insert_Some in E as [[<- <-]|[_ E]].
  - cbn. intros [= <-] [[<- <-]|[_ H]]%lookup_insert_Some; [split; [lia|done]|done].
  - apply lookup_insert_Some in E as [[<- <-]|[_ E]]; [done|]. by apply lookup_insert_Some in E as [[<- <-]|[_ E]].
Qed.
Lemma file_requests_confined_witness :
  exists p, serve "/data" id 9 (RDownload "/a") = Call OpenRoot p /\
  forall B (s : sys B) k r f', p (Ok 1) = Call s k ->
    kernelStep 1 65532 65532 (fun _ => 50) (fun _ => 0) (fun _ _ _ => Some 100) demoFs s r f' ->
    okCall (fun i => i < 100) s /\ okResult (fun i => i < 100) s r /\ f' !! 100 = demoFs !! 100.
Proof.
  assert (Hsv : exists p, serve "/data" id 9 (RDownload "/a") = Call OpenRoot p) by (eexists; reflexivity).
  destruct Hsv as [p Hp]. exists p. split; [exact Hp|]. intros B s k r f' Hs Hk.
  destruct (file_requests_confined 1 65532 65532 (fun _ => 50) (fun _ => 0) (fun _ _ _ => Some 100) (fun i => i < 100)
              ltac:(cbn; lia) ltac:(intros; cbn; lia) "/data" id 9 (RDownload "/a") demoFs demoFs (Call s k)) as [_ H].
  - exists ["data"]. split; [done|]. split; [repeat constructor|done].
  - done.
  - exact demoFs_volume.
  - eapply rtc_l; [|apply rtc_refl]. rewrite Hp, <- Hs. apply step_agent. left. reflexivity.
  - destruct (H B s k r f' eq_refl Hk) as (H1 & H2 & H3). split; [exact H1|]. split; [exact H2|]. apply H3. cbn. lia.
Defined.
