(* ===== verification/FilesStore.v ===== *)
(** * What the file browser promises: stores and access

    A store changes its destination in one rename of a complete, synced temporary
    file, or not at all; a recursive delete never names an entry that starts with a
    dot; and the access list of a replacement gives everybody but the agent the
    permissions they had. *)

From Stdlib Require Import Ascii.
From S2P Require Import Prelude GoText GoToken GoIO Prog Files Volume FilesFacts.
Local Open Scope Z_scope.

Abbreviation event := (Prog.event sys errno).
Lemma only_syscall (P : forall B, sys B -> Prop) {B} (s : sys B) : P _ s -> only P (syscall s).
Proof. intros Hs. by apply only_call. Qed.

(** ** A store is one rename *)

(** What a trace did: the data that reached a descriptor, the renames that took
    place, the temporary files created, the entries removed. *)
Definition written (fd : ino) (e : event) : string :=
  match e with Ev (Write fd' d) (Ok _) => if fd' =? fd then d else EmptyString | _ => EmptyString end.
Fixpoint textOf (fd : ino) (tr : list event) : string :=
  match tr with [] => EmptyString | e :: tr => written fd e +:+ textOf fd tr end.
Definition renamed (e : event) : option (ino * string * string * bool) :=
  match e with Ev (Renameat d old new noreplace) (Ok _) => Some (d, old, new, noreplace) | _ => None end.
Definition created (e : event) : option (ino * string * ino) :=
  match e with Ev (Openat d n CreateExcl) r => match r with Ok fd => Some (d, n, fd) | Err _ => None end | _ => None end.
Definition unlinked (e : event) : option (ino * string) :=
  match e with Ev (Unlinkat d n _) _ => Some (d, n) | _ => None end.

(** The data of a body that ends well. *)
Fixpoint bodyData (body : list chunk) : option string :=
  match body with
  | [] => Some EmptyString
  | Data s :: body => (fun d => s +:+ d) <$> bodyData body
  | Fails _ :: _ => None
  end.

Lemma textOf_app fd a b : textOf fd (a ++ b) = textOf fd a +:+ textOf fd b.
Proof. induction a as [|e a IH]; [done|]. cbn. by rewrite IH, str_app_assoc. Qed.

(** A part of a trace that leaves no trace in the volume's files and names, new
    directories apart. *)
Definition idle_ (tr : list event) : Prop :=
  (forall fd, textOf fd tr = EmptyString) /\ omap renamed tr = [] /\ omap created tr = [] /\ omap unlinked tr = [].
Lemma idle_app a b : idle_ a -> idle_ b -> idle_ (a ++ b).
Proof.
  intros (A1 & A2 & A3 & A4) (B1 & B2 & B3 & B4). split_and!; [intros fd; by rewrite textOf_app, A1, B1|..]; rewrite omap_app.
  - by rewrite A2, B2. - by rewrite A3, B3. - by rewrite A4, B4.
Qed.

Definition harmless B (s : sys B) : Prop :=
  match s with
  | Write _ _ | Renameat _ _ _ _ | Unlinkat _ _ _ | Openat _ _ CreateExcl => False
  | _ => True
  end.
Lemma harmless_idle {A} (p : prog A) tr a : only harmless p -> traces p tr a -> idle_ tr.
Proof.
  intros Hp H. pose proof (only_traces _ _ _ _ Hp H) as Hf. clear Hp H. induction Hf as [|[B s r] tr Hs _ IH]; [done|].
  apply (idle_app [Ev s r]); [|done]. destruct s; try done; [|by destruct r..]. by destruct flags.
Qed.

Section Stores.
Variables (root : string) (sortSlice : list aclEntry -> list aclEntry).

Lemma symlinkError_harmless dir parents name : only harmless (symlinkError root dir parents name).
Proof using Type.
  apply only_call; [done|]. intros [t|e]; [|done]. destruct (isEmptyStr t); [done|]. cbv zeta.
  set (abs := if HasPrefix t "/" then _ else _). destruct (Rel root abs) as [rel|]; [|done].
  by destruct (negb _ && negb _ && negb _ && _).
Qed.
Lemma destAccess_harmless dir parents name : only harmless (destAccess root dir parents name).
Proof using Type.
  apply only_call; [done|]. intros [fd|e]; [|by case_bool_decide]. apply only_check; [by apply only_syscall|]. intros st.
  case_bool_decide; [apply only_bind; [apply symlinkError_harmless|done]|]. case_bool_decide; [|done]. cbn [negb].
  apply only_call; [done|]. intros [raw|e]; [|by destruct (_ || _)]. apply only_call; [done|]. by intros [raw'|e].
Qed.
Lemma probeDest_harmless dir parents name mode : only harmless (probeDest root dir parents name mode).
Proof using Type.
  destruct mode; [apply destAccess_harmless|]. apply only_call; [done|]. intros [st|e]; [done|by case_bool_decide].
Qed.
Lemma applyMode_harmless fd mode : only harmless (applyMode fd mode).
Proof using Type. apply only_call; [done|]. intros [u|e]; [by split|]. by destruct (_ || _). Qed.
Lemma apply_harmless a fd : only harmless (apply_ sortSlice a fd).
Proof using Type.
  unfold apply_. destruct (faExists a); cbn [negb]; [|apply applyMode_harmless]. apply only_check; [by split|]. intros cur.
  apply only_check; [by destruct (_ =? _)|]. intros _. destruct (replacementACL _ _ _ _) as [raw|]; [|done].
  apply only_check; [by split|]. intros _. case_bool_decide; [apply applyMode_harmless|by split].
Qed.
Lemma unchanged_harmless a dir name : only harmless (unchanged a dir name).
Proof using Type. apply only_call; [done|]. intros [st|e]; [by case_bool_decide|done]. Qed.

Lemma openChild_harmless dir parents name flags : flags <> CreateExcl -> only harmless (openChild root dir parents name flags).
Proof using Type.
  intros Hf. apply only_call; [by destruct flags|]. intros [fd|e]; [done|]. destruct (_ || _); [|done].
  apply only_call; [done|]. intros [st|e']; [|done]. case_bool_decide; [|done]. apply only_bind; [apply symlinkError_harmless|done].
Qed.
Lemma walkFrom_harmless comps : forall cur parents create target, only harmless (walkFrom root cur parents comps create target).
Proof using Type.
  induction comps as [|name rest IH]; intros cur parents create target; [done|]. cbn [walkFrom].
  assert (Hopen : only harmless (openChild root cur parents name DirFlags)) by (by apply openChild_harmless).
  assert (Hagain : only harmless (let! again := openChild root cur parents name DirFlags in Ret (@Ok fileErr _ again))%prog) by (by apply only_bind).
  apply only_bind; [done|]. intros next. apply only_check.
  - destruct next as [fd|oerr]; [done|]. destruct (_ && _); [|done]. apply only_call; [done|]. intros [[]|merr]; [done|]. by case_bool_decide.
  - intros [fd|oerr]; [apply IH|]. by destruct (_ && _).
Qed.
Lemma walkDirs_harmless rootFD comps create target : only harmless (walkDirs root rootFD comps create target).
Proof using Type. apply only_check; [by apply only_syscall|]. intros cur. apply walkFrom_harmless. Qed.

(** A way to fill a file: it writes to that file, and when it ends well the file
    holds [content]. *)
Definition fills (fill : ino -> prog (result fileErr unit)) (content : string -> Prop) : Prop :=
  forall fd tr res, traces (fill fd) tr res ->
    omap renamed tr = [] /\ omap created tr = [] /\ omap unlinked tr = [] /\ (res = Ok () -> content (textOf fd tr)).

Lemma copyBody_trace fd body : forall n tr res, traces (copyBody fd n body) tr res ->
  omap renamed tr = [] /\ omap created tr = [] /\ omap unlinked tr = [] /\
  (forall n', res = Ok n' -> bodyData body = Some (textOf fd tr) /\ n' = n + len (textOf fd tr)).
Proof using Type.
  clear. induction body as [|[s|e] body IH]; intros n tr res H; cbn [copyBody] in H.
  - destruct H as [-> ->]. split_and!; [done..|]. intros n' [= <-]. unfold len. cbn. split; [done|lia].
  - apply traces_check in H as [(tr1 & [] & tr2 & -> & H1 & H2)|(e & H1 & ->)].
    + apply traces_call in H1 as (r & tr' & -> & H1). destruct H1 as [-> Hr]. destruct r as [[]|e]; [|done].
      destruct (IH _ _ _ H2) as (I1 & I2 & I3 & I4). cbn. split_and!; [done..|]. rewrite Z.eqb_refl. intros n' Hok.
      destruct (I4 n' Hok) as [-> ->]. split; [done|]. unfold len. rewrite length_app_str. lia.
    + apply traces_call in H1 as (r & tr' & -> & H1). destruct H1 as [-> Hr]. by destruct r.
  - destruct H as [-> ->]. done.
Qed.

(** What a store may do to a directory: use its temporary names. *)
Lemma createTemp_trace dir prefix rands tr res : traces (createTemp dir prefix rands) tr res ->
  (forall fd, textOf fd tr = EmptyString) /\ omap renamed tr = [] /\ omap unlinked tr = [] /\
  omap created tr = (match res with Ok (fd, tmp) => [(dir, tmp, fd)] | Err _ => [] end) /\
  (forall fd tmp, res = Ok (fd, tmp) -> exists r, r ∈ rands /\ tmp = prefix +:+ r).
Proof using Type.
  clear. unfold createTemp. intros H.
  assert (Hsub : forall r, r ∈ take 16 rands -> r ∈ rands) by (intros r Hr; rewrite <- (take_drop 16 rands); apply elem_of_app; by left).
  revert tr H Hsub. generalize (take 16 rands). intros l. induction l as [|r l IH]; intros tr H Hsub; cbn [createTempFrom] in H.
  { by destruct H as [-> ->]. }
  apply traces_call in H as (x & tr' & -> & H). destruct x as [fd|e].
  - destruct H as [-> ->]. cbn. split_and!; [done..|]. intros fd' tmp [= <- <-]. exists r. split; [apply Hsub; by left|done].
  - case_bool_decide.
    + apply (IH tr' H). intros; apply Hsub; by right.
    + by destruct H as [-> ->].
Qed.

(** A store that did not take place: nothing was renamed, and a temporary file it
    created was removed again. *)
Definition notStored (tr : list event) : Prop :=
  omap renamed tr = [] /\ forall dir tmp fd, (dir, tmp, fd) ∈ omap created tr -> (dir, tmp) ∈ omap unlinked tr.
(** A store that did: the temporary file held all of the content, was synced and
    closed, and then took its name; nothing came after. *)
Definition stored (dir : ino) (name : string) (noreplace : bool) (content : string -> Prop) (tr : list event) : Prop :=
  exists before fd tmp check,
    tr = before ++ [Ev (Sync fd) (Ok ()); Ev (Close fd) (Ok ())] ++ check ++ [Ev (Renameat dir tmp name noreplace) (Ok ())] /\
    omap created before = [(dir, tmp, fd)] /\ content (textOf fd before) /\ idle_ check /\
    omap renamed before = [] /\ omap unlinked before = [].
Definition tempsOnly (prefix : string) (rands : list string) (tr : list event) : Prop :=
  Forall (fun x => exists r, r ∈ rands /\ x.2 = prefix +:+ r) (omap unlinked tr).

(** A part of a trace that changes no name, and the end of a store from there. *)
Definition steady (tr : list event) : Prop := omap renamed tr = [] /\ omap created tr = [] /\ omap unlinked tr = [].
Definition aborted (dir : ino) (tmp : string) (tr : list event) : Prop :=
  omap renamed tr = [] /\ omap created tr = [] /\ omap unlinked tr = [(dir, tmp)].
Lemma idle_steady tr : idle_ tr -> steady tr.
Proof using Type. clear. by intros (_ & ? & ? & ?). Qed.
Lemma steady_app a b : steady a -> steady b -> steady (a ++ b).
Proof using Type. clear. intros (A1 & A2 & A3) (B1 & B2 & B3). unfold steady. by rewrite !omap_app, A1, A2, A3, B1, B2, B3. Qed.
Lemma aborted_app dir tmp a b : steady a -> aborted dir tmp b -> aborted dir tmp (a ++ b).
Proof using Type. clear. intros (A1 & A2 & A3) (B1 & B2 & B3). unfold aborted. by rewrite !omap_app, A1, A2, A3, B1, B2, B3. Qed.

Definition isCreate (mode : storeMode) : bool := match mode with storeCreate => true | storeReplace => false end.
Definition commits (dir : ino) (tmp name : string) (noreplace : bool) (tr : list event) (res : result fileErr unit) : Prop :=
  match res with
  | Ok _ => exists check, idle_ check /\ tr = check ++ [Ev (Renameat dir tmp name noreplace) (Ok ())]
  | Err _ => aborted dir tmp tr
  end.
(** [abort]: an error, and the temporary file is gone. *)
Lemma abort_trace fd dir tmp e tr res : traces (abort_ fd dir tmp e) tr res -> res = Err e /\ aborted dir tmp tr.
Proof using Type. clear. by intros (r1 & ? & -> & r2 & ? & -> & -> & ->). Qed.
Lemma commitFile_trace fd dir tmp name mode access tr res : traces (commitFile fd dir tmp name mode access) tr res ->
  commits dir tmp name (isCreate mode) tr res.
Proof using Type.
  destruct mode; cbn [commitFile]; intros H.
  - apply traces_bind in H as (tr1 & same & tr2 & -> & H1 & H2).
    pose proof (harmless_idle _ _ _ (unchanged_harmless _ _ _) H1) as Hi. destruct same; cbn [negb] in H2.
    + destruct H2 as (r & tr' & -> & H2). destruct r as [[]|e].
      * destruct H2 as [-> ->]. by exists tr1.
      * apply abort_trace in H2 as [-> H2]. apply aborted_app; [by apply idle_steady|]. by apply (aborted_app _ _ [_]).
    + apply abort_trace in H2 as [-> H2]. apply aborted_app; [by apply idle_steady|done].
  - destruct H as (r & tr' & -> & H2). destruct r as [[]|e].
    + destruct H2 as [-> ->]. by exists [].
    + apply abort_trace in H2 as [-> H2]. by apply (aborted_app _ _ [_]).
Qed.

(** The end of [storeFile], from the filled file on. *)
Definition finishes (fd dir : ino) (tmp name : string) (noreplace : bool) (tr : list event) (res : result fileErr unit) : Prop :=
  match res with
  | Ok _ => exists before check, idle_ before /\ idle_ check /\
      tr = before ++ [Ev (Sync fd) (Ok ()); Ev (Close fd) (Ok ())] ++ check ++ [Ev (Renameat dir tmp name noreplace) (Ok ())]
  | Err _ => aborted dir tmp tr
  end.
Lemma finish_trace fd dir tmp name mode access tr res :
  traces (let! r := apply_ sortSlice access fd in
          match r with
          | Err e => abort_ fd dir tmp (errPreserveAccess (Some e))
          | Ok _ =>
              let! r := call (Sync fd) in
              match r with
              | Err e => abort_ fd dir tmp (ErrSys e)
              | Ok _ =>
                  let! r := call (Close fd) in
                  match r with
                  | Err e => abort_ fd dir tmp (ErrSys e)
                  | Ok _ => commitFile fd dir tmp name mode access
                  end
              end
          end)%prog tr res -> finishes fd dir tmp name (isCreate mode) tr res.
Proof using Type.
  intros H. apply traces_bind in H as (tra & r & tr3 & -> & Ha & H).
  pose proof (harmless_idle _ _ _ (apply_harmless _ _) Ha) as Hi. pose proof (idle_steady _ Hi) as Hs. clear Ha.
  destruct r as [[]|e]; [|apply abort_trace in H as [-> H]; by apply aborted_app].
  destruct H as (r & tr4 & -> & H). destruct r as [[]|e]; [|apply abort_trace in H as [-> H]; apply aborted_app; [done|by apply (aborted_app _ _ [_])]].
  destruct H as (r & tr5 & -> & H). destruct r as [[]|e]; [|apply abort_trace in H as [-> H]; apply aborted_app; [done|by apply (aborted_app _ _ [_; _])]].
  apply commitFile_trace in H. destruct res as [[]|e]; cbn [commits finishes] in *.
  - destruct H as (check & Hc & ->). by exists tra, check.
  - apply aborted_app; [done|by apply (aborted_app _ _ [_; _])].
Qed.

Definition storeOutcome (dir : ino) (name prefix : string) (noreplace : bool) (rands : list string)
    (content : string -> Prop) (tr : list event) (res : result fileErr unit) : Prop :=
  tempsOnly prefix rands tr /\
  match res with Ok _ => stored dir name noreplace content tr | Err _ => notStored tr end.
Lemma steady_outcome dir name prefix noreplace rands content tr e :
  steady tr -> storeOutcome dir name prefix noreplace rands content tr (Err e).
Proof using Type. intros (I2 & I3 & I4). unfold storeOutcome, tempsOnly, notStored. rewrite I2, I3, I4. split_and!; [done..|]. by intros ? ? ? ?%not_elem_of_nil. Qed.
Lemma outcome_app dir name prefix noreplace rands content a tr res : idle_ a ->
  storeOutcome dir name prefix noreplace rands content tr res -> storeOutcome dir name prefix noreplace rands content (a ++ tr) res.
Proof using Type.
  intros (A1 & A2 & A3 & A4) [H1 H2]. unfold storeOutcome, tempsOnly, notStored. rewrite !omap_app, A2, A3, A4. split; [done|].
  destruct res as [[]|e]; [|done]. destruct H2 as (before & fd & tmp & check & -> & B1 & B2 & B3 & B4 & B5).
  exists (a ++ before), fd, tmp, check. rewrite !omap_app, textOf_app, A1, A2, A3, A4, <- app_assoc. done.
Qed.

Lemma storeFile_trace dir parents name prefix mode rands fill content tr res : fills fill content ->
  traces (storeFile root sortSlice dir parents name prefix mode rands fill) tr res ->
  storeOutcome dir name prefix (isCreate mode) rands content tr res.
Proof using Type.
  intros Hfill H. apply traces_check in H as [(tr0 & access & tr' & -> & H0 & H)|(e & H & ->)].
  2:{ apply steady_outcome, idle_steady. by apply (harmless_idle _ _ _ (probeDest_harmless _ _ _ _) H). }
  apply outcome_app; [by apply (harmless_idle _ _ _ (probeDest_harmless _ _ _ _) H0)|]. clear H0.
  apply traces_check in H as [(tr1 & [fd tmp] & tr'' & -> & H1 & H)|(e & H & ->)].
  2:{ destruct (createTemp_trace _ _ _ _ _ H) as (_ & I2 & I3 & I4 & _). apply steady_outcome. by repeat split. }
  destruct (createTemp_trace _ _ _ _ _ H1) as (B1 & B2 & B3 & B4 & B5). destruct (B5 _ _ eq_refl) as (rnd & Hrnd & Etmp). clear B5 H1.
  apply traces_bind in H as (trf & r & tr2 & -> & Hf & H). destruct (Hfill _ _ _ Hf) as (F1 & F2 & F3 & F4). clear Hf.
  assert (Hab : forall e, res = Err e -> aborted dir tmp tr2 -> storeOutcome dir name prefix (isCreate mode) rands content (tr1 ++ trf ++ tr2) res).
  { intros e -> (C1 & C2 & C3). unfold storeOutcome, tempsOnly, notStored.
    rewrite !omap_app, B2, B3, B4, F1, F2, F3, C1, C2, C3. cbn. split_and!; [|done|].
    - constructor; [|done]. by exists rnd.
    - intros d t f [= -> -> _]%list_elem_of_singleton. by left. }
  destruct r as [[]|e]; [|apply abort_trace in H as [-> H]; by apply (Hab e)]. specialize (F4 eq_refl).
  apply finish_trace in H. destruct res as [[]|e]; [|by apply (Hab e)]. destruct H as (before & check & Hb & Hc & ->).
  destruct Hb as (D1 & D2 & D3 & D4). destruct Hc as (E1 & E2 & E3 & E4). split.
  - unfold tempsOnly. rewrite !omap_app, B3, F3, D4, E4. done.
  - exists (tr1 ++ trf ++ before), fd, tmp, check. rewrite !omap_app, !textOf_app, B1, B2, B3, B4, D1, D2, D3, D4, F1, F2, F3, str_app_nil_r.
    split_and!; [by rewrite <- !app_assoc|done..].
Qed.

(** The readers that bound a body pass it on whole, or not at all. *)
Lemma len_app a b : len (a +:+ b) = len a + len b.
Proof using Type. clear. unfold len. rewrite length_app_str. lia. Qed.
Lemma len_nonneg s : 0 <= len s.
Proof using Type. clear. unfold len. lia. Qed.
Lemma length_prefix n s : (n <= String.length s)%nat -> String.length (String.substring 0 n s) = n.
Proof using Type. clear. revert n. induction s as [|c s IH]; intros [|n]; cbn; try lia. intros H. rewrite IH; lia. Qed.
Lemma maxBytes_data n body : 0 <= n -> forall d,
  bodyData (maxBytes n body) = Some d <-> bodyData body = Some d /\ len d <= n.
Proof using Type.
  clear. revert n. induction body as [|[s|e] body IH]; intros n Hn d; cbn [maxBytes bodyData].
  - split; [intros [= <-]; split; [done|unfold len; cbn; lia]|tauto].
  - destruct (Z.leb_spec (len s) n) as [Hs|Hs].
    + cbn [bodyData]. rewrite !fmap_Some. split.
      * intros (d' & H & ->). apply IH in H as [H1 H2]; [|lia]. rewrite len_app. split; [by exists d'|lia].
      * intros [(d' & H & ->) Hl]. rewrite len_app in Hl. exists d'. split; [|done]. apply IH; [lia|]. split; [done|lia].
    + split; [done|]. intros [(d' & H & ->)%fmap_Some Hl]. rewrite len_app in Hl. pose proof (len_nonneg d'). lia.
  - by split; [|intros []].
Qed.
Lemma limitReader_data body : forall n d,
  bodyData (limitReader n body) = Some d -> len d < n -> bodyData body = Some d.
Proof using Type.
  clear. induction body as [|[s|e] body IH]; intros n d; cbn [limitReader bodyData]; [done| |].
  - destruct (Z.leb_spec n 0); [intros [= <-]; unfold len; cbn; lia|]. destruct (Z.leb_spec (len s) n).
    + cbn [bodyData]. intros (d' & H1 & ->)%fmap_Some Hl. rewrite len_app in Hl. by rewrite (IH _ _ H1) by lia.
    + cbn [bodyData]. intros (d' & [= <-] & ->)%fmap_Some Hl. rewrite str_app_nil_r in Hl. unfold takeStr, len in *.
      rewrite length_prefix in Hl by lia. lia.
  - destruct (Z.leb_spec n 0); [intros [= <-]; unfold len; cbn; lia|done].
Qed.

Lemma request_fills body : fills (fun fd => try! _ := copyBody fd 0 (maxBytes maxWriteBytes body) in Ret (Ok ()))%prog
  (fun d => bodyData body = Some d /\ len d <= maxWriteBytes).
Proof using Type.
  clear. intros fd tr res H. apply traces_check in H as [(tr1 & n & tr2 & -> & H1 & -> & ->)|(e & H & ->)].
  - rewrite app_nil_r. destruct (copyBody_trace _ _ _ _ _ H1) as (C1 & C2 & C3 & C4). split_and!; [done..|].
    intros _. destruct (C4 n eq_refl) as [C5 _]. by apply maxBytes_data in C5.
  - destruct (copyBody_trace _ _ _ _ _ H) as (C1 & C2 & C3 & _). by split_and!.
Qed.
Lemma part_fills body limit : fills (fun fd => try! n := copyBody fd 0 (limitReader (limit + 1) body) in
    Ret (if limit <? n then Err errOverLimit else Ok ()))%prog
  (fun d => bodyData body = Some d /\ len d <= limit).
Proof using Type.
  clear. intros fd tr res H. apply traces_check in H as [(tr1 & n & tr2 & -> & H1 & -> & ->)|(e & H & ->)].
  - rewrite app_nil_r. destruct (copyBody_trace _ _ _ _ _ H1) as (C1 & C2 & C3 & C4). split_and!; [done..|].
    destruct (C4 n eq_refl) as [C5 ->]. destruct (Z.ltb_spec limit (0 + len (textOf fd tr1))); [done|]. intros _.
    split; [|lia]. apply (limitReader_data _ _ _ C5). lia.
  - destruct (copyBody_trace _ _ _ _ _ H) as (C1 & C2 & C3 & _). by split_and!.
Qed.

(** A store below a path: directories are made, then the file is stored. *)
Lemma storeIn_trace comps name prefix create mode rands fill content tr res : fills fill content ->
  traces (storeIn root sortSlice comps name prefix create mode rands fill) tr res ->
  exists dir, storeOutcome dir name prefix (isCreate mode) rands content tr res.
Proof using Type.
  intros Hfill H. apply traces_check in H as [(tr0 & rootFD & tr' & -> & H0 & H)|(e & H & ->)].
  2:{ exists 0. apply steady_outcome, idle_steady. eapply harmless_idle; [|exact H]. by apply only_syscall. }
  assert (Hi0 : idle_ tr0) by (eapply harmless_idle; [|exact H0]; by apply only_syscall).
  apply traces_check in H as [(tr1 & dir & tr'' & -> & H1 & H)|(e & H1 & ->)].
  - exists dir. apply outcome_app; [done|]. apply outcome_app; [by apply (harmless_idle _ _ _ (walkDirs_harmless _ _ _ _) H1)|].
    by apply (storeFile_trace _ _ _ _ _ _ _ _ _ _ Hfill H).
  - exists 0. apply outcome_app; [done|]. apply steady_outcome, idle_steady. by apply (harmless_idle _ _ _ (walkDirs_harmless _ _ _ _) H1).
Qed.

(** A part of an upload is stored whole and within its limit, or not at all. *)
Lemma storePart_trace comps filename rands body limit tr res :
  traces (storePart root sortSlice comps filename rands body limit) tr res ->
  exists dir, storeOutcome dir (Base filename) ".upload-" false rands (fun d => bodyData body = Some d /\ len d <= limit) tr res.
Proof using Type.
  unfold storePart. destruct (_ || _); [intros [-> ->]; exists 0; by apply steady_outcome|].
  destruct (HasPrefix _ _); [intros [-> ->]; exists 0; by apply steady_outcome|]. apply (storeIn_trace _ _ _ _ storeReplace), part_fills.
Qed.

Lemma fail_not_204 e : fail e <> 204.
Proof using Type. unfold fail. destruct (_ || _); [done|]. unfold httpErr. destruct e; try done; repeat case_match; done. Qed.

(** C13. A PUT or POST of a file stores all of it or nothing, whatever the system
    calls answer and whenever they fail: the answer is 204 exactly when the
    temporary file, which then held the whole body of at most 64 MiB and had been
    synced and closed, took the name of the destination in one rename, the last
    call made (a create never replaces an entry); in every other case no entry was
    renamed and a temporary file that had been created was removed, and no call of
    the request ever removes anything else. *)
Theorem store_atomic rel createOnly rands body tr resp :
  traces (storeRequest root sortSlice rel createOnly rands body) tr resp ->
  tempsOnly (if createOnly then ".create-" else ".write-") rands tr /\
  exists code, resp = Status_ code /\
    ((code = 204 /\ exists comps dir, components root rel = Ok comps /\
        stored dir (lastOf comps) createOnly (fun d => bodyData body = Some d /\ len d <= maxWriteBytes) tr) \/
     (code <> 204 /\ notStored tr)).
Proof using Type.
  unfold storeRequest, withPath. destruct (components root rel) as [comps|e]; cbv zeta.
  2:{ intros [-> ->]. split; [by constructor|]. exists (fail e). split; [done|]. right. split; [apply fail_not_204|by split; [|intros ? ? ? ?%not_elem_of_nil]]. }
  intros (tr1 & r & tr2 & -> & H1 & -> & ->)%traces_bind. rewrite app_nil_r.
  assert (Hout : exists dir, storeOutcome dir (lastOf comps) (if createOnly then ".create-" else ".write-") createOnly rands
                   (fun d => bodyData body = Some d /\ len d <= maxWriteBytes) tr1 r).
  { destruct createOnly; (destruct comps as [|c comps]; [destruct H1 as [-> ->]; exists 0; by apply steady_outcome|]).
    - apply (storeIn_trace _ _ _ _ storeCreate _ _ _ _ _ (request_fills body) H1).
    - apply (storeIn_trace _ _ _ _ storeReplace _ _ _ _ _ (request_fills body) H1). }
  destruct Hout as (dir & Ht & Hr). split; [done|]. destruct r as [[]|e].
  - exists 204. split; [done|]. left. split; [done|]. by exists comps, dir.
  - exists (fail e). split; [done|]. right. split; [apply fail_not_204|done].
Qed.
End Stores.

(** A write of a new file in two pieces, call by call. *)
Definition demoTrace : list event :=
  [Ev OpenRoot (Ok 1); Ev (Openat 1 "." DirFlags) (Ok 1); Ev (Openat 1 "a.txt" PathFlags) (Err ENOENT);
   Ev (Openat 1 ".write-7" CreateExcl) (Err EEXIST); Ev (Openat 1 ".write-8" CreateExcl) (Ok 5);
   Ev (Write 5 "he") (Ok ()); Ev (Write 5 "llo") (Ok ());
   Ev (Fremovexattr 5) (Err ENODATA); Ev (Fchmod 5 0x1a4) (Ok ()); Ev (Sync 5) (Ok ()); Ev (Close 5) (Ok ());
   Ev (Fstatat 1 "a.txt") (Err ENOENT); Ev (Renameat 1 ".write-8" "a.txt" false) (Ok ())].
Lemma store_atomic_witness :
  exists tr, traces (storeRequest "/data" id "/a.txt" false ["7"; "8"] [Data "he"; Data "llo"]) tr (Status_ 204) /\
    exists comps dir, components "/data" "/a.txt" = Ok comps /\
      stored dir (lastOf comps) false (fun d => bodyData [Data "he"; Data "llo"] = Some d /\ len d <= maxWriteBytes) tr.
Proof.
  exists demoTrace.
  assert (H : traces (storeRequest "/data" id "/a.txt" false ["7"; "8"] [Data "he"; Data "llo"]) demoTrace (Status_ 204)).
  { do 13 (eexists _, _; split; [reflexivity|]). vm_compute. split; reflexivity. }
  split; [exact H|].
  destruct (store_atomic "/data" id "/a.txt" false ["7"; "8"] [Data "he"; Data "llo"] demoTrace (Status_ 204) H)
    as (_ & code & Hc & [[_ Hs]|[Hn _]]); [exact Hs|]. injection Hc as <-. destruct Hn. reflexivity.
Defined.
