(* ===== verification/FilesAccess.v ===== *)
(** * What the file browser promises: access

    The access list of a replacement, checked the way acl(5) says the kernel checks
    it, gives everybody but the agent the access they had to the file replaced; and
    the bytes of an access list are read back as written. *)

From Stdlib Require Import Ascii Permutation.
From S2P Require Import Prelude GoIO Files.
Local Open Scope Z_scope.

(** ** The check of acl(5) *)

(** All the permissions wanted (bits 4, 2, 1) are among those given. *)
Definition grants (want perm : Z) : bool := Z.land perm want =? want.
Definition userEntry (uid : Z) (e : aclEntry) : bool := (aTag e =? aclUser) && (aId e =? uid).
Definition groupEntry (gid : Z) (groups : list Z) (e : aclEntry) : bool :=
  ((aTag e =? aclGroupObj) && bool_decide (gid ∈ groups)) || ((aTag e =? aclGroup) && bool_decide (aId e ∈ groups)).
(** What a mask leaves. *)
Definition masked (es : list aclEntry) (want : Z) : bool :=
  forallb (fun e => negb (aTag e =? aclMask) || grants want (aPerm e)) es.
Definition granted (want : Z) (who : aclEntry -> bool) (es : list aclEntry) : bool :=
  existsb (fun e => who e && grants want (aPerm e)) es.

(** A process of user [uid] in [groups] wants an access to a file of [owner] and
    group [gid]. *)
Definition allowed (owner gid : Z) (es : list aclEntry) (uid : Z) (groups : list Z) (want : Z) : bool :=
  if uid =? owner then granted want (fun e => aTag e =? aclUserObj) es
  else if existsb (userEntry uid) es then granted want (userEntry uid) es && masked es want
  else if existsb (groupEntry gid groups) es then granted want (groupEntry gid groups) es && masked es want
  else granted want (fun e => aTag e =? aclOther) es.

(** What the kernel keeps true of a file's access list: one entry for the owner,
    with the bits of the mode, and at most one mask. *)
Record aclOf (st : stat) (es : list aclEntry) : Prop := {
  acl_owner : List.filter (fun e => aTag e =? aclUserObj) es = [MkAcl aclUserObj (ownerPerm (stMode st)) aclUndefined];
  acl_mask : exists l, List.filter (fun e => aTag e =? aclMask) es = l /\ (length l <= 1)%nat }.

Lemma grants_land want a b : grants want (Z.land a b) = grants want a && grants want b.
Proof.
  unfold grants. apply eq_true_iff_eq. rewrite andb_true_iff, !Z.eqb_eq. split.
  - intros H. split; rewrite <- H at 2; apply Z.bits_inj'; intros n Hn; apply (f_equal (fun z => Z.testbit z n)) in H;
      rewrite !Z.land_spec in *; destruct (Z.testbit a n), (Z.testbit b n), (Z.testbit want n); done.
  - intros [Ha Hb]. by rewrite <- Z.land_assoc, Hb, Ha.
Qed.
Lemma grants_lor want a b : grants want a || grants want b = true -> grants want (Z.lor a b) = true.
Proof.
  unfold grants. rewrite orb_true_iff, !Z.eqb_eq. intros H. apply Z.bits_inj'. intros n Hn.
  destruct H as [H|H]; apply (f_equal (fun z => Z.testbit z n)) in H; rewrite ?Z.land_spec, ?Z.lor_spec in *;
    destruct (Z.testbit a n), (Z.testbit b n), (Z.testbit want n); done.
Qed.
Lemma grants_7 want : 0 <= want <= 7 -> grants want 7 = true.
Proof. intros H. unfold grants. assert (want = 0 \/ want = 1 \/ want = 2 \/ want = 3 \/ want = 4 \/ want = 5 \/ want = 6 \/ want = 7) as Hw by lia.
  by repeat destruct Hw as [->|Hw]; try subst want. Qed.

Lemma existsb_perm {A} (f : A -> bool) l l' : Permutation l l' -> existsb f l = existsb f l'.
Proof. induction 1 as [|x l l' _ IH|x y l|l1 l2 l3 _ IH1 _ IH2]; cbn; [done|by rewrite IH|by destruct (f x), (f y)|by rewrite IH1]. Qed.
Lemma forallb_perm {A} (f : A -> bool) l l' : Permutation l l' -> forallb f l = forallb f l'.
Proof. induction 1 as [|x l l' _ IH|x y l|l1 l2 l3 _ IH1 _ IH2]; cbn; [done|by rewrite IH|by destruct (f x), (f y)|by rewrite IH1]. Qed.
(** The check looks at the entries, not at their order. *)
#[export] Instance allowed_perm owner gid : Proper ((≡ₚ) ==> (=) ==> (=) ==> (=) ==> (=)) (allowed owner gid).
Proof.
  intros es es' Hp uid _ <- groups _ <- want _ <-. unfold allowed, granted, masked.
  by rewrite !(existsb_perm _ _ _ Hp), (forallb_perm _ _ _ Hp).
Qed.

(** ** The entries of a replacement *)

Definition frozen (e : aclEntry) : bool := (aTag e =? aclUser) || (aTag e =? aclGroup) || (aTag e =? aclGroupObj).
Definition freeze (m : Z) (e : aclEntry) : aclEntry := if frozen e then MkAcl (aTag e) (Z.land (aPerm e) m) (aId e) else e.
Definition kept (uid : Z) (e : aclEntry) : bool := negb ((aTag e =? aclMask) || userEntry uid e).

(** The loop keeps every entry but the mask and the owner's, frozen, and the new
    mask lets all of them through. *)
Lemma replaceEntries_spec uid om es : forall mask, let '(out, m) := replaceEntries uid om es mask in
  out = map (freeze om) (List.filter (kept uid) es) /\
  (forall want, grants want mask = true -> grants want m = true) /\
  (forall want e, e ∈ out -> frozen e = true -> grants want (aPerm e) = true -> grants want m = true).
Proof.
  induction es as [|e es IH]; intros mask; cbn [replaceEntries].
  { split_and!; [done|done|]. by intros want e ?%not_elem_of_nil. }
  cbn [List.filter]. unfold kept at 1, userEntry at 1. destruct (_ || _) eqn:Ek; cbn [negb]; [apply IH|].
  destruct (_ || _ || _) eqn:Ef.
  - specialize (IH (Z.lor mask (Z.land (aPerm e) om))). destruct (replaceEntries _ _ _ _) as [out m] eqn:Er.
    destruct IH as (-> & H1 & H2). cbn [map].
    assert (Hf : freeze om e = MkAcl (aTag e) (Z.land (aPerm e) om) (aId e)) by (unfold freeze, frozen; by rewrite Ef).
    rewrite Hf. split_and!; [done|..].
    + intros want Hw. apply H1, grants_lor. by rewrite Hw.
    + intros want e' [->|He]%elem_of_cons; [|by apply H2]. intros _ Hg. apply H1, grants_lor. cbn in Hg. by rewrite Hg, orb_true_r.
  - specialize (IH mask). destruct (replaceEntries _ _ _ _) as [out m] eqn:Er. destruct IH as (-> & H1 & H2).
    cbn [map]. assert (Hf : freeze om e = e) by (unfold freeze, frozen; by rewrite Ef). rewrite Hf. split_and!; [done|done|].
    intros want e' [->|He]%elem_of_cons; [|by apply H2]. unfold frozen. by rewrite Ef.
Qed.

(** Who an entry is for does not change when it is frozen. *)
Definition byName (who : aclEntry -> bool) : Prop := forall e p, who (MkAcl (aTag e) p (aId e)) = who e.
Lemma freeze_who who om e : byName who -> who (freeze om e) = who e.
Proof. intros Hw. unfold freeze. destruct (frozen e); [apply Hw|done]. Qed.

Section Replaced.
Variables (uid om : Z) (es : list aclEntry).
Let out := map (freeze om) (List.filter (kept uid) es).

Lemma kept_entries who : byName who -> (forall e, who e = true -> kept uid e = true) -> existsb who out = existsb who es.
Proof using Type.
  intros Hn Hk. unfold out. induction es as [|e l IH]; [done|]. cbn. destruct (kept uid e) eqn:Ek; cbn; rewrite IH.
  - by rewrite freeze_who.
  - destruct (who e) eqn:Ew; [|done]. by rewrite Hk in Ek.
Qed.
Lemma kept_granted who want : byName who -> (forall e, who e = true -> kept uid e = true /\ frozen e = true) ->
  granted want who out = granted want who es && grants want om.
Proof using Type.
  intros Hn Hk. unfold out, granted. induction es as [|e l IH]; [done|]. cbn. destruct (kept uid e) eqn:Ek; cbn; rewrite IH.
  - rewrite freeze_who by done. destruct (who e) eqn:Ew; [|done]. destruct (Hk e Ew) as [_ Ef]. unfold freeze. rewrite Ef. cbn.
    rewrite grants_land. by destruct (grants want (aPerm e)), (grants want om), (existsb _ l).
  - destruct (who e) eqn:Ew; [|done]. by destruct (Hk e Ew) as [Hk' _]; rewrite Hk' in Ek.
Qed.
Lemma kept_other want : granted want (fun e => aTag e =? aclOther) out = granted want (fun e => aTag e =? aclOther) es.
Proof using Type.
  unfold out, granted. induction es as [|e l IH]; [done|]. cbn [List.filter existsb]. destruct (Z.eqb_spec (aTag e) aclOther) as [E|E].
  - assert (Hk : kept uid e = true) by (unfold kept, userEntry; by rewrite E).
    assert (Hf : freeze om e = e) by (unfold freeze, frozen; by rewrite E).
    rewrite Hk. cbn [map existsb]. rewrite Hf, IH. by rewrite E.
  - destruct (kept uid e); cbn [map existsb]; rewrite IH; [|done].
    rewrite (freeze_who (fun e => aTag e =? aclOther)) by done. by rewrite (proj2 (Z.eqb_neq _ _) E).
Qed.
Lemma kept_no_mask want : masked out want = true.
Proof using Type.
  unfold out, masked. induction es as [|e l IH]; [done|]. cbn. destruct (kept uid e) eqn:Ek; [|done]. cbn. rewrite IH, andb_true_r.
  unfold kept in Ek. apply negb_true_iff, orb_false_iff in Ek as [Ek _]. unfold freeze. destruct (frozen e); cbn; by rewrite Ek.
Qed.
End Replaced.

Lemma maskOf_filter es : maskOf es = maskOf (List.filter (fun e => aTag e =? aclMask) es).
Proof.
  unfold maskOf. generalize 7. induction es as [|e es IH]; intros m; [done|]. cbn [foldl List.filter].
  destruct (aTag e =? aclMask) eqn:E; [|apply IH]. cbn [foldl]. by rewrite E, IH.
Qed.
Lemma masked_filter es want : masked es want = masked (List.filter (fun e => aTag e =? aclMask) es) want.
Proof.
  unfold masked. induction es as [|e es IH]; [done|]. cbn [forallb List.filter]. destruct (aTag e =? aclMask) eqn:E; [|done].
  cbn [forallb]. by rewrite E, IH.
Qed.
Lemma masked_maskOf st es want : aclOf st es -> 0 <= want <= 7 -> masked es want = grants want (maskOf es).
Proof.
  intros [_ (l & El & Hl)] Hw. rewrite maskOf_filter, masked_filter, El.
  assert (Hm : Forall (fun e => (aTag e =? aclMask) = true) l) by (rewrite <- El; apply Forall_forall; intros e He%list_elem_of_In; by apply List.filter_In in He as [_ He]).
  destruct l as [|e [|]]; [|apply Forall_inv in Hm|cbn in Hl; lia].
  - symmetry. by apply grants_7.
  - unfold maskOf. cbn. rewrite Hm. cbn. by rewrite andb_true_r.
Qed.

Section Replacement.
Variable sortSlice : list aclEntry -> list aclEntry.
Hypothesis sort_perm : forall l, Permutation l (sortSlice l).

(** The check on the entries of a replacement, part by part. *)
Lemma replaced_mask st es om want : 0 <= want <= 7 ->
  let '(out, m) := replaceEntries (stUid st) om es (ownerPerm (stMode st)) in
  masked (out ++ [MkAcl aclUser (ownerPerm (stMode st)) (stUid st); MkAcl aclMask m aclUndefined]) want = grants want m.
Proof using Type.
  clear sort_perm. intros Hw. pose proof (replaceEntries_spec (stUid st) om es (ownerPerm (stMode st))) as H. destruct (replaceEntries _ _ _ _) as [out m].
  destruct H as (-> & _ & _). unfold masked. rewrite forallb_app. change (forallb _ (map _ _)) with (masked (map (freeze om) (List.filter (kept (stUid st)) es)) want).
  rewrite kept_no_mask. cbn. by rewrite andb_true_r.
Qed.
Lemma granted_app want who a b : granted want who (a ++ b) = granted want who a || granted want who b.
Proof using Type. clear. apply existsb_app. Qed.

(** The effective permissions of a class of kept entries: what they had. *)
Lemma class_granted st es om m want who :
  let out := map (freeze om) (List.filter (kept (stUid st)) es) in
  byName who -> (forall e, who e = true -> kept (stUid st) e = true /\ frozen e = true) ->
  (forall e, e ∈ out -> frozen e = true -> grants want (aPerm e) = true -> grants want m = true) ->
  granted want who out && grants want m = granted want who es && grants want om.
Proof using Type.
  clear sort_perm. intros out Hn Hk Hm. pose proof (kept_granted (stUid st) om es who want Hn Hk) as Hr. cbv zeta in Hr. fold out in Hr.
  rewrite <- Hr. clear Hr. destruct (granted want who out) eqn:E; cbn [andb]; [|done]. apply existsb_exists in E as (e & He & [Hw Hg]%andb_true_iff).
  apply (Hm e); [by apply list_elem_of_In|by apply Hk|done].
Qed.

(** The owner before: no entry of theirs is left, and the mode had their access. *)
Lemma owner_dropped uid om es : existsb (userEntry uid) (map (freeze om) (List.filter (kept uid) es)) = false /\
  forall want, granted want (userEntry uid) (map (freeze om) (List.filter (kept uid) es)) = false.
Proof using Type.
  clear. unfold granted. induction es as [|e es [IH1 IH2]]; [done|]. cbn [List.filter]. destruct (kept uid e) eqn:Ek; [|done].
  unfold kept in Ek. apply negb_true_iff, orb_false_iff in Ek as [_ Ek]. cbn [map existsb].
  rewrite freeze_who, Ek by done. split; [exact IH1|exact IH2].
Qed.
Lemma owner_granted st es want : aclOf st es -> granted want (fun e => aTag e =? aclUserObj) es = grants want (ownerPerm (stMode st)).
Proof using Type.
  clear. intros [H _]. transitivity (granted want (fun e => aTag e =? aclUserObj) (List.filter (fun e => aTag e =? aclUserObj) es)).
  - unfold granted. clear H. induction es as [|e es IH]; [done|]. cbn [existsb List.filter]. destruct (aTag e =? aclUserObj) eqn:E; [|done].
    cbn [existsb]. by rewrite E, IH.
  - rewrite H. unfold granted. cbn. by rewrite orb_false_r.
Qed.

Lemma replaced_allowed st es newUID uid groups want :
  aclOf st es -> stUid st <> newUID -> uid <> newUID -> 0 <= want <= 7 ->
  allowed newUID (stGid st) (replacedEntries sortSlice st es (maskOf es)) uid groups want = allowed (stUid st) (stGid st) es uid groups want.
Proof using sort_perm.
  intros Hacl Hnew Huid Hw. unfold replacedEntries.
  pose proof (replaceEntries_spec (stUid st) (maskOf es) es (ownerPerm (stMode st))) as Hspec.
  pose proof (replaced_mask st es (maskOf es) want Hw) as Hmask.
  destruct (replaceEntries _ _ _ _) as [out m]. destruct Hspec as (-> & Hm1 & Hm2). rewrite <- sort_perm.
  set (out := map _ _) in *. set (extra := [_; _]) in *.
  unfold allowed. rewrite (proj2 (Z.eqb_neq _ _) Huid), Hmask, (masked_maskOf st es want Hacl Hw), !existsb_app, !granted_app.
  assert (X1 : existsb (userEntry uid) extra = (stUid st =? uid)) by (unfold extra, userEntry; cbn; by rewrite orb_false_r).
  assert (X2 : granted want (userEntry uid) extra = (stUid st =? uid) && grants want (ownerPerm (stMode st))) by (unfold extra, userEntry, granted; cbn; by rewrite orb_false_r).
  assert (X3 : existsb (groupEntry (stGid st) groups) extra = false) by done.
  assert (X4 : granted want (groupEntry (stGid st) groups) extra = false) by done.
  assert (X5 : granted want (fun e => aTag e =? aclOther) extra = false) by done.
  rewrite X1, X2, X3, X4, X5, !orb_false_r. clear X1 X2 X3 X4 X5 Hmask.
  destruct (Z.eqb_spec (stUid st) uid) as [E|E].
  - (* the owner before: the named entry, which the mask lets through *)
    subst uid. rewrite Z.eqb_refl, orb_true_r. destruct (owner_dropped (stUid st) (maskOf es) es) as [_ Hd]. unfold out. rewrite Hd. cbn [orb andb].
    rewrite (owner_granted st es want Hacl). destruct (grants want (ownerPerm (stMode st))) eqn:Eg; [|done]. by apply Hm1.
  - rewrite (proj2 (Z.eqb_neq uid (stUid st))) by congruence. cbn [andb]. rewrite !orb_false_r.
    assert (Hu : forall e, userEntry uid e = true -> kept (stUid st) e = true /\ frozen e = true).
    { intros e [Ht Hi]%andb_true_iff. unfold kept, frozen, userEntry. apply Z.eqb_eq in Ht as ->, Hi as ->. cbn.
      rewrite (proj2 (Z.eqb_neq uid (stUid st))) by congruence. done. }
    assert (Hg : forall e, groupEntry (stGid st) groups e = true -> kept (stUid st) e = true /\ frozen e = true).
    { intros e [[Ht _]%andb_true_iff|[Ht _]%andb_true_iff]%orb_true_iff; unfold kept, frozen, userEntry; apply Z.eqb_eq in Ht as ->; done. }
    unfold out. rewrite !kept_entries, kept_other by (try done; intros e He; (by apply Hu) || (by apply Hg)).
    rewrite !class_granted by (try done; intros e; apply Hm2). done.
Qed.
End Replacement.

(** ** The bytes of an access list *)

(** Permissions within the three bits. *)
Definition small (p : Z) : Prop := Z.land p 7 = p.
Lemma small_range p : small p <-> 0 <= p <= 7.
Proof. unfold small. change 7 with (Z.ones 3) at 1. rewrite Z.land_ones by lia. change (2 ^ 3) with 8. pose proof (Z.mod_pos_bound p 8). split; [lia|]. intros. apply Z.mod_small. lia. Qed.
Lemma small_land a b : small a -> small (Z.land a b).
Proof. unfold small. intros H. by rewrite <- Z.land_assoc, (Z.land_comm b), Z.land_assoc, H. Qed.
Lemma small_lor a b : small a -> small b -> small (Z.lor a b).
Proof. unfold small. intros Ha Hb. by rewrite Z.land_lor_distr_l, Ha, Hb. Qed.
Lemma small_mask a : small (Z.land a 7).
Proof. unfold small. by rewrite <- Z.land_assoc. Qed.

Record wfEntry (e : aclEntry) : Prop := {
  wf_tag : knownTag (aTag e) = true; wf_perm : small (aPerm e); wf_id : 0 <= aId e < 2 ^ 32 }.

Lemma knownTag_range t : knownTag t = true -> 0 <= t < 2 ^ 16.
Proof. unfold knownTag. rewrite !orb_true_iff, !Z.eqb_eq. unfold aclUserObj, aclUser, aclGroupObj, aclGroup, aclMask, aclOther. lia. Qed.

Lemma decode_encode_entries es : Forall wfEntry es -> decodeEntries (concat (map encodeEntry es)) = Some es.
Proof.
  induction 1 as [|e es [Ht Hp Hi] _ IH]; [done|]. pose proof (knownTag_range _ Ht) as Htr. apply small_range in Hp.
  destruct e as [t p i]. cbn [aTag aPerm aId] in *. cbn [map concat encodeEntry aTag aPerm aId le16 le32 app decodeEntries].
  change (le_u16 [u8 t; u8 (Z.shiftr t 8)]) with (le_u16 (le16 t ++ [])). change (le_u16 [u8 p; u8 (Z.shiftr p 8)]) with (le_u16 (le16 p ++ [])).
  change (le_u32 [u8 i; u8 (Z.shiftr i 8); u8 (Z.shiftr i 16); u8 (Z.shiftr i 24)]) with (le_u32 (le32 i ++ [])).
  rewrite !le_u16_le16, le_u32_le32 by lia. cbn [aTag aPerm]. rewrite (proj2 (Z.ltb_ge 7 p)) by lia. rewrite Ht. cbn [negb]. by rewrite IH.
Qed.
Lemma length_encodeACL es : length (concat (map encodeEntry es)) = (8 * length es)%nat.
Proof. induction es as [|e es IH]; [done|]. cbn [map concat]. rewrite length_app, IH. cbn. lia. Qed.
Lemma decode_encode es : Forall wfEntry es -> decodeACL (encodeACL es) = Some es.
Proof.
  intros H. unfold decodeACL, encodeACL. rewrite length_app, length_encodeACL. cbn [length le32].
  rewrite (proj2 (Z.ltb_ge _ 4)) by lia. replace (Z.of_nat (4 + 8 * length es) - 4) with (Z.of_nat (length es) * 8) by lia.
  rewrite Z.mod_mul by lia.
  change (le_u32 (take 4 (le32 2 ++ concat (map encodeEntry es)))) with 2.
  change (drop 4 (le32 2 ++ concat (map encodeEntry es))) with (concat (map encodeEntry es)).
  by rewrite decode_encode_entries.
Qed.

Lemma le_u32_range a b c d : is_byte a -> is_byte b -> is_byte c -> is_byte d -> 0 <= le_u32 [a; b; c; d] < 2 ^ 32.
Proof.
  unfold is_byte, le_u32, nthb. cbn [nth]. intros. rewrite (lor_shiftl_add a) by lia. change (2 ^ 8) with 256.
  rewrite (lor_shiftl_add _ _ 16) by (change (2 ^ 16) with 65536; lia). change (2 ^ 16) with 65536.
  rewrite (lor_shiftl_add _ _ 24) by (change (2 ^ 24) with 16777216; lia). change (2 ^ 24) with 16777216. change (2 ^ 32) with 4294967296. lia.
Qed.
Lemma decodeEntries_wf n : forall raw es, (length raw <= n)%nat -> Forall is_byte raw -> decodeEntries raw = Some es -> Forall wfEntry es.
Proof.
  induction n as [|n IH]; intros raw es Hn Hb H.
  { destruct raw; [|cbn in Hn; lia]. injection H as <-. constructor. }
  do 8 (destruct raw as [|? raw]; [try discriminate; injection H as <-; constructor|]).
  repeat (apply Forall_cons in Hb as [? Hb]).
  cbn [decodeEntries] in H. cbv zeta in H. cbn [aPerm aTag] in H. destruct (Z.ltb_spec 7 (le_u16 [z1; z2])); [done|].
  destruct (knownTag _) eqn:Ek; [|done]. cbn [negb] in H. destruct (decodeEntries raw) as [es'|] eqn:Er; [|done]. injection H as <-.
  constructor; [|apply (IH raw); [cbn in Hn; lia|done|done]]. constructor; cbn [aTag aPerm aId]; [done| |].
  - apply small_range. split; [|lia]. apply Z.lor_nonneg. rewrite Z.shiftl_nonneg. cbn. unfold is_byte in *. lia.
  - by apply le_u32_range.
Qed.

(** ** A replacement keeps the access of others *)

Lemma replaceEntries_wf uid om es : forall mask, Forall wfEntry es -> small mask ->
  let '(out, m) := replaceEntries uid om es mask in Forall wfEntry out /\ small m.
Proof.
  induction es as [|e es IH]; intros mask Hes Hm; [done|]. apply Forall_cons in Hes as [He Hes]. cbn [replaceEntries].
  destruct (_ || _); [by apply IH|]. destruct He as [Ht Hp Hi]. destruct (_ || _).
  - specialize (IH (Z.lor mask (Z.land (aPerm e) om)) Hes). destruct (replaceEntries _ _ _ _) as [out m].
    destruct IH as [H1 H2]; [by apply small_lor, small_land|]. split; [|done]. constructor; [|done]. constructor; [done|by apply small_land|done].
  - specialize (IH mask Hes Hm). destruct (replaceEntries _ _ _ _) as [out m]. destruct IH as [H1 H2]. split; [|done]. by constructor.
Qed.

(** The entries of a file: its access list, or else its mode. *)
Definition entriesOf (st : stat) (raw : list Z) : option (list aclEntry) :=
  if bool_decide (raw = []) then Some (modeEntries (stMode st)) else decodeACL raw.

Lemma modeEntries_acl st : aclOf st (modeEntries (stMode st)).
Proof. split; [done|]. exists []. split; [done|cbn; lia]. Qed.
Lemma modeEntries_wf mode : Forall wfEntry (modeEntries mode).
Proof. unfold modeEntries. do 3 (constructor; [constructor; cbn [aTag aPerm aId]; [done|apply small_mask|unfold aclUndefined; lia]|]). constructor. Qed.
Lemma entriesOf_wf st raw es : Forall is_byte raw -> entriesOf st raw = Some es -> Forall wfEntry es.
Proof.
  unfold entriesOf. case_bool_decide; [intros _ [= <-]; apply modeEntries_wf|]. intros Hb. unfold decodeACL.
  destruct (_ || _); [done|]. apply (decodeEntries_wf (length (drop 4 raw))); [done|by apply Forall_drop].
Qed.

Section Preserved.
Variable sortSlice : list aclEntry -> list aclEntry.
Hypothesis sort_perm : forall l, Permutation l (sortSlice l).
Hypothesis sort_sorted : forall l, StronglySorted (fun a b => aclLess b a = false) (sortSlice l).

(** C28. The access list that the agent gives to the file it puts in another's
    place grants every user but the agent itself exactly the access they had to
    the file replaced, under the check of acl(5), whatever their groups: the old
    owner through an entry of their own, the others with the permissions the old
    mask left them.  The list is encoded as the kernel reads it, in the order of
    tags the kernel asks for; a list that is there already for a file of the
    agent's own is kept. *)
Theorem acl_preserves_access st raw newUID es :
  Forall is_byte raw -> 0 <= stUid st < 2 ^ 32 -> entriesOf st raw = Some es -> aclOf st es ->
  exists raw' es', replacementACL sortSlice st raw newUID = Some raw' /\ entriesOf st raw' = Some es' /\
    (stUid st <> newUID -> raw' <> [] /\ StronglySorted (fun a b => aclLess b a = false) es') /\
    (forall uid groups want, uid <> newUID -> 0 <= want <= 7 ->
       allowed newUID (stGid st) es' uid groups want = allowed (stUid st) (stGid st) es uid groups want).
Proof using sort_perm sort_sorted.
  intros Hb Hu Ees Hacl. unfold replacementACL. destruct (Z.eqb_spec (stUid st) newUID) as [E|E].
  { exists raw, es. subst newUID. split_and!; done. }
  pose proof (entriesOf_wf st raw es Hb Ees) as Hwf.
  exists (encodeACL (replacedEntries sortSlice st es (maskOf es))), (replacedEntries sortSlice st es (maskOf es)). split_and!.
  - unfold entriesOf in Ees. case_bool_decide; [by injection Ees as <-|]. by rewrite Ees.
  - unfold entriesOf. rewrite bool_decide_false by done. apply decode_encode. unfold replacedEntries.
    pose proof (replaceEntries_wf (stUid st) (maskOf es) es (ownerPerm (stMode st)) Hwf (small_mask _)) as H.
    destruct (replaceEntries _ _ _ _) as [out m]. destruct H as [H1 H2]. rewrite <- sort_perm. apply Forall_app. split; [done|].
    constructor; [|constructor; [|done]]; constructor; try done. apply small_mask.
  - intros _. split; [done|]. unfold replacedEntries. destruct (replaceEntries _ _ _ _) as [out m]. apply sort_sorted.
  - intros uid groups want Hne Hw. by apply replaced_allowed.
Qed.
End Preserved.

(** A sort of one's own: [aclLess] is a strict weak order. *)
Definition aclLe (a b : aclEntry) : Prop := aclLess b a = false.
#[export] Instance aclLe_dec : RelDecision aclLe.
Proof. intros a b. unfold aclLe. apply _. Defined.
Lemma aclLe_spec a b : aclLe a b <-> aTag a < aTag b \/ (aTag a = aTag b /\ aId a <= aId b).
Proof.
  unfold aclLe, aclLess. destruct (Z.eqb_spec (aTag b) (aTag a)); cbn [negb].
  - rewrite Z.ltb_ge. lia.
  - rewrite Z.ltb_ge. lia.
Qed.
#[export] Instance aclLe_trans : Transitive aclLe.
Proof. intros a b c. rewrite !aclLe_spec. lia. Qed.
#[export] Instance aclLe_total : Total aclLe.
Proof. intros a b. rewrite !aclLe_spec. lia. Qed.

Definition aclSort : list aclEntry -> list aclEntry := merge_sort aclLe.

(** A file of the game's user 1000, mode 0670, with a grant for user 2000 that
    the mask cuts to read and execute. *)
Definition demoStat : stat := MkStat KReg 9 0x1b8 1000 100 0 0 0 0.
Definition demoAcl : list aclEntry :=
  [MkAcl aclUserObj 6 aclUndefined; MkAcl aclUser 7 2000; MkAcl aclGroupObj 6 aclUndefined; MkAcl aclMask 5 aclUndefined; MkAcl aclOther 0 aclUndefined].

Lemma acl_preserves_access_witness :
  exists raw' es', replacementACL aclSort demoStat (encodeACL demoAcl) 65532 = Some raw' /\ decodeACL raw' = Some es' /\
    allowed 65532 100 es' 1000 [] 6 = true /\ allowed 65532 100 es' 2000 [] 2 = false /\ allowed 65532 100 es' 2000 [] 5 = true.
Proof.
  destruct (acl_preserves_access aclSort (fun l => symmetry (merge_sort_Permutation aclLe l)) (fun l => StronglySorted_merge_sort aclLe l)
              demoStat (encodeACL demoAcl) 65532 demoAcl) as (raw' & es' & H1 & H2 & H3 & H4).
  - apply (bool_decide_unpack _). vm_compute. exact I.
  - cbn. lia.
  - vm_compute. reflexivity.
  - split; [vm_compute; reflexivity|]. eexists. split; [vm_compute; reflexivity|cbn; lia].
  - exists raw', es'. split; [exact H1|]. split; [|split_and!].
    + vm_compute in H1. injection H1 as <-. exact H2.
    + apply (eq_trans (H4 1000 [] 6 ltac:(lia) ltac:(lia))). vm_compute. reflexivity.
    + apply (eq_trans (H4 2000 [] 2 ltac:(lia) ltac:(lia))). vm_compute. reflexivity.
    + apply (eq_trans (H4 2000 [] 5 ltac:(lia) ltac:(lia))). vm_compute. reflexivity.
Defined.
