(* ===== verification/FilesRun.v ===== *)
(** * What the file browser promises: a file written is read back

    The handlers alone on a volume ([Volume.run]): what a write leaves behind, and
    what a read then finds. *)

From Stdlib Require Import Ascii.
From S2P Require Import Prelude GoText GoToken GoIO Prog Files Volume FilesFacts FilesStore.
Local Open Scope Z_scope.

Section Alone.
Variables (rootIno : ino) (agentUid agentGid : Z) (alloc : fs -> ino) (now : fs -> Z)
  (elsewhere : fs -> ino -> string -> option ino) (root : string) (sortSlice : list aclEntry -> list aclEntry).
Local Abbreviation sysStep := (sysStep rootIno agentUid agentGid alloc now elsewhere).
Local Abbreviation run := (run rootIno agentUid agentGid alloc now elsewhere).
Local Abbreviation child := (child elsewhere).

Lemma vrun_bind {A B} (p : prog A) (k : A -> prog B) f :
  run (pbind p k) f = match run p f with Some (a, f') => run (k a) f' | None => None end.
Proof using Type.
  revert f. induction p as [a|C s c IH|]; intros f; cbn [pbind Volume.run]; [done| |done].
  destruct (sysStep f s) as [r f']. apply IH.
Qed.
Lemma run_call {A B} (s : sys B) (k : result errno B -> prog A) f r f' : sysStep f s = (r, f') -> run (pbind (call s) k) f = run (k r) f'.
Proof using Type. intros H. rewrite vrun_bind. cbn [Volume.run call]. by rewrite H. Qed.
Lemma run_check {E A B} (p : prog (result E A)) (k : A -> prog (result E B)) f a f' :
  run p f = Some (Ok a, f') -> run (pcheck p k) f = run (k a) f'.
Proof using Type. intros H. unfold pcheck. by rewrite vrun_bind, H. Qed.
Lemma run_syscall {B} (s : sys B) f b f' : sysStep f s = (Ok b, f') -> run (syscall s) f = Some (Ok b, f').
Proof using Type. intros H. unfold syscall. by rewrite (run_call _ _ _ _ _ H). Qed.

(** A path of directories. *)
Inductive walks (f : fs) : ino -> list string -> ino -> Prop :=
| walks_nil cur : walks f cur [] cur
| walks_cons cur es name i es' rest d : plain name = true -> entries f cur = Some es -> es !! name = Some i ->
    entries f i = Some es' -> walks f i rest d -> walks f cur (name :: rest) d.

Lemma entries_dir f i es : entries f i = Some es -> exists x, f !! i = Some x /\ iNode x = NDir es.
Proof using Type. unfold entries. destruct (f !! i) as [x|]; [|done]. destruct (iNode x) eqn:E; [|done..]. intros [= <-]. by exists x. Qed.

Lemma child_entry f dir es name : plain name = true \/ tempName name = true -> entries f dir = Some es -> child f dir name = es !! name.
Proof using Type.
  intros Hn He. unfold child.
  assert (Ho : oneComponent name = true) by (destruct Hn; [by apply plain_one|by apply temp_one]).
  assert (Hd : String.eqb name "." = false).
  { apply String.eqb_neq. intros ->. by destruct Hn. }
  by rewrite Hd, Ho, He.
Qed.

Lemma openat_dir f dir es name i es' : plain name = true -> entries f dir = Some es -> es !! name = Some i -> entries f i = Some es' ->
  sysStep f (Openat dir name DirFlags) = (Ok i, f).
Proof using Type.
  intros Hn He Hi (x & Hx & Ex)%entries_dir. cbn [Volume.sysStep]. unfold openat.
  rewrite (child_entry f dir es) by (by left + done). rewrite Hi, Hx, Ex. done.
Qed.
Lemma openat_self f dir es : entries f dir = Some es -> sysStep f (Openat dir "." DirFlags) = (Ok dir, f).
Proof using Type. intros (x & Hx & Ex)%entries_dir. cbn [Volume.sysStep]. unfold openat. cbn [Volume.child String.eqb]. cbn. by rewrite Hx, Ex. Qed.

Lemma walkFrom_run f comps : forall cur ps d create target, walks f cur comps d -> run (walkFrom root cur ps comps create target) f = Some (Ok d, f).
Proof using Type.
  induction comps as [|name rest IH]; intros cur ps d create target H; inversion H as [|? es ? i es' ? ? Hn He Hi He' Hw]; subst; [done|].
  cbn [walkFrom]. unfold openChild at 1. rewrite vrun_bind. rewrite (run_call _ _ _ _ _ (openat_dir _ _ _ _ _ _ Hn He Hi He')).
  cbn [Volume.run]. unfold pcheck. rewrite vrun_bind. cbn [Volume.run]. by apply IH.
Qed.
Lemma walkDirs_run f es comps d create target : entries f rootIno = Some es -> walks f rootIno comps d ->
  run (walkDirs root rootIno comps create target) f = Some (Ok d, f).
Proof using Type. intros He Hw. unfold walkDirs. rewrite (run_check _ _ _ _ _ (run_syscall _ _ _ _ (openat_self _ _ _ He))). by apply walkFrom_run. Qed.

Lemma copyBody_run body : forall fd f x d0 d n, f !! fd = Some x -> iNode x = NFile d0 -> bodyData body = Some d ->
  run (copyBody fd n body) f = Some (Ok (n + len d), <[fd := with_node x (NFile (d0 +:+ d))]> f).
Proof using Type.
  induction body as [|[s|e] body IH]; intros fd f x d0 d n Hx En Hd; cbn [bodyData copyBody] in *.
  - injection Hd as <-. cbn [Volume.run]. rewrite str_app_nil_r. rewrite insert_id; [unfold len; cbn; by rewrite Z.add_0_r|].
    rewrite Hx. destruct x; cbn in *. by rewrite En.
  - apply fmap_Some in Hd as (d' & Hd & ->).
    assert (Hs : sysStep f (Write fd s) = (Ok (), <[fd := with_node x (NFile (d0 +:+ s))]> f)).
    { cbn [Volume.sysStep]. unfold with_inode. by rewrite Hx, En. }
    rewrite (run_check _ _ _ _ _ (run_syscall _ _ _ _ Hs)). rewrite (IH fd _ (with_node x (NFile (d0 +:+ s))) (d0 +:+ s) d'); [|by rewrite lookup_insert_eq|done|done].
    rewrite insert_insert_eq, len_app, str_app_assoc, Z.add_assoc. done.
  - done.
Qed.

(** The metadata of the replaced file, on the new one. *)
Definition given (a : fileAccess) (x x' : inode) : Prop :=
  iNode x' = iNode x /\ iUid x' = iUid x /\
  (if faExists a then iGid x' = stGid (faStat a) /\ iMode x' = Z.land (stMode (faStat a)) 0x1ff /\
                      replacementACL sortSlice (faStat a) (faAcl a) (iUid x) = Some (iAcl x')
   else iMode x' = 0x1a4 /\ iAcl x' = []).

Lemma update_run f i x g : f !! i = Some x -> update f i g = (Ok (), <[i := g x]> f).
Proof using Type. intros H. unfold update, with_inode. by rewrite H. Qed.
Lemma applyMode_run f i x mode : f !! i = Some x ->
  run (applyMode i mode) f = Some (Ok (), <[i := MkInode (iNode x) mode (iUid x) (iGid x) (iMtim x) (iCtim x) []]> f).
Proof using Type.
  intros Hx. unfold applyMode. erewrite run_call; [|cbn [Volume.sysStep]; apply (update_run _ _ _ _ Hx)].
  unfold call. cbn [Volume.run Volume.sysStep]. erewrite update_run; [|by rewrite lookup_insert_eq]. by rewrite insert_insert_eq.
Qed.
Lemma apply_run a f i x : f !! i = Some x -> (faExists a = true -> is_Some (replacementACL sortSlice (faStat a) (faAcl a) (iUid x))) ->
  exists x', run (apply_ sortSlice a i) f = Some (Ok (), <[i := x']> f) /\ given a x x'.
Proof using Type.
  intros Hx Hacl. unfold apply_, given. destruct (faExists a); cbn [negb].
  2:{ eexists. split; [by apply applyMode_run|done]. }
  destruct (Hacl eq_refl) as [raw Hraw]. clear Hacl.
  assert (Hst : run (call (Fstat i)) f = Some (Ok (statOf i x), f)) by (unfold call; cbn [Volume.run Volume.sysStep]; unfold with_inode; by rewrite Hx).
  rewrite (run_check _ _ _ _ _ Hst). cbn [stGid statOf stUid].
  set (x1 := MkInode (iNode x) (iMode x) (iUid x) (stGid (faStat a)) (iMtim x) (iCtim x) (iAcl x)).
  assert (Hg : run (if iGid x =? stGid (faStat a) then Ret (Ok ()) else call (Fchown i (stGid (faStat a)))) f = Some (Ok (), <[i := x1]> f)).
  { destruct (Z.eqb_spec (iGid x) (stGid (faStat a))) as [E|E]; [|unfold call; cbn [Volume.run Volume.sysStep]; by rewrite (update_run _ _ _ _ Hx)].
    cbn [Volume.run]. rewrite insert_id; [done|]. rewrite Hx. unfold x1. rewrite <- E. by destruct x. }
  rewrite (run_check _ _ _ _ _ Hg), Hraw. unfold call at 1. cbn [pcheck pbind Volume.run Volume.sysStep].
  erewrite update_run; [|by rewrite lookup_insert_eq]. rewrite insert_insert_eq. case_bool_decide as Er.
  - eexists. split; [erewrite applyMode_run; [by rewrite insert_insert_eq|by rewrite lookup_insert_eq]|]. by rewrite Er.
  - eexists. split; [unfold call; cbn [Volume.run Volume.sysStep]; erewrite update_run; [by rewrite insert_insert_eq|by rewrite lookup_insert_eq]|]. done.
Qed.

(** What a store finds: a directory, a name that is free or that of a regular file
    whose access the agent can reproduce, a temporary name and an inode that are
    free. *)
Record storable (f : fs) (d : ino) (es : gmap string ino) (name tmp : string) : Prop := {
  sb_dir : entries f d = Some es; sb_name : plain name = true; sb_tmp : tempName tmp = true;
  sb_free : es !! tmp = None; sb_fresh : f !! alloc f = None;
  sb_dest : forall j, es !! name = Some j -> exists x d0, f !! j = Some x /\ iNode x = NFile d0 /\
    is_Some (replacementACL sortSlice (statOf j x) (iAcl x) agentUid) }.
Definition accessOf (f : fs) (es : gmap string ino) (name : string) : fileAccess :=
  match es !! name with
  | Some j => match f !! j with Some x => MkAccess true (statOf j x) (iAcl x) | None => noAccess end
  | None => noAccess
  end.

Lemma destAccess_run f d es name tmp ps : storable f d es name tmp ->
  run (destAccess root d ps name) f = Some (Ok (accessOf f es name), f).
Proof using Type.
  intros [He Hn Ht Hf Hi Hd]. unfold destAccess, accessOf.
  destruct (es !! name) as [j|] eqn:Ej.
  - destruct (Hd j eq_refl) as (x & d0 & Hx & Ex & _). rewrite Hx.
    assert (Ho : sysStep f (Openat d name PathFlags) = (Ok j, f)).
    { cbn [Volume.sysStep]. unfold openat. rewrite (child_entry f d es) by (by left + done). by rewrite Ej, Hx. }
    rewrite (run_call _ _ _ _ _ Ho).
    assert (Hs : sysStep f (Fstat j) = (Ok (statOf j x), f)) by (cbn [Volume.sysStep]; unfold with_inode; by rewrite Hx).
    rewrite (run_check _ _ _ _ _ (run_syscall _ _ _ _ Hs)). cbn [stKind statOf]. rewrite Ex. cbn [kindOf].
    rewrite bool_decide_false, bool_decide_true by done. cbn [negb].
    assert (Hg : sysStep f (Getxattr j) = (match iAcl x with [] => Err ENODATA | acl => Ok acl end, f)).
    { cbn [Volume.sysStep]. unfold with_inode. rewrite Hx. by destruct (iAcl x). }
    rewrite (run_call _ _ _ _ _ Hg). destruct (iAcl x) eqn:Ea; [done|]. by rewrite (run_call _ _ _ _ _ Hg).
  - assert (Ho : sysStep f (Openat d name PathFlags) = (Err ENOENT, f)).
    { cbn [Volume.sysStep]. unfold openat. rewrite (child_entry f d es) by (by left + done). by rewrite Ej. }
    by rewrite (run_call _ _ _ _ _ Ho).
Qed.
Lemma probeDest_run f d es name tmp ps mode : storable f d es name tmp -> (mode = storeCreate -> es !! name = None) ->
  run (probeDest root d ps name mode) f = Some (Ok (accessOf f es name), f).
Proof using Type.
  intros Hs Hm. destruct mode; [by eapply destAccess_run|]. specialize (Hm eq_refl). destruct Hs as [He Hn Ht Hf Hi Hd].
  assert (Ho : sysStep f (Fstatat d name) = (Err ENOENT, f)).
  { cbn [Volume.sysStep]. rewrite (child_entry f d es) by (by left + done). by rewrite Hm. }
  cbn [probeDest]. rewrite (run_call _ _ _ _ _ Ho). unfold accessOf. by rewrite Hm.
Qed.

(** The volume with the temporary file in it, whatever the file is by now. *)
Definition withTemp (f : fs) (d : ino) (es : gmap string ino) (tmp : string) (x : inode) : fs :=
  <[alloc f := x]> (set_entries f d (<[tmp := alloc f]> es)).
Lemma withTemp_file f d es tmp x : withTemp f d es tmp x !! alloc f = Some x.
Proof using Type. apply lookup_insert_eq. Qed.
Lemma withTemp_put f d es tmp x x' : <[alloc f := x']> (withTemp f d es tmp x) = withTemp f d es tmp x'.
Proof using Type. apply insert_insert_eq. Qed.
Lemma set_entries_dir f d es es' : entries f d = Some es -> entries (set_entries f d es') d = Some es'.
Proof using Type. intros (x & Hx & _)%entries_dir. unfold set_entries, entries. rewrite Hx, lookup_insert_eq. done. Qed.
Lemma set_entries_other f d es' i : i <> d -> set_entries f d es' !! i = f !! i.
Proof using Type. intros Hne. unfold set_entries. destruct (f !! d); [|done]. by rewrite lookup_insert_ne. Qed.
Lemma fresh_not_dir f d es : entries f d = Some es -> f !! alloc f = None -> alloc f <> d.
Proof using Type. intros (x & Hx & _)%entries_dir Hi E. congruence. Qed.
Lemma withTemp_dir f d es tmp x : entries f d = Some es -> f !! alloc f = None ->
  entries (withTemp f d es tmp x) d = Some (<[tmp := alloc f]> es).
Proof using Type.
  intros He Hi. pose proof (fresh_not_dir _ _ _ He Hi). unfold withTemp, entries. rewrite lookup_insert_ne by done.
  apply (set_entries_dir f d es _ He).
Qed.
Lemma withTemp_other f d es tmp x i : i <> d -> i <> alloc f -> withTemp f d es tmp x !! i = f !! i.
Proof using Type. intros H1 H2. unfold withTemp. rewrite lookup_insert_ne by done. by apply set_entries_other. Qed.
Lemma plain_temp n t : plain n = true -> tempName t = true -> n <> t.
Proof using Type.
  clear. intros Hn Ht ->. unfold plain in Hn. apply andb_true_iff in Hn as [_ Hn]. unfold tempName in Ht. apply andb_true_iff in Ht as [_ Ht].
  destruct t as [|c t]; [done|]. unfold HasPrefix in *. cbn [String.prefix] in *. destruct (ascii_dec "." c); [by destruct t|done].
Qed.

(** The file as created. *)
Definition newFile (f : fs) : inode := MkInode (NFile EmptyString) 0x180 agentUid agentGid (now f) (now f) [].
Lemma createTemp_run f d es name tmp prefix r rands : storable f d es name tmp -> tmp = prefix +:+ r ->
  run (createTemp d prefix (r :: rands)) f = Some (Ok (alloc f, tmp), withTemp f d es tmp (newFile f)).
Proof using Type.
  intros [He Hn Ht Hf Hi Hd] ->. unfold createTemp. cbn [take createTempFrom].
  assert (Ho : sysStep f (Openat d (prefix +:+ r) CreateExcl) = (Ok (alloc f), withTemp f d es (prefix +:+ r) (newFile f))).
  { cbn [Volume.sysStep]. unfold openat. rewrite He, (child_entry f d es) by (by right + done). rewrite Hf, (temp_one _ Ht). done. }
  by rewrite (run_call _ _ _ _ _ Ho).
Qed.

(** The destination as it was when it is looked at again. *)
Lemma unchanged_run f d es name tmp x : storable f d es name tmp ->
  run (unchanged (accessOf f es name) d name) (withTemp f d es tmp x) = Some (true, withTemp f d es tmp x).
Proof using Type.
  intros [He Hn Ht Hf Hi Hd]. unfold unchanged, accessOf. set (g := withTemp f d es tmp x).
  assert (Hc : child g d name = es !! name).
  { rewrite (child_entry g d (<[tmp := alloc f]> es)); [|by left|by apply withTemp_dir]. apply lookup_insert_ne. intros E. by apply (plain_temp name tmp). }
  destruct (es !! name) as [j|] eqn:Ej.
  - destruct (Hd j eq_refl) as (y & d0 & Hy & Ey & _). rewrite Hy.
    assert (Hj : g !! j = Some y).
    { unfold g. rewrite withTemp_other; [done|intros ->|intros ->; congruence].
      apply entries_dir in He as (xd & Hxd & Exd). congruence. }
    assert (Hs : sysStep g (Fstatat d name) = (Ok (statOf j y), g)) by (cbn [Volume.sysStep]; rewrite Hc; unfold with_inode; by rewrite Hj).
    rewrite (run_call _ _ _ _ _ Hs). cbn [stKind statOf faExists faStat stDev stIno stCtim stUid stGid stMode]. rewrite Ey. cbn [kindOf].
    rewrite bool_decide_false by done. rewrite !Z.eqb_refl. done.
  - assert (Hs : sysStep g (Fstatat d name) = (Err ENOENT, g)) by (cbn [Volume.sysStep]; by rewrite Hc).
    by rewrite (run_call _ _ _ _ _ Hs).
Qed.

(** The volume a store leaves: the new file under its name. *)
Definition withFile (f : fs) (d : ino) (es : gmap string ino) (tmp name : string) (x : inode) : fs :=
  set_entries (withTemp f d es tmp x) d (<[name := alloc f]> es).
Lemma commitFile_run f d es name tmp fd x mode : storable f d es name tmp -> (mode = storeCreate -> es !! name = None) ->
  run (commitFile fd d tmp name mode (accessOf f es name)) (withTemp f d es tmp x) = Some (Ok (), withFile f d es tmp name x).
Proof using Type.
  intros Hst Hm. pose proof Hst as [He Hn Ht Hf Hi Hd]. set (g := withTemp f d es tmp x).
  assert (Hg : entries g d = Some (<[tmp := alloc f]> es)) by (by apply withTemp_dir).
  assert (Hc : child g d name = es !! name).
  { rewrite (child_entry g d (<[tmp := alloc f]> es)) by (done || by left). apply lookup_insert_ne. intros E. by apply (plain_temp name tmp). }
  assert (Ht' : child g d tmp = Some (alloc f)) by (rewrite (child_entry g d _ tmp (or_intror Ht) Hg); apply lookup_insert_eq).
  assert (Hdel : delete tmp (<[tmp := alloc f]> es) = es) by (rewrite delete_insert_eq; by apply delete_id).
  assert (Hr : sysStep g (Renameat d tmp name (isCreate mode)) = (Ok (), withFile f d es tmp name x)).
  { cbn [Volume.sysStep]. rewrite Hg, Ht', Hc, Hdel. destruct (es !! name) as [j|] eqn:Ej; [|by rewrite (plain_one _ Hn)].
    destruct mode; [|by specialize (Hm eq_refl)]. cbn [isCreate]. destruct (Hd j eq_refl) as (y & d0 & Hy & Ey & _). unfold with_inode, g.
    rewrite withTemp_other, Hy, Ey; [done|intros ->|intros ->; congruence]. apply entries_dir in He as (xd & Hxd & Exd). congruence. }
  destruct mode; cbn [commitFile isCreate] in *.
  - rewrite vrun_bind. unfold g. rewrite unchanged_run by done. cbn [negb]. by rewrite (run_call _ _ _ _ _ Hr).
  - by rewrite (run_call _ _ _ _ _ Hr).
Qed.

Lemma storeFile_run f d es ps name prefix mode r rands fill data :
  storable f d es name (prefix +:+ r) -> (mode = storeCreate -> es !! name = None) ->
  (forall g x, g !! alloc f = Some x -> iNode x = NFile EmptyString ->
     run (fill (alloc f)) g = Some (Ok (), <[alloc f := with_node x (NFile data)]> g)) ->
  exists x, run (storeFile root sortSlice d ps name prefix mode (r :: rands) fill) f =
              Some (Ok (), withFile f d es (prefix +:+ r) name x) /\
            given (accessOf f es name) (with_node (newFile f) (NFile data)) x.
Proof using Type.
  intros Hst Hm Hfill. unfold storeFile. rewrite (run_check _ _ _ _ _ (probeDest_run _ _ _ _ _ ps _ Hst Hm)).
  rewrite (run_check _ _ _ _ _ (createTemp_run _ _ _ _ _ _ _ rands Hst eq_refl)).
  rewrite vrun_bind, (Hfill _ (newFile f)), withTemp_put by (done || apply withTemp_file).
  set (y := with_node (newFile f) (NFile data)). set (g := withTemp f d es (prefix +:+ r) y).
  destruct (apply_run (accessOf f es name) g (alloc f) y) as (x & Hrun & Hx).
  { apply withTemp_file. }
  { unfold accessOf. destruct (es !! name) as [j|] eqn:Ej; [|done].
    destruct (sb_dest _ _ _ _ _ Hst j Ej) as (z & d0 & Hz & _ & Ha). rewrite Hz. done. }
  exists x. split; [|done]. rewrite vrun_bind, Hrun. unfold g. rewrite withTemp_put.
  rewrite (run_call (Sync (alloc f)) _ _ (Ok ()) _ eq_refl), (run_call (Close (alloc f)) _ _ (Ok ()) _ eq_refl).
  by apply commitFile_run.
Qed.

(** A path whose directories are not the destination is still there. *)
Lemma withFile_file f d es tmp name x : entries f d = Some es -> f !! alloc f = None -> withFile f d es tmp name x !! alloc f = Some x.
Proof using Type.
  intros He Hi. pose proof (fresh_not_dir _ _ _ He Hi). unfold withFile. rewrite set_entries_other by done. apply withTemp_file.
Qed.
Lemma withFile_dir f d es tmp name x : entries f d = Some es -> f !! alloc f = None ->
  entries (withFile f d es tmp name x) d = Some (<[name := alloc f]> es).
Proof using Type. intros He Hi. unfold withFile. eapply set_entries_dir. by apply withTemp_dir. Qed.
Lemma withFile_other f d es tmp name x i : i <> d -> i <> alloc f -> withFile f d es tmp name x !! i = f !! i.
Proof using Type. intros H1 H2. unfold withFile. rewrite set_entries_other by done. by apply withTemp_other. Qed.
Lemma withFile_entries f d es tmp name x i es' : entries f d = Some es -> f !! alloc f = None -> entries f i = Some es' ->
  exists es2, entries (withFile f d es tmp name x) i = Some es2 /\ forall n, n <> name -> es2 !! n = es' !! n.
Proof using Type.
  intros He Hi He'. destruct (decide (i = d)) as [->|Hne].
  - exists (<[name := alloc f]> es). split; [by apply withFile_dir|]. intros n Hn. rewrite lookup_insert_ne by done. congruence.
  - exists es'. split; [|done]. unfold entries. rewrite withFile_other; [exact He'|done|]. eapply not_eq_sym, fresh_not_dir; done.
Qed.
Lemma walks_withFile f d es tmp name x comps : forall cur d', entries f d = Some es -> f !! alloc f = None ->
  (forall j, es !! name = Some j -> entries f j = None) -> walks f cur comps d' -> walks (withFile f d es tmp name x) cur comps d'.
Proof using Type.
  intros cur d' He Hi Hj Hw. induction Hw as [cur|cur ec n i ei rest d' Hn Hc Hci Hei Hw IH]; [constructor|].
  destruct (withFile_entries f d es tmp name x cur ec He Hi Hc) as (ec2 & Hc2 & Hsame).
  destruct (withFile_entries f d es tmp name x i ei He Hi Hei) as (ei2 & Hei2 & _).
  eapply walks_cons; [done|exact Hc2| |exact Hei2|exact IH].
  destruct (decide (n = name)) as [->|Hne]; [|by rewrite Hsame].
  destruct (decide (cur = d)) as [->|Hcd].
  - assert (ec = es) as -> by congruence. rewrite (Hj i Hci) in Hei. done.
  - assert (E : entries (withFile f d es tmp name x) cur = entries f cur).
    { unfold entries. rewrite withFile_other; [done|done|]. eapply not_eq_sym, fresh_not_dir; done. }
    congruence.
Qed.

(** A read of a regular file. *)
Lemma read_run f d er es comps i x data rel : components root rel = Ok comps -> comps <> [] -> entries f rootIno = Some er ->
  walks f rootIno (parentsOf comps) d -> entries f d = Some es -> plain (lastOf comps) = true -> es !! lastOf comps = Some i ->
  f !! i = Some x -> iNode x = NFile data -> len data <= maxRead ->
  run (read root rel) f = Some (Content (lastOf comps) data, f).
Proof using Type.
  intros Hc Hne Hr Hw Hd Hp Hi Hx Ex Hl. unfold read, readOrDownload, withPath. rewrite Hc, vrun_bind.
  assert (Hopen : run (openFile root comps) f = Some (Ok (i, lastOf comps), f)).
  { unfold openFile. rewrite (run_check _ _ _ rootIno f (run_syscall OpenRoot _ _ _ eq_refl)). unfold locate. destruct comps as [|c comps]; [done|].
    erewrite run_check; [|rewrite (run_check _ _ _ _ _ (walkDirs_run _ _ _ _ false false Hr Hw)); reflexivity].
    cbv beta iota zeta. rewrite plain_not_empty by done.
    assert (Ho : sysStep f (Openat d (lastOf (c :: comps)) FileFlags) = (Ok i, f)).
    { cbn [Volume.sysStep]. unfold openat. rewrite (child_entry f d es) by (by left + done). by rewrite Hi, Hx, Ex. }
    unfold openChild. by erewrite run_check; [|rewrite (run_call _ _ _ _ _ Ho); reflexivity]. }
  rewrite Hopen.
  assert (Hs : sysStep f (Fstat i) = (Ok (statOf i x), f)) by (cbn [Volume.sysStep]; unfold with_inode; by rewrite Hx).
  rewrite (run_call _ _ _ _ _ Hs). cbn [stKind statOf stSize]. rewrite Ex. cbn [kindOf nodeSize]. rewrite bool_decide_false by done.
  rewrite (proj2 (Z.ltb_ge _ _) Hl). cbn [andb].
  assert (Hrd : sysStep f (ReadFile i) = (Ok data, f)) by (cbn [Volume.sysStep]; unfold with_inode; by rewrite Hx, Ex).
  by rewrite (run_call _ _ _ _ _ Hrd).
Qed.

Lemma request_fill_run f body data g x : bodyData body = Some data -> len data <= maxWriteBytes -> g !! alloc f = Some x ->
  iNode x = NFile EmptyString ->
  run (try! _ := copyBody (alloc f) 0 (maxBytes maxWriteBytes body) in Ret (Ok ()))%prog g =
  Some (@Ok fileErr unit (), <[alloc f := with_node x (NFile data)]> g).
Proof using Type.
  intros Hb Hl Hx Ex. erewrite run_check; [|apply (copyBody_run _ _ _ _ _ data _ Hx Ex)]; [done|].
  apply maxBytes_data; [done|]. by split.
Qed.
Lemma storeIn_run f er d es ps name prefix mode r rands fill create data : entries f rootIno = Some er -> walks f rootIno ps d ->
  storable f d es name (prefix +:+ r) -> (mode = storeCreate -> es !! name = None) ->
  (forall g x, g !! alloc f = Some x -> iNode x = NFile EmptyString ->
     run (fill (alloc f)) g = Some (Ok (), <[alloc f := with_node x (NFile data)]> g)) ->
  exists x, run (storeIn root sortSlice ps name prefix create mode (r :: rands) fill) f =
              Some (Ok (), withFile f d es (prefix +:+ r) name x) /\
            given (accessOf f es name) (with_node (newFile f) (NFile data)) x.
Proof using Type.
  intros Hr Hw Hst Hm Hfill. unfold storeIn. rewrite (run_check _ _ _ rootIno f (run_syscall OpenRoot _ _ _ eq_refl)).
  rewrite (run_check _ _ _ _ _ (walkDirs_run _ _ _ _ create false Hr Hw)). by apply storeFile_run.
Qed.

(** C27. Alone on its volume, a PUT (or the POST of a new file) of up to 2 MiB below
    existing directories succeeds, and a GET then returns exactly the data sent.
    The destination is the only entry that changes (no temporary file is left),
    every other inode is as it was, the file replaced included, and a replacement
    has the group of the file replaced and the access list computed from its. *)
Theorem write_then_read f er d es rel comps (createOnly : bool) r rands body data :
  let name := lastOf comps in
  components root rel = Ok comps -> comps <> [] -> entries f rootIno = Some er -> walks f rootIno (parentsOf comps) d ->
  storable f d es name ((if createOnly then ".create-" else ".write-")%string +:+ r) -> (createOnly = true -> es !! name = None) ->
  bodyData body = Some data -> len data <= maxRead ->
  exists f', run (storeRequest root sortSlice rel createOnly (r :: rands) body) f = Some (Status_ 204, f') /\
    run (read root rel) f' = Some (Content name data, f') /\
    entries f' d = Some (<[name := alloc f]> es) /\ (forall i, i <> d -> i <> alloc f -> f' !! i = f !! i) /\
    (forall j x, es !! name = Some j -> f !! j = Some x -> exists y, f' !! alloc f = Some y /\ iGid y = iGid x /\
       replacementACL sortSlice (statOf j x) (iAcl x) agentUid = Some (iAcl y)).
Proof using Type.
  intros name Hc Hne Hr Hw Hst Hcr Hb Hl. pose proof Hst as [He Hn _ _ Hi Hd].
  set (tmp := (if createOnly then ".create-" else ".write-")%string +:+ r) in *.
  assert (Hstore : exists x, run (storeRequest root sortSlice rel createOnly (r :: rands) body) f = Some (Status_ 204, withFile f d es tmp name x) /\
            given (accessOf f es name) (with_node (newFile f) (NFile data)) x).
  { unfold storeRequest, withPath. rewrite Hc. cbv zeta. unfold respond.
    assert (Hlw : len data <= maxWriteBytes) by (unfold maxRead, maxWriteBytes in *; lia).
    destruct comps as [|c comps]; [done|]. destruct createOnly.
    - destruct (storeIn_run f er d es (parentsOf (c :: comps)) name ".create-" storeCreate r rands
        (fun fd => try! _ := copyBody fd 0 (maxBytes maxWriteBytes body) in Ret (Ok ()))%prog true data Hr Hw Hst (fun _ => Hcr eq_refl)) as (x & Hx & Hg).
      { intros g x Hx Ex. by apply request_fill_run. }
      exists x. split; [|done]. rewrite vrun_bind. unfold createFile, name in *. by rewrite Hx.
    - destruct (storeIn_run f er d es (parentsOf (c :: comps)) name ".write-" storeReplace r rands
        (fun fd => try! _ := copyBody fd 0 (maxBytes maxWriteBytes body) in Ret (Ok ()))%prog true data Hr Hw Hst) as (x & Hx & Hg); [done| |].
      { intros g x Hx Ex. by apply request_fill_run. }
      exists x. split; [|done]. rewrite vrun_bind. unfold writeFile, name in *. by rewrite Hx. }
  destruct Hstore as (x & Hrun & Hg & Hu & Hmeta). exists (withFile f d es tmp name x).
  assert (Hnodir : forall j, es !! name = Some j -> entries f j = None).
  { intros j Hj. destruct (Hd j Hj) as (z & d0 & Hz & Ez & _). unfold entries. by rewrite Hz, Ez. }
  destruct (withFile_entries f d es tmp name x rootIno er He Hi Hr) as (er' & Hr' & _).
  split_and!; [exact Hrun| |by apply withFile_dir|intros i; apply withFile_other|].
  - eapply read_run; [exact Hc|done|exact Hr'|by apply walks_withFile|by apply withFile_dir|done|apply lookup_insert_eq|by apply withFile_file|exact Hg|done].
  - intros j z Hj Hz. exists x. split; [by apply withFile_file|]. unfold accessOf in Hmeta. rewrite Hj, Hz in Hmeta. cbn in Hmeta. tauto.
Qed.
End Alone.

(** A server's settings, replaced in place. *)
Definition demoVolume : fs :=
  <[1 := demoInode (NDir (<["cfg" := 2]> ∅))]> (<[2 := demoInode (NDir (<["a.ini" := 3]> ∅))]> (<[3 := demoInode (NFile "old")]> ∅)).
Lemma write_then_read_witness :
  exists f', run 1 65532 65532 (fun _ => 50) (fun _ => 0) (fun _ _ _ => None)
               (storeRequest "/data" id "/cfg/a.ini" false ["x"] [Data "ne"; Data "w"]) demoVolume = Some (Status_ 204, f') /\
    run 1 65532 65532 (fun _ => 50) (fun _ => 0) (fun _ _ _ => None) (read "/data" "/cfg/a.ini") f' = Some (Content "a.ini" "new", f').
Proof.
  destruct (write_then_read 1 65532 65532 (fun _ => 50) (fun _ => 0) (fun _ _ _ => None) "/data" id
    demoVolume (<["cfg" := 2]> ∅) 2 (<["a.ini" := 3]> ∅) "/cfg/a.ini" ["cfg"; "a.ini"] false "x" [] [Data "ne"; Data "w"] "new")
    as (f' & H1 & H2 & _).
  - vm_compute. reflexivity.
  - discriminate.
  - reflexivity.
  - eapply walks_cons; [reflexivity..|]. apply walks_nil.
  - constructor; [reflexivity..|]. intros j Hj. exists (demoInode (NFile "old")), "old"%string.
    vm_compute in Hj. injection Hj as <-. split; [reflexivity|]. split; [reflexivity|]. vm_compute. eexists. reflexivity.
  - discriminate.
  - reflexivity.
  - vm_compute. discriminate.
  - exists f'. split; [exact H1|exact H2].
Defined.
