(* ===== verification/FilesDelete.v ===== *)
(** * What the file browser promises: recursive deletion

    Alone on a volume whose directories form a tree, a recursive delete ends: it
    removes the tree, or refuses it untouched when a name in it starts with a dot. *)

From Stdlib Require Import Ascii.
From S2P Require Import Prelude GoText GoToken GoIO Prog Files Volume FilesFacts FilesStore FilesRun.
Local Open Scope Z_scope.

(** ** Trees *)

(** What is below a directory entry: something that is not a directory, or a
    directory with its entries in the order of their names. *)
Inductive ftree := TLeaf (i : ino) | TDir (i : ino) (ts : forest)
with forest := FNil | FCons (n : string) (t : ftree) (ts : forest).
Scheme ftree_mut := Induction for ftree Sort Prop with forest_mut := Induction for forest Sort Prop.
Combined Scheme ftree_forest from ftree_mut, forest_mut.

Definition rootOf (t : ftree) : ino := match t with TLeaf i | TDir i _ => i end.
Fixpoint names (ts : forest) : list string := match ts with FNil => [] | FCons n _ ts => n :: names ts end.

(** Its directories, its height, whether no name in it starts with a dot. *)
Fixpoint dirs (t : ftree) : list ino := match t with TLeaf _ => [] | TDir i ts => i :: dirsL ts end
with dirsL (ts : forest) : list ino := match ts with FNil => [] | FCons _ t ts => dirs t ++ dirsL ts end.
Fixpoint height (t : ftree) : nat := match t with TLeaf _ => 1%nat | TDir _ ts => S (heightL ts) end
with heightL (ts : forest) : nat := match ts with FNil => 0%nat | FCons _ t ts => Nat.max (height t) (heightL ts) end.
Fixpoint undotted (t : ftree) : bool := match t with TLeaf _ => true | TDir _ ts => undottedL ts end
with undottedL (ts : forest) : bool :=
  match ts with FNil => true | FCons n t ts => negb (HasPrefix n ".") && undotted t && undottedL ts end.

(** The volume has the tree at its root inode, the entries in the directory. *)
Fixpoint holds (f : fs) (t : ftree) : Prop :=
  match t with
  | TLeaf i => exists x, f !! i = Some x /\ forall es, iNode x <> NDir es
  | TDir i ts => exists es, entries f i = Some es /\ names ts = merge_sort str_le (elements (dom es)) /\ holdsL f es ts
  end
with holdsL (f : fs) (es : gmap string ino) (ts : forest) : Prop :=
  match ts with
  | FNil => True
  | FCons n t ts => entryName n = true /\ es !! n = Some (rootOf t) /\ holds f t /\ holdsL f es ts
  end.

(** The directories of a tree are directories, and so no leaves. *)
Lemma dirs_entries f :
  (forall t, holds f t -> forall i, i ∈ dirs t -> is_Some (entries f i)) /\
  (forall ts es, holdsL f es ts -> forall i, i ∈ dirsL ts -> is_Some (entries f i)).
Proof.
  apply (ftree_forest (fun t => holds f t -> forall i, i ∈ dirs t -> is_Some (entries f i))
           (fun ts => forall es, holdsL f es ts -> forall i, i ∈ dirsL ts -> is_Some (entries f i))).
  - by intros i _ j ?%not_elem_of_nil.
  - intros i ts IH (es & He & _ & Hts) j [->|Hj]%elem_of_cons; [by exists es|]. by apply (IH es).
  - by intros es _ j ?%not_elem_of_nil.
  - intros n t IHt ts IHts es (_ & _ & Ht & Hts) j [Hj|Hj]%elem_of_app; [by apply IHt|by apply (IHts es)].
Qed.

(** What is kept when inodes change that are no leaves and not of the tree. *)
Lemma holds_same f g :
  (forall i x, f !! i = Some x -> (forall es, iNode x <> NDir es) -> g !! i = Some x) ->
  (forall t, (forall i, i ∈ dirs t -> g !! i = f !! i) -> holds f t -> holds g t) /\
  (forall ts es, (forall i, i ∈ dirsL ts -> g !! i = f !! i) -> holdsL f es ts -> holdsL g es ts).
Proof.
  intros Hl. apply (ftree_forest (fun t => (forall i, i ∈ dirs t -> g !! i = f !! i) -> holds f t -> holds g t)
    (fun ts => forall es, (forall i, i ∈ dirsL ts -> g !! i = f !! i) -> holdsL f es ts -> holdsL g es ts)).
  - intros i _ (x & Hx & Hn). exists x. split; [by apply Hl|done].
  - intros i ts IH Hd (es & He & Hs & Hts). exists es. split_and!; [|done|].
    + unfold entries. rewrite Hd by (by left). exact He.
    + apply IH; [|done]. intros j Hj. apply Hd. by right.
  - done.
  - intros n t IHt ts IHts es Hd (H1 & H2 & H3 & H4). cbn. split_and!; [done|done| |].
    + apply IHt; [|done]. intros i Hi. apply Hd, elem_of_app. by left.
    + apply IHts; [|done]. intros i Hi. apply Hd, elem_of_app. by right.
Qed.
Lemma holdsL_delete f es ts n : n ∉ names ts -> holdsL f es ts -> holdsL f (delete n es) ts.
Proof.
  induction ts as [|m t ts IH]; [done|]. cbn. intros Hn (H1 & H2 & H3 & H4). apply not_elem_of_cons in Hn as [Hne Hn].
  split_and!; [done|by rewrite lookup_delete_ne|done|by apply IH].
Qed.

Section Delete.
Variables (rootIno : ino) (agentUid agentGid : Z) (alloc : fs -> ino) (now : fs -> Z)
  (elsewhere : fs -> ino -> string -> option ino) (root : string) (sortSlice : list aclEntry -> list aclEntry).
Local Abbreviation sysStep := (sysStep rootIno agentUid agentGid alloc now elsewhere).
Local Abbreviation run := (run rootIno agentUid agentGid alloc now elsewhere).
Local Abbreviation child := (child elsewhere).

Lemma dirNames_run f i es : entries f i = Some es -> run (dirNames i) f = Some (Ok (merge_sort str_le (elements (dom es))), f).
Proof using Type.
  intros He. unfold dirNames. rewrite (run_check _ _ _ _ _ _ _ _ _ _ _ (run_syscall _ _ _ _ _ _ _ _ _ _ (openat_self _ _ _ _ _ _ _ _ _ He))).
  assert (Hs : sysStep f (Readdirnames i) = (Ok (elements (dom es)), f)) by (cbn [Volume.sysStep]; by rewrite He).
  by rewrite (run_check _ _ _ _ _ _ _ _ _ _ _ (run_syscall _ _ _ _ _ _ _ _ _ _ Hs)).
Qed.
Lemma openChild_run f d es i es' name ps : plain name = true -> entries f d = Some es -> es !! name = Some i -> entries f i = Some es' ->
  run (openChild root d ps name DirFlags) f = Some (Ok i, f).
Proof using Type.
  intros Hn He Hi He'. unfold openChild.
  by rewrite (run_call _ _ _ _ _ _ _ _ _ _ _ (openat_dir rootIno agentUid agentGid alloc now elsewhere _ _ _ _ _ _ Hn He Hi He')).
Qed.
Lemma fstatat_run f d es name i x : plain name = true -> entries f d = Some es -> es !! name = Some i -> f !! i = Some x ->
  sysStep f (Fstatat d name) = (Ok (statOf i x), f).
Proof using Type.
  intros Hn He Hi Hx. cbn [Volume.sysStep]. rewrite (child_entry elsewhere f d es) by (by left + done). rewrite Hi. unfold with_inode. by rewrite Hx.
Qed.

Local Abbreviation runs_call := (run_call rootIno agentUid agentGid alloc now elsewhere).
Local Abbreviation runs_check := (run_check rootIno agentUid agentGid alloc now elsewhere).

(** The check reads only, and finds every dot. *)
Lemma checkNoDotAt_run f :
  (forall t fuel d es name ps, (height t <= fuel)%nat -> holds f t -> plain name = true -> entries f d = Some es -> es !! name = Some (rootOf t) ->
     run (checkNoDotAt root fuel d ps name) f = Some (if undotted t then Ok () else Err errDotfile, f)) /\
  (forall ts fuel d es ps, (heightL ts <= fuel)%nat -> entries f d = Some es -> holdsL f es ts ->
     run (checkNames (checkNoDotAt root fuel d ps) (names ts)) f = Some (if undottedL ts then Ok () else Err errDotfile, f)).
Proof using Type.
  apply (ftree_forest
    (fun t => forall fuel d es name ps, (height t <= fuel)%nat -> holds f t -> plain name = true -> entries f d = Some es -> es !! name = Some (rootOf t) ->
       run (checkNoDotAt root fuel d ps name) f = Some (if undotted t then Ok () else Err errDotfile, f))
    (fun ts => forall fuel d es ps, (heightL ts <= fuel)%nat -> entries f d = Some es -> holdsL f es ts ->
       run (checkNames (checkNoDotAt root fuel d ps) (names ts)) f = Some (if undottedL ts then Ok () else Err errDotfile, f))).
  - intros i [|fuel] d es name ps Hh (x & Hx & Hn) Hp He Hi; [cbn in Hh; lia|]. cbn [checkNoDotAt].
    rewrite (runs_call _ _ _ _ _ (fstatat_run _ _ _ _ _ _ Hp He Hi Hx)). cbn [stKind statOf].
    rewrite bool_decide_false; [done|]. destruct (iNode x) eqn:E; try done. by destruct (Hn es0).
  - intros i ts IH [|fuel] d es name ps Hh (es' & He' & Hs & Hts) Hp He Hi; [cbn in Hh; lia|]. cbn [checkNoDotAt height] in *.
    destruct (entries_dir _ _ _ He') as (x & Hx & Ex).
    rewrite (runs_call _ _ _ _ _ (fstatat_run _ _ _ _ _ _ Hp He Hi Hx)). cbn [stKind statOf]. rewrite Ex. rewrite bool_decide_true by done. cbn [negb].
    rewrite (runs_check _ _ _ _ _ (openChild_run _ _ _ _ _ _ ps Hp He Hi He')), (runs_check _ _ _ _ _ (dirNames_run _ _ _ He')), <- Hs.
    apply (IH fuel i es'); [lia|done|done].
  - done.
  - intros n t IHt ts IHts fuel d es ps Hh He (Hn & Hi & Ht & Hts). cbn [names checkNames undottedL heightL] in *.
    destruct (HasPrefix n ".") eqn:Ed; [done|]. cbn [negb andb].
    assert (Hrun : run (checkNoDotAt root fuel d ps n) f = Some (if undotted t then Ok () else Err errDotfile, f)).
    { apply (IHt fuel d es); [lia|done|by apply entry_plain|done|done]. }
    unfold pcheck. rewrite vrun_bind, Hrun. destruct (undotted t); [|done]. cbn [andb]. apply (IHts fuel d es); [lia|done|done].
Qed.

(** What a removal may change. *)
Definition only_in (l : list ino) (f f' : fs) : Prop := forall i, i ∉ l -> f' !! i = f !! i.

Lemma unlink_run f d es name i x (rmdir : bool) : plain name = true -> entries f d = Some es -> es !! name = Some i -> f !! i = Some x ->
  (if rmdir then iNode x = NDir ∅ else forall es, iNode x <> NDir es) ->
  sysStep f (Unlinkat d name rmdir) = (Ok (), set_entries f d (delete name es)).
Proof using Type.
  intros Hp He Hi Hx Hn. cbn [Volume.sysStep]. rewrite He, (child_entry elsewhere f d es) by (by left + done). rewrite Hi. unfold with_inode. rewrite Hx.
  destruct rmdir; [rewrite Hn; by rewrite bool_decide_true|]. destruct (iNode x) as [es'| | |]; try done. by destruct (Hn es').
Qed.

(** The next tree of a directory after one was removed. *)
Lemma holdsL_next f g es ts n t d l : holds f t -> holdsL f es ts -> entries f d = Some es -> only_in (d :: dirs t) f g ->
  l = dirs t ++ dirsL ts -> NoDup (d :: l) -> n ∉ names ts -> holdsL g (delete n es) ts.
Proof using Type.
  intros Ht Hts Hd Ho -> Hnd Hn. apply holdsL_delete; [done|]. apply (holds_same f g).
  - intros i x Hx Hleaf. rewrite Ho; [done|]. intros [->|Hi]%elem_of_cons.
    + unfold entries in Hd. rewrite Hx in Hd. destruct (iNode x) as [es'| | |]; try done. by destruct (Hleaf es').
    + destruct (proj1 (dirs_entries f) t Ht i Hi) as [es' He']. unfold entries in He'. rewrite Hx in He'. destruct (iNode x) as [es2| | |]; try done. by destruct (Hleaf es2).
  - intros i Hi. apply Ho. apply NoDup_cons in Hnd as [Hd' Hnd]. apply NoDup_app in Hnd as (_ & Hdisj & _).
    intros [->|Hi']%elem_of_cons; [apply Hd', elem_of_app; by right|by apply (Hdisj i)].
  - done.
Qed.

Lemma removeTree_run :
  (forall t fuel f d es name ps, (height t <= fuel)%nat -> holds f t -> undotted t = true -> plain name = true -> entries f d = Some es ->
     es !! name = Some (rootOf t) -> NoDup (d :: dirs t) ->
     exists f', run (removeTree root fuel d ps name) f = Some (Ok (), f') /\ entries f' d = Some (delete name es) /\ only_in (d :: dirs t) f f') /\
  (forall ts fuel f d es ps, (heightL ts <= fuel)%nat -> entries f d = Some es -> holdsL f es ts -> undottedL ts = true ->
     NoDup (d :: dirsL ts) -> NoDup (names ts) ->
     exists f' es', run (checkNames (removeTree root fuel d ps) (names ts)) f = Some (Ok (), f') /\ entries f' d = Some es' /\
       (forall n, es' !! n = if decide (n ∈ names ts) then None else es !! n) /\ only_in (d :: dirsL ts) f f').
Proof using Type.
  apply (ftree_forest
   (fun t => forall fuel f d es name ps, (height t <= fuel)%nat -> holds f t -> undotted t = true -> plain name = true -> entries f d = Some es ->
     es !! name = Some (rootOf t) -> NoDup (d :: dirs t) ->
     exists f', run (removeTree root fuel d ps name) f = Some (Ok (), f') /\ entries f' d = Some (delete name es) /\ only_in (d :: dirs t) f f')
   (fun ts => forall fuel f d es ps, (heightL ts <= fuel)%nat -> entries f d = Some es -> holdsL f es ts -> undottedL ts = true ->
     NoDup (d :: dirsL ts) -> NoDup (names ts) ->
     exists f' es', run (checkNames (removeTree root fuel d ps) (names ts)) f = Some (Ok (), f') /\ entries f' d = Some es' /\
       (forall n, es' !! n = if decide (n ∈ names ts) then None else es !! n) /\ only_in (d :: dirsL ts) f f')).
  - intros i [|fuel] f d es name ps Hh (x & Hx & Hn) _ Hp He Hi _; [cbn in Hh; lia|]. cbn [removeTree].
    exists (set_entries f d (delete name es)). split_and!.
    + rewrite (runs_call _ _ _ _ _ (fstatat_run _ _ _ _ _ _ Hp He Hi Hx)). cbn [stKind statOf].
      rewrite bool_decide_false by (destruct (iNode x) eqn:E; try done; by destruct (Hn es0)). cbn [negb].
      by rewrite (runs_call _ _ _ _ _ (unlink_run f d es name _ x false Hp He Hi Hx Hn)).
    + by eapply set_entries_dir.
    + intros j Hj. apply set_entries_other. intros ->. apply Hj. by left.
  - intros i ts IH [|fuel] f d es name ps Hh (es' & He' & Hs & Hts) Hu Hp He Hi Hnd; [cbn in Hh; lia|]. cbn [removeTree height dirs undotted rootOf] in *.
    destruct (entries_dir _ _ _ He') as (x & Hx & Ex). apply NoDup_cons in Hnd as [Hd Hnd]. apply not_elem_of_cons in Hd as [Hdi Hdt].
    assert (Hnames : NoDup (names ts)) by (rewrite Hs, merge_sort_Permutation; apply NoDup_elements).
    destruct (IH fuel f i es' (ps ++ [name]) ltac:(lia) He' Hts Hu Hnd Hnames) as (f1 & es1 & Hrun & He1 & Hes1 & Ho1).
    assert (es1 = ∅) as ->.
    { apply map_eq. intros n. rewrite Hes1, lookup_empty. case_decide as E; [done|]. rewrite Hs, merge_sort_Permutation, elem_of_elements in E. by apply not_elem_of_dom. }
    assert (Hd1 : entries f1 d = Some es) by (unfold entries; rewrite Ho1; [exact He|]; by apply not_elem_of_cons).
    destruct (entries_dir _ _ _ He1) as (x1 & Hx1 & Ex1). exists (set_entries f1 d (delete name es)). split_and!.
    + rewrite (runs_call _ _ _ _ _ (fstatat_run _ _ _ _ _ _ Hp He Hi Hx)). cbn [stKind statOf]. rewrite Ex. rewrite bool_decide_true by done. cbn [negb].
      rewrite (runs_check _ _ _ _ _ (openChild_run _ _ _ _ _ _ ps Hp He Hi He')).
      erewrite runs_check; [|rewrite (runs_check _ _ _ _ _ (dirNames_run _ _ _ He')), <- Hs; exact Hrun].
      by rewrite (runs_call _ _ _ _ _ (unlink_run f1 d es name i x1 true Hp Hd1 Hi Hx1 Ex1)).
    + by eapply set_entries_dir.
    + intros j Hj. rewrite set_entries_other by (intros ->; apply Hj; by left). apply Ho1. intros Hj'. apply Hj. by right.
  - intros fuel f d es ps _ He _ _ _ _. exists f, es. split_and!; [done|done|done|done].
  - intros n t IHt ts IHts fuel f d es ps Hh He (Hn & Hi & Ht & Hts) Hu Hnd Hnm. cbn [names checkNames undottedL heightL dirsL] in *.
    apply andb_true_iff in Hu as [[Hdot Hut]%andb_true_iff Hus]. apply negb_true_iff in Hdot. rewrite Hdot.
    apply NoDup_cons in Hnm as [Hn' Hnm]. pose proof Hnd as Hnd'. apply NoDup_cons in Hnd as [Hd Hnd].
    apply not_elem_of_app in Hd as [Hd1 Hd2]. apply NoDup_app in Hnd as (Hnt & Hdisj & Hnts).
    destruct (IHt fuel f d es n ps ltac:(lia) Ht Hut (entry_plain _ Hn Hdot) He Hi) as (f1 & Hrun1 & He1 & Ho1); [by apply NoDup_cons|].
    destruct (IHts fuel f1 d (delete n es) ps ltac:(lia) He1) as (f2 & es2 & Hrun2 & He2 & Hes2 & Ho2); [|done|by apply NoDup_cons|done|].
    { by apply (holdsL_next f f1 es ts n t d (dirs t ++ dirsL ts)). }
    exists f2, es2. split_and!; [|done| |].
    + by rewrite (runs_check _ _ _ _ _ Hrun1).
    + intros m. rewrite Hes2. destruct (decide (m = n)) as [->|Hne].
      * rewrite (decide_False (P := n ∈ names ts)) by done. rewrite lookup_delete_eq, decide_True by (by left). done.
      * rewrite lookup_delete_ne by done. destruct (decide (m ∈ names ts)) as [Hm|Hm].
        -- rewrite decide_True by (by right). done.
        -- rewrite decide_False; [done|]. by apply not_elem_of_cons.
    + intros j Hj. apply not_elem_of_cons in Hj as [Hj1 [Hj2 Hj3]%not_elem_of_app]. rewrite Ho2, Ho1; [done|by apply not_elem_of_cons..].
Qed.

(** C29. Alone on a volume, a recursive delete of an entry whose directories form a
    tree ends, given as much fuel as the tree is high: when no name below it starts
    with a dot the answer is 204, the entry is gone, and nothing but its directory
    and the directories of the tree has changed (links are removed, not followed);
    when one does, the answer is 400 and the volume is as it was. *)
Theorem recursive_delete f er d es rel comps t fuel :
  let name := lastOf comps in
  components root rel = Ok comps -> comps <> [] -> entries f rootIno = Some er -> walks f rootIno (parentsOf comps) d ->
  entries f d = Some es -> plain name = true -> es !! name = Some (rootOf t) -> holds f t -> NoDup (d :: dirs t) -> (height t <= fuel)%nat ->
  if undotted t
  then exists f', run (del root fuel rel true) f = Some (Status_ 204, f') /\ entries f' d = Some (delete name es) /\ only_in (d :: dirs t) f f'
  else run (del root fuel rel true) f = Some (Status_ 400, f).
Proof using Type.
  intros name Hc Hne Hr Hw He Hp Hi Ht Hnd Hh.
  pose proof (proj1 (checkNoDotAt_run f) t fuel d es name (parentsOf comps) Hh Ht Hp He Hi) as Hcheck.
  assert (Hloc : run (locate root rootIno comps false) f = Some (Ok (d, name), f)).
  { unfold locate, name. destruct comps as [|c comps]; [done|].
    rewrite (runs_check _ _ _ _ _ (walkDirs_run rootIno agentUid agentGid alloc now elsewhere root _ _ _ _ false false Hr Hw)). done. }
  assert (Hdel : run (del root fuel rel true) f =
    run (respond (fun _ => Status_ 204) (try! _ := checkNoDotAt root fuel d (parentsOf comps) name in removeTree root fuel d (parentsOf comps) name))%prog f).
  { unfold del, withPath. rewrite Hc. destruct comps as [|c comps]; [done|]. unfold respond. rewrite !vrun_bind. unfold removePath.
    rewrite (runs_check _ _ _ rootIno f (run_syscall rootIno agentUid agentGid alloc now elsewhere OpenRoot f rootIno f eq_refl)).
    rewrite vrun_bind, Hloc. done. }
  destruct (undotted t) eqn:Eu.
  - destruct (proj1 removeTree_run t fuel f d es name (parentsOf comps) Hh Ht Eu Hp He Hi Hnd) as (f' & Hrun & Hf'). exists f'. split; [|done].
    rewrite Hdel. unfold respond. rewrite vrun_bind. by rewrite (runs_check _ _ _ _ _ Hcheck), Hrun.
  - rewrite Hdel. unfold respond. rewrite vrun_bind. unfold pcheck. rewrite vrun_bind, Hcheck. done.
Qed.
End Delete.

(** A world folder with a link out of the volume in it. *)
Definition demoTree : fs :=
  <[1 := demoInode (NDir (<["world" := 2]> ∅))]> (<[2 := demoInode (NDir (<["a" := 3]> (<["b" := 4]> ∅)))]>
  (<[3 := demoInode (NDir (<["lnk" := 5]> ∅))]> (<[4 := demoInode (NFile "data")]> (<[5 := demoInode (NLink "/etc")]> ∅)))).
Lemma recursive_delete_witness :
  exists f', run 1 65532 65532 (fun _ => 50) (fun _ => 0) (fun _ _ _ => None) (del "/data" 3 "/world" true) demoTree = Some (Status_ 204, f') /\
    entries f' 1 = Some ∅ /\ f' !! 5 = demoTree !! 5.
Proof.
  destruct (recursive_delete 1 65532 65532 (fun _ => 50) (fun _ => 0) (fun _ _ _ => None) "/data" demoTree (<["world" := 2]> ∅) 1 (<["world" := 2]> ∅)
    "/world" ["world"] (TDir 2 (FCons "a" (TDir 3 (FCons "lnk" (TLeaf 5) FNil)) (FCons "b" (TLeaf 4) FNil))) 3) as (f' & H1 & H2 & H3).
  - vm_compute. reflexivity.
  - discriminate.
  - reflexivity.
  - apply walks_nil.
  - reflexivity.
  - reflexivity.
  - reflexivity.
  - eexists. split; [reflexivity|]. split; [vm_compute; reflexivity|]. split; [reflexivity|]. split; [reflexivity|]. split.
    + eexists. split; [reflexivity|]. split; [vm_compute; reflexivity|]. split; [reflexivity|]. split; [reflexivity|]. split; [|exact I].
      eexists. split; [reflexivity|]. discriminate.
    + split; [reflexivity|]. split; [reflexivity|]. split; [|exact I]. eexists. split; [reflexivity|]. discriminate.
  - apply (bool_decide_unpack _). vm_compute. exact I.
  - vm_compute. lia.
  - exists f'. split; [exact H1|]. split; [rewrite H2; reflexivity|]. apply H3. apply (bool_decide_unpack _). vm_compute. exact I.
Defined.
