(* ===== verification/Capture.v ===== *)
(** * capture sidecar: the capture file, the packet source and the filter

    src/capture-sidecar/internal/capture: writer.go, the read loops of
    afpacket.go and filter.go, with the default filter of
    src/operator/internal/controller/networkcapture_filter.go.  The PCAPNG writer of
    gopacket, the socket and the BPF compiler are third-party: the writer is the
    class [NgWriter] with what its documentation says, the answers of the others
    are inputs. *)

From Stdlib Require Import Ascii.
From S2P Require Import Prelude GoTime GoText GoToken Idle.
Local Open Scope Z_scope.

Module Capture.

(** ** The file (writer.go) *)

Definition DefaultSnaplen : Z := 65535.
Definition MaxCaptureDurationSeconds : Z := 604800.
Definition epbFixedOverheadBytes : Z := 32.
Definition LimitReasonDurationReached : string := "max_duration_reached".
Definition LimitReasonSizeReached : string := "max_size_reached".
Definition LimitReasonDiskFull : string := "disk_full".

(** [RawPacket] *)
Record RawPacket := MkRaw { Data : list Z; Timestamp : time; OriginalLength : Z }.
(** [gopacket.CaptureInfo], and what is appended to the file. *)
Record CaptureInfo := MkCI { ciTimestamp : time; ciCaptureLength : Z; ciLength : Z }.
Record block := MkBlock { bkInfo : CaptureInfo; bkData : list Z }.

(** What the PCAPNG writer answers: [ENOSPC] in the chain, or another error. *)
Inductive ioErr := ENOSPC | IOOther.
(** The PCAPNG writer of gopacket over a file: what has reached the file, what is
    buffered, and whether a write has failed.  [encode] is the bytes of a block. *)
Class NgWriter := {
  ng : Type;
  ngFile : ng -> list Z;
  ngBuffered : ng -> list Z;
  ngFailed : ng -> bool;
  encode : block -> list Z;
  ngWritePacket : ng -> block -> ng * result ioErr unit;
  ngFlush : ng -> ng * result ioErr unit }.

Definition lenZ {A} (l : list A) : Z := Z.of_nat (length l).
(** The bytes of a packet's block. *)
Definition blockBytes (n : Z) : Z := epbFixedOverheadBytes + n + Z.land (4 - Z.land n 3) 3.

(** A block the PCAPNG writer takes. *)
Definition blockValid (b : block) : bool :=
  (ciCaptureLength (bkInfo b) =? lenZ (bkData b)) && (lenZ (bkData b) <=? ciLength (bkInfo b)).

(** What is documented of it: the size of an Enhanced Packet Block, whose data is
    padded to a multiple of four bytes; a write and a
    flush that succeed lose nothing; one that fails, for a valid block, leaves a
    prefix of what was to be written in the file, and after that nothing is
    accepted any more ([bufio.Writer]). *)
Class NgLaws `{NgWriter} := {
  encode_length b : lenZ (encode b) = 32 + 4 * ((lenZ (bkData b) + 3) / 4);
  write_ok s b s' : ngWritePacket s b = (s', Ok ()) ->
    ngFailed s = false /\ ngFailed s' = false /\ exists out, ngFile s' = ngFile s ++ out /\ out ++ ngBuffered s' = ngBuffered s ++ encode b;
  write_err s b s' e : blockValid b = true -> ngWritePacket s b = (s', Err e) ->
    ngFailed s' = true /\ exists out, ngFile s' = ngFile s ++ out /\ out `prefix_of` (if ngFailed s then [] else ngBuffered s ++ encode b);
  flush_ok s s' : ngFlush s = (s', Ok ()) ->
    ngFailed s = false /\ ngFailed s' = false /\ ngFile s' = ngFile s ++ ngBuffered s /\ ngBuffered s' = [];
  flush_err s s' e : ngFlush s = (s', Err e) ->
    ngFailed s' = true /\ exists out, ngFile s' = ngFile s ++ out /\ out `prefix_of` (if ngFailed s then [] else ngBuffered s) }.

Inductive writeErr := ErrClosed | ErrLimitReached (reason : string) | ErrDiskFull | ErrWrite.

Section Writer.
Context `{NgWriter}.

(** [Writer]; the counter of the [countingWriter] is the length of the file. *)
Record Writer := MkWriter {
  writer : ng; snaplen : Z; maxSizeBytes : Z; maxDurationSeconds : Z; startTime : time;
  closed : bool; bytesWritten : Z; packetsWritten : Z; limitReached : bool; limitReason : string }.

Definition set_writer (w : Writer) (s : ng) : Writer :=
  MkWriter s (snaplen w) (maxSizeBytes w) (maxDurationSeconds w) (startTime w) (closed w) (bytesWritten w) (packetsWritten w) (limitReached w) (limitReason w).
Definition set_limit (w : Writer) (reason : string) : Writer :=
  MkWriter (writer w) (snaplen w) (maxSizeBytes w) (maxDurationSeconds w) (startTime w) (closed w) (bytesWritten w) (packetsWritten w) true reason.
Definition set_count (w : Writer) (bytes packets : Z) : Writer :=
  MkWriter (writer w) (snaplen w) (maxSizeBytes w) (maxDurationSeconds w) (startTime w) (closed w) bytes packets (limitReached w) (limitReason w).
Definition set_closed (w : Writer) : Writer :=
  MkWriter (writer w) (snaplen w) (maxSizeBytes w) (maxDurationSeconds w) (startTime w) true (bytesWritten w) (packetsWritten w) (limitReached w) (limitReason w).

(** [NewWriter]: [s] is the PCAPNG writer with its section and interface blocks
    flushed. *)
Definition NewWriter (maxDuration maxSize snap : Z) (s : ng) (now : time) : option Writer :=
  if maxDuration <=? 0 then None
  else if MaxCaptureDurationSeconds <? maxDuration then None
  else if maxSize <=? 0 then None
  else Some (MkWriter s (if snap =? 0 then DefaultSnaplen else snap) maxSize maxDuration now false (lenZ (ngFile s)) 0 false EmptyString).

(** The block of a packet: at most the snap length, with the length on the wire. *)
Definition packetBlock (w : Writer) (pkt : RawPacket) : block :=
  let packetData := if snaplen w <? lenZ (Data pkt) then take (Z.to_nat (snaplen w)) (Data pkt) else Data pkt in
  let originalLength := if OriginalLength pkt <? lenZ (Data pkt) then lenZ (Data pkt) else OriginalLength pkt in
  MkBlock (MkCI (Timestamp pkt) (lenZ packetData) originalLength) packetData.

(** [WritePacket].  The elapsed time is compared in nanoseconds: a float64 of
    seconds below 604800 tells apart neighbouring nanoseconds, so the comparison is
    the same. *)
Definition WritePacket (w : Writer) (pkt : RawPacket) (now : time) : Writer * result writeErr unit :=
  if closed w then (w, Err ErrClosed)
  else if limitReached w then (w, Err (ErrLimitReached (limitReason w)))
  else if maxDurationSeconds w * Second <=? Sub now (startTime w) then
    (set_limit w LimitReasonDurationReached, Err (ErrLimitReached LimitReasonDurationReached))
  else
    let b := packetBlock w pkt in
    let '(s, r) := ngWritePacket (writer w) b in
    let w := set_writer w s in
    match r with
    | Err ENOSPC => (set_limit w LimitReasonDiskFull, Err ErrDiskFull)
    | Err IOOther => (w, Err ErrWrite)
    | Ok _ =>
        let w := set_count w (s64 (bytesWritten w + blockBytes (lenZ (bkData b)))) (s64 (packetsWritten w + 1)) in
        if maxSizeBytes w <=? bytesWritten w
        then (set_limit w LimitReasonSizeReached, Err (ErrLimitReached LimitReasonSizeReached))
        else (w, Ok ())
    end.

(** [Close]; [fileClose] is whether the file handle closes without an error. *)
Definition Close (w : Writer) (fileClose : bool) : Writer * result writeErr unit :=
  if closed w then (w, Ok ())
  else
    let w := set_closed w in
    let '(s, r) := ngFlush (writer w) in
    let w := set_writer w s in
    match r with
    | Err ENOSPC => (set_limit w LimitReasonDiskFull, Err ErrWrite)
    | Err IOOther => (w, Err ErrWrite)
    | Ok _ => (set_count w (lenZ (ngFile s)) (packetsWritten w), if fileClose then Ok () else Err ErrWrite)
    end.
End Writer.

(** ** The source (afpacket.go) *)

(** What the socket and the context do next. *)
Inductive sourceEvent :=
| Cancelled | Timeout_ | ReadError
| Frame (data : list Z) (timestamp : time) (wireLength : Z).

Inductive readErr := ErrCtx | ErrRead | ErrFilter.

Section Source.
(** The compiled filter: the verdict of the BPF machine on a frame, if it runs. *)
Variables (filterVM : option (list Z -> option Z)) (snap : Z).

(** [ReadPacket]: the packet and what is left of the input; [None] while the
    input has nothing to offer. *)
Fixpoint ReadPacket (events : list sourceEvent) : option (result readErr RawPacket * list sourceEvent) :=
  match events with
  | [] => None
  | Cancelled :: events => Some (Err ErrCtx, events)
  | Timeout_ :: events => ReadPacket events
  | ReadError :: events => Some (Err ErrRead, events)
  | Frame data ts n :: events =>
      match (match filterVM with Some run => run data | None => Some 1 end) with
      | None => Some (Err ErrFilter, events)
      | Some accepted =>
          if accepted =? 0 then ReadPacket events
          else
            let data := if (0 <? snap) && (snap <? lenZ data) then take (Z.to_nat snap) data else data in
            Some (Ok (MkRaw data ts n), events)
      end
  end.

(** [ReadPackets] into a writer: the clock is given per packet; fuel for the number
    of events.  The packets handed to the writer are returned. *)
Fixpoint ReadPackets `{NgWriter} (fuel : nat) (w : Writer) (events : list sourceEvent) (clock : list time)
  : Writer * list RawPacket * option (readErr + writeErr) :=
  match fuel with
  | O => (w, [], None)
  | S fuel =>
      match ReadPacket events with
      | None => (w, [], None)
      | Some (Err e, _) => (w, [], Some (inl e))
      | Some (Ok pkt, events) =>
          match clock with
          | [] => (w, [], None)
          | now :: clock =>
              let '(w, r) := WritePacket w pkt now in
              match r with
              | Err e => (w, [pkt], Some (inr e))
              | Ok _ => let '(w, pkts, end_) := ReadPackets fuel w events clock in (w, pkt :: pkts, end_)
              end
          end
      end
  end.
End Source.

(** ** The filter (filter.go) *)

Definition unsupportedProtocolKeywords : list string :=
  ["aarp"; "ah"; "atalk"; "decnet"; "decnett"; "esp"; "fddi"; "icmp"; "icmp6"; "igmp"; "igrp"; "ipx"; "iso"; "lat";
   "modpl"; "morpc"; "netbeui"; "pim"; "sca"; "stp"; "tr"; "vrrp"; "wlan"].

(** The words of an expression ([strings.FieldsFunc]). *)
Definition isBreak (c : ascii) : bool :=
  Ascii.eqb c " " || Ascii.eqb c "009" || Ascii.eqb c "010" || Ascii.eqb c "(" || Ascii.eqb c ")".
Fixpoint wordsFrom (cur : string) (s : string) : list string :=
  match s with
  | EmptyString => if String.eqb cur EmptyString then [] else [cur]
  | String c s =>
      if isBreak c then (if String.eqb cur EmptyString then [] else [cur]) ++ wordsFrom EmptyString s
      else wordsFrom (cur +:+ String c EmptyString) s
  end.
Definition words (s : string) : list string := wordsFrom EmptyString s.

Definition backslash : ascii := ascii_of_nat 92.

Inductive filterErr := FilterEmpty | FilterUnsupported (word : string) | FilterInvalid | FilterNoProgram | FilterNoTest.

Section Filter.
(** The Unicode tables, and the BPF compiler: whether an instruction is a
    conditional jump is all that is looked at. *)
Variables (uni : Z -> Z) (compile : string -> option (list bool)).

(** [rejectUnsupportedKeywords] *)
Definition rejectUnsupportedKeywords (expr : string) : option filterErr :=
  match list_find (fun word => ToLower uni (trim_left_byte backslash word) ∈ unsupportedProtocolKeywords) (words expr) with
  | Some (_, word) => Some (FilterUnsupported (ToLower uni (trim_left_byte backslash word)))
  | None => None
  end.

(** [testsPacketContents] *)
Definition testsPacketContents (prog : list bool) : bool := existsb id prog.

(** [CompileFilter] *)
Definition CompileFilter (expr : string) : result filterErr (list bool) :=
  if String.eqb expr EmptyString then Err FilterEmpty
  else match rejectUnsupportedKeywords expr with
  | Some e => Err e
  | None =>
      match compile expr with
      | None => Err FilterInvalid
      | Some instructions =>
          if (length instructions =? 0)%nat then Err FilterNoProgram
          else if negb (testsPacketContents instructions) then Err FilterNoTest
          else Ok instructions
      end
  end.
End Filter.

(** ** The operator's default (networkcapture_filter.go) *)

Definition filterTerm (p : GamePort) : string :=
  (if String.eqb (gpProtocol p) "UDP" then "udp" else "tcp") +:+ " port " +:+ Itoa (gpContainerPort p).
(** The loop of [defaultCaptureFilter]. *)
Fixpoint filterTerms (seen : list string) (ports : list GamePort) : list string :=
  match ports with
  | [] => []
  | p :: ports =>
      if negb (gpAdvertise p) || (gpContainerPort p <=? 0) then filterTerms seen ports
      else
        let term := filterTerm p in
        if bool_decide (term ∈ seen) then filterTerms seen ports
        else term :: filterTerms (term :: seen) ports
  end.
Fixpoint joinOr (l : list string) : string :=
  match l with [] => EmptyString | [x] => x | x :: l => x +:+ " or " +:+ joinOr l end.
Definition defaultCaptureFilter (ports : list GamePort) : string := joinOr (filterTerms [] ports).

(** [captureFilter]: a filter, or the message with which the capture fails; the
    template is not there ([Err true]), or could not be read. *)
Definition captureFilter (specFilter : option string) (name : string) (template : result bool (list GamePort))
  : result unit (result string string) :=
  if negb (String.eqb (default EmptyString specFilter) EmptyString) then Ok (Ok (default EmptyString specFilter))
  else match template with
  | Err true => Ok (Err ("gametemplate " +:+ name +:+ " not found; cannot build the default capture filter"))
  | Err false => Err ()
  | Ok ports =>
      let f := defaultCaptureFilter ports in
      if String.eqb f EmptyString then Ok (Err ("gametemplate " +:+ name +:+ " advertises no ports; supply a capture filter"))
      else Ok (Ok f)
  end.
End Capture.
