(* ===== verification/CaptureFacts.v ===== *)
(** * What the capture sidecar promises

    Whatever writes fail, the file never outgrows its limit by more than one packet
    and is a prefix of what was taken, which its counters say exactly while no write
    failed; a loop records exactly the frames the filter accepts; the filter the
    operator builds passes the sidecar's own check. *)

From Stdlib Require Import Ascii.
From S2P Require Import Prelude GoTime GoText GoToken Idle Capture.
Import Capture.
Local Open Scope Z_scope.

(** ** Sizes *)

Lemma land_3 n : Z.land n 3 = n mod 4.
Proof. change 3 with (Z.ones 2). by rewrite Z.land_ones by lia. Qed.
(** Overhead and padding: a multiple of four, at most three bytes more. *)
Lemma blockBytes_spec n : 0 <= n -> 32 + n <= blockBytes n <= 35 + n /\ (blockBytes n) mod 4 = 0.
Proof.
  intros Hn. unfold blockBytes, epbFixedOverheadBytes. rewrite !land_3.
  pose proof (Z.mod_pos_bound n 4 ltac:(lia)). pose proof (Z.mod_pos_bound (4 - n mod 4) 4 ltac:(lia)). split; [lia|].
  pose proof (Z.div_mod n 4 ltac:(lia)). pose proof (Z.div_mod (4 - n mod 4) 4 ltac:(lia)).
  replace (32 + n + (4 - n mod 4) mod 4) with ((8 + n / 4 + 1 - (4 - n mod 4) / 4) * 4) by lia. apply Z.mod_mul. lia.
Qed.

Lemma blockBytes_padded n : 0 <= n -> blockBytes n = 32 + 4 * ((n + 3) / 4).
Proof.
  intros Hn. unfold blockBytes, epbFixedOverheadBytes. rewrite !land_3.
  pose proof (Z.mod_pos_bound n 4 ltac:(lia)). pose proof (Z.div_mod n 4 ltac:(lia)).
  assert (n mod 4 = 0 \/ n mod 4 = 1 \/ n mod 4 = 2 \/ n mod 4 = 3) as [E|[E|[E|E]]] by lia; rewrite E in *;
    [replace (n + 3) with (3 + (n / 4) * 4) by lia|replace (n + 3) with (0 + (n / 4 + 1) * 4) by lia|
     replace (n + 3) with (1 + (n / 4 + 1) * 4) by lia|replace (n + 3) with (2 + (n / 4 + 1) * 4) by lia];
    rewrite Z.div_add by lia; change ((4 - 0) mod 4) with 0; change ((4 - 1) mod 4) with 3; change ((4 - 2) mod 4) with 2; change ((4 - 3) mod 4) with 1;
    change (3 / 4) with 0; change (0 / 4) with 0; change (1 / 4) with 0; change (2 / 4) with 0; lia.
Qed.

Lemma lenZ_nonneg {A} (l : list A) : 0 <= lenZ l.
Proof. unfold lenZ. lia. Qed.
Lemma lenZ_app {A} (a b : list A) : lenZ (a ++ b) = lenZ a + lenZ b.
Proof. unfold lenZ. rewrite length_app. lia. Qed.
Lemma lenZ_prefix {A} (a b : list A) : a `prefix_of` b -> lenZ a <= lenZ b.
Proof. intros [c ->]. rewrite lenZ_app. pose proof (lenZ_nonneg c). lia. Qed.
Lemma s64_small z : - 2 ^ 63 <= z < 2 ^ 63 -> s64 z = z.
Proof. intros Hz. unfold s64. rewrite Z.mod_small; lia. Qed.

(** ** The writer in use *)

Section Use.
Context `{NgLaws}.
#[local] Set Default Proof Using "Type*".

Lemma encode_size b : lenZ (encode b) = blockBytes (lenZ (bkData b)).
Proof. rewrite encode_length, blockBytes_padded; [done|apply lenZ_nonneg]. Qed.

(** The bytes of the blocks that were accepted. *)
Definition encoded (bs : list block) : list Z := flat_map encode bs.
Lemma encoded_app a b : encoded (a ++ b) = encoded a ++ encoded b.
Proof using Type. apply flat_map_app. Qed.
Lemma encoded_count bs : 32 * lenZ bs <= lenZ (encoded bs).
Proof.
  induction bs as [|b bs IH]; [done|]. cbn [encoded flat_map]. rewrite lenZ_app, encode_size. unfold encoded in IH.
  pose proof (lenZ_nonneg (bkData b)). pose proof (blockBytes_spec (lenZ (bkData b))). unfold lenZ in *. cbn [length]. lia.
Qed.

(** The block of a packet satisfies the contract of the PCAPNG writer and is
    within the snap length. *)
Lemma packetBlock_ok w pkt : 0 < snaplen w -> blockValid (packetBlock w pkt) = true /\ 0 <= lenZ (bkData (packetBlock w pkt)) <= snaplen w.
Proof using Type.
  intros Hs. unfold blockValid, packetBlock. cbn [bkInfo bkData ciCaptureLength ciLength]. unfold lenZ. rewrite Z.eqb_refl. cbn [andb].
  destruct (Z.ltb_spec (snaplen w) (Z.of_nat (length (Data pkt)))), (Z.ltb_spec (OriginalLength pkt) (Z.of_nat (length (Data pkt))));
    rewrite ?length_take; split; try (apply Z.leb_le); lia.
Qed.

(** What is done to a writer: packets, and closing. *)
Inductive op := OpPacket (pkt : RawPacket) (now : time) | OpClose (fileClose : bool).

(** The writer after an operation, and the blocks the PCAPNG writer took: a packet
    counts as taken when its block was accepted, also when it reached the limit. *)
Definition taken (w : Writer) (o : op) : list block :=
  match o with
  | OpPacket pkt now =>
      if (packetsWritten (WritePacket w pkt now).1 =? packetsWritten w) then [] else [packetBlock w pkt]
  | OpClose _ => []
  end.
Definition apply_op (w : Writer) (o : op) : Writer :=
  match o with OpPacket pkt now => (WritePacket w pkt now).1 | OpClose fc => (Close w fc).1 end.
Fixpoint perform (w : Writer) (ops : list op) : Writer * list block :=
  match ops with
  | [] => (w, [])
  | o :: ops => let '(w', bs) := perform (apply_op w o) ops in (w', taken w o ++ bs)
  end.

(** The invariant of a writer that was opened on [header] and took [bs]. *)
Record consistent (header : list Z) (w : Writer) (bs : list block) : Prop := {
  con_packets : packetsWritten w = lenZ bs;
  con_blocks : Forall (fun b => blockValid b = true /\ lenZ (bkData b) <= snaplen w) bs;
  con_snap : 0 < snaplen w < 2 ^ 32;
  con_size : 0 < maxSizeBytes w <= 2 ^ 62;
  con_bytes : bytesWritten w = lenZ header + lenZ (encoded bs);
  con_open : limitReached w = false -> bytesWritten w < Z.max (maxSizeBytes w) (lenZ header + 1);
  con_bound : bytesWritten w < Z.max (maxSizeBytes w) (lenZ header + 1) + 35 + snaplen w;
  con_good : ngFailed (writer w) = false -> ngFile (writer w) ++ ngBuffered (writer w) = header ++ encoded bs;
  con_failed : ngFailed (writer w) = true -> exists tail, ngFile (writer w) `prefix_of` header ++ encoded bs ++ tail /\
    lenZ (ngFile (writer w)) < Z.max (maxSizeBytes w) (lenZ header + 1) + 35 + snaplen w /\
    (tail = [] \/ exists b, tail = encode b);
  con_closed : closed w = true -> ngFailed (writer w) = false -> ngBuffered (writer w) = [] }.

Lemma consistent_limit header w bs reason : consistent header w bs -> consistent header (set_limit w reason) bs.
Proof using Type. intros [H1 H2 H3 H4 H5 H6 H7 H8 H9 H10]. constructor; done. Qed.

(** A write that failed. *)
Lemma failed_consistent header w bs s b e : 0 <= lenZ (bkData b) <= snaplen w -> blockValid b = true -> limitReached w = false ->
  consistent header w bs -> ngWritePacket (writer w) b = (s, Err e) -> consistent header (set_writer w s) bs.
Proof.
  intros Hb Hv El Hc E. destruct (write_err _ _ _ _ Hv E) as (Hf & out & Eo & Hp). pose proof Hc as [H1 H2 H3 H4 H5 H6 H7 H8 H9 H10].
  constructor; try done; cbn [writer set_writer maxSizeBytes snaplen]; [congruence| |congruence]. intros _. rewrite Eo.
  destruct (ngFailed (writer w)) eqn:Ef.
  - apply prefix_nil_inv in Hp as ->. rewrite app_nil_r. by apply H9.
  - specialize (H8 eq_refl). exists (encode b).
    assert (ngFile (writer w) ++ out `prefix_of` header ++ encoded bs ++ encode b) as Hpre.
    { rewrite app_assoc, <- H8, <- app_assoc. by apply prefix_app. }
    split_and!; [done| |by right; exists b]. pose proof (lenZ_prefix _ _ Hpre) as Hl. rewrite !lenZ_app, encode_size in Hl.
    pose proof (blockBytes_spec (lenZ (bkData b)) ltac:(lia)) as [Hbb _]. specialize (H6 El). rewrite lenZ_app. lia.
Qed.
(** A write that succeeded. *)
Lemma taken_consistent header w bs s b reached : 0 <= lenZ (bkData b) <= snaplen w -> blockValid b = true -> limitReached w = false ->
  closed w = false -> lenZ header <= 2 ^ 62 -> consistent header w bs -> ngWritePacket (writer w) b = (s, Ok ()) ->
  let w1 := set_count (set_writer w s) (s64 (bytesWritten w + blockBytes (lenZ (bkData b)))) (s64 (packetsWritten w + 1)) in
  reached = (maxSizeBytes w <=? bytesWritten w1) ->
  packetsWritten w1 = packetsWritten w + 1 /\
  consistent header (if reached then set_limit w1 LimitReasonSizeReached else w1) (bs ++ [b]).
Proof.
  intros Hb Hv El Ecl Hh Hc E. destruct (write_ok _ _ _ E) as (Hf & Hf' & out & Eo & Eb). pose proof Hc as [H1 H2 H3 H4 H5 H6 H7 H8 H9 H10].
  specialize (H6 El). pose proof (blockBytes_spec (lenZ (bkData b)) ltac:(lia)) as [Hbb _]. pose proof (encoded_count bs) as Hn.
  pose proof (lenZ_nonneg header). pose proof (lenZ_nonneg bs). rewrite !s64_small by lia. intros w1 ->. split; [done|].
  assert (forall wx, writer wx = s -> snaplen wx = snaplen w -> maxSizeBytes wx = maxSizeBytes w -> bytesWritten wx = bytesWritten w1 ->
    packetsWritten wx = packetsWritten w1 -> (limitReached wx = false -> bytesWritten w1 < maxSizeBytes w) -> closed wx = closed w -> consistent header wx (bs ++ [b])) as Hgen.
  { intros wx E1 E2 E3 E4 E5 E6 E7. constructor; rewrite ?E1, ?E2, ?E3, ?E4, ?E5; unfold w1; cbn [bytesWritten packetsWritten set_count].
    - unfold lenZ in *. rewrite length_app. cbn. lia.
    - apply Forall_app. split; [done|]. constructor; [|done]. split; [done|lia].
    - done.
    - done.
    - rewrite encoded_app, lenZ_app. cbn. rewrite app_nil_r, encode_size. lia.
    - intros El'. specialize (E6 El'). unfold w1 in E6. cbn in E6. lia.
    - lia.
    - intros _. rewrite Eo, <- app_assoc, Eb, app_assoc, (H8 Hf), encoded_app, <- app_assoc. cbn. by rewrite app_nil_r.
    - congruence.
    - congruence. }
  destruct (Z.leb_spec (maxSizeBytes w) (bytesWritten w1)); apply Hgen; try done.
Qed.

Lemma write_consistent header w bs pkt now : lenZ header <= 2 ^ 62 -> consistent header w bs ->
  consistent header (WritePacket w pkt now).1 (bs ++ taken w (OpPacket pkt now)).
Proof.
  intros Hh Hc. unfold taken. destruct (WritePacket w pkt now) as [w' r] eqn:E. cbn [fst]. unfold WritePacket in E.
  assert ((packetsWritten w =? packetsWritten w) = true) as Esame by apply Z.eqb_refl.
  destruct (closed w) eqn:Ecl; [simplify_eq; by rewrite Esame, app_nil_r|].
  destruct (limitReached w) eqn:El; [simplify_eq; by rewrite Esame, app_nil_r|].
  destruct (_ <=? _); [simplify_eq; cbn [packetsWritten set_limit]; rewrite Esame, app_nil_r; by apply consistent_limit|].
  pose proof Hc as [_ _ H3 _ _ _ _ _ _ _]. destruct (packetBlock_ok w pkt ltac:(lia)) as [Hv Hb].
  destruct (ngWritePacket (writer w) (packetBlock w pkt)) as [s [[]|[]]] eqn:En.
  - destruct (taken_consistent header w bs s (packetBlock w pkt) _ Hb Hv El Ecl Hh Hc En eq_refl) as [Ep Hcon].
    cbn [bytesWritten set_writer set_count maxSizeBytes packetsWritten] in *. rewrite Ep in Hcon.
    destruct (maxSizeBytes w <=? _); simplify_eq; cbn [packetsWritten set_limit set_count]; rewrite Ep;
      (destruct (Z.eqb_spec (packetsWritten w + 1) (packetsWritten w)); [lia|done]).
  - simplify_eq. cbn [packetsWritten set_limit set_writer]. rewrite Esame, app_nil_r. by eapply consistent_limit, failed_consistent.
  - simplify_eq. cbn [packetsWritten set_writer]. rewrite Esame, app_nil_r. by eapply failed_consistent.
Qed.
Lemma close_consistent header w bs fc : consistent header w bs -> consistent header (Close w fc).1 bs.
Proof.
  intros Hc. unfold Close. destruct (closed w); [done|]. cbn [writer set_closed].
  destruct (ngFlush (writer w)) as [s r] eqn:Ef. pose proof Hc as [H1 H2 H3 H4 H5 H6 H7 H8 H9 H10].
  assert (forall e, r = Err e -> consistent header (set_writer (set_closed w) s) bs) as Herr.
  { intros e ->. destruct (flush_err _ _ _ Ef) as (Hf & out & Eo & Hp).
    constructor; try done; cbn [writer set_writer set_closed maxSizeBytes snaplen]; [congruence| |congruence]. intros _. rewrite Eo.
    destruct (ngFailed (writer w)) eqn:Efw.
    - apply prefix_nil_inv in Hp as ->. rewrite app_nil_r. by apply H9.
    - specialize (H8 eq_refl). exists []. rewrite app_nil_r, <- H8.
      assert (ngFile (writer w) ++ out `prefix_of` ngFile (writer w) ++ ngBuffered (writer w)) as Hpre by by apply prefix_app.
      split_and!; [done| |by left]. pose proof (lenZ_prefix _ _ Hpre) as Hl. rewrite H8, (lenZ_app header) in Hl. lia. }
  destruct r as [[]|[]]; cbn [fst]; [|by eapply consistent_limit, Herr|by eapply Herr].
  destruct (flush_ok _ _ Ef) as (Hf & Hf' & Efile & Ebuf). specialize (H8 Hf).
  assert (lenZ (ngFile s) = bytesWritten w) as Elen by (rewrite Efile, H8, lenZ_app; lia).
  constructor; cbn [bytesWritten packetsWritten snaplen maxSizeBytes limitReached writer set_closed set_count set_writer]; try done; rewrite ?Elen; try done.
  - intros _. by rewrite Ebuf, app_nil_r, Efile.
  - congruence.
Qed.
Lemma apply_op_keeps w o : snaplen (apply_op w o) = snaplen w /\ maxSizeBytes (apply_op w o) = maxSizeBytes w.
Proof using Type.
  destruct o as [pkt now|fc]; cbn [apply_op].
  - unfold WritePacket. repeat (case_match; cbn [fst]; try done).
  - unfold Close. repeat (case_match; cbn [fst]; try done).
Qed.
Lemma perform_consistent header ops : lenZ header <= 2 ^ 62 -> forall w bs, consistent header w bs ->
  consistent header (perform w ops).1 (bs ++ (perform w ops).2) /\ snaplen (perform w ops).1 = snaplen w /\ maxSizeBytes (perform w ops).1 = maxSizeBytes w.
Proof.
  intros Hh. induction ops as [|o ops IH]; intros w bs Hc; cbn [perform]; [by rewrite app_nil_r|].
  destruct (IH (apply_op w o) (bs ++ taken w o)) as (IH1 & IH2 & IH3).
  { destruct o as [pkt now|fc]; [by apply write_consistent|]. cbn [taken]. rewrite app_nil_r. by apply close_consistent. }
  destruct (apply_op_keeps w o) as [E1 E2]. destruct (perform (apply_op w o) ops) as [w' bs']. cbn [fst snd] in *. rewrite app_assoc.
  split_and!; [done|congruence..].
Qed.

(** ** After a limit or a close *)

Definition stopped (w : Writer) : bool := limitReached w || closed w.
(** What may still happen to the file: a prefix of what was buffered reaches it. *)
Definition settles (w w' : Writer) : Prop :=
  stopped w' = true /\ packetsWritten w' = packetsWritten w /\
  exists out, ngFile (writer w') = ngFile (writer w) ++ out /\ out `prefix_of` ngBuffered (writer w) /\
    (closed w = true -> w' = w).
Lemma stopped_op w o : stopped w = true -> settles w (apply_op w o) /\ taken w o = [].
Proof.
  unfold stopped. intros Hs. destruct o as [pkt now|fc]; cbn [apply_op taken].
  - assert ((WritePacket w pkt now).1 = w) as ->.
    { unfold WritePacket. destruct (closed w); [done|]. rewrite orb_false_r in Hs. by rewrite Hs. }
    rewrite Z.eqb_refl. split; [|done]. split_and!; [done|done|]. exists []. rewrite app_nil_r. split_and!; [done|apply prefix_nil|done].
  - split; [|done]. unfold Close. destruct (closed w) eqn:Ec.
    { cbn [fst]. split_and!; [unfold stopped; by rewrite Ec, orb_true_r|done|]. exists []. rewrite app_nil_r. split_and!; [done|apply prefix_nil|done]. }
    cbn [writer set_closed]. destruct (ngFlush (writer w)) as [s r] eqn:Ef.
    assert (exists out, ngFile s = ngFile (writer w) ++ out /\ out `prefix_of` ngBuffered (writer w)) as (out & Eo & Hp).
    { destruct r as [[]|e].
      - destruct (flush_ok _ _ Ef) as (_ & _ & -> & _). by exists (ngBuffered (writer w)).
      - destruct (flush_err _ _ _ Ef) as (_ & out & Eo & Hp). exists out. split; [done|]. destruct (ngFailed (writer w)); [|done].
        apply prefix_nil_inv in Hp as ->. apply prefix_nil. }
    destruct r as [[]|[]]; cbn [fst]; (split_and!; [unfold stopped; cbn; by rewrite ?orb_true_r|done|]; exists out; by rewrite Ec).
Qed.
Lemma stopped_later ops : forall w, stopped w = true -> stopped (perform w ops).1 = true /\ (perform w ops).2 = [] /\
  packetsWritten (perform w ops).1 = packetsWritten w.
Proof.
  induction ops as [|o ops IH]; intros w Hs; cbn [perform]; [done|]. destruct (stopped_op w o Hs) as [(Hs' & Ep & _) ->].
  destruct (IH _ Hs') as (I1 & I2 & I3). destruct (perform (apply_op w o) ops) as [w' bs]. cbn [fst snd] in *. split_and!; [done|done|congruence].
Qed.

(** A writer that is just opened. *)
Lemma new_consistent maxDuration maxSize snap s now w0 : NewWriter maxDuration maxSize snap s now = Some w0 ->
  ngFailed s = false -> ngBuffered s = [] -> maxSize <= 2 ^ 62 -> 0 <= snap < 2 ^ 32 ->
  consistent (ngFile s) w0 [] /\ maxSizeBytes w0 = maxSize.
Proof.
  intros Hn Hf Hb Hm Hs. unfold NewWriter in Hn. destruct (Z.leb_spec maxDuration 0); [done|]. destruct (Z.ltb_spec MaxCaptureDurationSeconds maxDuration); [done|].
  destruct (Z.leb_spec maxSize 0); [done|]. injection Hn as <-. split; [|done].
  assert (0 < (if snap =? 0 then DefaultSnaplen else snap) < 2 ^ 32) by (unfold DefaultSnaplen; destruct (Z.eqb_spec snap 0); lia).
  constructor; cbn [bytesWritten packetsWritten snaplen maxSizeBytes limitReached writer encoded flat_map]; try done; try lia;
    change (lenZ []) with 0; try lia.
  - intros _. by rewrite Hb.
  - congruence.
Qed.
End Use.

(** C35. However packets arrive, whatever writes and flushes fail and whenever the
    writer is closed, the capture file never reaches its size limit plus one packet
    block (or its header plus one, when the header alone is over the limit), and
    holds a prefix of the header, the blocks that were taken in order, and at most
    one more block that failed; no int64 counter overflows; the packet counter is
    the number of blocks taken, each within the snap length.  As long as no write
    failed the byte counter is the file with what is still buffered, and once the
    writer is closed then, the file is complete and the counter is its size.  After
    a limit or a close no packet is taken any more, and only what was buffered can
    still reach the file. *)
Theorem capture_bounded `{NgLaws} maxDuration maxSize snap s now w0 ops later :
  NewWriter maxDuration maxSize snap s now = Some w0 -> ngFailed s = false -> ngBuffered s = [] ->
  maxSize <= 2 ^ 62 -> lenZ (ngFile s) <= 2 ^ 62 -> 0 <= snap < 2 ^ 32 ->
  let '(w, bs) := perform w0 ops in
  let header := ngFile s in
  lenZ (ngFile (writer w)) < Z.max maxSize (lenZ header + 1) + 35 + snaplen w0 /\
  (exists tail, ngFile (writer w) `prefix_of` header ++ encoded bs ++ tail /\ (tail = [] \/ exists b, tail = encode b)) /\
  packetsWritten w = lenZ bs /\ Forall (fun b => lenZ (bkData b) <= snaplen w0) bs /\
  (ngFailed (writer w) = false ->
     bytesWritten w = lenZ (ngFile (writer w)) + lenZ (ngBuffered (writer w)) /\ ngFile (writer w) ++ ngBuffered (writer w) = header ++ encoded bs /\
     (closed w = true -> ngFile (writer w) = header ++ encoded bs /\ bytesWritten w = lenZ (ngFile (writer w)))) /\
  (stopped w = true -> (perform w later).2 = [] /\ forall o, settles w (apply_op w o)).
Proof.
  intros Hn Hf Hb Hm Hh Hs. destruct (new_consistent _ _ _ _ _ _ Hn Hf Hb Hm Hs) as [Hc <-].
  destruct (perform_consistent (ngFile s) ops Hh w0 [] Hc) as ([C1 C2 C3 C4 C5 C6 C7 C8 C9 C10] & Es & Em).
  destruct (perform w0 ops) as [w bs]. cbn [fst snd app] in *. rewrite <- Em, <- Es in *. cbv zeta.
  assert (lenZ (ngFile (writer w)) < Z.max (maxSizeBytes w) (lenZ (ngFile s) + 1) + 35 + snaplen w /\
    exists tail, ngFile (writer w) `prefix_of` ngFile s ++ encoded bs ++ tail /\ (tail = [] \/ exists b, tail = encode b)) as [Hlen Hpre].
  { destruct (ngFailed (writer w)).
    - destruct (C9 eq_refl) as (tail & Hp & Hl & Ht). split; [done|]. by exists tail.
    - pose proof (f_equal lenZ (C8 eq_refl)) as E. rewrite !lenZ_app in E. pose proof (lenZ_nonneg (ngBuffered (writer w))). split; [lia|].
      exists []. rewrite app_nil_r, <- (C8 eq_refl). split; [by apply prefix_app_r|by left]. }
  split_and!; [done|done|done| | |].
  - eapply Forall_impl; [exact C2|]. by intros b [_ ?].
  - intros Hg. specialize (C8 Hg). pose proof (f_equal lenZ C8) as E. rewrite !lenZ_app in E. split_and!; [lia|done|].
    intros Hcl. specialize (C10 Hcl Hg). rewrite C10, app_nil_r in C8. split; [done|]. rewrite C10 in E. change (lenZ []) with 0 in E. lia.
  - intros Hst. split; [by apply stopped_later|]. intros o. by apply stopped_op.
Qed.

(** *** A writer *)

(** A writer over a disk with room for so many bytes: it flushes at eight bytes. *)
Record roomy := MkRoomy { rFile : list Z; rBuffer : list Z; rRoom : nat; rBroken : bool }.
Definition emit (s : roomy) (all : list Z) : roomy * result ioErr unit :=
  if (length all <=? rRoom s)%nat then (MkRoomy (rFile s ++ all) [] (rRoom s - length all) false, Ok ())
  else (MkRoomy (rFile s ++ take (rRoom s) all) [] 0 true, Err ENOSPC).
Definition zeros (n : Z) : list Z := replicate (Z.to_nat n) 0.
Definition bytesOf (b : block) : list Z := zeros 28 ++ bkData b ++ zeros (Z.land (4 - Z.land (lenZ (bkData b)) 3) 3) ++ zeros 4.
Definition roomyWrite (s : roomy) (b : block) : roomy * result ioErr unit :=
  if rBroken s then (s, Err ENOSPC)
  else
    let all := rBuffer s ++ bytesOf b in
    if (length all <? 64)%nat then (MkRoomy (rFile s) all (rRoom s) false, Ok ()) else emit s all.
Definition roomyFlush (s : roomy) : roomy * result ioErr unit :=
  if rBroken s then (s, Err ENOSPC) else emit s (rBuffer s).
#[export] Instance roomyWriter : NgWriter :=
  {| ng := roomy; ngFile := rFile; ngBuffered := rBuffer; ngFailed := rBroken; encode := bytesOf; ngWritePacket := roomyWrite; ngFlush := roomyFlush |}.

Lemma emit_ok s all s' : rBroken s = false -> emit s all = (s', Ok ()) -> rBroken s' = false /\ rFile s' = rFile s ++ all /\ rBuffer s' = [].
Proof. unfold emit. destruct (_ <=? _)%nat; intros _ E; by simplify_eq. Qed.
Lemma emit_err s all s' e : emit s all = (s', Err e) -> rBroken s' = true /\ exists out, rFile s' = rFile s ++ out /\ out `prefix_of` all.
Proof.
  unfold emit. destruct (_ <=? _)%nat; intros E; simplify_eq. split; [done|]. eexists. split; [done|]. exists (drop (rRoom s) all). by rewrite take_drop.
Qed.
#[export] Instance roomyLaws : NgLaws.
Proof.
  split.
  - intros b. rewrite <- blockBytes_padded by apply lenZ_nonneg. cbn. unfold bytesOf, blockBytes, epbFixedOverheadBytes. rewrite !lenZ_app. unfold zeros.
    set (p := Z.land (4 - Z.land (lenZ (bkData b)) 3) 3). assert (0 <= p) by (apply Z.land_nonneg; right; lia).
    unfold lenZ at 1 3 4. rewrite !length_replicate, !Z2Nat.id by lia. lia.
  - intros s b s' E. cbn in *. unfold roomyWrite in E. destruct (rBroken s) eqn:Eb; [done|]. destruct (_ <? _)%nat.
    + simplify_eq. split_and!; [done..|]. exists []. by rewrite app_nil_r.
    + apply emit_ok in E as (E1 & E2 & E3); [|done]. split_and!; [done..|]. exists (rBuffer s ++ bytesOf b). by rewrite E3, app_nil_r.
  - intros s b s' e _ E. cbn in *. unfold roomyWrite in E. destruct (rBroken s) eqn:Eb.
    + simplify_eq. split; [done|]. exists []. by rewrite app_nil_r.
    + destruct (_ <? _)%nat; [done|]. by eapply emit_err.
  - intros s s' E. cbn in *. unfold roomyFlush in E. destruct (rBroken s) eqn:Eb; [done|]. by apply emit_ok in E as (E1 & E2 & E3).
  - intros s s' e E. cbn in *. unfold roomyFlush in E. destruct (rBroken s) eqn:Eb.
    + simplify_eq. split; [done|]. exists []. by rewrite app_nil_r.
    + by eapply emit_err.
Qed.

(** A capture on a disk that fills up: the second packet reaches the limit but is
    only buffered, and closing loses its end. *)
Definition demoFile (room : nat) : roomy := MkRoomy (zeros 80) [] room false.
Definition demoOps : list op := [OpPacket (MkRaw [1; 2; 3; 4; 5] 1 9) 1; OpPacket (MkRaw [6] 2 1) 2; OpClose true].
Lemma capture_bounded_witness :
  (exists w0 w bs, NewWriter 60 150 0 (demoFile 1000) 0 = Some w0 /\ perform w0 demoOps = (w, bs) /\ limitReason w = LimitReasonSizeReached /\
     bytesWritten w = 156 /\ ngFile (writer w) = zeros 80 ++ encoded bs /\ lenZ bs = 2) /\
  (exists w0 w bs, NewWriter 60 150 0 (demoFile 50) 0 = Some w0 /\ perform w0 demoOps = (w, bs) /\ limitReason w = LimitReasonDiskFull /\
     lenZ (ngFile (writer w)) = 130 /\ lenZ (ngFile (writer w)) < 150 + 35 + 65535).
Proof.
  split; do 3 eexists.
  - pose proof (capture_bounded 60 150 0 (demoFile 1000) 0 _ demoOps [] eq_refl eq_refl eq_refl ltac:(vm_compute; discriminate)
      ltac:(vm_compute; discriminate) ltac:(lia)) as H.
    split; [reflexivity|]. split; [vm_compute; reflexivity|]. split_and!; vm_compute; reflexivity.
  - pose proof (capture_bounded 60 150 0 (demoFile 50) 0 _ demoOps [] eq_refl eq_refl eq_refl ltac:(vm_compute; discriminate)
      ltac:(vm_compute; discriminate) ltac:(lia)) as H.
    split; [reflexivity|]. split; [reflexivity|]. destruct H as (H & _).
    split; [vm_compute; reflexivity|]. split; [vm_compute; reflexivity|]. exact H.
Defined.

(** ** The loop *)

Section Loop.
Variables (filterVM : option (list Z -> option Z)) (snap : Z).

(** The packets a capture is to record: the frames the filter accepts, whole, up
    to the first event that ends the loop. *)
Fixpoint accepted (events : list sourceEvent) : list RawPacket :=
  match events with
  | [] | Cancelled :: _ | ReadError :: _ => []
  | Timeout_ :: events => accepted events
  | Frame data ts n :: events =>
      match (match filterVM with Some run => run data | None => Some 1 end) with
      | None => []
      | Some 0 => accepted events
      | Some _ => MkRaw (if (0 <? snap) && (snap <? lenZ data) then take (Z.to_nat snap) data else data) ts n :: accepted events
      end
  end.
Lemma ReadPacket_accepted events :
  match ReadPacket filterVM snap events with
  | Some (Ok pkt, rest) => accepted events = pkt :: accepted rest
  | _ => accepted events = []
  end.
Proof using Type.
  induction events as [|[| | |data ts n] events IH]; cbn [ReadPacket accepted]; try done.
  destruct (match filterVM with Some run => run data | None => Some 1 end) as [v|]; [|done]. destruct (Z.eqb_spec v 0) as [->|Hv]; [done|]. by destruct v.
Qed.

(** What a capture hands to the writer: the accepted frames in their order, none
    left out before the end, none that the filter rejects. *)
Lemma capture_records `{NgWriter} fuel : forall w events clock,
  (ReadPackets filterVM snap fuel w events clock).1.2 `prefix_of` accepted events.
Proof using Type.
  induction fuel as [|fuel IH]; intros w events clock; cbn [ReadPackets]; [apply prefix_nil|].
  pose proof (ReadPacket_accepted events) as Ha. destruct (ReadPacket filterVM snap events) as [[[pkt|e] rest]|]; [|apply prefix_nil..]. rewrite Ha.
  destruct clock as [|now clock]; [apply prefix_nil|]. destruct (WritePacket w pkt now) as [w' [[]|e]].
  - specialize (IH w' rest clock). destruct (ReadPackets filterVM snap fuel w' rest clock) as [[w2 pkts] end_]. by apply prefix_cons.
  - apply prefix_cons, prefix_nil.
Qed.
End Loop.

(** ** The default filter *)

Lemma wordsFrom_break a c b : isBreak c = true -> forall cur, wordsFrom cur (a +:+ String c b) = wordsFrom cur a ++ wordsFrom EmptyString b.
Proof.
  intros Hc. induction a as [|d a IH]; intros cur; rewrite ?str_app_cons; cbn [wordsFrom].
  - change (EmptyString +:+ String c b) with (String c b). cbn [wordsFrom]. by rewrite Hc.
  - destruct (isBreak d); rewrite IH; [by rewrite app_assoc|done].
Qed.
Lemma words_space a b : words (a +:+ String " " b) = words a ++ words b.
Proof. by apply wordsFrom_break. Qed.
Lemma wordsFrom_solid s : str_all (fun c => negb (isBreak c)) s = true -> forall cur, (cur +:+ s) <> EmptyString -> wordsFrom cur s = [cur +:+ s].
Proof.
  induction s as [|c s IH]; intros Hs cur Hne; cbn [wordsFrom].
  - rewrite str_app_nil_r in *. by rewrite (proj2 (String.eqb_neq _ _) Hne).
  - cbn in Hs. apply andb_true_iff in Hs as [Hc Hs]. apply negb_true_iff in Hc. rewrite Hc, IH; [|done|].
    + by rewrite str_app_assoc, str_app_cons.
    + rewrite str_app_assoc, str_app_cons. exact Hne.
Qed.

(** A word the sidecar knows: one of four, or a number. *)
Definition plainWord (w : string) : Prop := w ∈ ["tcp"; "udp"; "port"; "or"] \/ (w <> EmptyString /\ str_all is_digit_char w = true).

Lemma digits_word w : w <> EmptyString -> str_all is_digit_char w = true -> words w = [w].
Proof.
  intros Hne Hd. unfold words. rewrite wordsFrom_solid; [done| |done]. revert Hd. clear. induction w as [|c w IH]; [done|]. cbn.
  intros [Hc Hw]%andb_true_iff. rewrite IH by done. rewrite andb_true_r. revert Hc. clear. destruct c as [[] [] [] [] [] [] [] []]; cbn; done.
Qed.
Lemma term_words p : 0 < gpContainerPort p -> Forall plainWord (words (filterTerm p)).
Proof.
  intros Hp. unfold filterTerm. destruct (Itoa_digits (gpContainerPort p) ltac:(lia)) as [Hne Hd].
  change (" port " +:+ Itoa (gpContainerPort p)) with (String " " ("port" +:+ String " " (Itoa (gpContainerPort p)))).
  rewrite !words_space, (digits_word _ Hne Hd). apply Forall_app. split; [|apply Forall_app; split].
  - destruct (String.eqb _ _); constructor; try done; left; apply (bool_decide_unpack _); reflexivity.
  - constructor; [|done]. left. apply (bool_decide_unpack _); reflexivity.
  - constructor; [|done]. by right.
Qed.
Lemma terms_words seen ports : Forall (fun t => t <> EmptyString /\ Forall plainWord (words t)) (filterTerms seen ports).
Proof.
  revert seen. induction ports as [|p ports IH]; intros seen; cbn [filterTerms]; [done|]. destruct (_ || _) eqn:E; [apply IH|].
  apply orb_false_iff in E as [_ E%Z.leb_gt]. case_bool_decide; [apply IH|]. constructor; [|apply IH]. split; [|by apply term_words].
  unfold filterTerm. by destruct (String.eqb _ _).
Qed.
Lemma join_words l : Forall (fun t => t <> EmptyString /\ Forall plainWord (words t)) l -> Forall plainWord (words (joinOr l)).
Proof.
  induction 1 as [|t l [_ Ht] Hl IH]; [constructor|]. cbn [joinOr]. destruct l as [|t' l]; [done|].
  set (rest := joinOr (t' :: l)) in *. change (" or " +:+ rest) with (String " " ("or" +:+ String " " rest)). rewrite !words_space.
  apply Forall_app. split; [done|]. apply Forall_app. split; [|done]. constructor; [|done]. left. apply (bool_decide_unpack _); reflexivity.
Qed.

(** The first byte of a number survives the lower-casing, so no keyword is one. *)
Lemma plainWord_supported uni w : plainWord w -> ToLower uni (trim_left_byte backslash w) ∉ unsupportedProtocolKeywords.
Proof.
  intros [Hw|[Hne Hd]].
  - rewrite !elem_of_cons, elem_of_nil in Hw. destruct Hw as [->|[->|[->|[->|[]]]]]; apply (bool_decide_unpack _); reflexivity.
  - destruct w as [|c w]; [done|]. cbn in Hd. apply andb_true_iff in Hd as [Hc _].
    assert (Ht : trim_left_byte backslash (String c w) = String c w).
    { cbn. destruct (Ascii.eqb_spec c backslash) as [->|]; [by vm_compute in Hc|done]. }
    rewrite Ht. clear Ht.
    assert (Hh : exists t, ToLower uni (String c w) = String c t).
    { destruct c as [[] [] [] [] [] [] [] []]; try discriminate Hc; eexists; reflexivity. }
    destruct Hh as [t ->].
    assert (Hk : Forall (fun k => match k with String d _ => is_digit_char d = false | EmptyString => True end) unsupportedProtocolKeywords)
      by (unfold unsupportedProtocolKeywords; repeat (constructor; [reflexivity|]); constructor).
    rewrite Forall_forall in Hk. intros Hin. apply Hk in Hin. congruence.
Qed.

(** The filter the operator builds for a server passes the sidecar's keyword
    check, and is there whenever a port is advertised. *)
Lemma default_filter_supported uni ports : rejectUnsupportedKeywords uni (defaultCaptureFilter ports) = None.
Proof.
  unfold rejectUnsupportedKeywords. destruct (list_find _ _) as [[i w]|] eqn:E; [|done]. exfalso.
  apply list_find_Some in E as (Hi & Hin & _). apply (plainWord_supported uni w); [|done].
  pose proof (join_words _ (terms_words [] ports)) as Hall. rewrite Forall_forall in Hall. apply Hall. by eapply list_elem_of_lookup_2.
Qed.
Lemma default_filter_present ports : (exists p, p ∈ ports /\ gpAdvertise p = true /\ 0 < gpContainerPort p) <-> defaultCaptureFilter ports <> EmptyString.
Proof.
  unfold defaultCaptureFilter. split.
  - intros (p & Hin & Ha & Hp). assert (Hne : filterTerms [] ports <> []).
    { clear -Hin Ha Hp. induction Hin as [p ports|p q ports _ IH]; cbn [filterTerms].
      - rewrite Ha, (proj2 (Z.leb_gt _ _) Hp). done.
      - destruct (_ || _); [by apply IH|done]. }
    pose proof (terms_words [] ports) as Ht. destruct (filterTerms [] ports) as [|t l]; [done|]. apply Forall_cons in Ht as [[Ht _] _].
    cbn [joinOr]. destruct l; [done|]. by destruct t.
  - intros Hne. assert (Hgen : forall seen, filterTerms seen ports <> [] -> exists p, p ∈ ports /\ gpAdvertise p = true /\ 0 < gpContainerPort p).
    { clear Hne. induction ports as [|p ports IH]; intros seen Ht; cbn [filterTerms] in Ht; [done|].
      destruct (_ || _) eqn:E.
      - destruct (IH seen Ht) as (q & Hq & H). exists q. split; [by right|done].
      - apply orb_false_iff in E as [Ea%negb_false_iff Ep%Z.leb_gt]. exists p. split; [by left|done]. }
    apply (Hgen []). intros E. by rewrite E in Hne.
Qed.
