(* ===== verification/Backup.v ===== *)
(** * operator: a restic backup from claim to clean-up

    src/operator/internal/controller: backup_controller.go, backup_worker.go,
    backup_preparation.go, backup_budgets.go and backup_guard.go, with the
    consistency condition of backup_manifest.go.  A reconcile pass is a program of
    calls to the cluster and to the agent of the game ([Prog]); the Backup it
    works on is threaded through it, since the code changes it in place.  The
    operations on the ownership annotation are those of [Lifecycle].  Volume
    snapshots and the forgetting of snapshots are single calls. *)

From Stdlib Require Import Ascii.
From S2P Require Import Prelude GoTime GoText GoToken Prog Idle Lifecycle Power.
Local Open Scope Z_scope.

(** ** Objects *)

Definition annoQuiesceAttempted : string := "backup.gameplane.local/quiesce-attempted".
Definition annoQuiescedAt : string := "backup.gameplane.local/quiesced-at".
Definition annoUnquiescedAt : string := "backup.gameplane.local/unquiesced-at".
Definition annoUnquiesceRetryFirstFailedAt : string := "backup.gameplane.local/unquiesce-retry-first-failed-at".
Definition backupPreparationDeadlineAnnotation : string := "backup.gameplane.local/preparation-deadline".
Definition backupQuiesceDeadlineAnnotation : string := "backup.gameplane.local/quiesce-deadline".
Definition backupCopyAbortAnnotation : string := "backup.gameplane.local/copy-aborted".
Definition backupPreparationAnnotation : string := "backup.gameplane.local/preparation".
Definition backupCleanupOutcomeAnnotation : string := "backup.gameplane.local/cleanup-outcome".
Definition backupSourceStartupDeadlineAnnotation : string := "backup.gameplane.local/source-startup-deadline".
Definition backupWorkerSourceAnnotation : string := "backup.gameplane.local/worker-source".
Definition backupAuthorizedWorkerAnnotation : string := "backup.gameplane.local/authorized-worker".
Definition backupTargetAnnotation : string := "backup.gameplane.local/target".
Definition backupRecoveryAnnotation : string := "backup.gameplane.local/recovering-owner".
Definition backupSnapshotAbortAnnotation : string := "backup.gameplane.local/snapshot-aborted".

Definition DefaultBackupPreparationTimeout : duration := 10 * Minute.
Definition DefaultBackupQuiesceTimeout : duration := 5 * Minute.
Definition DefaultBackupJobBackoffLimit : Z := 2.
Definition DefaultBackupJobActiveDeadlineSeconds : Z := 86400.
Definition backupSourceStartupGracePeriod : duration := 2 * Minute.
Definition maxUnquiesceFinalizeRetry : duration := 10 * Minute.
Definition snapshotUnavailableMsg : string :=
  "backup job completed but its restic snapshot id could not be read from the pod logs; the backup is not restorable".

(** What is known of the copy when it starts ([BackupCaptureManifest]). *)
Record manifest := MkManifest { mnState : string; mnStrategy : string; mnQuiesceOutcome : string }.

(** [BackupStatus] *)
Record status := MkStatus {
  sPhase : string; sSnapshotID : string; sMessage : string; sStart : option time; sCompletion : option time;
  sObservedGeneration : Z; sSize : option Z; sManifest : option manifest; sConditions : list Condition }.
Definition set_phase (s : status) (p : string) : status :=
  MkStatus p (sSnapshotID s) (sMessage s) (sStart s) (sCompletion s) (sObservedGeneration s) (sSize s) (sManifest s) (sConditions s).
Definition set_snapshot (s : status) (id : string) (size : option Z) : status :=
  MkStatus (sPhase s) id (sMessage s) (sStart s) (sCompletion s) (sObservedGeneration s) size (sManifest s) (sConditions s).
Definition set_message (s : status) (m : string) : status :=
  MkStatus (sPhase s) (sSnapshotID s) m (sStart s) (sCompletion s) (sObservedGeneration s) (sSize s) (sManifest s) (sConditions s).
Definition set_times (s : status) (start completion : option time) (gen : Z) : status :=
  MkStatus (sPhase s) (sSnapshotID s) (sMessage s) start completion gen (sSize s) (sManifest s) (sConditions s).
Definition set_manifest (s : status) (m : manifest) : status :=
  MkStatus (sPhase s) (sSnapshotID s) (sMessage s) (sStart s) (sCompletion s) (sObservedGeneration s) (sSize s) (Some m) (sConditions s).
Definition put_conditions (s : status) (c : list Condition) : status :=
  MkStatus (sPhase s) (sSnapshotID s) (sMessage s) (sStart s) (sCompletion s) (sObservedGeneration s) (sSize s) (sManifest s) c.

(** [Backup]; the resource version grows with every change. *)
Record backup := MkBackup {
  bVersion : Z; bNamespace : string; bName : string; bUID : string; bGeneration : Z; bDeleting : bool; bAnn : annots; bFinalizer : bool; bSnapshotFinalizer : bool;
  bServer : string; bRepoRef : option string; bQuiesce : bool; bStrategy : string; bStatus : status }.
Definition with_bann (b : backup) (m : annots) : backup :=
  MkBackup (bVersion b) (bNamespace b) (bName b) (bUID b) (bGeneration b) (bDeleting b) m (bFinalizer b) (bSnapshotFinalizer b) (bServer b) (bRepoRef b)
    (bQuiesce b) (bStrategy b) (bStatus b).
Definition with_bstatus (b : backup) (s : status) : backup :=
  MkBackup (bVersion b) (bNamespace b) (bName b) (bUID b) (bGeneration b) (bDeleting b) (bAnn b) (bFinalizer b) (bSnapshotFinalizer b) (bServer b) (bRepoRef b)
    (bQuiesce b) (bStrategy b) s.
Definition with_finalizers (b : backup) (f s : bool) : backup :=
  MkBackup (bVersion b) (bNamespace b) (bName b) (bUID b) (bGeneration b) (bDeleting b) (bAnn b) f s (bServer b) (bRepoRef b) (bQuiesce b) (bStrategy b) (bStatus b).
Definition set_stored (b : backup) (v : Z) (deleting : bool) : backup :=
  MkBackup v (bNamespace b) (bName b) (bUID b) (bGeneration b) deleting (bAnn b) (bFinalizer b) (bSnapshotFinalizer b) (bServer b) (bRepoRef b)
    (bQuiesce b) (bStrategy b) (bStatus b).
Definition bann (b : backup) (k : string) : string := ann (bAnn b) k.
(** [patchBackupAnnotations] with one pair. *)
Definition patch (k v : string) (b : backup) : backup := with_bann b (<[k := v]> (bAnn b)).

(** [backupPreparation] and [backupWorkerSource] *)
Record backupPreparation := MkPrep {
  pOutcome : string; pTargetUID : string; pWorkloadUID : string; pWorkloadGeneration : Z; pPodUID : string }.
Record backupWorkerSource := MkSource { wsPodUID : string; wsNodeName : string; wsTolerations : list string }.

(** Jobs, pods, StatefulSets: the fields in use; an owner is the kind and UID of
    the controller, [jFailed] the message of a Failed condition that is True. *)
Definition ownerRef : Type := string * string.
Record job := MkJob {
  jName : string; jUID : string; jOwner : option ownerRef; jProtocol : string; jSucceeded : Z; jActive : Z;
  jFailed : option string;
  jDeleting : bool; jStart : option time; jCompletion : option time; jDeadline : option Z; jClaims : list string }.
Record workerPod := MkWorkerPod {
  wpName : string; wpUID : string; wpOwner : option ownerRef; wpBackupUID : string; wpDeleting : bool; wpPhase : string;
  wpNode : string; wpReady : bool; wpClaims : list string; wpTolerations : list string }.
Record workload := MkWorkload {
  wlUID : string; wlOwner : option ownerRef; wlGeneration : Z; wlObserved : Z; wlReplicas : option Z; wlStatusReplicas : Z;
  wlTolerations : list string }.
(** The ConfigMap that carries the start token. *)
Record gate := MkGate { gtOwner : option ownerRef; gtToken : string }.
(** The Restores of the namespace, as the forget stage reads them. *)
Record restore := MkRestore { rPhase : string; rBackup : string; rSnapshotID : string }.
Record resticSummary := MkSummary { rsSnapshotID : string; rsTotalBytes : Z }.

Definition controlledBy (o : option ownerRef) (uid : string) : bool :=
  match o with Some (_, u) => String.eqb u uid | None => false end.
Definition jobControlledBy (j : job) (b : backup) : bool := controlledBy (jOwner j) (bUID b).
Definition livePod (p : workerPod) : bool :=
  wpDeleting p || (negb (String.eqb (wpPhase p) "Succeeded") && negb (String.eqb (wpPhase p) "Failed")).

(** ** Calls *)

(** What a call or a function fails with, as the code tells errors apart. *)
Inductive berr :=
| NotFound | OtherErr (msg : string) | Unsupported | GenerationChanged (msg : string) | SourceChanged (msg : string)
| StartupTimeout (msg : string) | ForeignWorker | Conflict | NoResticSummary | NamespaceTerminating | AlreadyExists
| Joined (e1 e2 : berr).
Fixpoint errText (e : berr) : string :=
  match e with
  | NotFound => "not found" | OtherErr m | GenerationChanged m => m
  | SourceChanged m => "backup source changed after preparation: " +:+ m
  | StartupTimeout m => "backup source startup grace period expired" +:+ m
  | Unsupported => "unsupported" | ForeignWorker => "waiting for a previous backup's same-name worker to disappear"
  | Conflict => "conflict" | NoResticSummary => "no restic summary" | NamespaceTerminating => "namespace terminating"
  | AlreadyExists => "already exists"
  | Joined e1 e2 => errText e1 +:+ String (ascii_of_byte 10) (errText e2)
  end.
(** [apierrors.IsConflict]: of joined errors the first that comes from the API
    server decides. *)
Definition fromAPI (e : berr) : bool :=
  match e with NotFound | Conflict | NamespaceTerminating | AlreadyExists => true | _ => false end.
Fixpoint firstStatus (e : berr) : option berr :=
  match e with
  | Joined e1 e2 => match firstStatus e1 with Some e => Some e | None => firstStatus e2 end
  | _ => if fromAPI e then Some e else None
  end.
Definition IsConflict (e : berr) : bool := match firstStatus e with Some Conflict => true | _ => false end.

Inductive req : Type -> Type :=
| Now : req time
| UpdateBackup (b : backup) : req backup
| UpdateBackupStatus (b : backup) : req backup
| ListBackups : req (list backup)
| ListRestores : req (list restore)
| GetServer (name : string) : req GS
| GetLastBackupTime (name : string) : req (option time)
| UpdateServer (gs : GS) : req unit
| PatchLastBackupTime (name : string) (t : time) : req unit
| GetSecretKeys (name : string) : req (list string)
| GetJob (name : string) : req job
| ListJobs : req (list job)
| CreateJob (name : string) (backoff activeDeadline : Z) (source : backupWorkerSource) (sourceID : string) (expires : time) : req job
| EnsureForgetJob (name snapshotID : string) : req job
| DeleteJob (uid : string) : req unit
| GetPod (name : string) : req workerPod
| ListPods : req (list workerPod)
| GetWorkload (name : string) : req workload
| GetGate (name : string) : req gate
| EnsureGate (name : string) : req gate
| SetGate (name token : string) : req unit
| ClaimLifecycle (gs : GS) (want : lifecycleIdentity) : req bool
| RecoverLifecycle (gs : GS) (op : lifecycleOperation) : req bool
| FenceWorkload (gs : GS) : req bool
| ClearLifecycle (gs : GS) (want : lifecycleIdentity) : req GS
| SnapshotCopyLive (name uid : string) (cancel : bool) : req bool
| ReadTemplate (gs : GS) : req unit
| ReadLayout (gs : GS) : req unit
| ReadResticSummary : req resticSummary
| CheckPod (server podUID : string) : req unit
| QuiescePod (server podUID : string) : req unit
| Quiesce (server : string) : req unit
| UnquiescePod (server podUID : string) : req unit
| Unquiesce (server : string) : req unit
| SnapshotStrategy (b : backup) (stage : string) : req (backup * result berr duration)
| RecordEvent (kind reason message : string) : req unit.

(** A function that works on the Backup in place and may fail. *)
Abbreviation P := (prog req berr).
Definition M (A : Type) : Type := backup -> P (backup * result berr A).
Definition mret {A} (a : A) : M A := fun b => Ret (b, Ok a).
Definition mfail {A} (e : berr) : M A := fun b => Ret (b, Err e).
Definition mcatch {A B} (m : M A) (k : result berr A -> M B) : M B := fun b => pbind (m b) (fun x => k x.2 x.1).
Definition mbind {A B} (m : M A) (k : A -> M B) : M B := mcatch m (fun r => match r with Ok a => k a | Err e => mfail e end).
Definition mput (f : backup -> backup) : M unit := fun b => Ret (f b, Ok ()).
Definition mreq {A} (s : req A) : M A := fun b => pbind (call s) (fun r => Ret (b, r)).
Definition mask {A B} (f : backup -> A) (k : A -> M B) : M B := fun b => k (f b) b.

(** A part that only looks at the Backup. *)
Definition mlift {A} (p : backup -> P (result berr A)) : M A := fun b => pbind (p b) (fun r => Ret (b, r)).

Declare Scope m_scope.
Delimit Scope m_scope with m.
Notation "'do' x <- m ';' k" := (mbind m (fun x => k)) (at level 100, x pattern, m at level 99, k at level 200, right associativity) : m_scope.
Notation "'do!' m ';' k" := (mbind m (fun _ => k)) (at level 100, m at level 99, k at level 200, right associativity) : m_scope.
Notation "'got' x <- m ';' k" := (mcatch m (fun x => k)) (at level 100, x pattern, m at level 99, k at level 200, right associativity) : m_scope.
Notation "'let?' x <- f ';' k" := (mask f (fun x => k)) (at level 100, x pattern, f at level 99, k at level 200, right associativity) : m_scope.
Local Open Scope m_scope.
Local Open Scope prog_scope.

(** A response replaces the object in memory: an update of the Backup leaves the
    status to the server, and an update of the status the rest. *)
Definition update : M unit := fun b =>
  pbind (call (UpdateBackup b)) (fun r => match r with Ok b' => Ret (b', Ok ()) | Err e => Ret (b, Err e) end).
Definition updateStatus : M unit := fun b =>
  pbind (call (UpdateBackupStatus b)) (fun r => match r with Ok b' => Ret (b', Ok ()) | Err e => Ret (b, Err e) end).
Definition putStatus (f : status -> status) : M unit := mput (fun b => with_bstatus b (f (bStatus b))).

(** A read that may find nothing. *)
Definition find {A} (s : req A) : P (result berr (option A)) :=
  let! r := call s in
  Ret (match r with Ok a => Ok (Some a) | Err NotFound => Ok None | Err e => Err e end).

(** ** Small functions *)

(** The operator's settings; [cfgAgent] is [agentQuiesceAvailable], [cfgPodBound]
    that the agent client is a [podAgentQuiescer]. *)
Record config := MkConfig {
  cfgAgent : bool; cfgPodBound : bool; cfgPreparation : duration; cfgQuiesce : duration; cfgBackoff : option Z;
  cfgActiveDeadline : Z; cfgScrape : duration }.

(** [backupTimeout], [resolveJobLimits], [snapshotScrapeGracePeriod] *)
Definition backupTimeout (configured fallback : duration) : duration := if 0 <? configured then configured else fallback.
Definition resolveJobLimits (backoff : option Z) (deadline : Z) : Z * Z :=
  (match backoff with Some n => if 0 <=? n then n else DefaultBackupJobBackoffLimit | None => DefaultBackupJobBackoffLimit end,
   if 0 <? deadline then deadline else DefaultBackupJobActiveDeadlineSeconds).
Definition defaultSnapshotScrapeGracePeriod : duration := 3 * Minute.
Definition snapshotScrapeGracePeriod (c : config) : duration :=
  if 0 <? cfgScrape c then cfgScrape c else defaultSnapshotScrapeGracePeriod.

(** [missingRepoSecretKeys] on the keys that hold something. *)
Definition missingRepoSecretKeys (keys : list string) : list string :=
  List.filter (fun k => negb (existsb (String.eqb k) keys)) ["repo"; "password"].

(** [jobPermanentlyFailed] and whether a copy Job may still run. *)
Definition jobPermanentlyFailed (j : job) : bool := match jFailed j with Some _ => true | None => false end.
Definition jobBusy (j : job) : bool :=
  negb ((0 <? jSucceeded j) || jobPermanentlyFailed j) || (0 <? jActive j) || jDeleting j.
Definition mountsData (claims : list string) (server : string) : bool := existsb (String.eqb (server +:+ "-data")) claims.

(** [wantsSnapshotFinalizer] *)
Definition wantsSnapshotFinalizer (b : backup) : bool :=
  negb (String.eqb (bStrategy b) "volume-snapshot") && match bRepoRef b with Some _ => true | None => false end &&
  negb (String.eqb (sPhase (bStatus b)) "Failed").

(** [legacyBackupOwesUnquiesce] *)
Definition legacyBackupOwesUnquiesce (b : backup) : bool :=
  String.eqb (bann b backupTargetAnnotation) "" && negb (String.eqb (bann b annoQuiesceAttempted) "") &&
  negb (String.eqb (bann b annoQuiesceAttempted) "unsupported") && String.eqb (bann b annoUnquiescedAt) "".

(** [meta.RemoveStatusCondition] *)
Definition dropCondition (conds : list Condition) (ty : string) : list Condition :=
  List.filter (fun c => negb (String.eqb (cType c) ty)) conds.
Definition hasCondition (conds : list Condition) (ty : string) : bool := existsb (fun c => String.eqb (cType c) ty) conds.

(** JSON of a preparation and of a worker source, RFC 3339 with and without
    fractions of a second, and the hex of a SHA-256 sum. *)
Class BackupCodec := {
  prepJSON : backupPreparation -> string;
  unmarshalPrep : string -> option backupPreparation;
  sourceJSON : backupWorkerSource -> string;
  unmarshalSource : string -> option backupWorkerSource;
  formatNano : time -> string;
  parseNano : string -> option time;
  formatSeconds : time -> string;
  parseSeconds : string -> option time;
  sha256hex : string -> string;
  prep_nonempty p : prepJSON p <> EmptyString;
  nano_nonempty t : formatNano t <> EmptyString;
  sha256hex_token s : token (sha256hex s) = true
}.

Section Backup.
Context `{OwnerCodec} `{BackupCodec} (cfg : config).

(** [parseBackupPreparation] *)
Definition parseBackupPreparation (b : backup) : result berr (option backupPreparation) :=
  let value := bann b backupPreparationAnnotation in
  if String.eqb value "" then Ok None
  else match unmarshalPrep value with
  | None => Err (OtherErr "decode backup preparation")
  | Some p =>
      if String.eqb (pTargetUID p) "" || String.eqb (pWorkloadUID p) "" ||
         (negb (String.eqb (pOutcome p) "live") && negb (String.eqb (pOutcome p) "already-stopped")) ||
         (String.eqb (pOutcome p) "live" && String.eqb (pPodUID p) "") ||
         (String.eqb (pOutcome p) "already-stopped" && negb (String.eqb (pPodUID p) ""))
      then Err (OtherErr "invalid backup preparation identity") else Ok (Some p)
  end.
Definition podOf (p : option backupPreparation) : string := match p with Some p => pPodUID p | None => "" end.

(** [backupStartConfigMapName], [backupWorkerSourceID] and the start token. *)
Definition backupStartConfigMapName (name uid : string) : string :=
  String.substring 0 61 ("backup-start-" +:+ sha256hex (name +:+ ("/" +:+ uid))).
Definition backupWorkerSourceID (b : backup) : string :=
  sha256hex (bann b backupTargetAnnotation +:+ (bann b backupPreparationAnnotation +:+ bann b backupWorkerSourceAnnotation)).
Definition startToken (uid pod source : string) (deadline : time) : string :=
  "v1 " +:+ (uid +:+ (" " +:+ (pod +:+ (" " +:+ (source +:+ (" " +:+ (Itoa (Unix deadline) +:+ String "010" EmptyString))))))).

(** [backupQuiesceOutcome] and [backupConsistencyCondition] *)
Definition backupQuiesceOutcome (b : backup) : string :=
  let stopped := match parseBackupPreparation b with Ok (Some p) => String.eqb (pOutcome p) "already-stopped" | _ => false end in
  let state := bann b annoQuiesceAttempted in
  if stopped then "already-stopped"
  else if String.eqb state "true" then "confirmed"
  else if String.eqb state "unsupported" then "unsupported"
  else if String.eqb state "pending" then "unknown"
  else if negb (bQuiesce b) then "not-requested" else "agent-unavailable".
Definition backupConsistencyCondition (b : backup) : Condition :=
  let cond status reason msg := MkCond "Consistency" status reason msg (bGeneration b) zero_time in
  let st := bStatus b in
  if String.eqb (sPhase st) "Failed" then
    cond "False" "CaptureFailed" "The capture failed; no usable consistency guarantee was achieved."
  else match sManifest st with
  | Some m =>
      if negb (String.eqb (mnState m) "Recorded") then
        cond "Unknown" "LegacyMetadataUnknown" "Capture-time metadata is unavailable. Do not infer consistency or volume coverage from the current template."
      else if negb (String.eqb (sPhase st) "Succeeded") || String.eqb (sSnapshotID st) "" then
        cond "Unknown" "CapturePending" "The capture has not completed; its achieved consistency is not yet known."
      else if String.eqb (mnQuiesceOutcome m) "confirmed" then
        cond "True" "Quiesced" "The primary volume copy completed after the agent confirmed quiesce. This depends on the module's quiesce commands; other volumes remain outside this backup."
      else if String.eqb (mnQuiesceOutcome m) "already-stopped" then
        cond "True" "StoppedSource" "The primary volume copy completed from a source that was already stopped and drained before capture. Other volumes remain outside this backup."
      else if String.eqb (mnStrategy m) "volume-snapshot" then
        cond "False" "CrashConsistentSnapshot" ("The primary CSI snapshot is crash-consistent; application quiesce was not confirmed (" +:+ (mnQuiesceOutcome m +:+ ")."))
      else if String.eqb (mnQuiesceOutcome m) "unsupported" then
        cond "False" "UnsupportedRawCopy" "The game does not support quiesce. The primary volume was copied while it could still change."
      else if String.eqb (mnQuiesceOutcome m) "agent-unavailable" then
        cond "False" "AgentUnavailableRawCopy" "No agent quiesce capability was configured. The primary volume was copied without pausing game writes."
      else cond "False" "RawCopy" "The primary volume was copied without confirmed application quiesce."
  | None => cond "Unknown" "LegacyMetadataUnknown" "Capture-time metadata is unavailable. Do not infer consistency or volume coverage from the current template."
  end.

(** ** Reads *)

Definition ok {A} (a : A) : P (result berr A) := Ret (Ok a).
Definition bad {A} (msg : string) : P (result berr A) := Ret (Err (OtherErr msg)).
Definition ofResult {A} (r : result berr A) : P (result berr A) := Ret r.

(** [ownedBackupTarget]: the server this Backup holds. *)
Definition getOwnedBackupTarget (b : backup) : P (result berr (option GS)) :=
  let value := bann b backupTargetAnnotation in
  if String.eqb value "" then ok None
  else match parseIdentity value with
  | None => bad "backup identity"
  | Some (name, uid) =>
      try! found := find (GetServer name) in
      match found with
      | None => ok None
      | Some gs =>
          match Lifecycle.ownedBackupTarget gs uid (backupLifecycleIdentity gs (bName b) (bUID b) (bGeneration b) false) with
          | Err _ => bad "lifecycle operation"
          | Ok owned => ok (if owned then Some gs else None)
          end
      end
  end.

(** [revokeBackupStart] *)
Definition revokeBackupStart (name uid : string) : P (result berr unit) :=
  let cm := backupStartConfigMapName name uid in
  try! g := find (GetGate cm) in
  match g with
  | Some g => if controlledBy (gtOwner g) uid && negb (String.eqb (gtToken g) "") then call (SetGate cm "") else ok ()
  | None => ok ()
  end.

(** [backupWorkersLive]: the copy Jobs of an owner, deleted in the foreground when
    [cancel], and the pods that carry its label or belong to those Jobs. *)
Definition copyJobOf (name uid : string) (j : job) : bool :=
  String.eqb (jName j) name &&
  match jOwner j with Some (kind, u) => String.eqb kind "Backup" && String.eqb u uid | None => false end.
Fixpoint copyJobs (name uid : string) (cancel : bool) (jobs : list job) : P (result berr (list string * bool)) :=
  match jobs with
  | [] => ok ([], false)
  | j :: rest =>
      if negb (copyJobOf name uid j) then copyJobs name uid cancel rest
      else
        try! _ := (if jobBusy j && cancel && negb (jDeleting j) then
                     let! r := call (DeleteJob (jUID j)) in
                     Ret (match r with Err NotFound => Ok () | r => r end)
                   else ok ()) in
        try! r := copyJobs name uid cancel rest in
        ok (jUID j :: r.1, jobBusy j || r.2)
  end.
Definition ownedWorker (uid : string) (jobUIDs : list string) (p : workerPod) : bool :=
  (negb (String.eqb uid "") && String.eqb (wpBackupUID p) uid) ||
  match wpOwner p with Some (kind, u) => String.eqb kind "Job" && existsb (String.eqb u) jobUIDs | None => false end.
Definition backupWorkersLive (name uid : string) (cancel : bool) : P (result berr bool) :=
  try! _ := (if cancel then revokeBackupStart name uid else ok ()) in
  try! jobs := call ListJobs in
  try! copies := copyJobs name uid cancel jobs in
  try! pods := call ListPods in
  if copies.2 || existsb (fun p => ownedWorker uid copies.1 p && livePod p) pods then ok true
  else call (SnapshotCopyLive name uid cancel).

(** One owner after the other, until one is busy. *)
Fixpoint anyWorkersLive (ids : list nameUID) (cancel : bool) : P (result berr bool) :=
  match ids with
  | [] => ok false
  | id :: rest =>
      try! busy := backupWorkersLive id.1 id.2 cancel in
      if busy then ok true else anyWorkersLive rest cancel
  end.

(** [legacyQuiescedBackups] and [backupRecoveryIdentities] *)
Definition legacyQuiescedBackups (b : backup) : P (result berr (list backup)) :=
  try! backups := call ListBackups in
  ok (List.filter (fun c => String.eqb (bServer c) (bServer b) && legacyBackupOwesUnquiesce c) backups).
Definition backupRecoveryIdentities (b : backup) : P (result berr (list nameUID)) :=
  try! gs := getOwnedBackupTarget b in
  let lineage := match gs with Some gs => gann gs backupRecoveryLineageAnnotation | None => "" end in
  if negb (String.eqb lineage "") then
    match parseBackupRecoveryLineage lineage with Some ids => ok ids | None => bad "decode backup recovery lineage" end
  else if negb (String.eqb (bann b backupRecoveryAnnotation) "") then
    match parseIdentity (bann b backupRecoveryAnnotation) with Some id => ok [id] | None => bad "backup identity" end
  else ok [].

(** [backupCleanupWorkersLive] *)
Definition backupCleanupWorkersLive (cancel : bool) (b : backup) : P (result berr bool) :=
  try! gs := getOwnedBackupTarget b in
  try! ready :=
    (match gs with
     | Some gs =>
         if String.eqb (gann gs lifecycleOperationAnnotation) "" then ok true
         else match parseLifecycleOperation (gann gs lifecycleOperationAnnotation) with
         | None => bad "lifecycle operation"
         | Some op => call (RecoverLifecycle gs op)
         end
     | None => ok true
     end) in
  if negb ready then ok true
  else
    try! busy := backupWorkersLive (bName b) (bUID b) cancel in
    if busy then ok true
    else
      try! busy := (if legacyBackupOwesUnquiesce b then
                      try! legacy := legacyQuiescedBackups b in
                      anyWorkersLive (map (fun o => (bName o, bUID o)) legacy) false
                    else ok false) in
      if busy then ok true
      else
        try! ids := backupRecoveryIdentities b in
        anyWorkersLive ids true.

(** [backupQuiesceProcessGone] *)
Definition backupQuiesceProcessGone (server uid : string) : P (result berr bool) :=
  try! p := find (GetPod (server +:+ "-0")) in
  match p with
  | None => ok true
  | Some p =>
      if negb (String.eqb uid "") && negb (String.eqb (wpUID p) uid) then ok true
      else ok (negb (wpDeleting p) && (String.eqb (wpPhase p) "Succeeded" || String.eqb (wpPhase p) "Failed"))
  end.

(** [unquiesceTargetGone] *)
Definition unquiesceTargetGone (b : backup) : P (result berr bool) :=
  let value := bann b backupTargetAnnotation in
  try! name := (if String.eqb value "" then ok (bServer b)
                else match parseIdentity value with Some id => ok id.1 | None => bad "backup identity" end) in
  if String.eqb name "" then ok true
  else
    try! p := ofResult (parseBackupPreparation b) in
    backupQuiesceProcessGone name (podOf p).

(** [backupSourceDrained] *)
Definition backupSourceDrained (gs : GS) (ss : workload) (b : backup) : P (result berr bool) :=
  try! jobs := call ListJobs in
  let mine j := String.eqb (jName j) (bName b) && jobControlledBy j b in
  if existsb (fun j => negb (mine j) && jobBusy j && mountsData (jClaims j) (gsName gs)) jobs then ok false
  else
    try! pods := call ListPods in
    let copy p := match wpOwner p with
                  | Some (kind, u) => String.eqb kind "Job" && existsb (fun j => mine j && String.eqb (jUID j) u) jobs
                  | None => false
                  end in
    ok (negb (existsb (fun p => livePod p && negb (copy p) &&
          (controlledBy (wpOwner p) (wlUID ss) || controlledBy (wpOwner p) (gsUID gs) ||
           String.eqb (wpName p) (gsName gs +:+ "-0") || mountsData (wpClaims p) (gsName gs))) pods)).

(** [preparedBackupWorker]: the one live pod of the Job, when it is ready. *)
Definition preparedBackupWorker (j : job) : P (result berr (option workerPod)) :=
  try! pods := call ListPods in
  let live := List.filter (fun p => negb (String.eqb (jUID j) "") && controlledBy (wpOwner p) (jUID j) && livePod p) pods in
  let candidates := List.filter (fun p => negb (String.eqb (wpUID p) "" || wpDeleting p ||
                      negb (String.eqb (wpPhase p) "Running") || String.eqb (wpNode p) "") && wpReady p) live in
  ok (if Nat.eqb (length live) 1 then last candidates else None).

(** [captureWorker] of a restic copy. *)
Definition captureWorker (b : backup) : P (result berr (option job)) :=
  try! j := find (GetJob (bName b)) in
  match j with
  | Some j => if jobControlledBy j b then ok (Some j) else Ret (Err ForeignWorker)
  | None => ok None
  end.

(** [setLifecycleUnquiesceIntent] *)
Definition intendUnquiesce (needed : bool) (b : backup) : P (result berr unit) :=
  try! gs := getOwnedBackupTarget b in
  match gs with
  | None => ok ()
  | Some gs =>
      if String.eqb (gann gs lifecycleOperationAnnotation) "" then ok ()
      else match parseLifecycleOperation (gann gs lifecycleOperationAnnotation) with
      | None => bad "lifecycle operation"
      | Some _ =>
          try! p := (if needed then ofResult (parseBackupPreparation b) else ok None) in
          match setLifecycleUnquiesceIntent gs needed (podOf p) with
          | None => bad "lifecycle operation"
          | Some None => ok ()
          | Some (Some gs) => call (UpdateServer gs)
          end
      end
  end.

(** [releaseBackupTarget] *)
Definition giveBackTarget (b : backup) : P (result berr unit) :=
  try! gs := getOwnedBackupTarget b in
  match gs with
  | None => ok ()
  | Some gs =>
      try! gs := call (ClearLifecycle gs (backupLifecycleIdentity gs (bName b) (bUID b) (bGeneration b) false)) in
      call (UpdateServer (with_ann gs (delete backupRecoveryLineageAnnotation (delete backupGuardAnnotation (gsAnnotations gs)))))
  end.

(** [callBackupQuiesce] *)
Definition callBackupQuiesce (server podUID : string) (undo : bool) : P (result berr unit) :=
  if undo && String.eqb podUID "" then bad "cannot recover legacy quiesce without proof that the original process is gone"
  else if negb (cfgAgent cfg) then bad "agent quiesce client is not configured"
  else if negb (String.eqb podUID "") then
    if negb (cfgPodBound cfg) then bad "agent client does not support pod-bound quiesce"
    else if undo then call (UnquiescePod server podUID) else call (QuiescePod server podUID)
  else call (Quiesce server).

(** ** Status *)

Definition upsertNow (c : backup -> Condition) : M unit :=
  do t <- mreq Now;
  mput (fun b => with_bstatus b (put_conditions (bStatus b) (upsertCondition (sConditions (bStatus b)) (c b) t))).
(** Write the condition only when it changes something. *)
Definition upsertChanged (c : backup -> Condition) : M unit :=
  do t <- mreq Now;
  let? b <- (fun b => b);
  let conds := upsertCondition (sConditions (bStatus b)) (c b) t in
  if sameConditions (sConditions (bStatus b)) conds then mret ()
  else do! putStatus (fun s => put_conditions s conds); updateStatus.

(** [setBackupProgress], [syncBackupConsistency], [setUnquiescedCondition] *)
Definition setBackupProgress (reason message : string) : M unit :=
  upsertChanged (fun b => MkCond "CaptureReady" (if String.eqb reason "WorkerAuthorized" then "True" else "False") reason message
                            (bGeneration b) zero_time).
Definition syncBackupConsistency : M unit := upsertChanged backupConsistencyCondition.
Definition setUnquiescedCondition (good : bool) (msg : string) : M unit :=
  upsertChanged (fun b =>
    if good then
      if String.eqb (bann b backupCleanupOutcomeAnnotation) "source-gone" then
        MkCond "Unquiesced" "True" "SourceProcessGone" "original process no longer exists; no unquiesce RPC was sent" (bGeneration b) zero_time
      else MkCond "Unquiesced" "True" "Unquiesced" "" (bGeneration b) zero_time
    else MkCond "Unquiesced" "False" "Failed" msg (bGeneration b) zero_time).

(** [fail] *)
Definition fail (msg : string) : M duration :=
  do now <- mreq Now;
  do! mput (fun b =>
    let s := set_message (set_phase (bStatus b) "Failed") msg in
    let s := put_conditions s (dropCondition (sConditions s) "CaptureReady") in
    with_bstatus b (set_times s (sStart s) (match sCompletion s with Some t => Some t | None => Some now end) (bGeneration b)));
  do! upsertNow (fun b => MkCond "Completed" "False" "Failed" msg (bGeneration b) zero_time);
  do! upsertNow backupConsistencyCondition;
  do! updateStatus;
  mret 0.

(** [backupDeadline] *)
Definition backupDeadline (key : string) (budget : duration) : M time :=
  let? value <- (fun b => bann b key);
  if negb (String.eqb value "") then
    match parseNano value with
    | Some t => mret t
    | None => mfail (OtherErr ("invalid persisted backup deadline " +:+ key))
    end
  else
    do now <- mreq Now;
    do! mput (patch key (formatNano (now + budget)));
    do! update;
    mret (now + budget).

(** ** Unquiesce *)

(** [recordBackupUnquiesced] *)
Definition recordBackupUnquiesced : M unit :=
  do! mlift (intendUnquiesce false);
  do now <- mreq Now;
  do! mput (patch annoUnquiescedAt (formatSeconds now));
  update.

(** [maybeUnquiesce]: the server whose saving this Backup has to restore, none when
    it is not this Backup's to restore. *)
Definition unquiesceTarget (b : backup) : P (result berr (option string)) :=
  if negb (String.eqb (bann b backupTargetAnnotation) "") then
    try! gs := getOwnedBackupTarget b in
    ok (match gs with Some gs => Some (gsName gs) | None => None end)
  else if negb (String.eqb (bServer b) "") then
    try! gs := find (GetServer (bServer b)) in
    match gs with
    | Some gs => if negb (String.eqb (gann gs backupGuardAnnotation) "")
                 then bad "legacy quiesce cleanup is blocked by a protected backup" else ok (Some (bServer b))
    | None => ok (Some (bServer b))
    end
  else ok (Some (bServer b)).
Definition maybeUnquiesce : M unit :=
  let? b <- (fun b => b);
  let state := bann b annoQuiesceAttempted in
  if String.eqb state "" || String.eqb state "unsupported" then mret ()
  else if match bAnn b !! annoUnquiescedAt with Some _ => true | None => false end then mret ()
  else
    do target <- mlift unquiesceTarget;
    match target with
    | None => mret ()
    | Some name =>
        do gone <- (if negb (String.eqb name "") then mlift unquiesceTargetGone else mret false);
        if (gone : bool) then
          do! mput (patch backupCleanupOutcomeAnnotation "source-gone");
          recordBackupUnquiesced
        else if negb (cfgAgent cfg) then mfail (OtherErr "cannot release quiesced world without an agent client")
        else
          do p <- mlift (fun b => ofResult (parseBackupPreparation b));
          do! mlift (fun _ => callBackupQuiesce name (podOf p) true);
          recordBackupUnquiesced
    end.

(** [runUnquiesce] *)
Definition runUnquiesce : M duration :=
  do busy <- mlift (backupCleanupWorkersLive false);
  if (busy : bool) then mret (5 * Second)
  else
    got r <- maybeUnquiesce;
    match r with
    | Err e => do! setUnquiescedCondition false (errText e); mret (30 * Second)
    | Ok _ =>
        let? done <- (fun b => bAnn b !! annoUnquiescedAt);
        do! (match done with Some _ => setUnquiescedCondition true "" | None => mret () end);
        do! mlift giveBackTarget;
        mret 0
    end.

(** [failUnrestorable] *)
Definition failUnrestorable : M duration :=
  do again <- runUnquiesce;
  if 0 <? again then mret again else fail snapshotUnavailableMsg.

(** ** Abort *)

(** [cleanupResticCopy] *)
Definition cleanupResticCopy : M duration :=
  do! mlift (fun b => revokeBackupStart (bName b) (bUID b));
  do busy <- mlift (backupCleanupWorkersLive true);
  if (busy : bool) then
    do! setBackupProgress "WorkerDrainPending" "copy invalidated; waiting for workers to stop before restoring saving";
    mret (5 * Second)
  else
    let? conds <- (fun b => sConditions (bStatus b));
    do! (if hasCondition conds "CaptureReady" then
           do! putStatus (fun s => put_conditions s (dropCondition (sConditions s) "CaptureReady")); updateStatus
         else mret ());
    runUnquiesce.

(** [abortResticCopy] *)
Definition abortResticCopy (message : string) : M duration :=
  let message := if String.eqb message "" then "backup copy invalidated" else message in
  let? stored <- (fun b => bann b backupCopyAbortAnnotation);
  do! (if String.eqb stored "" then do! mput (patch backupCopyAbortAnnotation message); update else mret ());
  let? b <- (fun b => b);
  let message := bann b backupCopyAbortAnnotation in
  do! (if negb (String.eqb (sPhase (bStatus b)) "Failed") || negb (String.eqb (sSnapshotID (bStatus b)) "") ||
          negb (String.eqb (sMessage (bStatus b)) message)
       then do! putStatus (fun s => set_snapshot s "" (sSize s)); fail message
       else mret 0);
  cleanupResticCopy.

(** ** Preparation *)

(** [waitForBackupSource] *)
Definition waitForBackupSource (reason : string) : M bool :=
  let? key <- (fun b => if negb (String.eqb (bann b backupPreparationDeadlineAnnotation) "")
                        then backupPreparationDeadlineAnnotation else backupSourceStartupDeadlineAnnotation);
  let? stored <- (fun b => negb (String.eqb (bann b key) ""));
  got r <- backupDeadline key backupSourceStartupGracePeriod;
  match r with
  | Err e => mfail (if (stored : bool) then StartupTimeout ": cannot read source startup deadline" else e)
  | Ok deadline =>
      do now <- mreq Now;
      if Before now deadline then mret false
      else mfail (StartupTimeout (" at " +:+ (formatSeconds deadline +:+ (": " +:+ reason))))
  end.

(** [prepareBackupSource]: the source as it is now, when it can be copied. *)
Definition changed {A} (what : string) : P (result berr A) := Ret (Err (SourceChanged what)).
Definition stoppedSource (gs : GS) (ss : workload) (p : option backupPreparation) (b : backup)
  : P (result berr (option backupPreparation)) :=
  let known := match p with Some _ => true | None => false end in
  if negb (wlStatusReplicas ss =? 0) then if known then changed "stopped workload has replicas" else ok None
  else
    try! drained := backupSourceDrained gs ss b in
    if negb drained then if known then changed "stopped source acquired a writer" else ok None
    else ok (Some (MkPrep "already-stopped" (gsUID gs) (wlUID ss) (wlGeneration ss) "")).
(** The pod of a live source: [inr] a reason to wait. *)
Definition liveSource (gs : GS) (ss : workload) (p : option backupPreparation)
  : P (result berr (backupPreparation + string)) :=
  try! found := find (GetPod (gsName gs +:+ "-0")) in
  match found with
  | None => match p with Some _ => changed "original pod absent" | None => ok (inr "source pod absent") end
  | Some pod =>
      if match p with Some p => negb (String.eqb (pPodUID p) (wpUID pod)) || wpDeleting pod || negb (String.eqb (wpPhase pod) "Running") | None => false end
      then changed "original process no longer running"
      else if negb (controlledBy (wpOwner pod) (wlUID ss)) || String.eqb (wpUID pod) ""
      then bad "backup source pod is not owned by the bound workload"
      else if wpDeleting pod || negb (String.eqb (wpPhase pod) "Running") then ok (inr "source pod is not Running or is terminating")
      else ok (inl (MkPrep "live" (gsUID gs) (wlUID ss) (wlGeneration ss) (wpUID pod)))
  end.
(** Compare with the preparation on record, or record it. *)
Definition settleSource (p : option backupPreparation) (candidate : backupPreparation) : M bool :=
  match p with
  | Some p =>
      if negb (String.eqb (pOutcome p) (pOutcome candidate)) || negb (String.eqb (pPodUID p) (pPodUID candidate))
      then mfail (SourceChanged "process identity") else mret true
  | None => do! mput (patch backupPreparationAnnotation (prepJSON candidate)); do! update; mret true
  end.
Definition prepareBackupSource (gs : GS) : M bool :=
  let? b <- (fun b => b);
  if negb (bQuiesce b) then mret true
  else
    do p <- mlift (fun b => ofResult (parseBackupPreparation b));
    let known := match p with Some _ => true | None => false end in
    if negb known && negb (cfgAgent cfg) then mret true
    else if negb known && negb (String.eqb (bann b annoQuiesceAttempted) "") then mret true
    else
      do found <- mlift (fun _ => find (GetWorkload (gsName gs)));
      match found with
      | None => if known then mfail (SourceChanged "workload absent") else mret false
      | Some ss =>
          if match p with Some p => negb (String.eqb (pTargetUID p) (gsUID gs)) || negb (String.eqb (pWorkloadUID p) (wlUID ss)) ||
                                     negb (pWorkloadGeneration p =? wlGeneration ss) | None => false end
          then mfail (SourceChanged "workload identity")
          else if negb (controlledBy (wlOwner ss) (gsUID gs)) then mfail (OtherErr "backup source workload is not owned by the bound GameServer")
          else match wlReplicas ss with
          | None => mret false
          | Some replicas =>
              if wlObserved ss <? wlGeneration ss then mret false
              else if match p with Some p => negb (Bool.eqb (String.eqb (pOutcome p) "already-stopped") (replicas =? 0)) | None => false end
              then mfail (SourceChanged "desired replicas")
              else if replicas =? 0 then
                do c <- mlift (stoppedSource gs ss p);
                match c with Some c => settleSource p c | None => mret false end
              else
                do c <- mlift (fun _ => liveSource gs ss p);
                match c with inl c => settleSource p c | inr reason => waitForBackupSource reason end
          end
      end.

(** [recoverBackupTarget] and [claimBackupTarget] *)
Definition recoverBackupTarget : M bool :=
  do ids <- mlift backupRecoveryIdentities;
  match ids with
  | [] => mret true
  | _ =>
      do busy <- mlift (fun _ => anyWorkersLive ids true);
      if (busy : bool) then mret false
      else
        do gone <- mlift (fun b => backupQuiesceProcessGone (bServer b) "");
        if negb gone then mfail (OtherErr "cannot recover legacy quiesce without proof that the original process is gone")
        else
          do! mput (fun b => with_bann b (delete annoUnquiescedAt (delete annoQuiesceAttempted (delete backupRecoveryAnnotation (bAnn b)))));
          do! update;
          do gs <- mlift getOwnedBackupTarget;
          match gs with
          | None => mfail (OtherErr "backup lost recovery ownership")
          | Some gs =>
              do! mreq (UpdateServer (with_ann gs (delete backupRecoveryLineageAnnotation (gsAnnotations gs))));
              mret true
          end
  end.
Definition claimBackupTarget : M bool :=
  do legacy <- mlift legacyQuiescedBackups;
  let? b <- (fun b => b);
  if negb (Nat.eqb (length legacy) 0) && negb (legacyBackupOwesUnquiesce b) then mret false
  else
    do gs <- mreq (GetServer (bServer b));
    if gsDeleting gs then mfail (OtherErr "backup target is being deleted")
    else
      let value := bann b backupTargetAnnotation in
      do! (if negb (String.eqb value "") then
             match parseIdentity value with
             | None => mfail (OtherErr "backup identity")
             | Some (name, uid) =>
                 if negb (String.eqb name (gsName gs)) || negb (String.eqb uid (gsUID gs))
                 then mfail (OtherErr "backup target was replaced") else mret ()
             end
           else do! mput (patch backupTargetAnnotation (identityJSON (gsName gs, gsUID gs))); update);
      let? b <- (fun b => b);
      let state := bann b annoQuiesceAttempted in
      let owes := negb (String.eqb state "") && negb (String.eqb state "unsupported") && String.eqb (bann b annoUnquiescedAt) "" in
      do claimed <- mreq (ClaimLifecycle gs (backupLifecycleIdentity gs (bName b) (bUID b) (bGeneration b) owes));
      if (claimed : bool) then recoverBackupTarget else mret false.

End Backup.
