(* ===== verification/BackupRun.v ===== *)
(** * operator: a reconcile pass of a restic backup

    The rest of src/operator/internal/controller/backup_controller.go,
    backup_worker.go, backup_guard.go and backup_forget.go on top of [Backup]:
    preparing and quiescing the source, authorizing a prepared worker, mirroring
    its Job, and the two stages of a deletion; and what the waiting worker does
    with the start token. *)

From Stdlib Require Import Ascii.
From S2P Require Import Prelude GoTime GoText GoToken Prog Idle Lifecycle Power Backup.
Local Open Scope Z_scope.
Local Open Scope m_scope.
Local Open Scope prog_scope.

Definition annoSnapshotForgetStartedAt : string := "backup.gameplane.local/forget-started-at".
Definition conditionSnapshotForgotten : string := "SnapshotForgotten".
Definition maxSnapshotForgetWait : duration := 45 * Minute.
Definition maxForgetJobNameLen : Z := 56.
Definition forgetJobSuffix : string := "-forget".
Definition maxDurationSeconds : Z := (2 ^ 63 - 1) / Second.
Definition reconcileRetryInterval : duration := 1 * Second.

(** [snapshotIDPattern] *)
Definition hexLower (c : ascii) : bool := let z := Z.of_N (N_of_ascii c) in in_range 48 57 z || in_range 97 102 z.
Definition snapshotIDPattern (id : string) : bool :=
  str_all hexLower id && (8 <=? Z.of_nat (String.length id)) && (Z.of_nat (String.length id) <=? 64).

(** [mayHaveWrittenSnapshot] *)
Definition mayHaveWrittenSnapshot (b : backup) : bool :=
  let phase := sPhase (bStatus b) in
  String.eqb phase "Running" || String.eqb phase "Succeeded" ||
  (String.eqb phase "Failed" && String.eqb (sMessage (bStatus b)) snapshotUnavailableMsg).

(** [jobFailureMessage] *)
Definition jobFailureMessage (j : job) : string :=
  match jFailed j with
  | Some m => if String.eqb m "" then "no failure detail reported" else m
  | None => "no failure detail reported"
  end.

(** A string in double quotes ([%q] of a name). *)
Definition quoted (s : string) : string := String "034" (s +:+ String "034" EmptyString).

(** [strings.TrimRight] with a cutset of the dash and the dot. *)
Fixpoint trimName (s : string) : string :=
  match s with
  | EmptyString => EmptyString
  | String c rest =>
      match trimName rest with
      | EmptyString => if Ascii.eqb c "-" || Ascii.eqb c "." then EmptyString else String c EmptyString
      | rest => String c rest
      end
  end.

(** ** The waiting worker *)

(** What [resticWorkerScript] does after one look at the token file: run restic
    under a timeout, give up, or look again.  [read] splits the first line at
    blanks; a number with a leading zero is octal to the shell. *)
Inductive workerChoice := Start (timeout : Z) | GiveUp | LookAgain.
Definition fields (token : string) : list string :=
  List.filter (fun w => negb (String.eqb w "")) (flat_map (split_on "009") (split_on " " (hd "" (split_on "010" token)))).
Fixpoint octal (acc : Z) (s : string) : option Z :=
  match s with
  | EmptyString => Some acc
  | String c rest => let d := byte_of_ascii c - 48 in if in_range 0 7 d then octal (acc * 8 + d) rest else None
  end.
Definition shellInt (s : string) : option Z :=
  if String.eqb s "" || negb (str_all is_digit_char s) then None
  else match s with
  | String "0" (String _ _ as rest) => octal 0 rest
  | _ => parse_uint (bytes_of s)
  end.
Definition workerLook (backupUID podUID sourceID : string) (preparationExpires now : Z) (file : option string) : workerChoice :=
  let wait := if now <? preparationExpires then LookAgain else GiveUp in
  match file with
  | None => wait
  | Some token =>
      let f n := nth n (fields token) "" in
      if String.eqb (f 0%nat) "v1" && String.eqb (f 1%nat) backupUID && String.eqb (f 2%nat) podUID && String.eqb (f 3%nat) sourceID &&
         (Z.of_nat (length (fields token)) <=? 5)
      then match shellInt (f 4%nat) with
      | Some expires => if 0 <? expires - now then Start (expires - now) else GiveUp
      | None => GiveUp
      end
      else wait
  end.

(** A stage of the volume-snapshot strategy is one call here, which answers with
    the Backup as the stage left it in memory and what the stage returned. *)
Definition snapshotStage (stage : string) : M duration := fun b =>
  pbind (call (SnapshotStrategy b stage)) (fun r =>
    match r with Ok (b', res) => Ret (b', res) | Err e => Ret (b, Err e) end).

Section Run.
Context `{OwnerCodec} `{BackupCodec} (cfg : config).

(** [forgetJobName] *)
Definition forgetJobName (name : string) : string :=
  if Z.of_nat (String.length (name +:+ forgetJobSuffix)) <=? maxForgetJobNameLen then name +:+ forgetJobSuffix
  else trimName (String.substring 0 40 name) +:+ ("-" +:+ (String.substring 0 8 (sha256hex name) +:+ forgetJobSuffix)).

(** ** The Job's outcome *)

(** [recordServerBackupTime] *)
Definition recordServerBackupTime (b : backup) : P (result berr unit) :=
  match sCompletion (bStatus b) with
  | None => ok ()
  | Some t =>
      if String.eqb (bServer b) "" then ok ()
      else
        try! last := find (GetLastBackupTime (bServer b)) in
        match last with
        | None => ok ()
        | Some (Some l) => if negb (After t l) then ok () else call (PatchLastBackupTime (bServer b) t)
        | Some None => call (PatchLastBackupTime (bServer b) t)
        end
  end.

(** [completedSince] *)
Definition completedSince (j : job) (b : backup) : P (result berr duration) :=
  match (match jCompletion j with Some t => Some t | None => sCompletion (bStatus b) end) with
  | None => ok 0
  | Some t => try! now := call Now in ok (Sub now t)
  end.

Definition terminal (phase : string) : bool := String.eqb phase "Succeeded" || String.eqb phase "Failed".
(** [mirrorJobStatus]: the phase, then the times. *)
Definition jobPhase (phase : string) (j : job) : string :=
  if 0 <? jSucceeded j then "Succeeded"
  else if jobPermanentlyFailed j then "Failed"
  else if 0 <? jActive j then "Running"
  else if String.eqb phase "" then "Pending" else phase.
Definition mirrorTimes (b : backup) (j : job) : status * bool :=
  let s := bStatus b in
  let phase := jobPhase (sPhase s) j in
  let start := match jStart j, sStart s with Some t, None => Some t | _, old => old end in
  let completion := match jCompletion j, sCompletion s with Some t, None => Some t | _, old => old end in
  (set_times (set_phase s phase) start completion (bGeneration b),
   negb (String.eqb (sPhase s) phase) || negb (sObservedGeneration s =? bGeneration b) ||
   negb (bool_decide (start = sStart s)) || negb (bool_decide (completion = sCompletion s))).
(** The snapshot id from the logs: [None] to give up, else whether it is still
    missing and whether the status changed. *)
Definition scrape (j : job) : M (option (bool * bool)) :=
  got r <- mreq ReadResticSummary;
  let found := match r with Ok m => negb (String.eqb (rsSnapshotID m) "") | Err _ => false end in
  match r, found with
  | Ok m, true =>
      do! putStatus (fun s => set_message (set_snapshot s (rsSnapshotID m)
                                (if 0 <? rsTotalBytes m then Some (rsTotalBytes m) else sSize s)) "");
      mret (Some (false, true))
  | _, _ =>
      do since <- mlift (completedSince j);
      if snapshotScrapeGracePeriod cfg <? since then mret None
      else
        let? msg <- (fun b => sMessage (bStatus b));
        match r with
        | Err NoResticSummary | Ok _ => mret (Some (true, false))
        | Err e =>
            if String.eqb msg (errText e) then mret (Some (true, false))
            else do! putStatus (fun s => set_message s (errText e)); mret (Some (true, true))
        end
  end.
Definition completedCondition (phase : string) (b : backup) : Condition :=
  if String.eqb phase "Succeeded" then MkCond "Completed" "True" "Succeeded" "" (bGeneration b) zero_time
  else if String.eqb phase "Failed" then MkCond "Completed" "False" "JobFailed" "backup job reported Failed" (bGeneration b) zero_time
  else MkCond "Completed" "False" phase "" (bGeneration b) zero_time.
Definition mirrorFinish (phase : string) (snapshotMissing dirty : bool) : M duration :=
  let? msg <- (fun b => sMessage (bStatus b));
  let unexplained := String.eqb phase "Failed" && String.eqb msg "" in
  do! (if unexplained then putStatus (fun s => set_message s "backup job reported Failed") else mret ());
  do t1 <- mreq Now;
  do t2 <- mreq Now;
  let? b <- (fun b => b);
  let conds := upsertCondition (sConditions (bStatus b)) (completedCondition phase b) t1 in
  let conds := if terminal phase then dropCondition conds "CaptureReady" else conds in
  let conds := upsertCondition conds (backupConsistencyCondition b) t2 in
  let same := sameConditions (sConditions (bStatus b)) conds in
  do! (if same then mret () else putStatus (fun s => put_conditions s conds));
  do! (if dirty || unexplained || negb same then updateStatus else mret ());
  do! (if String.eqb phase "Succeeded" && negb snapshotMissing then mlift recordServerBackupTime else mret ());
  if terminal phase then
    do again <- runUnquiesce cfg;
    if snapshotMissing && (again =? 0) then mret (10 * Second) else mret again
  else mret (10 * Second).
Definition mirrorJobStatus (j : job) : M duration :=
  let? b <- (fun b => b);
  let phase := jobPhase (sPhase (bStatus b)) j in
  do! putStatus (fun _ => (mirrorTimes b j).1);
  if String.eqb phase "Succeeded" && String.eqb (sSnapshotID (bStatus b)) "" then
    do r <- scrape j;
    match r with
    | None => failUnrestorable cfg
    | Some (missing, changed) => mirrorFinish phase missing ((mirrorTimes b j).2 || changed)
    end
  else mirrorFinish phase false (mirrorTimes b j).2.

(** [retrySnapshotScrape] *)
Definition retrySnapshotScrape : M duration :=
  do found <- mlift (fun b => find (GetJob (bName b)));
  match found with Some j => mirrorJobStatus j | None => failUnrestorable cfg end.

(** ** Admission *)

(** [waitForForeignBackupWorker] *)
Definition waitForForeignBackupWorker : M duration :=
  do target <- mlift getOwnedBackupTarget;
  match target with
  | None => mret (5 * Second)
  | Some _ =>
      let? strategy <- bStrategy;
      if String.eqb strategy "volume-snapshot" then snapshotStage "capture worker was replaced after lifecycle admission"
      else abortResticCopy cfg "capture worker was replaced after lifecycle admission"
  end.

(** [prepareBackupWorkload]: zero when the source is owned, fenced and ready. *)
Definition failNow (e : berr) : M duration := do! fail (errText e); mret Nanosecond.
Definition fencedSource (gs : GS) : M bool :=
  do fenced <- mreq (FenceWorkload gs);
  if (fenced : bool) then prepareBackupSource cfg gs
  else waitForBackupSource "source workload is absent or has not observed its fenced rollout".
Definition prepareBackupWorkload : M duration :=
  got r <- mlift captureWorker;
  match r with
  | Err ForeignWorker => waitForForeignBackupWorker
  | Err e => mfail e
  | Ok _ =>
      got r <- claimBackupTarget;
      match r with
      | Err (GenerationChanged m) => failNow (GenerationChanged m)
      | Err e => mfail e
      | Ok false => mret (10 * Second)
      | Ok true =>
          do gs <- mlift getOwnedBackupTarget;
          match gs with
          | None => mret (5 * Second)
          | Some gs =>
              got r <- fencedSource gs;
              match r with
              | Err (SourceChanged m) => failNow (SourceChanged m)
              | Err (StartupTimeout m) => failNow (StartupTimeout m)
              | Err e => mfail e
              | Ok ready => mret (if (ready : bool) then 0 else 5 * Second)
              end
          end
      end
  end.

(** [maybeQuiesce] *)
Definition failWith (msg : string) (e : berr) : M unit := do! fail msg; mfail e.
Definition quiesceBound (p : option backupPreparation) : M unit :=
  let? server <- bServer;
  do! mlift (intendUnquiesce true);
  do! mput (patch annoQuiesceAttempted "pending");
  do! update;
  got r <- mlift (fun _ => callBackupQuiesce cfg server (podOf p) false);
  match r with
  | Ok _ =>
      do now <- mreq Now;
      do! mput (fun b => patch annoQuiescedAt (formatSeconds now) (patch annoQuiesceAttempted "true" b));
      update
  | Err Unsupported =>
      do! mput (patch annoQuiesceAttempted "unsupported");
      do! mlift (intendUnquiesce false);
      update
  | Err e => failWith ("quiesce failed: " +:+ errText e) e
  end.
Definition maybeQuiesce : M unit :=
  do p <- mlift (fun b => ofResult (parseBackupPreparation b));
  let? b <- (fun b => b);
  let state := bann b annoQuiesceAttempted in
  let outcome := match p with Some p => pOutcome p | None => "" end in
  if String.eqb outcome "already-stopped" then mret ()
  else if negb (bQuiesce b) then mret ()
  else if negb (cfgAgent cfg) then
    if String.eqb outcome "live" && negb (String.eqb state "true") && negb (String.eqb state "unsupported") then
      failWith "agent quiesce client was disabled after live preparation" (OtherErr "agent quiesce client was disabled after live preparation")
    else mret ()
  else if negb (String.eqb state "") && negb (String.eqb state "pending") then mret ()
  else
    got r <- (match p with
              | Some p =>
                  if String.eqb state "" then
                    if cfgPodBound cfg then mreq (CheckPod (bServer b) (pPodUID p))
                    else mfail (OtherErr "agent client does not support pod-bound quiesce")
                  else mret ()
              | None => mret ()
              end);
    match r with
    | Err e => failWith ("quiesce identity check failed: " +:+ errText e) e
    | Ok _ => quiesceBound p
    end.

(** [recordBackupManifest]; the reads of the workload, the template and the claims
    are one call, and the volumes they cover are left out. *)
Definition workerWaiting (j : job) (b : backup) : P (result berr bool) :=
  if String.eqb (jProtocol j) "v1" && negb (String.eqb (bann b backupPreparationDeadlineAnnotation) "") &&
     String.eqb (bann b backupAuthorizedWorkerAnnotation) "" && (jSucceeded j =? 0) && negb (jobPermanentlyFailed j)
  then
    try! g := find (GetGate (backupStartConfigMapName (bName b) (bUID b))) in
    ok (match g with Some g => controlledBy (gtOwner g) (bUID b) && String.eqb (gtToken g) "" | None => false end)
  else ok false.
Definition recordBackupManifest (gs : GS) : M unit :=
  let? recorded <- (fun b => sManifest (bStatus b));
  match recorded with
  | Some _ => mret ()
  | None =>
      do worker <- mlift captureWorker;
      do unknown <- (match worker with Some j => do w <- mlift (workerWaiting j); mret (negb w) | None => mret false end);
      if (unknown : bool) then do! putStatus (fun s => set_manifest s (MkManifest "LegacyUnknown" "" "")); updateStatus
      else
        do! mreq (ReadLayout gs);
        let? b <- (fun b => b);
        let strategy := if String.eqb (bStrategy b) "" then "restic-snapshot" else bStrategy b in
        do! putStatus (fun s => set_manifest s (MkManifest "Recorded" strategy (backupQuiesceOutcome b)));
        updateStatus
  end.

(** [prepareBackupQuiesce] *)
Definition prepareBackupQuiesce : M duration :=
  do again <- prepareBackupWorkload;
  if 0 <? again then mret again
  else
    do gs <- mlift getOwnedBackupTarget;
    match gs with
    | None => mret (5 * Second)
    | Some gs =>
        do! maybeQuiesce;
        got r <- prepareBackupSource cfg gs;
        match r with
        | Err (SourceChanged m) => failNow (SourceChanged m)
        | Err e => mfail e
        | Ok false => mret (5 * Second)
        | Ok true =>
            got r <- recordBackupManifest gs;
            match r with
            | Err ForeignWorker => waitForForeignBackupWorker
            | Err e => do! fail ("cannot record capture metadata: " +:+ errText e); mret Second
            | Ok _ => mret 0
            end
        end
    end.

(** [prepareBackupWorkerSource]: [None] while the first pod is not placed. *)
Definition readWorkerSource (b : backup) : P (result berr (backupWorkerSource * bool)) :=
  try! pod := find (GetPod (bServer b +:+ "-0")) in
  try! ss := find (GetWorkload (bServer b)) in
  match ss with
  | None => changed "source workload absent after fencing"
  | Some ss =>
      match pod with
      | Some pod =>
          if negb (controlledBy (wpOwner pod) (wlUID ss)) || wpDeleting pod then changed "source pod is not an active owned workload"
          else ok (MkSource (wpUID pod) (wpNode pod) (wpTolerations pod), negb (String.eqb (wpNode pod) ""))
      | None => ok (MkSource "" "" (wlTolerations ss), match wlReplicas ss with Some n => n =? 0 | None => false end)
      end
  end.
Definition prepareBackupWorkerSource : M (option backupWorkerSource) :=
  do read <- mlift readWorkerSource;
  let? stored <- (fun b => bann b backupWorkerSourceAnnotation);
  if negb (String.eqb stored "") then
    match unmarshalSource stored with
    | None => mfail (SourceChanged "decode worker source")
    | Some previous =>
        if negb (String.eqb (wsPodUID previous) (wsPodUID read.1)) || negb (String.eqb (wsNodeName previous) (wsNodeName read.1))
        then mfail (SourceChanged "worker source relocated or replaced") else mret (Some previous)
    end
  else if negb read.2 then mret None
  else do! mput (patch backupWorkerSourceAnnotation (sourceJSON read.1)); do! update; mret (Some read.1).

(** ** [reconcilePreparedRestic] *)

Definition stop {A} (m : M duration) : M (duration + A) := do d <- m; mret (inl d).
(** Whether the persisted save-off deadline is a reason to abort. *)
Definition quiesceBudget (found : option job) : M (option string) :=
  let? value <- (fun b => bann b backupQuiesceDeadlineAnnotation);
  if String.eqb value "" then mret None
  else match parseNano value with
  | None => mret (Some "invalid persisted quiesce deadline")
  | Some deadline =>
      let finishedInTime := match found with
                            | Some j => (0 <? jSucceeded j) && match jCompletion j with Some t => negb (After t deadline) | None => false end
                            | None => false
                            end in
      do now <- mreq Now;
      mret (if After now deadline && negb finishedInTime then Some "maximum quiesce duration exceeded; copy invalidated" else None)
  end.

(** A ready worker: the budget, the quiesce, and the token.  The deadline and the
    Job once the token is written. *)
Definition copyBudget (j : job) (p : option backupPreparation) (b : backup) : duration :=
  let seconds := (resolveJobLimits (cfgBackoff cfg) (cfgActiveDeadline cfg)).2 in
  let seconds := match jDeadline j with Some n => if 0 <? n then n else seconds | None => seconds end in
  let stopped := match p with Some p => String.eqb (pOutcome p) "already-stopped" | None => false end in
  if bQuiesce b && cfgAgent cfg && negb stopped then backupTimeout (cfgQuiesce cfg) DefaultBackupQuiesceTimeout
  else Z.min seconds maxDurationSeconds * Second.
Definition authorizeWorker (j : job) (g : gate) (worker : workerPod) : M (duration + (time * job)) :=
  do p <- mlift (fun b => ofResult (parseBackupPreparation b));
  let? budget <- copyBudget j p;
  do deadline <- backupDeadline backupQuiesceDeadlineAnnotation budget;
  do again <- prepareBackupQuiesce;
  if 0 <? again then mret (inl again)
  else
    got r <- prepareBackupWorkerSource;
    match r with
    | Err (SourceChanged m) => stop (abortResticCopy cfg (errText (SourceChanged m)))
    | Err e => mfail e
    | Ok _ =>
        do current <- mlift (fun _ => preparedBackupWorker j);
        if match current with Some c => negb (String.eqb (wpUID c) (wpUID worker)) | None => true end then mret (inl (2 * Second))
        else
          do now <- mreq Now;
          if negb (Before now deadline) then stop (abortResticCopy cfg "maximum quiesce duration exceeded before start authorization")
          else
            let? authorized <- (fun b => bann b backupAuthorizedWorkerAnnotation);
            do! (if negb (String.eqb authorized (wpUID worker))
                 then do! mput (patch backupAuthorizedWorkerAnnotation (wpUID worker)); update else mret ());
            let? b <- (fun b => b);
            let token := startToken (bUID b) (wpUID worker) (backupWorkerSourceID b) deadline in
            do! (if negb (String.eqb (gtToken g) token)
                 then mreq (SetGate (backupStartConfigMapName (bName b) (bUID b)) token) else mret ());
            mret (inr (deadline, j))
    end.

(** The Job of an admitted copy: its outcome, or its worker once it is ready. *)
Definition superviseWorker (g : gate) (j : job) : M (duration + (time * job)) :=
  if jobPermanentlyFailed j then stop (abortResticCopy cfg "backup job reported Failed")
  else if 0 <? jSucceeded j then
    let? authorized <- (fun b => bann b backupAuthorizedWorkerAnnotation);
    if String.eqb authorized "" then stop (abortResticCopy cfg "backup worker completed without copy authorization")
    else stop (mirrorJobStatus j)
  else
    do worker <- mlift (fun _ => preparedBackupWorker j);
    match worker with
    | None =>
        do! setBackupProgress "WorkerPreparing" "waiting for a scheduled worker with mounted source and validated repository";
        mret (inl (2 * Second))
    | Some worker => authorizeWorker j g worker
    end.
(** The gate, the template the worker is built from, and the Job. *)
Definition launchWorker (found : option job) (source : backupWorkerSource) (preparation : time) : M job :=
  let? b <- (fun b => b);
  match found with
  | Some j => mret j
  | None =>
      let limits := resolveJobLimits (cfgBackoff cfg) (cfgActiveDeadline cfg) in
      mreq (CreateJob (bName b) limits.1 limits.2 source (backupWorkerSourceID b) preparation)
  end.
Definition ensureWorker (found : option job) (bound : GS) (source : backupWorkerSource) (preparation : time)
  : M (duration + (time * job)) :=
  let? b <- (fun b => b);
  do g <- mreq (EnsureGate (backupStartConfigMapName (bName b) (bUID b)));
  got t <- (match found with Some _ => mret () | None => mreq (ReadTemplate bound) end);
  let unread := match t with
                | Err e => negb (String.eqb (gann bound effectiveTemplateAnnotation) "") || match e with NotFound => false | _ => true end
                | Ok _ => false
                end in
  if unread then stop (abortResticCopy cfg ("cannot resolve capture template: " +:+ match t with Err e => errText e | Ok _ => "" end))
  else
    do j <- launchWorker found source preparation;
    superviseWorker g j.

(** The source of the copy. *)
Definition admitCopy (found : option job) (preparation : time) : M (duration + (time * job)) :=
  do again <- prepareBackupWorkload;
  if 0 <? again then mret (inl again)
  else
    do bound <- mlift getOwnedBackupTarget;
    match bound with
    | None => mret (inl (5 * Second))
    | Some bound =>
        got r <- prepareBackupWorkerSource;
        match r with
        | Err (SourceChanged m) => stop (abortResticCopy cfg (errText (SourceChanged m)))
        | Err e => mfail e
        | Ok None =>
            do! setBackupProgress "WorkerPreparing" "waiting for the source workload to be created and scheduled";
            mret (inl (5 * Second))
        | Ok (Some source) => ensureWorker found bound source preparation
        end
    end.

(** The budgets. *)
Definition preparedRestic (found : option job) : M (duration + (time * job)) :=
  let? queued <- (fun b => String.eqb (bann b backupPreparationDeadlineAnnotation) "");
  got claimed <- (if (queued : bool) then claimBackupTarget else mret true);
  match claimed with
  | Err (GenerationChanged m) => stop (abortResticCopy cfg m)
  | Err e => mfail e
  | Ok false => mret (inl (10 * Second))
  | Ok true =>
      got r <- backupDeadline backupPreparationDeadlineAnnotation (backupTimeout (cfgPreparation cfg) DefaultBackupPreparationTimeout);
      match r with
      | Err e => stop (abortResticCopy cfg (errText e))
      | Ok preparation =>
          let? authorized <- (fun b => bann b backupAuthorizedWorkerAnnotation);
          do late <- (if String.eqb authorized "" then do now <- mreq Now; mret (After now preparation) else mret false);
          if (late : bool) then stop (abortResticCopy cfg "worker preparation deadline exceeded before copy authorization")
          else
            do over <- quiesceBudget found;
            match over with
            | Some message => stop (abortResticCopy cfg message)
            | None => admitCopy found preparation
            end
      end
  end.
Definition startRestic : M (duration + (time * job)) :=
  do found <- mlift (fun b => find (GetJob (bName b)));
  let? b <- (fun b => b);
  match found with
  | None => preparedRestic None
  | Some j =>
      if negb (jobControlledBy j b) then stop waitForForeignBackupWorker
      else if negb (String.eqb (jProtocol j) "v1") then
        do again <- prepareBackupQuiesce;
        if 0 <? again then mret (inl again) else stop (mirrorJobStatus j)
      else preparedRestic (Some j)
  end.
(** A pass that did not authorize a worker takes the token back as it returns; two
    errors are joined. *)
Definition reconcilePreparedRestic : M duration :=
  got r <- startRestic;
  match r with
  | Ok (inr (deadline, j)) =>
      do! setBackupProgress "WorkerAuthorized" ("prepared worker authorized; copy deadline " +:+ formatSeconds deadline);
      mirrorJobStatus j
  | _ =>
      let? armed <- (fun b => negb (String.eqb (bann b backupPreparationDeadlineAnnotation) ""));
      got v <- (if (armed : bool) then mlift (fun b => revokeBackupStart (bName b) (bUID b)) else mret ());
      match r, v with
      | Err e, Err e' => mfail (Joined e e')
      | Err e, _ => mfail e
      | _, Err e => mfail e
      | Ok (inl again), _ => mret again
      | Ok (inr _), _ => mret 0
      end
  end.

(** ** Deletion *)

(** [unquiesceRetryExpired] *)
Definition unquiesceRetryExpired : M bool :=
  let? since <- (fun b => bAnn b !! annoUnquiesceRetryFirstFailedAt);
  match since with
  | None =>
      do now <- mreq Now;
      do! mput (patch annoUnquiesceRetryFirstFailedAt (formatSeconds now));
      do! update;
      mret false
  | Some since =>
      match parseSeconds since with
      | Some t => do now <- mreq Now; mret (maxUnquiesceFinalizeRetry <=? Sub now t)
      | None => mret true
      end
  end.

(** [finalizeUnquiesce] *)
Definition releaseFinalizer : M duration :=
  let? aborted <- (fun b => String.eqb (bann b backupSnapshotAbortAnnotation) "true");
  do again <- (if (aborted : bool) then snapshotStage "clean up aborted snapshot" else mret 0);
  if 0 <? again then mret again
  else do! mput (fun b => with_finalizers b false (bSnapshotFinalizer b)); do! update; mret 0.
Definition finalizeUnquiesce : M duration :=
  let? held <- bFinalizer;
  if negb held then mret 0
  else
    do busy <- mlift (backupCleanupWorkersLive true);
    if (busy : bool) then mret (5 * Second)
    else
      got r <- maybeUnquiesce cfg;
      match r with
      | Ok _ => do! mlift giveBackTarget; releaseFinalizer
      | Err e =>
          got g <- mlift unquiesceTargetGone;
          match g with
          | Err _ => mret (30 * Second)
          | Ok gone =>
              do expired <- (if (gone : bool) then mret true else unquiesceRetryExpired);
              if negb expired then mret (30 * Second)
              else
                do! (if (gone : bool) then mret ()
                     else mreq (RecordEvent "Warning" "UnquiesceAbandoned"
                            ("giving up on unquiesce after 10m0s of retries; the world may still have auto-save off if its pod is still running: " +:+ errText e)));
                releaseFinalizer
          end
      end.

(** The forget stage: [releaseSnapshotFinalizer], [setSnapshotForgottenCondition],
    [abandonSnapshotForget], [snapshotForgotten], [snapshotForgetExpired],
    [clearBackupJob], [pinnedByRestore], [runForgetJob], [finalizeSnapshot]. *)
Definition releaseSnapshotFinalizer : M duration :=
  do! mput (fun b => with_finalizers b (bFinalizer b) false);
  got r <- update;
  match r with Ok _ | Err NotFound => mret 0 | Err e => mfail e end.
Definition setSnapshotForgottenCondition (status reason msg : string) : M unit :=
  upsertChanged (fun b => MkCond conditionSnapshotForgotten status reason msg (bGeneration b) zero_time).
Definition abandonSnapshotForget (reason : string) : M duration :=
  let? id <- (fun b => sSnapshotID (bStatus b));
  let msg := "snapshot " +:+ (id +:+ (" was not forgotten and remains in the repository: " +:+ reason)) in
  got _ <- mreq (RecordEvent "Warning" "SnapshotForgetAbandoned" msg);
  got _ <- setSnapshotForgottenCondition "False" "ForgetAbandoned" msg;
  releaseSnapshotFinalizer.
Definition snapshotForgotten : M duration :=
  let? id <- (fun b => sSnapshotID (bStatus b));
  let msg := "restic snapshot " +:+ (id +:+ " forgotten from the repository") in
  do! setSnapshotForgottenCondition "True" "Forgotten" msg;
  got _ <- mreq (RecordEvent "Normal" "SnapshotForgotten" msg);
  releaseSnapshotFinalizer.
Definition snapshotForgetExpired : M bool :=
  let? since <- (fun b => bAnn b !! annoSnapshotForgetStartedAt);
  match since with
  | None =>
      do now <- mreq Now;
      do! mput (patch annoSnapshotForgetStartedAt (formatSeconds now));
      do! update;
      mret false
  | Some since =>
      match parseSeconds since with
      | Some t => do now <- mreq Now; mret (maxSnapshotForgetWait <=? Sub now t)
      | None => mret true
      end
  end.
Definition clearBackupJob (b : backup) : P (result berr bool) :=
  if terminal (sPhase (bStatus b)) then ok false
  else
    try! found := find (GetJob (bName b)) in
    match found with
    | None => ok false
    | Some j =>
        if jDeleting j then ok true
        else if (0 <? jSucceeded j) || jobPermanentlyFailed j then ok false
        else
          let! r := call (DeleteJob (jUID j)) in
          Ret (match r with Err NotFound | Ok _ => Ok true | Err e => Err e end)
    end.
Definition pinnedByRestore (b : backup) : P (result berr bool) :=
  try! restores := call ListRestores in
  ok (existsb (fun r => negb (terminal (rPhase r)) &&
        (String.eqb (rBackup r) (bName b) ||
         (negb (String.eqb (rSnapshotID r) "") && String.eqb (rSnapshotID r) (sSnapshotID (bStatus b))))) restores).
Definition runForgetJob : M duration :=
  let? b <- (fun b => b);
  got r <- mreq (EnsureForgetJob (forgetJobName (bName b)) (sSnapshotID (bStatus b)));
  match r with
  | Err NamespaceTerminating => abandonSnapshotForget "namespace is terminating"
  | Err AlreadyExists => mret (2 * Second)
  | Err e => mfail e
  | Ok j =>
      if 0 <? jSucceeded j then snapshotForgotten
      else if jobPermanentlyFailed j then abandonSnapshotForget ("forget job failed: " +:+ jobFailureMessage j)
      else mret (10 * Second)
  end.
Definition forgetSnapshot (secretName : string) : M duration :=
  do pinned <- mlift pinnedByRestore;
  if (pinned : bool) then mret (15 * Second)
  else
    do keys <- mlift (fun _ => find (GetSecretKeys secretName));
    match keys with
    | None => abandonSnapshotForget ("repo Secret " +:+ (quoted secretName +:+ " not found"))
    | Some keys =>
        match missingRepoSecretKeys keys with
        | [] => runForgetJob
        | missing => abandonSnapshotForget ("repo Secret " +:+ (quoted secretName +:+ (" is missing required key(s): " +:+ JoinWith ", " missing)))
        end
    end.
Definition finalizeSnapshot : M duration :=
  let? b <- (fun b => b);
  match bRepoRef b with
  | Some secretName =>
      if String.eqb (bStrategy b) "volume-snapshot" then releaseSnapshotFinalizer
      else
        do expired <- snapshotForgetExpired;
        if (expired : bool) then abandonSnapshotForget "gave up after 45m0s"
        else
          do waiting <- mlift clearBackupJob;
          if (waiting : bool) then mret (5 * Second)
          else
            let? b <- (fun b => b);
            let id := sSnapshotID (bStatus b) in
            if String.eqb id "" then
              got _ <- (if mayHaveWrittenSnapshot b
                        then mreq (RecordEvent "Warning" "SnapshotForgetSkipped"
                               "no snapshot id was recorded for this Backup, so any snapshot it wrote to the repository is left in place")
                        else mret ());
              releaseSnapshotFinalizer
            else if negb (snapshotIDPattern id) then
              got _ <- mreq (RecordEvent "Warning" "SnapshotForgetSkipped"
                         ("status.snapshotID " +:+ (quoted id +:+ " is not a restic snapshot id; leaving it in the repository")));
              releaseSnapshotFinalizer
            else forgetSnapshot secretName
  | None => releaseSnapshotFinalizer
  end.

(** [finalizeDelete] *)
Definition finalizeDelete : M duration :=
  let? b <- (fun b => b);
  let armed := negb (String.eqb (bann b backupPreparationDeadlineAnnotation) "") in
  do! (if armed then mlift (fun b => revokeBackupStart (bName b) (bUID b)) else mret ());
  do! (if String.eqb (bStrategy b) "volume-snapshot" && negb (String.eqb (sPhase (bStatus b)) "Succeeded")
       then snapshotStage "CSI capture cancelled by Backup deletion" else mret 0);
  let? b <- (fun b => b);
  do again <- (if negb (String.eqb (bann b backupPreparationDeadlineAnnotation) "") && negb (String.eqb (sPhase (bStatus b)) "Succeeded")
               then abortResticCopy cfg "copy cancelled by Backup deletion" else mret 0);
  if 0 <? again then mret again
  else
    let? held <- bFinalizer;
    do again <- (if (held : bool) then finalizeUnquiesce else mret 0);
    if 0 <? again then mret again
    else
      let? held <- bSnapshotFinalizer;
      if (held : bool) then finalizeSnapshot else mret 0.

(** ** [reconcile] on the Backup that was read *)

Definition addFinalizers : M unit :=
  let? held <- bFinalizer;
  do! (if (held : bool) then mret () else do! mput (fun b => with_finalizers b true (bSnapshotFinalizer b)); update);
  let? wanted <- (fun b => wantsSnapshotFinalizer b && negb (bSnapshotFinalizer b));
  if (wanted : bool) then do! mput (fun b => with_finalizers b (bFinalizer b) true); update else mret ().
(** A new copy: the server, the repository, then the worker. *)
Definition startCopy : M duration :=
  let? b <- (fun b => b);
  do gs <- mlift (fun _ => find (GetServer (bServer b)));
  match gs with
  | None => fail ("GameServer " +:+ (quoted (bServer b) +:+ (" not found in namespace " +:+ bNamespace b)))
  | Some _ =>
      if String.eqb (bStrategy b) "volume-snapshot" then snapshotStage "reconcile volume snapshot"
      else match bRepoRef b with
      | None => fail "repoRef is required for the restic-snapshot strategy"
      | Some repo =>
          do keys <- mlift (fun _ => find (GetSecretKeys repo));
          match keys with
          | None => fail ("repo Secret " +:+ (quoted repo +:+ (" not found in namespace " +:+ bNamespace b)))
          | Some keys =>
              match missingRepoSecretKeys keys with
              | [] => reconcilePreparedRestic
              | missing => fail ("repo Secret " +:+ (quoted repo +:+ (" is missing required key(s): " +:+ JoinWith ", " missing)))
              end
          end
      end
  end.
Definition reconcileLive : M duration :=
  do! addFinalizers;
  let? phase <- (fun b => sPhase (bStatus b));
  do! (if terminal phase then syncBackupConsistency else mret ());
  let? b <- (fun b => b);
  let phase := sPhase (bStatus b) in
  if String.eqb phase "Succeeded" && String.eqb (sSnapshotID (bStatus b)) "" then retrySnapshotScrape
  else if terminal phase then
    if String.eqb phase "Failed" && String.eqb (bStrategy b) "volume-snapshot" then snapshotStage "abort volume snapshot"
    else if String.eqb phase "Failed" && (negb (String.eqb (bann b backupPreparationDeadlineAnnotation) "") ||
                                          negb (String.eqb (bann b backupSourceStartupDeadlineAnnotation) ""))
    then abortResticCopy cfg (sMessage (bStatus b))
    else runUnquiesce cfg
  else if legacyBackupOwesUnquiesce b && negb (String.eqb (bStrategy b) "volume-snapshot") then
    do found <- mlift (fun b => find (GetJob (bName b)));
    match found with
    | Some j => if jobControlledBy j b then mirrorJobStatus j else startCopy
    | None => startCopy
    end
  else startCopy.
Definition reconcile : M duration :=
  let? b <- (fun b => b);
  if bDeleting b then finalizeDelete
  else if negb (String.eqb (bann b backupCopyAbortAnnotation) "") then abortResticCopy cfg (bann b backupCopyAbortAnnotation)
  else if String.eqb (bann b backupSnapshotAbortAnnotation) "true" then snapshotStage "volume snapshot capture was aborted"
  else reconcileLive.
(** [requeueOnConflict] *)
Definition Reconcile : M duration :=
  got r <- reconcile;
  match r with
  | Err e => if IsConflict e then mret reconcileRetryInterval else mfail e
  | Ok again => mret again
  end.

End Run.
