(* ===== verification/BackupFacts.v ===== *)
(** * A game is not left with saving off: the environment and the rules

    The Backup as it is stored, whether the game has been told to stop saving, and
    the start token, as one state; what every call may do to it, also when it
    fails; the invariant; and the rules to show that a program keeps it at every
    call. *)

From Stdlib Require Import Ascii.
From S2P Require Import Prelude GoTime GoText GoToken Prog Idle Lifecycle Power Backup BackupRun.
Local Open Scope Z_scope.

(** ** Annotations *)

Definition attempted (b : backup) : string := bann b annoQuiesceAttempted.
Definition authorized (b : backup) : string := bann b backupAuthorizedWorkerAnnotation.
Definition copyDeadline (b : backup) : string := bann b backupQuiesceDeadlineAnnotation.
Definition aborted (b : backup) : string := bann b backupCopyAbortAnnotation.
Definition targetOf (b : backup) : string := bann b backupTargetAnnotation.
Definition failed (b : backup) : Prop := sPhase (bStatus b) = "Failed".

(** The Backup owes the game a save-on. *)
Definition owes (b : backup) : Prop :=
  attempted b <> "" /\ attempted b <> "unsupported" /\ bAnn b !! annoUnquiescedAt = None.
(** No new copy is started for it. *)
Definition closing (b : backup) : Prop := aborted b <> "" \/ bDeleting b = true \/ failed b.
(** A restic backup made by this version of the operator. *)
Definition restic (b : backup) : Prop :=
  bStrategy b <> "volume-snapshot" /\ bann b backupSnapshotAbortAnnotation <> "true".

Section Facts.
Context `{OwnerCodec} `{BackupCodec} (cfg : config).

Definition sourceStopped (b : backup) : Prop :=
  exists p, parseBackupPreparation b = Ok (Some p) /\ pOutcome p = "already-stopped".
(** The question whether the game must stop saving has its answer. *)
Definition settled (b : backup) : Prop :=
  attempted b = "true" \/ attempted b = "unsupported" \/ sourceStopped b \/ bQuiesce b = false \/ cfgAgent cfg = false.
(** An instant and the annotation that records it. *)
Definition denotes (value : string) (t : time) : Prop := value = formatNano t \/ parseNano value = Some t.

(** What holds of the stored Backup; [off] is the process whose saving is off. *)
Record good (off : option string) (gate : string) (b : backup) : Prop := {
  g_off u : off = Some u -> owes b /\ exists p, parseBackupPreparation b = Ok (Some p) /\ pPodUID p = u;
  g_unq : is_Some (bAnn b !! annoUnquiescedAt) -> attempted b = "true" \/ closing b;
  g_att : attempted b <> "" ->
    (attempted b = "pending" \/ attempted b = "true" \/ attempted b = "unsupported") /\ bQuiesce b = true /\ cfgAgent cfg = true /\
    targetOf b <> "" /\ exists p, parseBackupPreparation b = Ok (Some p) /\ pOutcome p = "live";
  g_auth : authorized b <> "" \/ sPhase (bStatus b) = "Succeeded" -> settled b;
  g_gate : gate <> "" -> authorized b <> "" /\ copyDeadline b <> "" /\
    exists w src d, token w = true /\ token src = true /\ gate = startToken (bUID b) w src d /\ denotes (copyDeadline b) d;
  g_target n u : targetOf b <> "" -> parseIdentity (targetOf b) = Some (n, u) -> n = bServer b;
  g_rec : bann b backupRecoveryAnnotation = ""
}.

(** Every version that was stored once. *)
Definition sane (b : backup) : Prop := restic b /\ good None "" b.

(** What an older version of the Backup says of a newer one. *)
Definition past (b p : backup) : Prop :=
  bUID b = bUID p /\ bName b = bName p /\ bServer b = bServer p /\
  (authorized b <> "" -> authorized p <> "") /\ (copyDeadline b <> "" -> copyDeadline p = copyDeadline b).

(** ** State and environment *)

(** The stored Backup and its past versions, the process with saving off, the
    token, whether this Backup holds its server, and whether its Jobs and its pods
    were seen idle since a copy could last start. *)
Record st := MkSt {
  pb : backup; seen : list backup; off : option string; gt : string; held : bool; idleJobs : bool; idlePods : bool }.
Definition with_pb (s : st) (p : backup) : st := MkSt p (p :: seen s) (off s) (gt s) (held s) (idleJobs s) (idlePods s).
Definition with_off (s : st) (o : option string) : st := MkSt (pb s) (seen s) o (gt s) (held s) (idleJobs s) (idlePods s).
Definition with_gt (s : st) (t : string) : st := MkSt (pb s) (seen s) (off s) t (held s) (idleJobs s) (idlePods s).
Definition with_held (s : st) (h : bool) : st := MkSt (pb s) (seen s) (off s) (gt s) h (idleJobs s) (idlePods s).
Definition with_idle (s : st) (j p : bool) : st := MkSt (pb s) (seen s) (off s) (gt s) (held s) j p.

(** A stored object after a write that may have changed nothing. *)
Definition stored (s : st) (p : backup) (s' : st) : Prop :=
  exists v, (bVersion (pb s) < v \/ set_stored p v (bDeleting (pb s)) = pb s) /\ s' = with_pb s (set_stored p v (bDeleting (pb s))).
(** An update is accepted on the stored version only. *)
Definition written (b : backup) (s s' : st) : Prop :=
  bVersion b = bVersion (pb s) /\ stored s (with_bstatus b (bStatus (pb s))) s'.
Definition statusWritten (b : backup) (s s' : st) : Prop :=
  bVersion b = bVersion (pb s) /\ stored s (with_bstatus (pb s) (bStatus b)) s'.

(** What happens on its own: the process may end, the Backup may be deleted, and
    others may take the server. *)
Definition tick (s s' : st) : Prop :=
  exists o h p, (o = off s \/ o = None) /\ (h = true -> held s = true) /\
    (p = pb s \/ exists v, bVersion (pb s) < v /\ p = set_stored (pb s) v true) /\
    s' = with_held (with_off (with_pb s p) o) h.

Definition gateOf (b : backup) : string := backupStartConfigMapName (bName b) (bUID b).
(** The server is held by the stored Backup. *)
Definition ownsIt (gs : GS) (p : backup) : Prop :=
  exists n u, parseIdentity (targetOf p) = Some (n, u) /\
    Lifecycle.ownedBackupTarget gs u (backupLifecycleIdentity gs (bName p) (bUID p) (bGeneration p) false) = Ok true.
Definition ownWorker (p : backup) (w : workerPod) : bool := String.eqb (wpBackupUID w) (bUID p) && livePod w.

(** What a call may do.  A failed write may have been
    made, and does not fail for a reason of the controller's own; a read of the pod tells whether its process is there; UIDs are words; the
    game answers that it cannot quiesce only when it did not; ownership is not
    gained without a claim. *)
Definition eff {A} (r : req A) : result berr A -> st -> st -> Prop :=
  match r in req A return result berr A -> st -> st -> Prop with
  | UpdateBackup b => fun res s s' =>
      match res with
      | Ok b' => written b s s' /\ b' = pb s'
      | Err e => (forall m, e <> SourceChanged m) /\ (s' = s \/ written b s s')
      end
  | UpdateBackupStatus b => fun res s s' =>
      match res with Ok b' => statusWritten b s s' /\ b' = pb s' | Err _ => s' = s \/ statusWritten b s s' end
  | GetServer n => fun res s s' => s' = s /\
      match res with
      | Ok gs => gsName gs = n /\ gann gs backupRecoveryLineageAnnotation = "" /\ (n = bServer (pb s) -> (ownsIt gs (pb s) <-> held s = true))
      | Err NotFound => n = bServer (pb s) -> held s = false
      | Err _ => True
      end
  | UpdateServer gs => fun res s s' =>
      (s' = s /\ res <> Ok () \/
       exists h, s' = with_held s h /\ (h = true -> held s = true) /\
         (gann gs backupGuardAnnotation <> identityJSON (bName (pb s), bUID (pb s)) -> h = false))
  | ClaimLifecycle _ _ => fun _ s s' => exists h o, (o = off s \/ o = None) /\ s' = with_held (with_off s o) h
  | RecoverLifecycle _ _ => fun _ s s' => exists o, (o = off s \/ o = None) /\ s' = with_off s o
  | GetPod n => fun res s s' => s' = s /\
      (n = bServer (pb s) +:+ "-0" -> forall u, off s = Some u ->
         match res with
         | Ok p => wpUID p = u /\ (wpDeleting p = true \/ wpPhase p <> "Succeeded" /\ wpPhase p <> "Failed")
         | Err e => e <> NotFound
         end)
  | ListPods => fun res s s' =>
      match res with
      | Ok pods => Forall (fun p => str_all is_printable (wpUID p) = true) pods /\
                   s' = with_idle s (idleJobs s) (idlePods s || negb (existsb (ownWorker (pb s)) pods))
      | Err _ => s' = s
      end
  | ListJobs => fun res s s' =>
      match res with
      | Ok jobs => s' = with_idle s (idleJobs s || negb (existsb (fun j => copyJobOf (bName (pb s)) (bUID (pb s)) j && jobBusy j) jobs)) (idlePods s)
      | Err _ => s' = s
      end
  | CreateJob _ _ _ _ _ _ => fun _ s s' => s' = with_idle s false false
  | EnsureGate _ => fun _ s s' => s' = s \/ s' = with_gt s ""
  | SetGate n t => fun res s s' =>
      if String.eqb t "" then s' = s \/ s' = with_gt s ""
      else exists t', (t' = gt s \/ t' = t /\ n = gateOf (pb s)) /\ s' = with_gt (with_idle s false false) t'
  | QuiescePod _ u => fun res s s' =>
      match res with
      | Err Unsupported => s' = s /\ off s = None
      | _ => s' = s \/ s' = with_off s (Some u)
      end
  | UnquiescePod _ u => fun res s s' =>
      match res with
      | Ok _ => s' = with_off s (if decide (off s = Some u) then None else off s)
      | Err _ => s' = s \/ s' = with_off s None
      end
  | Unquiesce _ => fun _ s s' => s' = s \/ s' = with_off s None
  | Quiesce _ | SnapshotStrategy _ _ => fun _ _ _ => True
  | _ => fun _ s s' => s' = s
  end.
Definition env {A} (r : req A) (res : result berr A) (s s' : st) : Prop := exists s1, tick s s1 /\ eff r res s1 s'.

(** When a call may be made: saving is restored once the Jobs and the pods were
    seen idle; the two calls that are not bound to a process and the other strategy are not used. *)
Definition pre {A} (r : req A) (s : st) : Prop :=
  match r with
  | UnquiescePod _ _ => idleJobs s = true /\ idlePods s = true
  | Quiesce _ | Unquiesce _ | SnapshotStrategy _ _ => False
  | _ => True
  end.

Definition upto (h p : backup) : Prop := bVersion h <= bVersion p /\ past h p /\ sane h /\ (bVersion h = bVersion p -> h = p).
Record inv (s : st) : Prop := {
  i_good : good (off s) (gt s) (pb s);
  i_seen h : h ∈ seen s -> upto h (pb s);
  i_now : pb s ∈ seen s;
  i_uid : token (bUID (pb s)) = true
}.

(** ** Programs that keep the invariant *)

Fixpoint safe {A} (p : P A) (Q : A -> st -> Prop) (s : st) : Prop :=
  match p with
  | Ret a => Q a s
  | Call r k => pre r s /\ forall res s', env r res s s' -> inv s' /\ safe (k res) Q s'
  | OutOfFuel => True
  end.

Lemma pass_mono {A} (p : P A) (Q R : A -> st -> Prop) s : safe p Q s -> (forall a s', Q a s' -> R a s') -> safe p R s.
Proof using Type.
  intros Hp HQ. revert s Hp. induction p as [a|B r k IH|]; intros s Hp; [by apply HQ| |done].
  destruct Hp as [Hpre Hk]. split; [done|]. intros res s' He. destruct (Hk res s' He) as [Hi Hs]. split; [done|]. by apply IH.
Qed.
Lemma pass_bind {A B} (p : P A) (f : A -> P B) (Q : B -> st -> Prop) s :
  safe p (fun a s' => safe (f a) Q s') s -> safe (pbind p f) Q s.
Proof using Type.
  revert s. induction p as [a|C r k IH|]; intros s Hp; [done| |done].
  destruct Hp as [Hpre Hk]. split; [done|]. intros res s' He. destruct (Hk res s' He) as [Hi Hs]. split; [done|]. by apply IH.
Qed.
(** ** Quiet calls *)

(** Calls that change nothing of the Backup and start nothing. *)
Definition quiet {A} (r : req A) : Prop :=
  match r with
  | UpdateBackup _ | UpdateBackupStatus _ | QuiescePod _ _ | UnquiescePod _ _ | Quiesce _ | Unquiesce _ | SnapshotStrategy _ _
  | CreateJob _ _ _ _ _ _ | ClaimLifecycle _ _ => False
  | SetGate _ t => t = ""
  | _ => True
  end.
Definition later (p p' : backup) : Prop := p' = p \/ exists v, bVersion p < v /\ p' = set_stored p v true.
Record evo (s s' : st) : Prop := {
  e_pb : later (pb s) (pb s');
  e_off : off s' = off s \/ off s' = None;
  e_gt : gt s' = gt s \/ gt s' = "";
  e_held : held s' = true -> held s = true;
  e_jobs : idleJobs s = true -> idleJobs s' = true;
  e_pods : idlePods s = true -> idlePods s' = true
}.

Lemma later_trans p q r : later p q -> later q r -> later p r.
Proof using Type.
  intros [->|(v & Hv & ->)] [->|(w & Hw & ->)]; [by left|right; by exists w|right; by exists v|right].
  exists w. split; [cbn in Hw; lia|done].
Qed.
Lemma evo_refl s : evo s s.
Proof using Type. split; auto. by left. Qed.
Lemma evo_trans s s' s'' : evo s s' -> evo s' s'' -> evo s s''.
Proof using Type.
  intros [A1 A2 A3 A4 A5 A6] [B1 B2 B3 B4 B5 B6]. split; eauto using later_trans.
  - destruct B2 as [->| ->]; auto.
  - destruct B3 as [->| ->]; auto.
Qed.

(** The invariant of the stored object ignores its version and a deletion. *)
Lemma good_stored o g p v : good o g p -> good o g (set_stored p v (bDeleting p)).
Proof using Type. intros [G1 G2 G3 G4 G5 G6 G7]. by split. Qed.
Lemma good_deleted o g p v : good o g p -> good o g (set_stored p v true).
Proof using Type.
  intros [G1 G2 G3 G4 G5 G6 G7]. split; try done.
  intros Hu. right. right. by left.
Qed.
Lemma good_less o o' g g' p : (o' = o \/ o' = None) -> (g' = g \/ g' = "") -> good o g p -> good o' g' p.
Proof using Type.
  intros Ho Hg [G1 G2 G3 G4 G5 G6 G7]. split; try done.
  - intros u ->. destruct Ho as [<-|]; [by apply G1|done].
  - intros Hn. destruct Hg as [->|]; [by apply G5|done].
Qed.
Lemma good_later o g p p' : good o g p -> later p p' -> good o g p'.
Proof using Type. intros Hg [->|(v & _ & ->)]; [done|by apply good_deleted]. Qed.
Lemma past_refl b : past b b.
Proof using Type. by split_and!. Qed.
Lemma past_trans a b c : past a b -> past b c -> past a c.
Proof using Type.
  intros (A1 & A2 & A3 & A4 & A5) (B1 & B2 & B3 & B4 & B5). split_and!; [congruence..|auto|].
  intros Hd. rewrite B5; [auto|]. by rewrite (A5 Hd).
Qed.
Lemma past_later p p' : later p p' -> past p p'.
Proof using Type. intros [->|(v & _ & ->)]; [apply past_refl|by split_and!]. Qed.
Lemma later_version p p' : later p p' -> bVersion p <= bVersion p' /\ (bVersion p = bVersion p' -> p' = p).
Proof using Type. intros [->|(v & Hv & ->)]; [by split|]. cbn. split; lia. Qed.
Lemma restic_later p p' : restic p -> later p p' -> restic p'.
Proof using Type. intros Hr [->|(v & _ & ->)]; done. Qed.

(** A new stored version keeps the history. *)
Lemma stored_step s s' : inv s -> good (off s') (gt s') (pb s') -> bVersion (pb s) <= bVersion (pb s') ->
  past (pb s) (pb s') -> restic (pb s') -> (bVersion (pb s) = bVersion (pb s') -> pb s' = pb s) ->
  (seen s' = pb s' :: seen s \/ seen s' = seen s /\ pb s' = pb s) -> inv s'.
Proof using Type.
  intros [I1 I2 I3 I4] Hg Hv Hp Hr He Hs. split; [done| | |].
  - assert (Hold : forall h, h ∈ seen s -> upto h (pb s')).
    { intros h Hh. destruct (I2 h Hh) as (U1 & U2 & U3 & U4). split_and!; [lia|by eapply past_trans|done|].
      intros E. rewrite He by lia. apply U4. lia. }
    intros h Hh. destruct Hs as [Es|[Es Ep]]; rewrite Es in Hh; [|by apply Hold].
    apply elem_of_cons in Hh as [->|Hh]; [|by apply Hold]. split_and!; [lia|apply past_refl|split; [done|]|done].
    by eapply good_less; [right|right|exact Hg].
  - destruct Hs as [->|[-> ->]]; [by left|done].
  - destruct Hp as [<- _]. done.
Qed.
Lemma inv_restic s : inv s -> restic (pb s).
Proof using Type. intros Hi. by destruct (i_seen _ Hi _ (i_now _ Hi)) as (_ & _ & [Hr _] & _). Qed.
Lemma inv_sane s : inv s -> sane (pb s).
Proof using Type. intros Hi. by destruct (i_seen _ Hi _ (i_now _ Hi)) as (_ & _ & Hr & _). Qed.
Lemma tick_evo s s' : inv s -> tick s s' -> inv s' /\ evo s s'.
Proof using Type.
  intros Hi (o & h & p & Ho & Hh & Hp & ->).
  assert (Hl : later (pb s) p) by (destruct Hp as [->|Hp]; [by left|by right]).
  split; [|split; cbn; auto]. apply (stored_step s); try done; cbn.
  - eapply good_less; [exact Ho|by left|]. apply (good_later _ _ (pb s)); [apply Hi|done].
  - by apply later_version.
  - by apply past_later.
  - eapply restic_later; [by apply inv_restic|done].
  - by apply later_version.
  - by left.
Qed.
Lemma inv_same s s' : inv s -> pb s' = pb s -> seen s' = seen s -> (off s' = off s \/ off s' = None) ->
  (gt s' = gt s \/ gt s' = "") -> inv s'.
Proof using Type.
  intros Hi Hp Hs Ho Hg. apply (stored_step s); [done| | | | | |]; rewrite ?Hp.
  - eapply good_less; [exact Ho|exact Hg|apply Hi].
  - lia.
  - apply past_refl.
  - by apply inv_restic.
  - done.
  - by right.
Qed.
Lemma quiet_env {A} (r : req A) res s s' : quiet r -> inv s -> env r res s s' -> inv s' /\ evo s s'.
Proof using Type.
  intros Hq Hi (s1 & Ht & He). destruct (tick_evo _ _ Hi Ht) as [Hi1 Hv1].
  enough (inv s' /\ evo s1 s') as [? ?] by eauto using evo_trans.
  assert (Hsame : s' = s1 -> inv s' /\ evo s1 s') by (intros ->; split; [done|apply evo_refl]).
  destruct r; cbn in Hq, He; try done; auto; try (destruct He as [-> _]; by auto).
  - destruct He as [[-> _]|(h & -> & Hh & _)]; [by auto|]. split; [by apply (inv_same s1); auto|].
    split; cbn; auto. by left.
  - destruct res as [jobs|]; [|by auto]. subst s'. split; [by apply (inv_same s1); auto|].
    split; cbn; auto; [by left|]. intros ->. done.
  - destruct res as [pods|]; [|by auto]. destruct He as [_ ->]. split; [by apply (inv_same s1); auto|].
    split; cbn; auto; [by left|]. intros ->. done.
  - destruct He as [->| ->]; [by auto|]. split; [by apply (inv_same s1); auto|]. split; cbn; auto. by left.
  - subst. cbn in He. destruct He as [->| ->]; [by auto|]. split; [by apply (inv_same s1); auto|]. split; cbn; auto. by left.
  - destruct He as (o & Ho & ->). split; [by apply (inv_same s1); auto|]. split; cbn; auto. by left.
Qed.
Lemma quiet_pre {A} (r : req A) s : quiet r -> pre r s.
Proof using Type. by destruct r. Qed.
Lemma quiet_safe {A} (p : P A) s : only (@quiet) p -> inv s -> safe p (fun _ s' => inv s' /\ evo s s') s.
Proof using Type.
  revert s. induction p as [a|B r k IH|]; intros s Hq Hi; [by split; [|apply evo_refl]| |done].
  destruct Hq as [Hr Hk]. split; [by apply quiet_pre|]. intros res s' He.
  destruct (quiet_env _ _ _ _ Hr Hi He) as [Hi' Hv]. split; [done|].
  apply (pass_mono _ _ _ _ (IH res s' (Hk res) Hi')). intros a s'' [? ?]. split; [done|]. by eapply evo_trans.
Qed.
(** ** The Backup in memory *)

(** Either it is out of date, so that its updates are refused, or it is the stored
    one but for its status, and [F] holds. *)
Definition near (F : backup -> st -> Prop) (b : backup) (s : st) : Prop :=
  bVersion b <= bVersion (pb s) /\ past b (pb s) /\ sane b /\
  (bVersion b = bVersion (pb s) -> with_bstatus b (bStatus (pb s)) = pb s /\ good (off s) (gt s) b /\ F b s).
(** Either it is out of date, or writing it or its status is harmless. *)
Definition coh (b : backup) (s : st) : Prop :=
  bVersion b <= bVersion (pb s) /\ restic b /\
  (bVersion b = bVersion (pb s) ->
    bDeleting b = bDeleting (pb s) /\ past (pb s) b /\
    good (off s) (gt s) (with_bstatus b (bStatus (pb s))) /\ good (off s) (gt s) (with_bstatus (pb s) (bStatus b))).
(** What a pass relies on, apart from the phase and the save-on. *)
Definition mcore (b : backup) :=
  (bDeleting b, bQuiesce b, attempted b, aborted b, targetOf b, bann b backupPreparationAnnotation).

Lemma settled_core b b' : mcore b' = mcore b -> settled b -> settled b'.
Proof using Type.
  unfold mcore, settled, sourceStopped, parseBackupPreparation. intros E. injection E as E1 E2 E3 E4 E5 E6. by rewrite E2, E3, E6.
Qed.

Definition steady (F : backup -> st -> Prop) : Prop :=
  forall b s s', evo s s' -> pb s' = pb s -> F b s -> F b s'.
Lemma near_evo F b s s' : steady F -> near F b s -> evo s s' -> near F b s'.
Proof using Type.
  intros HF (N1 & N2 & N3 & N4) He. destruct (later_version _ _ (e_pb _ _ He)) as [Hv Hs].
  split_and!; [lia|by eapply past_trans, past_later, He|done|]. intros E.
  assert (Ep : pb s' = pb s) by (apply Hs; lia). rewrite Ep in E |- *. destruct (N4 E) as (A & B & C).
  split_and!; [done|eapply good_less; [apply He|apply He|done]|by eapply HF].
Qed.
Lemma near_mono (F G : backup -> st -> Prop) b s :
  near F b s -> (bVersion b = bVersion (pb s) -> good (off s) (gt s) b -> F b s -> G b s) -> near G b s.
Proof using Type.
  intros (N1 & N2 & N3 & N4) HG. split_and!; [done..|]. intros E. destruct (N4 E) as (A & B & C). by auto.
Qed.
Lemma near_coh F b s : inv s -> near F b s -> coh b s.
Proof using Type.
  intros Hi (N1 & N2 & [N3 _] & N4). split_and!; [done..|]. intros E. destruct (N4 E) as (A & B & C).
  split_and!; [by rewrite <- A|rewrite <- A; by split_and!|rewrite A; apply Hi|].
  rewrite <- A. by destruct b.
Qed.
Lemma coh_evo b s s' : coh b s -> evo s s' -> coh b s'.
Proof using Type.
  intros (C1 & C2 & C3) He. destruct (later_version _ _ (e_pb _ _ He)) as [Hv Hs].
  split_and!; [lia|done|]. intros E.
  assert (Ep : pb s' = pb s) by (apply Hs; lia). rewrite Ep in E |- *. destruct (C3 E) as (A & B & C & D).
  split_and!; [done|done|eapply good_less; [apply He|apply He|done]..].
Qed.
(** The stored object itself. *)
Lemma near_stored (F : backup -> st -> Prop) s : inv s -> F (pb s) s -> near F (pb s) s.
Proof using Type.
  intros Hi HF. split_and!; [lia|apply past_refl|by apply inv_sane|]. intros _.
  split_and!; [by destruct (pb s)|apply Hi|done].
Qed.
Lemma coh_stored s : inv s -> coh (pb s) s.
Proof using Type. intros Hi. apply (near_coh (fun _ _ => True)); [done|]. by apply near_stored. Qed.

(** ** Writes *)

(** What an update leaves of the rest of the state. *)
Lemma stored_evo s s1 p s' : inv s -> tick s s1 -> stored s1 p s' ->
  pb s1 = pb s -> good (off s) (gt s) (set_stored p 0 (bDeleting (pb s))) -> past (pb s) p -> restic p ->
  inv s' /\ (exists v, pb s' = set_stored p v (bDeleting (pb s)) /\ (bVersion (pb s) < v \/ pb s' = pb s)) /\
  (off s' = off s \/ off s' = None) /\ (gt s' = gt s \/ gt s' = "") /\ (held s' = true -> held s = true) /\ (idleJobs s = true -> idleJobs s' = true) /\ (idlePods s = true -> idlePods s' = true).
Proof using Type.
  intros Hi Ht (v & Hv & ->) Ep Hg Hp Hr. destruct (tick_evo _ _ Hi Ht) as [Hi1 [E1 E2 E3 E4 E5 E6]].
  rewrite Ep in Hv |- *. cbn. split_and!; [|exists v; by split|done..].
  apply (stored_step s1); rewrite ?Ep; cbn; auto.
  - eapply good_less; [exact E2|exact E3|].
    change (set_stored p v (bDeleting (pb s))) with
      (set_stored (set_stored p 0 (bDeleting (pb s))) v (bDeleting (set_stored p 0 (bDeleting (pb s))))).
    by apply good_stored.
  - destruct Hv as [Hv|Hv]; [lia|]. apply (f_equal bVersion) in Hv. cbn in Hv. lia.
  - intros E. destruct Hv as [Hv|Hv]; [lia|done].
Qed.
Lemma tick_current s s1 b : inv s -> tick s s1 -> bVersion b <= bVersion (pb s) -> bVersion b = bVersion (pb s1) -> pb s1 = pb s.
Proof using Type.
  intros Hi Ht Hb E. destruct (tick_evo _ _ Hi Ht) as [_ He]. destruct (later_version _ _ (e_pb _ _ He)) as [Hv Hs].
  apply Hs. lia.
Qed.
Definition side (s s' : st) : Prop :=
  (off s' = off s \/ off s' = None) /\ (gt s' = gt s \/ gt s' = "") /\ (held s' = true -> held s = true) /\
  (idleJobs s = true -> idleJobs s' = true) /\ (idlePods s = true -> idlePods s' = true).
Lemma side_evo s s' : evo s s' -> side s s'.
Proof using Type. intros [E1 E2 E3 E4 E5 E6]. by split_and!. Qed.

Lemma coh_newer b s s' : coh b s -> inv s -> bVersion (pb s) < bVersion (pb s') -> coh b s'.
Proof using Type. intros (C1 & C2 & C3) Hi Hv. split_and!; [lia|done|]. intros E. lia. Qed.

Lemma update_safe b s : inv s -> coh b s ->
  safe (update b) (fun x s' => inv s' /\ side s s' /\
    match x.2 with
    | Ok _ => x.1 = pb s' /\ bVersion b = bVersion (pb s) /\
              exists v, pb s' = set_stored (with_bstatus b (bStatus (pb s))) v (bDeleting b)
    | Err e => x.1 = b /\ coh b s' /\ forall m, e <> SourceChanged m
    end) s.
Proof using Type.
  intros Hi Hc. split; [done|]. intros res s' (s1 & Ht & He). pose proof Hc as (C1 & C2 & C3).
  destruct (tick_evo _ _ Hi Ht) as [Hi1 He1].
  assert (Hw : written b s1 s' -> inv s' /\ side s s' /\ bVersion b = bVersion (pb s) /\
            (exists v, pb s' = set_stored (with_bstatus b (bStatus (pb s))) v (bDeleting b)) /\ coh b s').
  { intros [Ev Hs]. pose proof (tick_current _ _ _ Hi Ht C1 Ev) as Ep. rewrite Ep in Ev, Hs.
    destruct (C3 Ev) as (A & B & C & D). rewrite A.
    destruct (stored_evo _ _ _ _ Hi Ht Hs Ep) as (I1 & (v & I2 & I2') & I3); [|done|done|].
    { rewrite <- A. change (bDeleting b) with (bDeleting (with_bstatus b (bStatus (pb s)))). by apply good_stored. }
    split_and!; [done|apply I3..|done|by exists v|].
    destruct I2' as [I2'|I2']; [apply (coh_newer _ s); [done|done|]; rewrite I2; cbn; lia|].
    destruct I3 as (O & G & _). split_and!; [by rewrite I2'|done|]. rewrite I2'. intros _. split_and!; [done|done|by eapply good_less..]. }
  destruct res as [b'|e]; cbn in He.
  - destruct He as [He ->]. destruct (Hw He) as (I1 & I2 & I3 & I4 & I5). split; [done|]. split; [done|]. split; [done|]. by split.
  - assert (Hold : s' = s1 -> inv s' /\ side s s' /\ coh b s').
    { intros ->. split_and!; [done|by apply side_evo..|by eapply coh_evo]. }
    destruct He as [Hne [He|He]]; [destruct (Hold He) as (X & Y & Z)|destruct (Hw He) as (X & Y & _ & _ & Z)]; split; [done|by split_and!|done|by split_and!].
Qed.
Lemma updateStatus_safe b s : inv s -> coh b s ->
  safe (updateStatus b) (fun x s' => inv s' /\ side s s' /\
    match x.2 with
    | Ok _ => x.1 = pb s' /\ bVersion b = bVersion (pb s) /\
              exists v, pb s' = set_stored (with_bstatus (pb s) (bStatus b)) v (bDeleting (pb s))
    | Err _ => x.1 = b /\ coh b s' /\ (pb s' = pb s \/ bVersion (pb s) < bVersion (pb s')) /\ past (pb s) (pb s')
    end) s.
Proof using Type.
  intros Hi Hc. split; [done|]. intros res s' (s1 & Ht & He). pose proof Hc as (C1 & C2 & C3).
  destruct (tick_evo _ _ Hi Ht) as [Hi1 He1].
  assert (Hw : statusWritten b s1 s' -> inv s' /\ side s s' /\ bVersion b = bVersion (pb s) /\
            (exists v, pb s' = set_stored (with_bstatus (pb s) (bStatus b)) v (bDeleting (pb s))) /\ coh b s' /\
            (pb s' = pb s \/ bVersion (pb s) < bVersion (pb s')) /\ past (pb s) (pb s')).
  { intros [Ev Hs]. pose proof (tick_current _ _ _ Hi Ht C1 Ev) as Ep. rewrite Ep in Ev, Hs.
    destruct (C3 Ev) as (A & B & C & D).
    destruct (stored_evo _ _ _ _ Hi Ht Hs Ep) as (I1 & (v & I2 & I2') & I3); [|by split_and!|by apply inv_restic|].
    { change (bDeleting (pb s)) with (bDeleting (with_bstatus (pb s) (bStatus b))). by apply good_stored. }
    split_and!; [done|apply I3..|done|by exists v| | |rewrite I2; by split_and!].
    2:{ destruct I2' as [I2'|I2']; [right; rewrite I2; cbn; lia|by left]. }
    destruct I2' as [I2'|I2']; [apply (coh_newer _ s); [done|done|]; rewrite I2; cbn; lia|].
    destruct I3 as (O & G & _). split_and!; [by rewrite I2'|done|]. rewrite I2'. intros _. split_and!; [done|done|by eapply good_less..]. }
  destruct res as [b'|e]; cbn in He.
  - destruct He as [He ->]. destruct (Hw He) as (I1 & I2 & I3 & I4 & _). split; [done|]. split; [done|]. split; [done|]. by split.
  - assert (Hold : s' = s1 -> inv s' /\ side s s' /\ coh b s' /\ (pb s' = pb s \/ bVersion (pb s) < bVersion (pb s')) /\ past (pb s) (pb s')).
    { intros ->. split_and!; [done|by apply side_evo..|by eapply coh_evo| |by apply past_later, He1].
      destruct (e_pb _ _ He1) as [->|(v & Hv & ->)]; [by left|by right]. }
    destruct He as [He|He]; [destruct (Hold He) as (X & Y & Z)|destruct (Hw He) as (X & Y & _ & _ & Z)]; split; [done|by split|done|by split].
Qed.

(** ** Rules for the monad *)

Definition fin {A} (Po : A -> backup -> st -> Prop) (Er : berr -> backup -> st -> Prop) (x : backup * result berr A) (s : st) : Prop :=
  inv s /\ match x.2 with Ok a => Po a x.1 s | Err e => Er e x.1 s end.
Abbreviation cohE := (fun (_ : berr) b s => coh b s).
(** From a state in [Pr], [m] keeps the invariant at every call and ends in [Po]
    or, with an error, in [Er]. *)
Definition specE {A} (m : M A) (Pr : backup -> st -> Prop) (Po : backup -> A -> backup -> st -> Prop)
  (Er : backup -> berr -> backup -> st -> Prop) : Prop :=
  forall b s, inv s -> Pr b s -> safe (m b) (fin (Po b) (Er b)) s.
Definition spec {A} (m : M A) Pr Po : Prop := specE (A := A) m Pr Po (fun _ => cohE).

Lemma spec_catch {A B} (m : M A) (k : result berr A -> M B) Pr Po Er Q b s : specE m Pr Po Er -> inv s -> Pr b s ->
  (forall a b' s', inv s' -> Po b a b' s' -> safe (k (Ok a) b') Q s') ->
  (forall e b' s', inv s' -> Er b e b' s' -> safe (k (Err e) b') Q s') -> safe (mcatch m k b) Q s.
Proof using Type.
  intros Hm Hi Hp Ho He. apply pass_bind. apply (pass_mono _ _ _ _ (Hm b s Hi Hp)).
  intros [b' [a|e]] s' [Hi' Hx]; cbn in *; auto.
Qed.
Lemma spec_bind {A B} (m : M A) (k : A -> M B) Pr Po (Po' : B -> backup -> st -> Prop) b s : spec m Pr Po -> inv s -> Pr b s ->
  (forall a b' s', inv s' -> Po b a b' s' -> safe (k a b') (fin Po' cohE) s') -> safe (mbind m k b) (fin Po' cohE) s.
Proof using Type. intros Hm Hi Hp Ho. eapply spec_catch; [exact Hm|done|done|done|]. intros e b' s' Hi' Hc. by split. Qed.
Lemma spec_use {A} (m : M A) Pr Po (Po' : A -> backup -> st -> Prop) b s : spec m Pr Po -> inv s -> Pr b s ->
  (forall a b' s', inv s' -> Po b a b' s' -> Po' a b' s') -> safe (m b) (fin Po' cohE) s.
Proof using Type.
  intros Hm Hi Hp Ho. apply (pass_mono _ _ _ _ (Hm b s Hi Hp)). intros [b' [a|e]] s' [Hi' Hx]; split; cbn in *; auto.
Qed.

Lemma lift_catch {A B} (p : backup -> P (result berr A)) (k : result berr A -> M B) Q b s : only (@quiet) (p b) -> inv s ->
  (forall r s', inv s' -> evo s s' -> safe (k r b) Q s') -> safe (mcatch (mlift p) k b) Q s.
Proof using Type.
  intros Hq Hi Hk. apply pass_bind, pass_bind. apply (pass_mono _ _ _ _ (quiet_safe _ _ Hq Hi)). intros r s' [Hi' He]. by apply Hk.
Qed.
Lemma lift_bind {A B} (p : backup -> P (result berr A)) (k : A -> M B) (Po : B -> backup -> st -> Prop) b s :
  only (@quiet) (p b) -> inv s -> coh b s ->
  (forall a s', inv s' -> evo s s' -> safe (k a b) (fin Po cohE) s') -> safe (mbind (mlift p) k b) (fin Po cohE) s.
Proof using Type.
  intros Hq Hi Hc Hk. apply lift_catch; [done|done|]. intros [a|e] s' Hi' He; [by apply Hk|]. split; [done|]. by eapply coh_evo.
Qed.
Lemma req_catch {A B} (r : req A) (k : result berr A -> M B) Q b s : quiet r -> inv s ->
  (forall a s', inv s' -> evo s s' -> safe (k a b) Q s') -> safe (mcatch (mreq r) k b) Q s.
Proof using Type. intros Hq. apply (lift_catch (fun _ => call r)). by split. Qed.
Lemma req_bind {A B} (r : req A) (k : A -> M B) (Po : B -> backup -> st -> Prop) b s : quiet r -> inv s -> coh b s ->
  (forall a s', inv s' -> evo s s' -> safe (k a b) (fin Po cohE) s') -> safe (mbind (mreq r) k b) (fin Po cohE) s.
Proof using Type. intros Hq. apply (lift_bind (fun _ => call r)). by split. Qed.
(** With more knowledge of the answer. *)
Lemma known_bind {A B} (p : backup -> P (result berr A)) (R : result berr A -> st -> Prop) (k : A -> M B) (Po : B -> backup -> st -> Prop) b s :
  safe (p b) (fun r s' => inv s' /\ evo s s' /\ R r s') s -> coh b s ->
  (forall a s', inv s' -> evo s s' -> R (Ok a) s' -> safe (k a b) (fin Po cohE) s') -> safe (mbind (mlift p) k b) (fin Po cohE) s.
Proof using Type.
  intros Hp Hc Hk. apply pass_bind, pass_bind. apply (pass_mono _ _ _ _ Hp). intros [a|e] s' (Hi' & He & Hr); [by apply Hk|].
  split; [done|]. by eapply coh_evo.
Qed.
End Facts.

(** ** Quiet programs *)

Create HintDb quietdb.
Ltac quiet :=
  repeat first
    [ apply only_check; [|intros ?] | apply only_bind; [|intros ?] | apply only_call; [done|intros ?] | split; [done|intros ?]
    | progress cbn [only call] | done | solve [eauto with quietdb] | case_match ].
