(* ===== verification/BackupPass.v ===== *)
(** * A game is not left with saving off: every step of a pass

    The functions of [Backup] and [BackupRun] one by one against the environment of
    [BackupFacts], and the theorems about reachable states. *)

From Stdlib Require Import Ascii.
From S2P Require Import Prelude GoTime GoText GoToken Prog Idle Lifecycle Power Backup BackupRun BackupFacts.
Local Open Scope Z_scope.
Local Open Scope m_scope.

Section Pass.
Context `{OwnerCodec} `{BackupCodec} (cfg : config).
Local Abbreviation inv := (BackupFacts.inv cfg).
Local Abbreviation good := (BackupFacts.good cfg).
Local Abbreviation near := (BackupFacts.near cfg).
Local Abbreviation coh := (BackupFacts.coh cfg).
Local Abbreviation safe := (BackupFacts.safe cfg).
Local Abbreviation spec := (BackupFacts.spec cfg).
Local Abbreviation specE := (BackupFacts.specE cfg).
Local Abbreviation fin := (BackupFacts.fin cfg).
Local Abbreviation settled := (BackupFacts.settled cfg).
Local Abbreviation cohE := (fun (_ : berr) b s => coh b s).

(** ** Reads *)

Lemma find_quiet {A} (r : req A) : quiet r -> only (@quiet) (find r).
Proof using Type. intros. unfold find. quiet. Qed.
Lemma owned_quiet b : only (@quiet) (getOwnedBackupTarget b).
Proof using Type. unfold getOwnedBackupTarget. repeat case_match; quiet. Qed.
Lemma revoke_quiet n u : only (@quiet) (revokeBackupStart n u).
Proof using Type. unfold revokeBackupStart. quiet. Qed.
#[local] Hint Resolve owned_quiet revoke_quiet : quietdb.
Lemma copyJobs_quiet n u c jobs : only (@quiet) (copyJobs n u c jobs).
Proof using Type. induction jobs as [|j jobs IH]; cbn [copyJobs]; quiet. Qed.
#[local] Hint Resolve copyJobs_quiet : quietdb.
Lemma workers_quiet n u c : only (@quiet) (backupWorkersLive n u c).
Proof using Type. unfold backupWorkersLive. quiet. Qed.
#[local] Hint Resolve workers_quiet : quietdb.
Lemma anyWorkers_quiet ids c : only (@quiet) (anyWorkersLive ids c).
Proof using Type. induction ids as [|id ids IH]; cbn [anyWorkersLive]; quiet. Qed.
#[local] Hint Resolve anyWorkers_quiet : quietdb.
Lemma legacy_quiet b : only (@quiet) (legacyQuiescedBackups b).
Proof using Type. unfold legacyQuiescedBackups. quiet. Qed.
Lemma recovery_quiet b : only (@quiet) (backupRecoveryIdentities b).
Proof using Type. unfold backupRecoveryIdentities. quiet. Qed.
#[local] Hint Resolve legacy_quiet recovery_quiet : quietdb.
Lemma cleanup_quiet c b : only (@quiet) (backupCleanupWorkersLive c b).
Proof using Type. unfold backupCleanupWorkersLive. quiet. Qed.
Lemma gone_quiet n u : only (@quiet) (backupQuiesceProcessGone n u).
Proof using Type. unfold backupQuiesceProcessGone. quiet. Qed.
#[local] Hint Resolve cleanup_quiet gone_quiet : quietdb.
Lemma targetGone_quiet b : only (@quiet) (unquiesceTargetGone b).
Proof using Type. unfold unquiesceTargetGone. quiet. Qed.
Lemma drained_quiet gs ss b : only (@quiet) (backupSourceDrained gs ss b).
Proof using Type. unfold backupSourceDrained. quiet. Qed.
Lemma prepared_quiet j : only (@quiet) (preparedBackupWorker j).
Proof using Type. unfold preparedBackupWorker. quiet. Qed.
Lemma capture_quiet b : only (@quiet) (captureWorker b).
Proof using Type. unfold captureWorker. quiet. Qed.
Lemma intend_quiet n b : only (@quiet) (intendUnquiesce n b).
Proof using Type. unfold intendUnquiesce. quiet. Qed.
Lemma giveBack_quiet b : only (@quiet) (giveBackTarget b).
Proof using Type. unfold giveBackTarget. quiet. Qed.
#[local] Hint Resolve targetGone_quiet drained_quiet prepared_quiet capture_quiet intend_quiet giveBack_quiet : quietdb.
Lemma unquiesceTarget_quiet b : only (@quiet) (unquiesceTarget b).
Proof using Type. unfold unquiesceTarget. quiet. Qed.
Lemma stopped_quiet gs ss p b : only (@quiet) (stoppedSource gs ss p b).
Proof using Type. unfold stoppedSource. quiet. Qed.
Lemma liveSource_quiet gs ss p : only (@quiet) (liveSource gs ss p).
Proof using Type. unfold liveSource. quiet. Qed.
Lemma serverTime_quiet b : only (@quiet) (recordServerBackupTime b).
Proof using Type. unfold recordServerBackupTime. quiet. Qed.
Lemma since_quiet j b : only (@quiet) (completedSince j b).
Proof using Type. unfold completedSince. quiet. Qed.
Lemma waiting_quiet j b : only (@quiet) (workerWaiting j b).
Proof using Type. unfold workerWaiting. quiet. Qed.
Lemma source_quiet b : only (@quiet) (readWorkerSource b).
Proof using Type. unfold readWorkerSource. quiet. Qed.
Lemma clearJob_quiet b : only (@quiet) (clearBackupJob b).
Proof using Type. unfold clearBackupJob. quiet. Qed.
Lemma pinned_quiet b : only (@quiet) (pinnedByRestore b).
Proof using Type. unfold pinnedByRestore. quiet. Qed.
#[local] Hint Resolve unquiesceTarget_quiet stopped_quiet liveSource_quiet serverTime_quiet since_quiet waiting_quiet source_quiet
  clearJob_quiet pinned_quiet : quietdb.
Lemma pass_check {A B} (p : P (result berr A)) (f : A -> P (result berr B)) Q s :
  safe p (fun r s' => match r with Ok a => safe (f a) Q s' | Err e => Q (Err e) s' end) s -> safe (pcheck p f) Q s.
Proof using Type. intros Hp. apply pass_bind. apply (pass_mono _ _ _ _ _ Hp). by intros [a|e] s'. Qed.
Lemma pass_call {A} (r : req A) (Q : result berr A -> st -> Prop) s : quiet r -> inv s ->
  (forall res s', inv s' -> evo s s' -> env r res s s' -> Q res s') -> safe (call r) Q s.
Proof using Type.
  intros Hq Hi HQ. split; [by apply quiet_pre|]. intros res s' He. destruct (quiet_env _ _ _ _ _ Hq Hi He) as [Hi' Hv].
  split; [done|]. by apply HQ.
Qed.
Lemma safe_find {A} (r : req A) (Q : result berr (option A) -> st -> Prop) s : quiet r -> inv s ->
  (forall res s', inv s' -> evo s s' -> env r res s s' ->
     Q (match res with Ok a => Ok (Some a) | Err NotFound => Ok None | Err e => Err e end) s') -> safe (find r) Q s.
Proof using Type. intros Hq Hi HQ. apply pass_bind. by apply pass_call. Qed.

(** What a program of quiet calls returns, whatever the answers. *)
Fixpoint allret {A} (p : P A) (R : A -> Prop) : Prop :=
  match p with Ret a => R a | Call _ k => forall r, allret (k r) R | OutOfFuel => True end.
Lemma allret_bind {A B} (p : P A) (f : A -> P B) R : allret p (fun a => allret (f a) R) -> allret (pbind p f) R.
Proof using Type. induction p as [a|C r k IH|]; cbn; auto. Qed.
Lemma allret_mono {A} (p : P A) (R R' : A -> Prop) : (forall a, R a -> R' a) -> allret p R -> allret p R'.
Proof using Type. intros HR. induction p as [a|C r k IH|]; cbn; auto. Qed.
Lemma allret_true {A} (p : P A) : allret p (fun _ => True).
Proof using Type. induction p; cbn; auto. Qed.
Lemma quiet_ret {A} (p : P A) R s : only (@quiet) p -> allret p R -> inv s -> safe p (fun a s' => inv s' /\ evo s s' /\ R a) s.
Proof using Type.
  revert s. induction p as [a|B r k IH|]; intros s Hq HR Hi; [by split; [|split; [apply evo_refl|]]| |done].
  destruct Hq as [Hr Hk]. split; [by apply quiet_pre|]. intros res s' He.
  destruct (quiet_env _ _ _ _ _ Hr Hi He) as [Hi' Hv]. split; [done|].
  apply (pass_mono _ _ _ _ _ (IH res s' (Hk res) (HR res) Hi')). intros a s'' (? & ? & ?). split_and!; [done|by eapply evo_trans|done].
Qed.

Lemma copyJobs_busy n u c jobs :
  allret (copyJobs n u c jobs) (fun r => forall x, r = Ok x -> x.2 = existsb (fun j => copyJobOf n u j && jobBusy j) jobs).
Proof using Type.
  induction jobs as [|j jobs IH]; cbn [copyJobs existsb]; [by intros x [= <-]|].
  destruct (copyJobOf n u j); cbn [negb]; [|done]. cbn [andb orb].
  apply allret_bind. eapply allret_mono; [|apply allret_true]. intros [_|e] _; [|done].
  apply allret_bind. eapply allret_mono; [|apply IH]. intros [y|e] Hy; [|done]. intros x [= <-]. cbn. by rewrite (Hy y).
Qed.

(** ** What a read shows *)

Local Ltac eend := split_and!; [done|eauto 8 using evo_trans|done].

Lemma near_same F b s : near F b s -> bVersion b = bVersion (pb s) ->
  bAnn b = bAnn (pb s) /\ bName b = bName (pb s) /\ bUID b = bUID (pb s) /\ bGeneration b = bGeneration (pb s) /\
  bServer b = bServer (pb s) /\ bQuiesce b = bQuiesce (pb s) /\ bDeleting b = bDeleting (pb s).
Proof using Type.
  intros (_ & _ & _ & N) E. destruct (N E) as (A & _). rewrite <- A. by split_and!.
Qed.
Lemma evo_eq b s s' : bVersion b <= bVersion (pb s) -> evo s s' -> bVersion b = bVersion (pb s') -> pb s' = pb s.
Proof using Type. intros Hb He E. destruct (later_version _ _ (e_pb _ _ He)) as [Hv Hs]. apply Hs. lia. Qed.

(** Seen idle: no copy Job and no worker of this Backup is left. *)
Lemma workers_idle b c s : inv s -> past b (pb s) ->
  safe (backupWorkersLive (bName b) (bUID b) c) (fun r s' => inv s' /\ evo s s' /\ (r = Ok false -> idleJobs s' = true /\ idlePods s' = true)) s.
Proof using Type.
  intros Hi Hp. unfold backupWorkersLive. apply pass_check.
  assert (Hfirst : only (@quiet) (if c then revokeBackupStart (bName b) (bUID b) else ok ())) by quiet.
  apply (pass_mono _ _ _ _ _ (quiet_safe _ _ _ Hfirst Hi)). intros [_|e] s1 [Hi1 He1]; [|eend].
  apply pass_check. apply pass_call; [done|done|]. intros [jobs|e] s2 Hi2 He2 (s2' & Ht2 & Hf2); [|eend].
  apply pass_check. apply (pass_mono _ _ _ _ _ (quiet_ret _ _ _ (copyJobs_quiet _ _ _ _) (copyJobs_busy _ _ _ _) Hi2)).
  intros [copies|e] s3 (Hi3 & He3 & Hb); [|eend]. specialize (Hb copies eq_refl).
  apply pass_check. apply pass_call; [done|done|]. intros [pods|e] s4 Hi4 He4 (s4' & Ht4 & Hf4); [|eend].
  destruct (copies.2 || existsb _ pods) eqn:Ebusy; [eend|].
  apply orb_false_iff in Ebusy as [Ej Ew].
  apply pass_call; [done|done|]. intros r s5 Hi5 He5 _. split_and!; [done|by eauto 7 using evo_trans|]. intros _.
  assert (Hn : forall s', evo s s' -> bName b = bName (pb s') /\ bUID b = bUID (pb s')).
  { intros s' He. destruct (past_trans _ _ _ Hp (past_later _ _ (e_pb _ _ He))) as (A & B & _). done. }
  destruct (tick_evo _ _ _ Hi1 Ht2) as [_ Hv2]. destruct (tick_evo _ _ _ Hi3 Ht4) as [_ Hv4].
  assert (He2' : evo s s2') by eauto using evo_trans. assert (He4' : evo s s4') by eauto 6 using evo_trans.
  split.
  - apply (e_jobs _ _ (evo_trans _ _ _ (evo_trans _ _ _ He3 He4) He5)). cbn in Hf2. subst s2. cbn.
    destruct (Hn _ He2') as [<- <-]. rewrite <- Hb, Ej. by rewrite orb_true_r.
  - apply (e_pods _ _ He5). cbn in Hf4. destruct Hf4 as [_ ->]. cbn. destruct (Hn _ He4') as [_ Hu].
    enough (existsb (ownWorker (pb s4')) pods = false) as -> by (by rewrite orb_true_r).
    apply not_true_is_false. intros Ht. rewrite existsb_exists in Ht. destruct Ht as (p & Hin & Hp').
    apply not_true_iff_false in Ew. apply Ew. apply existsb_exists. exists p. split; [done|].
    unfold ownWorker in Hp'. apply andb_true_iff in Hp' as [Hl Hl']. rewrite Hl', andb_true_r. unfold ownedWorker.
    rewrite Hu, Hl, andb_true_r.
    enough (String.eqb (bUID (pb s4')) "" = false) as -> by done. apply String.eqb_neq. intros E.
    rewrite <- Hu in E. destruct Hp as [Hp _]. rewrite Hp in E. pose proof (i_uid _ _ Hi) as Ht. by rewrite E in Ht.
Qed.
Lemma cleanup_idle b c s : inv s -> past b (pb s) ->
  safe (backupCleanupWorkersLive c b) (fun r s' => inv s' /\ evo s s' /\ (r = Ok false -> idleJobs s' = true /\ idlePods s' = true)) s.
Proof using Type.
  intros Hi Hp. unfold backupCleanupWorkersLive. apply pass_check.
  apply (pass_mono _ _ _ _ _ (quiet_safe _ _ _ (owned_quiet b) Hi)). intros [gs|e] s1 [Hi1 He1]; [|eend].
  apply pass_check. eapply pass_mono; [apply quiet_safe; [|exact Hi1]; quiet|].
  intros [ready|e] s2 [Hi2 He2]; [|eend].
  pose proof (evo_trans _ _ _ He1 He2) as He02.
  destruct ready; cbn [negb]; [|eend].
  assert (Hp2 : past b (pb s2)) by (eapply past_trans; [exact Hp|]; by apply past_later, He02).
  apply pass_check. apply (pass_mono _ _ _ _ _ (workers_idle b c s2 Hi2 Hp2)). intros [busy|e] s3 (Hi3 & He3 & Hidle); [|eend].
  destruct busy; [eend|]. destruct (Hidle eq_refl) as [I1 I2].
  eapply pass_mono; [apply quiet_safe; [|exact Hi3]; quiet|].
  intros r s4 [Hi4 He4]. split_and!; [done|by eauto using evo_trans|]. intros _. split; [by apply He4|by apply He4].
Qed.
(** The server is not this Backup's. *)
Definition unheld (b : backup) (s : st) : Prop := targetOf b = "" \/ held s = false.

Lemma owned_known F b s : inv s -> near F b s ->
  safe (getOwnedBackupTarget b) (fun r s' => inv s' /\ evo s s' /\
    match r with
    | Ok None => bVersion b = bVersion (pb s') -> unheld b s'
    | Ok (Some gs) => bVersion b = bVersion (pb s') ->
        ~ unheld b s' /\ gsName gs = bServer b /\ gann gs backupRecoveryLineageAnnotation = ""
    | Err _ => True
    end) s.
Proof using Type.
  intros Hi Hn. pose proof (evo_refl s) as Hr. unfold getOwnedBackupTarget.
  destruct (String.eqb_spec (bann b backupTargetAnnotation) "") as [Et|Et]; [split_and!; [done|done|]; intros _; by left|].
  destruct (parseIdentity _) as [[n u]|] eqn:Ep; [|done].
  apply pass_check. apply safe_find; [done|done|]. intros res s' Hi' He (s1 & Ht & Hf).
  destruct (tick_evo _ _ _ Hi Ht) as [_ He1]. cbn in Hf. destruct Hf as [-> Hf].
  assert (Hmine : bVersion b = bVersion (pb s1) -> pb s1 = pb s /\ n = bServer (pb s1) /\
            forall gs, ownsIt gs (pb s1) <->
              Lifecycle.ownedBackupTarget gs u (backupLifecycleIdentity gs (bName b) (bUID b) (bGeneration b) false) = Ok true).
  { intros E. pose proof (evo_eq _ _ _ (proj1 Hn) He1 E) as Ep1. rewrite Ep1 in E |- *.
    destruct (near_same _ _ _ Hn E) as (N1 & N2 & N3 & N4 & N5 & _). destruct (proj2 (proj2 (proj2 Hn)) E) as (_ & G & _).
    split_and!; [done|rewrite <- N5; by eapply (g_target _ _ _ _ G)|]. intros gs. unfold ownsIt, targetOf, bann. rewrite <- N1, <- N2, <- N3, <- N4.
    fold (bann b backupTargetAnnotation). rewrite Ep. split; [by intros (n' & u' & [= <- <-] & Ho)|]. intros Ho. by exists n, u. }
  destruct res as [gs|e].
  - destruct Hf as (F1 & F2 & F3). cbn beta iota. destruct (Lifecycle.ownedBackupTarget _ _ _) as [[]|] eqn:Eo; [| |by split_and!].
    + split_and!; [done|done|]. intros E. destruct (Hmine E) as (A & B & C). split_and!; [|by rewrite F1, B, A; symmetry; eapply near_same; [exact Hn|rewrite <- A]|done].
      intros [Hx|Hx]; [done|]. rewrite (proj1 (F3 B)) in Hx; [done|by apply C].
    + split_and!; [done|done|]. intros E. destruct (Hmine E) as (A & B & C). right. apply not_true_is_false. intros Hh.
      apply (F3 B), C in Hh. by rewrite Hh in Eo.
  - destruct e; try by split_and!. split_and!; [done|done|]. intros E. destruct (Hmine E) as (A & B & _). right. by apply Hf.
Qed.

(** An absent, replaced or ended process has saving on. *)
Lemma gone_known F b s : inv s -> near F b s ->
  safe (unquiesceTargetGone b) (fun r s' => inv s' /\ evo s s' /\ (r = Ok true -> bVersion b = bVersion (pb s') -> off s' = None)) s.
Proof using Type.
  intros Hi Hn. pose proof (evo_refl s) as Hr. unfold unquiesceTargetGone.
  assert (Hdebt : forall s' u, evo s s' -> bVersion b = bVersion (pb s') -> off s' = Some u ->
            targetOf b <> "" /\ (forall n' u', parseIdentity (targetOf b) = Some (n', u') -> n' = bServer (pb s')) /\
            exists p, parseBackupPreparation b = Ok (Some p) /\ pPodUID p = u).
  { intros s' u He E Hu. pose proof (evo_eq _ _ _ (proj1 Hn) He E) as Ep. rewrite Ep in E |- *.
    destruct (proj2 (proj2 (proj2 Hn)) E) as (A & G & _).
    destruct (near_same _ _ _ Hn E) as (_ & _ & _ & _ & N5 & _). rewrite <- N5.
    assert (Ho : off s = Some u) by (destruct (e_off _ _ He) as [<-|Ho]; [done|by rewrite Ho in Hu]).
    destruct (g_off _ _ _ _ G u Ho) as [(D1 & D2 & D3) Dp]. split_and!; [by apply (g_att _ _ _ _ G)|intros n' u'; apply (g_target _ _ _ _ G); by apply (g_att _ _ _ _ G)|done]. }
  assert (Hend : forall (r : result berr bool) s', inv s' -> evo s s' -> r <> Ok true ->
            inv s' /\ evo s s' /\ (r = Ok true -> bVersion b = bVersion (pb s') -> off s' = None)) by (intros; by split_and!).
  apply pass_check. cbv beta.
  destruct (String.eqb_spec (bann b backupTargetAnnotation) "") as [Et|Et]; [|destruct (parseIdentity _) as [[n u]|] eqn:Ep]; cbn [ok bad BackupFacts.safe fst]; [| |by apply Hend].
  - assert (Hnone : forall s', evo s s' -> bVersion b = bVersion (pb s') -> off s' = None).
    { intros s' He E. destruct (off s') as [u|] eqn:Eo; [|done]. by destruct (Hdebt s' u He E Eo) as (? & _). }
    eapply pass_mono; [apply quiet_safe; [|exact Hi]; quiet|]. intros r s' [Hi' He]. split_and!; [done|done|]. intros _. by apply Hnone.
  - destruct (String.eqb_spec n "") as [En|En].
    { split_and!; [done|done|]. intros _ E. destruct (off s) as [w|] eqn:Eo; [|done].
      unfold parseIdentity in Ep. destruct (unmarshalIdentity _) as [[n' u']|]; [|done]. destruct (String.eqb_spec n' ""); cbn in Ep; [done|].
      destruct (String.eqb u' ""); [done|]. by injection Ep as -> ->. }
    apply pass_check. unfold ofResult. destruct (parseBackupPreparation b) as [p|e] eqn:Epp; cbn [BackupFacts.safe]; [|by apply Hend].
    unfold backupQuiesceProcessGone. apply pass_check. apply safe_find; [done|done|]. intros res s' Hi' He (s1 & Ht & Hf).
    destruct (tick_evo _ _ _ Hi Ht) as [_ He1]. cbn in Hf. destruct Hf as [-> Hf].
    assert (Hwhen : forall u', bVersion b = bVersion (pb s1) -> off s1 = Some u' -> podOf p = u' /\
              match res with
              | Ok w => wpUID w = u' /\ (wpDeleting w = true \/ wpPhase w <> "Succeeded" /\ wpPhase w <> "Failed")
              | Err e => e <> NotFound
              end).
    { intros u' E Hu. destruct (Hdebt _ _ He E Hu) as (D1 & D2 & q & D3 & D4). injection D3 as ->. cbn. split; [done|].
      apply Hf; [|done]. by rewrite <- (D2 _ _ eq_refl). }
    assert (Hgone : forall g : bool, (g = true -> forall u', bVersion b = bVersion (pb s1) -> off s1 = Some u' -> False) ->
              inv s1 /\ evo s s1 /\ (Ok (E := berr) g = Ok true -> bVersion b = bVersion (pb s1) -> off s1 = None)).
    { intros g Hg. split_and!; [done|done|]. intros [= ->] E. destruct (off s1) as [u'|] eqn:Eo; [|done]. by destruct (Hg eq_refl u' E eq_refl). }
    destruct res as [w|[]]; cbn [BackupFacts.safe ok]; try (by apply Hend).
    + destruct (negb (String.eqb (podOf p) "") && negb (String.eqb (wpUID w) (podOf p))) eqn:Ed; apply Hgone; intros Eg u' E Hu;
        destruct (Hwhen u' E Hu) as (W1 & W2 & W3); rewrite W1, W2 in Ed.
      * by rewrite String.eqb_refl, andb_false_r in Ed.
      * apply andb_true_iff in Eg as [Eg1 Eg2]. apply orb_true_iff in Eg2. rewrite !String.eqb_eq in Eg2.
        destruct W3 as [W3|[W3 W4]]; [by rewrite W3 in Eg1|]. by destruct Eg2.
    + apply Hgone. intros _ u' E Hu. by destruct (Hwhen u' E Hu) as (_ & W).
Qed.

Lemma giveBack_known F b s : inv s -> near F b s ->
  safe (giveBackTarget b) (fun r s' => inv s' /\ evo s s' /\ (r = Ok () -> bVersion b = bVersion (pb s') -> unheld b s')) s.
Proof using Type.
  intros Hi Hn. unfold giveBackTarget. apply pass_check.
  apply (pass_mono _ _ _ _ _ (owned_known F b s Hi Hn)). intros [[gs|]|e] s1 (Hi1 & He1 & Hk); [| |by split_and!]; [|by split_and!].
  apply pass_check. apply pass_call; [done|done|]. intros [gs'|e] s2 Hi2 He2 _; [|eend].
  apply pass_call; [done|done|]. intros r s3 Hi3 He3 (s3' & Ht & Hf). destruct (tick_evo _ _ _ Hi2 Ht) as [_ Hv3].
  split_and!; [done|by eauto using evo_trans|]. intros -> E. right. cbn in Hf.
  destruct Hf as [[_ Hf]|(h & -> & Hh & Hg)]; [done|]. cbn. apply Hg. cbn.
  unfold gann, ann. cbn. rewrite lookup_delete_ne by done. rewrite lookup_delete_eq. cbn. by apply not_eq_sym, identity_nonempty.
Qed.
(** ** Changes in memory *)

Definition sync (b : backup) (s : st) : Prop := sPhase (bStatus b) = sPhase (bStatus (pb s)).
(** A fact that the rest of a pass does not destroy. *)
Definition sound (F : backup -> st -> Prop) : Prop :=
  forall b s b' s', mcore b' = mcore b -> sPhase (bStatus b') = sPhase (bStatus b) -> side s s' ->
    (sPhase (bStatus (pb s')) = sPhase (bStatus (pb s)) \/ sync b' s') -> F b s -> F b' s'.
Lemma sound_steady F : sound F -> steady F.
Proof using Type. intros HF b s s' He Ep Hb. eapply HF; [done|done|by apply side_evo| |exact Hb]. left. by rewrite Ep. Qed.
Lemma side_refl s : side s s.
Proof using Type. by split_and!; auto. Qed.
Definition keep (F : backup -> st -> Prop) (b b' : backup) (s : st) : Prop :=
  past b b' /\ mcore b' = mcore b /\ sPhase (bStatus b') = sPhase (bStatus b) /\ near F b' s.

(** A new copy may be started for the Backup. *)
Definition live (b : backup) (s : st) : Prop := bDeleting b = false /\ aborted b = "" /\ ~ failed b /\ sync b s.
Lemma core_eqs b b' : mcore b' = mcore b -> bDeleting b' = bDeleting b /\ bQuiesce b' = bQuiesce b /\ attempted b' = attempted b /\
  aborted b' = aborted b /\ targetOf b' = targetOf b /\ bann b' backupPreparationAnnotation = bann b backupPreparationAnnotation.
Proof using Type. unfold mcore. intros [= E1 E2 E3 E4 E5 E6]. by split_and!. Qed.
Lemma sync_sound b s b' s' : sPhase (bStatus b') = sPhase (bStatus b) ->
  (sPhase (bStatus (pb s')) = sPhase (bStatus (pb s)) \/ sync b' s') -> sync b s -> sync b' s'.
Proof using Type. unfold sync. intros E1 [E2|E2] E3; congruence. Qed.
Lemma live_sound : sound live.
Proof using Type.
  intros b s b' s' Hc Hp _ Hs (L1 & L2 & L3 & L4). apply core_eqs in Hc as (C1 & C2 & C3 & C4 & C5 & C6). unfold live, failed.
  rewrite C1, C4, Hp. split_and!; [done..|by eapply sync_sound].
Qed.
Lemma core_sound (G : backup -> Prop) : (forall b b', mcore b' = mcore b -> G b -> G b') -> sound (fun b _ => G b).
Proof using Type. intros HG b s b' s' Hc _ _ _. by apply HG. Qed.
Lemma and_sound F G : sound F -> sound G -> sound (fun b s => F b s /\ G b s).
Proof using Type. intros HF HG b s b' s' A B C D [? ?]. split; [by eapply HF|by eapply HG]. Qed.
Lemma or_sound F G : sound F -> sound G -> sound (fun b s => F b s \/ G b s).
Proof using Type. intros HF HG b s b' s' A B C D [?|?]; [left; by eapply HF|right; by eapply HG]. Qed.
Lemma unheld_sound : sound unheld.
Proof using Type.
  intros b s b' s' Hc _ (_ & _ & Hh & _) _ [E|E]; apply core_eqs in Hc as (_ & _ & _ & _ & C & _); [left; by rewrite C|right].
  apply not_true_is_false. intros Ht. by rewrite (Hh Ht) in E.
Qed.
Lemma off_sound : sound (fun _ s => off s = None).
Proof using Type. intros b s b' s' _ _ ([-> | ->] & _) _; auto. Qed.
Definition ready (b : backup) (s : st) : Prop := settled b \/ (closing b /\ sync b s).
Lemma closing_core b b' : mcore b' = mcore b -> sPhase (bStatus b') = sPhase (bStatus b) -> closing b -> closing b'.
Proof using Type. intros Hc Hp. apply core_eqs in Hc as (C1 & _ & _ & C4 & _). unfold closing, failed. by rewrite C1, C4, Hp. Qed.
Lemma ready_sound : sound ready.
Proof using Type.
  apply or_sound; [apply core_sound, settled_core|]. intros b s b' s' Hc Hp _ Hs [Hx Hy]. split; [by eapply closing_core|by eapply sync_sound].
Qed.

(** Another status of the same phase, or a failed one. *)
Lemma good_phase o g p st0 : good o g p -> sPhase st0 = sPhase (bStatus p) -> good o g (with_bstatus p st0).
Proof using Type.
  intros [G1 G2 G3 G4 G5 G6 G7] E. split; try done.
  - intros Hu. destruct (G2 Hu) as [Ha|[Ha|[Ha|Ha]]]; [by left|by right; left|by right; right; left|]. right. right. right. unfold failed in *. cbn. by rewrite E.
  - cbn. rewrite E. done.
Qed.
Lemma good_failed o g p st0 : good o g p -> sPhase st0 = "Failed" -> good o g (with_bstatus p st0).
Proof using Type.
  intros [G1 G2 G3 G4 G5 G6 G7] E. split; try done.
  - intros Hu. right. right. right. done.
  - cbn. rewrite E. intros [Ha|Ha]; [apply G4; by left|done].
Qed.
Lemma near_status F b s st0 : sound F -> near F b s -> sPhase st0 = sPhase (bStatus b) -> near F (with_bstatus b st0) s.
Proof using Type.
  intros HF (N1 & N2 & [N3 N5] & N4) E. split_and!; [done..|split; [done|by apply good_phase]|]. intros Ev. destruct (N4 Ev) as (A & B & C).
  split_and!; [done|by apply good_phase|]. eapply HF; [| | | |exact C]; [done|done|apply side_refl|by left].
Qed.
Lemma near_failed F b s st0 : near F b s -> sPhase st0 = "Failed" -> near (fun x _ => mcore x = mcore b /\ failed x) (with_bstatus b st0) s.
Proof using Type.
  intros (N1 & N2 & [N3 N5] & N4) E. split_and!; [done..|split; [done|by apply good_failed]|]. intros Ev. destruct (N4 Ev) as (A & B & C).
  split_and!; [done|by apply good_failed|done|done].
Qed.
Lemma coh_status b s st0 : coh b s -> sPhase st0 = "Failed" \/ sPhase st0 = sPhase (bStatus b) -> coh (with_bstatus b st0) s.
Proof using Type.
  intros (C1 & C2 & C3) E. split_and!; [done..|]. intros Ev. destruct (C3 Ev) as (A & B & C & D). split_and!; [done..|].
  change (with_bstatus (pb s) (bStatus (with_bstatus b st0))) with (with_bstatus (with_bstatus (pb s) (bStatus b)) st0).
  destruct E as [E|E]; [by apply good_failed|by apply good_phase].
Qed.

(** Annotations. *)
Definition watched : list string :=
  [annoQuiesceAttempted; annoUnquiescedAt; backupAuthorizedWorkerAnnotation; backupCopyAbortAnnotation; backupTargetAnnotation;
   backupPreparationAnnotation; backupQuiesceDeadlineAnnotation; backupRecoveryAnnotation; backupSnapshotAbortAnnotation].
Lemma bann_patch_ne k v b k' : k <> k' -> bann (patch k v b) k' = bann b k'.
Proof using Type. intros Hk. unfold bann, ann, patch. cbn. by rewrite lookup_insert_ne. Qed.
Lemma bann_patch k v b : bann (patch k v b) k = v.
Proof using Type. unfold bann, ann, patch. cbn. by rewrite lookup_insert_eq. Qed.
Lemma unq_ne k v b : k <> annoUnquiescedAt -> bAnn (patch k v b) !! annoUnquiescedAt = bAnn b !! annoUnquiescedAt.
Proof using Type. intros Hk. unfold patch. cbn. by rewrite lookup_insert_ne. Qed.
Lemma bann_same b b' k : bAnn b' !! k = bAnn b !! k -> bann b' k = bann b k.
Proof using Type. unfold bann, ann. by intros ->. Qed.
Lemma prep_same b b' : bann b' backupPreparationAnnotation = bann b backupPreparationAnnotation -> parseBackupPreparation b' = parseBackupPreparation b.
Proof using Type. unfold parseBackupPreparation. by intros ->. Qed.
Lemma good_neutral o g k v p : k ∉ watched -> good o g p -> good o g (patch k v p).
Proof using Type.
  intros Hk Hg. unfold watched in Hk. rewrite !not_elem_of_cons in Hk. destruct Hk as (K1 & K2 & K3 & K4 & K5 & K6 & K7 & K8 & K9 & _).
  pose proof (prep_same p (patch k v p) (bann_patch_ne _ _ _ _ K6)) as Hp.
  assert (Hs : settled p -> settled (patch k v p)).
  { unfold BackupFacts.settled, sourceStopped, attempted. by rewrite Hp, bann_patch_ne. }
  destruct Hg as [G1 G2 G3 G4 G5 G6 G7]. split; unfold owes, closing, attempted, authorized, aborted, targetOf, copyDeadline in *.
  - intros u Hu. rewrite Hp, !bann_patch_ne, unq_ne by done. by apply G1.
  - rewrite !bann_patch_ne, unq_ne by done. done.
  - rewrite Hp, !bann_patch_ne by done. done.
  - rewrite bann_patch_ne by done. cbn. auto.
  - rewrite !bann_patch_ne by done. done.
  - rewrite !bann_patch_ne by done. done.
  - rewrite !bann_patch_ne by done. done.
Qed.
Lemma mcore_neutral k v b : k ∉ watched -> mcore (patch k v b) = mcore b.
Proof using Type.
  intros Hk. unfold watched in Hk. rewrite !not_elem_of_cons in Hk. destruct Hk as (K1 & K2 & K3 & K4 & K5 & K6 & K7 & K8 & K9 & _).
  unfold mcore, attempted, aborted, targetOf. by rewrite !bann_patch_ne by done.
Qed.
Lemma past_patch k v b : k <> backupAuthorizedWorkerAnnotation -> k <> backupQuiesceDeadlineAnnotation -> past b (patch k v b).
Proof using Type. intros K1 K2. unfold past, authorized, copyDeadline. rewrite !bann_patch_ne by done. done. Qed.
Lemma restic_patch k v b : restic b -> k <> backupSnapshotAbortAnnotation -> restic (patch k v b).
Proof using Type. intros [R1 R2] K. split; [done|]. by rewrite bann_patch_ne. Qed.
Lemma coh_patch F k v b s : inv s -> near F b s -> k <> backupAuthorizedWorkerAnnotation -> k <> backupQuiesceDeadlineAnnotation ->
  k <> backupSnapshotAbortAnnotation ->
  (bVersion b = bVersion (pb s) -> good (off s) (gt s) b -> F b s -> good (off s) (gt s) (patch k v (pb s))) -> coh (patch k v b) s.
Proof using Type.
  intros Hi (N1 & N2 & [N3 _] & N4) K1 K2 K3 Hg. split_and!; [done|by apply restic_patch|]. intros Ev. destruct (N4 Ev) as (A & B & C).
  specialize (Hg Ev B C).
  assert (E : with_bstatus (patch k v b) (bStatus (pb s)) = patch k v (pb s)) by (by rewrite <- A).
  assert (E2 : with_bstatus (pb s) (bStatus (patch k v b)) = b) by (rewrite <- A; by destruct b).
  split_and!; [by rewrite <- A|rewrite <- A; by apply (past_patch k v b)|by rewrite E|by rewrite E2].
Qed.
(** ** Writes *)

Lemma keep_refl F b s : near F b s -> keep F b b s.
Proof using Type. intros Hn. split_and!; [apply past_refl|done..]. Qed.

(** After a successful update the stored object is the one in memory. *)
Lemma update_bind {B} (k : unit -> M B) (Po : B -> backup -> st -> Prop) b s : inv s -> coh b s ->
  (forall s', inv s' -> side s s' -> bVersion b = bVersion (pb s) ->
     (exists v, pb s' = set_stored (with_bstatus b (bStatus (pb s))) v (bDeleting b)) -> safe (k () (pb s')) (fin Po cohE) s') ->
  safe (mbind update k b) (fin Po cohE) s.
Proof using Type.
  intros Hi Hc Hk. apply pass_bind. apply (pass_mono _ _ _ _ _ (update_safe _ _ _ Hi Hc)).
  intros [b' [[]|e]] s' (Hi' & Hs & Hx); cbn in Hx |- *; [|by destruct Hx as (-> & Hx & _)].
  destruct Hx as (-> & Ev & Hx). by apply Hk.
Qed.
Lemma bind_ret {A} (m : M A) b Q s : safe (mbind m mret b) Q s -> safe (m b) Q s.
Proof using Type.
  unfold mbind, mcatch. generalize (m b). clear. intros p. revert s. induction p as [[b' [a|e]]|B r k IH|]; intros s; cbn; auto.
  intros [Hp Hk]. split; [done|]. intros res s' He. destruct (Hk res s' He) as [? ?]. split; [done|]. by apply IH.
Qed.
Lemma updateStatus_specE F : sound F -> specE updateStatus (near F) (fun b _ => keep (fun x t => F x t /\ sync x t) b)
  (fun b _ b' s' => b' = b /\ near F b s').
Proof using Type.
  intros HF b s Hi Hn. apply (pass_mono _ _ _ _ _ (updateStatus_safe _ _ _ Hi (near_coh _ _ _ _ Hi Hn))).
  intros [b' [[]|e]] s' (Hi' & Hs & Hx); split; try done; cbn in Hx |- *.
  2:{ destruct Hx as (-> & _ & Hv & Hp). split; [done|]. destruct Hn as (N1 & N2 & N3 & N4).
      split_and!; [destruct Hv as [->|Hv]; lia|by eapply past_trans|done|]. intros Ev. destruct Hv as [Ep|Hv]; [|lia]. rewrite Ep in Ev |- *.
      destruct (N4 Ev) as (A & B & C). split_and!; [done|eapply good_less; [apply Hs|apply Hs|done]|]. eapply HF; [done|done|exact Hs| |exact C].
      left. by rewrite Ep. }
  destruct Hx as (-> & Ev & v & Ep). destruct Hn as (N1 & N2 & N3 & N4). destruct (N4 Ev) as (A & B & C).
  assert (Eb : with_bstatus (pb s) (bStatus b) = b) by (rewrite <- A; by destruct b). rewrite Eb in Ep.
  assert (Em : mcore (pb s') = mcore b) by (rewrite Ep; by rewrite <- A).
  assert (Eph : sPhase (bStatus (pb s')) = sPhase (bStatus b)) by (by rewrite Ep).
  split_and!; [rewrite Ep; by split_and!|done|done|]. apply near_stored; [done|]. split; [|done].
  eapply HF; [exact Em|exact Eph|exact Hs| |exact C]. right. by unfold sync.
Qed.
Lemma updateStatus_spec F : sound F -> spec updateStatus (near F) (fun b _ => keep (fun x t => F x t /\ sync x t) b).
Proof using Type.
  intros HF b s Hi Hn. apply (pass_mono _ _ _ _ _ (updateStatus_specE F HF b s Hi Hn)).
  intros [b' [[]|e]] s' [Hi' Hx]; split; try done. cbn in Hx |- *. destruct Hx as [-> Hx]. by eapply near_coh.
Qed.
Lemma status_spec F st0 : sound F ->
  spec (do! putStatus st0; updateStatus) (fun b s => near F b s /\ sPhase (st0 (bStatus b)) = sPhase (bStatus b)) (fun b _ => keep (fun x t => F x t /\ sync x t) b).
Proof using Type.
  intros HF b s Hi [Hn E].
  change ((do! putStatus st0; updateStatus) b) with (updateStatus (with_bstatus b (st0 (bStatus b)))).
  apply (pass_mono _ _ _ _ _ (updateStatus_spec F HF _ s Hi (near_status _ _ _ _ HF Hn E))).
  intros [b' [[]|e]] s' [Hi' Hx]; split; try done. cbn in Hx |- *. destruct Hx as (X1 & X2 & X3 & X4).
  split_and!; [done|done|by rewrite X3|done].
Qed.
Lemma upsert_spec c F : sound F -> spec (upsertChanged c) (near F) (fun b _ => keep F b).
Proof using Type.
  intros HF b s Hi Hn. unfold upsertChanged. apply req_bind; [done|done|by eapply near_coh|]. intros t s1 Hi1 He1.
  pose proof (near_evo _ _ _ _ _ (sound_steady _ HF) Hn He1) as Hn1. unfold mask. case_match; [split; [done|]; by apply keep_refl|].
  eapply spec_use; [apply (status_spec F); exact HF|done|by split|]. intros [] b' s' Hi' (X1 & X2 & X3 & X4). split_and!; [done..|].
  apply (near_mono _ _ _ _ _ X4). by intros _ _ [? _].
Qed.
Lemma upsert_coh c : spec (upsertChanged c) coh (fun _ _ => coh).
Proof using Type.
  intros b s Hi Hc. unfold upsertChanged. apply req_bind; [done|done|done|]. intros t s1 Hi1 He1.
  pose proof (coh_evo _ _ _ _ Hc He1) as Hc1. unfold mask. case_match; [by split|].
  match goal with |- safe ((do! putStatus ?f; updateStatus) b) _ _ => change ((do! putStatus f; updateStatus) b) with (updateStatus (with_bstatus b (f (bStatus b)))) end.
  eapply pass_mono; [apply updateStatus_safe; [done|]; apply coh_status; [done|by right]|].
  intros [b' [[]|e]] s' (Hi' & Hs & Hx); split; try done; cbn in Hx |- *; [|by destruct Hx as (-> & Hx & _)].
  destruct Hx as (-> & _). by apply coh_stored.
Qed.

(** [fail] *)
Lemma upsertNow_eq {B} c (k : unit -> M B) (Po : B -> backup -> st -> Prop) b s : inv s -> coh b s ->
  (forall t s', inv s' -> evo s s' ->
     safe (k () (with_bstatus b (put_conditions (bStatus b) (upsertCondition (sConditions (bStatus b)) (c b) t)))) (fin Po cohE) s') ->
  safe (mbind (upsertNow c) k b) (fin Po cohE) s.
Proof using Type.
  intros Hi Hc Hk. unfold upsertNow. apply pass_bind. eapply pass_mono; [apply (req_bind cfg Now); [done|done|done|]; intros t s' Hi' He|].
  - instantiate (1 := fun _ b' s' => inv s' /\ safe (k () b') (fin Po cohE) s'). cbn. split; [done|]. split; [done|]. by apply Hk.
  - intros [b' [[]|e]] s' [Hi' Hx]; cbn in *; [by destruct Hx|by split].
Qed.
Lemma fail_near F msg : spec (fail msg) (near F) (fun b _ b' s' => past b b' /\ mcore b' = mcore b /\ near (fun x t => failed x /\ sync x t) b' s').
Proof using Type.
  intros b s Hi Hn. unfold fail. apply req_bind; [done|done|by eapply near_coh|]. intros now s1 Hi1 He1.
  assert (Hn1 : near (fun _ _ => True) b s1).
  { eapply near_evo; [| |exact He1]; [by intros ?|]. by apply (near_mono _ _ _ _ _ Hn). }
  set (f := fun (x : backup) (_ : st) => mcore x = mcore b /\ failed x).
  match goal with |- safe (mbind (mput ?g) ?k b) _ _ => change (mbind (mput g) k b) with (k () (g b)); set (b1 := g b) end. cbv beta.
  assert (Hb1 : near f b1 s1) by (by apply (near_failed _ _ _ _ Hn1)).
  assert (Hf : sound f).
  { intros x t x' t' A B _ _ [C D]. split; [congruence|]. unfold failed in *. congruence. }
  assert (Pb1 : past b b1) by by split_and!. assert (Mb1 : mcore b1 = mcore b) by done.
  clearbody b1. apply upsertNow_eq; [done|by eapply near_coh|]. intros t2 s2 Hi2 He2.
  pose proof (near_evo _ _ _ _ _ (sound_steady _ Hf) Hb1 He2) as Hb2.
  apply upsertNow_eq; [done|apply coh_status; [by eapply near_coh|by right]|]. intros t3 s3 Hi3 He3.
  match goal with |- safe (mbind updateStatus _ ?x) _ _ => set (b3 := x) end.
  assert (Hb3 : near f b3 s3).
  { apply near_status; [done| |done]. eapply near_evo; [by apply sound_steady| |exact He3]. by apply near_status. }
  eapply spec_bind; [apply (updateStatus_spec f Hf)|done|done|]. intros [] b' s' Hi' (X1 & X2 & X3 & X4).
  split; [done|]. split_and!; [by eapply past_trans|exact (eq_trans X2 Mb1)|]. apply (near_mono _ _ _ _ _ X4). intros _ _ ((Y1 & Y2) & Y3). done.
Qed.
Lemma fail_coh msg : spec (fail msg) coh (fun _ _ => coh).
Proof using Type.
  intros b s Hi Hc. unfold fail. apply req_bind; [done|done|done|]. intros now s1 Hi1 He1.
  pose proof (coh_evo _ _ _ _ Hc He1) as Hc1.
  match goal with |- safe (mbind (mput ?g) ?k b) _ _ => change (mbind (mput g) k b) with (k () (g b)) end. cbv beta.
  apply upsertNow_eq; [done|apply coh_status; [done|by left]|]. intros t2 s2 Hi2 He2.
  apply upsertNow_eq; [done|eapply coh_evo; [|exact He2]; apply coh_status; [apply coh_status; [done|by left]|by right]|]. intros t3 s3 Hi3 He3.
  assert (Hc3 : coh b s3) by eauto using coh_evo.
  apply pass_bind. eapply pass_mono; [apply updateStatus_safe; [done|]|].
  - apply coh_status; [|by right]. apply coh_status; [|by right]. apply coh_status; [done|by left].
  - intros [b' [[]|e]] s' (Hi' & Hs & Hx); split; try done; cbn in Hx |- *; [|by destruct Hx as (-> & Hx & _)].
    destruct Hx as (-> & _). by apply coh_stored.
Qed.
(** ** Deadlines *)

Definition deadlineKey (key : string) : Prop := key ∉ watched \/ key = backupQuiesceDeadlineAnnotation.
Lemma deadline_patch key v b : deadlineKey key -> bann b key = "" -> mcore (patch key v b) = mcore b /\ past b (patch key v b).
Proof using Type.
  intros [Hk| ->] E.
  - split; [by apply mcore_neutral|]. unfold watched in Hk. rewrite !not_elem_of_cons in Hk.
    destruct Hk as (K1 & K2 & K3 & K4 & K5 & K6 & K7 & K8 & K9 & _). by apply past_patch.
  - split; [unfold mcore, attempted, aborted, targetOf; by rewrite !bann_patch_ne by done|].
    unfold past, authorized, copyDeadline. rewrite bann_patch_ne by done. rewrite E. by split_and!.
Qed.
Lemma good_deadline o g key v p : deadlineKey key -> bann p key = "" -> good o g p -> good o g (patch key v p).
Proof using Type.
  intros [Hk| ->] E Hg; [by apply good_neutral|].
  assert (Hp : parseBackupPreparation (patch backupQuiesceDeadlineAnnotation v p) = parseBackupPreparation p) by (by apply prep_same, bann_patch_ne).
  destruct Hg as [G1 G2 G3 G4 G5 G6 G7].
  assert (Eg : g = "") by (destruct (decide (g = "")) as [|Hn]; [done|]; by destruct (G5 Hn) as (_ & Hc & _)).
  split; unfold owes, closing, BackupFacts.settled, sourceStopped, attempted, authorized, aborted, targetOf in *.
  - intros u Hu. rewrite Hp, !bann_patch_ne, unq_ne by done. by apply G1.
  - rewrite !bann_patch_ne, unq_ne by done. done.
  - rewrite Hp, !bann_patch_ne by done. done.
  - rewrite Hp, !bann_patch_ne by done. done.
  - by rewrite Eg.
  - rewrite !bann_patch_ne by done. done.
  - rewrite !bann_patch_ne by done. done.
Qed.
Lemma coh_deadline F key v b s : inv s -> near F b s -> deadlineKey key -> key <> backupSnapshotAbortAnnotation -> bann b key = "" -> coh (patch key v b) s.
Proof using Type.
  intros Hi (N1 & N2 & [N3 _] & N4) Hk Hr E. split_and!; [done|by apply restic_patch|]. intros Ev. destruct (N4 Ev) as (A & B & C).
  destruct (deadline_patch key v b Hk E) as [_ Hp].
  assert (E1 : with_bstatus (patch key v b) (bStatus (pb s)) = patch key v (pb s)) by (by rewrite <- A).
  assert (E2 : with_bstatus (pb s) (bStatus (patch key v b)) = b) by (rewrite <- A; by destruct b).
  split_and!; [by rewrite <- A|rewrite <- A; done| |by rewrite E2]. rewrite E1. apply good_deadline; [done| |apply Hi]. by rewrite <- A.
Qed.
Lemma denotes_format t : denotes (formatNano t) t.
Proof using Type. by left. Qed.
Lemma deadline_spec F key budget : sound F -> (forall b s, F b s -> sync b s) -> deadlineKey key -> key <> backupSnapshotAbortAnnotation ->
  key <> backupCopyAbortAnnotation ->
  specE (backupDeadline key budget) (near F)
    (fun b t b' s' => keep F b b' s' /\ bann b' key <> "" /\ denotes (bann b' key) t)
    (fun b _ b' s' => coh b' s' /\ aborted b' = aborted b).
Proof using Type.
  intros HF Hsync Hk Hr Ha b s Hi Hn. unfold backupDeadline, mask.
  destruct (String.eqb_spec (bann b key) "") as [E|E]; cbn [negb].
  - apply req_catch; [done|done|]. intros [now|e] s1 Hi1 He1.
    2:{ split; [done|]. cbn. split; [|done]. apply (coh_evo cfg b s); [by eapply near_coh|done]. }
    pose proof (near_evo _ _ _ _ _ (sound_steady _ HF) Hn He1) as Hn1.
    set (b1 := patch key (formatNano (now + budget)) b).
    match goal with |- safe ?p _ _ => change p with ((do! update; mret (now + budget)) b1) end.
    destruct (deadline_patch key (formatNano (now + budget)) b Hk E) as [M1 M2]. fold b1 in M1, M2.
    pose proof (coh_deadline _ key (formatNano (now + budget)) _ _ Hi1 Hn1 Hk Hr E) as Hc1. fold b1 in Hc1.
    apply pass_bind. apply (pass_mono _ _ _ _ _ (update_safe _ _ _ Hi1 Hc1)).
    intros [b' [[]|e]] s' (Hi' & Hs & Hx); cbn in Hx |- *; split; try done; cbn.
    + destruct Hx as (-> & Ev & v & Ep). destruct (proj2 (proj2 (proj2 Hn1)) Ev) as (A & B & C).
      assert (Eph : sPhase (bStatus (pb s1)) = sPhase (bStatus b)) by (symmetry; by apply Hsync).
      assert (Hb : bann (pb s') key = formatNano (now + budget)) by (rewrite Ep; apply (bann_patch key _ b)).
      assert (Hm : mcore (pb s') = mcore b) by (by rewrite Ep).
      assert (Hph : sPhase (bStatus (pb s')) = sPhase (bStatus b)) by (by rewrite Ep).
      split.
      * split_and!; [by rewrite Ep|done|done|]. apply near_stored; [done|].
        eapply HF; [exact Hm|exact Hph|exact Hs| |exact C]. left. by rewrite Hph, Eph.
      * rewrite Hb. split; [apply nano_nonempty|apply denotes_format].
    + destruct Hx as (-> & Hx & _). split; [done|]. unfold aborted, b1. by rewrite bann_patch_ne.
  - destruct (parseNano (bann b key)) as [t|] eqn:Et; cbn; split; try done; cbn.
    + split; [by apply keep_refl|]. split; [done|]. by right.
    + split; [by eapply near_coh|done].
Qed.

(** ** Save-on *)

Lemma settled_true o g b : good o g b -> settled b -> attempted b <> "" -> attempted b <> "unsupported" -> attempted b = "true".
Proof using Type.
  intros Hg Hs A1 A2. destruct (g_att _ _ _ _ Hg A1) as (_ & Q1 & Q2 & _ & p & Q3 & Q4).
  destruct Hs as [Hs|[Hs|[(q & S1 & S2)|[Hs|Hs]]]]; [done|done| |congruence|congruence].
  rewrite Q3 in S1. injection S1 as <-. by rewrite S2 in Q4.
Qed.
Lemma good_unq g v p : good None g p -> attempted p = "true" \/ closing p -> good None g (patch annoUnquiescedAt v p).
Proof using Type.
  intros Hg Ha.
  assert (Hp : parseBackupPreparation (patch annoUnquiescedAt v p) = parseBackupPreparation p) by (by apply prep_same, bann_patch_ne).
  destruct Hg as [G1 G2 G3 G4 G5 G6 G7].
  split; unfold owes, closing, BackupFacts.settled, sourceStopped, attempted, authorized, copyDeadline, aborted, targetOf in *.
  - done.
  - intros _. rewrite !bann_patch_ne by done. done.
  - rewrite Hp, !bann_patch_ne by done. done.
  - rewrite Hp, !bann_patch_ne by done. done.
  - rewrite !bann_patch_ne by done. done.
  - rewrite !bann_patch_ne by done. done.
  - rewrite !bann_patch_ne by done. done.
Qed.

(** What is known when the save-on is recorded. *)
Definition restored (b : backup) (s : st) : Prop := (attempted b = "true" \/ (closing b /\ sync b s)) /\ off s = None.
Lemma restored_sound : sound restored.
Proof using Type.
  apply and_sound; [|apply off_sound]. apply or_sound.
  - apply (core_sound (fun b => attempted b = "true")). intros b b' Hc. apply core_eqs in Hc as (_ & _ & C & _). by rewrite C.
  - intros b s b' s' Hc Hp _ Hs [Hx Hy]. split; [by eapply closing_core|by eapply sync_sound].
Qed.
(** A fact that survives an update, which brings the stored status with it. *)
Definition upd (F : backup -> st -> Prop) : Prop :=
  forall b s s', mcore (pb s') = mcore b -> sPhase (bStatus (pb s')) = sPhase (bStatus (pb s)) -> side s s' -> F b s -> F (pb s') s'.
Lemma closed_sound : sound (fun b s => closing b /\ sync b s).
Proof using Type. intros b s b' s' Hc Hp _ Hs [Hx Hy]. split; [by eapply closing_core|by eapply sync_sound]. Qed.
Lemma closed_upd : upd (fun b s => closing b /\ sync b s).
Proof using Type. intros b s s' Hm Hp _ [Hx Hy]. split; [|done]. eapply closing_core; [exact Hm| |done]. by rewrite Hp. Qed.
Lemma ready_upd : upd ready.
Proof using Type. intros b s s' Hm Hp Hs [Hx|Hx]; [left; by eapply settled_core|right]. by eapply (closed_upd b s). Qed.
Definition noted (b0 b : backup) : Prop := b = b0 \/ b = patch backupCleanupOutcomeAnnotation "source-gone" b0.
Lemma record_safe F b0 b s : sound F -> upd F -> inv s -> near (fun x t => restored x t /\ F x t) b0 s -> noted b0 b ->
  safe (recordBackupUnquiesced b) (fin (fun _ b' s' => past b0 b' /\ mcore b' = mcore b0 /\ near F b' s') cohE) s.
Proof using Type.
  intros HF HU Hi Hn Hb. set (R := fun x t => restored x t /\ F x t) in *.
  assert (HR : sound R) by (by apply and_sound; [apply restored_sound|]).
  assert (Hcoh : forall s', inv s' -> near R b0 s' -> coh b s').
  { intros s' Hi' Hn'. destruct Hb as [-> | ->]; [by eapply near_coh|]. eapply coh_patch; [done|exact Hn'|done..|]. intros _ _ _. apply good_neutral; [vm_compute; set_solver|apply Hi']. }
  unfold recordBackupUnquiesced. apply lift_bind; [apply intend_quiet|done|by apply Hcoh|]. intros [] s1 Hi1 He1.
  pose proof (near_evo _ _ _ _ _ (sound_steady _ HR) Hn He1) as Hn1.
  apply req_bind; [done|done|by apply Hcoh|]. intros now s2 Hi2 He2.
  pose proof (near_evo _ _ _ _ _ (sound_steady _ HR) Hn1 He2) as Hn2.
  match goal with |- safe (mbind (mput ?g) ?k b) _ _ => change (mbind (mput g) k b) with (update (g b)) end.
  set (b1 := patch annoUnquiescedAt (formatSeconds now) b).
  assert (Hm : mcore b1 = mcore b0 /\ past b0 b1 /\ bVersion b1 = bVersion b0 /\ bDeleting b1 = bDeleting b0).
  { unfold b1. destruct Hb as [-> | ->]; unfold mcore, attempted, aborted, targetOf, past, authorized, copyDeadline; by rewrite !bann_patch_ne by done. }
  destruct Hm as (M1 & M2 & M3 & M4).
  assert (Hc1 : coh b1 s2).
  { pose proof Hn2 as (N1 & N2 & [N3 _] & N4). split_and!; [by rewrite M3| |].
    - unfold b1. destruct Hb as [-> | ->]; repeat apply restic_patch; done.
    - rewrite M3. intros Ev. destruct (N4 Ev) as (A & B & ((C & Eo) & _)).
      assert (Hp : good (off s2) (gt s2) (pb s2)) by apply Hi2. rewrite Eo in Hp |- *.
      assert (Hcl : attempted (pb s2) = "true" \/ closing (pb s2)).
      { destruct C as [C|[C Cs]]; [left; by rewrite <- A|right]. rewrite <- A. unfold closing, failed in *. cbn. unfold sync in Cs. rewrite <- Cs. done. }
      split_and!; [rewrite M4; by rewrite <- A|rewrite <- A; done| |].
      + unfold b1. destruct Hb as [-> | ->].
        * change (with_bstatus (patch annoUnquiescedAt (formatSeconds now) b0) (bStatus (pb s2))) with
            (patch annoUnquiescedAt (formatSeconds now) (with_bstatus b0 (bStatus (pb s2)))). rewrite A. by apply good_unq.
        * change (with_bstatus (patch annoUnquiescedAt (formatSeconds now) (patch backupCleanupOutcomeAnnotation "source-gone" b0)) (bStatus (pb s2))) with
            (patch annoUnquiescedAt (formatSeconds now) (patch backupCleanupOutcomeAnnotation "source-gone" (with_bstatus b0 (bStatus (pb s2))))).
          rewrite A. apply good_unq; [apply good_neutral; [vm_compute; set_solver|done]|].
          unfold attempted, closing, aborted. rewrite !bann_patch_ne by done. done.
      + rewrite <- Eo. enough (with_bstatus (pb s2) (bStatus b1) = b0) as -> by done. rewrite <- A. unfold b1. destruct Hb as [-> | ->]; by destruct b0. }
  apply bind_ret, update_bind; [done|done|]. intros s3 Hi3 Hs Ev (v & Ep). split; [done|]. split_and!; [by rewrite Ep|by rewrite Ep|].
  apply near_stored; [done|]. rewrite M3 in Ev. destruct (proj2 (proj2 (proj2 Hn2)) Ev) as (A & _ & (_ & C)).
  eapply HU; [|by rewrite Ep|exact Hs|exact C]. by rewrite Ep.
Qed.
Definition idle (s : st) : Prop := idleJobs s = true /\ idlePods s = true.
Lemma idle_evo s s' : idle s -> evo s s' -> idle s'.
Proof using Type. intros [I1 I2] He. split; [by apply He|by apply He]. Qed.
Lemma unquiesce_known F b s name p : inv s -> near F b s -> idle s -> parseBackupPreparation b = Ok p ->
  safe (callBackupQuiesce cfg name (podOf p) true)
    (fun r s' => inv s' /\ evo s s' /\ (r = Ok () -> bVersion b = bVersion (pb s') -> off s' = None)) s.
Proof using Type.
  intros Hi Hn Hidle Hp. pose proof (evo_refl s) as Hr. unfold callBackupQuiesce. cbn [andb].
  destruct (String.eqb_spec (podOf p) "") as [E|E]; [by split_and!|]. destruct (cfgAgent cfg); [|by split_and!]. cbn [negb].
  destruct (cfgPodBound cfg); [|by split_and!]. cbn [negb]. split; [done|]. intros res s' (s1 & Ht & Hf).
  destruct (tick_evo _ _ _ Hi Ht) as [Hi1 He1]. cbn in Hf. cbn [BackupFacts.safe].
  assert (Hoff : forall o, o = off s1 \/ o = None -> inv (with_off s1 o) /\ evo s (with_off s1 o)).
  { intros o Ho. split; [by apply (inv_same cfg s1); auto|]. eapply evo_trans; [exact He1|]. split; cbn; auto. by left. }
  destruct res as [[]|e].
  - subst s'. destruct (Hoff (if decide (off s1 = Some (podOf p)) then None else off s1)) as [Hi' He']; [case_decide; auto|].
    split; [done|]. split_and!; [done|done|]. intros _ Ev. cbn in *. case_decide as Hd; [done|].
    destruct (off s1) as [u|] eqn:Eu; [|done]. exfalso. apply Hd.
    pose proof (evo_eq _ _ _ (proj1 Hn) He1 Ev) as Ep. rewrite Ep in Ev.
    destruct (proj2 (proj2 (proj2 Hn)) Ev) as (_ & G & _).
    assert (Eo : off s = Some u) by (destruct (e_off _ _ He1) as [Eo|Eo]; rewrite Eu in Eo; done).
    destruct (g_off _ _ _ _ G u Eo) as [_ (q & Q1 & Q2)]. rewrite Hp in Q1. injection Q1 as ->. cbn. by rewrite Q2.
  - destruct Hf as [-> | ->]; [by split_and!|]. destruct (Hoff None) as [Hi' He']; [by right|]. by split_and!.
Qed.

Lemma restored_from b s s' : ready b s -> good (off s) (gt s) b -> attempted b <> "" -> attempted b <> "unsupported" ->
  evo s s' -> pb s' = pb s -> off s' = None -> restored b s'.
Proof using Type.
  intros Hr Hg A1 A2 He Ep Ho. split; [|done]. destruct Hr as [Hr|[Hr Hs]]; [left; by eapply settled_true|right].
  split; [done|]. unfold sync in *. by rewrite Ep.
Qed.
Section Ready.
Variable F : backup -> st -> Prop.
Hypothesis (HF : sound F) (HU : upd F) (HR : forall b s, F b s -> ready b s).
Lemma maybeUnquiesce_spec :
  spec (maybeUnquiesce cfg) (fun b s => near F b s /\ idle s) (fun b _ b' s' => past b b' /\ mcore b' = mcore b /\ near F b' s').
Proof using HF HU HR.
  intros b s Hi [Hn Hidle]. unfold maybeUnquiesce, mask.
  assert (Hstay : forall s', inv s' -> evo s s' ->
            fin (fun (_ : unit) b' s' => past b b' /\ mcore b' = mcore b /\ near F b' s') cohE (b, Ok ()) s').
  { intros s' Hi' He. split; [done|]. split_and!; [apply past_refl|done|].
    exact (near_evo _ _ _ _ _ (sound_steady _ HF) Hn He). }
  destruct (String.eqb_spec (bann b annoQuiesceAttempted) "") as [A1|A1]; [by apply Hstay, evo_refl|].
  destruct (String.eqb_spec (bann b annoQuiesceAttempted) "unsupported") as [A2|A2]; [by apply Hstay, evo_refl|]. cbn [orb].
  destruct (bAnn b !! annoUnquiescedAt) as [at_|] eqn:Eu; [by apply Hstay, evo_refl|].
  apply lift_bind; [apply unquiesceTarget_quiet|done|by eapply near_coh|]. intros [name|] s1 Hi1 He1; [|by apply Hstay].
  pose proof (near_evo _ _ _ _ _ (sound_steady _ HF) Hn He1) as Hn1. pose proof (idle_evo _ _ Hidle He1) as Hid1.
  (* the record, once saving is known to be on *)
  assert (Hrec : forall s2, inv s2 -> evo s1 s2 -> (bVersion b = bVersion (pb s2) -> off s2 = None) -> near (fun x t => restored x t /\ F x t) b s2).
  { intros s2 Hi2 He2 Ho. pose proof Hn1 as (N1 & N2 & N3 & N4). destruct (later_version _ _ (e_pb _ _ He2)) as [V1 V2].
    split_and!; [lia|by eapply past_trans, past_later, He2|done|]. intros Ev.
    pose proof (evo_eq _ _ _ N1 He2 Ev) as Ep. rewrite Ep in Ev |- *. destruct (N4 Ev) as (B1 & B2 & B3).
    split_and!; [done|eapply good_less; [apply He2|apply He2|done]| |by eapply (sound_steady F)].
    eapply restored_from; [by apply HR|exact B2|done|done|done|done|]. apply Ho. by rewrite Ep. }
  assert (Hsend : forall s2, inv s2 -> near F b s2 -> idle s2 -> evo s1 s2 ->
    safe ((if negb (cfgAgent cfg) then mfail (OtherErr "cannot release quiesced world without an agent client")
           else do p <- mlift (fun b => ofResult (parseBackupPreparation b));
                do! mlift (fun _ => callBackupQuiesce cfg name (podOf p) true);
                recordBackupUnquiesced) b)
      (fin (fun _ b' s' => past b b' /\ mcore b' = mcore b /\ near F b' s') cohE) s2).
  { intros s2 Hi2 Hn2 Hid2 He2. destruct (cfgAgent cfg) eqn:Ec; cbn [negb]; [|split; [done|]; by eapply near_coh].
    destruct (parseBackupPreparation b) as [p|e] eqn:Ep.
    2:{ match goal with |- safe ?q _ _ => change q with (@Ret req berr _ (b, @Err berr unit match parseBackupPreparation b with Err e => e | Ok _ => NotFound end)) || idtac end.
        unfold mbind at 1, mcatch at 1, mlift at 1, ofResult. rewrite Ep. split; [done|]. by eapply near_coh. }
    unfold mbind at 1, mcatch at 1, mlift at 1, ofResult. rewrite Ep. cbn [pbind fst snd].
    eapply (known_bind _ _ (fun r s' => r = Ok () -> bVersion b = bVersion (pb s') -> off s' = None)); [by eapply unquiesce_known|by eapply near_coh|].
    intros [] s3 Hi3 He3 Ho. eapply record_safe; [done|done|done| |by left]. apply Hrec; [done|by eapply evo_trans|]. by apply Ho. }
  destruct (String.eqb_spec name "") as [En|En]; cbn [negb].
  - apply (Hsend s1); [done..|apply evo_refl].
  - eapply (known_bind _ _ (fun r s' => r = Ok true -> bVersion b = bVersion (pb s') -> off s' = None)); [by eapply gone_known|by eapply near_coh|].
    intros [] s2 Hi2 He2 Ho.
    + match goal with |- safe (mbind (mput ?g) ?k b) _ _ => change (mbind (mput g) k b) with (recordBackupUnquiesced (g b)) end.
      eapply record_safe; [done|done|done| |by right]. apply Hrec; [done|done|]. by apply Ho.
    + apply Hsend; [done|by eapply near_evo; [apply sound_steady, HF| |]|by eapply idle_evo|done].
Qed.

(** [runUnquiesce] ends with the server given back, or to be retried. *)
Definition again (G : backup -> st -> Prop) (d : duration) (b b' : backup) (s' : st) : Prop :=
  if 0 <? d then coh b' s' else past b b' /\ mcore b' = mcore b /\ near G b' s'.
Lemma runUnquiesce_spec : spec (runUnquiesce cfg) (near F) (fun b d b' s' => again (fun x t => unheld x t /\ F x t) d b b' s').
Proof using HF HU HR.
  intros b s Hi Hn. unfold runUnquiesce.
  eapply (known_bind _ _ (fun r s' => r = Ok false -> idle s')); [|by eapply near_coh|].
  { apply (pass_mono _ _ _ _ _ (cleanup_idle b false s Hi (proj1 (proj2 Hn)))). intros r s' (A & B & C). by split_and!. }
  intros busy s1 Hi1 He1 Hid. pose proof (near_evo _ _ _ _ _ (sound_steady _ HF) Hn He1) as Hn1.
  destruct busy; [split; [done|]; by eapply near_coh|].
  eapply spec_catch; [apply maybeUnquiesce_spec|done|by split; [|apply Hid]| |].
  - intros [] b1 s2 Hi2 (P1 & M1 & Hn2). unfold mask.
    assert (Hgive : forall b2 s3, inv s3 -> past b b2 -> mcore b2 = mcore b -> near F b2 s3 ->
              safe ((do! mlift giveBackTarget; mret 0) b2) (fin (fun d b' s' => again (fun x t => unheld x t /\ F x t) d b b' s') cohE) s3).
    { intros b2 s3 Hi3 P2 M2 Hn3. eapply (known_bind _ _ (fun r s' => r = Ok () -> bVersion b2 = bVersion (pb s') -> unheld b2 s')); [by eapply giveBack_known|by eapply near_coh|].
      intros [] s4 Hi4 He4 Hu. split; [done|]. split_and!; [done|done|].
      pose proof (near_evo _ _ _ _ _ (sound_steady _ HF) Hn3 He4) as Hn4.
      apply (near_mono _ _ _ _ _ Hn4). intros Ev _ Hx. split; [by apply Hu|done]. }
    destruct (bAnn b1 !! annoUnquiescedAt).
    + eapply spec_bind; [apply (upsert_spec _ _ HF)|done|done|]. intros [] b2 s3 Hi3 (P2 & M2 & _ & Hn3).
      apply Hgive; [done|by eapply past_trans|by rewrite M2|done].
    + apply (Hgive b1 s2); done.
  - intros e b1 s2 Hi2 Hc. eapply spec_bind; [apply upsert_coh|done|done|]. intros [] b2 s3 Hi3 Hc3. by split.
Qed.
End Ready.
Lemma failUnrestorable_spec : spec (failUnrestorable cfg) (near ready) (fun _ _ => coh).
Proof using Type.
  intros b s Hi Hn. unfold failUnrestorable. eapply spec_bind; [apply (runUnquiesce_spec ready ready_sound ready_upd); done|done|done|].
  intros d b1 s1 Hi1 Hd. unfold again in Hd. destruct (0 <? d); [by split|]. destruct Hd as (_ & _ & Hd).
  eapply spec_use; [apply fail_coh|done|by eapply near_coh|done].
Qed.

(** ** Abort *)

Lemma cleanup_spec : spec (cleanupResticCopy cfg) (near (fun b s => closing b /\ sync b s))
  (fun b d b' s' => again (fun x t => unheld x t /\ (closing x /\ sync x t)) d b b' s').
Proof using Type.
  set (F := fun b s => closing b /\ sync b s).
  assert (HF : sound F) by exact closed_sound.
  intros b s Hi Hn. unfold cleanupResticCopy. apply lift_bind; [apply revoke_quiet|done|by eapply near_coh|]. intros [] s1 Hi1 He1.
  pose proof (near_evo _ _ _ _ _ (sound_steady _ HF) Hn He1) as Hn1.
  apply lift_bind; [apply cleanup_quiet|done|by eapply near_coh|]. intros busy s2 Hi2 He2.
  pose proof (near_evo _ _ _ _ _ (sound_steady _ HF) Hn1 He2) as Hn2. destruct busy.
  - eapply spec_bind; [apply (upsert_spec _ _ HF)|done|done|]. intros [] b3 s3 Hi3 (P3 & _ & _ & Hn3). split; [done|]. by eapply near_coh.
  - unfold mask.
    assert (Hrun : forall b3 s3, inv s3 -> past b b3 -> mcore b3 = mcore b -> near F b3 s3 ->
              safe (runUnquiesce cfg b3) (fin (fun d b' s' => again (fun x t => unheld x t /\ F x t) d b b' s') cohE) s3).
    { intros b3 s3 Hi3 P3 M3 Hn3. eapply spec_use; [apply (runUnquiesce_spec F HF closed_upd); by right|done|done|].
      - intros d b4 s4 Hi4. unfold again. destruct (0 <? d); [done|]. intros (P4 & M4 & Hn4).
        split_and!; [by eapply past_trans|by rewrite M4|done]. }
    destruct (hasCondition _ _); [|apply (Hrun b s2); [done|apply past_refl|done|done]].
    eapply spec_bind; [apply (status_spec F); exact HF|done|by split|]. intros [] b3 s3 Hi3 (P3 & M3 & _ & Hn3).
    apply Hrun; [done|done|done|]. apply (near_mono _ _ _ _ _ Hn3). by intros _ _ [? _].
Qed.

Lemma good_abort o g v p : v <> "" -> good o g p -> good o g (patch backupCopyAbortAnnotation v p).
Proof using Type.
  intros Hv Hg.
  assert (Hp : parseBackupPreparation (patch backupCopyAbortAnnotation v p) = parseBackupPreparation p) by (by apply prep_same, bann_patch_ne).
  destruct Hg as [G1 G2 G3 G4 G5 G6 G7].
  split; unfold owes, closing, BackupFacts.settled, sourceStopped, attempted, authorized, copyDeadline, aborted, targetOf in *.
  - intros u Hu. rewrite Hp, !bann_patch_ne, unq_ne by done. by apply G1.
  - rewrite bann_patch. intros _. right. by left.
  - rewrite Hp, !bann_patch_ne by done. done.
  - rewrite Hp, !bann_patch_ne by done. done.
  - rewrite !bann_patch_ne by done. done.
  - rewrite !bann_patch_ne by done. done.
  - rewrite !bann_patch_ne by done. done.
Qed.
Lemma coh_abort v b s : v <> "" -> coh b s -> coh (patch backupCopyAbortAnnotation v b) s.
Proof using Type.
  intros Hv (C1 & C2 & C3). split_and!; [done|by apply restic_patch|]. intros Ev. destruct (C3 Ev) as (A & B & C & D).
  split_and!; [done|eapply past_trans; [exact B|by apply past_patch]| |done]. by apply (good_abort _ _ v (with_bstatus b (bStatus (pb s)))).
Qed.

(** What the abort leaves: the abort is stored, the rest is as before. *)
Definition abandoned (b b' : backup) : Prop :=
  past b b' /\ aborted b' <> "" /\ (attempted b', bQuiesce b', targetOf b', bDeleting b', bann b' backupPreparationAnnotation) =
    (attempted b, bQuiesce b, targetOf b, bDeleting b, bann b backupPreparationAnnotation).
Lemma abandoned_core b b1 b2 : abandoned b b1 -> past b1 b2 -> mcore b2 = mcore b1 -> abandoned b b2.
Proof using Type.
  intros (P1 & A1 & E1) P2 M2. apply core_eqs in M2 as (C1 & C2 & C3 & C4 & C5 & C6). split_and!; [by eapply past_trans|by rewrite C4|].
  by rewrite C1, C2, C3, C5, C6.
Qed.
Definition abortable (b : backup) (s : st) : Prop := coh b s /\ (aborted b <> "" -> near sync b s).
Lemma abort_spec msg : spec (abortResticCopy cfg msg) abortable
  (fun b d b' s' => if 0 <? d then coh b' s' else abandoned b b' /\ near (fun x t => unheld x t /\ sync x t) b' s').
Proof using Type.
  intros b s Hi [Hc Hs]. unfold abortResticCopy. set (m := if String.eqb msg "" then _ else msg).
  assert (Hm : m <> "") by (unfold m; by destruct (String.eqb_spec msg "")). clearbody m. unfold mask at 1.
  assert (Hnext : forall b1 s1, inv s1 -> abandoned b b1 -> near sync b1 s1 ->
    safe ((let? b <- (fun b => b);
           do! (if negb (String.eqb (sPhase (bStatus b)) "Failed") || negb (String.eqb (sSnapshotID (bStatus b)) "") ||
                   negb (String.eqb (sMessage (bStatus b)) (bann b backupCopyAbortAnnotation))
                then do! putStatus (fun s => set_snapshot s "" (sSize s)); fail (bann b backupCopyAbortAnnotation)
                else mret 0);
           cleanupResticCopy cfg) b1)
      (fin (fun d b' s' => if 0 <? d then coh b' s' else abandoned b b' /\ near (fun x t => unheld x t /\ sync x t) b' s') cohE) s1).
  { intros b1 s1 Hi1 Ha Hn1. unfold mask.
    assert (Hclean : forall b2 s2, inv s2 -> past b1 b2 -> mcore b2 = mcore b1 -> near sync b2 s2 ->
      safe (cleanupResticCopy cfg b2) (fin (fun d b' s' => if 0 <? d then coh b' s' else abandoned b b' /\ near (fun x t => unheld x t /\ sync x t) b' s') cohE) s2).
    { intros b2 s2 Hi2 P2 M2 Hn2. pose proof (abandoned_core _ _ _ Ha P2 M2) as Ha2. eapply spec_use; [apply cleanup_spec|done| |].
      - apply (near_mono _ _ _ _ _ Hn2). intros _ _ Hy. split; [left; apply Ha2|done].
      - intros d b3 s3 Hi3. unfold again. destruct (0 <? d); [done|]. intros (P3 & M3 & Hn3). split; [by eapply abandoned_core|].
        apply (near_mono _ _ _ _ _ Hn3). by intros _ _ (? & _ & ?). }
    case_match; [|apply (Hclean b1 s1); [done|apply past_refl|done|done]].
    set (b1' := with_bstatus b1 (set_snapshot (bStatus b1) "" (sSize (bStatus b1)))).
    assert (Hn1' : near (fun _ _ => True) b1' s1).
    { apply near_status; [by intros ?| |done]. by apply (near_mono _ _ _ _ _ Hn1). }
    match goal with |- safe (mbind (mbind (putStatus ?f) ?k1) ?k b1) _ _ => change (mbind (mbind (putStatus f) k1) k b1) with (mbind (k1 ()) k b1') end.
    eapply spec_bind; [apply (fail_near (fun _ _ => True))|done|done|]. intros _ b2 s2 Hi2 (P2 & M2 & Hn2).
    apply Hclean; [done|done|done|]. apply (near_mono _ _ _ _ _ Hn2). by intros _ _ [_ ?]. }
  destruct (String.eqb_spec (bann b backupCopyAbortAnnotation) "") as [E|E].
  - match goal with |- safe (mbind (mbind (mput ?f) ?k1) ?k b) _ _ => change (mbind (mbind (mput f) k1) k b) with (mbind (k1 ()) k (f b)) end. cbv beta.
    apply update_bind; [done|by apply coh_abort|]. intros s1 Hi1 Hsd Ev (v & Ep). apply Hnext; [done| |].
    + rewrite Ep. change (abandoned b (patch backupCopyAbortAnnotation m b)). split_and!; [by apply past_patch|unfold aborted; by rewrite bann_patch|].
      unfold attempted, targetOf. by rewrite !bann_patch_ne by done.
    + by apply near_stored.
  - apply (Hnext b s); [done|by split_and!|by apply Hs].
Qed.
End Pass.

#[export] Hint Resolve owned_quiet revoke_quiet workers_quiet anyWorkers_quiet legacy_quiet recovery_quiet cleanup_quiet gone_quiet
  targetGone_quiet drained_quiet prepared_quiet capture_quiet intend_quiet giveBack_quiet unquiesceTarget_quiet stopped_quiet
  liveSource_quiet serverTime_quiet since_quiet waiting_quiet source_quiet clearJob_quiet pinned_quiet : quietdb.
