(* ===== verification/BackupAdmit.v ===== *)
(** * A game is not left with saving off: admitting a copy

    Claiming the server, preparing its source and telling the game to stop saving
    ([claimBackupTarget], [prepareBackupSource], [maybeQuiesce] and their callers)
    against the environment of [BackupFacts]. *)

From Stdlib Require Import Ascii.
From S2P Require Import Prelude GoTime GoText GoToken Prog Idle Lifecycle Power Backup BackupRun BackupFacts BackupPass.
Local Open Scope Z_scope.
Local Open Scope m_scope.

Section Admit.
Context `{OwnerCodec} `{BackupCodec} (cfg : config).
Local Abbreviation inv := (BackupFacts.inv cfg).
Local Abbreviation good := (BackupFacts.good cfg).
Local Abbreviation near := (BackupFacts.near cfg).
Local Abbreviation coh := (BackupFacts.coh cfg).
Local Abbreviation safe := (BackupFacts.safe cfg).
Local Abbreviation spec := (BackupFacts.spec cfg).
Local Abbreviation specE := (BackupFacts.specE cfg).
Local Abbreviation fin := (BackupFacts.fin cfg).
Local Abbreviation settled := (BackupFacts.settled cfg).
Local Abbreviation cohE := (fun (_ : berr) b s => coh b s).
Local Abbreviation prepOf b := (bann b backupPreparationAnnotation).

Local Ltac cond := match goal with |- safe ((if ?c then _ else _) _) _ _ => destruct c end.

(** A new copy may still be started, as far as the object in memory tells. *)
Definition open_ (b : backup) : Prop := bDeleting b = false /\ aborted b = "" /\ ~ failed b.
(** What the steps of an admission add to the Backup. *)
Definition grown (b b' : backup) : Prop :=
  past b b' /\ bDeleting b' = bDeleting b /\ bQuiesce b' = bQuiesce b /\ attempted b' = attempted b /\ aborted b' = aborted b /\
  (targetOf b <> "" -> targetOf b' = targetOf b) /\ (prepOf b <> "" -> prepOf b' = prepOf b) /\ sPhase (bStatus b') = sPhase (bStatus b).
Definition prepared (b : backup) : Prop := bQuiesce b = true -> cfgAgent cfg = true -> prepOf b <> "".

Lemma sync_steady : sound sync.
Proof using Type. intros b s b' s' _ Hp _ Hs Hx. by eapply sync_sound. Qed.
Lemma grown_refl b : grown b b.
Proof using Type. split_and!; [apply past_refl|done..]. Qed.
Lemma grown_trans a b c : grown a b -> grown b c -> grown a c.
Proof using Type.
  intros (A1 & A2 & A3 & A4 & A5 & A6 & A7 & A8) (B1 & B2 & B3 & B4 & B5 & B6 & B7 & B8).
  split_and!; [by eapply past_trans|congruence..| | |congruence].
  - intros Ht. rewrite B6; [by apply A6|]. by rewrite (A6 Ht).
  - intros Ht. rewrite B7; [by apply A7|]. by rewrite (A7 Ht).
Qed.
Lemma grown_core b b' : past b b' -> mcore b' = mcore b -> sPhase (bStatus b') = sPhase (bStatus b) -> grown b b'.
Proof using Type. intros Hp Hm Hs. apply core_eqs in Hm as (C1 & C2 & C3 & C4 & C5 & C6). by split_and!. Qed.
Lemma grown_open b b' : grown b b' -> open_ b -> open_ b'.
Proof using Type. intros (_ & G2 & _ & _ & G5 & _ & _ & G8) (O1 & O2 & O3). unfold open_, failed. by rewrite G2, G5, G8. Qed.
Lemma stopped_prep b : sourceStopped b -> prepOf b <> "".
Proof using Type. intros (p & Hp & _) E. unfold parseBackupPreparation in Hp. by rewrite E in Hp. Qed.
Lemma grown_settled b b' : grown b b' -> settled b -> settled b'.
Proof using Type.
  intros (_ & _ & G3 & G4 & _ & _ & G7 & _) Hs. unfold BackupFacts.settled in *. rewrite G3, G4.
  destruct Hs as [Hs|[Hs|[Hs|Hs]]]; [by left|by right; left| |by right; right; right]. right. right. left.
  destruct Hs as (p & Hp & Ho). exists p. split; [|done]. rewrite <- Hp. apply prep_same, G7. eapply stopped_prep. by exists p.
Qed.
Lemma keep_grown F b b' s : keep cfg F b b' s -> grown b b' /\ near F b' s.
Proof using Type. intros (K1 & K2 & K3 & K4). split; [by apply grown_core|done]. Qed.

(** What a stored preparation says. *)
Lemma parse_valid b p : parseBackupPreparation b = Ok (Some p) ->
  prepOf b <> "" /\ (pOutcome p = "live" /\ pPodUID p <> "" \/ pOutcome p = "already-stopped").
Proof using Type.
  unfold parseBackupPreparation. destruct (String.eqb_spec (prepOf b) "") as [E|E]; [done|]. destruct (unmarshalPrep _) as [q|]; [|done].
  destruct (_ || _) eqn:Ev; [done|]. intros [= ->]. split; [done|]. rewrite !orb_false_iff, !andb_false_iff, !negb_false_iff, !String.eqb_eq, !String.eqb_neq in Ev.
  destruct Ev as ((((_ & _) & Ev) & Ew) & _). destruct Ev as [Ev|Ev]; [left|by right]. destruct Ew as [Ew|Ew]; [done|by split].
Qed.
Lemma parse_none b : parseBackupPreparation b = Ok None -> prepOf b = "".
Proof using Type.
  unfold parseBackupPreparation. destruct (String.eqb_spec (prepOf b) "") as [E|E]; [done|]. destruct (unmarshalPrep _); [|done]. by destruct (_ || _).
Qed.

(** A fact about the object in memory that implies that its phase is the stored one
    and that every stored object has; the two in use are that, and being out of date. *)
Section Fact.
Variable F : backup -> st -> Prop.
Hypothesis (HF : sound F) (HS : forall b s, F b s -> sync b s) (HU : forall b s s', F b s -> F (pb s') s')
  (HH : forall b s h, F b s -> F b (with_held s h)).

Lemma near_sync b s : near F b s -> near sync b s.
Proof using HS. intros Hn. apply (near_mono _ _ _ _ _ Hn). intros _ _. apply HS. Qed.

(** ** The source *)

Lemma wait_spec reason : spec (waitForBackupSource reason) (near F) (fun b r b' s' => r = false /\ grown b b' /\ near F b' s').
Proof using HF HS HU HH.
  intros b s Hi Hn. unfold waitForBackupSource, mask. set (key := if negb _ then _ else _).
  assert (Hk : deadlineKey key /\ key <> backupSnapshotAbortAnnotation /\ key <> backupCopyAbortAnnotation).
  { unfold key. case_match; (split_and!; [left; vm_compute; set_solver|done|done]). }
  destruct Hk as (K1 & K2 & K3). clearbody key. cbv zeta beta.
  eapply spec_catch; [by apply (deadline_spec cfg F key _ HF HS)|done|done| |].
  - intros deadline b1 s1 Hi1 (Hk1 & _). apply keep_grown in Hk1 as [G1 Hn1].
    apply req_bind; [done|done|by eapply near_coh|]. intros now s2 Hi2 He2.
    pose proof (near_evo _ _ _ _ _ (sound_steady _ HF) Hn1 He2) as Hn2. case_match; (split; [done|]); [done|]. by eapply near_coh.
  - intros e b1 s1 Hi1 [Hc _]. by split.
Qed.

Lemma good_prep o g v p : v <> "" -> attempted p = "" -> bQuiesce p = true -> cfgAgent cfg = true -> prepOf p = "" ->
  good o g p -> good o g (patch backupPreparationAnnotation v p).
Proof using Type.
  intros Hv A1 A2 A3 A4 Hg. destruct Hg as [G1 G2 G3 G4 G5 G6 G7].
  assert (Hns : ~ settled p).
  { intros [E|[E|[E|[E|E]]]]; [by rewrite A1 in E..|by apply stopped_prep in E|congruence|congruence]. }
  split; unfold owes, closing, attempted, authorized, copyDeadline, aborted, targetOf in *.
  - intros u Hu. by destruct (G1 u Hu) as [[? _] _].
  - rewrite !bann_patch_ne, unq_ne by done. done.
  - rewrite !bann_patch_ne by done. by rewrite A1.
  - rewrite !bann_patch_ne by done. intros Hx. by destruct (Hns (G4 Hx)).
  - rewrite !bann_patch_ne by done. done.
  - rewrite !bann_patch_ne by done. done.
  - rewrite !bann_patch_ne by done. done.
Qed.
Lemma settleSource_spec p c : spec (settleSource p c)
  (fun b s => near F b s /\ parseBackupPreparation b = Ok p /\ (p = None -> attempted b = "" /\ bQuiesce b = true /\ cfgAgent cfg = true))
  (fun b r b' s' => grown b b' /\ near F b' s' /\ prepOf b' <> "").
Proof using HF HS HU HH.
  intros b s Hi (Hn & Hp & Hnone). unfold settleSource. destruct p as [p|].
  - destruct (parse_valid _ _ Hp) as [E _]. case_match; (split; [done|]); [by eapply near_coh|]. split_and!; [apply grown_refl|done|done].
  - destruct (Hnone eq_refl) as (A1 & A2 & A3). pose proof (parse_none _ Hp) as A4.
    match goal with |- safe (mbind (mput ?f) ?k b) _ _ => change (mbind (mput f) k b) with (k () (f b)) end. cbv beta.
    set (b1 := patch backupPreparationAnnotation (prepJSON c) b).
    apply update_bind; [done| |].
    + eapply coh_patch; [done|exact Hn|done..|]. intros Ev _ _. destruct (proj2 (proj2 (proj2 Hn)) Ev) as (A & _).
      apply good_prep; [apply prep_nonempty|by rewrite <- A|by rewrite <- A|done|by rewrite <- A|apply Hi].
    + intros s1 Hi1 Hs Ev (v & Ep). destruct (proj2 (proj2 (proj2 Hn)) Ev) as (A & _ & B).
      assert (E : prepOf (pb s1) = prepJSON c) by (rewrite Ep; apply (bann_patch backupPreparationAnnotation _ b)).
      split; [done|]. cbn [fst snd]. split_and!; [|by apply near_stored; [|eapply HU; exact B]|rewrite E; apply prep_nonempty].
      rewrite Ep. split_and!; cbn; [by apply (past_patch backupPreparationAnnotation (prepJSON c) b)|done|done|..].
      * unfold attempted. by apply (bann_patch_ne backupPreparationAnnotation _ b).
      * unfold aborted. by apply (bann_patch_ne backupPreparationAnnotation _ b).
      * intros _. unfold targetOf. by apply (bann_patch_ne backupPreparationAnnotation _ b).
      * by rewrite A4.
      * symmetry. by apply HS.
Qed.
Lemma prepareBackupSource_spec gs : spec (prepareBackupSource cfg gs) (near F)
  (fun b r b' s' => grown b b' /\ near F b' s' /\ (r = true -> prepared b')).
Proof using HF HS HU HH.
  intros b s Hi Hn. unfold prepareBackupSource, mask.
  assert (Hstay : forall (r : bool) s', inv s' -> evo s s' -> (r = true -> prepared b) ->
            fin (fun r b' s' => grown b b' /\ near F b' s' /\ (r = true -> prepared b')) cohE (b, Ok r) s').
  { intros r s' Hi' He Hr. split; [done|]. split_and!; [apply grown_refl|by eapply near_evo; [apply sound_steady, HF| |]|done]. }
  assert (Herr : forall e s', inv s' -> evo s s' ->
            fin (fun r b' s' => grown b b' /\ near F b' s' /\ (r = true -> prepared b')) cohE (b, Err e) s').
  { intros e s' Hi' He. split; [done|]. apply (coh_evo cfg b s); [by eapply near_coh|done]. }
  destruct (bQuiesce b) eqn:Eq; cbn [negb]; [|apply (Hstay true s); [done|apply evo_refl|]; intros _ Hq; congruence].
  unfold mbind at 1, mcatch at 1, mlift at 1, ofResult. destruct (parseBackupPreparation b) as [p|e] eqn:Ep; [|by apply Herr, evo_refl].
  cbn [pbind fst snd].
  destruct (negb (match p with Some _ => true | None => false end) && negb (cfgAgent cfg)) eqn:E1.
  { apply (Hstay true s); [done|apply evo_refl|]. intros _ _ Ha. rewrite Ha, andb_false_r in E1. done. }
  destruct (negb (match p with Some _ => true | None => false end) && negb (String.eqb (bann b annoQuiesceAttempted) "")) eqn:E2.
  { apply (Hstay true s); [done|apply evo_refl|]. intros _ _ _. apply andb_true_iff in E2 as [_ E2]. apply negb_true_iff, String.eqb_neq in E2.
    destruct Hn as (_ & _ & [_ Hg] & _). destruct (g_att _ _ _ _ Hg E2) as (_ & _ & _ & _ & q & Q1 & _). by destruct (parse_valid _ _ Q1). }
  assert (Hset : forall c s', inv s' -> evo s s' -> safe (settleSource p c b)
            (fin (fun r b' s' => grown b b' /\ near F b' s' /\ (r = true -> prepared b')) cohE) s').
  { intros c s' Hi' He. eapply spec_use; [apply settleSource_spec|done| |].
    - split_and!; [by eapply near_evo; [apply sound_steady, HF| |]|done|]. intros ->. cbn in E1, E2.
      apply negb_false_iff in E1, E2. by apply String.eqb_eq in E2.
    - intros r b' s'' Hi'' (X1 & X2 & X3). split_and!; [done|done|]. by intros _ _ _. }
  apply lift_bind; [by apply find_quiet|done|by eapply near_coh|]. intros [ss|] s1 Hi1 He1; [|destruct p; [exact (Herr _ _ Hi1 He1)|by apply (Hstay false)]].
  cond; [exact (Herr _ _ Hi1 He1)|]. cond; [exact (Herr _ _ Hi1 He1)|]. destruct (wlReplicas ss) as [n|]; [|by apply (Hstay false)].
  cond; [by apply (Hstay false)|]. cond; [exact (Herr _ _ Hi1 He1)|].
  assert (Hc1 : coh b s1) by (apply (coh_evo cfg b s); [by eapply near_coh|done]).
  destruct (n =? 0).
  - apply lift_bind; [apply stopped_quiet|done|done|]. intros [c|] s2 Hi2 He2.
    + apply Hset; [done|by eapply evo_trans].
    + apply (Hstay false); [done|by eapply evo_trans|done].
  - apply lift_bind; [apply liveSource_quiet|done|done|]. intros [c|reason] s2 Hi2 He2.
    + apply Hset; [done|by eapply evo_trans].
    + eapply spec_use; [apply wait_spec|done|by eapply near_evo; [apply sound_steady, HF|exact Hn|eapply evo_trans]|].
      intros r b' s' Hi' (-> & G1 & Hn1). by split_and!.
Qed.
(** ** The claim *)

Lemma recovery_known G b s : inv s -> near G b s ->
  safe (backupRecoveryIdentities b) (fun r s' => inv s' /\ evo s s' /\ (forall ids, r = Ok ids -> bVersion b = bVersion (pb s') -> ids = [])) s.
Proof using Type.
  intros Hi Hn. unfold backupRecoveryIdentities. apply pass_check.
  apply (pass_mono _ _ _ _ _ (owned_known cfg G b s Hi Hn)). intros [gs|e] s1 (Hi1 & He1 & Hk); [|by split_and!].
  pose proof Hn as (_ & _ & [_ Hg] & _). rewrite (g_rec _ _ _ _ Hg). cbn [negb String.eqb].
  destruct gs as [gs|]; cbn [String.eqb negb]; [|split_and!; [done|done|]; by intros ids [= <-]].
  destruct (String.eqb_spec (gann gs backupRecoveryLineageAnnotation) "") as [E|E]; cbn [negb].
  - split_and!; [done|done|]. by intros ids [= <-].
  - destruct (parseBackupRecoveryLineage _); split_and!; try done. intros ids _ Ev. by destruct (Hk Ev) as (_ & _ & ?).
Qed.
Lemma never_steady : steady (fun _ _ => False).
Proof using Type. by intros ?. Qed.
Lemma recover_spec : spec recoverBackupTarget (near F) (fun b _ b' s' => past b b' /\ mcore b' = mcore b /\ sPhase (bStatus b') = sPhase (bStatus b) /\ near F b' s').
Proof using HF HS HU HH.
  intros b s Hi Hn. unfold recoverBackupTarget.
  eapply (known_bind _ _ (fun r s' => forall ids, r = Ok ids -> bVersion b = bVersion (pb s') -> ids = [])); [by eapply recovery_known|by eapply near_coh|].
  intros ids s1 Hi1 He1 Hk. pose proof (near_evo _ _ _ _ _ (sound_steady _ HF) Hn He1) as Hn1.
  destruct ids as [|id ids]; [split; [done|]; split_and!; [apply past_refl|done|done|done]|].
  assert (Hstale : near (fun _ _ => False) b s1) by (apply (near_mono _ _ _ _ _ Hn1); intros Ev _ _; by specialize (Hk _ eq_refl Ev)).
  assert (Hend : forall (r : bool) s', inv s' -> near (fun _ _ => False) b s' ->
    fin (fun _ b' s' => past b b' /\ mcore b' = mcore b /\ sPhase (bStatus b') = sPhase (bStatus b) /\ near F b' s') cohE (b, Ok r) s').
  { intros r s' Hi' Hs. split; [done|]. split_and!; [apply past_refl|done|done|]. by apply (near_mono _ _ _ _ _ Hs). }
  apply lift_bind; [apply anyWorkers_quiet|done|by eapply near_coh|]. intros busy s2 Hi2 He2.
  pose proof (near_evo _ _ _ _ _ never_steady Hstale He2) as Hs2. destruct busy; [by apply Hend|].
  apply lift_bind; [apply gone_quiet|done|by eapply near_coh|]. intros gone s3 Hi3 He3.
  pose proof (near_evo _ _ _ _ _ never_steady Hs2 He3) as Hs3. destruct gone; cbn [negb]; [|split; [done|]; by eapply near_coh].
  match goal with |- safe (mbind (mput ?f) ?k b) _ _ => change (mbind (mput f) k b) with (k () (f b)); set (b1 := f b) end. cbv beta.
  destruct Hs3 as (N1 & _ & [[R1 R2] _] & N4).
  apply update_bind; [done| |].
  - split_and!; [done|split; [done|]|intros Ev; by destruct (N4 Ev) as (_ & _ & [])].
    unfold bann, ann, b1. cbn. by rewrite !lookup_delete_ne.
  - intros s4 _ _ Ev. by destruct (N4 Ev) as (_ & _ & []).
Qed.

Lemma good_target o g gs p : targetOf p = "" -> gsName gs = bServer p ->
  good o g p -> good o g (patch backupTargetAnnotation (identityJSON (gsName gs, gsUID gs)) p).
Proof using Type.
  intros Ht Hs Hg.
  assert (Hp : parseBackupPreparation (patch backupTargetAnnotation (identityJSON (gsName gs, gsUID gs)) p) = parseBackupPreparation p) by (by apply prep_same, bann_patch_ne).
  destruct Hg as [G1 G2 G3 G4 G5 G6 G7].
  split; unfold owes, closing, BackupFacts.settled, sourceStopped, attempted, authorized, copyDeadline, aborted, targetOf in *.
  - intros u Hu. rewrite Hp, !bann_patch_ne, unq_ne by done. by apply G1.
  - rewrite !bann_patch_ne, unq_ne by done. done.
  - rewrite !bann_patch_ne by done. intros Ha. by destruct (G3 Ha) as (_ & _ & _ & ? & _).
  - rewrite Hp, !bann_patch_ne by done. done.
  - rewrite !bann_patch_ne by done. done.
  - rewrite bann_patch. intros n u _. unfold parseIdentity. rewrite unmarshal_identity. destruct (_ || _); [done|]. intros [= <- <-]. done.
  - rewrite !bann_patch_ne by done. done.
Qed.
Lemma claim_env gs want res s s' : inv s -> env (ClaimLifecycle gs want) res s s' -> inv s' /\ evo (with_held s (held s')) s'.
Proof using Type.
  intros Hi (s1 & Ht & (h & o & Ho & ->)). destruct (tick_evo _ _ _ Hi Ht) as [Hi1 [E1 E2 E3 E4 E5 E6]].
  split; [by apply (inv_same cfg s1); auto|]. split; cbn; auto. destruct Ho as [->| ->]; auto.
Qed.
Lemma pinTarget_spec gs value b0 : spec (if negb (String.eqb value "") then
             match parseIdentity value with
             | None => mfail (OtherErr "backup identity")
             | Some (name, uid) =>
                 if negb (String.eqb name (gsName gs)) || negb (String.eqb uid (gsUID gs))
                 then mfail (OtherErr "backup target was replaced") else mret ()
             end
           else do! mput (patch backupTargetAnnotation (identityJSON (gsName gs, gsUID gs))); update)
  (fun b s => b = b0 /\ near F b s /\ targetOf b = value /\ gsName gs = bServer b)
  (fun b _ b' s' => grown b b' /\ near F b' s' /\ targetOf b' <> "").
Proof using HF HS HU HH.
  intros b s Hi (-> & Hn & Ht & Hs). destruct (String.eqb_spec value "") as [E|E]; cbn [negb].
  - match goal with |- safe (mbind (mput ?f) ?k _) _ _ => change (mbind (mput f) k b0) with (update (f b0)) end.
    apply bind_ret, update_bind; [done| |].
    + eapply coh_patch; [done|exact Hn|done..|]. intros Ev _ _. destruct (proj2 (proj2 (proj2 Hn)) Ev) as (A & _).
      apply good_target; [rewrite <- A; by rewrite <- E|by rewrite <- A|apply Hi].
    + intros s1 Hi1 Hsd Ev (v & Ep). destruct (proj2 (proj2 (proj2 Hn)) Ev) as (A & _ & B).
      assert (Et : targetOf (pb s1) = identityJSON (gsName gs, gsUID gs)) by (rewrite Ep; apply (bann_patch backupTargetAnnotation _ b0)).
      split; [done|]. cbn [fst snd]. split_and!; [|by apply near_stored; [|eapply HU; exact B]|rewrite Et; apply identity_nonempty].
      rewrite Ep. split_and!; cbn; [by apply (past_patch backupTargetAnnotation (identityJSON (gsName gs, gsUID gs)) b0)|done|done|..].
      * unfold attempted. by apply (bann_patch_ne backupTargetAnnotation _ b0).
      * unfold aborted. by apply (bann_patch_ne backupTargetAnnotation _ b0).
      * intros Hx. by rewrite Ht, E in Hx.
      * intros _. by apply (bann_patch_ne backupTargetAnnotation _ b0).
      * symmetry. by apply HS.
  - assert (Hc : coh b0 s) by by eapply near_coh.
    destruct (parseIdentity value) as [[n u]|]; [|by split]. cond; [by split|]. split; [done|]. cbn [fst snd]. split_and!; [apply grown_refl|done|]. by rewrite Ht.
Qed.
Lemma claim_spec : spec claimBackupTarget (near F) (fun b c b' s' => grown b b' /\ near F b' s' /\ (c = true -> targetOf b' <> "")).
Proof using HF HS HU HH.
  intros b s Hi Hn. unfold claimBackupTarget. apply lift_bind; [apply legacy_quiet|done|by eapply near_coh|]. intros legacy s1 Hi1 He1.
  pose proof (near_evo _ _ _ _ _ (sound_steady _ HF) Hn He1) as Hn1. unfold mask at 1.
  cond; [split; [done|]; split_and!; [apply grown_refl|done|done]|].
  change (mreq (GetServer (bServer b))) with (mlift (fun _ => call (GetServer (bServer b)))).
  eapply (known_bind _ _ (fun r _ => forall gs, r = Ok gs -> gsName gs = bServer b)); [|by eapply near_coh|].
  { apply pass_call; [done|done|]. intros res s2 Hi2 He2 (s2' & _ & (_ & Hf)). split_and!; [done|done|]. intros gs ->. by destruct Hf. }
  intros gs s2 Hi2 He2 Hname. specialize (Hname gs eq_refl). pose proof (near_evo _ _ _ _ _ (sound_steady _ HF) Hn1 He2) as Hn2.
  cond; [split; [done|]; by eapply near_coh|].
  eapply spec_bind; [apply (pinTarget_spec gs _ b)|done|by split_and!|]. intros [] b1 s3 Hi3 (G3 & Hn3 & T3). unfold mask.
  unfold mbind at 1, mcatch at 1, mreq at 1. apply pass_bind, pass_bind. split; [done|]. intros res s4 He4.
  destruct (claim_env _ _ _ _ _ Hi3 He4) as [Hi4 Hv4]. split; [done|].
  assert (Hn4 : near F b1 s4).
  { eapply near_evo; [apply sound_steady, HF| |exact Hv4]. destruct Hn3 as (N1 & N2 & N3 & N4). split_and!; [done..|]. intros Ev.
    destruct (N4 Ev) as (A & B & C). split_and!; [done|done|]. by apply HH. }
  destruct res as [[]|e]; cbn [BackupFacts.safe pbind fst snd].
  - eapply spec_use; [apply recover_spec|done|done|]. intros c b2 s5 Hi5 (P5 & M5 & S5 & Hn5).
    split_and!; [eapply grown_trans; [exact G3|by apply grown_core]|done|]. intros _. by apply core_eqs in M5 as (_ & _ & _ & _ & -> & _).
  - split; [done|]. by split_and!.
  - split; [done|]. by eapply near_coh.
Qed.
(** ** The workload *)

Lemma abortable_evo b s s' : abortable cfg b s -> evo s s' -> abortable cfg b s'.
Proof using Type.
  intros [Hc Hn] He. split; [by eapply coh_evo|]. intros Ha. eapply near_evo; [apply sound_steady, sync_steady|by apply Hn|done].
Qed.
Lemma near_abortable b s : inv s -> near sync b s -> abortable cfg b s.
Proof using Type. intros Hi Hn. split; [by eapply near_coh|done]. Qed.
(** An abort that left nothing to retry. *)
Definition released (b b' : backup) (s : st) : Prop := abandoned b b' /\ near (fun x t => unheld x t /\ sync x t) b' s.
Lemma foreign_spec : spec (waitForForeignBackupWorker cfg) (abortable cfg) (fun b d b' s' => if 0 <? d then coh b' s' else released b b' s').
Proof using Type.
  intros b s Hi Ha. unfold waitForForeignBackupWorker. apply lift_bind; [apply owned_quiet|done|apply Ha|]. intros [gs|] s1 Hi1 He1.
  - unfold mask. pose proof Ha as [(_ & [R _] & _) _]. destruct (String.eqb_spec (bStrategy b) "volume-snapshot"); [done|].
    eapply spec_use; [apply abort_spec|done|by eapply abortable_evo|done].
  - split; [done|]. cbn. eapply coh_evo; [apply Ha|done].
Qed.
Lemma failNow_spec e : spec (failNow e) coh (fun _ d b' s' => (0 <? d) = true /\ coh b' s').
Proof using Type. intros b s Hi Hc. unfold failNow. eapply spec_bind; [apply fail_coh|done|done|]. intros d b1 s1 Hi1 Hc1. by split. Qed.
Lemma fenced_spec gs : spec (fencedSource cfg gs) (near F) (fun b r b' s' => grown b b' /\ near F b' s' /\ (r = true -> prepared b')).
Proof using HF HS HU HH.
  intros b s Hi Hn. unfold fencedSource. apply req_bind; [done|done|by eapply near_coh|]. intros [] s1 Hi1 He1;
    pose proof (near_evo _ _ _ _ _ (sound_steady _ HF) Hn He1) as Hn1.
  - eapply spec_use; [apply prepareBackupSource_spec|done|done|done].
  - eapply spec_use; [apply wait_spec|done|done|]. intros r b' s' Hi' (-> & G1 & N1). by split_and!.
Qed.

(** Ready to be copied: claimed, with its source on record. *)
Definition workable (b : backup) : Prop := (aborted b <> "" \/ ~ failed b) /\ (open_ b \/ forall x t, ~ F x t).
Lemma grown_workable b b' : grown b b' -> workable b -> workable b'.
Proof using Type.
  intros G [W1 W2]. split; [|destruct W2 as [W2|W2]; [left; by eapply grown_open|by right]].
  destruct G as (_ & _ & _ & _ & Ga & _ & _ & Gs). unfold failed. by rewrite Ga, Gs.
Qed.
Definition admitted (b : backup) (s : st) : Prop := workable b /\ prepared b /\ targetOf b <> "" /\ near F b s.
Lemma workload_spec : spec (prepareBackupWorkload cfg) (fun b s => workable b /\ near F b s)
  (fun b d b' s' => if 0 <? d then coh b' s' else past b b' /\ (grown b b' /\ admitted b' s' \/ released b b' s')).
Proof using HF HS HU HH.
  intros b s Hi [Ho Hn]. unfold prepareBackupWorkload.
  assert (Hdone : forall e b1 s1, inv s1 -> coh b1 s1 ->
    safe (failNow e b1) (fin (fun d b' s' => if 0 <? d then coh b' s' else past b b' /\ (grown b b' /\ admitted b' s' \/ released b b' s')) cohE) s1).
  { intros e b1 s1 Hi1 Hc1. eapply spec_use; [apply failNow_spec|done|done|]. intros d b2 s2 Hi2 [E Hc2]. by rewrite E. }
  apply lift_catch; [apply capture_quiet|done|]. intros r s1 Hi1 He1. pose proof (near_evo _ _ _ _ _ (sound_steady _ HF) Hn He1) as Hn1.
  assert (Hcl : safe ((got r <- claimBackupTarget;
      match r with
      | Err (GenerationChanged m) => failNow (GenerationChanged m)
      | Err e => mfail e
      | Ok false => mret (10 * Second)
      | Ok true =>
          do gs <- mlift getOwnedBackupTarget;
          match gs with
          | None => mret (5 * Second)
          | Some gs =>
              got r <- fencedSource cfg gs;
              match r with
              | Err (SourceChanged m) => failNow (SourceChanged m)
              | Err (StartupTimeout m) => failNow (StartupTimeout m)
              | Err e => mfail e
              | Ok ready => mret (if (ready : bool) then 0 else 5 * Second)
              end
          end
      end) b) (fin (fun d b' s' => if 0 <? d then coh b' s' else past b b' /\ (grown b b' /\ admitted b' s' \/ released b b' s')) cohE) s1).
  { eapply spec_catch; [apply claim_spec|done|done| |].
    - intros [] b2 s2 Hi2 (G2 & Hn2 & T2); [|split; [done|]; by eapply near_coh]. specialize (T2 eq_refl).
      apply lift_bind; [apply owned_quiet|done|by eapply near_coh|]. intros [gs|] s3 Hi3 He3;
        pose proof (near_evo _ _ _ _ _ (sound_steady _ HF) Hn2 He3) as Hn3; [|split; [done|]; by eapply near_coh].
      eapply spec_catch; [apply fenced_spec|done|done| |].
      + intros ready b4 s4 Hi4 (G4 & Hn4 & Hp). split; [done|]. cbn. destruct ready; [|by eapply near_coh].
        pose proof (grown_trans _ _ _ G2 G4) as G. split; [apply G|]. left. split; [done|]. split_and!; [by eapply grown_workable|by apply Hp| |done].
        destruct G4 as (_ & _ & _ & _ & _ & G4 & _). by rewrite (G4 T2).
      + intros e b4 s4 Hi4 Hc4. destruct e; try (by split); by apply Hdone.
    - intros e b2 s2 Hi2 Hc2. destruct e; try (by split); by apply Hdone. }
  destruct r as [w|e]; [done|]. destruct e; try (split; [done|]; by eapply near_coh).
  eapply spec_use; [apply foreign_spec|done|by apply near_abortable, near_sync|]. intros d b' s' Hi'. cbv beta. destruct (0 <? d); [done|]. intros Hd. split; [apply Hd|by right].
Qed.

End Fact.

(** ** Telling the game to stop saving *)

Lemma good_attempt o g v p q : (v = "pending" \/ v = "true" \/ v = "unsupported") -> bQuiesce p = true -> cfgAgent cfg = true -> targetOf p <> "" ->
  parseBackupPreparation p = Ok (Some q) -> pOutcome q = "live" -> bAnn p !! annoUnquiescedAt = None ->
  (v = "unsupported" -> o = None) -> (v = "pending" -> ~ settled p) ->
  good o g p -> good o g (patch annoQuiesceAttempted v p).
Proof using Type.
  intros Hv H1 H2 H3 H4 H5 H6 H7 H8 Hg.
  assert (Hp : parseBackupPreparation (patch annoQuiesceAttempted v p) = parseBackupPreparation p) by (by apply prep_same, bann_patch_ne).
  assert (Hne : v <> "") by (by destruct Hv as [->|[->| ->]]).
  destruct Hg as [G1 G2 G3 G4 G5 G6 G7]. unfold targetOf in H3.
  split; unfold owes, closing, attempted, authorized, copyDeadline, aborted, targetOf in *.
  - intros u Hu. rewrite Hp, bann_patch, unq_ne by done. destruct (G1 u Hu) as [_ Hx].
    split_and!; [done| |done|done]. intros ->. by rewrite (H7 eq_refl) in Hu.
  - rewrite unq_ne by done. rewrite H6. by intros [? ?].
  - rewrite Hp, bann_patch. rewrite !bann_patch_ne by done. intros _. split_and!; [done..|]. by exists q.
  - rewrite bann_patch_ne by done. cbn. intros Hx. destruct Hv as [->|Hv]; [by destruct (H8 eq_refl (G4 Hx))|].
    unfold BackupFacts.settled, attempted. rewrite bann_patch. destruct Hv as [->| ->]; [by left|by right; left].
  - rewrite !bann_patch_ne by done. done.
  - rewrite !bann_patch_ne by done. done.
  - rewrite !bann_patch_ne by done. done.
Qed.

Lemma quiesce_known s p server : inv s -> owes (pb s) -> parseBackupPreparation (pb s) = Ok (Some p) -> pPodUID p <> "" ->
  safe (callBackupQuiesce cfg server (pPodUID p) false)
    (fun r s' => inv s' /\ later (pb s) (pb s') /\ (r = Err Unsupported -> off s' = None)) s.
Proof using Type.
  intros Hi Ho Hp Hu. unfold callBackupQuiesce. cbn [andb]. assert (Hl : later (pb s) (pb s)) by by left.
  destruct (cfgAgent cfg); cbn [negb]; [|by split_and!]. destruct (String.eqb_spec (pPodUID p) ""); [done|]. cbn [negb].
  destruct (cfgPodBound cfg); cbn [negb]; [|by split_and!]. split; [done|]. intros res s' (s1 & Ht & Hf).
  destruct (tick_evo _ _ _ Hi Ht) as [Hi1 He1]. pose proof (e_pb _ _ He1) as Hl1. cbn in Hf. cbn [BackupFacts.safe].
  assert (Hon : inv (with_off s1 (Some (pPodUID p))) /\ later (pb s) (pb (with_off s1 (Some (pPodUID p))))).
  { split; [|done]. apply (stored_step cfg s1); cbn; [done| |lia|apply past_refl|by eapply inv_restic|done|by right].
    destruct (i_good _ _ Hi1) as [G1 G2 G3 G4 G5 G6 G7]. split; try done. intros u [= <-].
    split; [destruct Hl1 as [->|(v & _ & ->)]; done|]. exists p. split; [|done]. rewrite <- Hp. apply prep_same.
    destruct Hl1 as [->|(v & _ & ->)]; done. }
  destruct Hon as [O1 O2].
  destruct res as [[]|e]; [destruct Hf as [->| ->]; by split_and!|].
  destruct e; try (destruct Hf as [->| ->]; by split_and!). destruct Hf as [-> Hn]. by split_and!.
Qed.

(** After the answer the Backup in memory is still the one that was stored before. *)
Lemma near_after s s' : inv s -> inv s' -> later (pb s) (pb s') -> near sync (pb s) s'.
Proof using Type.
  intros Hi Hi' Hl. destruct (later_version _ _ Hl) as [V1 V2]. split_and!; [done|by apply past_later|by apply inv_sane|].
  intros Ev. rewrite (V2 Ev). split_and!; [by destruct (pb s)|rewrite <- (V2 Ev); apply Hi'|]. unfold sync. by rewrite (V2 Ev).
Qed.
Definition quieted (b b' : backup) (s : st) : Prop := past b b' /\ open_ b' /\ settled b' /\ near sync b' s.
Lemma failWith_spec {A} msg e : spec (failWith msg e) (near sync) (fun _ (_ : unit) _ _ => A).
Proof using Type.
  intros b s Hi Hn. unfold failWith. eapply spec_bind; [apply (fail_near cfg sync)|done|done|]. intros _ b1 s1 Hi1 (_ & _ & Hn1).
  split; [done|]. by eapply near_coh.
Qed.
Lemma not_settled b p : parseBackupPreparation b = Ok (Some p) -> pOutcome p = "live" -> bQuiesce b = true -> cfgAgent cfg = true ->
  attempted b = "" \/ attempted b = "pending" -> ~ settled b.
Proof using Type.
  intros Hp Hl Hq Ha Hat [E|[E|[(q & Q1 & Q2)|[E|E]]]]; [destruct Hat; congruence..| |congruence|congruence].
  rewrite Hp in Q1. injection Q1 as <-. congruence.
Qed.
Lemma no_unq o g b : good o g b -> open_ b -> attempted b = "" \/ attempted b = "pending" -> bAnn b !! annoUnquiescedAt = None.
Proof using Type.
  intros Hg (O1 & O2 & O3) Hat. destruct (bAnn b !! annoUnquiescedAt) eqn:E; [|done].
  destruct (g_unq _ _ _ _ Hg) as [Hx|[Hx|[Hx|Hx]]]; [by eexists|by destruct Hat; congruence|done|congruence|done].
Qed.
(** What holds once the intent is stored. *)
Definition intended (p : backupPreparation) (b : backup) : Prop :=
  open_ b /\ owes b /\ bQuiesce b = true /\ targetOf b <> "" /\ parseBackupPreparation b = Ok (Some p).
Lemma answer_good o g b p v : cfgAgent cfg = true -> intended p b -> pOutcome p = "live" -> (v = "true" \/ v = "unsupported") ->
  (v = "unsupported" -> o = None) -> good o g b -> good o g (patch annoQuiesceAttempted v b).
Proof using Type.
  intros Ha (_ & (_ & _ & I3) & I4 & I5 & I6) Hl Hv Hu Hg. eapply good_attempt; [by right|done|done|done|exact I6|done|done|done| |done]. intros ->. by destruct Hv.
Qed.
(** The answer is stored. *)
Lemma answer_safe p b b1 s v : cfgAgent cfg = true -> inv s -> near sync b s -> intended p b -> (v = "true" \/ v = "unsupported") ->
  (exists m, b1 = with_bann b m /\ bann b1 annoQuiesceAttempted = v /\ aborted b1 = aborted b) -> past b b1 -> coh b1 s ->
  safe (update b1) (fin (fun _ b' s' => quieted b b' s') cohE) s.
Proof using Type.
  intros Ha Hi Hn (I1 & _) Hv (m & Em & Ev & Ea) Hp Hc. apply bind_ret, update_bind; [done|done|]. intros s1 Hi1 Hs Evn (w & Ep).
  assert (Eb : bVersion b = bVersion (pb s)) by (by rewrite Em in Evn). destruct (proj2 (proj2 (proj2 Hn)) Eb) as (A & _ & B).
  destruct I1 as (O1 & O2 & O3). split; [done|]. cbn [fst snd]. rewrite Ep. unfold quieted, open_. split_and!.
  - done.
  - rewrite Em. done.
  - change (aborted b1 = ""). by rewrite Ea.
  - unfold failed. cbn. unfold sync in B. by rewrite <- B.
  - change (settled b1). unfold BackupFacts.settled, attempted. rewrite Ev. destruct Hv as [->| ->]; [by left|by right; left].
  - rewrite <- Ep. by apply near_stored.
Qed.
Lemma quiesceBound_spec p : spec (quiesceBound cfg (Some p))
  (fun b s => near sync b s /\ open_ b /\ parseBackupPreparation b = Ok (Some p) /\ pOutcome p = "live" /\ pPodUID p <> "" /\
     (attempted b = "" \/ attempted b = "pending") /\ bQuiesce b = true /\ cfgAgent cfg = true /\ targetOf b <> "")
  (fun b _ b' s' => quieted b b' s').
Proof using Type.
  intros b s Hi (Hn & Ho & Hp & Hl & Hu & Hat & Hq & Ha & Ht). unfold quiesceBound, mask.
  apply lift_bind; [apply intend_quiet|done|by eapply near_coh|]. intros [] s1 Hi1 He1.
  pose proof (near_evo _ _ _ _ _ (sound_steady _ sync_steady) Hn He1) as Hn1.
  match goal with |- safe (mbind (mput ?f) ?k b) _ _ => change (mbind (mput f) k b) with (k () (f b)) end. cbv beta.
  set (b1 := patch annoQuiesceAttempted "pending" b). apply update_bind; [done| |].
  { eapply coh_patch; [done|exact Hn1|done..|]. intros Ev Hg _. destruct (proj2 (proj2 (proj2 Hn1)) Ev) as (A & _).
    pose proof (no_unq _ _ _ Hg Ho Hat) as Eu.
    eapply good_attempt; [by left|by rewrite <- A|done|by rewrite <- A|rewrite <- A; exact Hp|done|by rewrite <- A|done| |apply Hi1].
    intros _. rewrite <- A. by apply (not_settled b p). }
  intros s2 Hi2 _ Ev (v & Ep). destruct (proj2 (proj2 (proj2 Hn1)) Ev) as (A & Hg & B).
  pose proof (no_unq _ _ _ Hg Ho Hat) as Eu.
  assert (HI : intended p (pb s2) /\ past b (pb s2)).
  { rewrite Ep. change (intended p (with_bstatus b1 (bStatus (pb s1))) /\ past b b1).
    assert (Hpb : past b b1) by (by apply past_patch). destruct Ho as (O1 & O2 & O3). split; [|done]. unfold intended, open_, owes. split_and!; [done| | | | | |done| |].
    - unfold aborted. change (bann b1 backupCopyAbortAnnotation = ""). unfold b1. by rewrite bann_patch_ne.
    - unfold failed. cbn. unfold sync in B. by rewrite <- B.
    - change (bann b1 annoQuiesceAttempted <> ""). unfold b1. by rewrite bann_patch.
    - change (bann b1 annoQuiesceAttempted <> "unsupported"). unfold b1. by rewrite bann_patch.
    - change (bAnn b1 !! annoUnquiescedAt = None). unfold b1. by rewrite unq_ne.
    - change (bann b1 backupTargetAnnotation <> ""). unfold b1. by rewrite bann_patch_ne.
    - rewrite <- Hp. apply prep_same. change (prepOf b1 = prepOf b). unfold b1. by rewrite bann_patch_ne. }
  destruct HI as [HI Hpast]. set (P := pb s2) in *.
  apply pass_bind, pass_bind. pose proof HI as (I1 & I2 & I3 & I4 & I5).
  apply (pass_mono _ _ _ _ _ (quiesce_known s2 p (bServer b) Hi2 I2 I5 Hu)). intros r s3 (Hi3 & Hl3 & Hun).
  pose proof (near_after _ _ Hi2 Hi3 Hl3) as Hn3. fold P in Hn3.
  assert (Hpost : forall b' s', quieted P b' s' -> quieted b b' s') by (intros b' s' (Q1 & Q2); split; [by eapply past_trans|done]).
  cbn [BackupFacts.safe pbind fst snd]. destruct r as [[]|e].
  - apply req_bind; [done|done|by eapply near_coh|]. intros now s4 Hi4 He4.
    pose proof (near_evo _ _ _ _ _ (sound_steady _ sync_steady) Hn3 He4) as Hn4.
    set (b2 := patch annoQuiescedAt (formatSeconds now) (patch annoQuiesceAttempted "true" P)).
    match goal with |- safe ?q _ _ => change q with (update b2) end.
    assert (Pb2 : past P b2) by (eapply past_trans; [by apply (past_patch annoQuiesceAttempted "true")|by apply past_patch]).
    eapply pass_mono; [eapply (answer_safe p P b2 s4 "true"); [done|done|done|done|by left| |done|]|].
    + eexists. split; [reflexivity|]. unfold aborted, b2. split; [by rewrite bann_patch_ne, bann_patch|by rewrite !bann_patch_ne].
    + destruct Hn4 as (N1 & N2 & [N3 _] & N4). split_and!; [done|by apply restic_patch; [apply restic_patch|]|]. intros Ev4. destruct (N4 Ev4) as (A4 & B4 & C4).
      split_and!; [by rewrite <- A4|rewrite <- A4; exact Pb2| |].
      * change (good (off s4) (gt s4) (patch annoQuiescedAt (formatSeconds now) (patch annoQuiesceAttempted "true" (with_bstatus P (bStatus (pb s4)))))).
        rewrite A4. apply good_neutral; [vm_compute; set_solver|]. eapply (answer_good _ _ _ p); [done| |done|by left|done|apply Hi4].
        rewrite <- A4. destruct HI as ((J1 & J2 & J3) & J'). split; [|done]. unfold open_. split_and!; [done|done|]. unfold failed in *. cbn. unfold sync in C4. by rewrite <- C4.
      * enough (with_bstatus (pb s4) (bStatus b2) = P) as -> by done. rewrite <- A4. by destruct P.
    + intros [b' [[]|e]] s' [Hi' Hx]; split; try done. by apply Hpost.
  - assert (Hfail : safe (failWith ("quiesce failed: " +:+ errText e) e P) (fin (fun _ b' s' => quieted b b' s') cohE) s3).
    { eapply spec_use; [apply (failWith_spec (A := False))|done|done|done]. }
    destruct e; try exact Hfail. specialize (Hun eq_refl).
    set (b2 := patch annoQuiesceAttempted "unsupported" P).
    match goal with |- safe ?q _ _ => change q with ((do! mlift (intendUnquiesce false); update) b2) end.
    assert (Hc2 : coh b2 s3).
    { eapply coh_patch; [done|exact Hn3|done..|]. intros Ev3 _ C3. destruct (proj2 (proj2 (proj2 Hn3)) Ev3) as (A3 & _).
      eapply (answer_good _ _ _ p); [done| |done|by right|done|apply Hi3].
      rewrite <- A3. destruct HI as ((J1 & J2 & J3) & J'). split; [|done]. unfold open_. split_and!; [done|done|]. unfold failed in *. cbn. unfold sync in C3. by rewrite <- C3. }
    apply lift_bind; [apply intend_quiet|done|done|]. intros [] s4 Hi4 He4.
    pose proof (near_evo _ _ _ _ _ (sound_steady _ sync_steady) Hn3 He4) as Hn4.
    eapply pass_mono; [eapply (answer_safe p P b2 s4 "unsupported"); [done|done|done|done|by right| |by apply past_patch|by eapply coh_evo]|].
    + eexists. split; [reflexivity|]. unfold aborted, b2. split; [by rewrite bann_patch|by rewrite bann_patch_ne].
    + intros [b' [[]|e]] s' [Hi' Hx]; split; try done. by apply Hpost.
Qed.
Lemma maybeQuiesce_spec : spec (maybeQuiesce cfg) (fun b s => open_ b /\ prepared b /\ targetOf b <> "" /\ near sync b s) (fun b _ b' s' => quieted b b' s').
Proof using Type.
  intros b s Hi (Ho & Hpr & Ht & Hn). unfold maybeQuiesce. unfold mbind at 1, mcatch at 1, mlift at 1, ofResult.
  destruct (parseBackupPreparation b) as [p|e] eqn:Ep; [|split; [done|]; by eapply near_coh]. cbn [pbind fst snd]. unfold mask.
  assert (Hstay : settled b -> fin (fun _ b' s' => quieted b b' s') cohE (b, Ok ()) s).
  { intros Hs. split; [done|]. split_and!; [apply past_refl|done|done|done]. }
  assert (Hfail : forall msg e s', inv s' -> near sync b s' -> safe (failWith msg e b) (fin (fun _ b' s' => quieted b b' s') cohE) s').
  { intros msg e s' Hi' Hn'. eapply spec_use; [apply (failWith_spec (A := False))|done|done|done]. }
  destruct (String.eqb_spec (match p with Some p => pOutcome p | None => "" end) "already-stopped") as [Es|Es].
  { apply Hstay. right. right. left. destruct p as [p|]; [|done]. by exists p. }
  destruct (bQuiesce b) eqn:Eq; cbn [negb]; [|apply Hstay; by right; right; right; left].
  destruct (cfgAgent cfg) eqn:Ea; cbn [negb].
  2:{ destruct (_ && _ && _); [by apply Hfail|]. apply Hstay. by right; right; right; right. }
  destruct (negb (String.eqb (bann b annoQuiesceAttempted) "") && negb (String.eqb (bann b annoQuiesceAttempted) "pending")) eqn:Eat.
  { apply Hstay. apply andb_true_iff in Eat as [E1 E2]. apply negb_true_iff, String.eqb_neq in E1, E2.
    destruct Hn as (_ & _ & [_ Hg] & _). destruct (g_att _ _ _ _ Hg E1) as ([Hx|[Hx|Hx]] & _); [done|by left|by right; left]. }
  assert (Hat : attempted b = "" \/ attempted b = "pending").
  { unfold attempted. apply andb_false_iff in Eat. rewrite !negb_false_iff, !String.eqb_eq in Eat. done. }
  destruct p as [p|]; [|exfalso; apply parse_none in Ep; by apply Hpr].
  destruct (parse_valid _ _ Ep) as (_ & [[Hl Hu]|Hl]); [|done].
  assert (Hbound : forall s', inv s' -> near sync b s' -> safe (quiesceBound cfg (Some p) b) (fin (fun _ b' s' => quieted b b' s') cohE) s').
  { intros s' Hi' Hn'. eapply spec_use; [apply quiesceBound_spec|done|by split_and!|done]. }
  destruct (String.eqb (bann b annoQuiesceAttempted) ""); [|apply (Hbound s); done].
  destruct (cfgPodBound cfg); [|apply (Hfail _ _ s); done].
  apply req_catch; [done|done|]. intros [[]|e] s1 Hi1 He1; pose proof (near_evo _ _ _ _ _ (sound_steady _ sync_steady) Hn He1) as Hn1;
    [by apply Hbound|by apply Hfail].
Qed.

(** ** The manifest *)

Lemma manifest_spec gs : specE (recordBackupManifest gs) (near sync) (fun b _ b' s' => keep cfg sync b b' s') (fun b _ b' s' => near sync b' s' /\ mcore b' = mcore b /\ past b b').
Proof using Type.
  intros b s Hi Hn. unfold recordBackupManifest, mask. destruct (sManifest (bStatus b)); [split; [done|]; by apply keep_refl|].
  assert (Herr : forall e s', inv s' -> near sync b s' ->
     fin (fun (_ : unit) b' s' => keep cfg sync b b' s') (fun (_ : berr) b' s' => near sync b' s' /\ mcore b' = mcore b /\ past b b') (b, Err e) s').
  { intros e s' Hi' Hn'. split; [done|]. split_and!; [done|done|apply past_refl]. }
  assert (Hwrite : forall f s', inv s' -> near sync b s' -> sPhase (f (bStatus b)) = sPhase (bStatus b) ->
     safe ((do! putStatus f; updateStatus) b) (fin (fun _ b' s' => keep cfg sync b b' s') (fun _ b' s' => near sync b' s' /\ mcore b' = mcore b /\ past b b')) s').
  { intros f s' Hi' Hn' Ef. set (b1 := with_bstatus b (f (bStatus b))).
    change ((do! putStatus f; updateStatus) b) with (updateStatus b1).
    assert (Hn1 : near sync b1 s') by (by apply near_status; [apply sync_steady| |]).
    eapply pass_mono; [apply (updateStatus_specE _ _ sync_steady _ _ Hi' Hn1)|]. intros [b' [[]|e]] s'' [Hi'' Y]; split; try done; cbn in Y |- *.
    - destruct Y as (Y1 & Y2 & Y3 & Y4). split_and!; [done|done|by rewrite Y3|]. apply (near_mono _ _ _ _ _ Y4). by intros _ _ [? _].
    - destruct Y as [-> Y]. split_and!; [done|done|by split_and!]. }
  apply lift_catch; [apply capture_quiet|done|]. intros [w|e] s1 Hi1 He1; pose proof (near_evo _ _ _ _ _ (sound_steady _ sync_steady) Hn He1) as Hn1; [|by apply Herr].
  assert (Hrest : forall u s2, inv s2 -> near sync b s2 ->
    safe ((if (u : bool) then do! putStatus (fun s => set_manifest s (MkManifest "LegacyUnknown" "" "")); updateStatus
      else
        do! mreq (ReadLayout gs);
        let? b <- (fun b => b);
        let strategy := if String.eqb (bStrategy b) "" then "restic-snapshot" else bStrategy b in
        do! putStatus (fun s => set_manifest s (MkManifest "Recorded" strategy (backupQuiesceOutcome b)));
        updateStatus) b) (fin (fun _ b' s' => keep cfg sync b b' s') (fun _ b' s' => near sync b' s' /\ mcore b' = mcore b /\ past b b')) s2).
  { intros [] s2 Hi2 Hn2; [by apply Hwrite|]. apply req_catch; [done|done|]. intros [[]|e] s3 Hi3 He3;
      pose proof (near_evo _ _ _ _ _ (sound_steady _ sync_steady) Hn2 He3) as Hn3; [|by apply Herr]. unfold mask. by apply Hwrite. }
  destruct w as [j|]; [|apply (Hrest false s1); done].
  match goal with |- safe ((do unknown <- (do w <- mlift (workerWaiting j); mret (negb w)); ?k) b) _ _ => idtac end.
  apply pass_bind, pass_bind, pass_bind. apply (pass_mono _ _ _ _ _ (quiet_safe _ _ _ (waiting_quiet j b) Hi1)).
  intros [u|e] s2 [Hi2 He2]; pose proof (near_evo _ _ _ _ _ (sound_steady _ sync_steady) Hn1 He2) as Hn2; cbn [BackupFacts.safe pbind fst snd]; [|by apply Herr].
  by apply (Hrest (negb u)).
Qed.

(** What a Job may be mirrored under: the question of saving is settled. *)
Definition mirrorable (b : backup) (s : st) : Prop := settled b /\ (aborted b <> "" \/ ~ failed b) /\ near sync b s.
Lemma released_settled b b' s : released b b' s -> settled b -> settled b'.
Proof using Type.
  intros [(_ & _ & E) _] Hs. injection E as E1 E2 E3 E4 E5. unfold BackupFacts.settled, sourceStopped in *. rewrite (prep_same b b' E5), E1, E2. done.
Qed.
(** Without a current object in memory nothing is sent. *)
Lemma quiesceBound_stale p : spec (quiesceBound cfg p) (near (fun _ _ => False)) (fun _ _ _ _ => False).
Proof using Type.
  intros b s Hi Hn. unfold quiesceBound, mask. apply lift_bind; [apply intend_quiet|done|by eapply near_coh|]. intros [] s1 Hi1 He1.
  pose proof (near_evo _ _ _ _ _ never_steady Hn He1) as (N1 & _ & [N3 _] & N4).
  match goal with |- safe (mbind (mput ?f) ?k b) _ _ => change (mbind (mput f) k b) with (k () (f b)) end. cbv beta.
  apply update_bind; [done|split_and!; [done|by apply restic_patch|]; intros Ev; by destruct (N4 Ev) as (_ & _ & [])|].
  intros s2 _ _ Ev. by destruct (N4 Ev) as (_ & _ & []).
Qed.
Lemma maybeQuiesce_stale : spec (maybeQuiesce cfg) (near (fun _ _ => False)) (fun b _ b' s' => b' = b /\ settled b /\ near (fun _ _ => False) b s').
Proof using Type.
  intros b s Hi Hn. unfold maybeQuiesce. unfold mbind at 1, mcatch at 1, mlift at 1, ofResult.
  destruct (parseBackupPreparation b) as [p|e] eqn:Ep; [|split; [done|]; by eapply near_coh]. cbn [pbind fst snd]. unfold mask.
  set (Po := fun (_ : unit) b' s' => b' = b /\ settled b /\ near (fun _ _ => False) b s').
  assert (Hstay : settled b -> fin Po cohE (b, Ok ()) s) by (intros Hs; by split).
  assert (Hfail : forall msg e s', inv s' -> near (fun _ _ => False) b s' -> safe (failWith msg e b) (fin Po cohE) s').
  { intros msg e s' Hi' Hn'. eapply spec_use; [apply (failWith_spec (A := False))|done| |done]. by apply (near_mono _ _ _ _ _ Hn'). }
  destruct (String.eqb_spec (match p with Some p => pOutcome p | None => "" end) "already-stopped") as [Es|Es].
  { apply Hstay. right. right. left. destruct p as [p|]; [|done]. by exists p. }
  destruct (bQuiesce b) eqn:Eq; cbn [negb]; [|apply Hstay; by right; right; right; left].
  destruct (cfgAgent cfg) eqn:Ea; cbn [negb].
  2:{ destruct (_ && _ && _); [by apply Hfail|]. apply Hstay. by right; right; right; right. }
  destruct (negb (String.eqb (bann b annoQuiesceAttempted) "") && negb (String.eqb (bann b annoQuiesceAttempted) "pending")) eqn:Eat.
  { apply Hstay. apply andb_true_iff in Eat as [E1 E2]. apply negb_true_iff, String.eqb_neq in E1, E2.
    destruct Hn as (_ & _ & [_ Hg] & _). destruct (g_att _ _ _ _ Hg E1) as ([Hx|[Hx|Hx]] & _); [done|by left|by right; left]. }
  assert (Hbound : forall s', inv s' -> near (fun _ _ => False) b s' -> safe (quiesceBound cfg p b) (fin Po cohE) s').
  { intros s' Hi' Hn'. eapply spec_use; [apply quiesceBound_stale|done|done|done]. }
  destruct p as [p|]; [|apply (Hbound s); done].
  destruct (String.eqb (bann b annoQuiesceAttempted) ""); [|apply (Hbound s); done].
  destruct (cfgPodBound cfg); [|apply (Hfail _ _ s); done].
  apply req_catch; [done|done|]. intros [[]|e] s1 Hi1 He1; pose proof (near_evo _ _ _ _ _ never_steady Hn He1) as Hn1;
    [by apply Hbound|by apply Hfail].
Qed.

(** The rest of [prepareBackupQuiesce], once the game has answered. *)
Definition recorded_ (gs : GS) : M duration :=
  got r <- prepareBackupSource cfg gs;
  match r with
  | Err (SourceChanged m) => failNow (SourceChanged m)
  | Err e => mfail e
  | Ok false => mret (5 * Second)
  | Ok true =>
      got r <- recordBackupManifest gs;
      match r with
      | Err ForeignWorker => waitForForeignBackupWorker cfg
      | Err e => do! fail ("cannot record capture metadata: " +:+ errText e); mret Second
      | Ok _ => mret 0
      end
  end.
Lemma recorded_spec gs : spec (recorded_ gs) mirrorable (fun b d b' s' => if 0 <? d then coh b' s' else past b b' /\ mirrorable b' s').
Proof using Type.
  intros b s Hi (S3 & O3 & Hn3). unfold recorded_. eapply spec_catch; [by apply (prepareBackupSource_spec sync sync_steady)|done|done| |].
  - intros r b4 s4 Hi4 (G4 & Hn4 & _). pose proof (grown_settled _ _ G4 S3) as S4.
    assert (O4 : aborted b4 <> "" \/ ~ failed b4) by (destruct G4 as (_ & _ & _ & _ & Ga & _ & _ & Gs); unfold failed; by rewrite Ga, Gs).
    destruct r; [|split; [done|]; by eapply near_coh].
    eapply spec_catch; [apply manifest_spec|done|done| |].
    + intros [] b5 s5 Hi5 Hk5. apply keep_grown in Hk5 as [G5 Hn5]. split; [done|]. cbn [fst snd]. split; [eapply past_trans; [apply G4|apply G5]|].
      split_and!; [by eapply grown_settled| |done]. destruct G5 as (_ & _ & _ & _ & Ga & _ & _ & Gs); unfold failed; by rewrite Ga, Gs.
    + intros e b5 s5 Hi5 (Hn5 & M5 & P5). pose proof (near_coh _ _ _ _ Hi5 Hn5) as Hc5.
      assert (Hfail : safe ((do! fail ("cannot record capture metadata: " +:+ errText e); mret Second) b5)
                (fin (fun d b' s' => if 0 <? d then coh b' s' else past b b' /\ mirrorable b' s') cohE) s5).
      { eapply spec_bind; [apply fail_coh|done|done|]. intros x b6 s6 Hi6 Hc6. by split. }
      destruct e; try exact Hfail. eapply spec_use; [apply foreign_spec|done|by apply near_abortable|].
      intros x b6 s6 Hi6. cbv beta. destruct (0 <? x); [done|]. intros Hr. pose proof Hr as [(P6 & A6 & _) Hn6].
      split; [eapply past_trans; [apply G4|]; by eapply past_trans|]. split_and!; [eapply released_settled; [exact Hr|by eapply settled_core]|by left|].
      apply (near_mono _ _ _ _ _ Hn6). by intros _ _ [_ ?].
  - intros e b4 s4 Hi4 Hc4.
    assert (Hdone : safe (failNow e b4) (fin (fun d b' s' => if 0 <? d then coh b' s' else past b b' /\ mirrorable b' s') cohE) s4).
    { eapply spec_use; [apply failNow_spec|done|done|]. intros x b5 s5 Hi5 [E Hc5]. by rewrite E. }
    destruct e; try (by split). exact Hdone.
Qed.
Lemma quiesce_spec F : sound F -> (forall b s, F b s -> sync b s) -> (forall b s s', F b s -> F (pb s') s') ->
  (forall b s h, F b s -> F b (with_held s h)) -> spec (prepareBackupQuiesce cfg) (fun b s => workable F b /\ near F b s)
    (fun b d b' s' => if 0 <? d then coh b' s' else past b b' /\ mirrorable b' s').
Proof using Type.
  intros HF HS HU HH b s Hi [Ho Hn]. unfold prepareBackupQuiesce. eapply spec_bind; [by apply (workload_spec F HF HS HU HH)|done|by split|].
  intros d b1 s1 Hi1. cbv beta. destruct (0 <? d) eqn:Ed; [intros Hc; split; [done|]; cbn; by rewrite Ed|]. intros [P1 Hw].
  assert (Hn1 : near sync b1 s1).
  { destruct Hw as [[_ (W1 & W2 & W3 & W4)]|[_ W]]; [by apply (near_sync F HS)|]. apply (near_mono _ _ _ _ _ W). by intros _ _ [_ ?]. }
  eapply (known_bind _ _ (fun r s' => match r with Ok (Some gs) => bVersion b1 = bVersion (pb s') -> ~ unheld b1 s' | _ => True end)); [|by eapply near_coh|].
  { apply (pass_mono _ _ _ _ _ (owned_known cfg _ b1 s1 Hi1 Hn1)). intros [[gs|]|e] s2 (X1 & X2 & X3); (split_and!; [done|done|]); [|done|done].
    intros Ev. by apply X3. }
  intros [gs|] s2 Hi2 He2 Hk.
  2:{ split; [done|]. cbn. apply (coh_evo cfg b1 s1); [by eapply near_coh|done]. }
  assert (Htail : forall b3 s3, inv s3 -> past b1 b3 -> mirrorable b3 s3 ->
    safe (recorded_ gs b3) (fin (fun d b' s' => if 0 <? d then coh b' s' else past b b' /\ mirrorable b' s') cohE) s3).
  { intros b3 s3 Hi3 P3 M3. eapply spec_use; [apply recorded_spec|done|done|]. intros x b4 s4 Hi4. cbv beta. destruct (0 <? x); [done|].
    intros [P4 M4]. split; [|done]. eapply past_trans; [exact P1|]. by eapply past_trans. }
  destruct Hw as [[G1 (W1 & W2 & W3 & W4)]|[Ab W]].
  - pose proof (near_evo _ _ _ _ _ (sound_steady _ HF) W4 He2) as Hn2. destruct W1 as [W0 [W1|W1]].
    + eapply spec_bind; [apply maybeQuiesce_spec|done|split_and!; [done..|by apply (near_sync F HS)]|]. intros [] b3 s3 Hi3 (P3 & O3 & S3 & Hn3).
      apply Htail; [done|done|]. split_and!; [done|right; apply O3|done].
    + assert (Hstale : near (fun _ _ => False) b1 s2) by (apply (near_mono _ _ _ _ _ Hn2); intros _ _ Hx; by apply (W1 _ _ Hx)).
      eapply spec_bind; [apply maybeQuiesce_stale|done|done|]. intros [] b3 s3 Hi3 (-> & S3 & Hn3).
      apply Htail; [done|apply past_refl|]. split_and!; [done|done|]. by apply (near_mono _ _ _ _ _ Hn3).
  - (* aborted and given back: this object is out of date *)
    assert (Hstale : near (fun _ _ => False) b1 s2).
    { assert (W2 : near (fun x t => unheld x t) b1 s2).
      { eapply near_evo; [apply sound_steady, unheld_sound| |exact He2]. apply (near_mono _ _ _ _ _ W). by intros _ _ [? _]. }
      apply (near_mono _ _ _ _ _ W2). intros Ev _ Hu. by apply (Hk Ev). }
    eapply spec_bind; [apply maybeQuiesce_stale|done|done|]. intros [] b3 s3 Hi3 (-> & S3 & Hn3).
    apply Htail; [done|apply past_refl|]. split_and!; [done|left; apply Ab|]. by apply (near_mono _ _ _ _ _ Hn3).
Qed.
End Admit.
