(* ===== verification/BackupSafe.v ===== *)
(** * A game is not left with saving off: the copy and the whole pass

    Mirroring a Job, authorizing a worker, aborting and deleting, up to [Reconcile],
    against the environment of [BackupFacts]. *)

From Stdlib Require Import Ascii.
From S2P Require Import Prelude GoTime GoText GoToken Prog Idle Lifecycle Power Backup BackupRun BackupFacts BackupPass BackupAdmit.
Local Open Scope Z_scope.
Local Open Scope m_scope.

Section Safe.
Context `{OwnerCodec} `{BackupCodec} (cfg : config).
Local Abbreviation inv := (BackupFacts.inv cfg).
Local Abbreviation good := (BackupFacts.good cfg).
Local Abbreviation near := (BackupFacts.near cfg).
Local Abbreviation coh := (BackupFacts.coh cfg).
Local Abbreviation safe := (BackupFacts.safe cfg).
Local Abbreviation spec := (BackupFacts.spec cfg).
Local Abbreviation specE := (BackupFacts.specE cfg).
Local Abbreviation fin := (BackupFacts.fin cfg).
Local Abbreviation settled := (BackupFacts.settled cfg).
Local Abbreviation mirrorable := (BackupAdmit.mirrorable cfg).
Local Abbreviation abortable := (BackupPass.abortable cfg).
Local Abbreviation cohE := (fun (_ : berr) b s => coh b s).

Local Ltac cond := match goal with |- safe ((if ?c then _ else _) _) _ _ => destruct c eqn:? end.

(** ** Facts that survive a pass *)

Record fact (F : backup -> st -> Prop) : Prop := {
  f_sound : sound F;
  f_sync b s : F b s -> sync b s;
  f_stored b s s' : F b s -> F (pb s') s';
  f_pb b s s' : pb s' = pb s -> F b s -> F b s' }.
Lemma f_held F : fact F -> forall b s h, F b s -> F b (with_held s h).
Proof using Type. intros HF b s h. by apply (f_pb _ HF). Qed.
Lemma fact_sync : fact sync.
Proof using Type. split; [apply sync_steady|done|done|]. unfold sync. by intros b s s' ->. Qed.
Lemma fact_never : fact (fun _ _ => False).
Proof using Type. split; [by intros ? ? ? ? ? ? ? ? []|done|done|done]. Qed.

Lemma evo_near F b s s' : sound F -> near F b s -> evo s s' -> near F b s'.
Proof using Type. intros HF. apply near_evo, sound_steady, HF. Qed.
Definition settledF : backup -> st -> Prop := fun b _ => settled b.
Lemma settledF_sound : sound settledF.
Proof using Type. apply core_sound, settled_core. Qed.
Lemma settledF_upd : upd settledF.
Proof using Type. intros b s s' Hm _ _ Hx. by eapply settled_core. Qed.
Lemma near_ready b s : near settledF b s -> near (ready cfg) b s.
Proof using Type. intros Hn. apply (near_mono _ _ _ _ _ Hn). by left. Qed.

(** ** Mirroring a Job *)

Lemma good_mirror o g p st0 : settled p -> aborted p <> "" \/ ~ failed p -> good o g p -> good o g (with_bstatus p st0).
Proof using Type.
  intros Hs Ho [G1 G2 G3 G4 G5 G6 G7]. split; try done.
  - intros Hu. destruct (G2 Hu) as [Hx|[Hx|[Hx|Hx]]]; [by left|by right; left|by right; right; left|].
    destruct Ho as [Ho|Ho]; [by right; left|done].
Qed.
Lemma mirror_put b s st0 : mirrorable b s -> near settledF (with_bstatus b st0) s.
Proof using Type.
  intros (S & O & (N1 & N2 & [N3 N5] & N4)). split_and!; [done..|split; [done|by apply good_mirror]|]. intros Ev. destruct (N4 Ev) as (A & B & C).
  split_and!; [done|by apply good_mirror|done].
Qed.
Lemma again_coh F d b b' s' : inv s' -> again cfg F d b b' s' -> coh b' s'.
Proof using Type. unfold again. intros Hi. destruct (0 <? d); [done|]. intros (_ & _ & Hn). by eapply near_coh. Qed.

Lemma scrape_spec F j : sound F -> spec (scrape cfg j) (near F) (fun _ _ => near F).
Proof using Type.
  intros HF b s Hi Hn. unfold scrape. apply req_catch; [done|done|]. intros r s1 Hi1 He1. pose proof (evo_near _ _ _ _ HF Hn He1) as Hn1.
  assert (Hrest : safe ((do since <- mlift (completedSince j);
      if snapshotScrapeGracePeriod cfg <? since then mret None
      else
        let? msg <- (fun b => sMessage (bStatus b));
        match r with
        | Err NoResticSummary | Ok _ => mret (Some (true, false))
        | Err e =>
            if String.eqb msg (errText e) then mret (Some (true, false))
            else do! putStatus (fun s => set_message s (errText e)); mret (Some (true, true))
        end) b) (fin (fun _ => near F) cohE) s1).
  { apply lift_bind; [apply since_quiet|done|by eapply near_coh|]. intros since s2 Hi2 He2. pose proof (evo_near _ _ _ _ HF Hn1 He2) as Hn2.
    cond; [by split|]. unfold mask.
    assert (Hw : forall e, safe ((if String.eqb (sMessage (bStatus b)) (errText e) then mret (Some (true, false))
            else do! putStatus (fun s => set_message s (errText e)); mret (Some (true, true))) b) (fin (fun _ => near F) cohE) s2).
    { intros e. cond; [by split|]. split; [done|]. by apply near_status. }
    destruct r as [m|e]; [by split|]. destruct e; try (by apply Hw). by split. }
  cbv zeta. destruct r as [m|e]; [|exact Hrest]. destruct (negb (String.eqb (rsSnapshotID m) "")); [|exact Hrest]. split; [done|]. by apply near_status.
Qed.
Lemma mirrorFinish_spec phase missing dirty : spec (mirrorFinish cfg phase missing dirty) (near settledF) (fun _ _ => coh).
Proof using Type.
  intros b s Hi Hn. unfold mirrorFinish, mask at 1. pose proof settledF_sound as HF. set (unexplained := _ && _).
  assert (Hput : forall f : status -> status, sPhase (f (bStatus b)) = sPhase (bStatus b) -> near settledF (with_bstatus b (f (bStatus b))) s)
    by (intros f Ef; by apply near_status).
  match goal with |- safe (mbind ?m ?k b) _ _ => set (tail := k); assert (Htail : forall b1, near settledF b1 s -> safe (tail () b1) (fin (fun _ => coh) cohE) s) end.
  2:{ destruct unexplained; [apply (Htail (with_bstatus b _)); by apply (Hput (fun s => set_message s "backup job reported Failed"))|by apply (Htail b)]. }
  intros b1 Hn1. unfold tail.
  apply req_bind; [done|done|by eapply near_coh|]. intros t1 s1 Hi1 He1. pose proof (evo_near _ _ _ _ HF Hn1 He1) as Hn2.
  apply req_bind; [done|done|by eapply near_coh|]. intros t2 s2 Hi2 He2. pose proof (evo_near _ _ _ _ HF Hn2 He2) as Hn3. unfold mask.
  set (conds := upsertCondition (if terminal phase then _ else _) _ t2). set (same := sameConditions _ conds).
  match goal with |- safe (mbind ?m ?k b1) _ _ => clear tail; set (tail := k); assert (Htail2 : forall b2, near settledF b2 s2 -> safe (tail () b2) (fin (fun _ => coh) cohE) s2) end.
  2:{ destruct same; [by apply (Htail2 b1)|]. apply (Htail2 (with_bstatus b1 _)). by apply near_status. }
  intros b2 Hb2. unfold tail.
  assert (Hend : forall b3 s3, inv s3 -> near settledF b3 s3 -> safe ((do! (if String.eqb phase "Succeeded" && negb missing then mlift recordServerBackupTime else mret ());
      if terminal phase then
        do again <- runUnquiesce cfg;
        if missing && (again =? 0) then mret (10 * Second) else mret again
      else mret (10 * Second)) b3) (fin (fun _ => coh) cohE) s3).
  { intros b3 s3 Hi3 Hn5.
    assert (Hrun : forall s4, inv s4 -> near settledF b3 s4 -> safe ((if terminal phase then
        do again <- runUnquiesce cfg;
        if missing && (again =? 0) then mret (10 * Second) else mret again
      else mret (10 * Second)) b3) (fin (fun _ => coh) cohE) s4).
    { intros s4 Hi4 Hn6. destruct (terminal phase); [|split; [done|]; by eapply near_coh].
      eapply spec_bind; [apply (runUnquiesce_spec cfg settledF settledF_sound settledF_upd); by left|done|done|].
      intros d b4 s5 Hi5 Hd. apply again_coh in Hd; [|done]. by destruct (missing && (d =? 0)); split. }
    destruct (String.eqb phase "Succeeded" && negb missing); [|by apply (Hrun s3)]. apply lift_bind; [apply serverTime_quiet|done|by eapply near_coh|]. intros [] s4 Hi4 He4. apply Hrun; [done|by eapply evo_near]. }
  destruct (dirty || unexplained || negb same); [|by apply Hend].
  eapply spec_bind; [apply (updateStatus_spec cfg settledF settledF_sound)|done|done|]. intros [] b3 s3 Hi3 (_ & _ & _ & Hx).
  apply Hend; [done|]. apply (near_mono _ _ _ _ _ Hx). by intros _ _ [? _].
Qed.
Lemma mirror_spec j : spec (mirrorJobStatus cfg j) mirrorable (fun _ _ => coh).
Proof using Type.
  intros b s Hi Hm. unfold mirrorJobStatus, mask. set (phase := jobPhase _ _).
  match goal with |- safe (mbind (putStatus ?f) ?k b) _ _ => change (mbind (putStatus f) k b) with (k () (with_bstatus b (f (bStatus b)))) end. cbv beta.
  pose proof (mirror_put _ _ (mirrorTimes b j).1 Hm) as Hn.
  cond; [|by eapply spec_use; [apply mirrorFinish_spec|done|done|]].
  eapply spec_bind; [apply (scrape_spec settledF), settledF_sound|done|done|]. intros [[missing changed]|] b1 s1 Hi1 Hn1.
  - by eapply spec_use; [apply mirrorFinish_spec|done|done|].
  - eapply spec_use; [apply failUnrestorable_spec|done|by apply near_ready|done].
Qed.
(** A success on record was authorized. *)
Lemma succeeded_mirrorable b s : near sync b s -> sPhase (bStatus b) = "Succeeded" -> mirrorable b s.
Proof using Type.
  intros Hn E. pose proof Hn as (_ & _ & [_ Hg] & _). split_and!; [apply (g_auth _ _ _ _ Hg); by right| |done]. right. unfold failed. by rewrite E.
Qed.
Lemma retry_spec : spec (retrySnapshotScrape cfg) (fun b s => near sync b s /\ sPhase (bStatus b) = "Succeeded") (fun _ _ => coh).
Proof using Type.
  intros b s Hi [Hn E]. unfold retrySnapshotScrape. apply lift_bind; [by apply find_quiet|done|by eapply near_coh|].
  intros found s1 Hi1 He1. pose proof (evo_near _ _ _ _ (f_sound _ fact_sync) Hn He1) as Hn1. pose proof (succeeded_mirrorable _ _ Hn1 E) as Hm. destruct found as [j|].
  - by eapply spec_use; [apply mirror_spec|done|done|].
  - eapply spec_use; [apply failUnrestorable_spec|done| |done]. apply (near_mono _ _ _ _ _ Hn1). intros _ _ _. left. exact (proj1 Hm).
Qed.

(** ** The source of the copy *)

(** An annotation the invariant does not read. *)
Lemma neutral_near F k v b s : k ∉ watched -> inv s -> near F b s -> coh (patch k v b) s.
Proof using Type.
  intros Hk Hi Hn. pose proof Hk as Hw. unfold watched in Hk. rewrite !not_elem_of_cons in Hk. destruct Hk as (K1 & K2 & K3 & K4 & K5 & K6 & K7 & K8 & K9 & _).
  eapply coh_patch; [done|exact Hn|done..|]. intros _ _ _. apply good_neutral; [done|apply Hi].
Qed.
Lemma neutral_past k v b : k ∉ watched -> past b (patch k v b).
Proof using Type.
  intros Hk. unfold watched in Hk. rewrite !not_elem_of_cons in Hk. destruct Hk as (K1 & K2 & K3 & K4 & K5 & K6 & K7 & K8 & K9 & _). by apply past_patch.
Qed.
Lemma neutral_update F k v b s : k ∉ watched -> fact F -> inv s -> near F b s ->
  safe (update (patch k v b)) (fin (fun _ b' s' => keep cfg F b b' s') (fun e b' s' => coh b' s' /\ forall m, e <> SourceChanged m)) s.
Proof using Type.
  intros Hk HF Hi Hn. apply (pass_mono _ _ _ _ _ (update_safe _ _ _ Hi (neutral_near F k v b s Hk Hi Hn))).
  intros [b' [[]|e]] s' (Hi' & Hs & Hx); split; try done; cbn in Hx |- *; [|by destruct Hx as (-> & Hx)].
  destruct Hx as (-> & Ev & w & Ep). destruct (proj2 (proj2 (proj2 Hn)) Ev) as (A & B & C).
  assert (Eph : sPhase (bStatus (pb s')) = sPhase (bStatus b)) by (rewrite Ep; symmetry; by apply (f_sync _ HF)).
  split_and!; [rewrite Ep; by apply (neutral_past k v b)|rewrite Ep; by apply (mcore_neutral k v b)|done|].
  apply near_stored; [done|]. by eapply (f_stored _ HF).
Qed.
Lemma workerSource_spec F : fact F ->
  specE prepareBackupWorkerSource (near F) (fun b _ b' s' => keep cfg F b b' s')
    (fun b e b' s' => coh b' s' /\ forall m, e = SourceChanged m -> near F b' s').
Proof using Type.
  intros HF b s Hi Hn. unfold prepareBackupWorkerSource.
  assert (Herr : forall e s', inv s' -> near F b s' ->
     fin (fun (_ : option backupWorkerSource) b' s' => keep cfg F b b' s') (fun e b' s' => coh b' s' /\ forall m, e = SourceChanged m -> near F b' s') (b, Err e) s').
  { intros e s' Hi' Hn'. split; [done|]. split; [by eapply near_coh|done]. }
  apply lift_catch; [apply source_quiet|done|]. intros [read|e] s1 Hi1 He1; pose proof (evo_near _ _ _ _ (f_sound _ HF) Hn He1) as Hn1; [|by apply Herr].
  unfold mask. cond.
  - destruct (unmarshalSource _); [|by apply Herr]. cond; [by apply Herr|]. split; [done|]. by apply keep_refl.
  - cond; [split; [done|]; by apply keep_refl|].
    match goal with |- safe (mbind (mput ?f) ?k b) _ _ => change (mbind (mput f) k b) with (mbind update (fun _ => mret (Some read.1)) (f b)) end.
    apply pass_bind. eapply pass_mono; [apply (neutral_update F); [vm_compute; set_solver|done|done|done]|].
    intros [b' [[]|e]] s' [Hi' Hx]; split; try done. cbn in Hx |- *. destruct Hx as [Hc Hne]. split; [done|]. intros m ->. by destruct (Hne m).
Qed.
Lemma budget_spec F found : sound F -> spec (quiesceBudget found) (near F) (fun b _ b' s' => b' = b /\ near F b s').
Proof using Type.
  intros HF b s Hi Hn. unfold quiesceBudget, mask. cond; [by split|]. destruct (parseNano _) as [d|]; [|by split].
  apply req_bind; [done|done|by eapply near_coh|]. intros now s1 Hi1 He1. split; [done|]. split; [done|]. by eapply evo_near.
Qed.

(** ** Authorizing a worker *)

(** A prepared worker has a word for a UID. *)
Lemma last_in {A} (l : list A) x : last l = Some x -> x ∈ l.
Proof using Type. intros E. apply last_Some in E as [l' ->]. apply elem_of_app. right. by left. Qed.
Lemma prepared_known j s : inv s ->
  safe (preparedBackupWorker j) (fun r s' => inv s' /\ evo s s' /\ (forall w, r = Ok (Some w) -> token (wpUID w) = true)) s.
Proof using Type.
  intros Hi. unfold preparedBackupWorker. apply pass_check. apply pass_call; [done|done|]. intros [pods|e] s1 Hi1 He1 (s2 & _ & Hf); [|by split_and!].
  split_and!; [done|done|]. intros w [= Ew]. destruct (Nat.eqb _ _); [|done]. apply last_in in Ew. cbn in Hf. destruct Hf as [Hf _].
  apply list_elem_of_In, filter_In in Ew as [Ew Ec]. apply filter_In in Ew as [Ew _]. rewrite Forall_forall in Hf. apply andb_true_iff in Ec as [Ec _].
  unfold token. apply andb_true_iff. split; [|apply Hf; by apply list_elem_of_In]. apply negb_true_iff in Ec. by repeat (apply orb_false_iff in Ec as [Ec _]); rewrite Ec.
Qed.
Lemma good_authorized o g v p : v <> "" -> settled p -> good o g p -> good o g (patch backupAuthorizedWorkerAnnotation v p).
Proof using Type.
  intros Hv Hs Hg.
  assert (Hp : parseBackupPreparation (patch backupAuthorizedWorkerAnnotation v p) = parseBackupPreparation p) by (by apply prep_same, bann_patch_ne).
  destruct Hg as [G1 G2 G3 G4 G5 G6 G7].
  split; unfold owes, closing, BackupFacts.settled, sourceStopped, attempted, authorized, copyDeadline, aborted, targetOf in *.
  - intros u Hu. rewrite Hp, !bann_patch_ne, unq_ne by done. by apply G1.
  - rewrite !bann_patch_ne, unq_ne by done. done.
  - rewrite Hp, !bann_patch_ne by done. done.
  - intros _. rewrite Hp, !bann_patch_ne by done. done.
  - rewrite bann_patch, bann_patch_ne by done. intros Hx. split; [done|]. apply (G5 Hx).
  - rewrite !bann_patch_ne by done. done.
  - rewrite !bann_patch_ne by done. done.
Qed.
Lemma authorized_past v b : v <> "" -> past b (patch backupAuthorizedWorkerAnnotation v b).
Proof using Type.
  intros Hv. unfold past, authorized, copyDeadline. rewrite bann_patch, bann_patch_ne by done. by split_and!.
Qed.
(** The worker is on record before it gets its token. *)
Definition entitled (deadline : time) (b : backup) (s : st) : Prop :=
  mirrorable b s /\ authorized b <> "" /\ copyDeadline b <> "" /\ denotes (copyDeadline b) deadline.
Lemma entitle_spec v deadline : v <> "" ->
  spec (let? authorized <- (fun b => bann b backupAuthorizedWorkerAnnotation);
        if negb (String.eqb authorized v) then do! mput (patch backupAuthorizedWorkerAnnotation v); update else mret ())
    (fun b s => mirrorable b s /\ copyDeadline b <> "" /\ denotes (copyDeadline b) deadline) (fun _ _ => entitled deadline).
Proof using Type.
  intros Hv b s Hi (Hm & Hd & Hd'). unfold mask. destruct (String.eqb_spec (bann b backupAuthorizedWorkerAnnotation) v) as [E|E]; cbn [negb].
  { split; [done|]. split_and!; [done| |done|done]. unfold authorized. cbn. by rewrite E. }
  pose proof Hm as (Hs & Ho & Hn). pose proof Hn as (N1 & N2 & [N3 N5] & N4).
  match goal with |- safe (mbind (mput ?f) ?k b) _ _ => change (mbind (mput f) k b) with (update (f b)) end.
  set (b1 := patch backupAuthorizedWorkerAnnotation v b).
  assert (Hset : forall x, mcore x = mcore b -> settled x) by (intros x Hx; by eapply settled_core).
  assert (Mb1 : mcore b1 = mcore b) by (unfold mcore, attempted, aborted, targetOf, b1; by rewrite !bann_patch_ne by done).
  apply bind_ret, update_bind; [done| |].
  - split_and!; [done|by apply restic_patch|]. intros Ev. destruct (N4 Ev) as (A & B & C).
    assert (E1 : with_bstatus b1 (bStatus (pb s)) = patch backupAuthorizedWorkerAnnotation v (pb s)) by (by rewrite <- A).
    assert (E2 : with_bstatus (pb s) (bStatus b1) = b) by (rewrite <- A; by destruct b).
    split_and!; [by rewrite <- A|rewrite <- A; by apply (authorized_past v b)|rewrite E1; apply good_authorized; [done| |apply Hi]|by rewrite E2].
    apply Hset. by rewrite <- A.
  - intros s1 Hi1 _ Ev (w & Ep). destruct (N4 Ev) as (A & B & C). split; [done|]. cbn [fst snd].
    assert (Em : mcore (pb s1) = mcore b) by (by rewrite Ep). assert (Ed : copyDeadline (pb s1) = copyDeadline b) by (rewrite Ep; apply (bann_patch_ne _ v b); done).
    split_and!; [split_and!; [by apply Hset| |by apply near_stored]| |by rewrite Ed|by rewrite Ed].
    + apply core_eqs in Em as (_ & _ & _ & -> & _). destruct Ho as [Ho|Ho]; [by left|right]. rewrite Ep. unfold failed in *. cbn. unfold sync in C. by rewrite <- C.
    + rewrite Ep. change (bann b1 backupAuthorizedWorkerAnnotation <> ""). unfold b1. by rewrite bann_patch.
Qed.

(** After a call that changed the rest of the state. *)
Lemma near_regood F b s s' : fact F -> inv s' -> later (pb s) (pb s') -> near F b s -> near F b s'.
Proof using Type.
  intros HF Hi' Hl (N1 & N2 & N3 & N4). destruct (later_version _ _ Hl) as [V1 V2]. split_and!; [lia|by eapply past_trans, past_later|done|].
  intros Ev. assert (Ep : pb s' = pb s) by (apply V2; lia). rewrite Ep in Ev. destruct (N4 Ev) as (A & B & C).
  pose proof (f_pb _ HF b s s' Ep C) as C'. split_and!; [by rewrite Ep|  |done].
  replace b with (with_bstatus (pb s') (bStatus b)) by (rewrite Ep, <- A; by destruct b). apply good_phase; [apply Hi'|]. by apply (f_sync _ HF).
Qed.
Lemma mirrorable_regood b s s' : inv s' -> later (pb s) (pb s') -> mirrorable b s -> mirrorable b s'.
Proof using Type. intros Hi Hl (M1 & M2 & M3). split_and!; [done..|]. by eapply near_regood; [apply fact_sync| | |]. Qed.
Lemma mirrorable_evo b s s' : evo s s' -> mirrorable b s -> mirrorable b s'.
Proof using Type. intros He (M1 & M2 & M3). split_and!; [done..|]. eapply evo_near; [apply (f_sound _ fact_sync)|done|done]. Qed.

(** The token is written for the worker on record, until the deadline on record. *)
Lemma gate_safe b s w deadline (k : result berr unit -> M (duration + (time * job))) Q :
  inv s -> entitled deadline b s -> token w = true ->
  (forall r s', inv s' -> mirrorable b s' -> safe (k r b) Q s') ->
  safe (mcatch (mreq (SetGate (backupStartConfigMapName (bName b) (bUID b)) (startToken (bUID b) w (backupWorkerSourceID b) deadline))) k b) Q s.
Proof using Type.
  intros Hi (Hm & Ha & Hd & Hd') Hw Hk. apply pass_bind, pass_bind. split; [done|]. intros res s' (s1 & Ht & Hf).
  destruct (tick_evo _ _ _ Hi Ht) as [Hi1 He1]. cbn in Hf. set (t := startToken _ _ _ _) in *.
  destruct (String.eqb_spec t "") as [Et|_]; [done|]. destruct Hf as (t' & Hf & ->).
  assert (Hp : past b (pb s1)) by (eapply past_trans; [apply Hm|by apply past_later, He1]).
  assert (Hi' : inv (with_gt (with_idle s1 false false) t')).
  { apply (stored_step cfg s1); cbn; [done| |lia|apply past_refl|by eapply inv_restic|done|by right].
    destruct Hf as [->|[-> _]]; [apply Hi1|]. destruct (i_good _ _ Hi1) as [G1 G2 G3 G4 G5 G6 G7]. split; try done. intros _.
    destruct Hp as (P1 & _ & _ & P4 & P5). split_and!; [by apply P4|by rewrite (P5 Hd)|].
    exists w, (backupWorkerSourceID b), deadline. split_and!; [done|apply sha256hex_token|by rewrite <- P1|by rewrite (P5 Hd)]. }
  split; [done|]. apply Hk; [done|]. eapply mirrorable_regood; [done| |exact Hm]. cbn. apply He1.
Qed.
Lemma stop_coh {A} (m : M duration) Pr (Po : duration + A -> backup -> st -> Prop) b s : spec m Pr (fun _ _ => coh) -> inv s -> Pr b s ->
  (forall d b' s', coh b' s' -> Po (inl d) b' s') -> safe (stop m b) (fin Po cohE) s.
Proof using Type. intros Hm Hi Hp Hc. unfold stop. eapply spec_bind; [exact Hm|done|done|]. intros d b1 s1 Hi1 Hc1. split; [done|]. by apply Hc. Qed.
Lemma abort_coh msg : spec (abortResticCopy cfg msg) abortable (fun _ _ => coh).
Proof using Type.
  intros b s Hi Ha. eapply spec_use; [apply abort_spec|done|done|]. intros d b1 s1 Hi1. cbv beta. destruct (0 <? d); [done|]. intros [_ Hn]. by eapply near_coh.
Qed.
Lemma foreign_coh : spec (waitForForeignBackupWorker cfg) abortable (fun _ _ => coh).
Proof using Type.
  intros b s Hi Ha. eapply spec_use; [apply foreign_spec|done|done|]. intros d b1 s1 Hi1. cbv beta. destruct (0 <? d); [done|]. intros [_ Hn]. by eapply near_coh.
Qed.

(** What a step of the start ends in: to be retried, or with an authorized worker. *)
Definition started (r : duration + (time * job)) (b : backup) (s : st) : Prop := match r with inl _ => coh b s | inr _ => mirrorable b s end.
Lemma authorize_spec F j g worker : fact F -> token (wpUID worker) = true ->
  spec (authorizeWorker cfg j g worker) (fun b s => workable F b /\ near F b s) (fun _ => started).
Proof using Type.
  intros HF Hw b s Hi [Ho Hn]. unfold authorizeWorker. unfold mbind at 1, mcatch at 1, mlift at 1, ofResult.
  destruct (parseBackupPreparation b) as [p|e]; [|split; [done|]; by eapply near_coh]. cbn [pbind fst snd]. unfold mask at 1.
  eapply spec_catch; [by apply (deadline_spec cfg F backupQuiesceDeadlineAnnotation (copyBudget cfg j p b) (f_sound _ HF) (f_sync _ HF)); [by right|..]|done|done| |].
  2:{ intros e b1 s1 Hi1 [Hc1 _]. by split. }
  intros deadline b1 s1 Hi1 (K1 & D1 & D2). apply keep_grown in K1 as [G1 Hn1]. pose proof (grown_workable _ _ _ G1 Ho) as Ho1.
  eapply spec_bind; [apply (quiesce_spec cfg F (f_sound _ HF) (f_sync _ HF) (f_stored _ HF) (f_held _ HF))|done|by split|].
  intros d b2 s2 Hi2. cbv beta. destruct (0 <? d); [by split|]. intros [P2 Hm2].
  assert (D3 : copyDeadline b2 <> "" /\ denotes (copyDeadline b2) deadline) by (destruct P2 as (_ & _ & _ & _ & P2); by rewrite (P2 D1)).
  assert (Hstop : forall msg b3 s3, inv s3 -> near sync b3 s3 -> safe (stop (A := time * job) (abortResticCopy cfg msg) b3) (fin started cohE) s3).
  { intros msg b3 s3 Hi3 Hn3. eapply stop_coh; [apply abort_coh|done|by apply near_abortable|done]. }
  eapply spec_catch; [apply (workerSource_spec sync fact_sync)|done|apply Hm2| |].
  2:{ intros e b3 s3 Hi3 [Hc3 Hs3]. destruct e; try (by split). by eapply Hstop, Hs3. }
  intros src b3 s3 Hi3 K3. pose proof K3 as (P3 & M3 & S3 & Hn3).
  assert (Hm3 : mirrorable b3 s3).
  { destruct Hm2 as (A1 & A2 & _). split_and!; [by eapply settled_core| |done]. unfold failed. rewrite S3. by apply core_eqs in M3 as (_ & _ & _ & -> & _). }
  assert (D4 : copyDeadline b3 <> "" /\ denotes (copyDeadline b3) deadline) by (destruct P3 as (_ & _ & _ & _ & P3); by rewrite (P3 (proj1 D3))).
  apply lift_bind; [apply prepared_quiet|done|by eapply near_coh|]. intros current s4 Hi4 He4. pose proof (mirrorable_evo _ _ _ He4 Hm3) as Hm4.
  destruct (match current with Some _ => _ | None => _ end); [split; [done|]; eapply near_coh; [done|apply Hm4]|].
  apply req_bind; [done|done|eapply near_coh; [done|apply Hm4]|]. intros now s5 Hi5 He5. pose proof (mirrorable_evo _ _ _ He5 Hm4) as Hm5.
  cond; [by apply Hstop; [|apply Hm5]|].
  assert (Hne : wpUID worker <> "") by (intros E; by rewrite E in Hw).
  pose proof (entitle_spec _ deadline Hne b3 s5 Hi5 (conj Hm5 D4)) as He. unfold mask in He |- *.
  apply pass_bind. apply (pass_mono _ _ _ _ _ He). intros [b6 [[]|e]] s6 [Hi6 Hx]; cbn [fst snd] in *; [|by split].
  destruct (negb (String.eqb (gtToken g) _)); [|split; [done|]; apply Hx].
  apply gate_safe; [done|done|done|]. intros [[]|e] s7 Hi7 Hm7; (split; [done|]); [done|]. eapply near_coh; [done|apply Hm7].
Qed.

(** ** An abort on record is not touched by a claim *)

Definition answer {A} (r : req A) : result berr A -> Prop :=
  match r in req A return result berr A -> Prop with
  | UpdateBackup b => fun res => forall b', res = Ok b' -> bAnn b' = bAnn b
  | _ => fun _ => True
  end.
Fixpoint kept {A} (p : P A) (R : A -> Prop) : Prop :=
  match p with Ret a => R a | Call r k => forall res, answer r res -> kept (k res) R | OutOfFuel => True end.
Lemma env_answer {A} (r : req A) res s s' : env r res s s' -> answer r res.
Proof using Type.
  intros (s1 & _ & He). destruct r; try done. intros b' ->. cbn in He. destruct He as [(_ & v & _ & ->) ->]. done.
Qed.
Lemma safe_kept {A} (p : P A) Q R s : safe p Q s -> kept p R -> safe p (fun a s' => Q a s' /\ R a) s.
Proof using Type.
  revert s. induction p as [a|B r k IH|]; intros s Hp Hk; [done| |done]. destruct Hp as [Hpre Hp]. split; [done|]. intros res s' He.
  destruct (Hp res s' He) as [Hi Hs]. split; [done|]. apply IH; [done|]. apply Hk. by eapply env_answer.
Qed.
Lemma kept_bind {A B} (p : P A) (f : A -> P B) R : kept p (fun a => kept (f a) R) -> kept (pbind p f) R.
Proof using Type. induction p as [a|C r k IH|]; cbn; auto. Qed.
Lemma kept_mono {A} (p : P A) (R R' : A -> Prop) : kept p R -> (forall a, R a -> R' a) -> kept p R'.
Proof using Type. intros Hk HR. induction p as [a|C r k IH|]; cbn in *; auto. Qed.
Lemma kept_any {A} (p : P A) (R : A -> Prop) : (forall a, R a) -> kept p R.
Proof using Type. intros HR. induction p as [a|C r k IH|]; cbn; auto. Qed.

Definition keeps {A} (m : M A) : Prop := forall b, kept (m b) (fun x => aborted x.1 = aborted b).
Lemma keeps_bind {A B} (m : M A) (k : A -> M B) : keeps m -> (forall a, keeps (k a)) -> keeps (mbind m k).
Proof using Type.
  intros Hm Hk b. apply kept_bind. apply (kept_mono _ _ _ (Hm b)). intros [b' [a|e]] E; [|done]. apply (kept_mono _ _ _ (Hk a b')).
  intros x Ex. cbn in E. congruence.
Qed.
Lemma keeps_lift {A} (p : backup -> P (result berr A)) : keeps (mlift p).
Proof using Type. intros b. by apply kept_bind, kept_any. Qed.
Lemma keeps_req {A} (r : req A) : keeps (mreq r).
Proof using Type. intros b. by apply kept_bind, kept_any. Qed.
Lemma keeps_put f : (forall b, aborted (f b) = aborted b) -> keeps (mput f).
Proof using Type. intros Hf b. apply Hf. Qed.
Lemma keeps_mask {A B} (f : backup -> A) (k : A -> M B) : (forall a, keeps (k a)) -> keeps (mask f k).
Proof using Type. intros Hk b. apply Hk. Qed.
Lemma keeps_update : keeps update.
Proof using Type. intros b res Ha. destruct res as [b'|e]; cbn; [|done]. unfold aborted, bann. by rewrite (Ha b' eq_refl). Qed.
Lemma claim_keeps : keeps claimBackupTarget.
Proof using Type.
  unfold claimBackupTarget, recoverBackupTarget.
  repeat first [ apply keeps_bind; [|intros ?] | apply keeps_mask; intros ? | apply keeps_lift | apply keeps_req | apply keeps_update
    | apply keeps_put; intros ?; unfold aborted, bann, ann; cbn; by rewrite ?lookup_insert_ne, ?lookup_delete_ne by done | done | case_match ].
Qed.
Lemma claim_specE : specE claimBackupTarget (near sync) (fun b c b' s' => grown b b' /\ near sync b' s' /\ (c = true -> targetOf b' <> ""))
  (fun b _ b' s' => coh b' s' /\ aborted b' = aborted b).
Proof using Type.
  intros b s Hi Hn. pose proof fact_sync as HF.
  eapply pass_mono; [apply safe_kept; [by apply (claim_spec cfg sync (f_sound _ HF) (f_sync _ HF) (f_stored _ HF) (f_held _ HF))|apply claim_keeps]|].
  intros [b' [c|e]] s' [[Hi' Hx] Ha]; by split.
Qed.

(** ** Starting the copy *)

Lemma abort_stop F (Po : duration + (time * job) -> backup -> st -> Prop) msg b s : fact F -> inv s -> near F b s ->
  (forall d b' s', coh b' s' -> Po (inl d) b' s') -> safe (stop (A := time * job) (abortResticCopy cfg msg) b) (fin Po cohE) s.
Proof using Type.
  intros HF Hi Hn Hc. eapply stop_coh; [apply abort_coh|done|by eapply near_abortable, near_sync, Hn; [done|apply (f_sync _ HF)]|done].
Qed.
Lemma supervise_spec F g j : fact F -> spec (superviseWorker cfg g j) (fun b s => workable F b /\ near F b s) (fun _ => started).
Proof using Type.
  intros HF b s Hi [Ho Hn]. unfold superviseWorker. cond; [by eapply abort_stop|]. cond.
  - unfold mask. destruct (String.eqb_spec (bann b backupAuthorizedWorkerAnnotation) "") as [E|E]; [by eapply abort_stop|].
    eapply stop_coh; [apply mirror_spec|done| |done]. pose proof Hn as (_ & _ & [_ Hg] & _).
    split_and!; [apply (g_auth _ _ _ _ Hg); by left|apply Ho|by eapply near_sync; [apply (f_sync _ HF)|]].
  - eapply (known_bind _ _ (fun r _ => forall w, r = Ok (Some w) -> token (wpUID w) = true)); [by apply prepared_known|by eapply near_coh|].
    intros [w|] s3 Hi3 He3 Hw; pose proof (evo_near _ _ _ _ (f_sound _ HF) Hn He3) as Hn3.
    + eapply spec_use; [by apply (authorize_spec F); [|apply Hw]|done|by split|done].
    + eapply spec_bind; [apply upsert_spec, (f_sound _ HF)|done|done|]. intros [] b4 s4 Hi4 (_ & _ & _ & Hn4). split; [done|]. by eapply near_coh.
Qed.
Lemma launch_spec F found source preparation : fact F ->
  spec (launchWorker cfg found source preparation) (near F) (fun b _ b' s' => b' = b /\ near F b s').
Proof using Type.
  intros HF b s Hi Hn. unfold launchWorker, mask. destruct found as [j|]; [by split|].
  apply pass_bind. split; [done|]. intros res s3 (s2 & Ht & ->). destruct (tick_evo _ _ _ Hi Ht) as [Hi2 He2].
  assert (Hi3 : inv (with_idle s2 false false)) by (apply (inv_same cfg s2); auto). split; [done|].
  assert (Hn3 : near F b (with_idle s2 false false)) by (eapply near_regood; [done|done|cbn; apply He2|done]).
  destruct res as [j|e]; (split; [done|]); [done|]. by eapply near_coh.
Qed.
Lemma ensure_spec F found bound source preparation : fact F ->
  spec (ensureWorker cfg found bound source preparation) (fun b s => workable F b /\ near F b s) (fun _ => started).
Proof using Type.
  intros HF b s Hi [Ho Hn]. unfold ensureWorker, mask at 1.
  apply req_bind; [done|done|by eapply near_coh|]. intros g s1 Hi1 He1. pose proof (evo_near _ _ _ _ (f_sound _ HF) Hn He1) as Hn1.
  match goal with |- safe (mcatch ?m ?k b) _ _ => set (tail := k); assert (Htail : forall t s2, inv s2 -> near F b s2 -> safe (tail t b) (fin started cohE) s2) end.
  { intros t s2 Hi2 Hn2. unfold tail. cbv zeta. cond; [by eapply abort_stop|].
    eapply spec_bind; [by apply (launch_spec F)|done|done|]. intros j b3 s3 Hi3 [-> Hn3]. eapply spec_use; [by apply (supervise_spec F)|done|by split|done]. }
  destruct found as [j|]; [by apply (Htail (Ok ()) s1)|]. apply req_catch; [done|done|]. intros t s2 Hi2 He2. apply Htail; [done|].
  by eapply evo_near; [apply (f_sound _ HF)| |].
Qed.

(** After an abort that gave the server back, an object that still holds it is out
    of date. *)
Lemma released_stale b b' s s' gs : released cfg b b' s -> evo s s' ->
  (bVersion b' = bVersion (pb s') -> ~ unheld b' s' /\ gsName gs = bServer b' /\ gann gs backupRecoveryLineageAnnotation = "") ->
  near (fun _ _ => False) b' s'.
Proof using Type.
  intros [_ Hn] He Hk.
  assert (Hn' : near (fun x t => unheld x t) b' s').
  { eapply evo_near; [apply unheld_sound| |exact He]. apply (near_mono _ _ _ _ _ Hn). by intros _ _ [? _]. }
  apply (near_mono _ _ _ _ _ Hn'). intros Ev _ Hu. by destruct (Hk Ev) as [? _].
Qed.
Lemma admitCopy_spec found preparation : spec (admitCopy cfg found preparation) (fun b s => open_ b /\ near sync b s) (fun _ => started).
Proof using Type.
  intros b s Hi [Ho Hn]. unfold admitCopy. pose proof fact_sync as HF.
  assert (Hw : workable sync b) by (split; [right; apply Ho|by left]).
  eapply spec_bind; [apply (workload_spec cfg sync (f_sound _ HF) (f_sync _ HF) (f_stored _ HF) (f_held _ HF))|done|by split|].
  intros d b1 s1 Hi1. cbv beta. destruct (0 <? d); [by split|]. intros [P1 Hd].
  assert (Hn1 : near sync b1 s1).
  { destruct Hd as [[_ (_ & _ & _ & W)]|[_ W]]; [done|]. apply (near_mono _ _ _ _ _ W). by intros _ _ [_ ?]. }
  eapply (known_bind _ _ (fun r s' => match r with Ok (Some gs) => bVersion b1 = bVersion (pb s') ->
       ~ unheld b1 s' /\ gsName gs = bServer b1 /\ gann gs backupRecoveryLineageAnnotation = "" | _ => True end)); [|by eapply near_coh|].
  { apply (pass_mono _ _ _ _ _ (owned_known cfg _ b1 s1 Hi1 Hn1)). intros [[gs|]|e] s2 (X1 & X2 & X3); by split_and!. }
  intros [gs|] s2 Hi2 He2 Hk; [|split; [done|]; apply (coh_evo cfg b1 s1); [by eapply near_coh|done]].
  assert (Hgo : exists F, fact F /\ workable F b1 /\ near F b1 s2).
  { destruct Hd as [[_ (W1 & _ & _ & W4)]|Hr]; [exists sync; split; [done|]; split; [done|exact (evo_near _ _ _ _ sync_steady W4 He2)]|].
    exists (fun _ _ => False). split; [apply fact_never|]. split; [|by eapply released_stale]. split; [left; apply Hr|right; by intros x t []]. }
  destruct Hgo as (F & HF' & W & Hn2).
  eapply spec_catch; [by apply (workerSource_spec F)|done|done| |].
  - intros [src|] b3 s3 Hi3 Hk3; apply keep_grown in Hk3 as [G3 Hn3].
    + eapply spec_use; [by apply (ensure_spec F)|done|split; [by eapply grown_workable|done]|done].
    + eapply spec_bind; [apply upsert_spec, (f_sound _ HF')|done|done|]. intros [] b4 s4 Hi4 (_ & _ & _ & Hn4). split; [done|]. by eapply near_coh.
  - intros e b3 s3 Hi3 [Hc3 Hs3]. destruct e; try (by split). eapply abort_stop; [exact HF'|done|by eapply Hs3|done].
Qed.

Lemma open_abortable b s : inv s -> coh b s -> aborted b = "" -> abortable b s.
Proof using Type. intros Hi Hc Ha. by split. Qed.
Lemma preparedRestic_spec found : spec (preparedRestic cfg found) (fun b s => open_ b /\ near sync b s) (fun _ => started).
Proof using Type.
  intros b s Hi [Ho Hn]. unfold preparedRestic, mask at 1. pose proof fact_sync as HF.
  match goal with |- safe (mcatch ?m ?k b) _ _ => set (tail := k);
    assert (Htail : forall b1 s1, inv s1 -> open_ b1 -> near sync b1 s1 -> safe (tail (Ok true) b1) (fin started cohE) s1) end.
  { intros b1 s1 Hi1 Ho1 Hn1. unfold tail.
    eapply spec_catch; [apply (deadline_spec cfg sync backupPreparationDeadlineAnnotation _ (f_sound _ HF) (f_sync _ HF)); [left; vm_compute; set_solver|done|done]|done|done| |].
    2:{ intros e b2 s2 Hi2 [Hc2 Ha2]. eapply stop_coh; [apply abort_coh|done|apply open_abortable; [done|done|]|done]. rewrite Ha2. apply Ho1. }
    intros preparation b2 s2 Hi2 (Hk2 & _). apply keep_grown in Hk2 as [G2 Hn2]. pose proof (grown_open _ _ G2 Ho1) as Ho2. unfold mask.
    assert (Hlate : forall late s3, inv s3 -> near sync b2 s3 -> safe ((if (late : bool) then stop (abortResticCopy cfg "worker preparation deadline exceeded before copy authorization")
          else
            do over <- quiesceBudget found;
            match over with
            | Some message => stop (abortResticCopy cfg message)
            | None => admitCopy cfg found preparation
            end) b2) (fin started cohE) s3).
    { intros late s3 Hi3 Hn3. destruct late; [by eapply abort_stop|].
      eapply spec_bind; [apply budget_spec, (f_sound _ HF)|done|done|]. intros [msg|] b4 s4 Hi4 [-> Hn4]; [by eapply abort_stop|].
      eapply spec_use; [apply admitCopy_spec|done|by split|done]. }
    destruct (String.eqb (bann b2 backupAuthorizedWorkerAnnotation) ""); [|by apply (Hlate false)].
    apply pass_bind. eapply pass_mono; [apply (req_bind cfg Now _ (fun _ b' s' => b' = b2 /\ near sync b2 s')); [done|done|by eapply near_coh|]|].
    { intros now s3 Hi3 He3. split; [done|]. split; [done|]. by eapply evo_near; [apply sync_steady| |]. }
    intros [b3 [late|e]] s3 [Hi3 Hx]; [|by split]. destruct Hx as [Hb Hn3]. cbn [fst snd] in *. subst b3. by apply Hlate. }
  destruct (String.eqb (bann b backupPreparationDeadlineAnnotation) ""); [|by apply (Htail b s)].
  eapply spec_catch; [apply claim_specE|done|done| |].
  - intros [] b1 s1 Hi1 (G1 & Hn1 & _); [apply Htail; [done|by eapply grown_open|done]|]. split; [done|]. by eapply near_coh.
  - intros e b1 s1 Hi1 [Hc1 Ha1]. unfold tail. destruct e; try (by split).
    eapply stop_coh; [apply abort_coh|done|apply open_abortable; [done|done|]|done]. rewrite Ha1. apply Ho.
Qed.
Lemma startRestic_spec : spec (startRestic cfg) (fun b s => open_ b /\ near sync b s) (fun _ => started).
Proof using Type.
  intros b s Hi [Ho Hn]. unfold startRestic. pose proof fact_sync as HF.
  apply lift_bind; [by apply find_quiet|done|by eapply near_coh|]. intros found s1 Hi1 He1. pose proof (evo_near _ _ _ _ sync_steady Hn He1) as Hn1. unfold mask.
  assert (Hgo : forall f, safe (preparedRestic cfg f b) (fin started cohE) s1) by (intros f; eapply spec_use; [apply preparedRestic_spec|done|by split|done]).
  destruct found as [j|]; [|apply Hgo]. cond; [eapply stop_coh; [apply foreign_coh|done|by apply near_abortable|done]|].
  cond; [|apply Hgo].
  eapply spec_bind; [apply (quiesce_spec cfg sync (f_sound _ HF) (f_sync _ HF) (f_stored _ HF) (f_held _ HF))|done| |].
  { split; [|done]. split; [right; apply Ho|by left]. }
  intros d b2 s2 Hi2. cbv beta. destruct (0 <? d); [by split|]. intros [_ Hm]. by eapply stop_coh; [apply mirror_spec|done| |].
Qed.
Lemma reconcileRestic_spec : spec (reconcilePreparedRestic cfg) (fun b s => open_ b /\ near sync b s) (fun _ _ => coh).
Proof using Type.
  intros b s Hi Hp. unfold reconcilePreparedRestic.
  assert (Hrev : forall (r : result berr (duration + (time * job))) b1 s1, inv s1 -> coh b1 s1 ->
    safe ((let? armed <- (fun b => negb (String.eqb (bann b backupPreparationDeadlineAnnotation) ""));
      got v <- (if (armed : bool) then mlift (fun b => revokeBackupStart (bName b) (bUID b)) else mret ());
      match r, v with
      | Err e, Err e' => mfail (Joined e e')
      | Err e, _ => mfail e
      | _, Err e => mfail e
      | Ok (inl again), _ => mret again
      | Ok (inr _), _ => mret 0
      end) b1) (fin (fun _ => coh) cohE) s1).
  { intros r b1 s1 Hi1 Hc1. unfold mask.
    assert (Hend : forall (v : result berr unit) s2, inv s2 -> coh b1 s2 -> safe ((match r, v with
      | Err e, Err e' => mfail (Joined e e')
      | Err e, _ => mfail e
      | _, Err e => mfail e
      | Ok (inl again), _ => mret again
      | Ok (inr _), _ => mret 0
      end) b1) (fin (fun _ => coh) cohE) s2) by (intros v s2 Hi2 Hc2; destruct r as [[]|], v; by split).
    destruct (negb _); [|by apply (Hend (Ok ()) s1)]. apply lift_catch; [apply revoke_quiet|done|]. intros v s2 Hi2 He2. apply Hend; [done|by eapply coh_evo]. }
  eapply spec_catch; [apply startRestic_spec|done|done| |].
  - intros [d|[deadline j]] b1 s1 Hi1 Hx; [by apply (Hrev (Ok (inl d)))|]. cbn in Hx. pose proof Hx as (M1 & M2 & Hn1).
    eapply spec_bind; [apply upsert_spec, sync_steady|done|done|]. intros [] b2 s2 Hi2 (P2 & C2 & S2 & Hn2).
    eapply spec_use; [apply mirror_spec|done| |done]. split_and!; [by eapply settled_core| |done].
    unfold failed. rewrite S2. by apply core_eqs in C2 as (_ & _ & _ & -> & _).
  - intros e b1 s1 Hi1 Hc1. by apply (Hrev (Err e)).
Qed.

(** ** Changes to an object that may be out of date *)

Lemma coh_neutral k v b s : k ∉ watched -> coh b s -> coh (patch k v b) s.
Proof using Type.
  intros Hk (C1 & C2 & C3). pose proof (neutral_past k v b Hk) as Hp. pose proof Hk as Hw. unfold watched in Hk. rewrite !not_elem_of_cons in Hk.
  destruct Hk as (K1 & K2 & K3 & K4 & K5 & K6 & K7 & K8 & K9 & _). split_and!; [done|by apply restic_patch|]. intros Ev. destruct (C3 Ev) as (A & B & C & D).
  split_and!; [done|by eapply past_trans| |done]. by apply (good_neutral cfg _ _ k v (with_bstatus b (bStatus (pb s)))).
Qed.
Lemma good_finalizers o g p f1 f2 : good o g p -> good o g (with_finalizers p f1 f2).
Proof using Type. intros [G1 G2 G3 G4 G5 G6 G7]. by split. Qed.
Lemma coh_finalizers f1 f2 b s : coh b s -> coh (with_finalizers b f1 f2) s.
Proof using Type.
  intros (C1 & C2 & C3). split_and!; [done|done|]. intros Ev. destruct (C3 Ev) as (A & B & C & D). split_and!; [done|by eapply past_trans; [|by split_and!]| |done].
  by apply (good_finalizers _ _ (with_bstatus b (bStatus (pb s)))).
Qed.
(** An update that ends the pass or is followed by more of the kind. *)
Lemma update_coh {B} (k : unit -> M B) b s : inv s -> coh b s -> (forall b' s', inv s' -> coh b' s' -> safe (k () b') (fin (fun _ => coh) cohE) s') ->
  safe (mbind update k b) (fin (fun _ => coh) cohE) s.
Proof using Type. intros Hi Hc Hk. apply update_bind; [done|done|]. intros s1 Hi1 _ _ _. apply Hk; [done|]. by apply coh_stored. Qed.
Lemma putf_bind {B} (k : unit -> M B) f b Q s : safe (k () (f b)) Q s -> safe (mbind (mput f) k b) Q s.
Proof using Type. done. Qed.
Lemma req_coh {A B} (r : req A) (k : result berr A -> M B) b s : quiet r -> inv s -> coh b s ->
  (forall x s', inv s' -> coh b s' -> safe (k x b) (fin (fun _ => coh) cohE) s') -> safe (mcatch (mreq r) k b) (fin (fun _ => coh) cohE) s.
Proof using Type. intros Hq Hi Hc Hk. apply req_catch; [done|done|]. intros x s' Hi' He. apply Hk; [done|by eapply coh_evo]. Qed.
Lemma lift_coh {A B} (p : backup -> P (result berr A)) (k : A -> M B) b s : only (@quiet) (p b) -> inv s -> coh b s ->
  (forall x s', inv s' -> coh b s' -> safe (k x b) (fin (fun _ => coh) cohE) s') -> safe (mbind (mlift p) k b) (fin (fun _ => coh) cohE) s.
Proof using Type. intros Hq Hi Hc Hk. apply lift_bind; [done|done|done|]. intros x s' Hi' He. apply Hk; [done|by eapply coh_evo]. Qed.

(** ** Forgetting a snapshot *)

Definition calm {A} (m : M A) : Prop := spec m coh (fun _ _ => coh).
Lemma calm_bind {A B} (m : M A) (k : A -> M B) : calm m -> (forall a, calm (k a)) -> calm (mbind m k).
Proof using Type. intros Hm Hk b s Hi Hc. eapply spec_bind; [exact Hm|done|done|]. intros a b' s' Hi' Hc'. by apply Hk. Qed.
Lemma calm_catch {A B} (m : M A) (k : result berr A -> M B) : calm m -> (forall a, calm (k a)) -> calm (mcatch m k).
Proof using Type. intros Hm Hk b s Hi Hc. eapply spec_catch; [exact Hm|done|done| |]; intros a b' s' Hi' Hc'; by apply Hk. Qed.
Lemma calm_mask {A B} (f : backup -> A) (k : A -> M B) : (forall a, calm (k a)) -> calm (mask f k).
Proof using Type. intros Hk b s Hi Hc. by apply Hk. Qed.
Lemma calm_lift {A} (p : backup -> P (result berr A)) : (forall b, only (@quiet) (p b)) -> calm (mlift p).
Proof using Type. intros Hq b s Hi Hc. apply bind_ret. apply lift_coh; [done|done|done|]. by split. Qed.
Lemma calm_req {A} (r : req A) : quiet r -> calm (mreq r).
Proof using Type. intros Hq. apply (calm_lift (fun _ => call r)). intros b. by split. Qed.
Lemma calm_update : calm update.
Proof using Type. intros b s Hi Hc. apply bind_ret, update_coh; [done|done|]. by split. Qed.
Lemma calm_patch k v : k ∉ watched -> calm (mput (patch k v)).
Proof using Type. intros Hk b s Hi Hc. split; [done|]. by apply coh_neutral. Qed.
Lemma calm_finalizers (f1 f2 : backup -> bool) : calm (mput (fun b => with_finalizers b (f1 b) (f2 b))).
Proof using Type. intros b s Hi Hc. split; [done|]. by apply coh_finalizers. Qed.
Lemma calm_ret {A} (a : A) : calm (mret a).
Proof using Type. intros b s Hi Hc. by split. Qed.
Lemma calm_fail {A} (e : berr) : calm (mfail (A := A) e).
Proof using Type. intros b s Hi Hc. by split. Qed.
Local Ltac calm_step :=
  match goal with
  | |- calm (upsertChanged _) => apply upsert_coh
  | |- calm (mreq _) => apply calm_req; done
  | |- calm (mbind _ _) => apply calm_bind; [|intros ?]
  | |- calm (mcatch _ _) => apply calm_catch; [|intros ?]
  | |- calm (mask _ _) => apply calm_mask; intros ?
  | |- calm (mret _) => apply calm_ret
  | |- calm (mfail _) => apply calm_fail
  | |- calm update => apply calm_update
  | |- calm (mput (patch _ _)) => apply calm_patch; vm_compute; set_solver
  | |- calm (mput (fun b => with_finalizers b false _)) => apply (calm_finalizers (fun _ => false))
  | |- calm (mput (fun b => with_finalizers b _ false)) => apply (calm_finalizers _ (fun _ => false))
  | |- calm (mlift _) => apply calm_lift; intros ?; quiet
  | |- calm (match _ with _ => _ end) => case_match
  end.
Local Ltac calm := repeat (calm_step || assumption).
Lemma releaseSnapshot_calm : calm releaseSnapshotFinalizer.
Proof using Type. unfold releaseSnapshotFinalizer. calm. Qed.
Lemma abandon_calm reason : calm (abandonSnapshotForget reason).
Proof using Type. unfold abandonSnapshotForget, setSnapshotForgottenCondition. pose proof releaseSnapshot_calm. calm. Qed.
Lemma forgotten_calm : calm snapshotForgotten.
Proof using Type. unfold snapshotForgotten, setSnapshotForgottenCondition. pose proof releaseSnapshot_calm. calm. Qed.
Lemma forgetExpired_calm : calm snapshotForgetExpired.
Proof using Type. unfold snapshotForgetExpired. calm. Qed.
Lemma finalizeSnapshot_calm : calm finalizeSnapshot.
Proof using Type.
  unfold finalizeSnapshot, forgetSnapshot, runForgetJob. pose proof releaseSnapshot_calm. pose proof abandon_calm. pose proof forgotten_calm. pose proof forgetExpired_calm.
  repeat (calm; try done).
Qed.

(** ** Deletion *)

Lemma retryExpired_calm : calm unquiesceRetryExpired.
Proof using Type. unfold unquiesceRetryExpired. calm. Qed.
Lemma releaseFinalizer_calm : calm releaseFinalizer.
Proof using Type.
  intros b s Hi Hc. unfold releaseFinalizer, mask. pose proof Hc as (_ & [_ R] & _). apply String.eqb_neq in R. rewrite R.
  match goal with |- safe ?q _ _ => change q with ((do! mput (fun b => with_finalizers b false (bSnapshotFinalizer b)); do! update; mret 0) b) end.
  revert b s Hi Hc R. enough (calm (do! mput (fun b => with_finalizers b false (bSnapshotFinalizer b)); do! update; mret 0)) as Hq by (intros; by apply Hq). calm.
Qed.
Definition closedF : backup -> st -> Prop := fun b s => closing b /\ sync b s.
Lemma finalizeUnquiesce_spec : spec (finalizeUnquiesce cfg) (near closedF) (fun _ _ => coh).
Proof using Type.
  intros b s Hi Hn. unfold finalizeUnquiesce, mask. cond; [split; [done|]; by eapply near_coh|].
  eapply (known_bind _ _ (fun r s' => r = Ok false -> idle s')); [|by eapply near_coh|].
  { apply (pass_mono _ _ _ _ _ (cleanup_idle cfg b true s Hi (proj1 (proj2 Hn)))). intros r s' (A & B & C). by split_and!. }
  intros busy s1 Hi1 He1 Hid. pose proof (evo_near _ _ _ _ closed_sound Hn He1) as Hn1.
  destruct busy; [split; [done|]; by eapply near_coh|].
  eapply spec_catch; [apply (maybeUnquiesce_spec cfg closedF closed_sound closed_upd); by right|done|by split; [|apply Hid]| |].
  - intros [] b1 s2 Hi2 (P1 & M1 & Hn2). apply lift_coh; [apply giveBack_quiet|done|by eapply near_coh|]. intros [] s3 Hi3 Hc3. by apply releaseFinalizer_calm.
  - intros e b1 s2 Hi2 Hc2. apply lift_catch; [apply targetGone_quiet|done|]. intros [gone|e'] s3 Hi3 He3; pose proof (coh_evo _ _ _ _ Hc2 He3) as Hc3; [|by split].
    pose proof releaseFinalizer_calm. pose proof retryExpired_calm.
    match goal with |- safe (?m b1) _ _ => enough (calm m) as Hq by by apply Hq end. calm.
Qed.
Lemma deleting_closed b s : bDeleting b = true -> near sync b s -> near closedF b s.
Proof using Type. intros Hd Hn. apply (near_mono _ _ _ _ _ Hn). intros _ _ Hx. split; [by right; left|done]. Qed.
Lemma finalizeDelete_spec : spec (finalizeDelete cfg) (fun b s => bDeleting b = true /\ near sync b s) (fun _ _ => coh).
Proof using Type.
  intros b s Hi [Hd Hn]. unfold finalizeDelete, mask at 1. pose proof Hn as (_ & _ & [[R1 _] _] & _). apply String.eqb_neq in R1.
  assert (Hforget : forall b3 s3, inv s3 -> coh b3 s3 -> safe ((let? held <- bSnapshotFinalizer; if (held : bool) then finalizeSnapshot else mret 0) b3) (fin (fun _ => coh) cohE) s3).
  { intros b3 s3 Hi3 Hc3. unfold mask. destruct (bSnapshotFinalizer b3); [by apply finalizeSnapshot_calm|by split]. }
  assert (Hlast : forall b2 s2, inv s2 -> bDeleting b2 = true -> near sync b2 s2 -> safe ((let? held <- bFinalizer;
    do again <- (if (held : bool) then finalizeUnquiesce cfg else mret 0);
    if 0 <? again then mret again
    else
      let? held <- bSnapshotFinalizer;
      if (held : bool) then finalizeSnapshot else mret 0) b2) (fin (fun _ => coh) cohE) s2).
  { intros b2 s2 Hi2 Hd2 Hn2. unfold mask at 1. destruct (bFinalizer b2).
    - eapply spec_bind; [apply finalizeUnquiesce_spec|done|by apply deleting_closed|]. intros d b3 s3 Hi3 Hc3. destruct (0 <? d); [by split|by apply Hforget].
    - apply Hforget; [done|by eapply near_coh]. }
  assert (Hrest : forall s1, inv s1 -> near sync b s1 -> safe ((
    do! (if String.eqb (bStrategy b) "volume-snapshot" && negb (String.eqb (sPhase (bStatus b)) "Succeeded")
         then snapshotStage "CSI capture cancelled by Backup deletion" else mret 0);
    let? b <- (fun b => b);
    do again <- (if negb (String.eqb (bann b backupPreparationDeadlineAnnotation) "") && negb (String.eqb (sPhase (bStatus b)) "Succeeded")
                 then abortResticCopy cfg "copy cancelled by Backup deletion" else mret 0);
    if 0 <? again then mret again
    else
      let? held <- bFinalizer;
      do again <- (if (held : bool) then finalizeUnquiesce cfg else mret 0);
      if 0 <? again then mret again
      else
        let? held <- bSnapshotFinalizer;
        if (held : bool) then finalizeSnapshot else mret 0) b) (fin (fun _ => coh) cohE) s1).
  { intros s1 Hi1 Hn1. rewrite R1. cbn [andb]. match goal with |- safe ((do! mret 0; ?k) b) _ _ => change ((do! mret 0; k) b) with (k b) end. unfold mask at 1.
    destruct (negb _ && negb _); [|by apply (Hlast b s1)].
    eapply spec_bind; [apply abort_spec|done|by apply near_abortable|]. intros d b2 s2 Hi2. cbv beta. destruct (0 <? d); [by split|]. intros [(_ & _ & Ha) Hn2].
    injection Ha as _ _ _ Ha _. apply Hlast; [done|by rewrite Ha|]. apply (near_mono _ _ _ _ _ Hn2). by intros _ _ [_ ?]. }
  destruct (negb (String.eqb (bann b backupPreparationDeadlineAnnotation) "")); [|by apply (Hrest s)].
  apply lift_bind; [apply revoke_quiet|done|by eapply near_coh|]. intros [] s1 Hi1 He1. apply Hrest; [done|by eapply evo_near; [apply sync_steady| |]].
Qed.

(** ** The pass *)

(** An object for which a new copy may be started, or whose end is on record. *)
Definition waiting (b : backup) (s : st) : Prop := bDeleting b = false /\ aborted b = "" /\ near sync b s.
Lemma waiting_evo b s s' : evo s s' -> waiting b s -> waiting b s'.
Proof using Type. intros He (W1 & W2 & W3). split_and!; [done..|]. by eapply evo_near; [apply sync_steady| |]. Qed.
Lemma finalizer_safe {B} f1 f2 (k : unit -> M B) b (Po : B -> backup -> st -> Prop) s : inv s -> waiting b s ->
  (forall b' s', inv s' -> waiting b' s' -> safe (k () b') (fin Po cohE) s') ->
  safe (mbind update k (with_finalizers b f1 f2)) (fin Po cohE) s.
Proof using Type.
  intros Hi (W1 & W2 & Hn) Hk. apply update_bind; [done|apply coh_finalizers; by eapply near_coh|]. intros s1 Hi1 _ _ (v & Ep).
  apply Hk; [done|]. split_and!; [by rewrite Ep|by rewrite Ep|by apply near_stored].
Qed.
Lemma addFinalizers_spec : spec addFinalizers waiting (fun _ _ => waiting).
Proof using Type.
  intros b s Hi Hw. unfold addFinalizers, mask at 1.
  assert (Hnext : forall b1 s1, inv s1 -> waiting b1 s1 -> safe ((let? wanted <- (fun b => wantsSnapshotFinalizer b && negb (bSnapshotFinalizer b));
    if (wanted : bool) then do! mput (fun b => with_finalizers b (bFinalizer b) true); update else mret ()) b1) (fin (fun _ => waiting) cohE) s1).
  { intros b1 s1 Hi1 Hw1. unfold mask. cond; [|by split]. apply (putf_bind (fun _ => update)). apply bind_ret, finalizer_safe; [done|done|]. by intros b2 s2 Hi2 Hw2; split. }
  destruct (bFinalizer b); [by apply (Hnext b s)|].
  match goal with |- safe ?q _ _ => change q with ((mbind update (fun _ => let? wanted <- (fun b => wantsSnapshotFinalizer b && negb (bSnapshotFinalizer b));
    if (wanted : bool) then do! mput (fun b => with_finalizers b (bFinalizer b) true); update else mret ())) (with_finalizers b true (bSnapshotFinalizer b))) end.
  by apply finalizer_safe.
Qed.
Lemma startCopy_spec : spec (startCopy cfg) (fun b s => open_ b /\ near sync b s) (fun _ _ => coh).
Proof using Type.
  intros b s Hi [Ho Hn]. unfold startCopy, mask. pose proof Hn as (_ & _ & [[R1 _] _] & _). apply String.eqb_neq in R1.
  assert (Hfail : forall msg s1, inv s1 -> near sync b s1 -> safe (fail msg b) (fin (fun _ => coh) cohE) s1).
  { intros msg s1 Hi1 Hn1. by eapply spec_use; [apply fail_coh|done|by eapply near_coh|]. }
  apply lift_bind; [by apply find_quiet|done|by eapply near_coh|]. intros gs s1 Hi1 He1. pose proof (evo_near _ _ _ _ sync_steady Hn He1) as Hn1.
  destruct gs as [gs|]; [|by apply Hfail]. rewrite R1. destruct (bRepoRef b) as [repo|]; [|by apply Hfail].
  apply lift_bind; [by apply find_quiet|done|by eapply near_coh|]. intros keys s2 Hi2 He2. pose proof (evo_near _ _ _ _ sync_steady Hn1 He2) as Hn2.
  destruct keys as [keys|]; [|by apply Hfail]. destruct (missingRepoSecretKeys keys); [|by apply Hfail].
  by eapply spec_use; [apply reconcileRestic_spec|done|by split|].
Qed.
(** The target is pinned before a game is told to stop saving. *)
Lemma no_legacy o g b : good o g b -> legacyBackupOwesUnquiesce b = false.
Proof using Type.
  intros Hg. unfold legacyBackupOwesUnquiesce. destruct (String.eqb_spec (bann b backupTargetAnnotation) "") as [E|E]; [|done].
  destruct (String.eqb_spec (bann b annoQuiesceAttempted) "") as [E2|E2]; [done|]. by destruct (g_att _ _ _ _ Hg E2) as (_ & _ & _ & ? & _).
Qed.
Lemma terminal_ready b s : terminal (sPhase (bStatus b)) = true -> near sync b s -> near (ready cfg) b s.
Proof using Type.
  intros Ht Hn. pose proof Hn as (_ & _ & [_ Hg] & _). apply (near_mono _ _ _ _ _ Hn). intros _ _ Hx.
  apply orb_true_iff in Ht. rewrite !String.eqb_eq in Ht. destruct Ht as [E|E]; [left; apply (g_auth _ _ _ _ Hg); by right|right].
  split; [by right; right|done].
Qed.
Lemma reconcileLive_spec : spec (reconcileLive cfg) waiting (fun _ _ => coh).
Proof using Type.
  intros b s Hi Hw. unfold reconcileLive. eapply spec_bind; [apply addFinalizers_spec|done|done|]. intros [] b1 s1 Hi1 Hw1. unfold mask at 1.
  match goal with |- safe (mbind ?m ?k b1) _ _ => set (tail := k); assert (Htail : forall b2 s2, inv s2 -> waiting b2 s2 -> safe (tail () b2) (fin (fun _ => coh) cohE) s2) end.
  { intros b2 s2 Hi2 (W1 & W2 & Hn). unfold tail, mask. pose proof Hn as (_ & _ & [[R1 _] Hg] & _). apply String.eqb_neq in R1.
    destruct (String.eqb_spec (sPhase (bStatus b2)) "Succeeded") as [Es|Es].
    - cond; [by eapply spec_use; [apply retry_spec|done|by split|]|]. unfold terminal. rewrite Es. cbn [String.eqb orb andb]. cbn.
      eapply spec_use; [apply (runUnquiesce_spec cfg (ready cfg) (ready_sound cfg) (ready_upd cfg)); done|done|by apply terminal_ready; [rewrite Es|]|].
      intros d b3 s3 Hi3. by apply again_coh.
    - cbn [andb]. destruct (String.eqb_spec (sPhase (bStatus b2)) "Failed") as [Ef|Ef].
      + unfold terminal. rewrite Ef. cbn [String.eqb orb andb]. rewrite R1. cbn. cond.
        * by eapply spec_use; [apply abort_coh|done|by apply near_abortable|].
        * eapply spec_use; [apply (runUnquiesce_spec cfg (ready cfg) (ready_sound cfg) (ready_upd cfg)); done|done|by apply terminal_ready; [rewrite Ef|]|].
          intros d b3 s3 Hi3. by apply again_coh.
      + unfold terminal. apply String.eqb_neq in Es. rewrite Es. pose proof Ef as Ef'. apply String.eqb_neq in Ef. rewrite Ef. cbn [orb].
        rewrite (no_legacy _ _ _ Hg). by eapply spec_use; [apply startCopy_spec|done|split; [by split_and!|done]|]. }
  destruct (terminal _); [|by apply (Htail b1 s1)]. destruct Hw1 as (W1 & W2 & W3).
  eapply spec_bind; [apply upsert_spec, sync_steady|done|done|]. intros [] b2 s2 Hi2 (P2 & M2 & S2 & Hn2). apply Htail; [done|].
  apply core_eqs in M2 as (M1 & _ & _ & M4 & _). split_and!; [by rewrite M1|by rewrite M4|done].
Qed.
Lemma reconcile_spec : spec (reconcile cfg) (near sync) (fun _ _ => coh).
Proof using Type.
  intros b s Hi Hn. unfold reconcile, mask. pose proof Hn as (_ & _ & [[_ R2] _] & _). apply String.eqb_neq in R2.
  destruct (bDeleting b) eqn:Ed; [by eapply spec_use; [apply finalizeDelete_spec|done|by split|]|].
  destruct (String.eqb_spec (bann b backupCopyAbortAnnotation) "") as [Ea|Ea]; cbn [negb].
  - rewrite R2. by eapply spec_use; [apply reconcileLive_spec|done|by split_and!|].
  - by eapply spec_use; [apply abort_coh|done|by apply near_abortable|].
Qed.
(** Any stored version, also an old one, may be what a pass starts from. *)
Lemma Reconcile_safe b s : inv s -> b ∈ seen s -> safe (Reconcile cfg b) (fun _ s' => inv s') s.
Proof using Type.
  intros Hi Hb. destruct (i_seen _ _ Hi b Hb) as (U1 & U2 & U3 & U4).
  assert (Hn : near sync b s).
  { split_and!; [done|done|done|]. intros Ev. rewrite (U4 Ev). split_and!; [by destruct (pb s)|apply Hi|done]. }
  unfold Reconcile. eapply spec_catch; [apply reconcile_spec|done|done| |].
  - intros d b1 s1 Hi1 _. done.
  - intros e b1 s1 Hi1 _. by destruct (IsConflict e).
Qed.
End Safe.
