(* ===== verification/BackupReach.v ===== *)
(** * A game is not left with saving off: the theorems

    Reachable states of a restic Backup: passes of [Reconcile] that start from any
    version that was stored once and stop anywhere, with the other writers in
    between; what holds in all of them, and what the waiting worker makes of the
    start token. *)

From Stdlib Require Import Ascii.
From stdpp Require Import pretty.
From S2P Require Import Prelude GoTime GoText GoToken Prog Idle Lifecycle Power Backup BackupRun BackupFacts BackupPass BackupAdmit BackupSafe.
Local Open Scope Z_scope.

(** ** The token as the worker reads it *)

Lemma pretty_N_go_head x : forall s, x <> 0%N -> exists c r, pretty_N_go x s = String c r /\ c <> "0"%char.
Proof.
  induction (N.lt_wf_0 x) as [x _ IH]. intros s Hx. rewrite pretty_N_go_step by lia.
  destruct (decide (x `div` 10 = 0)%N) as [E|E].
  - rewrite E, pretty_N_go_0. eexists _, _. split; [done|]. intros Ec. pose proof (N.mod_lt x 10 ltac:(lia)) as Hm.
    pose proof (N.div_mod' x 10) as Hd. apply (f_equal byte_of_ascii) in Ec. rewrite pretty_N_char_byte in Ec by done.
    change (byte_of_ascii "0") with 48 in Ec. lia.
  - apply IH; [apply N.div_lt; lia|done].
Qed.
Lemma Itoa_neg p : Itoa (Z.neg p) = String "-" (Itoa (Z.pos p)).
Proof. done. Qed.
Lemma Itoa_word z : token (Itoa z) = true.
Proof.
  destruct z as [|p|p]; [done|by apply Itoa_token|]. rewrite Itoa_neg.
  pose proof (Itoa_token (Z.pos p) ltac:(lia)) as Ht. unfold token in *. apply andb_true_iff in Ht as [_ Ht]. by cbn.
Qed.
(** A printed number reads as itself in the shell: no leading zero. *)
Lemma shellInt_Itoa z n : shellInt (Itoa z) = Some n -> n = z.
Proof.
  destruct z as [|p|p]; [by intros [= <-]| |].
  2:{ rewrite Itoa_neg. by unfold shellInt. }
  unfold shellInt. destruct (Itoa_digits (Z.pos p) ltac:(lia)) as [Hne Hd]. rewrite Hd.
  change (Itoa (Z.pos p)) with (pretty_N_go (N.pos p) EmptyString) in *.
  destruct (pretty_N_go_head (N.pos p) EmptyString ltac:(done)) as (c & r & E & Hc).
  destruct (pretty_N_go_value (N.pos p) EmptyString 0) as (ds & Hb & _ & Hds & k & _ & Hv).
  cbn [bytes_of] in Hb. rewrite app_nil_r in Hb. specialize (Hds ltac:(done)).
  assert (Hp : parse_uint (bytes_of (pretty_N_go (N.pos p) EmptyString)) = Some (Z.pos p)).
  { rewrite Hb. unfold parse_uint. by destruct ds; [|rewrite Hv]. }
  rewrite E in *. cbn [String.eqb negb orb].
  intros Hn. enough (Some n = Some (Z.pos p)) by congruence. rewrite <- Hn, <- Hp.
  destruct c as [[] [] [] [] [] [] [] []]; try done; by destruct r.
Qed.

Lemma printable_free c s : is_printable c = false -> token s = true -> free_of c s = true.
Proof.
  intros Hc Ht. apply andb_true_iff in Ht as [_ Ht]. eapply str_all_impl; [|exact Ht]. intros d Hd. cbn.
  destruct (Ascii.eqb_spec d c) as [->|]; [congruence|done].
Qed.
Lemma free_app c s t : free_of c (s +:+ t) = free_of c s && free_of c t.
Proof. apply str_all_app. Qed.
Lemma split_word c s : is_printable c = false -> token s = true -> split_on c s = [s].
Proof. intros Hc Ht. apply split_on_free. by apply printable_free. Qed.
Lemma startToken_fields `{BackupCodec} uid pod source d : token uid = true -> token pod = true -> token source = true ->
  fields (startToken uid pod source d) = ["v1"; uid; pod; source; Itoa (Unix d)].
Proof.
  intros H1 H2 H3. unfold fields, startToken. set (w := Itoa _). assert (H4 : token w = true) by apply Itoa_word. clearbody w.
  assert (El : "v1 " +:+ (uid +:+ (" " +:+ (pod +:+ (" " +:+ (source +:+ (" " +:+ (w +:+ String "010" "")))))))
    = ("v1" +:+ String " " (uid +:+ String " " (pod +:+ String " " (source +:+ String " " w)))) +:+ String "010" "").
  { rewrite !str_app_cons, !str_app_assoc, !str_app_cons, !str_app_assoc, !str_app_cons, !str_app_assoc, !str_app_cons, !str_app_assoc. done. }
  rewrite El, split_on_cons.
  2:{ assert (Hs : forall t, free_of "010" (String " " t) = free_of "010" t) by done.
      rewrite !free_app, !Hs, !free_app, !Hs, !free_app, !Hs, !free_app, !Hs. rewrite !printable_free; done. }
  cbn [hd]. rewrite !split_on_cons by (by apply printable_free || done). rewrite (split_word " " w) by done.
  cbn [flat_map]. rewrite !(split_word "009") by done. cbn [app List.filter].
  assert (Hf : forall t, token t = true -> negb (String.eqb t "") = true) by (intros t Ht; by apply andb_true_iff in Ht as [? _]).
  rewrite (Hf uid), (Hf pod), (Hf source), (Hf w) by done. done.
Qed.

Section Reach.
Context `{OwnerCodec} `{BackupCodec} (cfg : config).

(** ** Reachable states *)

(** A run of a program up to some point. *)
Inductive steps {A} : P A -> st -> P A -> st -> Prop :=
| steps_here p s : steps p s p s
| steps_call {B} (r : req B) k res s s1 p s2 : env r res s s1 -> steps (k res) s1 p s2 -> steps (Call r k) s p s2.

(** A Backup as its author creates it, for restic. *)
Definition fresh (b : backup) : Prop :=
  bStrategy b <> "volume-snapshot" /\ token (bUID b) = true /\ sPhase (bStatus b) = "" /\ Forall (fun k => bAnn b !! k = None) watched.
Definition created (b : backup) : st := MkSt b [b] None "" false false false.

(** A pass may start from an old version, and a crash may end it after any call. *)
Inductive reach : st -> Prop :=
| reach_created b : fresh b -> reach (created b)
| reach_tick s s' : reach s -> tick s s' -> reach s'
| reach_pass s b p s' : reach s -> b ∈ seen s -> steps (Reconcile cfg b) s p s' -> reach s'.

Lemma fresh_inv b : fresh b -> inv cfg (created b).
Proof using Type.
  intros (F1 & F2 & F3 & F4). unfold watched in F4. rewrite !Forall_cons in F4. destruct F4 as (K1 & K2 & K3 & K4 & K5 & K6 & K7 & K8 & K9 & _).
  assert (Hz : forall k, bAnn b !! k = None -> bann b k = "") by (intros k Hk; unfold bann, ann; by rewrite Hk).
  assert (Hg : good cfg None "" b).
  { split; unfold attempted, authorized, copyDeadline, targetOf.
    - done.
    - rewrite K2. by intros [? ?].
    - by rewrite (Hz _ K1).
    - rewrite (Hz _ K3), F3. by intros [?|?].
    - done.
    - by rewrite (Hz _ K5).
    - by apply Hz. }
  split; [done| |by left|done]. intros h Hh. apply list_elem_of_singleton in Hh as ->.
  split_and!; [done|apply past_refl|split; [split; [done|by rewrite (Hz _ K9)]|done]|done].
Qed.
Lemma steps_safe {A} (p p' : P A) Q s s' : steps p s p' s' -> inv cfg s -> safe cfg p Q s -> inv cfg s' /\ safe cfg p' Q s'.
Proof using Type.
  induction 1 as [p s|B r k res s s1 p s2 He _ IH]; [done|]. intros Hi [_ Hk]. destruct (Hk res s1 He) as [Hi1 Hs1]. by apply IH.
Qed.
Lemma reach_inv s : reach s -> inv cfg s.
Proof using Type.
  induction 1 as [b Hb|s s' _ IH Ht|s b p s' _ IH Hb Hs].
  - by apply fresh_inv.
  - by apply (tick_evo _ _ _ IH Ht).
  - by destruct (steps_safe _ _ _ _ _ Hs IH (Reconcile_safe cfg b s IH Hb)).
Qed.

(** C2. In every state that passes of the backup controller can reach, whatever
    the calls answer, wherever a pass is cut off and whichever stored version it
    started from: while the game's saving is off, the stored Backup says that it
    owes a save-on, and its preparation names the very process whose saving is off. *)
Theorem saving_off_is_owed s u : reach s -> off s = Some u ->
  owes (pb s) /\ exists p, parseBackupPreparation (pb s) = Ok (Some p) /\ pPodUID p = u.
Proof using Type. intros Hr. apply (g_off _ _ _ _ (i_good _ _ (reach_inv s Hr))). Qed.

(** A worker can hold a start token only after its Backup put an authorized
    worker and the copy deadline on record and the question of saving was settled:
    the game confirmed the save-off or cannot do it, the source was stopped, or no
    quiesce was asked for.  The token names this Backup and expires at the deadline
    on record. *)
Lemma start_token_after_quiesce s : reach s -> gt s <> "" ->
  settled cfg (pb s) /\ authorized (pb s) <> "" /\
  exists w src d, gt s = startToken (bUID (pb s)) w src d /\ denotes (copyDeadline (pb s)) d.
Proof using Type.
  intros Hr Hg. pose proof (i_good _ _ (reach_inv s Hr)) as Hgood. destruct (g_gate _ _ _ _ Hgood Hg) as (Ha & Hd & w & src & d & _ & _ & E & Hden).
  split_and!; [apply (g_auth _ _ _ _ Hgood); by left|done|]. by exists w, src, d.
Qed.

(** *** Save-on in the recovery of an orphaned owner

    A claim and the check of ownership also restore saving for owners that are
    gone ([recoverLifecycleOperation]); that is a call of its own in these
    programs, and part of the ownership model. *)

(** Two worlds that differ only in the agent: whether there is a client and what
    it answers. *)
Definition agentApart (w w' : world) : Prop :=
  w' = MkWorld (getUID w) (wipeWorkersBusy w) (getStatefulSet w) (listPods w) (listBackups w)
         (Lifecycle.backupWorkersLive w) (restoreWorkersLive w) (restoreTargetStopped w) (quiesceProcessGone w)
         (quiescerAvailable w') (unquiesce w').

(** What recovery learns of the workers of an owner that is gone. *)
Definition orphanWorkers (w : world) (p : lifecycleIdentity) : option bool :=
  if String.eqb (Kind p) "Backup" then Lifecycle.backupWorkersLive w true (Name p) (UID p)
  else if String.eqb (Kind p) "Restore" then restoreWorkersLive w (Name p) (UID p)
  else None.

Lemma recoverWorkers_cons w p l : recoverWorkers w (p :: l) =
  match orphanWorkers w p with None => Fails | Some true => Waits | Some false => recoverWorkers w l end.
Proof using Type. done. Qed.
Lemma recoverWorkers_agent w w' l : agentApart w w' -> recoverWorkers w' l = recoverWorkers w l.
Proof using Type. intros ->. induction l as [|p l IH]; [done|]. cbn. by rewrite IH. Qed.
Lemma recoverWorkers_busy w l p : p ∈ l -> orphanWorkers w p <> Some false -> recoverWorkers w l <> Goes tt.
Proof using Type.
  intros Hp Hb. induction l as [|q l IH]; [by apply not_elem_of_nil in Hp|]. rewrite recoverWorkers_cons.
  apply elem_of_cons in Hp as [<-|Hp]; [by destruct (orphanWorkers w p) as [[]|]|].
  destruct (orphanWorkers w q) as [[]|]; [done|by apply IH|done].
Qed.

(** C4. Saving is restored only after the copy has drained.  A pass of the backup
    controller, on any branch, sends the save-on only when a listing of the Jobs
    showed no copy of this Backup that may still run, and a listing of the pods no
    live worker of it, both after the last Job was created and the last token
    written; it sends it only bound to a process, and turns saving off only bound
    to a process.  The other save-on, in the recovery of owners that are gone,
    waits for their workers: while the workers of one of them may be live, or
    cannot be listed, or a restore target is not known to be stopped, the recovery
    does not turn to the agent (its outcome does not depend on it) and does not
    succeed. *)
Theorem save_on_after_drain :
  (forall s b s' B (r : req B) k, reach s -> b ∈ seen s -> steps (Reconcile cfg b) s (Call r k) s' ->
    match r with
    | UnquiescePod _ _ => idleJobs s' = true /\ idlePods s' = true
    | Unquiesce _ | Quiesce _ => False
    | _ => True
    end) /\
  (forall w gs op,
    (exists p, p ∈ Recovery op /\ orphanWorkers w p <> Some false) \/
    (lifecycleRecoveryNeedsStop op = true /\ restoreTargetStopped w <> Some true) ->
    (forall g, recoverLifecycleOperation w gs op <> Goes g) /\
    (forall w', agentApart w w' -> recoverLifecycleOperation w' gs op = recoverLifecycleOperation w gs op)).
Proof using Type.
  split.
  - intros s b s' B r k Hr Hb Hs. pose proof (reach_inv s Hr) as Hi.
    destruct (steps_safe _ _ _ _ _ Hs Hi (Reconcile_safe cfg b s Hi Hb)) as [_ [Hp _]]. by destruct r.
  - intros w gs op Hbusy. unfold recoverLifecycleOperation.
    destruct (recoverWorkers w (Recovery op)) as [| |[]] eqn:E.
    1,2: split; [done|]; intros w' Ha; by rewrite (recoverWorkers_agent _ _ _ Ha), E.
    destruct Hbusy as [(p & Hp & Hb)|[Hn Hst]]; [by destruct (recoverWorkers_busy w _ p Hp Hb)|].
    rewrite Hn. split; [intros g; by destruct (restoreTargetStopped w) as [[]|]|].
    intros w' Ha. rewrite (recoverWorkers_agent _ _ _ Ha), E, Ha. cbn [restoreTargetStopped].
    by destruct (restoreTargetStopped w) as [[]|].
Qed.

(** What every stored version of a Backup fixed stays: a copy deadline, once
    on record, is never moved, neither by a retry nor by a pass that starts from an
    old version, and an authorized worker stays on record. *)
Lemma copy_deadline_fixed s h : reach s -> h ∈ seen s ->
  (copyDeadline h <> "" -> copyDeadline (pb s) = copyDeadline h) /\ (authorized h <> "" -> authorized (pb s) <> "").
Proof using Type.
  intros Hr Hh. destruct (i_seen _ _ (reach_inv s Hr) h Hh) as (_ & (_ & _ & _ & P4 & P5) & _). by split.
Qed.

(** C3. The worker and the controller together: when the waiting script starts
    restic on the token of a reachable state, it is the worker of this Backup, the
    question of saving is settled, and the timeout it runs restic under ends
    exactly at the copy deadline on record. *)
Theorem worker_copies_until_deadline s uid pod source expires now n : reach s ->
  workerLook uid pod source expires now (Some (gt s)) = Start n ->
  uid = bUID (pb s) /\ settled cfg (pb s) /\ 0 < n /\ exists d, denotes (copyDeadline (pb s)) d /\ now + n = Unix d.
Proof using Type.
  intros Hr Hl. pose proof (reach_inv s Hr) as Hi.
  assert (Hg : gt s <> "") by (intros E; rewrite E in Hl; cbn in Hl; by case_match).
  destruct (g_gate _ _ _ _ (i_good _ _ Hi) Hg) as (_ & _ & w & src & d & Tw & Ts & E & Hden).
  assert (Hset : settled cfg (pb s)) by (apply (g_auth _ _ _ _ (i_good _ _ Hi)); left; by apply (g_gate _ _ _ _ (i_good _ _ Hi))).
  unfold workerLook in Hl. rewrite E, startToken_fields in Hl by (done || apply Hi). cbn [nth length] in Hl.
  destruct (_ && _ && _ && _ && _) eqn:Em; [|by case_match]. rewrite !andb_true_iff, !String.eqb_eq in Em.
  destruct Em as ((((_ & Eu) & _) & _) & _). destruct (shellInt _) as [x|] eqn:Ex; [|done]. apply shellInt_Itoa in Ex as ->.
  destruct (Z.ltb_spec 0 (Unix d - now)) as [Hlt|]; [|done]. injection Hl as <-. split_and!; [done|done|done|]. exists d. split; [done|lia].
Qed.
End Reach.
