(* ===== verification/BackupScenario.v ===== *)
(** * A restic backup from creation to clean-up, run

    A codec and a world that answers every call, shown to be one of the
    environments of [BackupFacts]; a pass that authorizes a worker and the pass
    after its Job ended, as the witnesses of the theorems of [BackupReach]. *)

From Stdlib Require Import Ascii.
From S2P Require Import Prelude GoTime GoText GoToken Prog Idle Lifecycle LifecycleFacts Power Backup BackupRun BackupFacts BackupPass BackupAdmit BackupSafe BackupReach.
Local Open Scope Z_scope.

#[export] Instance backupPreparation_eq_dec : EqDecision backupPreparation.
Proof. solve_decision. Defined.
#[export] Instance backupPreparation_countable : Countable backupPreparation.
Proof.
  refine (inj_countable' (fun p => (pOutcome p, pTargetUID p, pWorkloadUID p, pWorkloadGeneration p, pPodUID p))
    (fun '(a, b, c, d, e) => MkPrep a b c d e) _). by intros [].
Defined.
#[export] Instance backupWorkerSource_eq_dec : EqDecision backupWorkerSource.
Proof. solve_decision. Defined.
#[export] Instance backupWorkerSource_countable : Countable backupWorkerSource.
Proof. refine (inj_countable' (fun p => (wsPodUID p, wsNodeName p, wsTolerations p)) (fun '(a, b, c) => MkSource a b c) _). by intros []. Defined.
#[export] Instance demo_backup_codec : BackupCodec.
Proof.
  refine {| prepJSON p := digits (encode p); unmarshalPrep s := undigits s ≫= decode;
            sourceJSON p := digits (encode p); unmarshalSource s := undigits s ≫= decode;
            formatNano t := digits (encode t); parseNano s := undigits s ≫= decode;
            formatSeconds t := digits (encode t); parseSeconds s := undigits s ≫= decode; sha256hex _ := "5ca1ab1e" |}.
  - intros p. apply digits_ne.
  - intros t. apply digits_ne.
  - done.
Defined.

(** ** A world that answers *)

Record scene := MkScene { scNow : time; scJob : option job; scNew : job; scPods : list workerPod; scGame : workerPod; scWorkload : workload }.

Definition owned (gs : GS) (p : backup) : bool :=
  match parseIdentity (targetOf p) with
  | Some (_, u) =>
      match Lifecycle.ownedBackupTarget gs u (backupLifecycleIdentity gs (bName p) (bUID p) (bGeneration p) false) with Ok true => true | _ => false end
  | None => false
  end.
Lemma owned_spec gs p : owned gs p = true <-> ownsIt gs p.
Proof.
  unfold owned, ownsIt. destruct (parseIdentity (targetOf p)) as [[n u]|]; [|split; [done|by intros (? & ? & ? & _)]]. split.
  - intros E. exists n, u. split; [done|]. by destruct (Lifecycle.ownedBackupTarget _ _ _) as [[]|].
  - by intros (? & ? & [= <- <-] & ->).
Qed.
Definition serverOf (s : st) (name : string) : GS :=
  MkGameServer name "server-uid" 1 false
    (if held s then {[backupGuardAnnotation := identityJSON (bName (pb s), bUID (pb s))]} else ∅) false.

Definition serveCall {B} (w : scene) (s0 : st) (r : req B) : option (result berr B * st) :=
  let s := with_pb s0 (pb s0) in
  let gate := MkGate (Some ("Backup", bUID (pb s))) (gt s) in
  match r in req B return option (result berr B * st) with
  | Now => Some (Ok (scNow w), s)
  | UpdateBackup b =>
      if bVersion b =? bVersion (pb s) then
        let p := set_stored (with_bstatus b (bStatus (pb s))) (bVersion (pb s) + 1) (bDeleting (pb s)) in Some (Ok p, with_pb s p)
      else Some (Err Conflict, s)
  | UpdateBackupStatus b =>
      if bVersion b =? bVersion (pb s) then
        let p := set_stored (with_bstatus (pb s) (bStatus b)) (bVersion (pb s) + 1) (bDeleting (pb s)) in Some (Ok p, with_pb s p)
      else Some (Err Conflict, s)
  | ListBackups => Some (Ok [], s)
  | ListRestores => Some (Ok [], s)
  | GetServer n => if Bool.eqb (owned (serverOf s n) (pb s)) (held s) then Some (Ok (serverOf s n), s) else None
  | GetLastBackupTime _ => Some (Ok None, s)
  | UpdateServer gs =>
      Some (Ok (), with_held s (held s && String.eqb (gann gs backupGuardAnnotation) (identityJSON (bName (pb s), bUID (pb s)))))
  | PatchLastBackupTime _ _ => Some (Ok (), s)
  | GetSecretKeys _ => Some (Ok ["repo"; "password"], s)
  | GetJob _ => Some (match scJob w with Some j => Ok j | None => Err NotFound end, s)
  | ListJobs =>
      let jobs := match scJob w with Some j => [j] | None => [] end in
      Some (Ok jobs, with_idle s (idleJobs s || negb (existsb (fun j => copyJobOf (bName (pb s)) (bUID (pb s)) j && jobBusy j) jobs)) (idlePods s))
  | CreateJob _ _ _ _ _ _ => Some (Ok (scNew w), with_idle s false false)
  | EnsureForgetJob _ _ => Some (Err NamespaceTerminating, s)
  | DeleteJob _ => Some (Ok (), s)
  | GetPod n =>
      match off s with
      | None => Some (Ok (scGame w), s)
      | Some u => if String.eqb (wpUID (scGame w)) u && String.eqb (wpPhase (scGame w)) "Running" then Some (Ok (scGame w), s) else None
      end
  | ListPods =>
      if forallb (fun p => str_all is_printable (wpUID p)) (scPods w)
      then Some (Ok (scPods w), with_idle s (idleJobs s) (idlePods s || negb (existsb (ownWorker (pb s)) (scPods w)))) else None
  | GetWorkload _ => Some (Ok (scWorkload w), s)
  | GetGate _ => Some (Ok gate, s)
  | EnsureGate _ => Some (Ok gate, s)
  | SetGate n t =>
      if String.eqb t "" then Some (Ok (), with_gt s "")
      else if String.eqb n (gateOf (pb s)) then Some (Ok (), with_gt (with_idle s false false) t) else None
  | ClaimLifecycle _ _ => Some (Ok true, with_held (with_off s (off s)) true)
  | RecoverLifecycle _ _ => Some (Ok true, with_off s (off s))
  | FenceWorkload _ => Some (Ok true, s)
  | ClearLifecycle gs _ => Some (Ok gs, s)
  | SnapshotCopyLive _ _ _ => Some (Ok false, s)
  | ReadTemplate _ => Some (Ok (), s)
  | ReadLayout _ => Some (Ok (), s)
  | ReadResticSummary => Some (Ok (MkSummary "abcdef12" 10), s)
  | CheckPod _ _ => Some (Ok (), s)
  | QuiescePod _ u => Some (Ok (), with_off s (Some u))
  | UnquiescePod _ u => Some (Ok (), with_off s (if decide (off s = Some u) then None else off s))
  | RecordEvent _ _ _ => Some (Ok (), s)
  | Quiesce _ => None
  | Unquiesce _ => None
  | SnapshotStrategy _ _ => None
  end.

Lemma serveCall_env {B} w s (r : req B) res s' : serveCall w s r = Some (res, s') -> env r res s s'.
Proof.
  intros E. exists (with_pb s (pb s)). split.
  { exists (off s), (held s), (pb s). split_and!; [by left|done|by left|done]. }
  revert E. destruct r; cbn [serveCall]; intros E; repeat case_match; try done; injection E as <- <-; cbn.
  all: repeat match goal with H : (_ =? _) = true |- _ => apply Z.eqb_eq in H | H : String.eqb _ _ = true |- _ => apply String.eqb_eq in H end.
  all: try done; try (by left); try (by right).
  - split; [|done]. split; [done|]. eexists. split; [|done]. cbn. left. lia.
  - split; [done|by left].
  - split; [|done]. split; [done|]. eexists. split; [|done]. cbn. left. lia.
  - split_and!; [done|done|unfold gann, ann, serverOf; cbn; by destruct (held s)|]. intros _. rewrite <- owned_spec.
    match goal with H : Bool.eqb _ _ = true |- _ => apply eqb_prop in H; change (owned (serverOf (with_pb s (pb s)) name) (pb s) = held s) in H; by rewrite H end.
  - right. eexists. split; [done|]. split; [by intros [? _]%andb_true_iff|]. intros Hx. apply String.eqb_neq in Hx. by rewrite Hx, andb_false_r.
  - split; [done|]. intros _ u Hu. match goal with H : _ && _ = true |- _ => apply andb_true_iff in H as [Hx Hy] end. apply String.eqb_eq in Hx, Hy.
    cbn in *. split; [congruence|]. right. by rewrite Hy.
  - split; [done|]. intros _ u Hu. cbn in *. congruence.
  - split; [|done]. apply Forall_forall. intros p Hp. match goal with H : forallb _ _ = true |- _ => rewrite forallb_forall in H; by apply H, list_elem_of_In end.
  - subst. by right.
  - match goal with H : String.eqb token "" = false |- _ => rewrite H end. eexists. split; [by right|done].
  - by eexists _, _; split; [left|].
  - by eexists; split; [left|].
  - by rewrite decide_True.
  - by rewrite decide_False.
Qed.

(** The first [n] calls of a program, answered. *)
Fixpoint play {A} (n : nat) (w : scene) (p : P A) (s : st) : P A * st :=
  match n, p with
  | S n, Call r k => match serveCall w s r with Some (res, s') => play n w (k res) s' | None => (p, s) end
  | _, _ => (p, s)
  end.
Lemma play_steps {A} n w (p : P A) s : steps p s (play n w p s).1 (play n w p s).2.
Proof.
  revert p s. induction n as [|n IH]; intros p s; [apply steps_here|]. destruct p as [a|B r k|]; [apply steps_here| |apply steps_here]. cbn [play].
  destruct (serveCall w s r) as [[res s']|] eqn:E; [|apply steps_here]. eapply steps_call; [by eapply serveCall_env|apply IH].
Qed.

(** ** One backup *)

Definition demo_cfg : config := MkConfig true true 0 0 None 0 0.
Definition demo_new : backup :=
  MkBackup 1 "games" "nightly" "backup-uid" 1 false ∅ false false "mc" (Some "repo") true "" (MkStatus "" "" "" None None 0 None None []).
Definition demo_time : time := (62135596800 + 1000) * Second.
Definition demo_job : job := MkJob "nightly" "job-uid" (Some ("Backup", "backup-uid")) "v1" 0 1 None false None None None ["mc-data"].
Definition demo_worker : workerPod :=
  MkWorkerPod "nightly-x" "worker-uid" (Some ("Job", "job-uid")) "backup-uid" false "Running" "node" true ["mc-data"] [].
Definition demo_game : workerPod := MkWorkerPod "mc-0" "game-uid" (Some ("StatefulSet", "workload-uid")) "" false "Running" "node" true ["mc-data"] [].
Definition demo_workload : workload := MkWorkload "workload-uid" (Some ("GameServer", "server-uid")) 1 1 (Some 1) 1 [].
Definition copying : scene := MkScene demo_time None demo_job [demo_worker] demo_game demo_workload.
Definition demo_done : job :=
  MkJob "nightly" "job-uid" (Some ("Backup", "backup-uid")) "v1" 1 0 None false None (Some (demo_time + Second)) None ["mc-data"].
Definition copied : scene := MkScene (demo_time + 2 * Second) (Some demo_done) demo_done [] demo_game demo_workload.

Definition after_start : st := (play 400 copying (Reconcile demo_cfg demo_new) (created demo_new)).2.
Definition asks {A} (p : P A) : option (string * string) :=
  match p with Call r _ => match r with UnquiescePod n u => Some (n, u) | _ => None end | _ => None end.
Lemma asks_spec {A} (p : P A) n u : asks p = Some (n, u) -> exists k, p = Call (UnquiescePod n u) k.
Proof. destruct p as [|B r k|]; [done| |done]. destruct r; try done. intros [= <- <-]. by exists k. Qed.
(** The pass after the Job ended, up to the save-on, and its end. *)
Definition second (n : nat) : P (backup * result berr duration) * st := play n copied (Reconcile demo_cfg (pb after_start)) after_start.

Lemma demo_fresh : fresh demo_new.
Proof. split_and!; [done|done|done|]. by repeat constructor. Qed.
Lemma play_reach n w s b : reach demo_cfg s -> b ∈ seen s -> reach demo_cfg (play n w (Reconcile demo_cfg b) s).2.
Proof. intros Hr Hb. by eapply reach_pass, play_steps. Qed.
Lemma started_reach : reach demo_cfg after_start.
Proof. unfold after_start. apply play_reach; [apply reach_created, demo_fresh|by left]. Qed.
Lemma second_steps n : steps (Reconcile demo_cfg (pb after_start)) after_start (second n).1 (second n).2.
Proof. unfold second. generalize after_start. intros s. apply play_steps. Qed.
Lemma seen_start : pb after_start ∈ seen after_start.
Proof. apply (i_now demo_cfg), reach_inv, started_reach. Qed.

(** The two passes: the copy runs with saving off, and ends with saving on, the
    token taken back and the server given back. *)
Example demo_passes :
  (off after_start, sPhase (bStatus (pb after_start))) = (Some "game-uid", "Running") /\
  (let s := (second 200).2 in (off s, gt s, held s, sPhase (bStatus (pb s)), sSnapshotID (bStatus (pb s)))) =
    (None, "", false, "Succeeded", "abcdef12").
Proof. split; vm_compute; reflexivity. Qed.

Lemma saving_off_is_owed_witness : exists s u, reach demo_cfg s /\ off s = Some u /\ owes (pb s) /\
  exists p, parseBackupPreparation (pb s) = Ok (Some p) /\ pPodUID p = u.
Proof.
  exists after_start, "game-uid". split; [apply started_reach|]. split; [vm_compute; reflexivity|].
  apply (saving_off_is_owed demo_cfg after_start "game-uid" started_reach). vm_compute. reflexivity.
Defined.
Lemma start_token_after_quiesce_witness : exists s, reach demo_cfg s /\ gt s <> "" /\ settled demo_cfg (pb s) /\ authorized (pb s) <> "" /\
  exists w src d, gt s = startToken (bUID (pb s)) w src d /\ denotes (copyDeadline (pb s)) d.
Proof.
  assert (Hg : gt after_start <> "") by (vm_compute; discriminate).
  exists after_start. split; [apply started_reach|]. split; [exact Hg|]. apply (start_token_after_quiesce demo_cfg after_start started_reach Hg).
Defined.
Lemma save_on_after_drain_witness : exists s b s' n u k, reach demo_cfg s /\ b ∈ seen s /\
  steps (Reconcile demo_cfg b) s (Call (UnquiescePod n u) k) s' /\ idleJobs s' = true /\ idlePods s' = true.
Proof.
  destruct (asks_spec (second 30).1 "mc" "game-uid") as [k Ek]; [vm_compute; reflexivity|].
  assert (Hs : steps (Reconcile demo_cfg (pb after_start)) after_start (Call (UnquiescePod "mc" "game-uid") k) (second 30).2).
  { rewrite <- Ek. apply second_steps. }
  exists after_start, (pb after_start), (second 30).2, "mc", "game-uid", k.
  split; [apply started_reach|]. split; [apply seen_start|]. split; [exact Hs|].
  exact (proj1 (save_on_after_drain demo_cfg) after_start (pb after_start) (second 30).2 _ _ _ started_reach seen_start Hs).
Defined.
Lemma copy_deadline_fixed_witness : exists s h, reach demo_cfg s /\ h ∈ seen s /\ copyDeadline h <> "" /\
  ((copyDeadline h <> "" -> copyDeadline (pb s) = copyDeadline h) /\ (authorized h <> "" -> authorized (pb s) <> "")).
Proof.
  exists after_start, (pb after_start). split; [apply started_reach|]. split; [apply seen_start|]. split; [vm_compute; discriminate|].
  apply (copy_deadline_fixed demo_cfg after_start (pb after_start) started_reach seen_start).
Defined.
Lemma worker_copies_until_deadline_witness : exists s n, reach demo_cfg s /\
  workerLook "backup-uid" "worker-uid" "5ca1ab1e" 1600 1010 (Some (gt s)) = Start n /\
  "backup-uid" = bUID (pb s) /\ settled demo_cfg (pb s) /\ 0 < n /\ exists d, denotes (copyDeadline (pb s)) d /\ 1010 + n = Unix d.
Proof.
  assert (Hl : workerLook "backup-uid" "worker-uid" "5ca1ab1e" 1600 1010 (Some (gt after_start)) = Start 290) by (vm_compute; reflexivity).
  exists after_start, 290. split; [apply started_reach|]. split; [exact Hl|].
  exact (worker_copies_until_deadline demo_cfg after_start "backup-uid" "worker-uid" "5ca1ab1e" 1600 1010 290 started_reach Hl).
Defined.
