(* ===== verification/Accounts.v ===== *)
(** * api: the account tables and the SQL of the account code

    The tables behind users, roles, bindings and sessions
    (src/api/internal/db/migrations), every SQL statement the account code
    sends (src/api/internal/db/rbac.go, db/users.go, handlers/users.go,
    handlers/roles.go, handlers/binding_permissions.go, auth/sessions.go,
    auth/local.go, auth/oidc.go and cmd/bootstrap.go) with its meaning, and the
    store's own operations on top of them.  Columns nothing in that code reads
    ([created_at], [updated_at]) are left out.  Foreign keys are off, as in the
    shipped SQLite configuration: a row may name a user or a role that is gone. *)

From S2P Require Import Prelude GoText Prog Rbac.
Local Open Scope Z_scope.
Local Open Scope prog_scope.

(** ** Tables *)

Record UserRow := MkUserRow {
  uId : Z; uName : string; uDisplay : string; uEmail : string; uRole : string; uHash : option string }.
Record Binding := MkBinding { bUser : Z; bRole : string; bCluster : string; bNamespace : string }.
Record RoleRow := MkRole { rName : string; rDescription : string; rBuiltin : bool }.
Record Session := MkSession { sToken : string; sUser : Z; sCsrf : string; sExpires : string }.
Record Link := MkLink { lUser : Z; lIssuer : string; lSubject : string; lEmail : string }.
Record Share := MkShare { hToken : string; hCreatedBy : Z; hRevoked : option string }.

(** The tables of preferences, API tokens and notice acknowledgements are only
    cleared here: a row is its owner and the rest of it. *)
Record Db := MkDb {
  users : list UserRow; bindings : list Binding; roles : list RoleRow; perms : list (string * string);
  sessions : list Session; links : list Link; shares : list Share;
  preferences : list (Z * string); tokens : list (Z * string); acks : list (Z * string);
  nextUser : Z }.

Definition set_users v d := MkDb v (bindings d) (roles d) (perms d) (sessions d) (links d) (shares d) (preferences d) (tokens d) (acks d) (nextUser d).
Definition set_bindings v d := MkDb (users d) v (roles d) (perms d) (sessions d) (links d) (shares d) (preferences d) (tokens d) (acks d) (nextUser d).
Definition set_roles v d := MkDb (users d) (bindings d) v (perms d) (sessions d) (links d) (shares d) (preferences d) (tokens d) (acks d) (nextUser d).
Definition set_perms v d := MkDb (users d) (bindings d) (roles d) v (sessions d) (links d) (shares d) (preferences d) (tokens d) (acks d) (nextUser d).
Definition set_sessions v d := MkDb (users d) (bindings d) (roles d) (perms d) v (links d) (shares d) (preferences d) (tokens d) (acks d) (nextUser d).
Definition set_links v d := MkDb (users d) (bindings d) (roles d) (perms d) (sessions d) v (shares d) (preferences d) (tokens d) (acks d) (nextUser d).
Definition set_shares v d := MkDb (users d) (bindings d) (roles d) (perms d) (sessions d) (links d) v (preferences d) (tokens d) (acks d) (nextUser d).
Definition set_preferences v d := MkDb (users d) (bindings d) (roles d) (perms d) (sessions d) (links d) (shares d) v (tokens d) (acks d) (nextUser d).
Definition set_tokens v d := MkDb (users d) (bindings d) (roles d) (perms d) (sessions d) (links d) (shares d) (preferences d) v (acks d) (nextUser d).
Definition set_acks v d := MkDb (users d) (bindings d) (roles d) (perms d) (sessions d) (links d) (shares d) (preferences d) (tokens d) v (nextUser d).
Definition set_nextUser v d := MkDb (users d) (bindings d) (roles d) (perms d) (sessions d) (links d) (shares d) (preferences d) (tokens d) (acks d) v.

(** [COUNT( * )] of the rows that satisfy a condition. *)
Definition countRows {A} (f : A -> bool) (l : list A) : Z := Z.of_nat (length (List.filter f l)).
Definition keep {A} (f : A -> bool) (l : list A) : list A := List.filter (fun x => negb (f x)) l.

(** ** Queries *)

(** [userDTO], without its timestamp. *)
Record userDTO := MkUserDTO {
  dID : Z; dUsername : string; dDisplayName : string; dEmail : string; dRole : string; dProvider : string }.

Inductive query : Type -> Type :=
| QRoleExists (name : string) : query bool
| QRoleGrants (role : string) : query Z
| QUserManages (id : Z) : query Z
| QManagers : query Z
| QManagersOutside (role : string) : query Z
| QRolePermissions (role : string) : query (list string)
| QRoleBuiltin (name : string) : query (option bool)
| QRemoteBindings (role : string) : query Z
| QInUse (role : string) : query Z
| QRoles : query (list RoleRow)
| QPermissions : query (list (string * string))
| QUserExists (id : Z) : query bool
| QSameBinding (b : Binding) : query Z
| QBindings (id : Z) : query (list Binding)
| QUsers : query (list userDTO)
| QUser (id : Z) : query (option userDTO)
| QUserRole (id : Z) : query (option string)
| QUserNamed (name : string) : query (option UserRow)
| QNameCount (name : string) : query Z
| QLinked (issuer subject : string) : query (option UserRow)
| QSession (digest : string) : query (option (UserRow * Session))
| QPerms (id : Z) : query (list (string * string * string))
| QPreferences (id : Z) : query (list string).

(** [permission IN ('users:manage', '*')] *)
Definition managing (p : string) : bool := String.eqb p "users:manage" || String.eqb p "*".

(** [FROM users u JOIN role_permissions rp ON rp.role_name = u.role] *)
Definition user_perms (d : Db) : list (UserRow * string) :=
  flat_map (fun u => map (fun rp => (u, rp.2)) (List.filter (fun rp => String.eqb rp.1 (uRole u)) (perms d))) (users d).

(** [COUNT(DISTINCT u.id)] over that join. *)
Definition distinct_managers (f : UserRow -> bool) (d : Db) : Z :=
  Z.of_nat (length (remove_dups (map (fun up => uId up.1) (List.filter (fun up => managing up.2 && f up.1) (user_perms d))))).

(** The provider column: a link makes the account an SSO one. *)
Definition providerOf (d : Db) (u : UserRow) : string :=
  if existsb (fun l => lUser l =? uId u) (links d) then "oidc"
  else match uHash u with
       | Some h => if String.eqb h "" then "pending" else "local"
       | None => "pending"
       end.
Definition dtoOf (d : Db) (u : UserRow) : userDTO :=
  MkUserDTO (uId u) (uName u) (uDisplay u) (uEmail u) (uRole u) (providerOf d u).

Definition sameBinding (a b : Binding) : bool :=
  (bUser a =? bUser b) && String.eqb (bRole a) (bRole b) && String.eqb (bCluster a) (bCluster b)
  && String.eqb (bNamespace a) (bNamespace b).

(** [FROM user_role_bindings b JOIN role_permissions rp ON rp.role_name = b.role_name] *)
Definition perm_rows (d : Db) (id : Z) : list (string * string * string) :=
  flat_map (fun b => map (fun rp => (bCluster b, bNamespace b, rp.2)) (List.filter (fun rp => String.eqb rp.1 (bRole b)) (perms d)))
    (List.filter (fun b => bUser b =? id) (bindings d)).

(** [ORDER BY] of the listings: the ids of users grow with insertion. *)
Definition role_le (a b : RoleRow) : Prop := str_le (rName a) (rName b).
#[global] Instance role_le_dec a b : Decision (role_le a b).
Proof. unfold role_le. apply _. Defined.
Definition binding_le (a b : Binding) : Prop :=
  str_le (bCluster a) (bCluster b) /\
  (bCluster a = bCluster b -> str_le (bNamespace a) (bNamespace b) /\
    (bNamespace a = bNamespace b -> str_le (bRole a) (bRole b))).
#[global] Instance binding_le_dec a b : Decision (binding_le a b).
Proof. unfold binding_le. apply _. Defined.

Definition evalQ {A} (q : query A) (d : Db) : A :=
  match q with
  | QRoleExists name => existsb (fun r => String.eqb (rName r) name) (roles d)
  | QRoleGrants role => countRows (fun rp => String.eqb rp.1 role && managing rp.2) (perms d)
  | QUserManages id => countRows (fun up => (uId up.1 =? id) && managing up.2) (user_perms d)
  | QManagers => distinct_managers (fun _ => true) d
  | QManagersOutside role => distinct_managers (fun u => negb (String.eqb (uRole u) role)) d
  | QRolePermissions role => map snd (List.filter (fun rp => String.eqb rp.1 role) (perms d))
  | QRoleBuiltin name => rBuiltin <$> List.find (fun r => String.eqb (rName r) name) (roles d)
  | QRemoteBindings role =>
      countRows (fun b => String.eqb (bRole b) role && String.eqb (bNamespace b) "*" && negb (String.eqb (bCluster b) DefaultCluster)) (bindings d)
  | QInUse role => countRows (fun b => String.eqb (bRole b) role) (bindings d)
  | QRoles => merge_sort role_le (roles d)
  | QPermissions => perms d
  | QUserExists id => existsb (fun u => uId u =? id) (users d)
  | QSameBinding b => countRows (sameBinding b) (bindings d)
  | QBindings id => merge_sort binding_le (List.filter (fun b => bUser b =? id) (bindings d))
  | QUsers => map (dtoOf d) (users d)
  | QUser id => dtoOf d <$> List.find (fun u => uId u =? id) (users d)
  | QUserRole id => uRole <$> List.find (fun u => uId u =? id) (users d)
  | QUserNamed name => List.find (fun u => String.eqb (uName u) name) (users d)
  | QNameCount name => countRows (fun u => String.eqb (uName u) name) (users d)
  | QLinked issuer subject =>
      l ← List.find (fun l => String.eqb (lIssuer l) issuer && String.eqb (lSubject l) subject) (links d);
      List.find (fun u => uId u =? lUser l) (users d)
  | QSession digest =>
      s ← List.find (fun s => String.eqb (sToken s) digest) (sessions d);
      u ← List.find (fun u => uId u =? sUser s) (users d);
      Some (u, s)
  | QPerms id => perm_rows d id
  | QPreferences id => map snd (List.filter (fun r => r.1 =? id) (preferences d))
  end.

(** ** Statements *)

Inductive stmt : Type :=
| XInsertUser (name display email role : string) (hash : option string)
| XSetDisplay (display : string) (id : Z)
| XSetEmail (email : string) (id : Z)
| XSetRole (role : string) (id : Z)
| XSetPassword (hash : string) (id : Z)
| XPromote (hash display email : string) (id : Z)
| XDeleteUser (id : Z)
| XInsertBinding (b : Binding)
| XDeleteBinding (b : Binding)
| XClearCluster (id : Z) (cluster : string)
| XDeleteUserBindings (id : Z)
| XInsertRole (name description : string)
| XDescribeRole (description name : string)
| XTouchRole (name : string)
| XDeleteRole (name : string)
| XInsertPermission (role perm : string)
| XDeletePermissions (role : string)
| XInsertLink (l : Link)
| XDeleteLinks (id : Z)
| XDeletePreferences (id : Z)
| XInsertSession (s : Session)
| XDeleteSession (token : string)
| XDeleteSessionsOf (id : Z)
| XDeleteExpired (cutoff : string)
| XDeleteTokens (id : Z)
| XDeleteAcks (id : Z)
| XRevokeShares (at_ : string) (id : Z).

Definition update_user (id : Z) (f : UserRow -> UserRow) (d : Db) : Db * Z :=
  (set_users (map (fun u => if uId u =? id then f u else u) (users d)) d, countRows (fun u => uId u =? id) (users d)).

Definition withDisplay v u := MkUserRow (uId u) (uName u) v (uEmail u) (uRole u) (uHash u).
Definition withEmail v u := MkUserRow (uId u) (uName u) (uDisplay u) v (uRole u) (uHash u).
Definition withRole v u := MkUserRow (uId u) (uName u) (uDisplay u) (uEmail u) v (uHash u).
Definition withHash v u := MkUserRow (uId u) (uName u) (uDisplay u) (uEmail u) (uRole u) (Some v).

(** The tables after a statement and the rows it affected ([RETURNING id] for a
    new user); [None] when a primary key or a unique column refuses it. *)
Definition evalX (x : stmt) (d : Db) : option (Db * Z) :=
  match x with
  | XInsertUser name display email role hash =>
      if existsb (fun u => String.eqb (uName u) name) (users d) then None
      else Some (set_nextUser (nextUser d + 1) (set_users (users d ++ [MkUserRow (nextUser d) name display email role hash]) d), nextUser d)
  | XSetDisplay display id => Some (update_user id (withDisplay display) d)
  | XSetEmail email id => Some (update_user id (withEmail email) d)
  | XSetRole role id => Some (update_user id (withRole role) d)
  | XSetPassword hash id => Some (update_user id (withHash hash) d)
  | XPromote hash display email id =>
      Some (update_user id (fun u => withHash hash (withRole "admin" (withDisplay display (withEmail email u)))) d)
  | XDeleteUser id => Some (set_users (keep (fun u => uId u =? id) (users d)) d, countRows (fun u => uId u =? id) (users d))
  | XInsertBinding b => if existsb (sameBinding b) (bindings d) then None else Some (set_bindings (bindings d ++ [b]) d, 1)
  | XDeleteBinding b => Some (set_bindings (keep (sameBinding b) (bindings d)) d, countRows (sameBinding b) (bindings d))
  | XClearCluster id cluster =>
      let f b := (bUser b =? id) && String.eqb (bCluster b) cluster && String.eqb (bNamespace b) "*" in
      Some (set_bindings (keep f (bindings d)) d, countRows f (bindings d))
  | XDeleteUserBindings id =>
      Some (set_bindings (keep (fun b => bUser b =? id) (bindings d)) d, countRows (fun b => bUser b =? id) (bindings d))
  | XInsertRole name description =>
      if existsb (fun r => String.eqb (rName r) name) (roles d) then None
      else Some (set_roles (roles d ++ [MkRole name description false]) d, 1)
  | XDescribeRole description name =>
      Some (set_roles (map (fun r => if String.eqb (rName r) name then MkRole (rName r) description (rBuiltin r) else r) (roles d)) d,
            countRows (fun r => String.eqb (rName r) name) (roles d))
  | XTouchRole name => Some (d, countRows (fun r => String.eqb (rName r) name) (roles d))
  | XDeleteRole name =>
      Some (set_roles (keep (fun r => String.eqb (rName r) name) (roles d)) d, countRows (fun r => String.eqb (rName r) name) (roles d))
  | XInsertPermission role perm =>
      if existsb (fun rp => String.eqb rp.1 role && String.eqb rp.2 perm) (perms d) then None
      else Some (set_perms (perms d ++ [(role, perm)]) d, 1)
  | XDeletePermissions role =>
      Some (set_perms (keep (fun rp => String.eqb rp.1 role) (perms d)) d, countRows (fun rp => String.eqb rp.1 role) (perms d))
  | XInsertLink l =>
      if existsb (fun k => String.eqb (lIssuer k) (lIssuer l) && String.eqb (lSubject k) (lSubject l)) (links d) then None
      else Some (set_links (links d ++ [l]) d, 1)
  | XDeleteLinks id => Some (set_links (keep (fun l => lUser l =? id) (links d)) d, countRows (fun l => lUser l =? id) (links d))
  | XDeletePreferences id => Some (set_preferences (keep (fun r => r.1 =? id) (preferences d)) d, countRows (fun r => r.1 =? id) (preferences d))
  | XInsertSession s =>
      if existsb (fun k => String.eqb (sToken k) (sToken s)) (sessions d) then None
      else Some (set_sessions (sessions d ++ [s]) d, 1)
  | XDeleteSession token =>
      Some (set_sessions (keep (fun s => String.eqb (sToken s) token) (sessions d)) d, countRows (fun s => String.eqb (sToken s) token) (sessions d))
  | XDeleteSessionsOf id => Some (set_sessions (keep (fun s => sUser s =? id) (sessions d)) d, countRows (fun s => sUser s =? id) (sessions d))
  | XDeleteExpired cutoff =>
      let f s := String.ltb (sExpires s) cutoff in
      Some (set_sessions (keep f (sessions d)) d, countRows f (sessions d))
  | XDeleteTokens id => Some (set_tokens (keep (fun r => r.1 =? id) (tokens d)) d, countRows (fun r => r.1 =? id) (tokens d))
  | XDeleteAcks id => Some (set_acks (keep (fun r => r.1 =? id) (acks d)) d, countRows (fun r => r.1 =? id) (acks d))
  | XRevokeShares at_ id =>
      let f h := (hCreatedBy h =? id) && match hRevoked h with None => true | Some _ => false end in
      Some (set_shares (map (fun h => if f h then MkShare (hToken h) (hCreatedBy h) (Some at_) else h) (shares d)) d, countRows f (shares d))
  end.

(** ** Calls *)

(** What the code asks of the database connection and of the user-management
    mutex ([LockUserManagement]). *)
Inductive sql : Type -> Type :=
| SRead {A} (q : query A) : sql A
| SExec (x : stmt) : sql Z
| SBegin : sql unit
| SCommit : sql unit
| SRollback : sql unit
| SLock : sql unit
| SUnlock : sql unit.

(** A statement the schema refuses, or one the driver could not carry out. *)
Inductive dberr := Conflict | Failed.

Abbreviation P := (prog sql dberr).
Definition dbRead {A} (q : query A) : P (result dberr A) := call (SRead q).
Definition exec (x : stmt) : P (result dberr Z) := call (SExec x).

(** [unlock := s.LockUserManagement(); defer unlock()] around the rest. *)
Definition locked {A} (p : P A) : P A :=
  let! _ := call SLock in let! a := p in let! _ := call SUnlock in Ret a.
(** [defer func() { _ = tx.Rollback() }()]: nothing is left to roll back after a
    commit. *)
Definition deferRollback {A} (p : P A) : P A :=
  let! a := p in let! _ := call SRollback in Ret a.

(** ** db/rbac.go *)

Definition SetClusterRoleBinding (userID : Z) (cluster role : string) : P (result dberr unit) :=
  try! _ := exec (XClearCluster userID cluster) in
  try! _ := exec (XInsertBinding (MkBinding userID role cluster "*")) in
  Ret (Ok ()).

Definition DeleteUserBindings (userID : Z) : P (result dberr unit) :=
  try! _ := exec (XDeleteUserBindings userID) in Ret (Ok ()).

Definition RoleExists (name : string) : P (result dberr bool) := dbRead (QRoleExists name).

Definition RoleGrantsUserManagement (role : string) : P (result dberr bool) :=
  try! n := dbRead (QRoleGrants role) in Ret (Ok (0 <? n)).

Definition UserManagesUsers (userID : Z) : P (result dberr bool) :=
  try! n := dbRead (QUserManages userID) in Ret (Ok (0 <? n)).

Definition UserManagerCount : P (result dberr Z) := dbRead QManagers.

Definition UserManagerCountExcludingRole (role : string) : P (result dberr Z) := dbRead (QManagersOutside role).

(** ** db/users.go and db/telemetry.go *)

Definition DeleteNoticeAcksForUser (userID : Z) : P (result dberr unit) :=
  try! _ := exec (XDeleteAcks userID) in Ret (Ok ()).

(** [DeleteUser]; [revokedAt] is the clock's reading. *)
Definition DeleteUser (revokedAt : string) (userID : Z) : P (result dberr unit) :=
  try! _ := call SBegin in
  deferRollback (
    try! _ := exec (XRevokeShares revokedAt userID) in
    try! _ := exec (XDeleteLinks userID) in
    try! _ := exec (XDeletePreferences userID) in
    try! _ := exec (XDeleteSessionsOf userID) in
    try! _ := exec (XDeleteTokens userID) in
    try! _ := DeleteUserBindings userID in
    try! _ := DeleteNoticeAcksForUser userID in
    try! _ := exec (XDeleteUser userID) in
    try! _ := call SCommit in
    Ret (Ok ())).
