(* ===== verification/AccountsApi.v ===== *)
(** * api: users, roles, bindings, sessions and sign-in

    The handlers that change accounts and permissions, as programs of SQL calls:
    src/api/internal/handlers/users.go (accounts and bindings), roles.go and
    binding_permissions.go; src/api/internal/auth/sessions.go, local.go and the
    part of oidc.go that resolves the account of a sign-in; the account part of
    src/api/cmd/bootstrap.go.  A request arrives as what the handlers read of it:
    path parameters, the decoded body ([None] when it does not decode), the
    caller.  The outcome of hashing or verifying a password, random tokens and
    the clock's readings are arguments. *)

From S2P Require Import Prelude GoText GoTime GoDate Prog Rbac Accounts.
From Stdlib Require Import Ascii.
Local Open Scope Z_scope.
Local Open Scope prog_scope.

(** ** Responses *)

Record roleDTO := MkRoleDTO { oName : string; oDescription : string; oBuiltin : bool; oPermissions : list string }.

Inductive json :=
| JUser (u : userDTO)
| JUsers (us : list userDTO)
| JBinding (b : Binding)
| JBindings (bs : list Binding)
| JRole (r : roleDTO)
| JRoles (rs : list roleDTO)
| JLogin (u : UserRow) (ps : perm_map) (prefs : list string) (csrf : string).

(** [httperr.WriteMessage], [httperr.Write] of an error, [WriteCode] or
    [http.Error], [writeJSON] and [writeJSONCreated], 204, a redirect, and the
    exit of the bootstrap command. *)
Inductive reply :=
| Msg (id : string)
| Fail
| Code (status : Z) (text : string)
| Json (j : json)
| Created (j : json)
| NoContent
| Redirect (path : string)
| Exit (err : option string).

(** [if err != nil { httperr.Write(w, req, err); return }] *)
Definition orFail {A} (p : P (result dberr A)) (f : A -> P reply) : P reply :=
  pbind p (fun r => match r with Ok a => f a | Err _ => Ret Fail end).
Notation "'must!' x ':=' p 'in' q" := (orFail p (fun x => q))
  (at level 10, x pattern, p at level 100, q at level 200) : prog_scope.

(** What the handlers know of their surroundings: [mail.ParseAddress] succeeds,
    the allowed namespaces, the registered clusters, whether a session store is
    attached. *)
Record Env := MkEnv { mailOk : string -> bool; allowedNs : list string; clusterIDs : list string; hasSessions : bool }.

(** The caller, as [UserFromContext] has it. *)
Record Caller := MkCaller { caID : Z; caRole : string }.

Definition MinPasswordLen : Z := 12.
Definition strLen (s : string) : Z := Z.of_nat (String.length s).

(** [identifierRE] *)
Definition alnum (b : Z) : bool := in_range 97 122 b || in_range 65 90 b || in_range 48 57 b.
Definition identifierRE (s : string) : bool :=
  match bytes_of s with
  | [] => false
  | b :: bs => alnum b && forallb (fun c => alnum c || existsb (Z.eqb c) [95; 46; 45]) bs && (length bs <=? 63)%nat
  end.

(** ** auth/sessions.go *)

Definition sessionTTL : duration := 12 * Hour.

Section Handlers.
Context (env : Env) (sessionDigest : string -> string).
Context (ParseRFC3339 : string -> option time) (FormatRFC3339 : time -> string).

(** [Create] with the two random tokens; only the digest is stored. *)
Definition Create (session csrf : string) (now : time) (userID : Z) : P (result dberr unit) :=
  try! _ := exec (XInsertSession (MkSession (sessionDigest session) userID csrf (FormatRFC3339 (now + sessionTTL)))) in
  Ret (Ok ()).

Definition DeleteForUser (userID : Z) : P (result dberr unit) :=
  try! _ := exec (XDeleteSessionsOf userID) in Ret (Ok ()).

Definition gcOnce (now : time) : P (result dberr Z) := exec (XDeleteExpired (FormatRFC3339 now)).

(** The error of [lookup]: no such session, an invalid or expired one, or a
    failing store. *)
Inductive lookup_err := ErrNoRows | errSessionInvalid | errSessionExpired | ErrStore.

Definition LoadPerms_of (userID : Z) : P (result dberr perm_map) :=
  try! rows := dbRead (QPerms userID) in Ret (Ok (LoadPerms rows)).

Definition lookup_session (token : string) (now : time) : P (result lookup_err (UserRow * perm_map * string)) :=
  let digest := sessionDigest token in
  let! row := dbRead (QSession digest) in
  match row with
  | Err _ => Ret (Err ErrStore)
  | Ok None => Ret (Err ErrNoRows)
  | Ok (Some (u, s)) =>
      match ParseRFC3339 (sExpires s) with
      | None => let! _ := exec (XDeleteSession digest) in Ret (Err errSessionInvalid)
      | Some exp =>
          if After now exp then let! _ := exec (XDeleteSession digest) in Ret (Err errSessionExpired)
          else
            let! ps := LoadPerms_of (uId u) in
            match ps with
            | Err _ => Ret (Err ErrStore)
            | Ok ps => Ret (Ok (u, ps, sCsrf s))
            end
      end
  end.

Definition isMutating (method : string) : bool :=
  negb (String.eqb method "GET" || String.eqb method "HEAD" || String.eqb method "OPTIONS").

(** [Authenticate]: the reply that ends the request, or the user the next
    handler gets. *)
Definition Authenticate (cookie : option string) (method csrfHeader : string) (now : time)
    : P (result reply (UserRow * perm_map)) :=
  match cookie with
  | None => Ret (Err (Msg "server.common.unauthenticated"))
  | Some c =>
      let! r := lookup_session c now in
      match r with
      | Err ErrStore => Ret (Err (Msg "server.generic.503"))
      | Err _ => Ret (Err (Msg "server.common.unauthenticated"))
      | Ok (u, ps, csrf) =>
          if isMutating method && negb (String.eqb csrfHeader csrf) then Ret (Err (Msg "server.auth.csrf_mismatch"))
          else Ret (Ok (u, ps))
      end
  end.

Definition HandleLogout (cookie : option string) : P reply :=
  match cookie with
  | Some c => let! _ := exec (XDeleteSession (sessionDigest c)) in Ret NoContent
  | None => Ret NoContent
  end.

(** ** auth/local.go *)

Definition fetchUser (username : string) : P (option (UserRow * string)) :=
  let! r := dbRead (QUserNamed username) in
  match r with
  | Ok (Some u) => Ret (Some (u, default EmptyString (uHash u)))
  | _ => Ret None
  end.

(** [HandleLogin]: [enabled] is the registry's answer, [allow] the limiter's,
    [verify] [VerifyPassword] ([None] for its error). *)
Definition HandleLogin (enabled : bool) (contentType : string) (body : option (string * string)) (allow : bool)
    (verify : string -> string -> option bool) (session csrf : string) (now : time) : P reply :=
  if negb enabled then Ret (Code 403 "login method disabled")
  else if negb (HasPrefix contentType "application/json") then Ret (Code 415 "expected application/json")
  else match body with
  | None => Ret (Code 400 "bad request")
  | Some (username, password) =>
      if negb (String.eqb username "") && negb allow then Ret (Code 429 "too many requests")
      else
        let! found := fetchUser username in
        match found with
        | None => Ret (Msg "server.auth.invalid_credentials")
        | Some (u, hash) =>
            if String.eqb hash "" then Ret (Msg "server.auth.invalid_credentials")
            else match verify password hash with
            | Some true =>
                let! ps := LoadPerms_of (uId u) in
                match ps with
                | Err _ => Ret (Code 500 "session error")
                | Ok ps =>
                    let! prefs := dbRead (QPreferences (uId u)) in
                    match prefs with
                    | Err _ => Ret (Code 500 "session error")
                    | Ok prefs =>
                        let! made := Create session csrf now (uId u) in
                        match made with
                        | Err _ => Ret (Code 500 "session error")
                        | Ok _ => Ret (Json (JLogin u ps prefs csrf))
                        end
                    end
                end
            | _ => Ret (Msg "server.auth.invalid_credentials")
            end
        end
  end.

(** ** auth/oidc.go *)

Record RoleAssignmentOutcome := MkOutcome { PreviousRole : string; NewRole : string; MatchedGroup : string; Applied : bool }.

(** The transaction of [syncUserRole]. *)
Definition repointRole (userID : Z) (newRole : string) (outcome : RoleAssignmentOutcome) : P (result dberr RoleAssignmentOutcome) :=
  try! _ := call SBegin in
  deferRollback (
    try! _ := exec (XSetRole newRole userID) in
    try! _ := SetClusterRoleBinding userID DefaultCluster newRole in
    try! _ := call SCommit in
    Ret (Ok outcome)).

Definition syncUserRole (userID : Z) (newRole matchedGroup : string) : P (result dberr RoleAssignmentOutcome) :=
  locked (
    try! cur := dbRead (QUserRole userID) in
    match cur with
    | None => Ret (Err Failed)
    | Some currentRole =>
        let outcome := MkOutcome currentRole newRole matchedGroup in
        if String.eqb currentRole newRole then Ret (Ok (outcome true))
        else
          try! newGrantsManage := RoleGrantsUserManagement newRole in
          try! blocked :=
            (if negb newGrantsManage then
               try! managesNow := UserManagesUsers userID in
               if managesNow then try! count := UserManagerCount in Ret (Ok (count <=? 1))
               else Ret (Ok false)
             else Ret (Ok false)) in
          if (blocked : bool) then Ret (Ok (outcome false))
          else repointRole userID newRole (outcome true)
    end).

Definition pickUniqueUsername (base sub : string) : P (result dberr string) :=
  try! existing := dbRead (QNameCount base) in
  if existing =? 0 then Ret (Ok base)
  else
    let suffix := if 8 <? strLen sub then String.substring 0 8 sub else sub in
    Ret (Ok (base +:+ "+" +:+ suffix)).

(** The account, link and binding of a first sign-in, in one transaction. *)
Definition firstLogin (issuer sub email name role matchedGroup : string) : P (result dberr (UserRow * RoleAssignmentOutcome)) :=
  let baseUsername := if String.eqb email "" then sub else email in
  try! _ := call SBegin in
  deferRollback (
    try! username := pickUniqueUsername baseUsername sub in
    try! uid := exec (XInsertUser username name email role None) in
    try! _ := exec (XInsertLink (MkLink uid issuer sub email)) in
    try! _ := exec (XInsertBinding (MkBinding uid role DefaultCluster "*")) in
    try! _ := call SCommit in
    Ret (Ok (MkUserRow uid username name email role None, MkOutcome "new_user" role matchedGroup true))).

(** [resolveOrLinkUser]; the store is attached. *)
Definition resolveOrLinkUser (issuer sub email name role matchedGroup : string) (syncRole : bool)
    : P (result dberr (UserRow * RoleAssignmentOutcome)) :=
  let! found := dbRead (QLinked issuer sub) in
  match found with
  | Ok (Some u) =>
      if syncRole then
        try! outcome := syncUserRole (uId u) role matchedGroup in
        Ret (Ok (if Applied outcome then withRole (NewRole outcome) u else u, outcome))
      else Ret (Ok (u, MkOutcome (uRole u) (uRole u) "none" true))
  | _ => firstLogin issuer sub email name role matchedGroup
  end.

(** [HandleCallbackAt] once the identity is verified and its role computed. *)
Definition finishCallback (issuer sub email name role matchedGroup : string) (syncRole : bool)
    (session csrf : string) (now : time) : P reply :=
  let! r := resolveOrLinkUser issuer sub email name role matchedGroup syncRole in
  match r with
  | Err _ => Ret (Code 500 "login failed")
  | Ok (u, _) =>
      let! made := Create session csrf now (uId u) in
      match made with
      | Err _ => Ret (Code 500 "login failed")
      | Ok _ => Ret (Redirect "/")
      end
  end.

(** ** handlers/users.go *)

Record createUserReq := MkCreateUser { cuUsername : string; cuDisplayName : string; cuEmail : string; cuPassword : string; cuRole : string }.

Definition list_users : P reply := must! us := dbRead QUsers in Ret (Json (JUsers us)).

Definition nullable (s : string) : option string := if String.eqb s "" then None else Some s.

(** [create] from the insertion on. *)
Definition insertUser (body : createUserReq) (role hash : string) : P reply :=
  must! id := exec (XInsertUser (cuUsername body) (cuDisplayName body) (cuEmail body) role (nullable hash)) in
  must! _ := SetClusterRoleBinding id DefaultCluster role in
  let provider := if String.eqb hash "" then "pending" else "local" in
  Ret (Json (JUser (MkUserDTO id (cuUsername body) (cuDisplayName body) (cuEmail body) role provider))).

(** [create]; [hashed] is what [HashPassword] returns for the password. *)
Definition createUser (body : option createUserReq) (hashed : option string) : P reply :=
  match body with
  | None => Ret (Msg "server.bad_request")
  | Some body =>
      if negb (identifierRE (cuUsername body)) then Ret (Msg "server.users.invalid_username")
      else if negb (String.eqb (cuEmail body) "") && negb (mailOk env (cuEmail body)) then Ret (Msg "server.users.invalid_email")
      else
        let role := if String.eqb (cuRole body) "" then "viewer" else cuRole body in
        must! ok := RoleExists role in
        if negb ok then Ret (Msg "server.users.invalid_role")
        else
          if String.eqb (cuPassword body) "" then insertUser body role EmptyString
          else if strLen (cuPassword body) <? MinPasswordLen then Ret (Msg "server.users.password_too_short")
          else match hashed with None => Ret Fail | Some hash => insertUser body role hash end
  end.

(** [del] *)
Definition del_user (caller : option Caller) (idParam revokedAt : string) : P reply :=
  match ParseInt64 idParam with
  | None => Ret (Msg "server.users.bad_id")
  | Some id =>
      if match caller with Some u => caID u =? id | None => false end then Ret (Msg "server.users.cannot_delete_self")
      else locked (
        must! managesNow := UserManagesUsers id in
        let delete :=
          must! _ := DeleteUser revokedAt id in Ret NoContent in
        if managesNow then
          must! count := UserManagerCount in
          if count <=? 1 then Ret (Msg "server.users.cannot_delete_last_manager") else delete
        else delete)
  end.

Record updateUserReq := MkUpdateUser { upDisplayName : option string; upEmail : option string; upRole : option string }.

Definition fetchByID (id : Z) : P (result dberr (option userDTO)) := dbRead (QUser id).

(** [update] from the transaction on. *)
Definition applyUpdate (id : Z) (body : updateUserReq) : P reply :=
  must! _ := call SBegin in
  deferRollback (
    must! _ := match upDisplayName body with Some v => exec (XSetDisplay v id) | None => Ret (Ok 0) end in
    must! _ := match upEmail body with Some v => exec (XSetEmail v id) | None => Ret (Ok 0) end in
    let finish :=
      must! _ := call SCommit in
      let! _ := (if hasSessions env && match upRole body with Some _ => true | None => false end
                 then DeleteForUser id else Ret (Ok ())) in
      must! out := fetchByID id in
      match out with
      | None => Ret (Msg "server.common.user_not_found")
      | Some u => Ret (Json (JUser u))
      end in
    match upRole body with
    | None => finish
    | Some role =>
        must! n := exec (XSetRole role id) in
        if n =? 0 then Ret (Code 404 "user not found")
        else
          must! _ := SetClusterRoleBinding id DefaultCluster role in
          finish
    end).

(** [update] *)
Definition update_account (caller : option Caller) (idParam : string) (body : option updateUserReq) : P reply :=
  match ParseInt64 idParam with
  | None => Ret (Msg "server.users.bad_id")
  | Some id =>
  match body with
  | None => Ret (Msg "server.bad_request")
  | Some body =>
      if match upEmail body with Some e => negb (String.eqb e "") && negb (mailOk env e) | None => false end
      then Ret (Msg "server.users.invalid_email")
      else match upRole body with
      | None => applyUpdate id body
      | Some role =>
          must! ok := RoleExists role in
          if negb ok then Ret (Msg "server.users.invalid_role")
          else locked (
            must! newGrantsManage := RoleGrantsUserManagement role in
            let selfChanging := match caller with
              | Some u => (caID u =? id) && negb (String.eqb role (caRole u)) | None => false end in
            if selfChanging && negb newGrantsManage then Ret (Msg "server.users.cannot_remove_own_management")
            else if negb newGrantsManage then
              must! managesNow := UserManagesUsers id in
              if managesNow then
                must! count := UserManagerCount in
                if count <=? 1 then Ret (Msg "server.users.cannot_demote_last_manager") else applyUpdate id body
              else applyUpdate id body
            else applyUpdate id body)
      end
  end
  end.

(** [resetPassword]; the body is the new password. *)
Definition resetPassword (idParam : string) (body : option string) (hashed : option string) : P reply :=
  match ParseInt64 idParam with
  | None => Ret (Msg "server.users.bad_id")
  | Some id =>
  match body with
  | None => Ret (Msg "server.bad_request")
  | Some password =>
      if strLen password <? MinPasswordLen then Ret (Msg "server.users.password_too_short")
      else match hashed with
      | None => Ret Fail
      | Some hash =>
          must! n := exec (XSetPassword hash id) in
          if n =? 0 then Ret (Msg "server.common.user_not_found")
          else
            let! _ := (if hasSessions env then DeleteForUser id else Ret (Ok ())) in
            Ret NoContent
      end
  end
  end.

Definition listBindings (idParam : string) : P reply :=
  match ParseInt64 idParam with
  | None => Ret (Msg "server.users.bad_id")
  | Some id => must! bs := dbRead (QBindings id) in Ret (Json (JBindings bs))
  end.

Definition invalidateSessions (id : Z) : P unit :=
  if hasSessions env then let! _ := DeleteForUser id in Ret () else Ret ().

(** *** handlers/binding_permissions.go *)

Definition remoteWidePermissionsAllowed (permissions : list string) : bool :=
  forallb (fun p => String.eqb p "cluster:read" || String.eqb p "modules:read" || String.eqb p "modules:manage"
                    || String.eqb p "templates:read" || String.eqb p "templates:write" || Namespaced p) permissions.

Definition remoteWideRoleAllowed (role : string) : P (result dberr bool) :=
  try! ps := dbRead (QRolePermissions role) in Ret (Ok (remoteWidePermissionsAllowed ps)).

Definition userExists (id : Z) : P (result dberr bool) := dbRead (QUserExists id).

(** The checks and the insertion of [addBinding] once its scope is settled. *)
Definition grantBinding (remoteWide : bool) (b : Binding) : P reply :=
  must! ok := RoleExists (bRole b) in
  if negb ok then Ret (Msg "server.users.invalid_role")
  else
    let grant :=
      must! ok := userExists (bUser b) in
      if negb ok then Ret (Msg "server.common.user_not_found")
      else
        must! dup := dbRead (QSameBinding b) in
        if 0 <? dup then Ret (Msg "server.users.binding_already_exists")
        else
          must! _ := exec (XInsertBinding b) in
          let! _ := invalidateSessions (bUser b) in
          Ret (Created (JBinding b)) in
    if remoteWide then
      must! allowed := remoteWideRoleAllowed (bRole b) in
      if negb allowed then Ret (Msg "server.users.remote_role_scope_limited") else grant
    else grant.

(** [addBinding]; the body is the role, the namespace and the cluster. *)
Definition addBinding (idParam : string) (body : option (string * string * string)) : P reply :=
  match ParseInt64 idParam with
  | None => Ret (Msg "server.users.bad_id")
  | Some id =>
  match body with
  | None => Ret (Msg "server.bad_request")
  | Some (role, namespace, cluster) =>
      let cluster := if String.eqb cluster "" then DefaultCluster else cluster in
      let remoteWide := String.eqb namespace "*" && negb (String.eqb cluster DefaultCluster) in
      if negb remoteWide && (String.eqb namespace "*" || negb (contains (allowedNs env) namespace))
      then Ret (Msg "server.common.namespace_not_permitted")
      else if String.eqb cluster "*" then Ret (Msg "server.cluster_forbidden")
      else if negb (contains (clusterIDs env) cluster) then Ret (Msg "server.cluster_forbidden")
      else
        let b := MkBinding id role cluster namespace in
        if remoteWide then locked (grantBinding true b) else grantBinding false b
  end
  end.

Definition deleteBinding (idParam role namespace cluster : string) : P reply :=
  match ParseInt64 idParam with
  | None => Ret (Msg "server.users.bad_id")
  | Some id =>
      let cluster := if String.eqb cluster "" then DefaultCluster else cluster in
      if String.eqb namespace "*" && String.eqb cluster DefaultCluster then Ret (Msg "server.users.cluster_role_is_primary")
      else if String.eqb cluster "*" then Ret (Msg "server.cluster_forbidden")
      else
        let remove :=
          must! n := exec (XDeleteBinding (MkBinding id role cluster namespace)) in
          if n =? 0 then Ret (Msg "server.users.binding_not_found")
          else
            let! _ := invalidateSessions id in
            Ret NoContent in
        if String.eqb namespace "*" then
          locked (
            must! allowed := remoteWideRoleAllowed role in
            if negb allowed then Ret (Msg "server.users.remote_binding_not_removable") else remove)
        else remove
  end.

(** ** handlers/roles.go *)

Definition dedup_step (out : list string) (s : string) : list string := if contains out s then out else out ++ [s].
Definition dedupSorted (l : list string) : list string := merge_sort str_le (foldl dedup_step [] l).

Definition loadRoles : P (result dberr (list roleDTO)) :=
  try! rows := dbRead QRoles in
  try! pRows := dbRead QPermissions in
  Ret (Ok (map (fun r => MkRoleDTO (rName r) (rDescription r) (rBuiltin r)
             (merge_sort str_le (map snd (List.filter (fun rp => String.eqb rp.1 (rName r)) pRows)))) rows)).

Definition list_roles : P reply := must! rs := loadRoles in Ret (Json (JRoles rs)).

Definition validatePermissions (ps : list string) : option string :=
  match List.find (fun p => String.eqb p "*" || negb (ValidPermission p)) ps with
  | None => None
  | Some p => Some (if String.eqb p "*" then "the wildcard permission cannot be granted to a custom role"
                    else "unknown permission: " +:+ p)
  end.

Definition permsGrantUserManagement (ps : list string) : bool :=
  existsb (fun p => String.eqb p "users:manage" || String.eqb p "*") ps.

Fixpoint insert_all (role : string) (ps : list string) : P (result dberr unit) :=
  match ps with
  | [] => Ret (Ok ())
  | p :: ps => try! _ := exec (XInsertPermission role p) in insert_all role ps
  end.
Definition insertPermissions (role : string) (ps : list string) : P (result dberr unit) := insert_all role (dedupSorted ps).

Record roleCreateReq := MkRoleCreate { rcName : string; rcDescription : string; rcPermissions : list string }.

(** [create] of a role *)
Definition create_role (body : option roleCreateReq) : P reply :=
  match body with
  | None => Ret (Msg "server.bad_request")
  | Some body =>
      if negb (identifierRE (rcName body)) then Ret (Msg "server.roles.invalid_role_name")
      else match validatePermissions (rcPermissions body) with
      | Some msg => Ret (Code 400 msg)
      | None =>
          must! _ := call SBegin in
          deferRollback (
            let! r := exec (XInsertRole (rcName body) (rcDescription body)) in
            match r with
            | Err _ => Ret (Msg "server.roles.role_already_exists")
            | Ok _ =>
                must! _ := insertPermissions (rcName body) (rcPermissions body) in
                must! _ := call SCommit in
                Ret (Created (JRole (MkRoleDTO (rcName body) (rcDescription body) false (dedupSorted (rcPermissions body)))))
            end)
      end
  end.

(** [userManagementGuard]: a refusal, or [None]. *)
Definition userManagementGuard (caller : option Caller) (role : string) (ps : list string) : P (result dberr (option string)) :=
  if permsGrantUserManagement ps then Ret (Ok None)
  else
    try! grantsNow := RoleGrantsUserManagement role in
    if negb grantsNow then Ret (Ok None)
    else if match caller with Some c => String.eqb (caRole c) role | None => false end
    then Ret (Ok (Some "cannot remove your own user-management access"))
    else
      try! total := UserManagerCount in
      try! others := UserManagerCountExcludingRole role in
      if (0 <? total) && (others =? 0)
      then Ret (Ok (Some "cannot remove user management from the role every user manager holds"))
      else Ret (Ok None).

Definition roleBuiltin (name : string) : P (result dberr (option bool)) := dbRead (QRoleBuiltin name).

Record roleUpdateReq := MkRoleUpdate { ruDescription : option string; ruPermissions : option (list string) }.

(** [update] of a role from the transaction on. *)
Definition applyRoleUpdate (name : string) (body : roleUpdateReq) : P reply :=
  must! _ := call SBegin in
  deferRollback (
    must! _ := match ruDescription body with Some v => exec (XDescribeRole v name) | None => Ret (Ok 0) end in
    must! _ := match ruPermissions body with
      | Some ps =>
          try! _ := exec (XDeletePermissions name) in
          try! _ := insertPermissions name ps in
          exec (XTouchRole name)
      | None => Ret (Ok 0)
      end in
    must! _ := call SCommit in
    must! rs := loadRoles in
    match List.find (fun r => String.eqb (oName r) name) rs with
    | Some r => Ret (Json (JRole r))
    | None => Ret (Msg "server.roles.role_not_found")
    end).

(** [update] of a role *)
Definition update_role (caller : option Caller) (name : string) (body : option roleUpdateReq) : P reply :=
  must! found := roleBuiltin name in
  match found with
  | None => Ret (Msg "server.roles.role_not_found")
  | Some builtin =>
      if builtin && String.eqb name "admin" then Ret (Msg "server.roles.admin_not_editable")
      else match body with
      | None => Ret (Msg "server.bad_request")
      | Some body =>
          match ruPermissions body with
          | None => applyRoleUpdate name body
          | Some ps =>
              match validatePermissions ps with
              | Some msg => Ret (Code 400 msg)
              | None =>
                  locked (
                    must! remoteBindings := (if remoteWidePermissionsAllowed ps then Ret (Ok 0) else dbRead (QRemoteBindings name)) in
                    if 0 <? remoteBindings then Ret (Msg "server.roles.remote_bindings_block_control_plane")
                    else
                      must! msg := userManagementGuard caller name ps in
                      match msg with
                      | Some msg => Ret (Code 400 msg)
                      | None => applyRoleUpdate name body
                      end)
              end
          end
      end
  end.

(** [del] of a role *)
Definition del_role (name : string) : P reply :=
  locked (
    must! found := roleBuiltin name in
    match found with
    | None => Ret (Msg "server.roles.role_not_found")
    | Some true => Ret (Msg "server.roles.builtin_not_deletable")
    | Some false =>
        must! inUse := dbRead (QInUse name) in
        if 0 <? inUse then Ret (Msg "server.roles.role_in_use")
        else
          must! _ := call SBegin in
          deferRollback (
            must! _ := exec (XDeletePermissions name) in
            must! _ := exec (XDeleteRole name) in
            must! _ := call SCommit in
            Ret NoContent)
    end).

(** ** cmd/bootstrap.go *)

Record bootstrapFlags := MkBootstrap { bfUsername : string; bfEmail : string; bfDisplayName : string; bfForce : bool }.

(** An error ends the command. *)
Definition orExit {A} (msg : string) (p : P (result dberr A)) (f : A -> P reply) : P reply :=
  pbind p (fun r => match r with Ok a => f a | Err _ => Ret (Exit (Some msg)) end).

(** [bootstrapAdmin] once the store is open and the password hashed. *)
Definition bootstrapAdmin (bf : bootstrapFlags) (hash : string) : P reply :=
  let display := if String.eqb (bfDisplayName bf) "" then bfUsername bf else bfDisplayName bf in
  orExit "lookup user" (dbRead (QUserNamed (bfUsername bf))) (fun row =>
  match row with
  | None =>
      orExit "insert user" (exec (XInsertUser (bfUsername bf) display (bfEmail bf) "admin" (Some hash))) (fun newID =>
      orExit "bind admin role" (SetClusterRoleBinding newID DefaultCluster "admin") (fun _ =>
      Ret (Exit None)))
  | Some u =>
      if negb (bfForce bf) then Ret (Exit (Some "user already exists"))
      else
        orExit "begin reset" (call SBegin) (fun _ =>
        deferRollback (
          orExit "update user" (exec (XPromote hash display (bfEmail bf) (uId u))) (fun _ =>
          orExit "bind admin role" (SetClusterRoleBinding (uId u) DefaultCluster "admin") (fun _ =>
          orExit "end existing sessions" (DeleteForUser (uId u)) (fun _ =>
          orExit "commit reset" (call SCommit) (fun _ =>
          Ret (Exit None)))))))
  end).

(** ** Requests *)

(** The routes of [MountUsers] and [MountRoles] that this file models. *)
Inductive Request :=
| RListUsers
| RCreateUser (body : option createUserReq) (hashed : option string)
| RDeleteUser (idParam revokedAt : string)
| RUpdateUser (idParam : string) (body : option updateUserReq)
| RResetPassword (idParam : string) (body hashed : option string)
| RListBindings (idParam : string)
| RAddBinding (idParam : string) (body : option (string * string * string))
| RDeleteBinding (idParam role namespace cluster : string)
| RListRoles
| RCreateRole (body : option roleCreateReq)
| RUpdateRole (name : string) (body : option roleUpdateReq)
| RDeleteRole (name : string).

Definition route (caller : option Caller) (r : Request) : P reply :=
  match r with
  | RListUsers => list_users
  | RCreateUser body hashed => createUser body hashed
  | RDeleteUser idParam revokedAt => del_user caller idParam revokedAt
  | RUpdateUser idParam body => update_account caller idParam body
  | RResetPassword idParam body hashed => resetPassword idParam body hashed
  | RListBindings idParam => listBindings idParam
  | RAddBinding idParam body => addBinding idParam body
  | RDeleteBinding idParam role namespace cluster => deleteBinding idParam role namespace cluster
  | RListRoles => list_roles
  | RCreateRole body => create_role body
  | RUpdateRole name body => update_role caller name body
  | RDeleteRole name => del_role name
  end.

(** Everything that touches the account tables: a request behind [Authenticate]
    and the authorizer (whose refusal, if any, is [gate]'s), the sign-in
    endpoints, the session collector and the bootstrap command. *)
Inductive Work :=
| Api (cookie : option string) (method csrfHeader : string) (now : time) (gate : UserRow -> perm_map -> option reply) (r : Request)
| Login (enabled : bool) (contentType : string) (body : option (string * string)) (allow : bool)
    (verify : string -> string -> option bool) (session csrf : string) (now : time)
| Callback (issuer sub email name role matchedGroup : string) (syncRole : bool) (session csrf : string) (now : time)
| Logout (cookie : option string)
| SessionGC (now : time)
| Bootstrap (bf : bootstrapFlags) (hash : string).

Definition handle (w : Work) : P reply :=
  match w with
  | Api cookie method csrfHeader now gate r =>
      let! a := Authenticate cookie method csrfHeader now in
      match a with
      | Err resp => Ret resp
      | Ok (u, ps) =>
          match gate u ps with
          | Some resp => Ret resp
          | None => route (Some (MkCaller (uId u) (uRole u))) r
          end
      end
  | Login enabled contentType body allow verify session csrf now =>
      HandleLogin enabled contentType body allow verify session csrf now
  | Callback issuer sub email name role matchedGroup syncRole session csrf now =>
      finishCallback issuer sub email name role matchedGroup syncRole session csrf now
  | Logout cookie => HandleLogout cookie
  | SessionGC now => let! _ := gcOnce now in Ret NoContent
  | Bootstrap bf hash => bootstrapAdmin bf hash
  end.
End Handlers.

(** Work that inserts an account and its binding in two statements. *)
Definition splitInsert (w : Work) : bool :=
  match w with
  | Api _ _ _ _ _ (RCreateUser _ _) => true
  | Bootstrap _ _ => true
  | _ => false
  end.
