(* ===== verification/AccountsRun.v ===== *)
(** * api: account requests running side by side

    Any number of requests run at once against one database and one
    user-management mutex.  A step lets one of them make its next call; the
    schedule also decides the fate of the call.  SQLite runs on a single
    connection (db.go, [SetMaxOpenConns(1)]): while a transaction is open, every
    other call on the database waits for it.

    The second half is a small program logic for such systems: a thread may rely
    on what the others leave alone while it holds the mutex, and must leave that
    alone itself when it does not. *)

From S2P Require Import Prelude GoText GoTime Prog Rbac Accounts AccountsApi.
Local Open Scope Z_scope.

(** ** Steps *)

(** A call is carried out, or fails without effect, or takes effect although the
    caller sees an error. *)
Inductive fate := Works | Refused | Unheard.

(** One call of a thread: whether it holds the mutex, its open transaction's
    view, the database; and the same afterwards. *)
Definition view (t : option Db) (d : Db) : Db := default d t.
Definition write (t : option Db) (d d' : Db) : option Db * Db :=
  match t with Some _ => (Some d', d) | None => (None, d') end.

Definition perform {B} (f : fate) (held : bool) (t : option Db) (d : Db) (s : sql B) : option (result dberr B * bool * option Db * Db) :=
  match s with
  | SRead q =>
      Some (match f with Works => Ok (evalQ q (view t d)) | _ => Err Failed end, held, t, d)
  | SExec x =>
      match f, evalX x (view t d) with
      | Refused, _ => Some (Err Failed, held, t, d)
      | Works, Some (d', n) => Some (Ok n, held, (write t d d').1, (write t d d').2)
      | Unheard, Some (d', _) => Some (Err Failed, held, (write t d d').1, (write t d d').2)
      | _, None => Some (Err Conflict, held, t, d)
      end
  | SBegin =>
      match t, f with
      | Some _, _ => None
      | None, Works => Some (Ok (), held, Some d, d)
      | None, _ => Some (Err Failed, held, None, d)
      end
  | SCommit =>
      match t, f with
      | None, _ => Some (Err Failed, held, None, d)
      | Some sh, Works => Some (Ok (), held, None, sh)
      | Some sh, Unheard => Some (Err Failed, held, None, sh)
      | Some _, Refused => Some (Err Failed, held, None, d)
      end
  | SRollback => Some (Ok (), held, None, d)
  | SLock => if held then None else Some (Ok (), true, t, d)
  | SUnlock => if held then Some (Ok (), false, t, d) else None
  end.

(** The database, who holds the connection with what view, who holds the mutex,
    and what is left of each request. *)
Record Sys := MkSys { sysDb : Db; sysConn : option (nat * Db); sysLock : option nat; sysProcs : list (P reply) }.

Definition holdsLock (s : Sys) (i : nat) : bool := bool_decide (sysLock s = Some i).
Definition txOf (s : Sys) (i : nat) : option Db :=
  match sysConn s with Some (j, sh) => if Nat.eqb j i then Some sh else None | None => None end.
Definition connFree (s : Sys) (i : nat) : bool :=
  match sysConn s with Some (j, _) => Nat.eqb j i | None => true end.
Definition lockFree (s : Sys) : bool := match sysLock s with None => true | Some _ => false end.

Definition waits {B} (s : Sys) (i : nat) (c : sql B) : bool :=
  match c with
  | SLock => negb (lockFree s)
  | SUnlock => false
  | _ => negb (connFree s i)
  end.

(** Thread [i] makes its next call; [None] when it has none or must wait. *)
Definition step (i : nat) (f : fate) (s : Sys) : option Sys :=
  match (sysProcs s !! i : option (P reply)) with
  | Some (Call c k) =>
      if waits s i c then None
      else
        match perform f (holdsLock s i) (txOf s i) (sysDb s) c with
        | None => None
        | Some (r, held, t, d) =>
            Some (MkSys d
              (match t with Some sh => Some (i, sh) | None => if connFree s i then None else sysConn s end)
              (if held then Some i else if holdsLock s i then None else sysLock s)
              (<[i := k r]> (sysProcs s)))
        end
  | _ => None
  end.

Definition start (d : Db) (ps : list (P reply)) : Sys := MkSys d None None ps.

(** What is assumed of a query and the tables it is sent to. *)
Definition admits (seen : forall B, query B -> Db -> Prop) {B} (c : sql B) (v : Db) : Prop :=
  match c with SRead q => seen _ q v | _ => True end.

(** The call thread [i] is about to make, with the tables it will see. *)
Definition asking (s : Sys) (i : nat) (seen : forall B, query B -> Db -> Prop) : Prop :=
  match (sysProcs s !! i : option (P reply)) with
  | Some (Call c _) => admits seen c (view (txOf s i) (sysDb s))
  | _ => True
  end.

(** Runs whose queries all satisfy [seen] when they are sent. *)
Inductive runs (seen : forall B, query B -> Db -> Prop) (s0 : Sys) : Sys -> Prop :=
| runs_start : runs seen s0 s0
| runs_step s i f s' : runs seen s0 s -> asking s i seen -> step i f s = Some s' -> runs seen s0 s'.

(** A schedule followed from a state; executable. *)
Fixpoint follow (sched : list (nat * fate)) (s : Sys) : option Sys :=
  match sched with
  | [] => Some s
  | (i, f) :: sched => match step i f s with Some s' => follow sched s' | None => None end
  end.

Lemma runs_trans seen s0 s1 s2 : runs seen s0 s1 -> runs seen s1 s2 -> runs seen s0 s2.
Proof. intros H1 H2. induction H2; [done|]. by eapply runs_step. Qed.

Lemma follow_runs sched : forall s s', follow sched s = Some s' -> runs (fun _ _ _ => True) s s'.
Proof.
  induction sched as [|[i f] sched IH]; intros s s' H; cbn in H.
  - injection H as <-. constructor.
  - destruct (step i f s) as [s1|] eqn:E; [|done]. eapply runs_trans; [|by apply IH].
    eapply runs_step; [constructor| |exact E]. unfold asking. by destruct (sysProcs s !! i) as [[|? []|]|].
Qed.

(** ** Rely and guarantee *)

Section Logic.
(** The invariant of the tables; what requests that do not hold the mutex leave
    alone; what is assumed of the answers to queries. *)
Context (J : Db -> Prop) (R : Db -> Db -> Prop) `{!PreOrder R} (seen : forall B, query B -> Db -> Prop).

Definition moves (held : bool) (t : option Db) (d d' : Db) : Prop :=
  J d' /\ match t with Some _ => d' = d | None => held = true -> R d d' end.
Definition keeps (held : bool) (d d' : Db) : Prop := J d' /\ (held = false -> R d d').

(** [rg held t d p Q]: from a state last seen as [d], the program keeps the
    invariant and its guarantee with every step, and ends in [Q]. *)
Fixpoint rg {A} (held : bool) (t : option Db) (d : Db) (p : P A) (Q : A -> bool -> option Db -> Db -> Prop) : Prop :=
  match p with
  | Ret a => Q a held t d
  | OutOfFuel => True
  | Call s k =>
      forall d1, moves held t d d1 -> admits seen s (view t d1) ->
      forall f r held' t' d', perform f held t d1 s = Some (r, held', t', d') ->
        keeps held d1 d' /\ rg held' t' d' (k r) Q
  end.

Lemma rg_mono {A} (p : P A) (Q Q' : A -> bool -> option Db -> Db -> Prop) :
  (forall a h t d, Q a h t d -> Q' a h t d) -> forall held t d, rg held t d p Q -> rg held t d p Q'.
Proof using Type.
  intros HQ. induction p as [a|B s k IH|]; intros held t d H; cbn [rg] in *; [by apply HQ| |done].
  intros d1 Hm Ha f r held' t' d' Hp. destruct (H d1 Hm Ha f r held' t' d' Hp) as [Hk Hw]. split; [done|]. by apply IH.
Qed.

Lemma rg_bind {A B} (p : P A) (g : A -> P B) Q : forall held t d,
  rg held t d p (fun a h t d => rg h t d (g a) Q) -> rg held t d (pbind p g) Q.
Proof using Type.
  induction p as [a|C s k IH|]; intros held t d H; cbn [rg pbind] in *; [done| |done].
  intros d1 Hm Ha f r held' t' d' Hp. destruct (H d1 Hm Ha f r held' t' d' Hp) as [Hk Hw]. split; [done|]. by apply IH.
Qed.

(** *** Rules for the calls *)

Lemma keeps_refl held d : J d -> keeps held d d.
Proof using PreOrder0. intros HJ. split; [done|]. by intros _. Qed.

Lemma rg_ret {A} (a : A) held t d (Q : A -> bool -> option Db -> Db -> Prop) : Q a held t d -> rg held t d (Ret a) Q.
Proof using Type. done. Qed.

Lemma rg_check {F A B} (p : P (result F A)) (g : A -> P (result F B)) held t d Q :
  rg held t d p (fun r h t d => match r with Ok a => rg h t d (g a) Q | Err e => Q (Err e) h t d end) ->
  rg held t d (pcheck p g) Q.
Proof using Type. intros H. apply rg_bind. eapply rg_mono; [|exact H]. by intros [a|e]. Qed.

Lemma rg_orFail {A} (p : P (result dberr A)) (g : A -> P reply) held t d Q :
  rg held t d p (fun r h t d => match r with Ok a => rg h t d (g a) Q | Err _ => Q Fail h t d end) ->
  rg held t d (orFail p g) Q.
Proof using Type. intros H. apply rg_bind. eapply rg_mono; [|exact H]. by intros [a|e]. Qed.

Lemma rg_orExit {A} msg (p : P (result dberr A)) (g : A -> P reply) held t d Q :
  rg held t d p (fun r h t d => match r with Ok a => rg h t d (g a) Q | Err _ => Q (Exit (Some msg)) h t d end) ->
  rg held t d (orExit msg p g) Q.
Proof using Type. intros H. apply rg_bind. eapply rg_mono; [|exact H]. by intros [a|e]. Qed.

Lemma rg_read {B} (q : query B) held t d (Q : result dberr B -> bool -> option Db -> Db -> Prop) :
  (forall d1, moves held t d d1 -> seen _ q (view t d1) ->
    Q (Ok (evalQ q (view t d1))) held t d1 /\ Q (Err Failed) held t d1) ->
  rg held t d (dbRead q) Q.
Proof using PreOrder0.
  intros H d1 Hm Ha f r held' t' d' Hp. destruct (H d1 Hm Ha) as [H1 H2]. cbn in Hp.
  destruct f; injection Hp as <- <- <- <-; (split; [by apply keeps_refl, Hm|done]).
Qed.

(** A statement on its own. *)
Lemma rg_exec x held d (Q : result dberr Z -> bool -> option Db -> Db -> Prop) :
  (forall d1, moves held None d d1 ->
    (forall d2 n, evalX x d1 = Some (d2, n) -> keeps held d1 d2 /\ Q (Ok n) held None d2 /\ Q (Err Failed) held None d2) /\
    (forall e, Q (Err e) held None d1)) ->
  rg held None d (exec x) Q.
Proof using PreOrder0.
  intros H d1 Hm _ f r held' t' d' Hp. destruct (H d1 Hm) as [H1 H2]. cbn in Hp.
  destruct (evalX x d1) as [[d2 n]|] eqn:E.
  - destruct (H1 _ _ eq_refl) as (Hk & Ho & He).
    destruct f; injection Hp as <- <- <- <-; (split; [first [exact Hk|by apply keeps_refl, Hm]|]); first [exact Ho|exact He|apply H2].
  - destruct f; injection Hp as <- <- <- <-; (split; [by apply keeps_refl, Hm|apply H2]).
Qed.

(** A statement of a transaction only changes the transaction's view. *)
Lemma rg_exec_tx x held sh d (Q : result dberr Z -> bool -> option Db -> Db -> Prop) :
  (forall sh' n, evalX x sh = Some (sh', n) -> Q (Ok n) held (Some sh') d) ->
  (forall sh' e, Q (Err e) held (Some sh') d) ->
  rg held (Some sh) d (exec x) Q.
Proof using PreOrder0.
  intros H1 H2 d1 Hm _ f r held' t' d' Hp. destruct Hm as [HJ ->]. cbn in Hp.
  destruct (evalX x sh) as [[d2 n]|] eqn:E;
    destruct f; injection Hp as <- <- <- <-; (split; [by apply keeps_refl|]); first [by apply H1|apply H2].
Qed.

Lemma rg_begin held d (Q : result dberr unit -> bool -> option Db -> Db -> Prop) :
  (forall d1, moves held None d d1 -> Q (Ok ()) held (Some d1) d1 /\ Q (Err Failed) held None d1) ->
  rg held None d (call SBegin) Q.
Proof using PreOrder0.
  intros H d1 Hm _ f r held' t' d' Hp. destruct (H d1 Hm) as [H1 H2]. cbn in Hp.
  destruct f; injection Hp as <- <- <- <-; (split; [by apply keeps_refl, Hm|done]).
Qed.

Lemma rg_commit held sh d (Q : result dberr unit -> bool -> option Db -> Db -> Prop) :
  (J d -> keeps held d sh) ->
  (J sh -> Q (Ok ()) held None sh) -> (forall d', J d' -> Q (Err Failed) held None d') ->
  rg held (Some sh) d (call SCommit) Q.
Proof using PreOrder0.
  intros Hk H1 H2 d1 [HJ ->] _ f r held' t' d' Hp. cbn in Hp. specialize (Hk HJ).
  destruct f; injection Hp as <- <- <- <-; (split; [first [exact Hk|by apply keeps_refl]|]); first [by apply H1, Hk|by apply H2, Hk|by apply H2].
Qed.

(** Rolling back closes whatever is open. *)
Lemma rg_rollback {A} (p : P A) held t d (Q : A -> bool -> option Db -> Db -> Prop) :
  rg held t d p (fun a h t d => forall d', Q a h None d') -> rg held t d (deferRollback p) Q.
Proof using PreOrder0.
  intros H. apply rg_bind. eapply rg_mono; [|exact H]. clear H. intros a h t1 d1 HQ d2 Hm _ f r h' t' d' Hp.
  cbn in Hp. destruct f; injection Hp as <- <- <- <-; (split; [by apply keeps_refl, Hm|apply HQ]).
Qed.

Lemma rg_locked {A} (p : P A) d (Q : A -> bool -> option Db -> Db -> Prop) :
  (forall d1, J d1 -> rg true None d1 p (fun a h t _ => h = true /\ t = None /\ forall d', Q a false None d')) ->
  rg false None d (locked p) Q.
Proof using PreOrder0.
  intros H d1 Hm _ f r held' t' d' Hp. cbn in Hp.
  assert (Hp' : r = Ok () /\ held' = true /\ t' = None /\ d' = d1) by (destruct f; by injection Hp as <- <- <- <-).
  destruct Hp' as (-> & -> & -> & ->). split; [by apply keeps_refl, Hm|].
  change (rg true None d1 (pbind p (fun a => pbind (call SUnlock) (fun _ => Ret a))) Q).
  apply rg_bind. eapply rg_mono; [|apply H, Hm]. intros a h t1 d2 (-> & -> & HQ) d3 Hm3 _ f' r' h' t' d' Hp'.
  cbn in Hp'. destruct f'; injection Hp' as <- <- <- <-; (split; [by apply keeps_refl, Hm3|apply HQ]).
Qed.

(** ** Soundness *)

(** A request that ends has let go of the mutex and of its transaction. *)
Definition released {A} (_ : A) (held : bool) (t : option Db) (_ : Db) : Prop := held = false /\ t = None.

Definition thread_ok (s : Sys) (i : nat) (p : P reply) : Prop :=
  exists d, rg (holdsLock s i) (txOf s i) d p released /\
    match txOf s i with Some _ => sysDb s = d | None => holdsLock s i = true -> R d (sysDb s) end.

Definition sys_ok (s : Sys) : Prop :=
  J (sysDb s) /\ forall i p, sysProcs s !! i = Some p -> thread_ok s i p.

Lemma start_ok d ps : J d -> Forall (fun p => rg false None d p released) ps -> sys_ok (start d ps).
Proof using PreOrder0.
  intros HJ H. split; [done|]. intros i p Hp. exists d. split; [by eapply Forall_lookup_1 in H|]. cbn. done.
Qed.

Lemma holdsLock_other s i j : holdsLock s i = true -> j <> i -> holdsLock s j = false.
Proof using Type. unfold holdsLock. intros H Hn. apply bool_decide_eq_true in H. apply bool_decide_eq_false. congruence. Qed.

(** A call on the database is only made while no one else holds the connection. *)
Lemma perform_other {B} s i j (c : sql B) f r held t d : i <> j -> waits s i c = false ->
  perform f (holdsLock s i) (txOf s i) (sysDb s) c = Some (r, held, t, d) -> d = sysDb s \/ txOf s j = None.
Proof using Type.
  intros Hn Hw Hp. destruct c; cbn in Hw, Hp;
    try (right; unfold connFree, txOf in *; destruct (sysConn s) as [[o sh]|]; [|done];
         apply negb_false_iff, Nat.eqb_eq in Hw as ->; by rewrite (proj2 (Nat.eqb_neq i j) Hn)).
  - left. destruct (holdsLock s i); [done|]. by injection Hp.
  - left. destruct (holdsLock s i); [|done]. by injection Hp.
Qed.

(** What a step of one thread does to the mutex and the connection of another. *)
Lemma step_other s i j f s' : i <> j -> step i f s = Some s' -> holdsLock s' j = holdsLock s j /\ txOf s' j = txOf s j.
Proof using Type.
  intros Hn H. unfold step in H. destruct (sysProcs s !! i) as [[|B c k|]|]; try done.
  destruct (waits s i c) eqn:Hw; [done|]. destruct (perform _ _ _ _ _) as [[[[r held] t] d]|] eqn:Hp; [|done].
  injection H as <-. split.
  - unfold holdsLock at 1. cbn. destruct held.
    + apply eq_sym, bool_decide_ext. split; [|congruence]. intros Hj. exfalso. revert Hp. unfold holdsLock.
      rewrite Hj. rewrite bool_decide_eq_false_2 by congruence.
      destruct c; cbn in *; try by repeat case_match. unfold lockFree in Hw. by rewrite Hj in Hw.
    + destruct (holdsLock s i) eqn:Hi; [|done].
      rewrite (holdsLock_other _ _ _ Hi (not_eq_sym Hn)). by apply bool_decide_eq_false.
  - unfold txOf at 1. cbn. destruct t as [sh|].
    + rewrite (proj2 (Nat.eqb_neq i j) Hn). unfold txOf in *.
      destruct (sysConn s) as [[o sho]|] eqn:Ec; [|done]. destruct (Nat.eqb o j) eqn:Eo; [|done].
      apply Nat.eqb_eq in Eo as ->. rewrite (proj2 (Nat.eqb_neq j i) (not_eq_sym Hn)) in Hp.
      assert (Hc : connFree s i = false) by (unfold connFree; by rewrite Ec, (proj2 (Nat.eqb_neq j i) (not_eq_sym Hn))).
      destruct c; cbn in Hw, Hp; rewrite ?Hc in Hw; try done; by destruct (holdsLock s i).
    + destruct (connFree s i) eqn:Hf; [|done]. unfold txOf, connFree in *.
      destruct (sysConn s) as [[o sho]|]; [|done]. apply Nat.eqb_eq in Hf as ->.
      by rewrite (proj2 (Nat.eqb_neq i j) Hn).
Qed.

Lemma step_ok s i f s' : sys_ok s -> asking s i seen -> step i f s = Some s' -> sys_ok s'.
Proof using PreOrder0.
  intros [HJ Hs] Ha H. pose proof H as H0. unfold step in H. destruct (sysProcs s !! i) as [p|] eqn:Ei; [|done].
  destruct p as [|B c k|]; try done.
  destruct (waits s i c) eqn:Hw; [done|]. destruct (perform _ _ _ _ _) as [[[[r held] t] d]|] eqn:Hp; [|done].
  destruct (Hs i _ Ei) as (d0 & Hwp & Hrel). cbn [rg] in Hwp.
  assert (Hm : moves (holdsLock s i) (txOf s i) d0 (sysDb s)) by (split; [done|]; by destruct (txOf s i)).
  assert (Had : admits seen c (view (txOf s i) (sysDb s))).
  { unfold asking in Ha. by rewrite Ei in Ha. }
  destruct (Hwp _ Hm Had _ _ _ _ _ Hp) as [[HJ' HR] Hk]. injection H as <-. split; [done|].
  intros j p' Hj. cbn in Hj. destruct (decide (i = j)) as [<-|Hn].
  - rewrite list_lookup_insert_eq in Hj by (by eapply lookup_lt_Some). injection Hj as <-.
    set (s' := MkSys _ _ _ _) in *.
    assert (E1 : holdsLock s' i = held).
    { unfold holdsLock, s'. cbn. destruct held; [by apply bool_decide_eq_true|]. apply bool_decide_eq_false.
      fold (holdsLock s i). destruct (holdsLock s i) eqn:Eh; [done|]. by apply bool_decide_eq_false in Eh. }
    assert (E2 : txOf s' i = t).
    { unfold txOf, s'. cbn. destruct t as [sh|]; [by rewrite Nat.eqb_refl|]. destruct (connFree s i) eqn:Hf; [done|].
      unfold connFree in Hf. destruct (sysConn s) as [[o sh]|]; [by rewrite Hf|done]. }
    exists d. rewrite E1, E2. split; [done|]. by destruct t.
  - rewrite list_lookup_insert_ne in Hj by done. destruct (Hs j _ Hj) as (dj & Hwj & Hrj).
    destruct (step_other s i j f _ Hn H0) as [E1 E2]. exists dj. rewrite E1, E2. split; [done|]. cbn.
    destruct (perform_other s i j c f r held t d Hn Hw Hp) as [->|Et]; [done|]. rewrite Et in *.
    intros Hlj. etransitivity; [by apply Hrj|]. apply HR. by eapply holdsLock_other in Hlj.
Qed.

Lemma runs_ok s0 s : sys_ok s0 -> runs seen s0 s -> sys_ok s.
Proof using PreOrder0. intros H0 H. induction H; [done|]. by eapply step_ok. Qed.
End Logic.
