(* ===== verification/AccountsFacts.v ===== *)
(** * Account tables: the invariant, and what statements do to it

    Everything the guards of the account code protect depends on four things of
    the database: which account has which primary role, the bindings, the roles
    and their permissions.  Here are that core, what each statement does to it
    (a refinement of the SQL), the properties of it that the requests keep, what
    a request that does not hold the user-management mutex leaves alone, and the
    meaning of the counting queries. *)

From S2P Require Import Prelude GoText Prog Rbac Accounts AccountsApi AccountsRun.
Local Open Scope Z_scope.

(** ** Counting *)

Lemma keep_In {A} (f : A -> bool) l x : x ∈ keep f l <-> f x = false /\ x ∈ l.
Proof. unfold keep. rewrite !list_elem_of_In, filter_In, negb_true_iff. tauto. Qed.

Lemma countRows_pos {A} (f : A -> bool) l : 0 < countRows f l <-> exists x, x ∈ l /\ f x = true.
Proof.
  unfold countRows. split.
  - intros H. destruct (List.filter f l) as [|x r] eqn:E; [cbn in H; lia|]. exists x.
    rewrite list_elem_of_In, <- filter_In, E. by left.
  - intros (x & Hx & Hf). apply list_elem_of_In in Hx. pose proof (proj2 (filter_In f x l) (conj Hx Hf)) as H.
    destruct (List.filter f l); [done|cbn; lia].
Qed.

Lemma countRows_none {A} (f : A -> bool) l x : countRows f l <= 0 -> x ∈ l -> f x = false.
Proof.
  intros H Hx. destruct (f x) eqn:E; [|done]. assert (0 < countRows f l) by (apply countRows_pos; eauto). lia.
Qed.

Lemma map_keep {A B} (g : A -> B) (f : B -> bool) l : map g (keep (fun x => f (g x)) l) = keep f (map g l).
Proof. induction l as [|x l IH]; [done|]. unfold keep in *. cbn. destruct (f (g x)); cbn; by rewrite IH. Qed.

(** ** The core of the tables *)

Record Core := MkCore { cAcc : list (Z * string); cBind : list Binding; cRoles : list (string * bool); cPerms : list (string * string) }.
Definition account (u : UserRow) : Z * string := (uId u, uRole u).
Definition roleKey (r : RoleRow) : string * bool := (rName r, rBuiltin r).
Definition core (d : Db) : Core := MkCore (map account (users d)) (bindings d) (map roleKey (roles d)) (perms d).

Definition set_acc v c := MkCore v (cBind c) (cRoles c) (cPerms c).
Definition set_bind v c := MkCore (cAcc c) v (cRoles c) (cPerms c).
Definition set_keys v c := MkCore (cAcc c) (cBind c) v (cPerms c).
Definition set_granted v c := MkCore (cAcc c) (cBind c) (cRoles c) v.

(** The primary role of [id] becomes [role]. *)
Definition reassign (id : Z) (role : string) (a : Z * string) : Z * string := if a.1 =? id then (a.1, role) else a.
Definition homeWide (id : Z) (cluster : string) (b : Binding) : bool :=
  (bUser b =? id) && String.eqb (bCluster b) cluster && String.eqb (bNamespace b) "*".

(** A statement, on the core; [n] is the id of a new account. *)
Definition coreX (x : stmt) (n : Z) (c : Core) : Core :=
  match x with
  | XInsertUser _ _ _ role _ => set_acc (cAcc c ++ [(n, role)]) c
  | XSetRole role id => set_acc (map (reassign id role) (cAcc c)) c
  | XPromote _ _ _ id => set_acc (map (reassign id "admin") (cAcc c)) c
  | XDeleteUser id => set_acc (keep (fun a => a.1 =? id) (cAcc c)) c
  | XInsertBinding b => set_bind (cBind c ++ [b]) c
  | XDeleteBinding b => set_bind (keep (sameBinding b) (cBind c)) c
  | XClearCluster id cluster => set_bind (keep (homeWide id cluster) (cBind c)) c
  | XDeleteUserBindings id => set_bind (keep (fun b => bUser b =? id) (cBind c)) c
  | XInsertRole name _ => set_keys (cRoles c ++ [(name, false)]) c
  | XDeleteRole name => set_keys (keep (fun r => String.eqb r.1 name) (cRoles c)) c
  | XInsertPermission role perm => set_granted (cPerms c ++ [(role, perm)]) c
  | XDeletePermissions role => set_granted (keep (fun rp => String.eqb rp.1 role) (cPerms c)) c
  | _ => c
  end.

Lemma account_update id f d g : (forall u, account (if uId u =? id then f u else u) = g (account u)) ->
  core (update_user id f d).1 = set_acc (map g (cAcc (core d))) (core d).
Proof.
  intros H. unfold core, set_acc. cbn. f_equal. rewrite !map_map. by apply map_ext.
Qed.

Lemma account_same id f d : (forall u, account (f u) = account u) -> core (update_user id f d).1 = core d.
Proof.
  intros H. rewrite (account_update id f d (fun a => a)), map_id; [done|]. intros u. by destruct (uId u =? id).
Qed.

Lemma evalX_core x d d' n : evalX x d = Some (d', n) -> core d' = coreX x n (core d).
Proof.
  destruct x; cbn [evalX coreX]; try case_match; try done; intros [= <- <-]; try done.
  - unfold core, set_acc. cbn. by rewrite map_app.
  - by apply account_same.
  - by apply account_same.
  - apply account_update. intros u. unfold account, reassign. cbn. by destruct (uId u =? id).
  - by apply account_same.
  - apply account_update. intros u. unfold account, reassign. cbn. by destruct (uId u =? id).
  - unfold core, set_acc. cbn. f_equal. apply (map_keep account (fun a => a.1 =? id)).
  - unfold core, set_keys. cbn. by rewrite map_app.
  - unfold core. cbn. f_equal. rewrite map_map. apply map_ext. intros r. by destruct (String.eqb _ _).
  - unfold core, set_keys. cbn. f_equal. apply (map_keep roleKey (fun r => String.eqb r.1 name)).
Qed.

(** ** The invariant *)

(** The role lets its holders manage users. *)
Definition grantsManage (c : Core) (role : string) : Prop := exists p, managing p = true /\ (role, p) ∈ cPerms c.
(** An account that can manage users by its primary role, and that some other
    condition does not exclude. *)
Definition manager (P : Z -> string -> Prop) (c : Core) : Prop :=
  exists id role, P id role /\ (id, role) ∈ cAcc c /\ grantsManage c role.
Definition managed : Core -> Prop := manager (fun _ _ => True).

(** The cluster-wide binding that stands for a primary role. *)
Definition primary (id : Z) (role : string) : Binding := MkBinding id role DefaultCluster "*".
Definition mirrored (c : Core) : Prop := forall id role, (id, role) ∈ cAcc c -> primary id role ∈ cBind c.
(** Every account with this primary role has a binding to it. *)
Definition covered (role : string) (c : Core) : Prop :=
  forall id, (id, role) ∈ cAcc c -> exists b, b ∈ cBind c /\ bUser b = id /\ bRole b = role.

(** A grant on all namespaces of a cluster other than the home cluster. *)
Definition remote (b : Binding) : Prop := bNamespace b = "*" /\ bCluster b <> DefaultCluster.
Definition remotePerm (p : string) : bool := remoteWidePermissionsAllowed [p].
Definition remote_limited (c : Core) : Prop := forall b, b ∈ cBind c -> remote b ->
  (exists bi, (bRole b, bi) ∈ cRoles c) /\ forall p, (bRole b, p) ∈ cPerms c -> remotePerm p = true.

(** The built-in admin role is there, marked built in, with its wildcard. *)
Definition admin_intact (c : Core) : Prop :=
  ("admin", true) ∈ cRoles c /\ (forall bi, ("admin", bi) ∈ cRoles c -> bi = true) /\ ("admin", "*") ∈ cPerms c.

(** Which runs are considered: any; those in which a role deletion counts every
    account that holds the role; those without requests that insert an account
    and its binding in two statements. *)
Inductive mode := AnyRun | CountedRun | PairedRun.

Record sound (m : mode) (c : Core) : Prop := MkSound {
  j_admin : admin_intact c;
  j_remote : remote_limited c;
  j_managed : m <> AnyRun -> managed c;
  j_mirrored : m = PairedRun -> mirrored c }.
Definition J (m : mode) (d : Db) : Prop := sound m (core d).

(** What a role deletion may assume of the count it reads. *)
Definition seen (m : mode) (B : Type) (q : query B) (d : Db) : Prop :=
  match q with QInUse role => m = CountedRun -> covered role (core d) | _ => True end.

(** What a request without the mutex leaves alone: accounts keep their role or
    become admins, no permission goes, roles that exist gain none and do not go,
    no remote grant appears. *)
Record calm (c c' : Core) : Prop := MkCalm {
  r_accounts : forall id role, (id, role) ∈ cAcc c -> (id, role) ∈ cAcc c' \/ (id, "admin") ∈ cAcc c';
  r_perms : forall rp, rp ∈ cPerms c -> rp ∈ cPerms c';
  r_fixed : forall role bi p, (role, bi) ∈ cRoles c -> (role, p) ∈ cPerms c' -> (role, p) ∈ cPerms c;
  r_roles : forall role bi, (role, bi) ∈ cRoles c -> (role, bi) ∈ cRoles c';
  r_remote : forall b, b ∈ cBind c' -> remote b -> b ∈ cBind c }.
Definition R (d d' : Db) : Prop := calm (core d) (core d').

#[global] Instance calm_preorder : PreOrder calm.
Proof.
  split.
  - intros d. split; auto.
  - intros d1 d2 d3 H1 H2. split.
    + intros id role H. destruct (r_accounts _ _ H1 _ _ H) as [H'|H'].
      * by apply (r_accounts _ _ H2).
      * right. by destruct (r_accounts _ _ H2 _ _ H') as [?|?].
    + intros rp H. by apply (r_perms _ _ H2), (r_perms _ _ H1).
    + intros role bi p H Hp. apply (r_fixed _ _ H1 _ bi _ H). apply (r_fixed _ _ H2 _ bi); [|done]. by apply (r_roles _ _ H1).
    + intros role bi H. by apply (r_roles _ _ H2), (r_roles _ _ H1).
    + intros b H Hr. apply (r_remote _ _ H1); [|done]. by apply (r_remote _ _ H2).
Qed.
#[global] Instance R_preorder : PreOrder R.
Proof. unfold R. split; [by intros d|]. intros d1 d2 d3 H1 H2. by etransitivity. Qed.

(** ** Reading the invariant across the steps of others *)

Lemma grants_later c c' role : calm c c' -> grantsManage c role -> grantsManage c' role.
Proof. intros H (p & Hm & Hp). exists p. split; [done|]. by apply (r_perms _ _ H). Qed.

Lemma admin_grants c : admin_intact c -> grantsManage c "admin".
Proof. intros (_ & _ & H). by exists "*". Qed.

(** A manager stays one, with its role or as an admin. *)
Lemma manager_later P c c' : calm c c' -> admin_intact c' -> (forall id role, P id role -> P id "admin") ->
  manager P c -> manager P c'.
Proof.
  intros HR Ha HP (i & role & Hi & Hin & Hg). destruct (r_accounts _ _ HR _ _ Hin) as [H|H].
  - exists i, role. split_and!; [done|done|by eapply grants_later].
  - exists i, "admin". split_and!; [by eapply HP|done|by apply admin_grants].
Qed.
Lemma manager_mono (P Q : Z -> string -> Prop) c : (forall id role, P id role -> Q id role) -> manager P c -> manager Q c.
Proof. intros H (i & role & Hi & ?). exists i, role. split; [by apply H|done]. Qed.

(** ** The counting queries *)

Lemma acc_In d id role : (id, role) ∈ cAcc (core d) <-> exists u, u ∈ users d /\ uId u = id /\ uRole u = role.
Proof.
  cbn. rewrite list_elem_of_fmap. split.
  - intros (u & [= -> ->] & Hu). eauto.
  - intros (u & Hu & <- & <-). eauto.
Qed.

Lemma user_perms_In d u p : (u, p) ∈ user_perms d <-> u ∈ users d /\ (uRole u, p) ∈ perms d.
Proof.
  unfold user_perms. rewrite list_elem_of_In, in_flat_map. setoid_rewrite in_map_iff. setoid_rewrite filter_In.
  setoid_rewrite String.eqb_eq. rewrite !list_elem_of_In. split.
  - intros (u' & Hu & [r p'] & [= -> ->] & Hp & Hr). cbn in *. by subst r.
  - intros [Hu Hp]. exists u. split; [done|]. by exists (uRole u, p).
Qed.

Lemma QRoleGrants_pos d role : 0 < evalQ (QRoleGrants role) d <-> grantsManage (core d) role.
Proof.
  cbn. rewrite countRows_pos. unfold grantsManage. cbn. split.
  - intros ([r p] & H & [E Hp]%andb_true_iff). apply String.eqb_eq in E. cbn in *. subst r. eauto.
  - intros (p & Hp & H). exists (role, p). split; [done|]. cbn. by rewrite String.eqb_refl.
Qed.

Lemma QUserManages_pos d id : 0 < evalQ (QUserManages id) d <-> manager (fun i _ => i = id) (core d).
Proof.
  cbn. rewrite countRows_pos. unfold manager, grantsManage. setoid_rewrite acc_In. split.
  - intros ([u p] & [Hu Hp]%user_perms_In & [E Hm]%andb_true_iff). apply Z.eqb_eq in E. cbn in *. eauto 10.
  - intros (i & role & -> & (u & Hu & <- & <-) & p & Hm & Hp). exists (u, p). rewrite user_perms_In. cbn. by rewrite Z.eqb_refl.
Qed.

(** The ids the manager counts are taken over. *)
Lemma distinct_In f d id :
  id ∈ map (fun up : UserRow * string => uId up.1) (List.filter (fun up => managing up.2 && f up.1) (user_perms d)) <->
  exists u, u ∈ users d /\ uId u = id /\ f u = true /\ grantsManage (core d) (uRole u).
Proof.
  rewrite list_elem_of_fmap. setoid_rewrite list_elem_of_In. setoid_rewrite filter_In. setoid_rewrite <- list_elem_of_In. split.
  - intros ([u p] & -> & [[Hu Hp]%user_perms_In [Hm Hf]%andb_true_iff]). exists u. unfold grantsManage. eauto 10.
  - intros (u & Hu & <- & Hf & p & Hm & Hp). exists (u, p). split; [done|]. split; [by apply user_perms_In|].
    cbn. by rewrite Hm, Hf.
Qed.

Lemma distinct_pos f d : 0 < distinct_managers f d <-> exists u, u ∈ users d /\ f u = true /\ grantsManage (core d) (uRole u).
Proof.
  unfold distinct_managers. set (l := map _ _). split.
  - intros H. destruct (remove_dups l) as [|id r] eqn:E; [cbn in H; lia|].
    assert (Hid : id ∈ l) by (apply elem_of_remove_dups; rewrite E; by left).
    apply distinct_In in Hid as (u & Hu & _ & Hf & Hg). eauto.
  - intros (u & Hu & Hf & Hg). assert (Hid : uId u ∈ remove_dups l) by (apply elem_of_remove_dups, distinct_In; eauto).
    destruct (remove_dups l); [by apply elem_of_nil in Hid|cbn; lia].
Qed.

Lemma QManagers_pos d : 0 < evalQ QManagers d <-> managed (core d).
Proof.
  cbn. rewrite distinct_pos. unfold managed, manager. setoid_rewrite acc_In. split.
  - intros (u & Hu & _ & Hg). eauto 10.
  - intros (i & role & _ & (u & Hu & <- & <-) & Hg). eauto.
Qed.

Lemma QManagersOutside_pos d name : 0 < evalQ (QManagersOutside name) d <-> manager (fun _ role => role <> name) (core d).
Proof.
  cbn. rewrite distinct_pos. unfold manager. setoid_rewrite acc_In. setoid_rewrite negb_true_iff. setoid_rewrite String.eqb_neq. split.
  - intros (u & Hu & Hn & Hg). eauto 10.
  - intros (i & role & Hn & (u & Hu & <- & <-) & Hg). eauto.
Qed.

(** With two managers there is one besides any given account. *)
Lemma QManagers_other d id : 1 < evalQ QManagers d -> manager (fun i _ => i <> id) (core d).
Proof.
  cbn. unfold distinct_managers. set (l := map _ _). intros H.
  pose proof (NoDup_remove_dups l) as Hnd.
  assert (Hi : exists i, i ∈ remove_dups l /\ i <> id).
  { destruct (remove_dups l) as [|a [|b r]]; [cbn in H; lia|cbn in H; lia|].
    apply NoDup_cons in Hnd as [Hab _]. destruct (decide (a = id)) as [->|Hn].
    - exists b. split; [set_solver|]. intros ->. apply Hab. by left.
    - exists a. split; [by left|done]. }
  destruct Hi as (i & Hi & Hn). rewrite elem_of_remove_dups in Hi.
  apply (distinct_In (fun _ => true)) in Hi as (u & Hu & <- & _ & Hg).
  exists (uId u), (uRole u). split_and!; [done| |done]. apply acc_In. eauto.
Qed.

(** [QRoleBuiltin] on the admin role. *)
Lemma builtin_admin d b : admin_intact (core d) -> evalQ (QRoleBuiltin "admin") d = Some b -> b = true.
Proof.
  cbn. intros (_ & Hb & _) H. destruct (List.find _ _) as [r|] eqn:E; [|done]. injection H as <-.
  apply find_some in E as [Hr E]. apply String.eqb_eq in E. apply Hb. cbn.
  apply list_elem_of_fmap. exists r. unfold roleKey. rewrite E. split; [done|]. by apply list_elem_of_In.
Qed.

Lemma role_exists_key d name : evalQ (QRoleExists name) d = true <-> exists bi, (name, bi) ∈ cRoles (core d).
Proof.
  cbn. rewrite existsb_exists. setoid_rewrite list_elem_of_fmap. setoid_rewrite String.eqb_eq. split.
  - intros (r & Hr & <-). exists (rBuiltin r), r. split; [done|]. by apply list_elem_of_In.
  - intros (bi & r & [= -> ->] & Hr). exists r. split; [by apply list_elem_of_In|done].
Qed.

Lemma allowed_forall ps : remoteWidePermissionsAllowed ps = true <-> forall p, p ∈ ps -> remotePerm p = true.
Proof.
  unfold remoteWidePermissionsAllowed at 1. rewrite forallb_forall. unfold remotePerm. cbn. setoid_rewrite andb_true_r.
  by setoid_rewrite list_elem_of_In.
Qed.

Lemma role_permissions_In d role p : p ∈ evalQ (QRolePermissions role) d <-> (role, p) ∈ cPerms (core d).
Proof.
  cbn. rewrite list_elem_of_fmap. setoid_rewrite list_elem_of_In. setoid_rewrite filter_In. setoid_rewrite String.eqb_eq. split.
  - intros ([r q] & -> & Hq & E). cbn in *. by subst.
  - intros H. by exists (role, p).
Qed.

Lemma dedupSorted_In l p : p ∈ dedupSorted l <-> p ∈ l.
Proof.
  unfold dedupSorted. rewrite merge_sort_Permutation.
  assert (H : forall acc, p ∈ foldl dedup_step acc l <-> p ∈ acc \/ p ∈ l).
  { induction l as [|x l IH]; intros acc; cbn; [set_solver|]. rewrite IH. unfold dedup_step, contains.
    destruct (existsb _ _) eqn:E; [|set_solver]. apply existsb_exists in E as (y & Hy & ->%String.eqb_eq).
    apply list_elem_of_In in Hy. set_solver. }
  rewrite H. set_solver.
Qed.
