(* ===== verification/AccountsCore.v ===== *)
(** * Account tables: the changes the requests commit

    One lemma for each change of the core a request commits: under what its
    guards have established, the invariant holds afterwards, and when the change
    is made without the mutex, the others may go on as if it had not happened. *)

From S2P Require Import Prelude GoText Prog Rbac Accounts AccountsApi AccountsRun AccountsFacts.
Local Open Scope Z_scope.

(** ** Bindings *)

Lemma remote_sub c c' : (forall b, b ∈ cBind c' -> remote b -> b ∈ cBind c) -> cRoles c' = cRoles c -> cPerms c' = cPerms c ->
  remote_limited c -> remote_limited c'.
Proof. intros Hb Er Ep H b Hin Hr. rewrite Er, Ep. apply H; [|done]. by apply Hb. Qed.

Lemma less_bindings m c f : sound m c -> (m = PairedRun -> forall id role, f (primary id role) = false) ->
  sound m (set_bind (keep f (cBind c)) c) /\ calm c (set_bind (keep f (cBind c)) c).
Proof.
  intros HJ Hf. split; split; cbn; try done.
  - apply (j_admin _ _ HJ).
  - apply (remote_sub c); [|done|done|apply (j_remote _ _ HJ)]. cbn. intros b [_ H]%keep_In. done.
  - intros Hm. apply (j_managed _ _ HJ Hm).
  - intros Hm id role H. apply keep_In. split; [by apply Hf|]. by apply (j_mirrored _ _ HJ Hm).
  - auto.
  - intros b [_ H]%keep_In _. done.
Qed.

Lemma more_bindings m c b : sound m c -> ~ remote b ->
  sound m (set_bind (cBind c ++ [b]) c) /\ calm c (set_bind (cBind c ++ [b]) c).
Proof.
  intros HJ Hb.
  assert (H : forall b', b' ∈ cBind c ++ [b] -> remote b' -> b' ∈ cBind c).
  { intros b' [H| ->%list_elem_of_singleton]%elem_of_app Hr; done. }
  split; split; cbn; try done.
  - apply (j_admin _ _ HJ).
  - apply (remote_sub c); [done|done|done|apply (j_remote _ _ HJ)].
  - intros Hm. apply (j_managed _ _ HJ Hm).
  - intros Hm id role Hin. apply elem_of_app. left. by apply (j_mirrored _ _ HJ Hm).
  - auto.
Qed.

Lemma remote_binding m c b : sound m c -> (exists bi, (bRole b, bi) ∈ cRoles c) ->
  (forall p, (bRole b, p) ∈ cPerms c -> remotePerm p = true) -> sound m (set_bind (cBind c ++ [b]) c).
Proof.
  intros HJ He Hp. split; cbn.
  - apply (j_admin _ _ HJ).
  - intros b' Hin Hr. cbn in *. apply elem_of_app in Hin as [Hin| ->%list_elem_of_singleton]; [|done].
    by apply (j_remote _ _ HJ).
  - intros Hm. apply (j_managed _ _ HJ Hm).
  - intros Hm id role Hin. apply elem_of_app. left. by apply (j_mirrored _ _ HJ Hm).
Qed.

(** ** Accounts *)

Lemma reassign_In id role l i r :
  (i, r) ∈ map (reassign id role) l <-> (i <> id /\ (i, r) ∈ l) \/ (i = id /\ r = role /\ exists r0, (id, r0) ∈ l).
Proof.
  rewrite list_elem_of_fmap. unfold reassign. split.
  - intros ([i0 r0] & E & H). cbn in *. destruct (i0 =? id) eqn:Ei.
    + apply Z.eqb_eq in Ei as ->. injection E as -> ->. eauto.
    + apply Z.eqb_neq in Ei. injection E as -> ->. auto.
  - intros [[Hi H]|(-> & -> & r0 & H)].
    + exists (i, r). cbn. by rewrite (proj2 (Z.eqb_neq _ _) Hi).
    + exists (id, r0). cbn. by rewrite Z.eqb_refl.
Qed.

(** The primary role of [id], and its binding with it, becomes [role]. *)
Definition rebound (id : Z) (role : string) (c : Core) : Core :=
  set_bind (keep (homeWide id DefaultCluster) (cBind c) ++ [primary id role]) (set_acc (map (reassign id role) (cAcc c)) c).

Lemma primary_not_remote id role : ~ remote (primary id role).
Proof. by intros [_ H]. Qed.

Lemma role_change m c id role : sound m c ->
  (m <> AnyRun -> (grantsManage c role /\ exists r, (id, r) ∈ cAcc c) \/ manager (fun i _ => i <> id) c) ->
  sound m (rebound id role c).
Proof.
  intros HJ Hg. split; cbn.
  - apply (j_admin _ _ HJ).
  - apply (remote_sub c); [|done|done|apply (j_remote _ _ HJ)]. cbn.
    intros b [[_ H]%keep_In| ->%list_elem_of_singleton]%elem_of_app Hr; [done|by apply primary_not_remote in Hr].
  - intros Hm. destruct (Hg Hm) as [[Hr Hid]|(i & r & Hi & Hin & Hgr)].
    + exists id, role. split_and!; [done| |done]. cbn. apply reassign_In. by right.
    + exists i, r. split_and!; [done| |done]. cbn. apply reassign_In. by left.
  - intros Hm i r Hin. cbn in *. apply reassign_In in Hin as [[Hi Hin]|(-> & -> & _)]; [|set_solver].
    apply elem_of_app. left. apply keep_In. split; [|by apply (j_mirrored _ _ HJ Hm)].
    unfold homeWide. cbn. by rewrite (proj2 (Z.eqb_neq _ _) Hi).
Qed.

(** Promotion to admin disturbs no one. *)
Lemma promotion m c id : sound m c -> sound m (rebound id "admin" c) /\ calm c (rebound id "admin" c).
Proof.
  intros HJ. split.
  - apply role_change; [done|]. intros Hm. destruct (j_managed _ _ HJ Hm) as (i & r & _ & Hin & Hg).
    destruct (decide (i = id)) as [->|Hn].
    + left. split; [apply admin_grants, (j_admin _ _ HJ)|]. eauto.
    + right. exists i, r. done.
  - split; cbn; auto.
    + intros i r Hin. destruct (decide (i = id)) as [->|Hn].
      * right. apply reassign_In. right. eauto.
      * left. apply reassign_In. auto.
    + intros b [[_ H]%keep_In| ->%list_elem_of_singleton]%elem_of_app Hr; [done|by apply primary_not_remote in Hr].
Qed.

Lemma user_removal m c id : sound m c -> (m <> AnyRun -> manager (fun i _ => i <> id) c) ->
  sound m (set_acc (keep (fun a => a.1 =? id) (cAcc c)) (set_bind (keep (fun b => bUser b =? id) (cBind c)) c)).
Proof.
  intros HJ Hg. split; cbn.
  - apply (j_admin _ _ HJ).
  - apply (remote_sub c); [|done|done|apply (j_remote _ _ HJ)]. cbn. intros b [_ H]%keep_In _. done.
  - intros Hm. destruct (Hg Hm) as (i & r & Hi & Hin & Hgr). exists i, r. split_and!; [done| |done]. cbn.
    apply keep_In. split; [by apply Z.eqb_neq|done].
  - intros Hm i r Hin. cbn in *. apply keep_In in Hin as [Hi Hin]. apply keep_In. split; [done|]. by apply (j_mirrored _ _ HJ Hm).
Qed.

(** A new account, with its binding in the same commit or without it. *)
Lemma new_account m c n role : sound m c ->
  let c' := set_bind (cBind c ++ [primary n role]) (set_acc (cAcc c ++ [(n, role)]) c) in sound m c' /\ calm c c'.
Proof.
  intros HJ c'.
  assert (H : forall b, b ∈ cBind c ++ [primary n role] -> remote b -> b ∈ cBind c).
  { intros b [H| ->%list_elem_of_singleton]%elem_of_app Hr; [done|by apply primary_not_remote in Hr]. }
  split; split; cbn; auto.
  - apply (j_admin _ _ HJ).
  - apply (remote_sub c); [done|done|done|apply (j_remote _ _ HJ)].
  - intros Hm. destruct (j_managed _ _ HJ Hm) as (i & r & _ & Hin & Hg). exists i, r. split_and!; [done| |done].
    cbn. apply elem_of_app. by left.
  - intros Hm i r Hin. cbn in *. apply elem_of_app.
    apply elem_of_app in Hin as [Hin|[= -> ->]%list_elem_of_singleton]; [left; by apply (j_mirrored _ _ HJ Hm)|right; by left].
  - intros i r Hin. left. apply elem_of_app. by left.
Qed.

Lemma lone_account m c n role : m <> PairedRun -> sound m c ->
  sound m (set_acc (cAcc c ++ [(n, role)]) c) /\ calm c (set_acc (cAcc c ++ [(n, role)]) c).
Proof.
  intros Hp HJ. split; split; cbn; auto; try done.
  - apply (j_admin _ _ HJ).
  - apply (remote_sub c); [done|done|done|apply (j_remote _ _ HJ)].
  - intros Hm. destruct (j_managed _ _ HJ Hm) as (i & r & _ & Hin & Hg). exists i, r. split_and!; [done| |done].
    cbn. apply elem_of_app. by left.
  - intros i r Hin. left. apply elem_of_app. by left.
Qed.

(** ** Roles *)

Lemma pairs_In (name : string) (ps : list string) r p : (r, p) ∈ map (pair (B := string) name) ps <-> r = name /\ p ∈ ps.
Proof. rewrite list_elem_of_fmap. split; [by intros (q & [= -> ->] & ?)|intros [-> ?]; eauto]. Qed.

(** The permissions of [name] are replaced by [ps]. *)
Definition regranted (name : string) (ps : list string) (c : Core) : Core :=
  set_granted (keep (fun rp => String.eqb rp.1 name) (cPerms c) ++ map (pair (B := string) name) ps) c.

Lemma regranted_In name ps c r p : (r, p) ∈ cPerms (regranted name ps c) <->
  (r <> name /\ (r, p) ∈ cPerms c) \/ (r = name /\ p ∈ ps).
Proof. cbn. rewrite elem_of_app, keep_In, pairs_In. cbn. rewrite String.eqb_neq. tauto. Qed.

Lemma role_edit m c name ps : sound m c -> name <> "admin" ->
  ((forall p, p ∈ ps -> remotePerm p = true) \/ (forall b, b ∈ cBind c -> remote b -> bRole b <> name)) ->
  (m <> AnyRun -> (exists p, p ∈ ps /\ managing p = true) \/ manager (fun _ role => role <> name) c) ->
  sound m (regranted name ps c).
Proof.
  intros HJ Hn Hr Hg. split.
  - destruct (j_admin _ _ HJ) as (H1 & H2 & H3). split_and!; [done|done|]. apply regranted_In. left. by split.
  - intros b Hin Hb. destruct (j_remote _ _ HJ b Hin Hb) as [He Hp]. split; [done|].
    intros p [[Hne H]|[E H]]%regranted_In; [by apply Hp|]. destruct Hr as [Hr|Hr]; [by apply Hr|]. by apply Hr in E.
  - intros Hm. assert (Ho : manager (fun _ role => role <> name) c -> managed (regranted name ps c)).
    { intros (i & r & Hne & Hin & p & Hpm & Hp). exists i, r. split_and!; [done|done|]. exists p. split; [done|].
      apply regranted_In. by left. }
    destruct (Hg Hm) as [(p & Hp & Hpm)|]; [|auto]. destruct (j_managed _ _ HJ Hm) as (i & r & _ & Hin & Hgr).
    destruct (decide (r = name)) as [->|Hne]; [|apply Ho; by exists i, r].
    exists i, name. split_and!; [done|done|]. exists p. split; [done|]. apply regranted_In. by right.
  - intros Hm. apply (j_mirrored _ _ HJ Hm).
Qed.

Lemma role_removal m c name : sound m c -> name <> "admin" -> (forall b, b ∈ cBind c -> remote b -> bRole b <> name) ->
  (m <> AnyRun -> manager (fun _ role => role <> name) c) ->
  sound m (set_keys (keep (fun r => String.eqb r.1 name) (cRoles c))
             (set_granted (keep (fun rp => String.eqb rp.1 name) (cPerms c)) c)).
Proof.
  intros HJ Hn Hb Hg. split; cbn.
  - destruct (j_admin _ _ HJ) as (H1 & H2 & H3). split_and!; cbn.
    + apply keep_In. split; [by apply String.eqb_neq|done].
    + intros bi [_ H]%keep_In. by apply H2.
    + apply keep_In. split; [by apply String.eqb_neq|done].
  - intros b Hin Hr. cbn in *. destruct (j_remote _ _ HJ b Hin Hr) as [[bi He] Hp]. split.
    + exists bi. apply keep_In. split; [|done]. apply String.eqb_neq. by apply Hb.
    + intros p [_ H]%keep_In. by apply Hp.
  - intros Hm. destruct (Hg Hm) as (i & r & Hne & Hin & p & Hpm & Hp). exists i, r. split_and!; [done|done|].
    exists p. split; [done|]. cbn. apply keep_In. split; [by apply String.eqb_neq|done].
  - intros Hm. apply (j_mirrored _ _ HJ Hm).
Qed.

Lemma new_role m c name ps : sound m c -> (forall bi, (name, bi) ∉ cRoles c) ->
  let c' := set_granted (cPerms c ++ map (pair (B := string) name) ps) (set_keys (cRoles c ++ [(name, false)]) c) in sound m c' /\ calm c c'.
Proof.
  intros HJ Hn c'. destruct (j_admin _ _ HJ) as (H1 & H2 & H3).
  assert (Hne : name <> "admin") by (intros ->; by apply Hn in H1).
  split; split; cbn; auto.
  - split_and!; cbn; [set_solver| |set_solver].
    intros bi [H|[= E _]%list_elem_of_singleton]%elem_of_app; [by apply H2|congruence].
  - intros b Hin Hr. cbn in *. destruct (j_remote _ _ HJ b Hin Hr) as [[bi He] Hp]. split.
    + exists bi. apply elem_of_app. by left.
    + intros p [H|[E H]%pairs_In]%elem_of_app; [by apply Hp|]. rewrite E in He. by apply Hn in He.
  - intros Hm. destruct (j_managed _ _ HJ Hm) as (i & r & _ & Hin & p & Hpm & Hp). exists i, r. split_and!; [done|done|].
    exists p. split; [done|]. cbn. apply elem_of_app. by left.
  - intros Hm. apply (j_mirrored _ _ HJ Hm).
  - intros rp H. apply elem_of_app. by left.
  - intros role bi p Hr [H|[-> _]%pairs_In]%elem_of_app; [done|]. by apply Hn in Hr.
  - intros role bi H. apply elem_of_app. by left.
Qed.
