(* ===== verification/AccountsSafe.v ===== *)
(** * Account requests: each one keeps the invariant

    Every request of the account code, walked through call by call in the logic
    of AccountsRun.v: whatever the other requests do between its calls, and
    whatever call fails, it keeps the invariant of AccountsFacts.v and leaves
    alone what requests without the mutex must leave alone. *)

From S2P Require Import Prelude GoText GoTime Prog Rbac Accounts AccountsApi AccountsRun AccountsFacts AccountsCore.
Local Open Scope Z_scope.

(** The request ends with the mutex as it found it and no transaction open. *)
Definition closed {A} (held : bool) (_ : A) (h : bool) (t : option Db) (_ : Db) : Prop := h = held /\ t = None.

Create HintDb accounts.
#[export] Hint Unfold RoleExists RoleGrantsUserManagement UserManagesUsers UserManagerCount UserManagerCountExcludingRole
  SetClusterRoleBinding DeleteUserBindings DeleteNoticeAcksForUser roleBuiltin userExists fetchByID remoteWideRoleAllowed
  LoadPerms_of loadRoles : accounts.

(** A postcondition that asks for nothing but a clean end. *)
Ltac ended := solve [repeat (cbv beta iota; first [done | apply rg_ret | split | intro])].
(** One structural step of a program. *)
Ltac walk :=
  cbv beta iota zeta; autounfold with accounts;
  lazymatch goal with
  | |- rg _ _ _ _ _ _ (Ret _) _ => apply rg_ret
  | |- rg _ _ _ _ _ _ (orFail _ _) _ => apply rg_orFail
  | |- rg _ _ _ _ _ _ (pcheck _ _) _ => apply rg_check
  | |- rg _ _ _ _ _ _ (orExit _ _ _) _ => apply rg_orExit
  | |- rg _ _ _ _ _ _ (pbind _ _) _ => apply rg_bind
  | |- rg _ _ _ _ _ _ (deferRollback _) _ => apply rg_rollback; [apply _|]
  end.
(** A query outside a transaction; its failure ends the request. *)
Ltac ask d HJ HR :=
  repeat walk; apply rg_read; [apply _|]; intros d [HJ HR] _; cbn [view default] in *; split; [repeat walk|try (repeat walk; ended)].

(** The two sides of a condition of the program. *)
Ltac branch := match goal with |- rg _ _ _ _ _ _ (if ?b then _ else _) _ => destruct b eqn:? end.

Section Safe.
Context (m : mode) (env : Env) (sessionDigest : string -> string).
Context (ParseRFC3339 : string -> option time) (FormatRFC3339 : time -> string).
Local Abbreviation W := (rg (J m) R (seen m)).

(** ** Statements *)

Definition quiet (x : stmt) : Prop := forall n c, coreX x n c = c.

Lemma rg_quiet x held d Q : quiet x -> (forall r d1, J m d1 -> (held = true -> R d d1) -> Q r held None d1) ->
  W held None d (exec x) Q.
Proof using Type.
  intros Hx HQ. apply rg_exec; [apply _|]. intros d1 [HJ HR]. split; [|intros e; by apply HQ].
  intros d2 n E. apply evalX_core in E. rewrite Hx in E.
  assert (HJ2 : J m d2) by (unfold J; by rewrite E).
  assert (HR2 : R d1 d2) by (unfold R; by rewrite E).
  split_and!; [by split|apply HQ; [done|]|apply HQ; [done|]]; intros Hh; (etransitivity; [by apply HR|done]).
Qed.

Lemma rg_tx x held sh d (Q : result dberr Z -> bool -> option Db -> Db -> Prop) :
  (forall sh' n, evalX x sh = Some (sh', n) -> core sh' = coreX x n (core sh) -> Q (Ok n) held (Some sh') d) ->
  (forall sh' e, Q (Err e) held (Some sh') d) -> W held (Some sh) d (exec x) Q.
Proof using Type.
  intros H1 H2. apply rg_exec_tx; [apply _| |done]. intros sh' n E. apply H1; [done|]. by apply evalX_core.
Qed.

Lemma DeleteForUser_safe id held d Q : (forall r d1, J m d1 -> (held = true -> R d d1) -> Q r held None d1) ->
  W held None d (DeleteForUser id) Q.
Proof using Type.
  intros HQ. unfold DeleteForUser. walk. apply rg_quiet; [done|]. intros [n|e] d1 HJ HR; [walk|]; by apply HQ.
Qed.

Lemma Create_safe s c now id d Q : (forall r d1, J m d1 -> Q r false None d1) ->
  W false None d (Create sessionDigest FormatRFC3339 s c now id) Q.
Proof using Type.
  intros HQ. unfold Create. walk. apply rg_quiet; [done|]. intros [n|e] d1 HJ HR; [walk|]; by apply HQ.
Qed.

Lemma invalidate_safe id held d (Q : unit -> bool -> option Db -> Db -> Prop) : (forall d1, Q () held None d1) ->
  W held None d (invalidateSessions env id) Q.
Proof using Type.
  intros HQ. unfold invalidateSessions. destruct (hasSessions env); [|by walk]. walk.
  apply DeleteForUser_safe. intros r d1 _ _. by walk.
Qed.

(** A statement on its own that keeps the invariant and disturbs no one. *)
Lemma rg_calm x d (Q : result dberr Z -> bool -> option Db -> Db -> Prop) :
  (forall n c, sound m c -> sound m (coreX x n c) /\ calm c (coreX x n c)) ->
  (forall r d1, Q r false None d1) -> W false None d (exec x) Q.
Proof using Type.
  intros Hx HQ. apply rg_exec; [apply _|]. intros d1 [HJ _]. split; [|done]. intros d2 n E%evalX_core.
  split; [|done]. unfold keeps, J, R. rewrite E. destruct (Hx n _ HJ). by split.
Qed.

(** Repointing the cluster-wide binding inside a transaction. *)
Lemma rebind_tx held sh d id role (Q : result dberr unit -> bool -> option Db -> Db -> Prop) :
  (forall sh', core sh' = set_bind (keep (homeWide id DefaultCluster) (cBind (core sh)) ++ [primary id role]) (core sh) ->
    Q (Ok ()) held (Some sh') d) ->
  (forall sh' e, Q (Err e) held (Some sh') d) ->
  W held (Some sh) d (SetClusterRoleBinding id DefaultCluster role) Q.
Proof using Type.
  intros H1 H2. repeat walk. apply rg_tx; [|done]. intros sh1 n1 _ E1. repeat walk. apply rg_tx; [|done].
  intros sh2 n2 _ E2. repeat walk. apply H1. rewrite E2, E1. done.
Qed.

(** ** Users *)

Lemma insertUser_safe body role hash d : m <> PairedRun -> W false None d (insertUser body role hash) (closed false).
Proof using Type.
  intros Hm. unfold insertUser. walk. apply rg_calm; [by intros; apply lone_account|]. intros [id|e] d2; [|ended]. repeat walk.
  apply rg_calm; [intros; by apply less_bindings|]. intros [n|e] d3; [|ended]. repeat walk.
  apply rg_calm; [intros; apply more_bindings; [done|apply primary_not_remote]|]. intros [n'|e] d4; ended.
Qed.

Lemma create_user_safe body hashed d : m <> PairedRun -> W false None d (createUser env body hashed) (closed false).
Proof using Type.
  intros Hm. unfold createUser. destruct body as [b|]; [|ended]. do 2 (case_match; [ended|]).
  generalize (if String.eqb (cuRole b) "" then "viewer" else cuRole b). intros role.
  ask d1 HJ HR. case_match; [ended|]. case_match; [by apply insertUser_safe|]. case_match; [ended|].
  destruct hashed; [by apply insertUser_safe|ended].
Qed.

(** The account row and everything tied to it, once another manager is known. *)
Lemma DeleteUser_safe at_ id d (Q : result dberr unit -> bool -> option Db -> Db -> Prop) :
  (m <> AnyRun -> manager (fun i _ => i <> id) (core d)) -> (forall r d1, Q r true None d1) -> W true None d (DeleteUser at_ id) Q.
Proof using Type.
  intros Hg HQ. unfold DeleteUser. walk. apply rg_begin; [apply _|]. intros d1 [HJ HR]. specialize (HR eq_refl).
  split; [|apply HQ]. repeat walk.
  assert (Hg1 : m <> AnyRun -> manager (fun i _ => i <> id) (core d1)).
  { intros Hm. eapply manager_later; [exact HR|apply (j_admin _ _ HJ)|done|auto]. }
  apply rg_tx; [|intros; apply HQ]. intros s1 n1 _ E1. repeat walk.
  apply rg_tx; [|intros; apply HQ]. intros s2 n2 _ E2. repeat walk.
  apply rg_tx; [|intros; apply HQ]. intros s3 n3 _ E3. repeat walk.
  apply rg_tx; [|intros; apply HQ]. intros s4 n4 _ E4. repeat walk.
  apply rg_tx; [|intros; apply HQ]. intros s5 n5 _ E5. repeat walk.
  apply rg_tx; [|intros; apply HQ]. intros s6 n6 _ E6. repeat walk.
  apply rg_tx; [|intros; apply HQ]. intros s7 n7 _ E7. repeat walk.
  apply rg_tx; [|intros; apply HQ]. intros s8 n8 _ E8. repeat walk.
  cbn [coreX] in *. rewrite E7, E6, E5, E4, E3, E2, E1 in E8.
  apply rg_commit; [apply _| |by repeat intro; apply HQ|by repeat intro; apply HQ].
  intros _. split; [|done]. unfold J. rewrite E8. exact (user_removal m (core d1) id HJ Hg1).
Qed.

Lemma del_user_safe caller idParam at_ d : W false None d (del_user caller idParam at_) (closed false).
Proof using Type.
  unfold del_user. destruct (ParseInt64 idParam) as [id|]; [|ended]. case_match; [ended|].
  apply rg_locked; [apply _|]. intros d0 HJ0. ask d1 HJ HR.
  assert (Hdel : forall d, (m <> AnyRun -> manager (fun i _ => i <> id) (core d)) ->
    W true None d (orFail (DeleteUser at_ id) (fun _ => Ret NoContent)) (fun a h t _ => h = true /\ t = None /\ forall d', closed false a false None d')).
  { intros d2 Hd. walk. apply DeleteUser_safe; [done|]. intros [[]|e] d3; ended. }
  destruct (0 <? _) eqn:Em.
  - ask d2 HJ2 HR2. destruct (_ <=? 1) eqn:Ec; [ended|]. apply Hdel. intros _. apply QManagers_other. lia.
  - apply Hdel. intros Hm. apply Z.ltb_ge in Em. destruct (j_managed _ _ HJ Hm) as (i & r & _ & Hin & Hg).
    exists i, r. split; [|done]. intros ->. assert (0 < evalQ (QUserManages id) d1); [|lia].
    apply QUserManages_pos. by exists id, r.
Qed.

(** An optional field of a transaction that the core does not have. *)
Lemma rg_opt (o : option string) (x : string -> stmt) held sh d (Q : result dberr Z -> bool -> option Db -> Db -> Prop) :
  (forall v, quiet (x v)) -> (forall sh' n, core sh' = core sh -> Q (Ok n) held (Some sh') d) ->
  (forall sh' e, Q (Err e) held (Some sh') d) ->
  W held (Some sh) d match o with Some v => exec (x v) | None => Ret (Ok 0) end Q.
Proof using Type.
  intros Hx H1 H2. destruct o as [v|]; [|walk; by apply H1]. apply rg_tx; [|done]. intros sh' n _ E. apply H1. by rewrite E, Hx.
Qed.

(** The update of an account that is there found one. *)
Lemma set_role_found role id d d' n : evalX (XSetRole role id) d = Some (d', n) -> n <> 0 -> exists r, (id, r) ∈ cAcc (core d).
Proof using Type.
  cbn. intros [= _ <-] Hn. assert (H : 0 < countRows (fun u => uId u =? id) (users d)) by (unfold countRows in *; lia).
  apply countRows_pos in H as (u & Hu & E%Z.eqb_eq). exists (uRole u). apply acc_In. eauto.
Qed.

(** The manager that makes a change of [id]'s role safe. *)
Definition replaceable (id : Z) (role : string) (c : Core) : Prop := grantsManage c role \/ manager (fun i _ => i <> id) c.
Lemma replaceable_later id role d d' : J m d' -> R d d' -> replaceable id role (core d) -> replaceable id role (core d').
Proof using Type.
  intros HJ HR [H|H]; [left; by eapply grants_later|right].
  eapply manager_later; [exact HR|apply (j_admin _ _ HJ)|done|done].
Qed.

Lemma applyUpdate_safe held id body d :
  (forall role, upRole body = Some role -> held = true /\ (m <> AnyRun -> replaceable id role (core d))) ->
  W held None d (applyUpdate env id body) (closed held).
Proof using Type.
  intros Hg. unfold applyUpdate. walk. apply rg_begin; [apply _|]. intros d1 [HJ HR]. split; [|ended].
  repeat walk. apply rg_opt; [done| |ended]. intros s1 n1 E1. repeat walk. apply rg_opt; [done| |ended]. intros s2 n2 E2.
  cbv beta iota zeta. rewrite E1 in E2.
  assert (Hfin : forall sh, (J m d1 -> keeps (J m) R held d1 sh) -> W held (Some sh) d1
    (orFail (call SCommit) (fun _ => pbind (if hasSessions env && match upRole body with Some _ => true | None => false end
                 then DeleteForUser id else Ret (Ok ()))
      (fun _ => orFail (fetchByID id) (fun out => match out with None => Ret (Msg "server.common.user_not_found") | Some u => Ret (Json (JUser u)) end))))
    (fun a h t _ => forall d', closed held a h None d')).
  { intros sh Hk. walk. apply rg_commit; [apply _|done| |ended]. intros HJ2. walk.
    assert (Hr : forall d, W held None d (orFail (fetchByID id) (fun out => match out with None => Ret (Msg "server.common.user_not_found") | Some u => Ret (Json (JUser u)) end))
      (fun a h t _ => forall d', closed held a h None d')).
    { intros d2. ask d3 HJ3 HR3. destruct (evalQ _ d3); ended. }
    case_match; [|walk; apply Hr]. apply DeleteForUser_safe. intros r d2 _ _. apply Hr. }
  destruct (upRole body) as [role|] eqn:Er; cbv iota.
  - destruct (Hg role eq_refl) as [-> Hm]. specialize (HR eq_refl). repeat walk. apply rg_tx; [|ended].
    intros s3 n Ex E3. cbv beta iota. destruct (n =? 0) eqn:En; [ended|]. apply Z.eqb_neq in En.
    walk. apply rebind_tx; [|ended]. intros s4 E4. cbv beta iota. apply Hfin. intros _. split; [|done].
    unfold J. rewrite E4, E3, E2. apply (role_change m (core d1) id role HJ). intros Hm'.
    destruct (replaceable_later _ _ _ _ HJ HR (Hm Hm')) as [H|H]; [left|by right]. split; [done|].
    apply set_role_found in Ex as [r Hr]; [|done]. rewrite E2 in Hr. eauto.
  - apply Hfin. intros _. unfold keeps, J, R. rewrite E2. split; [done|]. done.
Qed.

(** What the guards of a role change establish. *)
Lemma other_manager id d : managed (core d) -> evalQ (QUserManages id) d <= 0 -> manager (fun i _ => i <> id) (core d).
Proof using Type.
  intros (i & r & _ & Hin & Hg) Hle. exists i, r. split; [|done]. intros ->.
  assert (0 < evalQ (QUserManages id) d); [|lia]. apply QUserManages_pos. by exists id, r.
Qed.

Lemma update_account_safe caller idParam body d : W false None d (update_account env caller idParam body) (closed false).
Proof using Type.
  unfold update_account. destruct (ParseInt64 idParam) as [id|]; [|ended]. destruct body as [body|]; [|ended].
  case_match; [ended|]. destruct (upRole body) as [role|] eqn:Er; [|apply applyUpdate_safe; by rewrite Er].
  ask d0 HJ0 HR0. branch; [ended|]. apply rg_locked; [apply _|]. intros d1 HJ1.
  assert (Happ : forall d, (m <> AnyRun -> replaceable id role (core d)) -> W true None d (applyUpdate env id body)
    (fun a h t _ => h = true /\ t = None /\ forall d', closed false a false None d')).
  { intros d2 H2. eapply rg_mono; [|apply (applyUpdate_safe true)]; [by intros a h t d3 [-> ->]|].
    intros role' E. rewrite Er in E. injection E as <-. done. }
  ask d2 HJ2 HR2. destruct (0 <? _) eqn:Eg.
  - rewrite andb_false_r. cbn [negb]. apply Happ. intros _. left. apply QRoleGrants_pos. lia.
  - branch; [ended|]. cbn [negb]. ask d3 HJ3 HR3. destruct (0 <? evalQ (QUserManages id) d3) eqn:Em.
    + ask d4 HJ4 HR4. destruct (_ <=? 1) eqn:Ec; [ended|]. apply Happ. intros _. right. apply QManagers_other. lia.
    + apply Happ. intros Hm. right. apply other_manager; [by apply (j_managed _ _ HJ3)|lia].
Qed.

Lemma resetPassword_safe idParam body hashed d : W false None d (resetPassword env idParam body hashed) (closed false).
Proof using Type.
  unfold resetPassword. destruct (ParseInt64 idParam) as [id|]; [|ended]. destruct body as [pw|]; [|ended].
  branch; [ended|]. destruct hashed as [hash|]; [|ended]. walk. apply rg_quiet; [done|]. intros [n|e] d1 HJ1 _; [|ended].
  cbv beta iota. branch; [ended|]. walk. branch; [|ended]. apply DeleteForUser_safe. intros r d2 _ _. ended.
Qed.

(** ** Bindings *)

Lemma grantBinding_safe held rw b d :
  (rw = true -> held = true) -> (rw = false -> ~ remote b) -> W held None d (grantBinding env rw b) (closed held).
Proof using Type.
  intros Hh Hb. unfold grantBinding. ask d1 HJ1 HR1. branch; [ended|]. apply negb_false_iff, role_exists_key in Heqb0 as [bi He].
  assert (Hend : forall d, W held None d (pbind (invalidateSessions env (bUser b)) (fun _ => Ret (Created (JBinding b)))) (closed held)).
  { intros d2. walk. apply invalidate_safe. ended. }
  assert (Hgrant : forall d2, (rw = true -> (forall d', R d2 d' -> J m d' -> (exists bi, (bRole b, bi) ∈ cRoles (core d')) /\
      forall p, (bRole b, p) ∈ cPerms (core d') -> remotePerm p = true)) -> W held None d2
    (orFail (userExists (bUser b)) (fun ok => if negb ok then Ret (Msg "server.common.user_not_found")
      else orFail (dbRead (QSameBinding b)) (fun dup => if 0 <? dup then Ret (Msg "server.users.binding_already_exists")
        else orFail (exec (XInsertBinding b)) (fun _ => pbind (invalidateSessions env (bUser b)) (fun _ => Ret (Created (JBinding b)))))))
    (closed held)).
  { intros d2 Hd. ask d3 HJ3 HR3. branch; [ended|]. ask d4 HJ4 HR4. branch; [ended|]. walk. apply rg_exec; [apply _|].
    intros d5 [HJ5 HR5]. split; [|ended]. intros d6 n E%evalX_core. split; [|split; [apply Hend|ended]].
    unfold keeps, J, R. rewrite E. cbn [coreX]. destruct rw.
    - rewrite Hh in * by done. split; [|done]. destruct (Hd eq_refl d5) as [H1 H2]; [|done|].
      { etransitivity; [by apply HR3|]. etransitivity; [by apply HR4|]. by apply HR5. }
      by apply remote_binding.
    - destruct (more_bindings m (core d5) b HJ5 (Hb eq_refl)). by split. }
  destruct rw; [|apply Hgrant; done]. rewrite Hh in * by done. ask d2 HJ2 HR2. branch; [ended|].
  apply Hgrant. intros _ d' HR' HJ'. apply negb_false_iff in Heqb0.
  pose proof (r_roles _ _ (HR2 eq_refl) _ _ He) as He2. split; [exists bi; by apply (r_roles _ _ HR')|].
  intros p Hin. apply (r_fixed _ _ HR' _ _ _ He2) in Hin. rewrite allowed_forall in Heqb0. apply Heqb0. by apply role_permissions_In.
Qed.

Lemma addBinding_safe idParam body d : W false None d (addBinding env idParam body) (closed false).
Proof using Type.
  unfold addBinding. destruct (ParseInt64 idParam) as [id|]; [|ended]. destruct body as [[[role ns] cl]|]; [|ended]. cbv zeta.
  set (cluster := if String.eqb cl "" then DefaultCluster else cl). set (rw := String.eqb ns "*" && _).
  branch; [ended|]. branch; [ended|]. branch; [ended|]. destruct rw eqn:Erw.
  - apply rg_locked; [apply _|]. intros d1 HJ1. eapply rg_mono; [|apply (grantBinding_safe true true)]; [|done|done].
    by intros a h t d2 [-> ->].
  - apply grantBinding_safe; [done|]. intros _ [Hns _]. cbn in Hns. subst ns. by cbn in Heqb.
Qed.

Lemma deleteBinding_safe idParam role ns cl d : W false None d (deleteBinding env idParam role ns cl) (closed false).
Proof using Type.
  unfold deleteBinding. destruct (ParseInt64 idParam) as [id|]; [|ended]. cbv zeta.
  set (cluster := if String.eqb cl "" then DefaultCluster else cl). branch; [ended|]. branch; [ended|].
  assert (Hrem : forall held d, W held None d
    (orFail (exec (XDeleteBinding (MkBinding id role cluster ns))) (fun n => if n =? 0 then Ret (Msg "server.users.binding_not_found")
       else pbind (invalidateSessions env id) (fun _ => Ret NoContent))) (closed held)).
  { intros held d1. walk. apply rg_exec; [apply _|]. intros d2 [HJ2 HR2]. split; [|ended]. intros d3 n E%evalX_core. split; [|split; [|ended]].
    - destruct (less_bindings m (core d2) (sameBinding (MkBinding id role cluster ns)) HJ2) as [H1 H2].
      { intros _ i r. unfold sameBinding. cbn. destruct (String.eqb_spec cluster DefaultCluster) as [Ec|Ec]; [|by rewrite andb_false_r].
        rewrite andb_true_r in Heqb. by rewrite Heqb, andb_false_r. }
      unfold keeps, J, R. rewrite E. by split.
    - cbv beta iota. branch; [ended|]. walk. apply invalidate_safe. ended. }
  branch; [|apply Hrem]. apply rg_locked; [apply _|]. intros d1 HJ1. ask d2 HJ2 HR2. branch; [ended|].
  eapply rg_mono; [|apply (Hrem true)]. by intros a h t d3 [-> ->].
Qed.

(** ** Roles *)

Lemma insert_all_tx name ps : forall held sh d (Q : result dberr unit -> bool -> option Db -> Db -> Prop),
  (forall sh', core sh' = set_granted (cPerms (core sh) ++ map (pair (B := string) name) ps) (core sh) -> Q (Ok ()) held (Some sh') d) ->
  (forall sh' e, Q (Err e) held (Some sh') d) -> W held (Some sh) d (insert_all name ps) Q.
Proof using Type.
  induction ps as [|p ps IH]; intros held sh d Q H1 H2; cbn [insert_all].
  - walk. apply H1. cbn [map]. by rewrite app_nil_r.
  - walk. apply rg_tx; [|done]. intros sh1 n _ E1. cbv beta iota. apply IH; [|done]. intros sh2 E2. apply H1.
    rewrite E2, E1. cbn. by rewrite <- app_assoc.
Qed.

Lemma create_role_safe body d : W false None d (create_role body) (closed false).
Proof using Type.
  unfold create_role. destruct body as [b|]; [|ended]. branch; [ended|]. destruct (validatePermissions _); [ended|].
  walk. apply rg_begin; [apply _|]. intros d1 [HJ _]. split; [|ended]. repeat walk. apply rg_tx; [|ended].
  intros s1 n1 Ex E1. repeat walk. unfold insertPermissions. apply insert_all_tx; [|ended]. intros s2 E2. repeat walk.
  assert (Hnew : forall bi, (rcName b, bi) ∉ cRoles (core d1)).
  { intros bi H. cbn [evalX] in Ex. assert (He : evalQ (QRoleExists (rcName b)) d1 = true) by (apply role_exists_key; eauto).
    cbn in He. by rewrite He in Ex. }
  apply rg_commit; [apply _| |ended|ended]. intros _. unfold keeps, J, R. rewrite E2, E1.
  destruct (new_role m (core d1) (rcName b) (dedupSorted (rcPermissions b)) HJ Hnew). by split.
Qed.

(** What the guards of a permission edit establish. *)
Definition spared (name : string) (ps : list string) (c : Core) : Prop :=
  (exists p, p ∈ ps /\ managing p = true) \/ manager (fun _ role => role <> name) c.

Lemma guard_safe caller name ps d (Q : result dberr (option string) -> bool -> option Db -> Db -> Prop) : J m d ->
  (forall d1, J m d1 -> R d d1 -> (m <> AnyRun -> spared name ps (core d1)) -> Q (Ok None) true None d1) ->
  (forall e d1, Q (Err e) true None d1) -> (forall msg d1, Q (Ok (Some msg)) true None d1) ->
  W true None d (userManagementGuard caller name ps) Q.
Proof using Type.
  intros HJ H1 H2 H3. unfold userManagementGuard. branch.
  { walk. apply H1; [done|done|]. intros _. left. apply existsb_exists in Heqb as (p & Hp & E). exists p. split; [by apply list_elem_of_In|done]. }
  repeat walk. apply rg_read; [apply _|]. intros d1 [HJ1 HR1] _. cbn [view default] in *. specialize (HR1 eq_refl). split; [|apply H2].
  walk. branch; cbv beta iota; apply negb_true_iff in Heqb0 || apply negb_false_iff in Heqb0.
  { walk. apply H1; [done|done|]. intros Hm. right. destruct (j_managed _ _ HJ1 Hm) as (i & r & _ & Hin & Hg). exists i, r.
    split; [|done]. intros ->. apply QRoleGrants_pos in Hg. lia. }
  branch; [walk; apply H3|].
  repeat walk. apply rg_read; [apply _|]. intros d2 [HJ2 HR2] _. cbn [view default] in *. specialize (HR2 eq_refl). split; [|apply H2].
  repeat walk. apply rg_read; [apply _|]. intros d3 [HJ3 HR3] _. cbn [view default] in *. specialize (HR3 eq_refl). split; [|apply H2].
  cbv beta iota. branch; walk; [apply H3|]. apply H1; [done|by do 2 (etransitivity; [eassumption|])|]. intros Hm. right.
  apply QManagersOutside_pos. pose proof (proj2 (QManagers_pos d2) (j_managed _ _ HJ2 Hm)) as Ht.
  assert (0 <= evalQ (QManagersOutside name) d3) by (cbn; unfold distinct_managers; lia).
  destruct (0 <? evalQ QManagers d2) eqn:E; [|lia]. cbn [andb] in *. lia.
Qed.

Lemma showRole_safe name held d : W held None d
  (orFail loadRoles (fun rs => match List.find (fun r => String.eqb (oName r) name) rs with
     | Some r => Ret (Json (JRole r)) | None => Ret (Msg "server.roles.role_not_found") end))
  (fun a h t _ => forall d', closed held a h None d').
Proof using Type. ask d1 HJ1 HR1. ask d2 HJ2 HR2. destruct (List.find _ _); ended. Qed.

(** No remote grant carries the role. *)
Definition unremote (name : string) (c : Core) : Prop := forall b, b ∈ cBind c -> remote b -> bRole b <> name.
Lemma unremote_later name c c' : calm c c' -> unremote name c -> unremote name c'.
Proof using Type. intros HR H b Hb Hr. apply H; [|done]. by apply (r_remote _ _ HR). Qed.

Lemma applyRoleUpdate_safe held name body d : name <> "admin" ->
  (forall ps, ruPermissions body = Some ps -> held = true /\
     ((forall p, p ∈ ps -> remotePerm p = true) \/ unremote name (core d)) /\ (m <> AnyRun -> spared name ps (core d))) ->
  W held None d (applyRoleUpdate name body) (closed held).
Proof using Type.
  intros Hn Hg. unfold applyRoleUpdate. walk. apply rg_begin; [apply _|]. intros d1 [HJ HR]. split; [|ended].
  repeat walk. apply (rg_opt _ (fun v => XDescribeRole v name)); [done| |ended]. intros s1 n1 E1. repeat walk.
  destruct (ruPermissions body) as [ps|].
  - destruct (Hg ps eq_refl) as (-> & Hrem & Hsp). specialize (HR eq_refl). repeat walk. apply rg_tx; [|ended].
    intros s2 n2 _ E2. repeat walk. unfold insertPermissions. apply insert_all_tx; [|ended]. intros s3 E3. cbv beta iota.
    apply rg_tx; [|ended]. intros s4 n4 _ E4. repeat walk.
    apply rg_commit; [apply _| |intros _; apply showRole_safe|ended]. intros _. split; [|done].
    cbn [coreX] in E4. unfold J. rewrite E4, E3, E2, E1. apply (role_edit m (core d1) name (dedupSorted ps) HJ Hn).
    + destruct Hrem as [H|H]; [left; intros p Hp; by apply H, dedupSorted_In|right; by apply (unremote_later _ _ _ HR)].
    + intros Hm. destruct (Hsp Hm) as [(p & Hp & Hpm)|H].
      * left. exists p. split; [by apply dedupSorted_In|done].
      * right. eapply manager_later; [exact HR|apply (j_admin _ _ HJ)|by intros|done].
  - repeat walk. apply rg_commit; [apply _| |intros _; apply showRole_safe|ended].
    intros _. unfold keeps, J, R. by rewrite E1.
Qed.

Lemma update_role_safe caller name body d : W false None d (update_role caller name body) (closed false).
Proof using Type.
  unfold update_role. ask d0 HJ0 HR0. destruct (evalQ (QRoleBuiltin name) d0) as [builtin|] eqn:Eb; [|ended].
  branch; [ended|].
  assert (Hn : name <> "admin").
  { intros ->. apply builtin_admin in Eb as ->; [done|apply (j_admin _ _ HJ0)]. }
  destruct body as [body|]; [|ended]. destruct (ruPermissions body) as [ps|] eqn:Ep.
  2:{ apply applyRoleUpdate_safe; [done|]. by rewrite Ep. }
  destruct (validatePermissions ps); [ended|]. apply rg_locked; [apply _|]. intros d1 HJ1.
  assert (Happ : forall d2, J m d2 -> ((forall p, p ∈ ps -> remotePerm p = true) \/ unremote name (core d2)) -> W true None d2
    (orFail (userManagementGuard caller name ps) (fun msg => match msg with Some msg => Ret (Code 400 msg) | None => applyRoleUpdate name body end))
    (fun a h t _ => h = true /\ t = None /\ forall d', closed false a false None d')).
  { intros d2 HJ2 Hrem. walk. apply guard_safe; [done| |ended|ended]. intros d3 HJ3 HR3 Hsp. cbv beta iota.
    eapply rg_mono; [|apply (applyRoleUpdate_safe true)]; [by intros a h t d4 [-> ->]|done|].
    intros ps' E. rewrite Ep in E. injection E as <-. split_and!; [done| |done].
    destruct Hrem as [H|H]; [by left|right; by apply (unremote_later _ _ _ HR3)]. }
  walk. branch.
  - walk. cbv beta iota. cbn [Z.ltb Z.compare]. apply Happ; [done|]. left. by apply allowed_forall.
  - ask d2 HJ2 HR2. branch; [ended|]. apply Happ; [done|]. right. intros b Hb [Hns Hcl] E.
    assert (H : 0 < evalQ (QRemoteBindings name) d2); [|lia]. cbn. apply countRows_pos. exists b. split; [done|].
    rewrite E, Hns, String.eqb_refl. cbn. by apply negb_true_iff, String.eqb_neq.
Qed.

Lemma del_role_safe name d : W false None d (del_role name) (closed false).
Proof using Type.
  apply rg_locked; [apply _|]. intros d0 HJ0. ask d1 HJ1 HR1.
  destruct (evalQ (QRoleBuiltin name) d1) as [[]|] eqn:Eb; [ended| |ended].
  assert (Hn : name <> "admin").
  { intros ->. by apply builtin_admin in Eb; [|apply (j_admin _ _ HJ1)]. }
  repeat walk. apply rg_read; [apply _|]. intros d2 [HJ2 HR2] Hseen. cbn [view default] in *. split; [|ended]. cbv beta iota.
  branch; [ended|]. apply Z.ltb_ge in Heqb.
  assert (Hb : forall b, b ∈ cBind (core d2) -> bRole b <> name).
  { intros b H E. apply (countRows_none _ _ b Heqb) in H. by rewrite E, String.eqb_refl in H. }
  assert (Hsp : m <> AnyRun -> manager (fun _ role => role <> name) (core d2)).
  { intros Hm. destruct (j_managed _ _ HJ2 Hm) as (i & r & _ & Hin & Hg). exists i, r. split; [|done]. intros ->. destruct m eqn:Em; [done| |].
    - destruct (Hseen eq_refl i Hin) as (b & Hin' & _ & E). by apply Hb in E.
    - by apply (Hb (primary i name)); [apply (j_mirrored _ _ HJ2)|]. }
  walk. apply rg_begin; [apply _|]. intros d3 [HJ3 HR3]. specialize (HR3 eq_refl). split; [|ended]. repeat walk.
  apply rg_tx; [|ended]. intros s1 n1 _ E1. repeat walk. apply rg_tx; [|ended]. intros s2 n2 _ E2. repeat walk.
  apply rg_commit; [apply _| |ended|ended]. intros _. split; [|done]. unfold J. rewrite E2, E1.
  apply (role_removal m (core d3) name HJ3 Hn).
  - intros b H Hr. apply Hb. by apply (r_remote _ _ HR3).
  - intros Hm. eapply manager_later; [exact HR3|apply (j_admin _ _ HJ3)|by intros|auto].
Qed.

(** ** Sign-in *)

Lemma repoint_safe id role o d (Q : result dberr RoleAssignmentOutcome -> bool -> option Db -> Db -> Prop) :
  (m <> AnyRun -> replaceable id role (core d) /\ exists r, (id, r) ∈ cAcc (core d)) -> (forall r d1, Q r true None d1) ->
  W true None d (repointRole id role o) Q.
Proof using Type.
  intros Hg HQ. unfold repointRole. walk. apply rg_begin; [apply _|]. intros d1 [HJ HR]. specialize (HR eq_refl). split; [|apply HQ]. repeat walk.
  apply rg_tx; [|by repeat intro; apply HQ]. intros s1 n1 _ E1. cbv beta iota. apply rg_check. apply rebind_tx; [|by repeat intro; apply HQ].
  intros s2 E2. repeat walk. apply rg_commit; [apply _| |by repeat intro; apply HQ|by repeat intro; apply HQ].
  intros _. split; [|done]. unfold J. rewrite E2, E1. apply (role_change m (core d1) id role HJ). intros Hm.
  destruct (Hg Hm) as [Hr [r Hin]]. destruct (replaceable_later _ _ _ _ HJ HR Hr) as [H|H]; [left|by right].
  split; [done|]. destruct (r_accounts _ _ HR _ _ Hin); eauto.
Qed.

Lemma sync_safe id role g d (Q : result dberr RoleAssignmentOutcome -> bool -> option Db -> Db -> Prop) :
  (forall r d1, Q r false None d1) -> W false None d (syncUserRole id role g) Q.
Proof using Type.
  intros HQ. apply rg_locked; [apply _|].
  set (Q' := fun a h t (_ : Db) => h = true /\ t = None /\ forall d', Q a false None d').
  assert (HQ' : forall r d1, Q' r true None d1) by (intros; split_and!; [done|done|by intros; apply HQ]). clearbody Q'.
  intros d0 HJ0. repeat walk. apply rg_read; [apply _|]. intros d1 [HJ1 HR1] _. cbn [view default] in *. split; [|apply HQ'].
  cbv beta iota. destruct (evalQ (QUserRole id) d1) as [cur|] eqn:Ec; [|walk; apply HQ'].
  assert (Hlater : forall d', R d1 d' -> exists r, (id, r) ∈ cAcc (core d')).
  { cbn in Ec. destruct (List.find _ _) as [u|] eqn:Ef; [|done]. apply find_some in Ef as [Hu E]. intros d' HR.
    assert (Hin : (id, uRole u) ∈ cAcc (core d1)).
    { apply acc_In. exists u. split; [by apply list_elem_of_In|]. split; [by apply Z.eqb_eq|done]. }
    destruct (r_accounts _ _ HR _ _ Hin); eauto. }
  cbv zeta. branch; [walk; apply HQ'|].
  repeat walk. apply rg_read; [apply _|]. intros d2 [HJ2 HR2] _. specialize (HR2 eq_refl). cbn [view default] in *.
  split; [|apply HQ']. repeat walk. destruct (0 <? _) eqn:Eg; cbn [negb].
  - repeat walk. apply repoint_safe; [|done]. intros _. split; [|by apply Hlater]. left. apply QRoleGrants_pos. lia.
  - repeat walk. apply rg_read; [apply _|]. intros d3 [HJ3 HR3] _. specialize (HR3 eq_refl). cbn [view default] in *.
    split; [|apply HQ']. repeat walk. destruct (0 <? evalQ (QUserManages id) d3) eqn:Em.
    + repeat walk. apply rg_read; [apply _|]. intros d4 [HJ4 HR4] _. specialize (HR4 eq_refl). cbn [view default] in *.
      split; [|apply HQ']. repeat walk. branch; [walk; apply HQ'|]. apply repoint_safe; [|done]. intros _. split.
      * right. apply QManagers_other. lia.
      * apply Hlater. by do 2 (etransitivity; [eassumption|]).
    + repeat walk. apply repoint_safe; [|done]. intros Hm. split.
      * right. apply other_manager; [by apply (j_managed _ _ HJ3)|lia].
      * apply Hlater. by etransitivity.
Qed.

Lemma pickName_tx base sub held sh d (Q : result dberr string -> bool -> option Db -> Db -> Prop) :
  (forall r, Q r held (Some sh) d) -> W held (Some sh) d (pickUniqueUsername base sub) Q.
Proof using Type.
  intros HQ. unfold pickUniqueUsername. walk. apply rg_read; [apply _|]. intros d1 [_ ->] _. split; [|apply HQ]. cbv beta iota.
  branch; apply rg_ret, HQ.
Qed.

Lemma firstLogin_safe iss sub email name role g d (Q : result dberr (UserRow * RoleAssignmentOutcome) -> bool -> option Db -> Db -> Prop) :
  (forall r d1, Q r false None d1) -> W false None d (firstLogin iss sub email name role g) Q.
Proof using Type.
  intros HQ. unfold firstLogin. walk. apply rg_begin; [apply _|]. intros d1 [HJ _]. split; [|apply HQ]. repeat walk.
  apply pickName_tx. intros [username|e]; [|by repeat intro; apply HQ]. repeat walk.
  apply rg_tx; [|by repeat intro; apply HQ]. intros s1 uid _ E1. repeat walk.
  apply rg_tx; [|by repeat intro; apply HQ]. intros s2 n2 _ E2. repeat walk.
  apply rg_tx; [|by repeat intro; apply HQ]. intros s3 n3 _ E3. repeat walk.
  apply rg_commit; [apply _| |by repeat intro; apply HQ|by repeat intro; apply HQ]. intros _.
  cbn [coreX] in E2. unfold keeps, J, R. rewrite E3, E2, E1. destruct (new_account m (core d1) uid role HJ). by split.
Qed.

Lemma callback_safe iss sub email name role g sync s c now d :
  W false None d (finishCallback sessionDigest FormatRFC3339 iss sub email name role g sync s c now) (closed false).
Proof using Type.
  unfold finishCallback, resolveOrLinkUser. walk.
  set (Q := fun (r : result dberr (UserRow * RoleAssignmentOutcome)) h t d => _).
  assert (HQ : forall r d1, Q r false None d1).
  { intros [[u o]|e] d1; unfold Q; [|ended]. walk. apply Create_safe. intros [[]|e] d2 _; ended. }
  clearbody Q. walk. apply rg_read; [apply _|]. intros d1 _ _. cbn [view default] in *. split; [|by apply firstLogin_safe].
  cbv beta iota. destruct (evalQ _ d1) as [u|]; [|by apply firstLogin_safe]. branch; [|walk; apply HQ]. walk. apply sync_safe.
  intros [o|e] d2; [walk|]; apply HQ.
Qed.

Lemma login_safe enabled ct body allow verify s c now d :
  W false None d (HandleLogin sessionDigest FormatRFC3339 enabled ct body allow verify s c now) (closed false).
Proof using Type.
  unfold HandleLogin. do 2 (branch; [ended|]). destruct body as [[name pw]|]; [|ended]. branch; [ended|].
  unfold fetchUser. ask d1 HJ1 HR1. destruct (evalQ _ d1) as [u|]; repeat walk; [|ended]. branch; [ended|].
  destruct (verify _ _) as [[]|]; [|ended|ended]. ask d2 HJ2 HR2. ask d3 HJ3 HR3. apply Create_safe. intros [[]|e] d4 _; ended.
Qed.

Lemma lookup_safe token now d (Q : result lookup_err (UserRow * perm_map * string) -> bool -> option Db -> Db -> Prop) :
  (forall r d1, Q r false None d1) -> W false None d (lookup_session sessionDigest ParseRFC3339 token now) Q.
Proof using Type.
  intros HQ. unfold lookup_session. repeat walk. apply rg_read; [apply _|]. intros d1 _ _. cbn [view default]. split; [|walk; apply HQ].
  cbv beta iota. destruct (evalQ _ d1) as [[u ss]|]; [|walk; apply HQ]. destruct (ParseRFC3339 _).
  - branch.
    + walk. apply rg_quiet; [done|]. intros r d2 _ _. walk. apply HQ.
    + repeat walk. apply rg_read; [apply _|]. intros d2 _ _. cbn [view default]. split; repeat walk; apply HQ.
  - walk. apply rg_quiet; [done|]. intros r d2 _ _. walk. apply HQ.
Qed.

Lemma logout_safe cookie d : W false None d (HandleLogout sessionDigest cookie) (closed false).
Proof using Type. destruct cookie as [c|]; [|ended]. unfold HandleLogout. walk. apply rg_quiet; [done|]. intros r d1 _ _. ended. Qed.

(** ** The bootstrap command *)

Lemma bootstrap_safe bf hash d : m <> PairedRun -> W false None d (bootstrapAdmin bf hash) (closed false).
Proof using Type.
  intros Hm. unfold bootstrapAdmin. cbv zeta. ask d1 HJ1 HR1. destruct (evalQ _ d1) as [u|].
  - branch; [ended|]. walk. apply rg_begin; [apply _|]. intros d2 [HJ _]. split; [|ended]. repeat walk.
    apply rg_tx; [|ended]. intros s1 n1 _ E1. cbv beta iota. apply rg_orExit. apply rebind_tx; [|ended]. intros s2 E2. cbv beta iota.
    unfold DeleteForUser. repeat walk. apply rg_tx; [|ended]. intros s3 n3 _ E3. repeat walk.
    apply rg_commit; [apply _| |ended|ended]. intros _. cbn [coreX] in E3. unfold keeps, J, R. rewrite E3, E2, E1.
    destruct (promotion m (core d2) (uId u) HJ). by split.
  - walk. apply rg_calm; [by intros; apply lone_account|]. intros [id|e] d2; [|ended]. repeat walk.
    apply rg_calm; [intros; by apply less_bindings|]. intros [n|e] d3; [|ended]. repeat walk.
    apply rg_calm; [intros; apply more_bindings; [done|apply primary_not_remote]|]. intros [n'|e] d4; ended.
Qed.

(** ** Any work *)

Lemma route_safe caller r d : (m = PairedRun -> forall body hashed, r <> RCreateUser body hashed) ->
  W false None d (route env caller r) (closed false).
Proof using Type.
  intros Hc. destruct r; cbn [route].
  - unfold list_users. ask d1 HJ1 HR1. ended.
  - apply create_user_safe. intros Hm. by apply (Hc Hm body hashed).
  - apply del_user_safe.
  - apply update_account_safe.
  - apply resetPassword_safe.
  - unfold listBindings. destruct (ParseInt64 _); [|ended]. ask d1 HJ1 HR1. ended.
  - apply addBinding_safe.
  - apply deleteBinding_safe.
  - unfold list_roles. ask d1 HJ1 HR1. ask d2 HJ2 HR2. ended.
  - apply create_role_safe.
  - apply update_role_safe.
  - apply del_role_safe.
Qed.

Lemma work_safe w d : (m = PairedRun -> splitInsert w = false) ->
  W false None d (handle env sessionDigest ParseRFC3339 FormatRFC3339 w) (closed false).
Proof using Type.
  intros Hc. destruct w; cbn [handle].
  - unfold Authenticate. destruct cookie as [c|]; [|ended]. repeat walk. apply lookup_safe. intros [[[u ps] csrf]|[]] d1; [|ended..].
    cbv beta iota. branch; [ended|]. repeat walk. cbv beta iota. destruct (gate u ps); [ended|]. apply route_safe. intros Hm body hashed ->. by specialize (Hc Hm).
  - apply login_safe.
  - apply callback_safe.
  - apply logout_safe.
  - walk. apply rg_quiet; [done|]. intros r d1 _ _. ended.
  - apply bootstrap_safe. intros Hm. by specialize (Hc Hm).
Qed.
End Safe.
