(* ===== verification/AccountsReach.v ===== *)
(** * Account requests: what holds in every state they reach

    Any number of account requests, interleaved call by call in any order, any
    call failing: user administration is never lost, a grant on another cluster
    never reaches the control plane, a removed account never signs in again.
    Last, what [Authenticate] accepts. *)

From S2P Require Import Prelude GoText GoTime Prog Rbac RbacFacts Accounts AccountsApi AccountsRun AccountsFacts AccountsCore AccountsSafe.
Local Open Scope Z_scope.

(** ** The tables and the permissions resolved from them *)

(** The user the session layer hands to the authorizer. *)
Definition sessionUser (d : Db) (id : Z) : User := MkUser id (LoadPerms (perm_rows d id)).

Lemma perm_rows_In d id cl ns p : (cl, ns, p) ∈ perm_rows d id <->
  exists b, b ∈ bindings d /\ bUser b = id /\ bCluster b = cl /\ bNamespace b = ns /\ (bRole b, p) ∈ perms d.
Proof.
  unfold perm_rows. rewrite list_elem_of_In, in_flat_map. setoid_rewrite in_map_iff. setoid_rewrite filter_In.
  setoid_rewrite String.eqb_eq. setoid_rewrite Z.eqb_eq. setoid_rewrite list_elem_of_In. split.
  - intros (b & [Hb <-] & [r q] & [= <- <- <-] & Hr & E). cbn in *. subst r. eauto 10.
  - intros (b & Hb & <- & <- & <- & Hp). exists b. split; [done|]. by exists (bRole b, p).
Qed.

Lemma primary_manages d id role p : primary id role ∈ bindings d -> (role, p) ∈ perms d -> managing p = true ->
  Can (Some (sessionUser d id)) "users:manage" false "" "" = true.
Proof.
  intros Hb Hp Hm. apply Can_holds. exists DefaultCluster, "*", p. split.
  - apply LoadPerms_holds, perm_rows_In. by exists (primary id role).
  - split; [|done]. unfold managing in Hm. apply orb_true_iff in Hm as [->%String.eqb_eq| ->%String.eqb_eq]; auto.
Qed.

(** A permission that is neither a namespaced nor a per-cluster one. *)
Definition controlPlane (p : string) : bool := negb (Namespaced p) && negb (cluster_bound p).

Lemma remotePerm_not_control p : controlPlane p = true -> remotePerm p = false.
Proof.
  unfold controlPlane, remotePerm, remoteWidePermissionsAllowed, cluster_bound, contains. cbn.
  intros [->%negb_true_iff H%negb_true_iff]%andb_true_iff. rewrite orb_false_r, !andb_true_r in *.
  repeat apply orb_false_iff in H as [? H]. rewrite !orb_false_iff. auto 10.
Qed.

(** ** Runs *)

Section Runs.
Context (env : Env) (sessionDigest : string -> string).
Context (ParseRFC3339 : string -> option time) (FormatRFC3339 : time -> string).
Local Abbreviation handle := (handle env sessionDigest ParseRFC3339 FormatRFC3339).

(** The states that some schedule of the work reaches. *)
Definition reaches (d : Db) (ws : list Work) (s : Sys) : Prop := runs (fun _ _ _ => True) (start d (map handle ws)) s.

(** As migrations, bootstrap and the requests themselves leave the tables. *)
Record installed (d : Db) : Prop := MkInstalled {
  in_admin : admin_intact (core d);
  in_remote : remote_limited (core d);
  in_managed : managed (core d);
  in_mirrored : mirrored (core d) }.

Lemma runs_mono (s1 s2 : forall B, query B -> Db -> Prop) s0 s : (forall B q d, s1 B q d -> s2 B q d) -> runs s1 s0 s -> runs s2 s0 s.
Proof using Type.
  intros H Hr. induction Hr as [|s i f s' Hr IH Ha Hs]; [constructor|]. eapply runs_step; [done| |exact Hs].
  unfold asking, admits in *. destruct (sysProcs s !! i) as [[|B [] k|]|]; auto.
Qed.

Lemma runs_sound m d ws s : sound m (core d) -> (m = PairedRun -> Forall (fun w => splitInsert w = false) ws) ->
  runs (seen m) (start d (map handle ws)) s -> sound m (core (sysDb s)).
Proof using Type.
  intros HJ Hc Hr. apply (runs_ok (J m) R (seen m)) in Hr as [H _]; [done|]. apply start_ok; [apply _|done|].
  apply Forall_map, Forall_forall. intros w Hw. eapply rg_mono; [|apply work_safe]; [by intros a h t d1|].
  intros Hm. specialize (Hc Hm). rewrite Forall_forall in Hc. by apply Hc.
Qed.

(** ** User administration is never lost *)

Lemma paired_admin d ws s : installed d -> Forall (fun w => splitInsert w = false) ws -> reaches d ws s ->
  managed (core (sysDb s)) /\ mirrored (core (sysDb s)).
Proof using Type.
  intros [H1 H2 H3 H4] Hc Hr. assert (HJ : sound PairedRun (core (sysDb s))).
  { apply (runs_sound PairedRun d ws s); [by split|done|]. eapply runs_mono; [|exact Hr]. by intros B []. }
  split; [by apply (j_managed _ _ HJ)|by apply (j_mirrored _ _ HJ)].
Qed.
End Runs.

(** C7. Accounts created only by single sign-on (or not at all): whatever deletions,
    demotions, role edits, role deletions, binding changes and sign-ins run side
    by side, and whichever of their calls fail, in every state some account still
    has users:manage in the permissions a request of theirs would be given. *)
Theorem user_administration_survives env sessionDigest ParseRFC3339 FormatRFC3339 d ws s : installed d -> Forall (fun w => splitInsert w = false) ws ->
  reaches env sessionDigest ParseRFC3339 FormatRFC3339 d ws s ->
  exists u, u ∈ users (sysDb s) /\ Can (Some (sessionUser (sysDb s) (uId u))) "users:manage" false "" "" = true.
Proof.
  intros Hd Hc Hr. destruct (paired_admin _ _ _ _ _ _ _ Hd Hc Hr) as [(id & role & _ & Hin & p & Hm & Hp) Hmi].
  pose proof (Hmi _ _ Hin) as Hb. apply acc_In in Hin as (u & Hu & <- & _). exists u. split; [done|]. by eapply primary_manages.
Qed.

(** With accounts created through the API as well, the count of user managers
    stays positive in every run in which the in-use check of a role deletion sees
    a binding for every account that has the role. *)
Lemma manager_count_positive env sessionDigest ParseRFC3339 FormatRFC3339 d ws s : installed d ->
  runs (seen CountedRun) (start d (map (handle env sessionDigest ParseRFC3339 FormatRFC3339) ws)) s -> 0 < evalQ QManagers (sysDb s).
Proof.
  intros [H1 H2 H3 H4] Hr. apply QManagers_pos. eapply (j_managed CountedRun); [|done]. eapply (runs_sound _ _ _ _ CountedRun d ws s); [by split|done|exact Hr].
Qed.

(** ** Grants on other clusters *)

(** C8. In every state of every run: whoever holds a control-plane permission has it
    through a cluster-wide binding on the home cluster, never through a grant on
    another cluster. *)
Theorem control_plane_needs_home_grant env sessionDigest ParseRFC3339 FormatRFC3339 d ws s id p :
  installed d -> reaches env sessionDigest ParseRFC3339 FormatRFC3339 d ws s ->
  controlPlane p = true -> Can (Some (sessionUser (sysDb s) id)) p false "" "" = true ->
  exists role q, primary id role ∈ bindings (sysDb s) /\ (role, q) ∈ perms (sysDb s) /\ (q = p \/ q = "*").
Proof.
  intros [H1 H2 H3 H4] Hr Hp Hc. assert (HJ : sound AnyRun (core (sysDb s))).
  { apply (runs_sound env sessionDigest ParseRFC3339 FormatRFC3339 AnyRun d ws s); [by split|done|].
    eapply runs_mono; [|exact Hr]. by intros B []. }
  apply Can_holds in Hc as (ck & nk & q & Hh & Hq & Hg). apply LoadPerms_holds, perm_rows_In in Hh as (b & Hb & <- & <- & <- & Hin).
  pose proof Hp as Hp'. unfold controlPlane in Hp'. apply andb_true_iff in Hp' as [_ Hcb%negb_true_iff]. rewrite Hcb in Hg.
  destruct (decide (bCluster b = DefaultCluster)) as [Ec|Ec].
  - exists (bRole b), q. split_and!; [|done|tauto]. unfold primary. by rewrite <- Ec, <- Hg; destruct b.
  - exfalso. destruct (j_remote _ _ HJ b Hb) as [_ Hrp]; [by split|]. specialize (Hrp q Hin).
    destruct Hq as [->| ->]; [by vm_compute in Hrp|]. by rewrite remotePerm_not_control in Hrp.
Qed.

(** ** Removed accounts *)

(** The id was given out and no account has it. *)
Definition gone (id : Z) (d : Db) : Prop := id < nextUser d /\ forall u, u ∈ users d -> uId u <> id.

Lemma update_gone id j f d : (forall u, uId (f u) = uId u) -> gone id d -> gone id (update_user j f d).1.
Proof.
  intros Hf [H1 H2]. split; [done|]. cbn. intros u Hu. apply list_elem_of_fmap in Hu as (v & -> & Hv). destruct (uId v =? j); [rewrite Hf|]; auto.
Qed.

Lemma evalX_gone x id d d' n : gone id d -> evalX x d = Some (d', n) -> gone id d'.
Proof.
  intros Hg H. destruct x; cbn [evalX] in H; try (case_match; [done|]); injection H as <- <-; try done; try by apply update_gone.
  - destruct Hg as [H1 H2]. split; cbn; [lia|]. intros u [Hu| ->%list_elem_of_singleton]%elem_of_app; [by apply H2|cbn; lia].
  - destruct Hg as [H1 H2]. split; [done|]. cbn. intros u [_ Hu]%keep_In. by apply H2.
Qed.

Definition gone_sys (id : Z) (s : Sys) : Prop := gone id (sysDb s) /\ forall i sh, sysConn s = Some (i, sh) -> gone id sh.

Lemma perform_gone {B} id f held t d (c : sql B) r held' t' d' : gone id d -> (forall sh, t = Some sh -> gone id sh) ->
  perform f held t d c = Some (r, held', t', d') -> gone id d' /\ forall sh, t' = Some sh -> gone id sh.
Proof.
  intros Hd Ht H. destruct c; cbn in H.
  - injection H as <- <- <- <-. done.
  - assert (Hv : gone id (view t d)) by (destruct t; [by apply Ht|done]).
    destruct (evalX x (view t d)) as [[d2 n]|] eqn:E; destruct f; injection H as <- <- <- <-; try done;
      (apply (evalX_gone _ id) in E; [|done]); destruct t; cbn; split; try done; by intros sh [= <-].
  - destruct t; [done|]. destruct f; injection H as <- <- <- <-; split; try done. by intros sh [= <-].
  - destruct t; destruct f; injection H as <- <- <- <-; split; try done; by apply Ht.
  - injection H as <- <- <- <-. done.
  - destruct held; [done|]. by injection H as <- <- <- <-.
  - destruct held; [|done]. by injection H as <- <- <- <-.
Qed.

Lemma step_gone id i f s s' : gone_sys id s -> step i f s = Some s' -> gone_sys id s'.
Proof.
  intros [Hd Hc] H. unfold step in H. destruct (sysProcs s !! i) as [[|B c k|]|]; try done.
  destruct (waits s i c); [done|]. destruct (perform _ _ _ _ _) as [[[[r held] t] d]|] eqn:Hp; [|done]. injection H as <-.
  apply (perform_gone id) in Hp as [H1 H2]; [|done|].
  - split; [done|]. cbn. intros j sh. destruct t as [sh'|].
    + intros [= <- <-]. by apply H2.
    + destruct (connFree s i); [done|]. apply Hc.
  - intros sh Ht. unfold txOf in Ht. destruct (sysConn s) as [[j sh']|]; [|done]. destruct (Nat.eqb j i); [|done].
    injection Ht as <-. by eapply Hc.
Qed.

Lemma runs_gone id s0 s : gone_sys id s0 -> runs (fun _ _ _ => True) s0 s -> gone_sys id s.
Proof. intros H0 Hr. induction Hr as [|s i f s' Hr IH _ Hs]; [done|]. by eapply step_gone. Qed.

Lemma session_row digest d u ss : evalQ (QSession digest) d = Some (u, ss) -> u ∈ users d /\ ss ∈ sessions d /\ sToken ss = digest /\ sUser ss = uId u.
Proof.
  cbn. destruct (List.find _ (sessions d)) as [s0|] eqn:Es; [|done]. cbn. destruct (List.find _ (users d)) as [u0|] eqn:Eu; [|done].
  intros [= <- <-]. apply find_some in Es as [Hs E1], Eu as [Hu E2]. apply String.eqb_eq in E1. apply Z.eqb_eq in E2.
  split_and!; [by apply list_elem_of_In|by apply list_elem_of_In|done|done].
Qed.

(** C17. Once an account is gone, no session cookie, not even one whose row a sign-in
    in flight still inserts, leads to it again, whatever runs on: ids are not
    reused and the lookup joins the account row. *)
Theorem removed_account_stays_out s0 s id digest u ss : sysConn s0 = None -> gone id (sysDb s0) ->
  runs (fun _ _ _ => True) s0 s -> evalQ (QSession digest) (sysDb s) = Some (u, ss) -> uId u <> id.
Proof.
  intros Hc Hg Hr Hq. destruct (runs_gone id s0 s) as [[_ H] _]; [|done|].
  - split; [done|]. by rewrite Hc.
  - apply H. by destruct (session_row _ _ _ _ Hq).
Qed.

(** ** Authentication *)

(** A program on its own, the fates of its first calls given; the rest work. *)
Fixpoint solo {A} (fs : list fate) (held : bool) (t : option Db) (d : Db) (p : P A) : option (A * Db) :=
  match p with
  | Ret a => Some (a, d)
  | Call c k =>
      match perform (hd Works fs) held t d c with
      | Some (r, held', t', d') => solo (tl fs) held' t' d' (k r)
      | None => None
      end
  | OutOfFuel => None
  end.

(** The cookie's digest is that of a stored session whose account exists, which
    has not expired, and whose CSRF token a mutating request repeats. *)
Definition live (sessionDigest : string -> string) (ParseRFC3339 : string -> option time)
    (d : Db) (cookie : option string) (method csrfHeader : string) (now : time) (u : UserRow) : Prop :=
  exists c ss exp, cookie = Some c /\ evalQ (QSession (sessionDigest c)) d = Some (u, ss) /\
    ParseRFC3339 (sExpires ss) = Some exp /\ now <= exp /\ (isMutating method = true -> csrfHeader = sCsrf ss).

(** C16. Whatever calls fail, [Authenticate] lets a request through only with a live
    session, with the permissions the tables give its user and without a change
    to them; with no failure it lets every such request through. *)
Theorem Authenticate_spec sessionDigest ParseRFC3339 d cookie method csrfHeader now u ps :
  (forall fs d', solo fs false None d (Authenticate sessionDigest ParseRFC3339 cookie method csrfHeader now) = Some (Ok (u, ps), d') ->
     live sessionDigest ParseRFC3339 d cookie method csrfHeader now u /\ ps = LoadPerms (perm_rows d (uId u)) /\ d' = d) /\
  (live sessionDigest ParseRFC3339 d cookie method csrfHeader now u -> ps = LoadPerms (perm_rows d (uId u)) ->
     solo [] false None d (Authenticate sessionDigest ParseRFC3339 cookie method csrfHeader now) = Some (Ok (u, ps), d)).
Proof.
  split.
  - intros fs d' H. destruct cookie as [c|]; [|done]. cbn -[evalQ perform] in H. unfold perform in H.
    destruct (hd Works fs); [|done|done]. cbn -[evalQ] in H.
    destruct (evalQ (QSession (sessionDigest c)) d) as [[u0 ss]|] eqn:Eq; [|done]. cbn -[evalQ] in H.
    destruct (ParseRFC3339 (sExpires ss)) as [exp|] eqn:Ep.
    + destruct (After now exp) eqn:Ea; cbn -[evalQ evalX] in H; [by repeat (case_match; try done)|].
      destruct (hd Works (tl fs)); cbn -[evalQ] in H; [|done|done].
      destruct (isMutating method && negb (String.eqb csrfHeader (sCsrf ss))) eqn:Em; cbn -[evalQ] in H; [done|].
      injection H as <- <- <-. split; [|done]. exists c, ss, exp. split_and!; [done|done|done|unfold After in Ea; lia|].
      intros Hmu. rewrite Hmu in Em. cbn in Em. by apply negb_false_iff, String.eqb_eq in Em.
    + cbn -[evalQ evalX] in H. by repeat (case_match; try done).
  - intros (c & ss & exp & -> & Eq & Ep & Hle & Hcs) ->. cbn -[evalQ]. rewrite Eq. cbn -[evalQ]. rewrite Ep.
    assert (Ea : After now exp = false) by (unfold After; lia). rewrite Ea. cbn -[evalQ].
    destruct (isMutating method) eqn:Em; cbn -[evalQ]; [|done]. rewrite Hcs by done. by rewrite String.eqb_refl.
Qed.
