(* ===== verification/AccountsScenario.v ===== *)
(** * Account requests: runs on concrete tables

    An installation with two administrators and a custom role, requests that race
    for its last managers, and two runs that show where the guards end: an account
    whose insertion is not followed by its binding, and a namespace grant that
    outlives its role. *)

From S2P Require Import Prelude GoText GoTime Prog Rbac RbacFacts Accounts AccountsApi AccountsRun AccountsFacts AccountsCore AccountsSafe AccountsReach.
Local Open Scope Z_scope.

Definition demo_env : Env := MkEnv (fun _ => true) ["gameplane-games"] ["local"; "edge"] true.
Definition demo_digest (s : string) : string := "digest of " +:+ s.
Definition demo_parse (s : string) : option time := if String.eqb s "later" then Some 1000 else None.
Definition demo_format (_ : time) : string := "later".

(** Two administrators, the first of them linked to an identity provider. *)
Definition demo_db : Db :=
  MkDb [MkUserRow 1 "root" "Root" "root@x" "admin" None; MkUserRow 2 "bob" "Bob" "bob@x" "keeper" None]
    [primary 1 "admin"; primary 2 "keeper"; MkBinding 2 "viewer" "edge" "*"]
    [MkRole "admin" "" true; MkRole "viewer" "" true; MkRole "keeper" "" false; MkRole "spare" "" false]
    [("admin", "*"); ("viewer", "servers:read"); ("viewer", "cluster:read"); ("keeper", "users:manage"); ("keeper", "roles:manage");
     ("spare", "users:manage")]
    [MkSession (demo_digest "r") 1 "csrf" "later"; MkSession (demo_digest "b") 2 "csrf" "later"]
    [MkLink 1 "idp" "root-sub" "root@x"] [] [] [] [] 3.

Definition api (cookie method : string) (r : Request) : Work := Api (Some cookie) method "csrf" 0 (fun _ _ => None) r.
Definition demo_handle := handle demo_env demo_digest demo_parse demo_format.
Definition demo_run (ws : list Work) (sched : list (nat * fate)) : Sys :=
  default (start demo_db []) (follow sched (start demo_db (map demo_handle ws))).

(** Membership in concrete lists, both ways. *)
Ltac listed := cbn; repeat first [apply list_elem_of_here|apply list_elem_of_further].
Ltac each H := unfold core, roleKey, account in H; cbn in H; repeat (apply elem_of_cons in H as [H|H]); [..|by apply elem_of_nil in H].

Lemma demo_installed : installed demo_db.
Proof.
  split.
  - split_and!; [listed| |listed]. intros bi H. each H; congruence.
  - intros b Hb [Hns Hcl]. each Hb; subst b; try done. split; [exists true; listed|]. intros p H. each H; first [congruence|by injection H as ->].
  - exists 1, "admin". split_and!; [done|listed|]. exists "*". split; [done|listed].
  - intros id role H. each H; injection H as -> ->; listed.
Qed.

Lemma demo_reaches ws sched s : follow sched (start demo_db (map demo_handle ws)) = Some s ->
  reaches demo_env demo_digest demo_parse demo_format demo_db ws s.
Proof. apply follow_runs. Qed.

(** [n] calls of thread [i] that all work. *)
Definition turns (i n : nat) : list (nat * fate) := replicate n (i, Works).

(** ** The race for the last manager *)

(** Bob deletes the administrator while the administrator takes the keeper role
    from Bob: the calls alternate until the mutex decides. *)
Definition demo_race : list Work := [api "b" "DELETE" (RDeleteUser "1" "now"); api "r" "PATCH" (RUpdateUser "2" (Some (MkUpdateUser None None (Some "viewer"))))].
Definition demo_race_sched : list (nat * fate) := turns 0 2 ++ turns 1 3 ++ turns 0 15 ++ turns 1 5.
Definition demo_race_end : Sys := demo_run demo_race demo_race_sched.

Definition answer (s : Sys) (i : nat) : option reply :=
  match (sysProcs s !! i : option (P reply)) with Some (Ret r) => Some r | _ => None end.

(** The run is complete: the deletion went through, the demotion was refused. *)
Lemma demo_race_follow : follow demo_race_sched (start demo_db (map demo_handle demo_race)) = Some demo_race_end.
Proof. unfold demo_race_end, demo_run. destruct (follow _ _) as [s|] eqn:E; [done|]. by vm_compute in E. Qed.
Lemma demo_race_answers : answer demo_race_end 0 = Some NoContent /\
  answer demo_race_end 1 = Some (Msg "server.users.cannot_demote_last_manager").
Proof. split; vm_compute; reflexivity. Qed.

(** [user_administration_survives] on that run. *)
Lemma user_administration_survives_witness :
  exists u, u ∈ users (sysDb demo_race_end) /\ Can (Some (sessionUser (sysDb demo_race_end) (uId u))) "users:manage" false "" "" = true.
Proof.
  apply (user_administration_survives demo_env demo_digest demo_parse demo_format demo_db demo_race).
  - exact demo_installed.
  - repeat constructor.
  - apply (demo_reaches demo_race demo_race_sched), demo_race_follow.
Defined.

(** Bob's grant on the edge cluster gives him nothing of the control plane; his
    users:manage comes from the home cluster. *)
Lemma control_plane_needs_home_grant_witness :
  exists role q, primary 2 role ∈ bindings (sysDb demo_race_end) /\ (role, q) ∈ perms (sysDb demo_race_end) /\ (q = "users:manage" \/ q = "*").
Proof.
  apply (control_plane_needs_home_grant demo_env demo_digest demo_parse demo_format demo_db demo_race).
  - exact demo_installed.
  - apply (demo_reaches demo_race demo_race_sched), demo_race_follow.
  - vm_compute. reflexivity.
  - vm_compute. reflexivity.
Defined.

(** The administrator's account is gone at the end of the race; a sign-in that
    was under way inserts its session row afterwards. *)
Definition late_session : list (nat * fate) := turns 0 1.
Definition late_start : Sys :=
  start (sysDb demo_race_end) [pbind (Create demo_digest demo_format "late" "csrf" 0 1) (fun _ => Ret NoContent)].
Definition late_end : Sys := default late_start (follow late_session late_start).
Lemma late_follow : follow late_session late_start = Some late_end.
Proof. unfold late_end. destruct (follow _ _) as [s|] eqn:E; [done|]. by vm_compute in E. Qed.
Lemma late_row : existsb (fun s => sUser s =? 1) (sessions (sysDb late_end)) = true /\ evalQ (QSession (demo_digest "late")) (sysDb late_end) = None.
Proof. split; vm_compute; reflexivity. Qed.

Lemma removed_account_stays_out_witness :
  uId (MkUserRow 2 "bob" "Bob" "bob@x" "keeper" None) <> 1.
Proof.
  apply (removed_account_stays_out late_start late_end 1 (demo_digest "b") _ (MkSession (demo_digest "b") 2 "csrf" "later")).
  - reflexivity.
  - split; [vm_compute; reflexivity|]. intros u Hu. vm_compute in Hu. each Hu; by subst u.
  - apply (follow_runs late_session), late_follow.
  - vm_compute. reflexivity.
Defined.

(** ** Runs in which role deletions count every holder *)

Definition coveredb (role : string) (d : Db) : bool :=
  forallb (fun u => negb (String.eqb (uRole u) role) || existsb (fun b => (bUser b =? uId u) && String.eqb (bRole b) role) (bindings d)) (users d).
Lemma coveredb_ok role d : coveredb role d = true -> covered role (core d).
Proof.
  intros H id (u & Hu & <- & Er)%acc_In. unfold coveredb in H. rewrite forallb_forall in H. apply list_elem_of_In in Hu. specialize (H u Hu).
  rewrite Er, String.eqb_refl in H. cbn in H. apply existsb_exists in H as (b & Hb & [E1%Z.eqb_eq E2%String.eqb_eq]%andb_true_iff).
  exists b. split; [by apply list_elem_of_In|done].
Qed.

Definition countsAll {B} (c : sql B) (d : Db) : bool :=
  match c with SRead q => match q with QInUse role => coveredb role d | _ => true end | _ => true end.
Definition counted (s : Sys) (i : nat) : bool :=
  match (sysProcs s !! i : option (P reply)) with
  | Some (Call c _) => countsAll c (view (txOf s i) (sysDb s))
  | _ => true
  end.
Fixpoint followCounted (sched : list (nat * fate)) (s : Sys) : option Sys :=
  match sched with
  | [] => Some s
  | (i, f) :: sched => if counted s i then match step i f s with Some s' => followCounted sched s' | None => None end else None
  end.
Lemma countsAll_ok {B} (c : sql B) d : countsAll c d = true -> admits (seen CountedRun) c d.
Proof. destruct c as [A q| | | | | |]; [|done..]. cbn. destruct q; cbn; try done. intros H _. by apply coveredb_ok. Qed.
Lemma followCounted_runs sched : forall s s', followCounted sched s = Some s' -> runs (seen CountedRun) s s'.
Proof.
  induction sched as [|[i f] sched IH]; intros s s' H; cbn in H; [injection H as <-; constructor|].
  destruct (counted s i) eqn:Ec; [|done]. destruct (step i f s) as [s1|] eqn:E; [|done].
  eapply runs_trans; [|by apply IH]. eapply runs_step; [constructor| |exact E]. unfold counted in Ec. unfold asking.
  destruct (sysProcs s !! i) as [[|B c k|]|]; try done. by apply countsAll_ok.
Qed.

(** Bob creates an account with the spare role, fails to delete the role while
    it is in use, and the administrator deletes Bob. *)
Definition demo_roles : list Work :=
  [api "b" "POST" (RCreateUser (Some (MkCreateUser "carol" "Carol" "" "" "spare")) None); api "b" "DELETE" (RDeleteRole "spare");
   api "r" "DELETE" (RDeleteUser "2" "now")].
Definition demo_roles_sched : list (nat * fate) := turns 0 6 ++ turns 1 6 ++ turns 2 17.
Definition demo_roles_end : Sys := default (start demo_db []) (followCounted demo_roles_sched (start demo_db (map demo_handle demo_roles))).
Lemma demo_roles_follow : followCounted demo_roles_sched (start demo_db (map demo_handle demo_roles)) = Some demo_roles_end.
Proof. unfold demo_roles_end. destruct (followCounted _ _) as [s|] eqn:E; [done|]. by vm_compute in E. Qed.
Lemma demo_roles_answers : answer demo_roles_end 1 = Some (Msg "server.roles.role_in_use") /\ answer demo_roles_end 2 = Some NoContent.
Proof. split; vm_compute; reflexivity. Qed.

Lemma manager_count_positive_witness : 0 < evalQ QManagers (sysDb demo_roles_end).
Proof.
  apply (manager_count_positive demo_env demo_digest demo_parse demo_format demo_db demo_roles).
  - exact demo_installed.
  - apply followCounted_runs with (sched := demo_roles_sched), demo_roles_follow.
Defined.

(** ** Where the guards end *)

(** One administrator, known to the identity provider. *)
Definition demo_single : Db := set_users [MkUserRow 1 "root" "Root" "root@x" "admin" None] (set_bindings [primary 1 "admin"] demo_db).

(** The binding of a new account is not inserted because the call fails; the
    account counts as a manager all the same, so the next sign-in of the only
    administrator, whose group now maps to viewer, demotes them.  No one is left
    who can manage users. *)
Definition lockout_works : list Work :=
  [api "r" "POST" (RCreateUser (Some (MkCreateUser "carol" "Carol" "" "" "spare")) None);
   Callback "idp" "root-sub" "root@x" "Root" "viewer" "players" true "s2" "csrf" 0].
Definition lockout_sched : list (nat * fate) := turns 0 5 ++ [(0%nat, Refused)] ++ turns 1 14.

Definition lockout_end : Sys := default (start demo_single []) (follow lockout_sched (start demo_single (map demo_handle lockout_works))).
Lemma half_created_account_locks_out : answer lockout_end 1 = Some (Redirect "/") /\ evalQ QManagers (sysDb lockout_end) = 1 /\
  forallb (fun u => negb (Can (Some (sessionUser (sysDb lockout_end) (uId u))) "users:manage" false "" "")) (users (sysDb lockout_end)) = true.
Proof. split_and!; vm_compute; reflexivity. Qed.

(** A grant in a namespace is inserted after its role has been deleted. *)
Definition orphan_works : list Work :=
  [api "b" "POST" (RAddBinding "2" (Some ("spare", "gameplane-games", "local"))); api "b" "DELETE" (RDeleteRole "spare")].
Definition orphan_sched : list (nat * fate) := turns 0 5 ++ turns 1 11 ++ turns 0 2.

Definition orphan_end : Sys := demo_run orphan_works orphan_sched.
Lemma namespace_grant_outlives_role : answer orphan_end 1 = Some NoContent /\
  existsb (fun b => String.eqb (bRole b) "spare") (bindings (sysDb orphan_end)) = true /\ evalQ (QRoleExists "spare") (sysDb orphan_end) = false.
Proof. split_and!; vm_compute; reflexivity. Qed.

(** A sign-in that has verified the old password stores its session after the
    password was reset and the sessions of the account were ended. *)
Definition stale_db : Db := set_users [MkUserRow 1 "root" "Root" "root@x" "admin" None; MkUserRow 2 "bob" "Bob" "bob@x" "keeper" (Some "old")] demo_db.
Definition stale_works : list Work :=
  [Login true "application/json" (Some ("bob", "old")) true (fun pw h => Some (String.eqb pw h)) "stolen" "csrf" 0;
   api "r" "POST" (RResetPassword "2" (Some "long enough password") (Some "new"))].
Definition stale_sched : list (nat * fate) := turns 0 1 ++ turns 1 4 ++ turns 0 3.
Definition stale_end : Sys := default (start stale_db []) (follow stale_sched (start stale_db (map demo_handle stale_works))).
Lemma old_password_session_survives : answer stale_end 1 = Some NoContent /\
  (uHash <$> (evalQ (QUserNamed "bob") (sysDb stale_end))) = Some (Some "new") /\
  (uId ∘ fst <$> evalQ (QSession (demo_digest "stolen")) (sysDb stale_end)) = Some 2.
Proof. split_and!; vm_compute; reflexivity. Qed.

(** ** Authentication *)

Lemma Authenticate_spec_witness :
  solo [] false None demo_db (Authenticate demo_digest demo_parse (Some "r") "POST" "csrf" 0) =
  Some (Ok (MkUserRow 1 "root" "Root" "root@x" "admin" None, LoadPerms (perm_rows demo_db 1)), demo_db).
Proof.
  apply (Authenticate_spec demo_digest demo_parse demo_db (Some "r") "POST" "csrf" 0 (MkUserRow 1 "root" "Root" "root@x" "admin" None)).
  - exists "r", (MkSession (demo_digest "r") 1 "csrf" "later"), 1000. split_and!; [reflexivity|vm_compute; reflexivity|reflexivity|lia|done].
  - reflexivity.
Defined.
