(* ===== verification/Shares.v ===== *)
(** * api: share links

    A share link lets anyone who has its token see, and if it says so wake, one
    game server without an account: the store of src/api/internal/db/shares.go and
    the handlers of src/api/internal/handlers/shares.go, with the patch
    precondition of server_identity.go, as programs of SQL and cluster calls.
    Random ids and tokens, the digest, the clock's readings (in the order they are
    taken) and RFC 3339 are arguments. *)

From S2P Require Import Prelude GoText GoTime GoDate Prog Rbac.
From Stdlib Require Import QArith Qround.
Local Open Scope Z_scope.
Local Open Scope prog_scope.

(** ** Data *)

(** A row of share_links. *)
Record ShareRow := MkShareRow {
  kId : string; kCluster : string; kNamespace : string; kServer : string; kUID : string; kCreatedBy : Z; kCanStart : bool;
  kHash : string; kExpires : option string; kRevoked : option string; kCreated : string; kLastUsed : option string }.

(** [ShareLink] *)
Record ShareLink := MkShareLink {
  slID : string; slCluster : string; slNamespace : string; slServerName : string; slServerUID : string; slCreatedBy : Z;
  slCanStart : bool; slExpiresAt : option time; slRevokedAt : option time; slCreatedAt : time; slLastUsed : option time }.

(** A value of an unstructured object; a JSON number is a [float64] or, decoded by
    the API machinery, an integer. *)
#[warnings="-register-all"]
Inductive val :=
| VNull
| VStr (s : string)
| VBool (b : bool)
| VInt (z : Z)
| VFloat (q : Q)
| VList (l : list val)
| VMap (m : list (string * val)).

(** What the handlers read of a GameServer: its identity, annotations and
    [status]. *)
Record serverObj := MkServerObj { oUID : string; oRV : string; oCreated : time; oAnnotations : option (gmap string string); oStatus : val }.

Inductive kerr := NotFoundErr | ConflictErr | InvalidErr | OtherErr.

Inductive scall : Type -> Type :=
| SLookup (hash : string) : scall (option ShareRow)
| SInsert (r : ShareRow) : scall Z
| SList (cluster ns server : string) : scall (list ShareRow)
| SRevoke (at_ id cluster ns server : string) : scall Z
| SRevokeServer (at_ cluster ns server : string) : scall Z
| STouch (at_ id : string) : scall Z
| KGet (cluster ns server : string) : scall serverObj
| KPatch (cluster ns server uid rv wakeToken : string) : scall unit.

Abbreviation SP := (prog scall kerr).

Section Shares.
Context (ParseRFC3339 : string -> option time) (FormatRFC3339 : time -> string).
Context (ParseDuration : string -> option duration) (hashShareLinkToken : string -> string).

(** ** db/shares.go *)

Definition orLocal (cluster : string) : string := if String.eqb cluster "" then "local" else cluster.

Inductive share_err := ErrShareLinkInvalid | ErrShareLinkExpiryInvalid | ErrShareLinkNotFound | ErrShareOther.

(** [CreateShareLinkForServer] with the random [id] and [rawToken]. *)
Definition CreateShareLinkForServer (id rawToken : string) (now : time) (cluster ns serverName serverUID : string) (createdBy : Z)
    (canStart : bool) (expiresAt : option time) : SP (result share_err ShareLink) :=
  let cluster := orLocal cluster in
  if match expiresAt with Some e => IsZero e || negb (After e now) | None => false end then Ret (Err ErrShareLinkExpiryInvalid)
  else
    let! r := call (SInsert (MkShareRow id cluster ns serverName serverUID createdBy canStart (hashShareLinkToken rawToken)
                      (FormatRFC3339 <$> expiresAt) None (FormatRFC3339 now) None)) in
    match r with
    | Err _ => Ret (Err ErrShareOther)
    | Ok _ => Ret (Ok (MkShareLink id cluster ns serverName serverUID createdBy canStart expiresAt None now None))
    end.

(** [CreateShareLink]: a link bound to no UID. *)
Definition CreateShareLink (id rawToken : string) (now : time) (cluster ns serverName : string) (createdBy : Z) (canStart : bool)
    (expiresAt : option time) : SP (result share_err ShareLink) :=
  CreateShareLinkForServer id rawToken now cluster ns serverName EmptyString createdBy canStart expiresAt.

(** The timestamps of a row: the outer [None] is a parse error. *)
Definition parseOpt (s : option string) : option (option time) :=
  match s with None => Some None | Some s => Some <$> ParseRFC3339 s end.
Definition parseLink (r : ShareRow) : option ShareLink :=
  e ← parseOpt (kExpires r);
  c ← ParseRFC3339 (kCreated r);
  v ← parseOpt (kRevoked r);
  u ← parseOpt (kLastUsed r);
  Some (MkShareLink (kId r) (kCluster r) (kNamespace r) (kServer r) (kUID r) (kCreatedBy r) (kCanStart r) e v c u).

(** The two checks at the end of [LookupShareLink]. *)
Definition linkLive (now : time) (l : ShareLink) : bool :=
  match slRevokedAt l with
  | Some _ => false
  | None => match slExpiresAt l with Some e => negb (After now e) | None => true end
  end.

Definition LookupShareLink (rawToken : string) (now : time) : SP (result share_err ShareLink) :=
  let! r := call (SLookup (hashShareLinkToken rawToken)) in
  match r with
  | Err _ => Ret (Err ErrShareOther)
  | Ok None => Ret (Err ErrShareLinkInvalid)
  | Ok (Some row) =>
      match parseLink row with
      | None => Ret (Err ErrShareOther)
      | Some l => if linkLive now l then Ret (Ok l) else Ret (Err ErrShareLinkInvalid)
      end
  end.

Definition ListShareLinks (cluster ns serverName : string) : SP (result share_err (list ShareLink)) :=
  let! r := call (SList (orLocal cluster) ns serverName) in
  match r with
  | Err _ => Ret (Err ErrShareOther)
  | Ok rows => Ret (match mapM parseLink rows with Some ls => Ok ls | None => Err ErrShareOther end)
  end.

Definition RevokeShareLink (now : time) (cluster ns serverName id : string) : SP (result share_err unit) :=
  let! r := call (SRevoke (FormatRFC3339 now) id (orLocal cluster) ns serverName) in
  match r with
  | Err _ => Ret (Err ErrShareOther)
  | Ok n => Ret (if n =? 0 then Err ErrShareLinkNotFound else Ok ())
  end.

Definition RevokeShareLinksForServer (now : time) (cluster ns serverName : string) : SP (result share_err unit) :=
  let! r := call (SRevokeServer (FormatRFC3339 now) (orLocal cluster) ns serverName) in
  match r with Err _ => Ret (Err ErrShareOther) | Ok _ => Ret (Ok ()) end.

Definition TouchShareLink (now : time) (id : string) : SP (result share_err unit) :=
  let! r := call (STouch (FormatRFC3339 now) id) in
  match r with Err _ => Ret (Err ErrShareOther) | Ok _ => Ret (Ok ()) end.

(** ** handlers/shares.go: what is shown of a server *)

(** [unstructured.NestedFieldNoCopy]: the value at a path, when every step of it
    is a map that has the key. *)
Fixpoint nested (v : val) (path : list string) : option val :=
  match path with
  | [] => Some v
  | f :: path =>
      match v with
      | VMap m => match List.find (fun kv => String.eqb kv.1 f) m with Some kv => nested kv.2 path | None => None end
      | _ => None
      end
  end.
Definition nestedString (v : val) (f : string) : string := match nested v [f] with Some (VStr s) => s | _ => EmptyString end.
Definition nestedBool (v : val) (f : string) : bool := match nested v [f] with Some (VBool b) => b | _ => false end.

Definition getPhase (obj : serverObj) : string :=
  match nested (oStatus obj) ["phase"] with Some (VStr s) => s | _ => "Unknown" end.

(** [int32(v)] of a number within the bound, truncated. *)
Definition intWithin (hi : Z) (v : val) : option Z :=
  match v with
  | VInt z => if (z <? 0) || (hi <? z) then None else Some z
  | VFloat q => if negb (Qle_bool 0 q) || negb (Qle_bool q (inject_Z hi)) then None else Some (Qfloor q)
  | _ => None
  end.

Definition getPlayersOnline (obj : serverObj) : option Z :=
  match nested (oStatus obj) ["agent"; "playersOnline"] with Some v => intWithin 2147483647 v | None => None end.

Definition nestedPort (ep : val) : Z :=
  match nested ep ["port"] with Some v => default 0 (intWithin 65535 v) | None => 0 end.

Record shareAddr := MkShareAddr { saHost : string; saPort : Z }.

(** One endpoint of the two passes of [getPublicAddress]. *)
Definition endpointAddr (tunnelOnly : bool) (ep : val) : option shareAddr :=
  match ep with
  | VMap _ =>
      if tunnelOnly && String.eqb (nestedString ep "tunnelProvider") "" then None
      else if nestedBool ep "private" then None
      else
        let host := nestedString ep "host" in
        let port := nestedPort ep in
        if negb (String.eqb host "") && (0 <? port) then Some (MkShareAddr host port) else None
  | _ => None
  end.
Fixpoint firstAddr (tunnelOnly : bool) (eps : list val) : option shareAddr :=
  match eps with
  | [] => None
  | ep :: eps => match endpointAddr tunnelOnly ep with Some a => Some a | None => firstAddr tunnelOnly eps end
  end.
Definition getPublicAddress (obj : serverObj) : option shareAddr :=
  match nested (oStatus obj) ["endpoints"] with
  | Some (VList eps) => match firstAddr true eps with Some a => Some a | None => firstAddr false eps end
  | _ => None
  end.

Record sharePublicResp := MkPublic { spServerName : string; spStatus : string; spAddress : option shareAddr; spPlayersOnline : option Z }.
Record shareResp := MkShareResp {
  srID : string; srCreatedAt : string; srExpiresAt : option string; srRevokedAt : option string; srCanStart : bool; srToken : string }.

(** The replies: a message, an error, the uniform 404, a listing, the public view,
    202 and 204. *)
Inductive share_reply :=
| SMsg (id : string)
| SFail
| SNotFound
| SShares (l : list shareResp)
| SShare (r : shareResp)
| SView (v : sharePublicResp)
| SAccepted
| SNoContent.

(** ** handlers/shares.go: handlers *)

(** [isServerOwner] *)
Definition isServerOwner (obj : serverObj) (userID : Z) : bool :=
  match oAnnotations obj with
  | None => false
  | Some ann =>
      let owner := default EmptyString (ann !! "gameplane.local/owner-id") in
      if String.eqb owner "" then false
      else match ParseInt64 owner with Some id => id =? userID | None => false end
  end.

(** The beginning the three owner handlers share: the caller, the namespace and
    the cluster ([None] when the selector is refused), and ownership. *)
Definition asOwner (caller : option Z) (ns cluster : option string) (name : string)
    (k : Z -> string -> string -> serverObj -> SP share_reply) : SP share_reply :=
  match caller with
  | None => Ret (SMsg "server.common.unauthenticated")
  | Some u =>
  match ns, cluster with
  | Some ns, Some cl =>
      let! r := call (KGet cl ns name) in
      match r with
      | Err _ => Ret SFail
      | Ok obj => if negb (isServerOwner obj u) then Ret (SMsg "server.forbidden") else k u ns cl obj
      end
  | _, _ => Ret SFail
  end
  end.

Record createShareReq := MkCreateShare { csExpiresIn : option string; csExpiresAt : option string; csNeverExpires : option bool; csCanStart : bool }.

(** The expiry a request asks for, or the message that refuses it. *)
Definition wantedExpiry (now : time) (body : createShareReq) : result string (option time) :=
  let hasExpiresAt := match csExpiresAt body with Some s => negb (String.eqb s "") | None => false end in
  let hasNeverExpires := match csNeverExpires body with Some b => b | None => false end in
  if hasExpiresAt && hasNeverExpires then Err "server.shares.expiry_mutually_exclusive"
  else if hasExpiresAt then
    match ParseRFC3339 (default EmptyString (csExpiresAt body)) with
    | Some t => Ok (Some t)
    | None => Err "server.shares.invalid_expires_at"
    end
  else if hasNeverExpires then Ok None
  else match csExpiresIn body with
  | Some s =>
      if String.eqb s "" then Ok (Some (now + 7 * Day))
      else match ParseDuration s with
      | Some d => Ok (Some (now + d))
      | None => Err "server.shares.invalid_expires_in"
      end
  | None => Err "server.shares.expiry_required"
  end.

Definition respOf (token : string) (l : ShareLink) : shareResp :=
  MkShareResp (slID l) (FormatRFC3339 (slCreatedAt l)) (FormatRFC3339 <$> slExpiresAt l) (FormatRFC3339 <$> slRevokedAt l) (slCanStart l) token.

Definition createShareHandler (caller : option Z) (ns cluster : option string) (name : string) (body : option createShareReq)
    (id rawToken : string) (now minted : time) : SP share_reply :=
  asOwner caller ns cluster name (fun u ns cl obj =>
    match body with
    | None => Ret (SMsg "server.bad_request")
    | Some body =>
        match wantedExpiry now body with
        | Err msg => Ret (SMsg msg)
        | Ok expiresAt =>
            let! r := CreateShareLinkForServer id rawToken minted cl ns name (oUID obj) u (csCanStart body) expiresAt in
            match r with
            | Err ErrShareLinkExpiryInvalid => Ret (SMsg "server.shares.expires_at_in_past")
            | Err _ => Ret SFail
            | Ok link => Ret (SShare (respOf rawToken link))
            end
        end
    end).

Definition listSharesHandler (caller : option Z) (ns cluster : option string) (name : string) : SP share_reply :=
  asOwner caller ns cluster name (fun u ns cl obj =>
    let! r := ListShareLinks cl ns name in
    match r with
    | Err _ => Ret SFail
    | Ok links => Ret (SShares (map (respOf EmptyString) links))
    end).

Definition revokeShareHandler (caller : option Z) (ns cluster : option string) (name id : string) (now : time) : SP share_reply :=
  asOwner caller ns cluster name (fun u ns cl obj =>
    let! r := RevokeShareLink now cl ns name id in
    match r with
    | Err ErrShareLinkNotFound => Ret (SMsg "server.not_found")
    | Err _ => Ret SFail
    | Ok _ => Ret SNoContent
    end).

(** [serverReplacedSinceLink] *)
Definition serverReplacedSinceLink (obj : serverObj) (link : ShareLink) : bool :=
  if negb (String.eqb (slServerUID link) "") then negb (String.eqb (oUID obj) (slServerUID link))
  else negb (IsZero (oCreated obj)) && After (oCreated obj) (slCreatedAt link).

(** The server a link leads to on a registered cluster, if it still is the one. *)
Definition sharedServer (clusters : list string) (link : ShareLink) (k : string -> serverObj -> SP share_reply) : SP share_reply :=
  let targetCluster := if String.eqb (slCluster link) "" then DefaultCluster else slCluster link in
  if negb (contains clusters targetCluster) then Ret SNotFound
  else
    let! r := call (KGet targetCluster (slNamespace link) (slServerName link)) in
    match r with
    | Err _ => Ret SNotFound
    | Ok obj => if serverReplacedSinceLink obj link then Ret SNotFound else k targetCluster obj
    end.

Definition resolveShareHandler (clusters : list string) (token : string) (now touched : time) : SP share_reply :=
  if String.eqb token "" then Ret SNotFound
  else
    let! r := LookupShareLink token now in
    match r with
    | Err ErrShareLinkInvalid => Ret SNotFound
    | Err _ => Ret SFail
    | Ok link =>
        let! _ := TouchShareLink touched (slID link) in
        sharedServer clusters link (fun _ obj =>
          Ret (SView (MkPublic (slServerName link) (getPhase obj) (getPublicAddress obj) (getPlayersOnline obj))))
    end.

(** [startShareHandler]; the patch carries the UID and version of the object that
    was checked ([conditionObjectPatch]). *)
Definition startShareHandler (clusters : list string) (token : string) (now touched woken : time) : SP share_reply :=
  if String.eqb token "" then Ret SNotFound
  else
    let! r := LookupShareLink token now in
    match r with
    | Err ErrShareLinkInvalid => Ret SNotFound
    | Err _ => Ret SFail
    | Ok link =>
        if negb (slCanStart link) then Ret SNotFound
        else
          let! _ := TouchShareLink touched (slID link) in
          sharedServer clusters link (fun cl obj =>
            let! r := call (KPatch cl (slNamespace link) (slServerName link) (oUID obj) (oRV obj) (Itoa (woken - 62135596800 * Second))) in
            match r with
            | Err (ConflictErr | InvalidErr | NotFoundErr) => Ret SNotFound
            | Err OtherErr => Ret SFail
            | Ok _ => Ret SAccepted
            end)
    end.
End Shares.
