(* ===== verification/SharesFacts.v ===== *)
(** * Properties of share links

    The share_links table and the servers of the clusters as a world that others
    change between any two calls of a request: owners mint and revoke, accounts
    and servers are deleted, servers are replaced.  A wake that goes through
    reaches the server the link was minted for; a revoked link stays revoked; a
    minted token leads to its server until it is revoked or expires. *)

From S2P Require Import Prelude GoText GoTime GoDate Prog Rbac RbacFacts Shares.
Local Open Scope Z_scope.

(** ** The world *)

Definition skey : Type := string * string * string.
Record World := MkWorld { wRows : list ShareRow; wServers : gmap skey serverObj; wVersion : Z }.

Definition put_rows (rs : list ShareRow) (w : World) : World := MkWorld rs (wServers w) (wVersion w).

Definition revoked_row (at_ : string) (r : ShareRow) : ShareRow :=
  MkShareRow (kId r) (kCluster r) (kNamespace r) (kServer r) (kUID r) (kCreatedBy r) (kCanStart r) (kHash r) (kExpires r)
    (Some at_) (kCreated r) (kLastUsed r).
Definition touched_row (at_ : string) (r : ShareRow) : ShareRow :=
  MkShareRow (kId r) (kCluster r) (kNamespace r) (kServer r) (kUID r) (kCreatedBy r) (kCanStart r) (kHash r) (kExpires r)
    (kRevoked r) (kCreated r) (Some at_).
Definition update_rows (f : ShareRow -> bool) (g : ShareRow -> ShareRow) (rs : list ShareRow) : list ShareRow :=
  map (fun r => if f r then g r else r) rs.
Definition onServer (cluster ns server : string) (r : ShareRow) : bool :=
  String.eqb (kCluster r) cluster && String.eqb (kNamespace r) ns && String.eqb (kServer r) server.
Definition active (r : ShareRow) : bool := match kRevoked r with None => true | Some _ => false end.
Definition hits (f : ShareRow -> bool) (rs : list ShareRow) : Z := Z.of_nat (length (List.filter f rs)).
Definition newest (a b : ShareRow) : Prop := str_le (kCreated b) (kCreated a).
#[global] Instance newest_dec a b : Decision (newest a b).
Proof. unfold newest. apply _. Defined.

(** The write of a wake annotation. *)
Definition woken_obj (v : Z) (tok : string) (o : serverObj) : serverObj :=
  MkServerObj (oUID o) (Itoa v) (oCreated o)
    (Some (<["gameplane.local/idle-wake-requested" := tok]> (default ∅ (oAnnotations o)))) (oStatus o).
(** A precondition that is absent or holds. *)
Definition meets (want have : string) : bool := String.eqb want "" || String.eqb want have.

(** A call that is carried out. *)
Definition carry {B} (w : World) (c : scall B) : result kerr B * World :=
  match c with
  | SLookup h => (Ok (List.find (fun r => String.eqb (kHash r) h) (wRows w)), w)
  | SInsert r =>
      if existsb (fun r' => String.eqb (kId r') (kId r) || String.eqb (kHash r') (kHash r)) (wRows w) then (Err OtherErr, w)
      else (Ok 1, put_rows (wRows w ++ [r]) w)
  | SList cl ns n => (Ok (merge_sort newest (List.filter (onServer cl ns n) (wRows w))), w)
  | SRevoke at_ id cl ns n =>
      let f r := String.eqb (kId r) id && onServer cl ns n r in
      (Ok (hits f (wRows w)), put_rows (update_rows f (revoked_row at_) (wRows w)) w)
  | SRevokeServer at_ cl ns n =>
      let f r := onServer cl ns n r && active r in
      (Ok (hits f (wRows w)), put_rows (update_rows f (revoked_row at_) (wRows w)) w)
  | STouch at_ id =>
      let f r := String.eqb (kId r) id in
      (Ok (hits f (wRows w)), put_rows (update_rows f (touched_row at_) (wRows w)) w)
  | KGet cl ns n => (match wServers w !! (cl, ns, n) with Some o => Ok o | None => Err NotFoundErr end, w)
  | KPatch cl ns n uid rv tok =>
      match wServers w !! (cl, ns, n) with
      | None => (Err NotFoundErr, w)
      | Some o =>
          if meets uid (oUID o) && meets rv (oRV o)
          then (Ok (), MkWorld (wRows w) (<[(cl, ns, n) := woken_obj (wVersion w) tok o]> (wServers w)) (wVersion w + 1))
          else (Err ConflictErr, w)
      end
  end.

(** A call answered: carried out, failed, or carried out with an error reported. *)
Inductive served {B} (w : World) (c : scall B) : result kerr B -> World -> Prop :=
| served_ok : served w c (carry w c).1 (carry w c).2
| served_lost e : served w c (Err e) w
| served_unheard e : served w c (Err e) (carry w c).2.

(** What others do to the table: any statement of the store, or the revocations of
    an account's deletion. *)
Inductive rows_step : list ShareRow -> list ShareRow -> Prop :=
| rows_insert rs r : existsb (fun r' => String.eqb (kId r') (kId r) || String.eqb (kHash r') (kHash r)) rs = false -> rows_step rs (rs ++ [r])
| rows_revoke rs f at_ : rows_step rs (update_rows f (revoked_row at_) rs)
| rows_touch rs f at_ : rows_step rs (update_rows f (touched_row at_) rs).

(** A UID belongs to one object for good, which was created once. *)
Definition identities (birth : string -> time) (w : World) : Prop :=
  forall k o, wServers w !! k = Some o -> oUID o <> EmptyString /\ oCreated o = birth (oUID o).

(** Others change the table by its statements and the servers at will. *)
Definition evolves (birth : string -> time) (w w' : World) : Prop :=
  rtc rows_step (wRows w) (wRows w') /\ identities birth w'.

(** ** Runs *)

(** A call, the world it was made in and its answer. *)
Inductive act : Type :=
| Act {B : Type} (w : World) (c : scall B) (r : result kerr B).

Section Runs.
Context (birth : string -> time).

(** What a request has done when it is cut off anywhere. *)
Fixpoint acts {A} (w : World) (p : SP A) (tr : list act) : Prop :=
  tr = [] \/
  match p with
  | Call c k => exists w1 r w2 tr', tr = Act w1 c r :: tr' /\ evolves birth w w1 /\ served w1 c r w2 /\ acts w2 (k r) tr'
  | _ => False
  end.

(** What a request that was not cut off replied, and the world it left. *)
Fixpoint replies {A} (w : World) (p : SP A) (a : A) (w' : World) : Prop :=
  match p with
  | Ret b => a = b /\ w' = w
  | Call c k => exists w1 r w2, evolves birth w w1 /\ served w1 c r w2 /\ replies w2 (k r) a w'
  | OutOfFuel => False
  end.

Lemma acts_nil {A} w (p : SP A) : acts w p [].
Proof. destruct p; by left. Qed.
(** The next call of a run, if it made one. *)
Lemma acts_next {A B} w (c : scall B) (k : result kerr B -> SP A) tr a : acts w (Call c k) tr -> a ∈ tr ->
  exists w1 r w2 tr', evolves birth w w1 /\ served w1 c r w2 /\ acts w2 (k r) tr' /\ (a = Act w1 c r \/ a ∈ tr').
Proof.
  intros [->|(w1 & r & w2 & tr' & -> & He & Hs & Ha)] Hin; [by apply elem_of_nil in Hin|].
  exists w1, r, w2, tr'. split_and!; [done|done|done|]. by apply elem_of_cons in Hin.
Qed.
Lemma acts_ret {A} w (b : A) tr a : acts w (Ret b) tr -> a ∉ tr.
Proof. intros [->|[]]. apply not_elem_of_nil. Qed.

(** *** Undisturbed runs *)

(** The acts and the reply of a request all of whose calls are carried out and
    that nobody interferes with. *)
Fixpoint undisturbed {A} (w : World) (p : SP A) : list act * option (A * World) :=
  match p with
  | Ret a => ([], Some (a, w))
  | Call c k => let (tr, o) := undisturbed (carry w c).2 (k (carry w c).1) in (Act w c (carry w c).1 :: tr, o)
  | OutOfFuel => ([], None)
  end.

Lemma served_identities {B} w (c : scall B) r w' : served w c r w' -> identities birth w -> identities birth w'.
Proof.
  intros H Hi. assert (identities birth (carry w c).2) as Hs; [|by destruct H].
  destruct c as [| | | | | | |cl ns n uid rv tok]; try exact Hi; cbn.
  - by destruct (existsb _ _).
  - destruct (wServers w !! (cl, ns, n)) as [o|] eqn:Eo; [|done]. destruct (_ && _); [|done].
    intros k o'; cbn; intros [[<- <-]|[_ Ho]]%lookup_insert_Some; [exact (Hi _ _ Eo)|exact (Hi _ _ Ho)].
Qed.
Lemma undisturbed_runs {A} (p : SP A) w : identities birth w ->
  acts w p (undisturbed w p).1 /\ forall a w', (undisturbed w p).2 = Some (a, w') -> replies w p a w'.
Proof.
  revert w. induction p as [a|B c k IH|]; intros w Hi; cbn; [by split; [left|intros; simplify_eq]| |by split; [left|]].
  assert (served w c (carry w c).1 (carry w c).2) as Hs by apply served_ok.
  destruct (IH (carry w c).1 (carry w c).2) as [Ha Hf]; [by eapply served_identities|].
  destruct (undisturbed _ _) as [tr o]. cbn in *. split.
  - right. exists w, (carry w c).1, (carry w c).2, tr. by split_and!.
  - intros a w' E. exists w, (carry w c).1, (carry w c).2. split_and!; [done..|by apply Hf].
Qed.

Lemma undisturbed_identities {A} (p : SP A) w : identities birth w -> identities birth (default w (snd <$> (undisturbed w p).2)).
Proof.
  revert w. induction p as [a|B c k IH|]; intros w Hi; cbn; [done| |done].
  assert (identities birth (carry w c).2) as Hs by (eapply served_identities; [apply served_ok|done]).
  specialize (IH (carry w c).1 _ Hs). by destruct (undisturbed _ _) as [tr [[a w']|]].
Qed.

(** *** The start request *)

Context (ParseRFC3339 : string -> option time) (FormatRFC3339 : time -> string) (hashShareLinkToken : string -> string).
Local Abbreviation parseLink := (parseLink ParseRFC3339).

(** A wake that the cluster accepted: the world it was accepted in and the server. *)
Definition wakeOf (a : act) : option (World * skey) :=
  match a with
  | Act w c r =>
      match c in scall B return result kerr B -> option (World * skey) with
      | KPatch cl ns n _ _ _ => fun r => match r with Ok _ => Some (w, (cl, ns, n)) | Err _ => None end
      | _ => fun _ => None
      end r
  end.

(** An accepted patch found the object it was conditioned on. *)
Lemma patched w cl ns n uid rv tok w' : served w (KPatch cl ns n uid rv tok) (Ok ()) w' -> uid <> EmptyString ->
  exists o, wServers w !! (cl, ns, n) = Some o /\ oUID o = uid.
Proof.
  intros H Hu. inversion H as [E1 E2| |]. cbn in E1. destruct (wServers w !! (cl, ns, n)) as [o|] eqn:Eo; [|done].
  exists o. split; [done|]. destruct (meets uid (oUID o)) eqn:Em; [|done]. unfold meets in Em.
  apply orb_true_iff in Em as [->%String.eqb_eq|E%String.eqb_eq]; done.
Qed.

Lemma got w cl ns n o w' : served w (KGet cl ns n) (Ok o) w' -> wServers w !! (cl, ns, n) = Some o.
Proof. intros H. inversion H as [E1 E2| |]. cbn in E1. destruct (wServers w !! (cl, ns, n)); by simplify_eq. Qed.
Lemma looked w h r w' : served w (SLookup h) (Ok r) w' -> List.find (fun r => String.eqb (kHash r) h) (wRows w) = r.
Proof. intros H. inversion H as [E1 E2| |]. by cbn in E1; simplify_eq. Qed.

(** A call changes the table by the statements of the store only. *)
Lemma served_rows {B} w (c : scall B) r w' : served w c r w' -> rtc rows_step (wRows w) (wRows w').
Proof.
  assert (rtc rows_step (wRows w) (wRows (carry w c).2)) as H; [|by destruct 1].
  destruct c; cbn; try done.
  - destruct (existsb _ _) eqn:E; [done|]. by apply rtc_once, rows_insert.
  - apply rtc_once, rows_revoke.
  - apply rtc_once, rows_revoke.
  - apply rtc_once, rows_touch.
  - by destruct (wServers w !! _); [|done]; destruct (_ && _).
Qed.

(** The columns a link takes over. *)
Lemma link_row row link : parseLink row = Some link ->
  kCluster row = slCluster link /\ kNamespace row = slNamespace link /\ kServer row = slServerName link /\ kCanStart row = slCanStart link.
Proof. unfold Shares.parseLink. intros H. repeat (apply bind_Some in H as (? & _ & H)). by simplify_eq. Qed.

(** What the check of a replacement lets through. *)
Lemma not_replaced o row link : parseLink row = Some link -> serverReplacedSinceLink o link = false ->
  (kUID row <> EmptyString -> oUID o = kUID row) /\ (kUID row = EmptyString -> oCreated o = zero_time \/ oCreated o <= slCreatedAt link).
Proof.
  intros El Hs. assert (kUID row = slServerUID link) as ->.
  { unfold Shares.parseLink in El. repeat (apply bind_Some in El as (? & _ & El)). by simplify_eq. }
  unfold serverReplacedSinceLink, IsZero, After in Hs.
  destruct (String.eqb_spec (slServerUID link) "") as [->|Hu]; cbn in Hs; (split; [|done || idtac]); try done.
  - intros _. destruct (Z.eqb_spec (oCreated o) zero_time); [by left|right]. cbn in Hs. lia.
  - intros _. by apply negb_false_iff, String.eqb_eq in Hs.
Qed.

(** Identity survives: an object with the same UID is the one the link is for. *)
Lemma same_identity o o' link : oUID o = oUID o' -> oCreated o = birth (oUID o) -> oCreated o' = birth (oUID o') ->
  serverReplacedSinceLink o link = false -> serverReplacedSinceLink o' link = false.
Proof. intros E E1 E2. unfold serverReplacedSinceLink. rewrite E1, E2, E. done. Qed.

(** The part of a start request after the lookup. *)
Lemma wake_from clusters link tok w tr a w1 key : identities birth w -> a ∈ tr -> wakeOf a = Some (w1, key) ->
  acts w (sharedServer clusters link (fun cl obj =>
            pbind (call (KPatch cl (slNamespace link) (slServerName link) (oUID obj) (oRV obj) tok)) (fun r =>
            match r with
            | Err (ConflictErr | InvalidErr | NotFoundErr) => Ret SNotFound
            | Err OtherErr => Ret SFail
            | Ok _ => Ret SAccepted
            end))) tr ->
  rtc rows_step (wRows w) (wRows w1) /\ key = (orLocal (slCluster link), slNamespace link, slServerName link) /\
  exists o, wServers w1 !! key = Some o /\ serverReplacedSinceLink o link = false.
Proof.
  intros Hid Hin Hw H. unfold sharedServer in H. fold (orLocal (slCluster link)) in H.
  destruct (negb _); [by eapply acts_ret in H|].
  destruct (acts_next _ _ _ _ a H Hin) as (w2 & r & w3 & tr2 & [Hr2 Hi2] & Hs2 & H2 & [->|Hin2]); [done|]. clear H.
  destruct r as [o|e]; [|by eapply acts_ret in H2].
  destruct (serverReplacedSinceLink o link) eqn:Er; [by eapply acts_ret in H2|].
  destruct (acts_next _ _ _ _ a H2 Hin2) as (w4 & r & w5 & tr3 & [Hr4 Hi4] & Hs4 & H4 & [->|Hin4]).
  2:{ by destruct r as [|[]]; eapply acts_ret in H4. }
  cbn in Hw. destruct r as [[]|]; simplify_eq. apply got in Hs2 as Ho. destruct (Hi2 _ _ Ho) as [Hu Hb].
  split; [by do 2 (etrans; [eassumption || by eapply served_rows|]); eassumption|]. split; [done|].
  destruct (patched _ _ _ _ _ _ _ _ Hs4 Hu) as (o' & Ho' & Hu'). exists o'. split; [done|].
  eapply same_identity; [symmetry; exact Hu'|exact Hb|by apply (Hi4 _ _ Ho')|exact Er].
Qed.
End Runs.

(** ** Revocation *)

(** The PRIMARY KEY and the UNIQUE column of the table. *)
Definition keyed (rs : list ShareRow) : Prop := NoDup (map kId rs) /\ NoDup (map kHash rs).
(** A link with this id and digest. *)
Definition entry (id h : string) (rs : list ShareRow) : Prop := exists r, r ∈ rs /\ kId r = id /\ kHash r = h.
(** The digest belongs to revoked rows only, and is taken. *)
Definition dead (h : string) (rs : list ShareRow) : Prop :=
  (exists r, r ∈ rs /\ kHash r = h) /\ forall r, r ∈ rs -> kHash r = h -> active r = false.

(** An update that leaves ids and digests alone and revives nothing. *)
Definition keeps_keys (g : ShareRow -> ShareRow) : Prop :=
  forall r, kId (g r) = kId r /\ kHash (g r) = kHash r /\ (active r = false -> active (g r) = false).
Lemma keeps_revoked at_ : keeps_keys (revoked_row at_).
Proof. done. Qed.
Lemma keeps_touched at_ : keeps_keys (touched_row at_).
Proof. done. Qed.

Lemma elem_of_update f g rs r : r ∈ update_rows f g rs <-> exists r0, r0 ∈ rs /\ r = (if f r0 then g r0 else r0).
Proof. unfold update_rows. rewrite list_elem_of_fmap. naive_solver. Qed.
Lemma update_keys f g rs : keeps_keys g -> map kId (update_rows f g rs) = map kId rs /\ map kHash (update_rows f g rs) = map kHash rs.
Proof.
  intros Hg. unfold update_rows. rewrite !map_map.
  by split; apply map_ext; intros r; destruct (f r); [apply Hg|..|apply Hg|].
Qed.
Lemma fresh_row rs r : existsb (fun r' => String.eqb (kId r') (kId r) || String.eqb (kHash r') (kHash r)) rs = false ->
  (kId r ∉ map kId rs) /\ (kHash r ∉ map kHash rs).
Proof.
  intros H. split; intros (r' & E & Hin%list_elem_of_In)%list_elem_of_fmap; apply not_true_iff_false in H; apply H, existsb_exists;
    exists r'; (split; [done|]); rewrite <- E, String.eqb_refl; [done|apply orb_true_r].
Qed.
Lemma NoDup_snoc {A} (l : list A) x : NoDup l -> x ∉ l -> NoDup (l ++ [x]).
Proof. intros Hl Hx. apply NoDup_app. split_and!; [done| |apply NoDup_singleton]. by intros y Hy ->%list_elem_of_singleton. Qed.

(** The three facts are kept by every statement. *)
Lemma rows_step_keeps (P : list ShareRow -> Prop) rs rs' :
  (forall f g rs, keeps_keys g -> P rs -> P (update_rows f g rs)) ->
  (forall rs r, kId r ∉ map kId rs -> kHash r ∉ map kHash rs -> P rs -> P (rs ++ [r])) ->
  rtc rows_step rs rs' -> P rs -> P rs'.
Proof.
  intros Hu Hi Hs HP. induction Hs as [|rs rs1 rs2 H _ IH]; [done|]. apply IH. clear IH.
  destruct H as [rs r [H1 H2]%fresh_row|rs f at_|rs f at_]; [by apply Hi|by apply Hu, HP; apply keeps_revoked|by apply Hu, HP; apply keeps_touched].
Qed.
Lemma keyed_steps rs rs' : rtc rows_step rs rs' -> keyed rs -> keyed rs'.
Proof.
  apply rows_step_keeps.
  - intros f g rs0 Hg. unfold keyed. by destruct (update_keys f g rs0 Hg) as [-> ->].
  - intros rs0 r H1 H2 [Ha Hb]. unfold keyed. rewrite !map_app. split; by apply NoDup_snoc.
Qed.
Lemma entry_steps id h rs rs' : rtc rows_step rs rs' -> entry id h rs -> entry id h rs'.
Proof.
  apply rows_step_keeps.
  - intros f g rs0 Hg (r & Hin & E1 & E2). exists (if f r then g r else r). split; [apply elem_of_update; eauto|].
    destruct (f r); [|done]. destruct (Hg r) as (-> & -> & _). done.
  - intros rs0 r _ _ (r0 & Hin & E). exists r0. split; [by apply elem_of_app; left|done].
Qed.
Lemma dead_steps h rs rs' : rtc rows_step rs rs' -> dead h rs -> dead h rs'.
Proof.
  apply rows_step_keeps.
  - intros f g rs0 Hg [(r & Hin & E) Hd]. split.
    + exists (if f r then g r else r). split; [apply elem_of_update; eauto|]. destruct (f r); [|done]. by destruct (Hg r) as (_ & -> & _).
    + intros r1 (r0 & Hin0 & ->)%elem_of_update E1. destruct (f r0); [|by apply Hd].
      destruct (Hg r0) as (_ & E2 & Ha). apply Ha, Hd; congruence.
  - intros rs0 r _ Hr [(r0 & Hin & E) Hd]. split; [exists r0; split; [by apply elem_of_app; left|done]|].
    intros r1 [H1| ->%list_elem_of_singleton]%elem_of_app E1; [by apply Hd|].
    exfalso. apply Hr. rewrite E1, <- E. by apply list_elem_of_fmap_2.
Qed.

Lemma NoDup_map_eq {A B} (f : A -> B) l x y : NoDup (map f l) -> x ∈ l -> y ∈ l -> f x = f y -> x = y.
Proof.
  induction l as [|z l IH]; cbn; [by intros _ ?%elem_of_nil|]. intros [Hz Hl]%NoDup_cons Hx Hy E.
  apply elem_of_cons in Hx as [->|Hx], Hy as [->|Hy]; [done|..|by apply IH]; exfalso; apply Hz;
    [rewrite E|rewrite <- E]; by apply list_elem_of_fmap_2.
Qed.
(** A revocation that hit a row hit the one with the id. *)
Lemma revoke_kills rs at_ id cl ns n h : keyed rs -> entry id h rs ->
  hits (fun r => String.eqb (kId r) id && onServer cl ns n r) rs <> 0 ->
  dead h (update_rows (fun r => String.eqb (kId r) id && onServer cl ns n r) (revoked_row at_) rs).
Proof.
  intros [Hid Hh] (r & Hin & E1 & E2) Hn. unfold hits in Hn. destruct (List.filter _ rs) as [|r' l] eqn:Ef; [done|].
  assert (In r' (List.filter (fun r => String.eqb (kId r) id && onServer cl ns n r) rs)) as H' by (rewrite Ef; by left).
  apply filter_In in H' as [Hin'%list_elem_of_In Hr']. pose proof Hr' as [E'%String.eqb_eq _]%andb_true_iff.
  assert (r' = r) as -> by (eapply (NoDup_map_eq kId rs); [eassumption..|congruence]). clear Ef. split.
  - exists (revoked_row at_ r). split; [apply elem_of_update; exists r; by rewrite Hr'|done].
  - intros r1 (r0 & Hin0 & ->)%elem_of_update E. destruct (String.eqb (kId r0) id && onServer cl ns n r0) eqn:Eb; [done|].
    assert (r0 = r) as -> by (eapply (NoDup_map_eq kHash rs); [eassumption..|congruence]). congruence.
Qed.

(** C18. Whoever mints, revokes, deletes and recreates between its calls, a start
    request with a token has a server woken only if the token's digest was found
    in a row that was not revoked, not expired and allowed starting, and the
    server that got the wake is, at that moment, the one of that row's cluster,
    namespace and name: it has the UID the link was minted for, and if the link is
    an old one without a UID it is no younger than the link. *)
Theorem share_wakes_its_server birth ParseRFC3339 FormatRFC3339 hashShareLinkToken clusters token now touched woken w tr a w1 key :
  acts birth w (startShareHandler ParseRFC3339 FormatRFC3339 hashShareLinkToken clusters token now touched woken) tr ->
  a ∈ tr -> wakeOf a = Some (w1, key) ->
  exists rows row link o, rtc rows_step (wRows w) rows /\ row ∈ rows /\ rtc rows_step rows (wRows w1) /\
    kHash row = hashShareLinkToken token /\ parseLink ParseRFC3339 row = Some link /\ linkLive now link = true /\ kCanStart row = true /\
    key = (orLocal (kCluster row), kNamespace row, kServer row) /\
    wServers w1 !! key = Some o /\ (kUID row <> EmptyString -> oUID o = kUID row) /\
    (kUID row = EmptyString -> oCreated o = zero_time \/ oCreated o <= slCreatedAt link).
Proof.
  intros H Hin Hw. unfold startShareHandler in H. destruct (String.eqb token ""); [by eapply acts_ret in H|].
  destruct (acts_next _ _ _ _ _ a H Hin) as (w2 & r & w3 & tr2 & [Hr2 _] & Hs2 & H2 & [->|Hin2]); [done|]. clear H.
  destruct r as [[row|]|]; [|by eapply acts_ret in H2..].
  destruct (parseLink ParseRFC3339 row) as [link|] eqn:El; [|by eapply acts_ret in H2].
  destruct (linkLive now link) eqn:Ev; [|by eapply acts_ret in H2]. cbn in H2.
  destruct (slCanStart link) eqn:Ec; [|by eapply acts_ret in H2]. cbn [negb] in H2.
  destruct (acts_next _ _ _ _ _ a H2 Hin2) as (w4 & r4 & w5 & tr4 & [Hr4 Hi4] & Hs4 & H4 & [->|Hin4]); [done|].
  apply looked in Hs2 as Hf. apply find_some in Hf as [Hrow Hh%String.eqb_eq].
  destruct (link_row _ _ _ El) as (Ecl & Ens & En & Est).
  destruct (wake_from birth clusters link (Itoa (woken - 62135596800 * Second)) w5 tr4 a w1 key) as (Hr5 & Hk & o & Ho & Hsame);
    [by eapply served_identities|done|done|destruct r4; exact H4|].
  destruct (not_replaced _ _ _ _ El Hsame) as [Huid Htime]. exists (wRows w2), row, link, o. rewrite Ecl, Ens, En, Est. split_and!; try done.
  - by apply list_elem_of_In.
  - etrans; [|exact Hr5]. etrans; [by eapply served_rows|]. etrans; [exact Hr4|]. by eapply served_rows.
Qed.


(** A revoke request that answered 204 revoked the link. *)
Lemma revoke_done birth FormatRFC3339 caller ns cluster name id now h w w' : keyed (wRows w) -> entry id h (wRows w) ->
  replies birth w (revokeShareHandler FormatRFC3339 caller ns cluster name id now) SNoContent w' -> dead h (wRows w').
Proof.
  intros Hk He H. unfold revokeShareHandler, asOwner in H.
  destruct caller as [u|]; [|by destruct H]. destruct ns as [ns|]; [|by destruct H]. destruct cluster as [cl|]; [|by destruct H].
  destruct H as (w1 & r & w2 & [Hr1 _] & Hs1 & H). destruct r as [obj|]; [|by destruct H].
  cbn in H. destruct (isServerOwner obj u); [|by destruct H]. destruct H as (w3 & r & w4 & [Hr3 _] & Hs3 & H).
  destruct r as [m|]; [|by destruct H]. cbn in H. destruct (Z.eqb_spec m 0); [by destruct H|]. destruct H as [_ ->].
  assert (rtc rows_step (wRows w) (wRows w3)) as Hr by (etrans; [exact Hr1|]; etrans; [by eapply served_rows|exact Hr3]).
  inversion Hs3; subst. cbn in *. apply revoke_kills; [by eapply keyed_steps|by eapply entry_steps|done].
Qed.

(** A lookup of a dead digest finds no live link. *)
Lemma dead_found h rs row ParseRFC3339 link now : dead h rs -> List.find (fun r => String.eqb (kHash r) h) rs = Some row ->
  parseLink ParseRFC3339 row = Some link -> linkLive now link = false.
Proof.
  intros [_ Hd] [Hin%list_elem_of_In Hh%String.eqb_eq]%find_some El. specialize (Hd _ Hin Hh). unfold active in Hd.
  unfold parseLink in El. destruct (kRevoked row) as [v|]; [|done]. cbn in El.
  repeat (apply bind_Some in El as (? & ?Ev & El)). simplify_eq. unfold linkLive. cbn.
  match goal with E : _ <$> _ = Some _ |- _ => by apply fmap_Some in E as (? & _ & ->) end.
Qed.
(** So a lookup ends in one of the two errors. *)
Lemma dead_lookup birth ParseRFC3339 h now w w1 found w2 : dead h (wRows w) -> evolves birth w w1 -> served w1 (SLookup h) found w2 ->
  exists e, (e = ErrShareLinkInvalid \/ e = ErrShareOther) /\
  match found with
  | Err _ => Ret (Err ErrShareOther)
  | Ok None => Ret (Err ErrShareLinkInvalid)
  | Ok (Some row) =>
      match parseLink ParseRFC3339 row with
      | None => Ret (Err ErrShareOther)
      | Some l => if linkLive now l then Ret (Ok l) else Ret (Err ErrShareLinkInvalid)
      end
  end = (Ret (Err e) : SP (result share_err ShareLink)).
Proof.
  intros Hd [Hr _] Hs. apply (dead_steps _ _ _ Hr) in Hd. destruct found as [[row|]|]; [|by eauto..].
  destruct (parseLink ParseRFC3339 row) eqn:El; [|by eauto]. apply looked in Hs.
  rewrite (dead_found _ _ _ _ _ now Hd Hs El). by eauto.
Qed.

(** C38. Once an owner's revoke request for a link was answered 204, then whatever
    else is minted, revoked and touched since and whoever changes the servers, no
    request with the link's token is answered with anything but the uniform 404
    or a failure, it wakes nothing, and it does not even ask the cluster. *)
Theorem revoked_share_is_dead birth ParseRFC3339 FormatRFC3339 hashShareLinkToken caller ns cluster name id revokedAt w w1 w2
    token clusters now touched woken p :
  keyed (wRows w) -> entry id (hashShareLinkToken token) (wRows w) ->
  replies birth w (revokeShareHandler FormatRFC3339 caller ns cluster name id revokedAt) SNoContent w1 ->
  evolves birth w1 w2 ->
  p = resolveShareHandler ParseRFC3339 FormatRFC3339 hashShareLinkToken clusters token now touched \/
  p = startShareHandler ParseRFC3339 FormatRFC3339 hashShareLinkToken clusters token now touched woken ->
  (forall r w3, replies birth w2 p r w3 -> r = SNotFound \/ r = SFail) /\
  (forall tr a, acts birth w2 p tr -> a ∈ tr -> exists w3 found, a = Act w3 (SLookup (hashShareLinkToken token)) found).
Proof.
  intros Hk He Hf [Hr _] Hp. pose proof (revoke_done _ _ _ _ _ _ _ _ _ _ _ Hk He Hf) as Hd. apply (dead_steps _ _ _ Hr) in Hd.
  assert (exists q, p = Ret SNotFound \/ (p = pbind (LookupShareLink ParseRFC3339 hashShareLinkToken token now) q /\
    q (Err ErrShareLinkInvalid) = Ret SNotFound /\ q (Err ErrShareOther) = Ret SFail)) as [q [->|(-> & Hq1 & Hq2)]].
  { destruct Hp as [->| ->]; unfold resolveShareHandler, startShareHandler; destruct (String.eqb token "");
      [exists (fun _ => Ret SFail); by left|eexists; right; done|exists (fun _ => Ret SFail); by left|eexists; right; done]. }
  { split; [intros r w3 [-> _]; by left|]. intros tr a H Ha. by eapply acts_ret in H. }
  split.
  - intros r w5 (w3 & found & w4 & He' & Hs & H). destruct (dead_lookup _ ParseRFC3339 _ now _ _ _ _ Hd He' Hs) as (e & Hcase & E).
    cbn in H. rewrite E in H. cbn in H. destruct Hcase as [->| ->]; rewrite ?Hq1, ?Hq2 in H; destruct H as [-> _]; by eauto.
  - intros tr a H Ha. destruct (acts_next _ _ _ _ _ a H Ha) as (w3 & found & w4 & tr' & He' & Hs & H' & [->|Hin]); [by eauto|].
    destruct (dead_lookup _ ParseRFC3339 _ now _ _ _ _ Hd He' Hs) as (e & Hcase & E).
    cbn in H'. rewrite E in H'. cbn in H'. destruct Hcase as [->| ->]; rewrite ?Hq1, ?Hq2 in H'; by eapply acts_ret in H'.
Qed.

(** ** A run: minting, starting and revoking *)

Module ShareRun.
Definition parseTime (s : string) : option time := (fun z => z * Second) <$> ParseInt64 s.
Definition formatTime (t : time) : string := Itoa (t / Second).
Definition digest (s : string) : string := "sha:" +:+ s.
Definition t0 : time := 63839000000 * Second.
Definition birth (uid : string) : time := t0.
Definition obj : serverObj := MkServerObj "uid-1" "41" t0 (Some {["gameplane.local/owner-id" := "7"]}) (VMap [("phase", VStr "Sleeping")]).
Definition empty : World := MkWorld [] {[("local", "games", "mc") := obj]} 42.
Definition mint := createShareHandler parseTime formatTime (fun _ => None) digest (Some 7) (Some "games") (Some "local") "mc"
  (Some (MkCreateShare (Some EmptyString) None None true)) "id1" "tok" t0 (t0 + 5 * Second).
Definition minted : World := default empty (snd <$> (undisturbed empty mint).2).
Definition start_req := startShareHandler parseTime formatTime digest ["local"] "tok" (t0 + 60 * Second) (t0 + 61 * Second) (t0 + 62 * Second).
Definition revoke := revokeShareHandler formatTime (Some 7) (Some "games") (Some "local") "mc" "id1" (t0 + 90 * Second).
Definition revoked : World := default minted (snd <$> (undisturbed minted revoke).2).

(** The accepted wake of the run. *)
Definition wake : act := default (Act empty (KGet EmptyString EmptyString EmptyString) (Err OtherErr)) ((undisturbed minted start_req).1 !! 3%nat).
Definition at_wake : World := default empty (fst <$> wakeOf wake).

Lemma empty_identities : identities birth empty.
Proof. intros k o H. unfold empty in H. cbn [wServers] in H. apply lookup_singleton_Some in H as [_ <-]. split; [discriminate|reflexivity]. Qed.
Lemma minted_identities : identities birth minted.
Proof. exact (undisturbed_identities birth mint empty empty_identities). Qed.
Lemma revoked_identities : identities birth revoked.
Proof. exact (undisturbed_identities birth revoke minted minted_identities). Qed.
End ShareRun.

(** A minted link wakes its server. *)
Lemma share_wakes_its_server_witness : exists rows row link o,
  rtc rows_step (wRows ShareRun.minted) rows /\ row ∈ rows /\ rtc rows_step rows (wRows ShareRun.at_wake) /\
  kHash row = ShareRun.digest "tok" /\ parseLink ShareRun.parseTime row = Some link /\
  linkLive (ShareRun.t0 + 60 * Second) link = true /\ kCanStart row = true /\
  ("local", "games", "mc") = (orLocal (kCluster row), kNamespace row, kServer row) /\
  wServers ShareRun.at_wake !! ("local", "games", "mc") = Some o /\ (kUID row <> EmptyString -> oUID o = kUID row) /\
  (kUID row = EmptyString -> oCreated o = zero_time \/ oCreated o <= slCreatedAt link).
Proof.
  apply (share_wakes_its_server ShareRun.birth ShareRun.parseTime ShareRun.formatTime ShareRun.digest ["local"] "tok"
    (ShareRun.t0 + 60 * Second) (ShareRun.t0 + 61 * Second) (ShareRun.t0 + 62 * Second) ShareRun.minted
    (undisturbed ShareRun.minted ShareRun.start_req).1 ShareRun.wake).
  - apply (undisturbed_runs ShareRun.birth ShareRun.start_req ShareRun.minted ShareRun.minted_identities).
  - apply (list_elem_of_lookup_2 _ 3%nat). vm_compute. reflexivity.
  - vm_compute. reflexivity.
Defined.

(** The link is minted, revoked by its owner and then tried again. *)
Lemma revoked_share_is_dead_witness :
  (exists m, (undisturbed ShareRun.revoked ShareRun.start_req).2 = Some (SNotFound, m)) /\
  forall r w3, replies ShareRun.birth ShareRun.revoked ShareRun.start_req r w3 -> r = SNotFound \/ r = SFail.
Proof.
  split; [eexists; vm_compute; reflexivity|].
  apply (revoked_share_is_dead ShareRun.birth ShareRun.parseTime ShareRun.formatTime ShareRun.digest (Some 7) (Some "games") (Some "local") "mc" "id1"
    (ShareRun.t0 + 90 * Second) ShareRun.minted ShareRun.revoked ShareRun.revoked "tok" ["local"] (ShareRun.t0 + 60 * Second)
    (ShareRun.t0 + 61 * Second) (ShareRun.t0 + 62 * Second) ShareRun.start_req).
  - split; vm_compute; repeat constructor; by intros ?%elem_of_nil.
  - eexists. split; [|split]; [vm_compute; by left|reflexivity|reflexivity].
  - apply (undisturbed_runs ShareRun.birth ShareRun.revoke ShareRun.minted ShareRun.minted_identities). vm_compute. reflexivity.
  - split; [reflexivity|exact ShareRun.revoked_identities].
  - right. reflexivity.
Defined.
