(* ===== verification/Wipe.v ===== *)
(** * operator: wiping the data of a server

    The wipe step of a reconcile pass (src/operator/internal/controller/
    gameserver_wipe.go and gameserver_wipe_guard.go) as a program of calls to the
    cluster.  The claim of the server is the call [Claim]: what it decides and
    writes is [claimLifecycleOperation] of [Lifecycle].  The namespace is the
    server's throughout. *)

From S2P Require Import Prelude GoText GoTime GoToken GameServer Idle Lifecycle Power Prog.
Local Open Scope Z_scope.
Local Open Scope prog_scope.

(** ** Data *)

Definition wipeTokenLabel : string := "gameplane.local/wipe-token".
Definition wipeSuccessAnnotation : string := "gameplane.local/wipe-succeeded".
Definition wipeUIDLabel : string := "gameplane.local/wipe-server-uid".
Definition wipeOrphanGuard : string := "orphaned-worker".
Definition GameServerConditionDataWipe : string := "DataWipe".

(** A GameServer as read: with its version and conditions. *)
Record gsObj := MkGsObj { gso : GS; gsVersion : string; gsConditions : list Condition }.
Definition oann (o : gsObj) (k : string) : string := gann (gso o) k.
Definition put_gs (o : gsObj) (g : GS) : gsObj := MkGsObj g (gsVersion o) (gsConditions o).
Definition put_conds (o : gsObj) (cs : list Condition) : gsObj := MkGsObj (gso o) (gsVersion o) cs.

(** A controller reference: kind, name and UID. *)
Definition controllerRef : Type := string * string * string.
(** A Job as read, with the claims its pod template mounts. *)
Record wipeJob := MkWipeJob {
  wjName : string; wjUID : string; wjController : option controllerRef; wjLabels : annots; wjDeleting : bool;
  wjActive : Z; wjSucceeded : Z; wjConditions : list (string * string); wjClaims : list string }.
(** A pod with its labels and controller. *)
Record wipePod := MkWipePod { wpPod : pod; wpLabels : annots; wpController : option controllerRef }.
(** The StatefulSet of the server. *)
Record wipeSet := MkWipeSet {
  wsetController : option controllerRef; wsetAnnotations : annots; wsetReplicas : option Z; wsetStatusReplicas : Z;
  wsetGeneration : Z; wsetObservedGeneration : Z }.
(** A Job as created. *)
Record newJob := MkNewJob {
  njName : string; njOwnerUID : string; njLabels : annots; njPodLabels : annots; njBackoffLimit : Z; njRunAsUser : Z;
  njImage : string; njArgs : list string; njMountPath : string; njClaim : string }.

Inductive werr := NotFoundW | AlreadyExistsW | OtherW.

Inductive wcall : Type -> Type :=
| GetGS : wcall gsObj
| UpdateGS (o : gsObj) : wcall gsObj
| PatchStatus (o : gsObj) : wcall gsObj
| Claim (want : lifecycleIdentity) : wcall gsObj
| GetJob (name : string) : wcall wipeJob
| DeleteJob (name uid : string) : wcall unit
| CreateJob (j : newJob) : wcall unit
| ListPods : wcall (list wipePod)
| ListJobs : wcall (list wipeJob)
| GetSet : wcall wipeSet
| UpdateSet (s : wipeSet) : wcall unit.

Abbreviation WP := (prog wcall werr).

(** [metav1.IsControlledBy] *)
Definition IsControlledBy (controller : option controllerRef) (gs : GS) : bool :=
  match controller with Some (_, _, uid) => String.eqb uid (gsUID gs) | None => false end.

(** ** gameserver_wipe_guard.go *)

(** [wipeWorkerState] *)
Record wipeWorkerState := MkWorkers {
  wkJob : option wipeJob; wkJobs : list wipeJob; wkLivePods : bool; wkBusy : bool; wkToken : string;
  wkServer : string; wkUID : string; wkVersion : string; wkObserved : bool }.
Definition noWorkers : wipeWorkerState := MkWorkers None [] false false EmptyString EmptyString EmptyString EmptyString false.

(** [wipeWorkerState.matches] *)
Definition matches (s : wipeWorkerState) (o : gsObj) : bool :=
  wkObserved s && String.eqb (wkServer s) (gsName (gso o)) && String.eqb (wkUID s) (gsUID (gso o)) && String.eqb (wkVersion s) (gsVersion o).

(** [jobPermanentlyFailed] *)
Definition wipeJobPermanentlyFailed (j : wipeJob) : bool :=
  existsb (fun c => String.eqb c.1 "Failed" && String.eqb c.2 "True") (wjConditions j).

(** A Job that may still have a worker. *)
Definition jobUnfinished (j : wipeJob) : bool :=
  wjDeleting j || (0 <? wjActive j) || ((wjSucceeded j =? 0) && negb (wipeJobPermanentlyFailed j)).

(** Whether a live pod is a worker of this server's wipe; [owned] is the UID of
    the owned Job, if it has one. *)
Definition wipePodOwned (gs : GS) (owned : string) (p : wipePod) : bool :=
  let labelled := negb (String.eqb (gsUID gs) "") && String.eqb (ann (wpLabels p) wipeUIDLabel) (gsUID gs) in
  match wpController p with
  | Some (kind, name, uid) =>
      if String.eqb kind "Job" then
        labelled || (negb (String.eqb owned "") && String.eqb uid owned) ||
        (String.eqb name (gsName gs +:+ "-wipe") && String.eqb (ann (wpLabels p) wipeUIDLabel) "" &&
         podMountsRestoreTarget (wpPod p) (gsName gs))
      else labelled
  | None => labelled
  end.

(** [wipeWorkers] after its two reads. *)
Definition inventoryOf (o : gsObj) (found : option wipeJob) (pods : list wipePod) : wipeWorkerState :=
  let gs := gso o in
  let mine := match found with Some j => if IsControlledBy (wjController j) gs then Some j else None | None => None end in
  let owned := match mine with Some j => wjUID j | None => EmptyString end in
  let workers := List.filter (fun p => liveRestorePod (wpPod p) && wipePodOwned gs owned p) pods in
  let live := match workers with [] => false | _ => true end in
  let token0 := match mine with Some j => ann (wjLabels j) wipeTokenLabel | None => EmptyString end in
  let token := foldl (fun t p => if String.eqb t "" then ann (wpLabels p) wipeTokenLabel else t) token0 workers in
  MkWorkers found (match mine with Some j => [j] | None => [] end) live
    (match mine with Some j => jobUnfinished j | None => false end || live) token (gsName gs) (gsUID gs) (gsVersion o) true.

Definition wipeJobName (gs : GS) : string := gsName gs +:+ "-wipe".

(** [wipeWorkers] *)
Definition wipeWorkers (o : gsObj) : WP (result werr wipeWorkerState) :=
  let! r := call (GetJob (wipeJobName (gso o))) in
  match r with
  | Ok j => try! pods := call ListPods in Ret (Ok (inventoryOf o (Some j) pods))
  | Err NotFoundW => try! pods := call ListPods in Ret (Ok (inventoryOf o None pods))
  | Err e => Ret (Err e)
  end.

(** [loadWipeWorkers] *)
Definition loadWipeWorkers (o : gsObj) (st : wipeWorkerState) : WP (result werr wipeWorkerState) :=
  if matches st o then Ret (Ok st) else wipeWorkers o.

Section Codec.
Context `{OwnerCodec}.

(** [settledWipeFailure]: the answer and the inventory afterwards. *)
Definition settledWipeFailure (o : gsObj) (st : wipeWorkerState) : WP (bool * wipeWorkerState) :=
  let guard := oann o wipeGuardAnnotation in
  let failed := match FindStatusCondition (gsConditions o) GameServerConditionDataWipe with
                | Some c => String.eqb (cStatus c) "False" && String.eqb (cReason c) "JobFailed"
                | None => false
                end in
  if negb failed || String.eqb guard "" || negb (String.eqb guard (oann o WipeRequestedAnnotation)) || negb (pendingWipe (gso o)) ||
     negb (String.eqb (oann o wipeSuccessAnnotation) "") || negb (String.eqb (oann o restoreGuardAnnotation) "")
  then Ret (false, st)
  else
    let! r := loadWipeWorkers o st in
    match r with
    | Err _ => Ret (false, noWorkers)
    | Ok st =>
        Ret (negb (wkBusy st) && match wkJob st with
             | Some j => IsControlledBy (wjController j) (gso o) && String.eqb (ann (wjLabels j) wipeTokenLabel) guard &&
                         (wjSucceeded j =? 0) && wipeJobPermanentlyFailed j
             | None => false
             end, st)
    end.

(** [ensureWipeGuard]: whether the guard is new, the server and the inventory. *)
Definition ensureWipeGuard (o : gsObj) (st : wipeWorkerState) : WP (result werr (bool * gsObj * wipeWorkerState)) :=
  try! live := call GetGS in
  if negb (String.eqb (gsUID (gso live)) (gsUID (gso o))) then Ret (Err OtherW)
  else
    let token := oann live wipeGuardAnnotation in
    if negb (String.eqb token "") then
      try! o := call (Claim (wipeLifecycleIdentity (gso live) token)) in
      Ret (Ok (false, o, st))
    else
      try! st := loadWipeWorkers live st in
      let needsGuard := pendingWipe (gso live) || wkBusy st ||
        existsb (fun j => (wjSucceeded j =? 0) || negb (String.eqb (ann (wjLabels j) wipeTokenLabel) (oann live WipeCompletedAnnotation))) (wkJobs st) in
      if negb needsGuard then Ret (Ok (false, live, st))
      else
        let token := wkToken st in
        let token := if String.eqb token "" && pendingWipe (gso live) && negb (wkBusy st) && Nat.eqb (length (wkJobs st)) 0
                     then oann live WipeRequestedAnnotation else token in
        let token := if String.eqb token "" then wipeOrphanGuard else token in
        try! o := call (Claim (wipeLifecycleIdentity (gso live) token)) in
        Ret (Ok (String.eqb (oann o wipeGuardAnnotation) token, o, st)).

(** [wipeLifecycleReady] *)
Definition wipeLifecycleReady (gs : GS) (token : string) : result unit bool :=
  if String.eqb (gann gs lifecycleOperationAnnotation) "" then Ok false
  else match lifecycleOwner gs with
  | Err e => Err e
  | Ok None => Ok false
  | Ok (Some op) => Ok (sameLifecycleOwner (ident op) (wipeLifecycleIdentity gs token) && Nat.eqb (length (Recovery op)) 0)
  end.

(** A live pod that may use the data of the server. *)
Definition podUsesTarget (gs : GS) (p : wipePod) : bool :=
  liveRestorePod (wpPod p) &&
  (String.eqb (podName (wpPod p)) (gsName gs +:+ "-0") || podMountsRestoreTarget (wpPod p) (gsName gs) ||
   match wpController p with
   | Some (kind, name, uid) =>
       (String.eqb kind "StatefulSet" && String.eqb name (gsName gs)) || (String.eqb kind "GameServer" && String.eqb uid (gsUID gs))
   | None => false
   end).
(** An unfinished Job that mounts the data. *)
Definition jobUsesTarget (gs : GS) (j : wipeJob) : bool :=
  jobUnfinished j && existsb (String.eqb (gsName gs +:+ "-data")) (wjClaims j).

(** A StatefulSet scaled to zero, as far as it says itself. *)
Definition setStopped (s : wipeSet) : bool :=
  bool_decide (wsetReplicas s = Some 0) && (wsetStatusReplicas s =? 0) && negb (wsetObservedGeneration s <? wsetGeneration s).

(** [wipeTargetStopped] *)
Definition wipeTargetStopped (o : gsObj) : WP (result werr bool) :=
  let gs := gso o in
  let! r := call GetSet in
  match r with
  | Err NotFoundW => Ret (Ok false)
  | Err e => Ret (Err e)
  | Ok s =>
      if negb (IsControlledBy (wsetController s) gs) then Ret (Err OtherW)
      else if negb (String.eqb (ann (wsetAnnotations s) wipeGuardAnnotation) (gann gs wipeGuardAnnotation)) then
        try! _ := call (UpdateSet (MkWipeSet (wsetController s)
                          (<[wipeGuardAnnotation := gann gs wipeGuardAnnotation]> (wsetAnnotations s)) (Some 0)
                          (wsetStatusReplicas s) (wsetGeneration s) (wsetObservedGeneration s))) in
        Ret (Ok false)
      else if negb (setStopped s) then Ret (Ok false)
      else
        try! pods := call ListPods in
        if existsb (podUsesTarget gs) pods then Ret (Ok false)
        else
          try! jobs := call ListJobs in
          Ret (Ok (negb (existsb (jobUsesTarget gs) jobs)))
  end.

(** A StatefulSet without one of its annotations. *)
Definition dropSetAnn (k : string) (s : wipeSet) : wipeSet :=
  MkWipeSet (wsetController s) (delete k (wsetAnnotations s)) (wsetReplicas s) (wsetStatusReplicas s) (wsetGeneration s) (wsetObservedGeneration s).

(** [clearWipeWorkloadGuard] *)
Definition clearWipeWorkloadGuard (gs : GS) (token : string) : WP (result werr unit) :=
  let! r := call GetSet in
  match r with
  | Err NotFoundW => Ret (Ok ())
  | Err e => Ret (Err e)
  | Ok s =>
      if IsControlledBy (wsetController s) gs && String.eqb (ann (wsetAnnotations s) wipeGuardAnnotation) token
      then call (UpdateSet (dropSetAnn wipeGuardAnnotation s)) else Ret (Ok ())
  end.

(** [clearLifecycleOperation] with its calls: what it decides is
    [clearLifecycleOperation] of [Lifecycle], which refuses before any call or
    not at all. *)
Definition asStatefulSet (gs : GS) (s : wipeSet) : statefulSet :=
  MkSS (IsControlledBy (wsetController s) gs) (ann (wsetAnnotations s) lifecycleOperationAnnotation) (wsetReplicas s) (wsetStatusReplicas s)
    (wsetGeneration s) (wsetObservedGeneration s) EmptyString EmptyString.
Definition clearOwner (gs : GS) (want : lifecycleIdentity) : WP (result werr GS) :=
  let value := gann gs lifecycleOperationAnnotation in
  let decided ss written := match clearLifecycleOperation ss written gs want with Ok g => Ret (Ok g) | Err _ => Ret (Err OtherW) end in
  match clearLifecycleOperation (Some None) true gs want with
  | Err _ => Ret (Err OtherW)
  | Ok _ =>
      if String.eqb value "" then Ret (Ok gs)
      else
        let! r := call GetSet in
        match r with
        | Err NotFoundW => decided (Some None) true
        | Err e => Ret (Err e)
        | Ok s =>
            let ss := asStatefulSet gs s in
            if ssControlled ss && String.eqb (ssOwner ss) value then
              let! w := call (UpdateSet (dropSetAnn lifecycleOperationAnnotation s)) in
              decided (Some (Some ss)) (match w with Ok _ => true | Err _ => false end)
            else decided (Some (Some ss)) true
        end
  end.

(** The server [releaseWipeGuard] writes. *)
Definition releasedWipe (gs : GS) (token : string) (success : bool) : GS :=
  let gs :=
    if success then
      suspend (with_ann gs (delete wipeGuardAnnotation (<[WipeCompletedAnnotation := token]> (gsAnnotations gs)))) false
    else if pendingWipe gs then
      let req := gann gs WipeRequestedAnnotation in
      suspend (with_ann gs (<[lifecycleOperationAnnotation := lifecycleOperationJSON (MkOp (wipeLifecycleIdentity gs req) [])]>
                             (<[wipeGuardAnnotation := req]> (gsAnnotations gs)))) true
    else with_ann gs (delete wipeGuardAnnotation (gsAnnotations gs)) in
  if String.eqb (gann gs wipeSuccessAnnotation) token then with_ann gs (delete wipeSuccessAnnotation (gsAnnotations gs)) else gs.

(** [client.IgnoreNotFound] *)
Definition ignoreNotFound {A} (a : A) (r : result werr A) : result werr A :=
  match r with Err NotFoundW => Ok a | r => r end.

(** [releaseWipeGuard]: the caller's server afterwards. *)
Definition releaseWipeGuard (o : gsObj) (token : string) (success : bool) : WP (result werr gsObj) :=
  let! r := call GetGS in
  match r with
  | Err e => Ret (ignoreNotFound o (Err e))
  | Ok live =>
      if negb (String.eqb (gsUID (gso live)) (gsUID (gso o))) || negb (String.eqb (oann live wipeGuardAnnotation) token) ||
         negb (String.eqb (oann live restoreGuardAnnotation) "")
      then Ret (Ok o)
      else if success && (negb (String.eqb (oann live WipeRequestedAnnotation) token) || negb (pendingWipe (gso live))) then Ret (Ok o)
      else if success && negb (String.eqb (oann live wipeSuccessAnnotation) token) then Ret (Ok o)
      else
        try! _ := clearWipeWorkloadGuard (gso live) token in
        try! g := clearOwner (gso live) (wipeLifecycleIdentity (gso live) token) in
        call (UpdateGS (put_gs live (releasedWipe g token success)))
  end.

(** [recordWipeSuccess] *)
Definition recordWipeSuccess (o : gsObj) (token : string) : WP (result werr gsObj) :=
  let! r := call GetGS in
  match r with
  | Err e => Ret (ignoreNotFound o (Err e))
  | Ok live =>
      if negb (String.eqb (gsUID (gso live)) (gsUID (gso o))) || negb (String.eqb (oann live wipeGuardAnnotation) token) ||
         negb (String.eqb (oann live WipeRequestedAnnotation) token) || negb (pendingWipe (gso live)) ||
         negb (String.eqb (oann live restoreGuardAnnotation) "")
      then Ret (Ok o)
      else call (UpdateGS (put_gs live (with_ann (gso live) (<[wipeSuccessAnnotation := token]> (gsAnnotations (gso live))))))
  end.

(** ** gameserver_wipe.go *)

Definition dquoted (s : string) : string := String (Ascii.ascii_of_nat 34) s +:+ String (Ascii.ascii_of_nat 34) EmptyString.
Definition wipeScript : string :=
  "find " +:+ dquoted "$1" +:+ " -mindepth 1 -delete
left=$(ls -A " +:+ dquoted "$1" +:+ ") || exit 1
if [ -n " +:+ dquoted "$left" +:+ " ]; then
  echo " +:+ dquoted "data wipe incomplete; entries remain under $1:" +:+ " >&2
  printf '%s\n' " +:+ dquoted "$left" +:+ " >&2
  exit 1
fi".

(** The Job [createWipeJob] submits for this server. *)
Definition wipeJobFor (configInitImage mountPath : string) (gs : GS) (name token : string) : newJob :=
  MkNewJob name (gsUID gs)
    (<[wipeTokenLabel := token]> (<[wipeUIDLabel := gsUID gs]>
      (<["app.kubernetes.io/managed-by" := "gameplane"]> {["app.kubernetes.io/name" := gsName gs]})))
    (<[wipeTokenLabel := token]> {[wipeUIDLabel := gsUID gs]}) 2 65532
    (if String.eqb configInitImage "" then "busybox:1.37.0" else configInitImage)
    [wipeScript; "wipe"; mountPath] mountPath (gsName gs +:+ "-data").
Definition effectiveMountPath (mountPath : string) : string := if String.eqb mountPath "" then "/data" else mountPath.

Definition createWipeJob (configInitImage mountPath : string) (gs : GS) (name token : string) : WP (result werr unit) :=
  let! r := call (CreateJob (wipeJobFor configInitImage (effectiveMountPath mountPath) gs name token)) in
  Ret (match r with Err AlreadyExistsW => Ok () | r => r end).

(** [deleteWipeJob] *)
Definition deleteWipeJob (gs : GS) (name : string) : WP (result werr unit) :=
  let! r := call (GetJob name) in
  match r with
  | Err e => Ret (ignoreNotFound () (Err e))
  | Ok j =>
      if negb (IsControlledBy (wjController j) gs) then Ret (Ok ())
      else let! r := call (DeleteJob name (wjUID j)) in Ret (ignoreNotFound () r)
  end.

(** [ackWipe] *)
Definition ackWipe (o : gsObj) (token : string) : WP (result werr gsObj) :=
  try! o := releaseWipeGuard o token true in
  if negb (String.eqb (oann o WipeCompletedAnnotation) token) then Ret (Ok o)
  else match FindStatusCondition (gsConditions o) GameServerConditionDataWipe with
  | None => Ret (Ok o)
  | Some _ => call (PatchStatus (put_conds o (removeCondition (gsConditions o) GameServerConditionDataWipe)))
  end.

(** [setWipeFailed] *)
Definition setWipeFailed (now : time) (o : gsObj) : WP (result werr gsObj) :=
  call (PatchStatus (put_conds o (upsertCondition (gsConditions o)
    (cond GameServerConditionDataWipe "False" "JobFailed" "data wipe job did not complete; the volume may not be fully cleared"
      (gsGeneration (gso o))) now))).

(** The loop over the Jobs of a cancelled or replaced wipe. *)
Fixpoint deleteWipeJobs (gs : GS) (jobs : list wipeJob) : WP (result werr unit) :=
  match jobs with
  | [] => Ret (Ok ())
  | j :: jobs =>
      if wjDeleting j then deleteWipeJobs gs jobs
      else try! _ := deleteWipeJob gs (wjName j) in deleteWipeJobs gs jobs
  end.

(** The last steps of [reconcileWipe]: no Job exists for the pending request. *)
Definition launchWipe (configInitImage mountPath : string) (o : gsObj) (guard : string) : WP (result werr unit) :=
  try! stopped := wipeTargetStopped o in
  if negb stopped then Ret (Ok ())
  else
    let! r := call GetGS in
    match r with
    | Err e => Ret (ignoreNotFound () (Err e))
    | Ok live =>
        if negb (String.eqb (gsUID (gso live)) (gsUID (gso o))) || negb (String.eqb (oann live wipeGuardAnnotation) guard) ||
           negb (String.eqb (oann live WipeRequestedAnnotation) guard) || negb (pendingWipe (gso live)) ||
           negb (String.eqb (oann live restoreGuardAnnotation) "") || negb (String.eqb (oann live backupGuardAnnotation) "")
        then Ret (Ok ())
        else match wipeLifecycleReady (gso live) guard with
        | Err _ => Ret (Err OtherW)
        | Ok false => Ret (Ok ())
        | Ok true => createWipeJob configInitImage mountPath (gso live) (wipeJobName (gso o)) guard
        end
    end.

(** The steps of [reconcileWipe] once the server is held for [guard]; [job] is the
    Job of this server, if there is one. *)
Definition advanceWipe (configInitImage mountPath : string) (now : time) (o : gsObj) (st : wipeWorkerState) (job : option wipeJob)
    (guard : string) : WP (result werr gsObj) :=
  let drained := Nat.eqb (length (wkJobs st)) 0 && negb (wkLivePods st) in
  let keep (p : WP (result werr unit)) := try! _ := p in Ret (Ok o) in
  let othersJob := match job with Some j => negb (String.eqb (ann (wjLabels j) wipeTokenLabel) guard) | None => false end in
  if negb (pendingWipe (gso o)) || negb (String.eqb (oann o WipeRequestedAnnotation) guard) || othersJob then
    try! _ := deleteWipeJobs (gso o) (wkJobs st) in
    if negb drained then Ret (Ok o) else releaseWipeGuard o guard false
  else if String.eqb (oann o wipeSuccessAnnotation) guard then
    if match job with Some j => negb (wjDeleting j) | None => false end then keep (deleteWipeJob (gso o) (wipeJobName (gso o)))
    else if negb drained then Ret (Ok o) else ackWipe o guard
  else match job with
  | Some j =>
      if wjDeleting j then Ret (Ok o)
      else if 0 <? wjSucceeded j then recordWipeSuccess o guard
      else if wipeJobPermanentlyFailed j then
        if negb (gsSuspend (gso o)) then
          try! o := call (UpdateGS (put_gs o (suspend (gso o) true))) in setWipeFailed now o
        else setWipeFailed now o
      else Ret (Ok o)
  | None => if wkBusy st then Ret (Ok o) else keep (launchWipe configInitImage mountPath o guard)
  end.

(** [reconcileWipe] *)
Definition reconcileWipe (configInitImage mountPath : string) (now : time) (o : gsObj) (st : wipeWorkerState) : WP (result werr gsObj) :=
  let! r := ensureWipeGuard o st in
  match r with
  | Err NotFoundW => Ret (Ok o)
  | Err e => Ret (Err e)
  | Ok (changed, o, st) =>
      if negb (String.eqb (oann o restoreGuardAnnotation) "") || negb (String.eqb (oann o backupGuardAnnotation) "") then Ret (Ok o)
      else
        let guard := oann o wipeGuardAnnotation in
        try! st := (if changed then Ret (Ok st) else loadWipeWorkers o st) in
        let foreign := match wkJob st with Some j => negb (IsControlledBy (wjController j) (gso o)) | None => false end in
        if foreign && pendingWipe (gso o) then Ret (Err OtherW)
        else
          let job := if foreign then None else wkJob st in
          if changed then Ret (Ok o)
          else if String.eqb guard "" then
            if Nat.eqb (length (wkJobs st)) 0 then Ret (Ok o)
            else try! _ := deleteWipeJob (gso o) (wipeJobName (gso o)) in Ret (Ok o)
          else match wipeLifecycleReady (gso o) guard with
          | Err _ => Ret (Err OtherW)
          | Ok false => Ret (Ok o)
          | Ok true => advanceWipe configInitImage mountPath now o st job guard
          end
  end.

(** The wipe step of a reconcile pass. *)
Definition wipeStep (configInitImage mountPath : string) (now : time) (o : gsObj) (st : wipeWorkerState) : WP (result werr gsObj) :=
  if negb (String.eqb (oann o wipeGuardAnnotation) "") || pendingWipe (gso o) then reconcileWipe configInitImage mountPath now o st
  else if matches st o && negb (Nat.eqb (length (wkJobs st)) 0) then
    try! _ := deleteWipeJob (gso o) (wipeJobName (gso o)) in Ret (Ok o)
  else Ret (Ok o).

End Codec.
