(* ===== verification/WipeFacts.v ===== *)
(** * Wiping is guarded and acknowledged

    Passes of the wipe step run one after the other, each cut off anywhere, beside
    others who change, delete and recreate the server between any two calls; Jobs,
    pods and the StatefulSet answer anything.  A wipe worker is started only for
    the pending request of the server it was read for, while the server was seen
    stopped and held by that wipe alone, and never again once it succeeded; a
    request is acknowledged only after a worker for exactly that request reported
    success and the workers were seen gone. *)

From S2P Require Import Prelude GoText GoTime GoToken GameServer Idle Lifecycle LifecycleFacts Power Prog Wipe.
Local Open Scope Z_scope.

(** ** The world of a server *)

Definition uid (o : gsObj) : string := gsUID (gso o).
Definition success (o : gsObj) : string := oann o wipeSuccessAnnotation.
Definition completedToken (o : gsObj) : string := oann o WipeCompletedAnnotation.
Definition nameOf (o : gsObj) : string := gsName (gso o).

(** The last answers of each kind. *)
Record Seen := MkSeen {
  seenGS : option gsObj; seenSet : option wipeSet; seenPods : option (list wipePod); seenJobs : option (list wipeJob);
  seenJob : option (option wipeJob) }.
(** The stored server, what was seen, and three records: the UIDs there have been,
    the requests (server and token) for which a Job of the server was seen
    succeeded, and the requests that were ever stored as completed. *)
Record Wiped := MkWiped {
  stored : option gsObj; seen : Seen; known : list string; proven : list (string * string); settled : list (string * string) }.

Definition ok_or {A} (r : result werr A) (a : option A) : option A := match r with Ok a => Some a | Err _ => a end.
Definition put_seen (s : Seen) (w : Wiped) : Wiped := MkWiped (stored w) s (known w) (proven w) (settled w).
Definition see_gs (r : result werr gsObj) (w : Wiped) : Wiped :=
  let s := seen w in put_seen (MkSeen (ok_or r (seenGS s)) (seenSet s) (seenPods s) (seenJobs s) (seenJob s)) w.
Definition see_set (r : result werr wipeSet) (w : Wiped) : Wiped :=
  let s := seen w in put_seen (MkSeen (seenGS s) (ok_or r (seenSet s)) (seenPods s) (seenJobs s) (seenJob s)) w.
Definition see_pods (r : result werr (list wipePod)) (w : Wiped) : Wiped :=
  let s := seen w in put_seen (MkSeen (seenGS s) (seenSet s) (ok_or r (seenPods s)) (seenJobs s) (seenJob s)) w.
Definition see_jobs (r : result werr (list wipeJob)) (w : Wiped) : Wiped :=
  let s := seen w in put_seen (MkSeen (seenGS s) (seenSet s) (seenPods s) (ok_or r (seenJobs s)) (seenJob s)) w.
(** A Job that reports success proves its request. *)
Definition proof_of (j : wipeJob) : list (string * string) :=
  match wjController j with
  | Some (_, _, u) => if 0 <? wjSucceeded j then [(u, ann (wjLabels j) wipeTokenLabel)] else []
  | None => []
  end.
Definition see_job (r : result werr wipeJob) (w : Wiped) : Wiped :=
  let s := seen w in
  let put j ps := MkWiped (stored w) (MkSeen (seenGS s) (seenSet s) (seenPods s) (seenJobs s) j) (known w) (ps ++ proven w) (settled w) in
  match r with
  | Ok j => put (Some (Some j)) (proof_of j)
  | Err NotFoundW => put (Some None) []
  | Err _ => w
  end.
Definition store (o : gsObj) (w : Wiped) : Wiped :=
  MkWiped (Some o) (seen w) (uid o :: known w) (proven w) ((uid o, completedToken o) :: settled w).

(** The same server with the same record of its wipes. *)
Definition frames (a b : gsObj) : Prop := nameOf a = nameOf b /\ uid a = uid b /\ success a = success b /\ completedToken a = completedToken b.

(** What a call may answer and do.  An update needs the stored version; calls may
    fail before or after they took effect. *)
Definition answered {B} (w : Wiped) (c : wcall B) (r : result werr B) (w' : Wiped) : Prop :=
  match c in wcall B return result werr B -> Prop with
  | GetGS => fun r => match r with Ok o => stored w = Some o | Err _ => True end /\ w' = see_gs r w
  | UpdateGS o => fun r =>
      (w' = w /\ exists e, r = Err e) \/
      (exists cur v, stored w = Some cur /\ gsVersion cur = gsVersion o /\ uid cur = uid o /\
        let o' := MkGsObj (gso o) v (gsConditions cur) in w' = store o' w /\ (r = Ok o' \/ exists e, r = Err e))
  | PatchStatus o => fun r =>
      (w' = w /\ exists e, r = Err e) \/
      (exists cur v, stored w = Some cur /\
        let o' := MkGsObj (gso cur) v (gsConditions o) in w' = store o' w /\ (r = Ok o' \/ exists e, r = Err e))
  | Claim want => fun r =>
      (w' = w /\ exists e, r = Err e) \/
      (exists cur o g, stored w = Some cur /\ uid cur = TargetUID want /\ frames cur o /\ frames cur g /\
        w' = store o w /\ (r = Ok g \/ exists e, r = Err e))
  | GetJob _ => fun r => w' = see_job r w
  | DeleteJob _ _ => fun _ => w' = w
  | CreateJob _ => fun _ => w' = w
  | ListPods => fun r => w' = see_pods r w
  | ListJobs => fun r => w' = see_jobs r w
  | GetSet => fun r => w' = see_set r w
  | UpdateSet _ => fun _ => w' = w
  end r.

Section Server.
Context (server : string).

(** Others change the server but not the record of its wipes, delete it, or create
    one with a new UID and no record. *)
Definition others (w w' : Wiped) : Prop :=
  seen w' = seen w /\ proven w' = proven w /\ settled w' = settled w /\ known w ⊆ known w' /\
  forall o', stored w' = Some o' -> uid o' ∈ known w' /\
    ((exists o, stored w = Some o /\ frames o o') \/ ((uid o' ∉ known w) /\ nameOf o' = server /\ success o' = EmptyString /\ completedToken o' = EmptyString)).

(** ** Reachable worlds *)

(** A call with the world it was made in. *)
Inductive wact : Type :=
| WAct {B : Type} (w : Wiped) (c : wcall B).

Fixpoint steps {A} (w : Wiped) (p : WP A) (tr : list wact) (w' : Wiped) : Prop :=
  (tr = [] /\ w' = w) \/
  match p with
  | Call c k => exists w1 r w2 tr', tr = WAct w1 c :: tr' /\ others w w1 /\ answered w1 c r w2 /\ steps w2 (k r) tr' w'
  | _ => False
  end.

(** An inventory handed to the wipe step was taken from what was seen last. *)
Definition honest (w : Wiped) (st : wipeWorkerState) : Prop :=
  wkObserved st = true -> exists o found pods, seenJob (seen w) = Some found /\ seenPods (seen w) = Some pods /\ st = inventoryOf o found pods.

Context `{OwnerCodec}.

Inductive wreach (w0 : Wiped) : list wact -> Wiped -> Prop :=
| wreach_start : wreach w0 [] w0
| wreach_others tr w w1 : wreach w0 tr w -> others w w1 -> wreach w0 tr w1
| wreach_look tr w found pods : wreach w0 tr w -> wreach w0 tr (see_pods pods (see_job found w))
| wreach_pass tr w image mount now o st tr' w1 : wreach w0 tr w -> honest w st ->
    steps w (wipeStep image mount now o st) tr' w1 -> wreach w0 (tr ++ tr') w1.

(** ** The invariant *)

(** A copy of the server that records nothing unproven. *)
Definition recorded (w : Wiped) (o : gsObj) : Prop :=
  (success o = EmptyString \/ (uid o, success o) ∈ proven w) /\ (completedToken o = EmptyString \/ (uid o, completedToken o) ∈ settled w).

Context (init : list (string * string)).

Definition inv (w : Wiped) : Prop :=
  (forall o, stored w = Some o -> nameOf o = server /\ uid o ∈ known w /\ recorded w o) /\
  (forall j u k n, seenJob (seen w) = Some (Some j) -> wjController j = Some (k, n, u) -> 0 < wjSucceeded j ->
     (u, ann (wjLabels j) wipeTokenLabel) ∈ proven w) /\
  (forall u t, (u, t) ∈ settled w -> t = EmptyString \/ (u, t) ∈ init \/ (u, t) ∈ proven w).

(** No worker was in sight: no Job of the server under the name of the wipe, no
    live pod labelled with the server. *)
Definition drained (w : Wiped) (u : string) : Prop :=
  exists found pods, seenJob (seen w) = Some found /\ seenPods (seen w) = Some pods /\
  (forall j k n u', found = Some j -> wjController j = Some (k, n, u') -> u' <> u) /\
  (forall p, p ∈ pods -> liveRestorePod (wpPod p) = true -> ann (wpLabels p) wipeUIDLabel <> u \/ u = EmptyString).

(** The evidence a worker for request [t] of server [u] is started on. *)
Definition launchable (w : Wiped) (u t : string) : Prop :=
  exists live s pods jobs,
    seenGS (seen w) = Some live /\ nameOf live = server /\ uid live = u /\
    oann live WipeRequestedAnnotation = t /\ oann live wipeGuardAnnotation = t /\ pendingWipe (gso live) = true /\
    oann live restoreGuardAnnotation = EmptyString /\ oann live backupGuardAnnotation = EmptyString /\
    (exists op, lifecycleOwner (gso live) = Ok (Some op) /\ Lifecycle.Kind (ident op) = "Wipe" /\ Token (ident op) = t /\ Recovery op = []) /\
    seenSet (seen w) = Some s /\ IsControlledBy (wsetController s) (gso live) = true /\
    ann (wsetAnnotations s) wipeGuardAnnotation = t /\ wsetReplicas s = Some 0 /\ wsetStatusReplicas s = 0 /\
    wsetGeneration s <= wsetObservedGeneration s /\
    seenPods (seen w) = Some pods /\ (forall p, p ∈ pods -> podUsesTarget (gso live) p = false) /\
    seenJobs (seen w) = Some jobs /\ (forall j, j ∈ jobs -> jobUsesTarget (gso live) j = false) /\
    (forall o, stored w = Some o -> uid o = u -> success o <> t /\ completedToken o <> t).

(** What a pass for server [u] may call. *)
Definition allowed {B} (u : string) (w : Wiped) (c : wcall B) : Prop :=
  match c with
  | UpdateGS o =>
      nameOf o = server /\ (success o = EmptyString \/ (uid o, success o) ∈ proven w) /\
      (completedToken o = EmptyString \/ (uid o, completedToken o) ∈ settled w \/ ((uid o, completedToken o) ∈ proven w /\ drained w (uid o)))
  | CreateJob j => njOwnerUID j = u /\ launchable w u (ann (njLabels j) wipeTokenLabel)
  | DeleteJob n id => exists j k m, seenJob (seen w) = Some (Some j) /\ wjUID j = id /\ wjController j = Some (k, m, u)
  | _ => True
  end.

(** ** What stays true *)

(** The records grow, and a known server keeps its record. *)
Definition grows (w w' : Wiped) : Prop :=
  known w ⊆ known w' /\ proven w ⊆ proven w' /\ settled w ⊆ settled w' /\
  forall o', stored w' = Some o' -> uid o' ∈ known w -> exists o, stored w = Some o /\ frames o o'.

Lemma frames_trans a b c : frames a b -> frames b c -> frames a c.
Proof using Type. unfold frames. intuition congruence. Qed.
Lemma grows_refl w : grows w w.
Proof using Type. split_and!; [done..|]. intros o Ho _. by exists o. Qed.
Lemma grows_trans w1 w2 w3 : grows w1 w2 -> grows w2 w3 -> grows w1 w3.
Proof using Type.
  intros (K1 & P1 & S1 & F1) (K2 & P2 & S2 & F2). split_and!; [by etrans..|]. intros o3 E3 Hk.
  destruct (F2 o3 E3) as (o2 & E2 & Hf2); [by apply K1|]. destruct (F1 o2 E2) as (o1 & E1 & Hf1).
  { by destruct Hf2 as (_ & -> & _). }
  exists o1. split; [done|]. by eapply frames_trans.
Qed.
Lemma grows_others w w' : others w w' -> grows w w'.
Proof using Type.
  intros (_ & Ep & Et & Hk & Hs). unfold grows. rewrite Ep, Et. split_and!; [done..|]. intros o' Ho Hin. by destruct (Hs o' Ho) as [_ [Hf|[Hn _]]].
Qed.
Lemma grows_seen s w : grows w (put_seen s w).
Proof using Type. split_and!; [done..|]. intros o Ho _. by exists o. Qed.
Lemma grows_store o w : (exists cur, stored w = Some cur /\ frames cur o) -> grows w (store o w).
Proof using Type.
  intros (cur & Hc & Hf). split_and!; cbn; [set_solver|done|set_solver|]. intros o' [= <-] _. by exists cur.
Qed.
Definition isUpdate {B} (c : wcall B) : bool := match c with UpdateGS _ => true | _ => false end.
Lemma grows_answered {B} w (c : wcall B) r w' : isUpdate c = false -> answered w c r w' -> grows w w'.
Proof using Type.
  destruct c; cbn; try done; intros _ Ha; try (subst w'; first [apply grows_refl|apply grows_seen]).
  - destruct Ha as [_ ->]. apply grows_seen.
  - destruct Ha as [[-> _]|(cur & v & Hc & -> & _)]; [apply grows_refl|]. apply grows_store. exists cur. by split_and!.
  - destruct Ha as [[-> _]|(cur & o & g & Hc & _ & Hf & _ & -> & _)]; [apply grows_refl|]. apply grows_store. by exists cur.
  - subst w'. unfold see_job. destruct r as [j|[]]; try apply grows_refl; (split_and!; cbn; [done|set_solver|done|]; intros o Ho _; by exists o).
Qed.

Lemma recorded_grows w w' o : grows w w' -> recorded w o -> recorded w' o.
Proof using Type. intros (_ & P & S & _) [[H1|H1] [H2|H2]]; split; auto. Qed.
Lemma recorded_frames w a b : frames a b -> recorded w a -> recorded w b.
Proof using Type. unfold recorded. by intros (_ & -> & -> & ->). Qed.

(** The invariant is kept by others, by looks and by allowed calls. *)
Lemma inv_others w w' : others w w' -> inv w -> inv w'.
Proof using Type.
  intros Ho (H1 & H2 & H3). pose proof (grows_others _ _ Ho) as Hg. destruct Ho as (Es & Ep & Et & Hk & Hs). split_and!.
  - intros o' E'. destruct (Hs o' E') as [Hin [(o & Eo & Hf)|(_ & En & E1 & E2)]].
    + destruct (H1 o Eo) as (En & _ & Hr). split_and!; [by destruct Hf as [<- _]|done|].
      apply (recorded_frames _ o); [done|]. by apply (recorded_grows w).
    + split_and!; [done..|]. split; by left.
  - rewrite Es, Ep. exact H2.
  - rewrite Et, Ep. exact H3.
Qed.
Lemma inv_seen w s : seenJob s = seenJob (seen w) -> inv w -> inv (put_seen s w).
Proof using Type. intros E (H1 & H2 & H3). split_and!; [exact H1| |exact H3]. cbn. rewrite E. exact H2. Qed.
Lemma inv_see_job w r : inv w -> inv (see_job r w).
Proof using Type.
  intros (H1 & H2 & H3). unfold see_job. destruct r as [j|[]]; [| |by split_and!..].
  - split_and!; cbn.
    + intros o Ho. destruct (H1 o Ho) as (Hn & Hk & Hr). split_and!; [done..|]. destruct Hr as [[E|E] Hc]; split; auto. right. by apply elem_of_app; right.
    + intros j' u k n [= <-] Ec Hs. apply elem_of_app. left. unfold proof_of. rewrite Ec, (proj2 (Z.ltb_lt _ _) Hs). by left.
    + intros u t Hin. destruct (H3 u t Hin) as [?|[?|?]]; auto. do 2 right. by apply elem_of_app; right.
  - split_and!; cbn; [done|done|]. exact H3.
Qed.
Lemma inv_store w o : nameOf o = server -> recorded (store o w) o -> (completedToken o = EmptyString \/ (uid o, completedToken o) ∈ settled w \/ (uid o, completedToken o) ∈ proven w) ->
  inv w -> inv (store o w).
Proof using Type.
  intros Hn Hr Hc (H1 & H2 & H3). split_and!; cbn; [|exact H2|].
  - intros o' [= <-]. split_and!; [done|by left|done].
  - intros u t [[= -> ->]|Hin]%elem_of_cons; [|by apply H3]. destruct Hc as [?|[?|?]]; [by left|by apply H3|by do 2 right].
Qed.
Lemma recorded_store w o : (success o = EmptyString \/ (uid o, success o) ∈ proven w) -> recorded (store o w) o.
Proof using Type. intros Hs. split; [done|]. right. by left. Qed.
Lemma inv_answered {B} u w (c : wcall B) r w' : inv w -> allowed u w c -> answered w c r w' -> inv w'.
Proof.
  intros Hi Ha Hr. destruct c; cbn in Hr; try (subst w'; first [done|by apply inv_seen|by apply inv_see_job]).
  - destruct Hr as [_ ->]. by apply inv_seen.
  - destruct Ha as (Hn & Hs & Hc). destruct Hr as [[-> _]|(cur & v & _ & _ & _ & -> & _)]; [done|].
    apply inv_store; [done|by apply recorded_store| |done]. destruct Hc as [?|[?|[? _]]]; auto.
  - destruct Hr as [[-> _]|(cur & v & Hcur & -> & _)]; [done|]. destruct (proj1 Hi _ Hcur) as (Hn & _ & Hs & Hc).
    apply inv_store; [done|by apply recorded_store| |done]. destruct Hc as [?|?]; auto.
  - destruct Hr as [[-> _]|(cur & o & g & Hcur & _ & Hf & _ & -> & _)]; [done|]. destruct (proj1 Hi _ Hcur) as (Hn & _ & Hrec). pose proof (proj1 Hf) as En.
    assert (nameOf o = server) by congruence.
    apply (recorded_frames _ _ o) in Hrec as [Hs Hc]; [|done].
    apply inv_store; [done|by apply recorded_store| |done]. destruct Hc as [?|?]; auto.
Qed.

(** ** A logic for passes *)

(** Every call of the program is allowed, whatever others do before it and whatever
    it is answered; [Q] holds at the end. *)
Fixpoint wsafe {A} (u : string) (w : Wiped) (p : WP A) (Q : A -> Wiped -> Prop) : Prop :=
  match p with
  | Ret a => Q a w
  | Call c k => forall w1, others w w1 -> inv w1 ->
      allowed u w1 c /\ forall r w2, answered w1 c r w2 -> inv w2 -> wsafe u w2 (k r) Q
  | OutOfFuel => True
  end.

Lemma wsafe_bind {A B} u (p : WP A) (f : A -> WP B) Q w :
  wsafe u w p (fun a w' => wsafe u w' (f a) Q) -> wsafe u w (pbind p f) Q.
Proof. revert w. induction p as [a|C c k IH|]; intros w Hp; cbn in *; [done| |done]. intros w1 Ho Hi. destruct (Hp w1 Ho Hi). split; [done|]. eauto. Qed.
Lemma wsafe_check {A B} u (p : WP (result werr A)) (f : A -> WP (result werr B)) Q w :
  wsafe u w p (fun r w' => match r with Ok a => wsafe u w' (f a) Q | Err e => Q (Err e) w' end) -> wsafe u w (pcheck p f) Q.
Proof. intros Hp. apply wsafe_bind. revert w Hp. induction p as [[a|e]|C c k IH|]; cbn; [done..| |done]. intros w Hp w1 Ho Hi. destruct (Hp w1 Ho Hi). eauto. Qed.
Lemma wsafe_mono {A} u (p : WP A) (Q Q' : A -> Wiped -> Prop) w : wsafe u w p Q -> (forall a w', Q a w' -> Q' a w') -> wsafe u w p Q'.
Proof. intros Hp HQ. revert w Hp. induction p as [a|C c k IH|]; cbn; intros w Hp; [by apply HQ| |done]. intros w1 Ho Hi. destruct (Hp w1 Ho Hi). eauto. Qed.

(** A call that stores nothing of its own making. *)
Lemma wsafe_call {A B} u w (c : wcall B) (k : result werr B -> WP A) Q : isUpdate c = false ->
  (forall w1, others w w1 -> allowed u w1 c) ->
  (forall w1 r w2, others w w1 -> answered w1 c r w2 -> grows w w2 -> inv w2 -> wsafe u w2 (k r) Q) -> wsafe u w (Call c k) Q.
Proof.
  intros Hc Ha Hk w1 Ho Hi. split; [by apply Ha|]. intros r w2 Hr Hi2. apply (Hk w1); [done..| |done].
  eapply grows_trans; [by apply grows_others|by eapply grows_answered].
Qed.

(** A run of a safe program. *)
Lemma wsafe_steps {A} u (p : WP A) Q w tr w' : inv w -> wsafe u w p Q -> steps w p tr w' ->
  inv w' /\ forall B w1 (c : wcall B), WAct w1 c ∈ tr -> allowed u w1 c.
Proof.
  revert w tr. induction p as [a|C c k IH|]; intros w tr Hi Hs [[-> ->]|Hst];
    try (split; [done|intros ??? Hin; by apply elem_of_nil in Hin]); try done.
  destruct Hst as (w1 & r & w2 & tr' & -> & Ho & Ha & Hst). pose proof (inv_others _ _ Ho Hi) as Hi1.
  destruct (Hs w1 Ho Hi1) as [Hal Hk]. pose proof (inv_answered _ _ _ _ _ Hi1 Hal Ha) as Hi2.
  destruct (IH r w2 tr' Hi2 (Hk _ _ Ha Hi2) Hst) as [Hi' Hall]. split; [done|].
  intros B w3 c' [E|Hin]%elem_of_cons; [|by eapply Hall]. revert Hal.
  refine (match E in _ = x return match x with WAct wx cx => allowed u wx cx -> allowed u w3 c' end with eq_refl => fun H => H end).
Qed.

(** ** Copies of the server *)

(** A copy of server [u] that the stored one, if it still exists, agrees with. *)
Definition mine (u : string) (w : Wiped) (g : gsObj) : Prop :=
  nameOf g = server /\ uid g = u /\ u ∈ known w /\ recorded w g /\
  forall o, stored w = Some o -> uid o = u -> success o = success g /\ completedToken o = completedToken g.

Lemma mine_grows u w w' g : grows w w' -> mine u w g -> mine u w' g.
Proof using Type.
  intros Hg (Hn & Hu & Hk & Hr & Ha). pose proof (recorded_grows _ _ _ Hg Hr). destruct Hg as (K & _ & _ & F).
  split_and!; [done..|by apply K|done|]. intros o' Ho' Eu. destruct (F o' Ho') as (o & Ho & _ & Eu' & <- & <-); [by rewrite Eu|].
  by apply Ha, eq_trans with (uid o').
Qed.
Lemma mine_stored w g : inv w -> stored w = Some g -> mine (uid g) w g.
Proof using Type. intros Hi Hs. destruct (proj1 Hi _ Hs) as (Hn & Hk & Hr). split_and!; [done..|]. intros o Ho _. by rewrite Hs in Ho; simplify_eq. Qed.
Lemma mine_frames u w a b : frames a b -> mine u w a -> mine u w b.
Proof using Type.
  intros Hf (Hn & Hu & Hk & Hr & Ha). pose proof (recorded_frames _ _ _ Hf Hr). destruct Hf as (E1 & E2 & E3 & E4).
  split_and!; [congruence|congruence|done..|]. rewrite <- E3, <- E4. exact Ha.
Qed.

(** The inventory of what was seen. *)
Definition loaded (w : Wiped) (o : gsObj) (st : wipeWorkerState) : Prop :=
  exists found pods, seenJob (seen w) = Some found /\ seenPods (seen w) = Some pods /\ st = inventoryOf o found pods.

Lemma inventory_same o o' found pods : matches (inventoryOf o found pods) o' = true -> inventoryOf o found pods = inventoryOf o' found pods.
Proof using Type.
  unfold matches, inventoryOf. cbn. rewrite !andb_true_iff, !String.eqb_eq. intros [[E1 E2] E3].
  destruct o as [[n i ge d a s] v c], o' as [[n' i' ge' d' a' s'] v' c']; cbn in *; subst. done.
Qed.
Lemma load_spec u w o st Q : inv w -> honest w st ->
  (forall w' st', grows w w' -> inv w' -> loaded w' o st' -> Q (Ok st') w') -> (forall w' e, Q (Err e) w') ->
  wsafe u w (loadWipeWorkers o st) Q.
Proof.
  intros Hi Hh HQ HE. unfold loadWipeWorkers. destruct (matches st o) eqn:Em.
  - apply HQ; [apply grows_refl|done|]. destruct Hh as (o' & found & pods & E1 & E2 & ->).
    { unfold matches in Em. by destruct (wkObserved st). }
    exists found, pods. split_and!; [done..|]. by apply inventory_same.
  - apply wsafe_call; [done..|]. intros w1 r w2 Ho Ha Hg Hi2. cbn in Ha. subst w2.
    assert (forall found, seenJob (seen (see_job r w1)) = Some found ->
      wsafe u (see_job r w1) (pcheck (call ListPods) (fun pods => Ret (Ok (inventoryOf o found pods)))) Q) as Hp.
    { intros found Ef. apply wsafe_call; [done..|]. intros w3 r2 w4 Ho2 Ha2 Hg2 Hi4. cbn in Ha2. subst w4.
      destruct r2 as [pods|e]; [|apply HE]. apply HQ; [by eapply grows_trans|done|]. exists found, pods.
      split_and!; [|done..]. cbn. destruct Ho2 as [-> _]. done. }
    destruct r as [j|[]]; [by apply Hp|by apply Hp|apply HE..].
Qed.

(** ** The steps of a pass *)

Lemma others_seen w w1 : others w w1 -> seen w1 = seen w.
Proof using Type. by intros (? & _). Qed.

Lemma delete_spec u w gs name Q : inv w -> gsUID gs = u -> (forall a w', grows w w' -> inv w' -> Q a w') ->
  wsafe u w (deleteWipeJob gs name) Q.
Proof.
  intros Hi Hu HQ. unfold deleteWipeJob. apply wsafe_call; [done..|]. intros w1 r w2 Ho Ha Hg Hi2. cbn in Ha. subst w2.
  destruct r as [j|e]; [|by apply HQ]. destruct (IsControlledBy (wjController j) gs) eqn:Ec; [|by apply HQ].
  apply wsafe_call; [done|..].
  - intros w3 Ho3. cbn. rewrite (others_seen _ _ Ho3). cbn. unfold IsControlledBy in Ec.
    destruct (wjController j) as [[[k n] u']|] eqn:Ej; [|done]. apply String.eqb_eq in Ec. subst. by exists j, k, n.
  - intros w3 r w4 _ _ Hg4 Hi4. apply HQ; [by eapply grows_trans|done].
Qed.
Lemma deletes_spec u gs jobs w Q : inv w -> gsUID gs = u -> (forall a w', grows w w' -> inv w' -> Q a w') ->
  wsafe u w (deleteWipeJobs gs jobs) Q.
Proof.
  revert w. induction jobs as [|j jobs IH]; intros w Hi Hu HQ; cbn [deleteWipeJobs]; [by apply HQ; [apply grows_refl|]|].
  destruct (wjDeleting j); [by apply IH|]. apply wsafe_check, delete_spec; [done..|].
  intros [[]|e] w' Hg Hi'; [|by apply HQ]. apply IH; [done..|]. intros a w2 Hg2 Hi2. apply HQ; [by eapply grows_trans|done].
Qed.

(** What was seen when the target was found stopped. *)
Definition stopped_seen (w : Wiped) (o : gsObj) : Prop := exists s pods jobs,
  seenSet (seen w) = Some s /\ IsControlledBy (wsetController s) (gso o) = true /\
  ann (wsetAnnotations s) wipeGuardAnnotation = oann o wipeGuardAnnotation /\ setStopped s = true /\
  seenPods (seen w) = Some pods /\ existsb (podUsesTarget (gso o)) pods = false /\
  seenJobs (seen w) = Some jobs /\ existsb (jobUsesTarget (gso o)) jobs = false.

Lemma stopped_spec u w o Q : inv w -> (forall w' e, Q (Err e) w') -> (forall w', Q (Ok false) w') ->
  (forall w', grows w w' -> inv w' -> stopped_seen w' o -> Q (Ok true) w') -> wsafe u w (wipeTargetStopped o) Q.
Proof.
  intros Hi HE HF HT. unfold wipeTargetStopped. apply wsafe_call; [done..|]. intros w1 r w2 Ho Ha Hg Hi2. cbn in Ha. subst w2.
  destruct r as [s|[]]; [|apply HF|apply HE..]. destruct (IsControlledBy (wsetController s) (gso o)) eqn:Ec; [cbn [negb]|apply HE].
  destruct (String.eqb_spec (ann (wsetAnnotations s) wipeGuardAnnotation) (gann (gso o) wipeGuardAnnotation)) as [Em|]; cbn [negb].
  2:{ apply wsafe_call; [done..|]. intros w3 [[]|e] w4 _ _ _ _; [apply HF|apply HE]. }
  destruct (setStopped s) eqn:Es; [cbn [negb]|apply HF].
  apply wsafe_call; [done..|]. intros w3 r w4 Ho3 Ha3 Hg4 Hi4. cbn in Ha3. subst w4. destruct r as [pods|e]; [|apply HE].
  cbn [pbind]. destruct (existsb (podUsesTarget (gso o)) pods) eqn:Ep; [apply HF|].
  apply wsafe_call; [done..|]. intros w5 r w6 Ho5 Ha5 Hg6 Hi6. cbn in Ha5. subst w6. destruct r as [jobs|e]; [|apply HE].
  cbn. destruct (existsb (jobUsesTarget (gso o)) jobs) eqn:Ej; [apply HF|].
  apply HT; [eapply grows_trans; [exact Hg|by eapply grows_trans]|done|]. exists s, pods, jobs. cbn.
  rewrite (others_seen _ _ Ho5). cbn. rewrite (others_seen _ _ Ho3). by split_and!.
Qed.

(** The release. *)
Lemma clear_frames ss written gs want g : clearLifecycleOperation ss written gs want = Ok g ->
  gsName g = gsName gs /\ gsUID g = gsUID gs /\ forall k, k <> lifecycleOperationAnnotation -> gann g k = gann gs k.
Proof.
  unfold clearLifecycleOperation. intros Hc. repeat case_match; simplify_eq; try done; (split_and!; [done..|]).
  all: intros k Hk; unfold gann, ann; cbn; by rewrite lookup_delete_ne.
Qed.
Lemma gann_insert_ne gs k v k' : k <> k' -> gann (with_ann gs (<[k := v]> (gsAnnotations gs))) k' = gann gs k'.
Proof using Type. intros Hk. unfold gann, ann. cbn. by rewrite lookup_insert_ne. Qed.

(** What the released server records. *)
Lemma released_records gs token success_ :
  let g := releasedWipe gs token success_ in
  gsName g = gsName gs /\ gsUID g = gsUID gs /\
  (gann g wipeSuccessAnnotation = EmptyString \/ gann g wipeSuccessAnnotation = gann gs wipeSuccessAnnotation) /\
  gann g WipeCompletedAnnotation = if success_ then token else gann gs WipeCompletedAnnotation.
Proof.
  assert (forall g1 : GS, gsName g1 = gsName gs -> gsUID g1 = gsUID gs ->
    gann g1 wipeSuccessAnnotation = gann gs wipeSuccessAnnotation ->
    gann g1 WipeCompletedAnnotation = (if success_ then token else gann gs WipeCompletedAnnotation) ->
    let g := if String.eqb (gann g1 wipeSuccessAnnotation) token then with_ann g1 (delete wipeSuccessAnnotation (gsAnnotations g1)) else g1 in
    gsName g = gsName gs /\ gsUID g = gsUID gs /\
    (gann g wipeSuccessAnnotation = EmptyString \/ gann g wipeSuccessAnnotation = gann gs wipeSuccessAnnotation) /\
    gann g WipeCompletedAnnotation = if success_ then token else gann gs WipeCompletedAnnotation) as Hlast.
  { intros g1 E1 E2 E3 E4. cbn zeta. destruct (String.eqb _ token); [|by split_and!; auto].
    split_and!; [done..|left|]; [by unfold gann, ann; cbn; rewrite lookup_delete_eq|].
    rewrite <- E4. unfold gann, ann. cbn. by rewrite lookup_delete_ne. }
  unfold releasedWipe. cbn zeta. apply Hlast; destruct success_; [done| |done| | | | |];
    try (destruct (pendingWipe gs); unfold gann, ann; cbn; rewrite ?lookup_insert_ne, ?lookup_delete_ne by done; done).
  all: unfold gann, ann; cbn; rewrite ?lookup_delete_ne, ?lookup_insert_ne by done; try done; by rewrite lookup_insert_eq.
Qed.

(** An update of the server that ends a program. *)
Lemma update_spec {A} u w o (k : result werr gsObj -> WP A) Q : nameOf o = server ->
  (success o = EmptyString \/ (uid o, success o) ∈ proven w) ->
  (completedToken o = EmptyString \/ (uid o, completedToken o) ∈ settled w \/ ((uid o, completedToken o) ∈ proven w /\ drained w (uid o))) ->
  (forall r w', wsafe u w' (k r) Q) -> wsafe u w (Call (UpdateGS o) k) Q.
Proof.
  intros Hn Hs Hc Hk w1 Ho Hi1. split; [|by intros]. cbn. destruct (grows_others _ _ Ho) as (_ & P & S & _). split_and!; [done| |].
  - destruct Hs; auto.
  - destruct Hc as [?|[?|[? Hd]]]; auto. do 2 right. split; [by apply P|]. unfold drained. by rewrite (others_seen _ _ Ho).
Qed.

(** Reading the server. *)
Lemma read_spec {A} u w (k : result werr gsObj -> WP A) Q : (forall w' e, wsafe u w' (k (Err e)) Q) ->
  (forall w' live, grows w w' -> inv w' -> mine (uid live) w' live -> seen w' = seen (see_gs (Ok live) w) -> wsafe u w' (k (Ok live)) Q) ->
  wsafe u w (Call GetGS k) Q.
Proof.
  intros HE HQ. apply wsafe_call; [done..|]. intros w1 r w2 Ho [Hr ->] Hg Hi2. destruct r as [live|e]; [|apply HE].
  apply HQ; [done|done|by apply mine_stored|]. cbn. by rewrite (others_seen _ _ Ho).
Qed.

(** A call about the StatefulSet leaves the rest alone. *)
Lemma set_spec {A B} u w (c : wcall B) (k : result werr B -> WP A) Q :
  match c with GetSet => True | UpdateSet _ => True | _ => False end ->
  (forall w' r, grows w w' -> inv w' -> seenJob (seen w') = seenJob (seen w) -> seenPods (seen w') = seenPods (seen w) -> wsafe u w' (k r) Q) ->
  wsafe u w (Call c k) Q.
Proof.
  intros Hc HQ. destruct c; try done; (apply wsafe_call; [done..|]); intros w1 r w2 Ho -> Hg Hi2;
    (apply HQ; [done..| |]); cbn; by rewrite (others_seen _ _ Ho).
Qed.

Lemma drained_same w w' u : seenJob (seen w') = seenJob (seen w) -> seenPods (seen w') = seenPods (seen w) -> drained w u -> drained w' u.
Proof using Type. unfold drained. by intros -> ->. Qed.

(** The part of a release that touches the StatefulSet. *)
Definition calm (w w' : Wiped) : Prop :=
  grows w w' /\ inv w' /\ seenJob (seen w') = seenJob (seen w) /\ seenPods (seen w') = seenPods (seen w).
Lemma calm_refl w : inv w -> calm w w.
Proof using Type. intros Hi. split_and!; [apply grows_refl|done..]. Qed.
Lemma calm_trans w1 w2 w3 : calm w1 w2 -> calm w2 w3 -> calm w1 w3.
Proof using Type. intros (G1 & _ & E1 & F1) (G2 & I2 & E2 & F2). split_and!; [by eapply grows_trans|done|congruence..]. Qed.
Lemma set_calm {A B} u w (c : wcall B) (k : result werr B -> WP A) Q :
  match c with GetSet => True | UpdateSet _ => True | _ => False end ->
  (forall w' r, calm w w' -> wsafe u w' (k r) Q) -> wsafe u w (Call c k) Q.
Proof. intros Hc HQ. apply set_spec; [done|]. intros. by apply HQ. Qed.

Lemma unfence_spec u w gs token Q : inv w -> (forall r w', calm w w' -> Q r w') -> wsafe u w (clearWipeWorkloadGuard gs token) Q.
Proof.
  intros Hi HQ. apply set_calm; [done|]. intros w1 r Hc. destruct r as [s|[]]; try by apply HQ. cbn [pbind].
  destruct (_ && _); [|by apply HQ]. apply set_calm; [done|]. intros w2 r Hc2. apply HQ. by eapply calm_trans.
Qed.
Lemma clear_spec u w gs want Q : inv w -> (forall w' e, Q (Err e) w') ->
  (forall w' g, calm w w' -> gsName g = gsName gs -> gsUID g = gsUID gs ->
     (forall k, k <> lifecycleOperationAnnotation -> gann g k = gann gs k) -> Q (Ok g) w') ->
  wsafe u w (clearOwner gs want) Q.
Proof.
  intros Hi HE HQ. unfold clearOwner. destruct (clearLifecycleOperation (Some None) true gs want) as [g0|] eqn:E0; [|apply HE].
  destruct (String.eqb _ ""); [apply HQ; [by apply calm_refl|done..]|].
  assert (forall w' ss written, calm w w' -> wsafe u w'
    (match clearLifecycleOperation ss written gs want with Ok g => Ret (Ok g) | Err _ => Ret (Err OtherW) end) Q) as Hd.
  { intros w' ss written Hc. destruct (clearLifecycleOperation ss written gs want) as [g|] eqn:E; [|apply HE].
    apply clear_frames in E as (E1 & E2 & E3). by apply HQ. }
  apply set_calm; [done|]. intros w1 r Hc. destruct r as [s|[]]; [|specialize (Hd w1 (Some None) true Hc); by rewrite E0 in Hd|apply HE..].
  cbn [pbind]. cbv zeta beta. destruct (_ && _); [|exact (Hd w1 _ true Hc)]. apply set_calm; [done|]. intros w2 r Hc2. refine (Hd w2 _ _ _). by eapply calm_trans.
Qed.

(** Completed only on proof and after the workers were seen gone. *)
Lemma release_spec u w o token success_ Q : uid o = u -> token <> EmptyString -> (success_ = true -> drained w u) ->
  (forall r w', Q r w') -> wsafe u w (releaseWipeGuard o token success_) Q.
Proof.
  intros Hu Ht Hd HQ. apply read_spec; [intros; apply HQ|]. intros w1 live Hg Hi Hm Hs. cbn [pbind].
  destruct (_ || _) eqn:Ec; [apply HQ|]. destruct (success_ && (_ || _)); [apply HQ|].
  destruct (success_ && negb _) eqn:Es; [apply HQ|].
  apply orb_false_iff in Ec as [[Eu _]%orb_false_iff _]. apply negb_false_iff, String.eqb_eq in Eu.
  assert (uid live = u) as El by (unfold uid in *; congruence). rewrite El in Hm.
  apply wsafe_check, unfence_spec; [done|]. intros [[]|e] w2 Hc2; [|apply HQ].
  apply wsafe_check, clear_spec; [by apply Hc2|intros; apply HQ|]. intros w3 g Hc3 En Ei Ea.
  destruct (calm_trans _ _ _ Hc2 Hc3) as (Hg3 & _ & E1 & E2). apply (mine_grows _ _ _ _ Hg3) in Hm as (Hn & _ & _ & [Hsu Hco] & _).
  destruct (released_records g token success_) as (R1 & R2 & R3 & R4).
  assert (gann g wipeSuccessAnnotation = success live) as Eg1 by (by apply Ea).
  assert (gann g WipeCompletedAnnotation = completedToken live) as Eg2 by (by apply Ea).
  set (o' := put_gs live (releasedWipe g token success_)).
  assert (uid o' = u) as Eo by (unfold uid, o'; cbn [put_gs gso]; by rewrite R2, Ei).
  apply update_spec; [by unfold nameOf, o'; cbn [put_gs gso]; rewrite R1, En|..].
  - rewrite Eo. unfold success, oann, o'. cbn [put_gs gso]. destruct R3 as [->| ->]; [by left|]. rewrite Eg1, <- El. exact Hsu.
  - rewrite Eo. change (completedToken o') with (gann (releasedWipe g token success_) WipeCompletedAnnotation). rewrite R4.
    destruct success_; [|rewrite Eg2, <- El; destruct Hco; auto]. do 2 right.
    apply negb_false_iff, String.eqb_eq in Es. change (success live = token) in Es. split.
    + rewrite <- Es, <- El. destruct Hsu as [E|]; [congruence|done].
    + eapply drained_same; [exact E1|exact E2|]. eapply drained_same; [..|by apply Hd]; by rewrite Hs.
  - intros r w'. apply HQ.
Qed.

Lemma record_spec u w o token Q : uid o = u -> (u, token) ∈ proven w -> (forall r w', Q r w') -> wsafe u w (recordWipeSuccess o token) Q.
Proof.
  intros Hu Hp HQ. apply read_spec; [intros; apply HQ|]. intros w1 live Hg Hi Hm Hs. cbn [pbind].
  destruct (_ || _) eqn:Ec; [apply HQ|]. do 4 apply orb_false_iff in Ec as [Ec _]. apply negb_false_iff, String.eqb_eq in Ec.
  assert (uid live = u) as El by (unfold uid in *; congruence). destruct Hm as (Hn & _ & _ & [_ Hco] & _).
  set (o' := put_gs live (with_ann (gso live) (<[wipeSuccessAnnotation := token]> (gsAnnotations (gso live))))).
  assert (success o' = token) as E1 by (unfold success, oann, o'; cbn [put_gs gso]; apply gann_insert).
  assert (completedToken o' = completedToken live) as E2 by (unfold completedToken, oann, o'; cbn [put_gs gso]; by apply gann_insert_ne).
  apply update_spec; [exact Hn|..].
  - right. rewrite E1. change (uid o') with (uid live). rewrite El. by apply Hg.
  - rewrite E2. change (uid o') with (uid live). destruct Hco; auto.
  - intros. apply HQ.
Qed.

Lemma ready_owner gs token : wipeLifecycleReady gs token = Ok true ->
  exists op, lifecycleOwner gs = Ok (Some op) /\ Lifecycle.Kind (ident op) = "Wipe" /\ Token (ident op) = token /\ Recovery op = [].
Proof.
  unfold wipeLifecycleReady. destruct (String.eqb _ ""); [done|]. destruct (lifecycleOwner gs) as [[op|]|]; [|done..].
  intros [= Hr]. apply andb_true_iff in Hr as [(E1 & _ & _ & _ & E2)%same_iff E3%Nat.eqb_eq]. exists op.
  split_and!; [done..|]. by destruct (Recovery op).
Qed.
Lemma existsb_none {A} (f : A -> bool) l : existsb f l = false -> forall x, x ∈ l -> f x = false.
Proof using Type. intros E x Hin. apply not_true_iff_false. intros Hx. apply not_true_iff_false in E. apply E, existsb_exists. exists x. by rewrite <- list_elem_of_In. Qed.

(** A worker is started on the evidence. *)
Lemma launch_wipe_spec image mount u w o guard Q : inv w -> mine u w o -> oann o wipeGuardAnnotation = guard -> success o <> guard ->
  (forall r w', Q r w') -> wsafe u w (launchWipe image mount o guard) Q.
Proof.
  intros Hi Hm Eg Hne HQ. apply wsafe_check, stopped_spec; [done|intros; apply HQ..|]. intros w1 Hg1 Hi1 (s & pods & jobs & Hst).
  cbn [negb]. apply read_spec; [intros; apply HQ|]. intros w2 live Hg2 Hi2 Hml Hs2. cbn [pbind].
  destruct (_ || _) eqn:Ec; [apply HQ|]. repeat (apply orb_false_iff in Ec as [Ec ?H]).
  repeat match goal with E : negb _ = false |- _ => apply negb_false_iff in E end.
  repeat match goal with E : String.eqb _ _ = true |- _ => apply String.eqb_eq in E end.
  destruct (wipeLifecycleReady (gso live) guard) as [[]|] eqn:Er; [|apply HQ..]. apply ready_owner in Er as (op & Hop).
  pose proof (mine_grows _ _ _ _ (grows_trans _ _ _ Hg1 Hg2) Hm) as Hmo.
  assert (uid live = u) as El by (destruct Hm as (_ & <- & _); exact Ec). rewrite El in Hml.
  assert (gsName (gso o) = gsName (gso live) /\ gsUID (gso o) = gsUID (gso live)) as [En Eu].
  { destruct Hm as (Hn & Hu & _), Hml as (Hn' & _). unfold nameOf, uid in *. by split; congruence. }
  intros w3 Ho3 Hi3. split; [|intros; apply HQ]. cbn -[launchable wipeJobFor]. split; [exact El|].
  replace (ann (njLabels _) wipeTokenLabel) with guard by (unfold ann; cbn; by rewrite lookup_insert_eq).
  pose proof (grows_others _ _ Ho3) as Hg3. apply (mine_grows _ _ _ _ Hg3) in Hmo as (_ & _ & _ & _ & Ao), Hml as (Hn & _ & _ & _ & Al).
  exists live, s, pods, jobs. rewrite (others_seen _ _ Ho3), Hs2. cbn [see_gs put_seen seen seenGS seenSet seenPods seenJobs ok_or].
  destruct Hst as (S1 & S2 & S3 & S4 & S5 & S6 & S7 & S8). unfold setStopped in S4.
  apply andb_true_iff in S4 as [[T1%bool_decide_eq_true T2%Z.eqb_eq]%andb_true_iff T3%negb_true_iff]. apply Z.ltb_ge in T3.
  split_and!; try done.
  - by exists op.
  - unfold IsControlledBy in *. by rewrite <- Eu.
  - by rewrite S3.
  - intros p Hin. pose proof (existsb_none _ _ S6 p Hin) as E. unfold podUsesTarget in *. by rewrite <- En, <- Eu.
  - intros j Hin. pose proof (existsb_none _ _ S8 j Hin) as E. unfold jobUsesTarget in *. by rewrite <- En.
  - intros o1 Ho1 Eu1. split; [destruct (Ao o1 Ho1 Eu1) as [-> _]; done|]. destruct (Al o1 Ho1 Eu1) as [_ ->].
    unfold completedToken. intros E. unfold pendingWipe in *. unfold oann in *.
    match goal with P : _ && negb (String.eqb ?a ?b) = true |- _ => replace b with a in P by congruence; by rewrite String.eqb_refl, andb_false_r in P end.
Qed.

Lemma wclaim_spec {A} u w gs token (k : result werr gsObj -> WP A) Q : gsUID gs = u -> (forall w' e, wsafe u w' (k (Err e)) Q) ->
  (forall w' g, inv w' -> mine u w' g -> seen w' = seen w -> wsafe u w' (k (Ok g)) Q) ->
  wsafe u w (Call (Claim (wipeLifecycleIdentity gs token)) k) Q.
Proof.
  intros Hu HE HQ w1 Ho Hi1. split; [done|]. intros r w2 Ha Hi2.
  destruct Ha as [[-> [e ->]]|(cur & o & g & Hc & Eu & Hf & Hfg & -> & Hr)]; [apply HE|]. destruct Hr as [->|[e ->]]; [|apply HE].
  apply HQ; [done| |cbn; by apply others_seen]. cbn in Eu.
  assert (uid o = u) as <- by (destruct Hf as (_ & <- & _); congruence).
  apply (mine_frames _ _ o); [|by apply mine_stored]. destruct Hf as (F1 & F2 & F3 & F4), Hfg as (G1 & G2 & G3 & G4).
  by split_and!; congruence.
Qed.
Lemma honest_same w w' st : seenJob (seen w') = seenJob (seen w) -> seenPods (seen w') = seenPods (seen w) -> honest w st -> honest w' st.
Proof using Type. unfold honest. by intros -> ->. Qed.
Lemma loaded_honest w o st : loaded w o st -> honest w st.
Proof using Type. intros (found & pods & Hl) _. by exists o, found, pods. Qed.

Lemma ensure_guard_spec u w o st Q : inv w -> honest w st -> uid o = u -> (forall w' e, Q (Err e) w') ->
  (forall w' c g st', inv w' -> mine u w' g -> honest w' st' -> Q (Ok (c, g, st')) w') -> wsafe u w (ensureWipeGuard o st) Q.
Proof.
  intros Hi Hh Hu HE HQ. apply read_spec; [intros; apply HE|]. intros w1 live Hg1 Hi1 Hm Hs. cbn [pbind].
  destruct (String.eqb_spec (gsUID (gso live)) (gsUID (gso o))) as [E|]; [cbn [negb]|apply HE].
  assert (uid live = u) as El by (rewrite <- Hu; exact E). rewrite El in Hm.
  assert (honest w1 st) as Hh1 by (eapply honest_same; [..|exact Hh]; by rewrite Hs).
  destruct (negb (String.eqb (oann live wipeGuardAnnotation) "")).
  - apply wclaim_spec; [exact El|intros; apply HE|]. intros w2 g Hi2 Hmg Hs2. apply HQ; [done..|].
    eapply honest_same; [..|exact Hh1]; by rewrite Hs2.
  - apply wsafe_check, load_spec; [done..| |intros; apply HE]. intros w2 st' Hg2 Hi2 Hl. destruct (negb (_ || _)).
    + apply HQ; [done|by eapply mine_grows|by eapply loaded_honest].
    + apply wclaim_spec; [exact El|intros; apply HE|]. intros w3 g Hi3 Hmg Hs3. apply HQ; [done..|].
      eapply honest_same; [..|by eapply loaded_honest]; by rewrite Hs3.
Qed.

(** An inventory without workers. *)
Lemma inventory_drained u w o st : loaded w o st -> uid o = u -> Nat.eqb (length (wkJobs st)) 0 && negb (wkLivePods st) = true -> drained w u.
Proof using Type.
  intros (found & pods & E1 & E2 & ->) Hu [Hj Hp]%andb_true_iff. exists found, pods. split_and!; [done..| |].
  - intros j k n u' -> Ec ->. cbn in Hj. unfold IsControlledBy in Hj. rewrite Ec in Hj. change (gsUID (gso o)) with (uid o) in Hj.
    by rewrite Hu, String.eqb_refl in Hj.
  - intros p Hin Hl. cbn in Hp. destruct (List.filter _ pods) eqn:Ef in Hp; [|done]. clear Hp.
    destruct (decide (u = EmptyString)); [by right|left]. intros El.
    assert (In p []) as []. rewrite <- Ef. apply filter_In. split; [by apply list_elem_of_In|]. rewrite Hl. cbn.
    assert (negb (String.eqb (gsUID (gso o)) "") && String.eqb (ann (wpLabels p) wipeUIDLabel) (gsUID (gso o)) = true) as Hlab.
    { change (gsUID (gso o)) with (uid o). rewrite Hu, El, String.eqb_refl, andb_true_r. by apply negb_true_iff, String.eqb_neq. }
    unfold wipePodOwned. rewrite Hlab. destruct (wpController p) as [[[kd nm] i]|]; [|done]. by destruct (String.eqb kd "Job").
Qed.

(** The Job of the server, as the pass takes it from its inventory. *)
Definition ownJob (o : gsObj) (st : wipeWorkerState) : option wipeJob :=
  if match wkJob st with Some j => negb (IsControlledBy (wjController j) (gso o)) | None => false end then None else wkJob st.
Lemma own_job_proven u w o st j : inv w -> loaded w o st -> uid o = u -> ownJob o st = Some j -> 0 < wjSucceeded j ->
  (u, ann (wjLabels j) wipeTokenLabel) ∈ proven w.
Proof using Type.
  intros (_ & H2 & _) (found & pods & E1 & _ & ->) Hu Hj Hs. unfold ownJob in Hj. cbn in Hj.
  destruct found as [j'|]; [|done]. unfold IsControlledBy in Hj. destruct (wjController j') as [[[k n] u']|] eqn:Ec; [|done].
  destruct (String.eqb_spec u' (gsUID (gso o))) as [E|]; [|done]. cbn in Hj. simplify_eq. by eapply H2.
Qed.

Lemma advance_spec image mount now u w o st guard Q : inv w -> mine u w o -> loaded w o st -> oann o wipeGuardAnnotation = guard ->
  guard <> EmptyString -> (forall r w', Q r w') -> wsafe u w (advanceWipe image mount now o st (ownJob o st) guard) Q.
Proof.
  intros Hi Hm Hl Eg Hne HQ. pose proof Hm as (Hn & Hu & _ & [Hsu Hco] & _).
  assert (forall p : WP (result werr unit), wsafe u w p (fun _ _ => True) -> wsafe u w (pcheck p (fun _ => Ret (Ok o))) Q) as Hkeep.
  { intros p Hp. apply wsafe_check. eapply wsafe_mono; [exact Hp|]. intros [[]|e] w' _; apply HQ. }
  assert (forall o' w', wsafe u w' (setWipeFailed now o') Q) as Hfail.
  { intros o' w'. apply wsafe_call; [done..|]. intros. apply HQ. }
  unfold advanceWipe. set (othersJob := match ownJob o st with Some j => _ | None => false end).
  destruct (negb (pendingWipe (gso o)) || _ || othersJob) eqn:Eb.
  { apply wsafe_check, deletes_spec; [done|exact Hu|]. intros [[]|e] w1 Hg Hi1; [|apply HQ]. destruct (negb (_ && _)); [apply HQ|].
    by apply release_spec. }
  apply orb_false_iff in Eb as [_ Eo]. destruct (String.eqb_spec (oann o wipeSuccessAnnotation) guard) as [Es|Es].
  { destruct (match ownJob o st with Some j => negb (wjDeleting j) | None => false end).
    { apply Hkeep, delete_spec; [done|exact Hu|done]. }
    destruct (negb (_ && _)) eqn:Ed; [apply HQ|]. apply negb_false_iff in Ed.
    apply wsafe_check, release_spec; [done|done| |].
    - intros _. by eapply inventory_drained.
    - intros [o'|e] w1; [|apply HQ]. destruct (negb (String.eqb (oann o' _) _)); [apply HQ|].
      destruct (FindStatusCondition _ _); [|apply HQ]. apply wsafe_call; [done..|]. intros. apply HQ. }
  destruct (ownJob o st) as [j|] eqn:Ej.
  - destruct (wjDeleting j); [apply HQ|]. destruct (Z.ltb_spec 0 (wjSucceeded j)) as [Hs|].
    { unfold othersJob in Eo. apply negb_false_iff, String.eqb_eq in Eo. apply record_spec; [done| |done].
      rewrite <- Eo. by eapply own_job_proven. }
    destruct (wipeJobPermanentlyFailed j); [|apply HQ]. destruct (negb (gsSuspend (gso o))); [|apply Hfail].
    apply update_spec; [exact Hn| | |intros [o'|e] w'; [apply Hfail|apply HQ]].
    + exact Hsu.
    + destruct Hco as [?|?]; auto.
  - destruct (wkBusy st); [apply HQ|]. apply Hkeep, launch_wipe_spec; done.
Qed.

Lemma reconcile_wipe_spec image mount now u w o st Q : inv w -> honest w st -> uid o = u -> (forall r w', Q r w') ->
  wsafe u w (reconcileWipe image mount now o st) Q.
Proof.
  intros Hi Hh Hu HQ. apply wsafe_bind, ensure_guard_spec; [done..|intros w' []; apply HQ|]. intros w1 c g st1 Hi1 Hm Hh1.
  destruct (_ || _); [apply HQ|]. cbv zeta. apply wsafe_check.
  destruct c.
  { cbn [wsafe]. destruct (_ && pendingWipe _); apply HQ. }
  apply load_spec; [done..| |intros; apply HQ]. intros w2 st2 Hg2 Hi2 Hl. apply (mine_grows _ _ _ _ Hg2) in Hm. pose proof Hm as (_ & Hug & _).
  destruct (_ && pendingWipe _); [apply HQ|]. destruct (String.eqb_spec (oann g wipeGuardAnnotation) "") as [|Hne].
  - destruct (Nat.eqb _ 0); [apply HQ|]. apply wsafe_check, delete_spec; [done|exact Hug|]. intros [[]|e'] w3 _ _; apply HQ.
  - destruct (wipeLifecycleReady _ _) as [[]|]; [|apply HQ..]. by apply advance_spec.
Qed.
Lemma wipeStep_safe image mount now w o st Q : inv w -> honest w st -> (forall r w', Q r w') ->
  wsafe (uid o) w (wipeStep image mount now o st) Q.
Proof.
  intros Hi Hh HQ. unfold wipeStep. destruct (_ || _); [by apply reconcile_wipe_spec|]. destruct (_ && _); [|apply HQ].
  apply wsafe_check, delete_spec; [done..|]. intros [[]|e] w1 _ _; apply HQ.
Qed.

(** ** Reachable worlds are safe *)

Lemma wreach_safe w0 tr w : inv w0 -> wreach w0 tr w -> inv w /\ forall B w1 (c : wcall B), WAct w1 c ∈ tr -> exists u, allowed u w1 c.
Proof.
  intros Hi0. induction 1 as [|tr w w1 _ IH Ho|tr w found pods _ IH|tr w image mount now o st tr' w1 _ IH Hh Hs].
  - split; [done|]. intros ??? Hin. by apply elem_of_nil in Hin.
  - split; [|apply IH]. eapply inv_others; [done|]. apply IH.
  - split; [|apply IH]. apply inv_seen; [done|]. apply inv_see_job, IH.
  - destruct IH as [Hi Hall]. destruct (wsafe_steps (uid o) (wipeStep image mount now o st) (fun _ _ => True) w tr' w1 Hi) as [Hi1 Hall1]; [by apply wipeStep_safe|done|].
    split; [done|]. intros B w2 c [Hin|Hin]%elem_of_app; [by apply Hall|]. exists (uid o). by apply Hall1.
Qed.
End Server.

(** The claim, as [Lifecycle] has it, leaves the record of the wipes alone: what
    [answered] lets it do covers every write it makes. *)
Lemma claim_frames `{OwnerCodec} w write live want g : g ∈ (claimLifecycleOperation w write live want).1 ->
  gsName g = gsName live /\ gsUID g = gsUID live /\
  gann g wipeSuccessAnnotation = gann live wipeSuccessAnnotation /\ gann g WipeCompletedAnnotation = gann live WipeCompletedAnnotation.
Proof.
  set (same a b := gsName a = gsName b /\ gsUID a = gsUID b /\
    gann a wipeSuccessAnnotation = gann b wipeSuccessAnnotation /\ gann a WipeCompletedAnnotation = gann b WipeCompletedAnnotation).
  change (g ∈ (claimLifecycleOperation w write live want).1 -> same g live).
  assert (forall before op, claimDecision w live want = Goes (before, op) -> same before live) as Hb.
  { unfold claimDecision, admitFree. intros before op E. repeat case_match; simplify_eq; done. }
  assert (forall b op, same (stamp b op want) b) as Hst.
  { intros b op. unfold stamp, same, gann, ann.
    repeat case_match; cbn -[lookup insert delete]; rewrite ?lookup_insert_ne, ?lookup_delete_ne, ?lookup_insert_ne by done; done. }
  assert (forall b op g', recoverLifecycleOperation w b op = Goes (Some g') -> same g' b) as Hre.
  { intros b op g' E. unfold recoverLifecycleOperation in E. repeat case_match; simplify_eq;
      unfold same, gann, ann; cbn -[lookup insert delete]; rewrite !lookup_delete_ne, !lookup_insert_ne by done; done. }
  assert (forall a b c, same a b -> same b c -> same a c) as Htr by (unfold same; intuition congruence).
  unfold claimLifecycleOperation. destruct (claimDecision w live want) as [| |[before op]] eqn:Ed; [by intros ?%elem_of_nil..|].
  specialize (Hb _ _ eq_refl). destruct (_ && _); [by intros ?%elem_of_nil|].
  assert (forall g, g ∈ (if needsUpdate before (stamp before op want) then [stamp before op want] else []) -> same g live) as Hw.
  { intros g' Hin. destruct (needsUpdate _ _); [|by apply elem_of_nil in Hin]. apply list_elem_of_singleton in Hin as ->. by eapply Htr. }
  destruct (recoverLifecycleOperation w _ op) as [| |[g'|]] eqn:Er; try exact (Hw g).
  destruct (write g'); [|exact (Hw g)]. intros [Hin| ->%list_elem_of_singleton]%elem_of_app; [by apply Hw|].
  eapply Htr; [by eapply Hre|]. by eapply Htr.
Qed.

(** A server nothing was recorded for, or whose completed request is taken as
    given, before anything was seen. *)
Definition fresh (server : string) (w : Wiped) : Prop :=
  seen w = MkSeen None None None None None /\ proven w = [] /\
  match stored w with
  | Some o => nameOf o = server /\ success o = EmptyString /\ known w = [uid o] /\ settled w = [(uid o, completedToken o)]
  | None => settled w = []
  end.
Lemma fresh_record_inv server w : fresh server w -> inv server (settled w) w.
Proof.
  intros (Es & Ep & Hs). split_and!.
  - intros o Ho. rewrite Ho in Hs. destruct Hs as (Hn & E1 & E2 & E3). rewrite E2. split_and!; [done|by left|].
    split; [by left|]. rewrite E3. right. by left.
  - by rewrite Es.
  - intros u t Hin. by right; left.
Qed.

(** C5. However passes of the wipe step are cut off and follow one another, and
    whatever others do to the server between any two calls, every wipe worker is
    created for a server that was last read with exactly this request pending,
    held by the wipe of this request with nothing left to recover and by no
    restore or backup, whose StatefulSet was last read as its own, marked for this
    wipe and scaled to zero, whose data no live pod and no unfinished Job was seen
    to use, and for which this request was not recorded as succeeded or
    completed. *)
Theorem wipe_launched_stopped `{OwnerCodec} server w0 tr w w1 j : fresh server w0 -> wreach server w0 tr w -> WAct w1 (CreateJob j) ∈ tr ->
  launchable server w1 (njOwnerUID j) (ann (njLabels j) wipeTokenLabel).
Proof. intros Hf Hr Hin. by destruct (wreach_safe server _ _ _ _ (fresh_record_inv _ _ Hf) Hr) as [_ Hall]; destruct (Hall _ _ _ Hin) as (u & <- & Hl). Qed.

(** C6. However passes are cut off and others interfere, a request is recorded as
    completed only if it was so at the start or a Job of this server for exactly
    this request was seen to have succeeded; the write that completes it is made
    after the workers were last seen gone, and success is written only on the same
    proof. *)
Theorem wipe_completed_proven `{OwnerCodec} server w0 tr w : fresh server w0 -> wreach server w0 tr w ->
  (forall o, stored w = Some o -> completedToken o = EmptyString \/ (uid o, completedToken o) ∈ settled w0 \/ (uid o, completedToken o) ∈ proven w) /\
  (forall w1 o, WAct w1 (UpdateGS o) ∈ tr ->
     (success o = EmptyString \/ (uid o, success o) ∈ proven w1) /\
     (completedToken o = EmptyString \/ (uid o, completedToken o) ∈ settled w1 \/ ((uid o, completedToken o) ∈ proven w1 /\ drained w1 (uid o)))).
Proof.
  intros Hf Hr. destruct (wreach_safe server _ _ _ _ (fresh_record_inv _ _ Hf) Hr) as [(H1 & _ & H3) Hall]. split.
  - intros o Ho. destruct (H1 o Ho) as (_ & _ & _ & [?|Hc]); [by left|by apply H3].
  - intros w1 o Hin. destruct (Hall _ _ _ Hin) as (u & _ & Ha). exact Ha.
Qed.
