(* ===== verification/WipeScenario.v ===== *)
(** * A wipe from start to end

    Three passes of the wipe step in a world that answers: the worker is created,
    its success is recorded, and the request is acknowledged once the Job is gone.
    The run is what the theorems of [WipeFacts] are applied to. *)

From S2P Require Import Prelude GoText GoTime GoToken GameServer Idle Lifecycle LifecycleFacts Power Prog Wipe WipeFacts.
Local Open Scope Z_scope.

(** What the cluster answers during one pass. *)
Record cluster := MkCluster { clJob : result werr wipeJob; clSet : wipeSet; clPods : list wipePod; clJobs : list wipeJob }.

Definition reply (e : cluster) (w : Wiped) {B} (c : wcall B) : result werr B * Wiped :=
  match c with
  | GetGS => match stored w with Some o => (Ok o, see_gs (Ok o) w) | None => (Err NotFoundW, see_gs (Err NotFoundW) w) end
  | UpdateGS o =>
      match stored w with
      | Some cur =>
          if decide (gsVersion cur = gsVersion o /\ uid cur = uid o)
          then let o' := MkGsObj (gso o) (gsVersion o +:+ "'") (gsConditions cur) in (Ok o', store o' w)
          else (Err OtherW, w)
      | None => (Err NotFoundW, w)
      end
  | PatchStatus o =>
      match stored w with
      | Some cur => let o' := MkGsObj (gso cur) (gsVersion cur +:+ "'") (gsConditions o) in (Ok o', store o' w)
      | None => (Err NotFoundW, w)
      end
  | Claim want =>
      match stored w with
      | Some cur => if decide (uid cur = TargetUID want) then (Ok cur, store cur w) else (Err OtherW, w)
      | None => (Err NotFoundW, w)
      end
  | GetJob _ => (clJob e, see_job (clJob e) w)
  | DeleteJob _ _ => (Ok (), w)
  | CreateJob _ => (Ok (), w)
  | ListPods => (Ok (clPods e), see_pods (Ok (clPods e)) w)
  | ListJobs => (Ok (clJobs e), see_jobs (Ok (clJobs e)) w)
  | GetSet => (Ok (clSet e), see_set (Ok (clSet e)) w)
  | UpdateSet _ => (Ok (), w)
  end.

Fixpoint played {A} (e : cluster) (w : Wiped) (p : WP A) : list wact * Wiped :=
  match p with
  | Call c k => let '(tr, w') := played e (reply e w c).2 (k (reply e w c).1) in (WAct w c :: tr, w')
  | _ => ([], w)
  end.

Lemma reply_answered e w {B} (c : wcall B) : answered w c (reply e w c).1 (reply e w c).2.
Proof.
  destruct c as [|o|o|want| | | | | | |]; cbn; try done.
  - by destruct (stored w) as [o|] eqn:E.
  - destruct (stored w) as [cur|] eqn:E; [|by left; eauto]. destruct (decide _) as [[H1 H2]|]; [|by left; eauto].
    right. exists cur, (gsVersion o +:+ "'"). by split_and!; auto.
  - destruct (stored w) as [cur|] eqn:E; [|by left; eauto]. right. exists cur, (gsVersion cur +:+ "'"). by split_and!; auto.
  - destruct (stored w) as [cur|] eqn:E; [|by left; eauto]. destruct (decide _); [|by left; eauto].
    right. exists cur, cur, cur. by split_and!; auto.
Qed.
Definition knows (w : Wiped) : Prop := forall o, stored w = Some o -> uid o ∈ known w.
Lemma knows_others server w : knows w -> others server w w.
Proof. intros Hk. split_and!; [done..|]. intros o Ho. split; [by apply Hk|]. left. by exists o. Qed.
Lemma reply_knows e w {B} (c : wcall B) : knows w -> knows (reply e w c).2.
Proof.
  assert (forall o, knows (store o w)) as Hs by (intros o o' [= <-]; by left).
  intros Hk. destruct c; cbn; repeat (case_match; cbn); try done; try apply Hs.
  unfold see_job. by repeat case_match.
Qed.
Lemma played_steps server e {A} (p : WP A) w : knows w -> steps server w p (played e w p).1 (played e w p).2 /\ knows (played e w p).2.
Proof.
  revert w. induction p as [a|B c k IH|]; intros w Hk; cbn; [by split; [left|]| |by split; [left|]].
  destruct (IH (reply e w c).1 (reply e w c).2 (reply_knows e w c Hk)) as [Hst Hk'].
  destruct (played e _ _) as [tr w']. cbn in *. split; [|done]. right. exists w, (reply e w c).1, (reply e w c).2, tr.
  split_and!; [done|by apply knows_others|apply reply_answered|done].
Qed.

(** ** The run *)

Module WipeRun.
Definition base : GS := MkGameServer "mc" "u1" 1 false {[WipeRequestedAnnotation := "t1"]} true.
Definition held : GS := stamp base (MkOp (wipeLifecycleIdentity base "t1") []) (wipeLifecycleIdentity base "t1").
Definition obj : gsObj := MkGsObj held "7" [].
Definition w0 : Wiped := MkWiped (Some obj) (MkSeen None None None None None) ["u1"] [] [("u1", EmptyString)].
Definition set0 : wipeSet := MkWipeSet (Some ("GameServer", "mc", "u1")) {[wipeGuardAnnotation := "t1"]} (Some 0) 0 3 3.
Definition worker : wipeJob :=
  MkWipeJob "mc-wipe" "j1" (Some ("GameServer", "mc", "u1")) {[wipeTokenLabel := "t1"]} false 0 1 [("Complete", "True")] ["mc-data"].
Definition before : cluster := MkCluster (Err NotFoundW) set0 [] [].
Definition after : cluster := MkCluster (Ok worker) set0 [] [worker].

Definition step_of (w : Wiped) : WP (result werr gsObj) := wipeStep "" "" 0 obj noWorkers.
Definition pass1 := played before w0 (step_of w0).
Definition pass2 := played after pass1.2 (step_of w0).
Definition pass3 := played before pass2.2 (step_of w0).

Lemma w0_fresh : fresh "mc" w0.
Proof. split_and!; [reflexivity..|]. split_and!; vm_compute; reflexivity. Qed.
Lemma w0_knows : knows w0.
Proof. intros o [= <-]. by left. Qed.
Lemma pass_reach e tr w : wreach "mc" w0 tr w -> knows w ->
  wreach "mc" w0 (tr ++ (played e w (step_of w0)).1) (played e w (step_of w0)).2 /\ knows (played e w (step_of w0)).2.
Proof.
  intros Hr Hk. destruct (played_steps "mc" e (step_of w0) w Hk) as [Hs Hk']. split; [|done].
  refine (wreach_pass _ _ _ _ "" "" 0 obj noWorkers _ _ Hr _ Hs). intros E. discriminate E.
Qed.
Lemma reach1 : wreach "mc" w0 ([] ++ pass1.1) pass1.2 /\ knows pass1.2.
Proof. apply pass_reach; [apply wreach_start|apply w0_knows]. Qed.
Lemma reach3 : wreach "mc" w0 ((([] ++ pass1.1) ++ pass2.1) ++ pass3.1) pass3.2.
Proof.
  destruct reach1 as [Hr1 Hk1]. destruct (pass_reach after _ _ Hr1 Hk1) as [Hr2 Hk2]. exact (proj1 (pass_reach before _ _ Hr2 Hk2)).
Qed.

(** The creation of the worker. *)
Definition launch : Wiped * newJob :=
  match List.find (fun a => match a with WAct _ (CreateJob _) => true | _ => false end) pass1.1 with
  | Some (WAct w (CreateJob j)) => (w, j)
  | _ => (w0, wipeJobFor EmptyString EmptyString base EmptyString EmptyString)
  end.
End WipeRun.

(** The first pass starts the worker of the request. *)
Lemma wipe_launched_stopped_witness : njClaim WipeRun.launch.2 = "mc-data" /\ launchable "mc" WipeRun.launch.1 "u1" "t1".
Proof.
  split; [vm_compute; reflexivity|].
  apply (wipe_launched_stopped "mc" WipeRun.w0 ([] ++ WipeRun.pass1.1) WipeRun.pass1.2 WipeRun.launch.1 WipeRun.launch.2
    WipeRun.w0_fresh (proj1 WipeRun.reach1)).
  apply (list_elem_of_lookup_2 _ 8%nat). vm_compute. reflexivity.
Defined.

(** After the third the request is completed, and was proven. *)
Lemma wipe_completed_proven_witness : exists o, stored WipeRun.pass3.2 = Some o /\ completedToken o = "t1" /\
  (completedToken o = EmptyString \/ (uid o, completedToken o) ∈ settled WipeRun.w0 \/ (uid o, completedToken o) ∈ proven WipeRun.pass3.2).
Proof.
  assert (exists o, stored WipeRun.pass3.2 = Some o /\ completedToken o = "t1") as (o & Ho & Hc)
    by (eexists; split; vm_compute; reflexivity).
  exists o. split; [exact Ho|]. split; [exact Hc|].
  exact (proj1 (wipe_completed_proven "mc" WipeRun.w0 _ WipeRun.pass3.2 WipeRun.w0_fresh WipeRun.reach3) o Ho).
Defined.
